(* ===== verification/_CoqProject ===== *)
-Q . S2P
Prelude.v
GoIO.v
GoStrings.v
GoUnicode.v
GoFloat.v
Wire.v
BinaryFrame.v
Breaker.v
RouterBreaker.v
LoadBalancer.v
RequestQueue.v
NamespaceRouter.v
Hybrid.v
SlidingWindow.v
RateLimit.v
RouterRateLimit.v
GatewayErrors.v
ErrorCatalog.v
Validation.v
Session.v
GatewayPool.v
Goroutines.v
ConnPool.v
ConnPoolTheorems.v
PooledClient.v
Mcp.v
SseStream.v
Discovery.v
GatewayRouter.v
CommonErrors.v
ConnManager.v
Retry.v
Adaptive.v
MessageRouter.v
MessageRouterTheorems.v
ConfigValidation.v
Auth.v
Server.v
Transport.v
Frontends.v
Streams.v
StreamsTheorems.v
SseFrontend.v
WsFrontend.v
DirectClient.v
DirectClientTheorems.v
DirectStdio.v
DirectWs.v
DirectSse.v
DirectHttp.v
DirectConfig.v
DirectManager.v
TcpFrontend.v
StdioFrontend.v
TcpHandler.v
Backends.v
BackendTheorems.v
BackendStdio.v
BackendWs.v
BackendSse.v
BackendFactory.v
