(* ===== verification/Prelude.v ===== *)
(** * mcp-bridge: a verified model of its core

    mcp-bridge connects MCP clients to MCP servers.  A _router_ runs beside the
    client, reads JSON-RPC messages, queues and limits them, chooses a gateway and
    talks to it over framed connections behind a circuit breaker.  A _gateway_
    terminates those connections, authenticates and limits the caller, keeps
    sessions, and balances requests over the endpoints that discovery reports.  This
    library translates the parts with their own logic into executable definitions and
    proves what makes them correct.

    ** Files and the code they model (paths below src/services/)

    - [Prelude]: results, a state-and-error monad, machine integers with
      wrap-around, instants and durations, counting on lists, tactics, the [mcp] hints.
    - [GoIO], [GoStrings], [GoUnicode], [GoFloat]: what the components use of packages io,
      bytes, strings and unicode/utf8, and the float64 operations.
    - [Wire]: gateway/pkg/wire/protocol.go.  [Encode] writes to any [Writer] (its
      partial writes included), [Decode] consumes a byte stream; version negotiation.
    - [BinaryFrame]: router/internal/gateway/binary_frame.go and constants.go.
    - [Breaker]: gateway/pkg/circuit/breaker.go.  One operation per critical section;
      concurrent callers and the recovery goroutine as a step relation [step].
    - [RouterBreaker]: router/internal/gateway/circuit_breaker.go around an arbitrary
      client, with its failure window.
    - [LoadBalancer]: gateway/pkg/loadbalancer/loadbalancer.go and the endpoint of
      internal/discovery/types.go.  Balancers hold pointers; every operation reads the
      store of the moment, which the health checker changes.  The class
      [LoadBalancer] is the Go interface, [LawfulBalancer] what its clients rely on.
    - [Hybrid]: gateway/pkg/loadbalancer/hybrid.go, across protocols.
    - [RequestQueue]: router/internal/router/request_queue.go and the drain of
      message_router.go, with the response channels as a shared store.
    - [NamespaceRouter]: router/internal/gateway/namespace_router.go; regexp is a class.
    - [GatewayPool]: router/internal/gateway/pool.go, endpoint_selector.go and
      pool_client.go; the client of an endpoint is a class, math/rand a stream of draws.
    - [SlidingWindow]: the reference of the limiters, a complete log of admissions.
    - [RateLimit]: gateway/internal/ratelimit/ (in memory, Redis, Redis behind the
      breaker of [Breaker] with a fallback, breaker-protected session commands);
      Redis is a class that states its counters and expiry.
    - [RouterRateLimit]: router/internal/ratelimit/ratelimit.go; the token bucket
      computes on IEEE binary64 as float64 does.
    - [GatewayErrors]: gateway/internal/errors/ with a heap of errors and context maps;
      [ErrorCatalog]: the constructors of its validation, backend, discovery and server files.
    - [Session]: gateway/internal/session/: the in-memory manager with a heap of
      sessions aliased by table and callers, and the Redis manager over a class of
      string commands and a JSON codec.
    - [Validation]: gateway/internal/validation/validation.go; net/url is a class.
    - [ConfigValidation]: gateway/internal/config/validation.go on the structures of types.go.
    - [ConnPool], [ConnPoolTheorems]: router/internal/pool/pool.go and
      connection_acquirer.go as a step relation of acquirers, releasers, maintenance, health
      checks and Close; [PooledClient]: manager.go of the same package.
    - [Mcp]: router/pkg/mcp/types.go, with encoding/json as a class and a codec that meets it.
    - [Discovery]: gateway/internal/discovery/static.go behind the class of its interface.
    - [SseStream], [GatewayRouter]: gateway/internal/router/ (router.go, router_errors.go):
      selection, forwarding over HTTP, WebSocket and SSE, backend sessions, breakers and
      health rounds; the network is a class.
    - [CommonErrors], [Retry]: pkg/common/errors/ (codes, handler, interceptor, retry policies).
    - [Adaptive]: router/internal/direct/ retry.go, adaptive.go, timeout_adapter.go.
    - [Goroutines]: programs over atomic commands, their interleavings, a typing of programs by
      what a goroutine owns, and the counting of commands over all paths.
    - [ConnManager], [MessageRouter], [MessageRouterTheorems]: router/internal/router/
      (connection_manager.go, metrics_collector.go, message_router.go, the shutdown of
      router.go) as programs of [Goroutines] over one shared state.
    - [Auth]: gateway/internal/auth/ (provider.go, oauth2.go, message_auth.go); the class
      [Provider] is the Go interface, the JWT library and the introspection call are classes.
    - [Server]: gateway/internal/server/server.go: shared HTTP servers over response writers.
    - [Transport]: gateway/pkg/wire/transport.go and auth_message.go over the frames of [Wire].
    - [Frontends]: gateway/internal/frontends/: wire messages, configurations, factory, HTTP.
    - [Streams], [StreamsTheorems]: the connections that the frontends of sse/ and websocket/
      keep, as commands of [Goroutines], and the discipline of the goroutines that use them;
      [SseFrontend], [WsFrontend]: those goroutines.  [TcpFrontend], [StdioFrontend]: the frontends
      of tcp/ and stdio/ as step relations over their connections.  [TcpHandler]:
      gateway/internal/server/tcp_handler.go, a connection message by message.
    - [DirectClient], [DirectClientTheorems]: router/internal/direct/ types.go, the state that its
      three streaming clients share, as commands of [Goroutines], and the discipline of the
      goroutines that use it; [DirectStdio], [DirectWs], [DirectSse]: the programs of the clients
      (stdio_*.go, websocket_*.go, sse_*.go), and the parser of server-sent events.
    - [DirectHttp]: http_*.go of that package, with the buffers its requests share; [DirectConfig]:
      the settings of its manager and the clients made from them; [DirectManager]: manager.go,
      protocol_detector.go, protocol_hint_analyzer.go, connection_pool.go and the shutdown.

    - [Backends], [BackendTheorems]: gateway/internal/backends/, what its three backends share, as
      commands of [Goroutines], and the discipline of the goroutines that use it; [BackendStdio],
      [BackendWs], [BackendSse]: the programs of the backends; [BackendFactory]: factory.go.

    The local router is [MessageRouter] over [RequestQueue], [ConnManager] and a gateway client
    ([GatewayPool], [RouterBreaker], [PooledClient], frames of [BinaryFrame]); the gateway is
    [GatewayRouter] over [Discovery], [LoadBalancer] and [Breaker], behind the frontends
    ([Frontends], [SseFrontend], [WsFrontend], [TcpFrontend], [StdioFrontend], served by [Server]) that ask [Auth] and
    [Session] who calls; [GatewayErrors] is below all of them.  [RateLimit], [Validation] and
    the message tokens of [Auth] are used by [TcpHandler] only, which nothing creates.

    ** What the theorems show

    - Framing: any sequence of valid frames is read back, every accepted stream is the
      encoding of what was returned, truncated input is an error, oversized payloads are
      written but never read; router and gateway frames do not understand each other.
    - Breakers: the gateway breaker opens exactly after a run of failures, stays open
      until its timeout under all interleavings, and closes after the configured
      successes; the counters and the failure window of the router breaker, and the
      state in which it stops protecting.
    - Balancing: every balancer returns healthy endpoints of the current list; round
      robin is complete and fair, least connections is minimal and keeps the spread
      below two, weighted selection follows the weights, the hybrid balancer follows
      the preference order, the pool's strategies keep their promises and its retry
      selector agrees with them.
    - Limits: both sliding-window limiters decide as if they kept the complete log, so
      no window anywhere exceeds the limit; the Redis limiter is bounded per minute
      whatever errors occur; with Redis down the answers are those of the fallback.
    - Queue and routing: the queue neither loses nor duplicates requests and answers
      each exactly once; requests follow the matching rule of best priority.
    - Sessions: the background clean-up is invisible; a stored session reads back
      until it expires; the two managers differ on updating a removed session.
    - Errors: wrapping keeps type, retryability and status; matching is by type only; every
      constructor has the class its file documents; the HTTP, JSON-RPC and gRPC renderings of
      a common error agree, and the table of codes is complete.
    - Local router: under every interleaving no response channel is misused and only what was
      asked for reaches stdout; one message gets one answer while the router is connected;
      the fallback to the gateway cannot fail, refused calls are repeated, reconnection stops
      after eleven attempts.
    - Connection pool: a connection is in one place at a time; how far the capacity holds.
    - Gateway router: it selects healthy endpoints that discovery reports, a routed request
      ends with a response or an error of a known class, a session stays with its backend
      session, an open breaker fails fast; SSE bodies are read back and responses reach the
      request of their id.
    - Authentication: a JWT passes exactly when it is signed and its claims hold; a cached
      message token is backed by a validation; the clean-up of the cache is invisible.
    - Frontends: HTTP requests are routed only for authenticated callers, in their session;
      under every interleaving an SSE stream carries only keepalives and responses to its
      user's requests, a WebSocket connection only responses and errors of its own session,
      each message gets one reply, the connection counts are exact between steps, and what
      can stop the gateway is named.  A TCP connection is answered in order, once the session
      manager accepts it, which neither does; a stdio request is accounted for until it is
      answered, and which readers never end.  The TCP handler routes only what was negotiated,
      authenticated, well-formed and within the limit, and what can panic it is named.
    - Direct clients: under every interleaving a call returns only a response of its own id that the
      server sent (over HTTP: what the server answered to its request, whatever the id); what can
      stop the router is named; the SSE client reads from the gateway's SSE frontend exactly the
      responses written.
    - Direct manager: it never panics and returns clients of a protocol that can speak to the URL;
      the counter of its pool is exact and bounded; what is cached expires; when the fallback
      is of no use, and which clients are never closed.
    - Backends: under every interleaving a request returns only a response of its own id that the
      process or server sent, a pooled connection carries one request at a time, and what can stop
      the gateway is named; the factory accepts exactly the supported protocols.
    - Messages: what the transport sends is received, authenticated or not; the answer of
      the first handler on a shared address is final.
    - Configuration: validation accepts exactly the configurations of [config_spec].
    - Retries: both retry loops end, with the outcome the policy promises.

    ** Conventions and bounds

    Clock readings are arguments, in nanoseconds; several readings of one operation
    are separate arguments.  Go ints are [Z] with the wrap-around of their width where
    a theorem depends on it; the hypotheses of such theorems say how far counters are
    from their limits.  Loops are structural on the data they scan, except the retry
    loop of the pool client (fuel: the number of attempts), the exchange sort of the
    namespace router (fuel: the length of the slice, the bound of its outer loop) and
    the waiting loops of the limiters (they run over a schedule and say so when it
    ends).  A Go panic is a value: [None] or a constructor of the error type.  Shared
    mutable objects (endpoints, sessions, errors, channels) are pointers into a store.

    ** What is not modelled

    Logging, metrics, tracing and formatting of messages have no effect on the state
    and are left out (the router's counters are modelled).  Network and process I/O
    (the router's gateway clients, discovery services, credential stores) and
    third-party packages (Redis, regexp, JSON, JWT) are parameters or are not modelled.
    Still to be modelled, in this order: the router's
    configuration, multiplexer and converter, predictive health. *)
From stdpp Require Export base list gmap strings numbers sorting.
From Stdlib Require Export ZArith Lia.
#[local] Open Scope Z_scope.

(** ** Results of fallible Go functions *)

Inductive result (E A : Type) : Type :=
| Ok (a : A)
| Err (e : E).
Arguments Ok {E A} a.
Arguments Err {E A} e.

#[export] Instance result_ret E : MRet (result E) := fun A a => Ok a.
#[export] Instance result_bind E : MBind (result E) :=
  fun A B f m => match m with Ok a => f a | Err e => Err e end.
#[export] Instance result_eq_dec `{EqDecision E, EqDecision A} : EqDecision (result E A).
Proof. solve_decision. Defined.

Definition is_ok {E A} (r : result E A) : bool :=
  match r with Ok _ => true | Err _ => false end.

(** Go's [if err := check(); err != nil { return err }] over a list of guards:
    the first guard that fires gives the error. *)
Fixpoint first_error {E} (guards : list (bool * E)) : result E unit :=
  match guards with
  | [] => Ok tt
  | (b, e) :: gs => if b then Err e else first_error gs
  end.

(** Appending strings. *)
Lemma string_app_assoc (a b c : string) : (a +:+ (b +:+ c))%string = ((a +:+ b) +:+ c)%string.
Proof. induction a as [|x a IH]; [done|]. exact (f_equal (String x) IH). Qed.

Lemma first_error_ok {E} (gs : list (bool * E)) :
  first_error gs = Ok tt <-> Forall (fun g => fst g = false) gs.
Proof.
  induction gs as [|[[] e] gs IH]; cbn.
  - split; [constructor|done].
  - rewrite Forall_cons. cbn. naive_solver.
  - rewrite IH, Forall_cons. naive_solver.
Qed.

Lemma first_error_err {E} (gs : list (bool * E)) e : first_error gs = Err e -> e ∈ (snd <$> gs).
Proof. induction gs as [|[[] e'] gs IH]; cbn; [done| |]; intros H; simplify_eq; set_solver. Qed.

(** ** Stateful fallible code

    [M S E A] threads a state of type [S] (a stream being read, a sink being
    written) through calls that may fail.  The state is returned on the error
    path too: what a failed call has consumed or written stays consumed. *)

Definition M (S E A : Type) : Type := S -> result E A * S.

#[export] Instance M_ret S E : MRet (M S E) := fun A a s => (Ok a, s).
#[export] Instance M_bind S E : MBind (M S E) :=
  fun A B f m s => match m s with
                   | (Ok a, s') => f a s'
                   | (Err e, s') => (Err e, s')
                   end.

Definition M_fail {S E A} (e : E) : M S E A := fun s => (Err e, s).

(** [fmt.Errorf("...: %w", err)]: a call whose error is wrapped. *)
Definition M_wrap {S E F A} (g : E -> F) (m : M S E A) : M S F A :=
  fun s => match m s with
           | (Ok a, s') => (Ok a, s')
           | (Err e, s') => (Err (g e), s')
           end.

Lemma M_bind_ok {S E A B} (m : M S E A) (f : A -> M S E B) s a s' :
  m s = (Ok a, s') -> (m ≫= f) s = f a s'.
Proof. unfold mbind, M_bind. by intros ->. Qed.

Lemma M_bind_err {S E A B} (m : M S E A) (f : A -> M S E B) s e s' :
  m s = (Err e, s') -> (m ≫= f) s = (Err e, s').
Proof. unfold mbind, M_bind. by intros ->. Qed.

Lemma M_bind_ok_inv {S E A B} (m : M S E A) (f : A -> M S E B) s b s'' :
  (m ≫= f) s = (Ok b, s'') -> exists a s', m s = (Ok a, s') /\ f a s' = (Ok b, s'').
Proof. unfold mbind, M_bind. destruct (m s) as [[a|e] s']; naive_solver. Qed.

Lemma M_wrap_ok {S E F A} (g : E -> F) (m : M S E A) s a s' :
  m s = (Ok a, s') -> M_wrap g m s = (Ok a, s').
Proof. unfold M_wrap. by intros ->. Qed.

Lemma M_wrap_ok_inv {S E F A} (g : E -> F) (m : M S E A) s a s' :
  M_wrap g m s = (Ok a, s') -> m s = (Ok a, s').
Proof. unfold M_wrap. destruct (m s) as [[b|e] s'']; naive_solver. Qed.

(** ** Machine integers *)

(** Unsigned and two's complement wrap-around at width [w]. *)
Definition wrap_u (w z : Z) : Z := z mod 2 ^ w.
Definition wrap_s (w z : Z) : Z := (z + 2 ^ (w - 1)) mod 2 ^ w - 2 ^ (w - 1).

Definition u64_add (a b : Z) : Z := wrap_u 64 (a + b).
Definition i64_add (a b : Z) : Z := wrap_s 64 (a + b).

Definition max_i64 : Z := 2 ^ 63 - 1.
Definition min_i64 : Z := - 2 ^ 63.

Lemma wrap_u_small w z : 0 <= z < 2 ^ w -> wrap_u w z = z.
Proof. intros. by apply Z.mod_small. Qed.

Lemma wrap_u_range w z : 0 <= w -> 0 <= wrap_u w z < 2 ^ w.
Proof. intros. apply Z.mod_pos_bound. by apply Z.pow_pos_nonneg. Qed.

Lemma wrap_s_small w z : 0 < w -> - 2 ^ (w - 1) <= z < 2 ^ (w - 1) -> wrap_s w z = z.
Proof.
  intros Hw Hz. unfold wrap_s.
  assert (2 ^ w = 2 * 2 ^ (w - 1)) as E.
  { replace w with (1 + (w - 1)) at 1 by lia. rewrite Z.pow_add_r; lia. }
  rewrite Z.mod_small; lia.
Qed.

Lemma i64_add_small a b : min_i64 <= a + b <= max_i64 -> i64_add a b = a + b.
Proof. unfold min_i64, max_i64. intros. apply wrap_s_small; lia. Qed.

Lemma u64_add_small a b : 0 <= a + b < 2 ^ 64 -> u64_add a b = a + b.
Proof. apply wrap_u_small. Qed.

Lemma wrap_s_add_l w a b : 0 < w -> wrap_s w (wrap_s w a + b) = wrap_s w (a + b).
Proof.
  intros Hw. unfold wrap_s. f_equal.
  replace ((a + 2 ^ (w - 1)) mod 2 ^ w - 2 ^ (w - 1) + b + 2 ^ (w - 1))
    with ((a + 2 ^ (w - 1)) mod 2 ^ w + b) by lia.
  rewrite Zplus_mod_idemp_l. f_equal. lia.
Qed.

Lemma i64_add_wrap a b c : wrap_s 64 (a + i64_add b c) = wrap_s 64 (a + b + c).
Proof. unfold i64_add. rewrite Z.add_comm, wrap_s_add_l by lia. f_equal. lia. Qed.

#[global] Arguments wrap_u : simpl never.
#[global] Arguments wrap_s : simpl never.
#[global] Arguments i64_add : simpl never.
#[global] Arguments u64_add : simpl never.

(** ** Instants and durations

    A [time.Time] is a number of nanoseconds since the Unix epoch and a
    [time.Duration] an int64 number of nanoseconds.  [Add] is exact, [Sub]
    saturates at the ends of the int64 range as documented, and negating a
    duration wraps. *)

Definition Second : Z := 1000000000.
Definition Millisecond : Z := 1000000.
Definition Minute : Z := 60 * Second.

(** The zero value of [time.Time]: January 1, year 1, 00:00:00 UTC. *)
Definition time_zero : Z := -62135596800 * Second.

Definition time_sub (t u : Z) : Z := Z.min max_i64 (Z.max min_i64 (t - u)).
Definition time_add (t d : Z) : Z := t + d.
Definition time_after (t u : Z) : bool := u <? t.
Definition dur_neg (d : Z) : Z := wrap_s 64 (- d).

Lemma dur_neg_small d : 0 <= d <= max_i64 -> dur_neg d = - d.
Proof. unfold max_i64. intros. apply wrap_s_small; lia. Qed.

Lemma time_sub_small t u : min_i64 <= t - u <= max_i64 -> time_sub t u = t - u.
Proof. unfold time_sub. lia. Qed.

Lemma time_sub_mono t t' u : t <= t' -> time_sub t u <= time_sub t' u.
Proof. unfold time_sub. lia. Qed.

(** ** Lists *)

(** Number of elements satisfying a boolean test, as a Go [int] counter. *)
Definition count {A} (p : A -> bool) (l : list A) : Z :=
  Z.of_nat (length (List.filter p l)).

Definition zlen {A} (l : list A) : Z := Z.of_nat (length l).

Lemma zlen_nonneg {A} (l : list A) : 0 <= zlen l.
Proof. unfold zlen. lia. Qed.

Lemma zlen_app {A} (l k : list A) : zlen (l ++ k) = zlen l + zlen k.
Proof. unfold zlen. rewrite length_app. lia. Qed.

Lemma zlen_nil_inv {A} (l : list A) : zlen l = 0 -> l = [].
Proof. unfold zlen. destruct l; [done | cbn; lia]. Qed.

Lemma count_nil {A} (p : A -> bool) : count p [] = 0.
Proof. done. Qed.

Lemma count_cons {A} (p : A -> bool) x l :
  count p (x :: l) = (if p x then 1 else 0) + count p l.
Proof. unfold count. cbn. destruct (p x); cbn; lia. Qed.

Lemma count_app {A} (p : A -> bool) l k : count p (l ++ k) = count p l + count p k.
Proof. unfold count. rewrite List.filter_app, length_app. lia. Qed.

Lemma count_nonneg {A} (p : A -> bool) l : 0 <= count p l.
Proof. unfold count. lia. Qed.

Lemma count_le_zlen {A} (p : A -> bool) l : count p l <= zlen l.
Proof. unfold count, zlen. pose proof (List.filter_length_le p l). lia. Qed.

Lemma count_mono {A} (p q : A -> bool) l :
  (forall x, x ∈ l -> p x = true -> q x = true) -> count p l <= count q l.
Proof.
  induction l as [|x l IH]; intros H; [done|].
  rewrite !count_cons.
  assert (count p l <= count q l) by (apply IH; intros; apply H; set_solver).
  specialize (H x ltac:(set_solver)). destruct (p x), (q x); naive_solver lia.
Qed.

Lemma count_ext {A} (p q : A -> bool) l :
  (forall x, x ∈ l -> p x = q x) -> count p l = count q l.
Proof.
  intros H. apply Z.le_antisymm; apply count_mono; intros x Hx; by rewrite H.
Qed.

Lemma count_filter {A} (p q : A -> bool) l :
  count p (List.filter q l) = count (fun x => q x && p x) l.
Proof.
  induction l as [|x l IH]; [done|]. cbn [List.filter].
  destruct (q x) eqn:E; rewrite !count_cons, ?E, ?IH; cbn; lia.
Qed.

Lemma elem_of_filter_bool {A} (p : A -> bool) (l : list A) x :
  x ∈ List.filter p l <-> p x = true /\ x ∈ l.
Proof. rewrite !list_elem_of_In, List.filter_In. tauto. Qed.

Lemma filter_nil_iff {A} (p : A -> bool) (l : list A) :
  List.filter p l = [] <-> forall x, x ∈ l -> p x = false.
Proof.
  split.
  - intros H x Hx. destruct (p x) eqn:E; [|done].
    assert (x ∈ List.filter p l) as F by by apply elem_of_filter_bool.
    rewrite H in F. set_solver.
  - induction l as [|x l IH]; intros H; [done|]. cbn.
    rewrite (H x) by set_solver. apply IH. set_solver.
Qed.

(** ** Automation *)

(** Case analysis on the tests of a Go [if]: integer comparisons become
    inequalities, other boolean and option tests equations. *)
Ltac case_tests :=
  repeat match goal with
  | |- context [if ?a <? ?b then _ else _] => destruct (Z.ltb_spec a b)
  | |- context [if ?a <=? ?b then _ else _] => destruct (Z.leb_spec a b)
  | |- context [if ?a =? ?b then _ else _] => destruct (Z.eqb_spec a b)
  | |- context [if ?b then _ else _] => let E := fresh "E" in destruct b eqn:E
  | |- context [match ?x with Ok _ => _ | Err _ => _ end] =>
      let E := fresh "E" in destruct x eqn:E
  | |- context [match ?x with Some _ => _ | None => _ end] =>
      let E := fresh "E" in destruct x eqn:E
  end.

(** Turns boolean facts of the context into propositions [lia] reads. *)
Ltac bool_to_prop :=
  repeat match goal with
  | H : (_ && _)%bool = true |- _ => apply andb_prop in H as [? ?]
  | H : (_ || _)%bool = false |- _ => apply orb_false_elim in H as [? ?]
  | H : (_ <? _) = true |- _ => apply Z.ltb_lt in H
  | H : (_ <? _) = false |- _ => apply Z.ltb_ge in H
  | H : (_ <=? _) = true |- _ => apply Z.leb_le in H
  | H : (_ <=? _) = false |- _ => apply Z.leb_gt in H
  | H : (_ =? _) = true |- _ => apply Z.eqb_eq in H
  | H : (_ =? _) = false |- _ => apply Z.eqb_neq in H
  | H : negb _ = true |- _ => apply negb_true_iff in H
  | H : negb _ = false |- _ => apply negb_false_iff in H
  end.

Create HintDb mcp.
#[export] Hint Resolve zlen_nonneg count_nonneg count_le_zlen : mcp.
#[export] Hint Rewrite @count_nil @count_cons @count_app @zlen_app : mcp.
