(* ===== verification/GoIO.v ===== *)
(** * Byte streams of the Go standard library

    What the wire protocols use of [io], [bytes] and [encoding/binary]: bytes,
    big-endian integers of fixed width, [io.ReadFull] on a finite stream, and
    the [io.Writer] interface with the in-memory buffer that implements it. *)
From S2P Require Import Prelude.
From Stdlib Require Import Strings.Byte.
#[local] Open Scope Z_scope.

Notation byte := Byte.byte.

Definition Z_of_byte (b : byte) : Z := Z.of_N (Byte.to_N b).
Definition byte_of_Z (z : Z) : byte :=
  match Byte.of_N (Z.to_N (z mod 256)) with Some b => b | None => Byte.x00 end.

Lemma Z_of_byte_range b : 0 <= Z_of_byte b < 256.
Proof. unfold Z_of_byte. pose proof (Byte.to_N_bounded b). lia. Qed.

Lemma byte_of_Z_of_byte b : byte_of_Z (Z_of_byte b) = b.
Proof.
  unfold byte_of_Z. rewrite Z.mod_small by apply Z_of_byte_range.
  unfold Z_of_byte. by rewrite N2Z.id, Byte.of_to_N.
Qed.

Lemma Z_of_byte_of_Z z : Z_of_byte (byte_of_Z z) = z mod 256.
Proof.
  unfold byte_of_Z. pose proof (Z.mod_pos_bound z 256 ltac:(lia)).
  destruct (Byte.of_N _) as [b|] eqn:E.
  - apply Byte.to_of_N in E. unfold Z_of_byte. rewrite E. lia.
  - apply Byte.of_N_None_iff in E. lia.
Qed.

Lemma byte_of_Z_mod z : byte_of_Z (z mod 256) = byte_of_Z z.
Proof. unfold byte_of_Z. by rewrite Z.mod_mod by lia. Qed.

(** ** Big-endian integers *)

(** [binary.BigEndian.PutUintN] for N = 8 n bits. *)
Fixpoint be_bytes (n : nat) (z : Z) : list byte :=
  match n with
  | O => []
  | S m => be_bytes m (z / 256) ++ [byte_of_Z z]
  end.

(** [binary.BigEndian.UintN]. *)
Definition be_val (l : list byte) : Z :=
  fold_left (fun acc b => acc * 256 + Z_of_byte b) l 0.

Lemma length_be_bytes n z : length (be_bytes n z) = n.
Proof.
  revert z; induction n as [|n IH]; intros z; [done|].
  cbn. rewrite length_app, IH. cbn. lia.
Qed.

Lemma be_val_snoc l b : be_val (l ++ [b]) = be_val l * 256 + Z_of_byte b.
Proof. unfold be_val. by rewrite fold_left_app. Qed.

Lemma be_val_range l : 0 <= be_val l < 256 ^ zlen l.
Proof.
  induction l as [|b l IH] using rev_ind; [done|].
  rewrite be_val_snoc, zlen_app. pose proof (Z_of_byte_range b).
  change (zlen [b]) with 1. rewrite Z.pow_add_r; [lia | apply zlen_nonneg | lia].
Qed.

Lemma be_val_be_bytes n z : be_val (be_bytes n z) = z mod 256 ^ Z.of_nat n.
Proof.
  revert z; induction n as [|n IH]; intros z; [by rewrite Z.mod_1_r|].
  cbn [be_bytes]. rewrite be_val_snoc, IH, Z_of_byte_of_Z.
  replace (256 ^ Z.of_nat (S n)) with (256 * 256 ^ Z.of_nat n)
    by (rewrite Nat2Z.inj_succ, Z.pow_succ_r; lia).
  rewrite Z.rem_mul_r by lia. lia.
Qed.

Lemma be_bytes_be_val l : be_bytes (length l) (be_val l) = l.
Proof.
  induction l as [|b l IH] using rev_ind; [done|].
  rewrite length_app, Nat.add_comm, be_val_snoc. cbn [be_bytes length Nat.add].
  pose proof (Z_of_byte_range b).
  rewrite Z.div_add_l, (Z.div_small (Z_of_byte b)), Z.add_0_r, IH by lia.
  by rewrite <- byte_of_Z_mod, Z.add_comm, Z.mod_add, byte_of_Z_mod, byte_of_Z_of_byte by lia.
Qed.

Lemma be_val_be_bytes_small n z : 0 <= z < 256 ^ Z.of_nat n -> be_val (be_bytes n z) = z.
Proof. intros. rewrite be_val_be_bytes. by apply Z.mod_small. Qed.

#[global] Arguments be_bytes : simpl never.

(** ** Readers *)

(** The errors a stream reports: the sentinels of [io], two errno values of
    [syscall], and any other error, known by its text. *)
Inductive io_error :=
| EOF
| ErrUnexpectedEOF
| ErrClosedPipe
| EPIPE
| ECONNRESET
| ErrText (text : string).

#[export] Instance io_error_eq_dec : EqDecision io_error.
Proof. solve_decision. Defined.

(** The [Error()] text. *)
Definition error_text (e : io_error) : string :=
  match e with
  | EOF => "EOF"
  | ErrUnexpectedEOF => "unexpected EOF"
  | ErrClosedPipe => "io: read/write on closed pipe"
  | EPIPE => "broken pipe"
  | ECONNRESET => "connection reset by peer"
  | ErrText t => t
  end.

(** [io.ReadFull] on a stream that holds the bytes [s] and then ends: [EOF] when
    nothing could be read, [ErrUnexpectedEOF] on a short read. *)
Definition ReadFull (n : nat) : M (list byte) io_error (list byte) := fun s =>
  if (n <=? length s)%nat then (Ok (take n s), drop n s)
  else (Err (match s with [] => EOF | _ => ErrUnexpectedEOF end), []).

(** [binary.Read(r, binary.BigEndian, &x)] for an unsigned x of n bytes. *)
Definition read_be (n : nat) : M (list byte) io_error Z :=
  bs ← ReadFull n; mret (be_val bs).

Lemma ReadFull_app n l s : length l = n -> ReadFull n (l ++ s) = (Ok l, s).
Proof.
  intros <-. unfold ReadFull. rewrite length_app.
  destruct (Nat.leb_spec (length l) (length l + length s)); [|lia].
  by rewrite take_app_length, drop_app_length.
Qed.

Lemma ReadFull_ok_inv n s l s' : ReadFull n s = (Ok l, s') -> s = l ++ s' /\ length l = n.
Proof.
  unfold ReadFull. destruct (Nat.leb_spec n (length s)); [|done].
  intros [= <- <-]. rewrite take_drop, length_take. split; [done|lia].
Qed.

Lemma ReadFull_short n s : (length s < n)%nat -> exists e, ReadFull n s = (Err e, []).
Proof. intros. unfold ReadFull. destruct (Nat.leb_spec n (length s)); [lia|eauto]. Qed.

Lemma read_be_app n z s : 0 <= z < 256 ^ Z.of_nat n -> read_be n (be_bytes n z ++ s) = (Ok z, s).
Proof.
  intros. unfold read_be. erewrite M_bind_ok by (apply ReadFull_app, length_be_bytes).
  unfold mret, M_ret. by rewrite be_val_be_bytes_small.
Qed.

Lemma read_be_ok_inv n s z s' :
  read_be n s = (Ok z, s') -> s = be_bytes n z ++ s' /\ 0 <= z < 256 ^ Z.of_nat n.
Proof.
  intros (l & s1 & H & [= <- <-])%M_bind_ok_inv.
  apply ReadFull_ok_inv in H as [-> <-]. rewrite be_bytes_be_val.
  split; [done | apply be_val_range].
Qed.

Lemma read_be_short n s : (length s < n)%nat -> exists e, read_be n s = (Err e, []).
Proof. intros [e He]%ReadFull_short. exists e. unfold read_be. by erewrite M_bind_err. Qed.

(** ** Writers *)

(** The [io.Writer] interface: a write either reports an error or accepts all of
    its bytes. *)
Class Writer (W : Type) := write : list byte -> M W io_error unit.

(** [bytes.Buffer]: writes append and never fail. *)
#[export] Instance Buffer : Writer (list byte) := fun bs w => (Ok tt, w ++ bs).

(** A connection that accepts a limited number of further bytes and then reports
    a closed pipe, as a TCP peer that went away does. *)
Record LimitedConn := { lc_out : list byte; lc_room : Z }.
#[export] Instance LimitedConn_writer : Writer LimitedConn := fun bs c =>
  if zlen bs <=? lc_room c
  then (Ok tt, {| lc_out := lc_out c ++ bs; lc_room := lc_room c - zlen bs |})
  else (Err ErrClosedPipe, c).

(** [binary.Write(w, binary.BigEndian, x)] for an unsigned x of n bytes. *)
Definition write_be `{Writer W} (n : nat) (z : Z) : M W io_error unit := write (be_bytes n z).
