(* ===== verification/GoStrings.v ===== *)
(** * Go strings

    A Go string is a sequence of bytes, as is Rocq's [string].  This file holds
    the functions of package [strings] the components call, and their
    specifications. *)
From S2P Require Import Prelude.
From Stdlib Require Import Strings.Ascii.
#[local] Open Scope Z_scope.

Definition slen (s : string) : Z := Z.of_nat (String.length s).

(** [strings.HasPrefix(s, p)]. *)
Fixpoint HasPrefix (s p : string) {struct p} : bool :=
  match p, s with
  | EmptyString, _ => true
  | String _ _, EmptyString => false
  | String a p', String b s' => Ascii.eqb a b && HasPrefix s' p'
  end.

(** [strings.Contains(s, sub)]. *)
Fixpoint Contains (s sub : string) : bool :=
  HasPrefix s sub ||
  match s with EmptyString => false | String _ s' => Contains s' sub end.

(** [strings.Index(s, sep)] for a one-byte separator: the offset of its first
    occurrence, -1 when it is absent. *)
Fixpoint IndexByte (s : string) (c : ascii) : Z :=
  match s with
  | EmptyString => -1
  | String a s' =>
      if Ascii.eqb a c then 0
      else let i := IndexByte s' c in if i <? 0 then -1 else i + 1
  end.

(** The slice [s[:n]]. *)
Fixpoint str_take (n : nat) (s : string) : string :=
  match n, s with
  | O, _ => EmptyString
  | _, EmptyString => EmptyString
  | S n, String a s' => String a (str_take n s')
  end.

Fixpoint str_forall (p : ascii -> bool) (s : string) : bool :=
  match s with EmptyString => true | String a s' => p a && str_forall p s' end.

Fixpoint str_mem (c : ascii) (s : string) : bool :=
  match s with EmptyString => false | String a s' => Ascii.eqb a c || str_mem c s' end.

Lemma HasPrefix_spec s p : HasPrefix s p = true <-> exists t, s = (p +:+ t)%string.
Proof.
  revert s; induction p as [|a p IH]; intros s; cbn.
  - split; [intros _; by exists s | done].
  - destruct s as [|b s]; [split; [done | by intros [t Ht]]|].
    rewrite andb_true_iff, Ascii.eqb_eq, IH. cbn. split.
    + intros [-> [t ->]]. by exists t.
    + intros [t [= -> ->]]. eauto.
Qed.

Lemma Contains_spec s sub :
  Contains s sub = true <-> exists u v, s = (u +:+ sub +:+ v)%string.
Proof.
  induction s as [|a s IH]; cbn -[HasPrefix]; rewrite orb_true_iff, HasPrefix_spec.
  - split.
    + intros [[t Ht]|]; [|done]. by exists EmptyString, t.
    + intros (u & v & H). left. destruct u; [by exists v | done].
  - rewrite IH. split.
    + intros [[t Ht]|(u & v & ->)]; [by exists EmptyString, t | by exists (String a u), v].
    + intros ([|b u] & v & H); [left; by exists v|]. injection H as -> ->. eauto.
Qed.

Lemma IndexByte_range s c : -1 <= IndexByte s c < slen s.
Proof.
  unfold slen. induction s as [|a s IH]; cbn [IndexByte String.length]; [lia|].
  destruct (Ascii.eqb a c); [lia|]. cbv zeta. destruct (Z.ltb_spec (IndexByte s c) 0); lia.
Qed.

(** A found index splits the string at the first occurrence of the separator. *)
Lemma IndexByte_spec s c :
  0 <= IndexByte s c ->
  exists t, s = (str_take (Z.to_nat (IndexByte s c)) s +:+ String c t)%string /\
    str_mem c (str_take (Z.to_nat (IndexByte s c)) s) = false.
Proof.
  induction s as [|a s IH]; cbn; [lia|].
  destruct (Ascii.eqb a c) eqn:E; cbv zeta.
  - apply Ascii.eqb_eq in E as ->. intros _. by exists s.
  - destruct (Z.ltb_spec (IndexByte s c) 0); [lia|]. intros _.
    destruct (IH ltac:(lia)) as (t & Ht & Hm). exists t.
    rewrite Z2Nat.inj_add, Nat.add_comm by lia. change (Z.to_nat 1) with 1%nat.
    cbn [str_take str_mem Nat.add String.append]. rewrite E, Hm. split; [|done].
    exact (f_equal (String a) Ht).
Qed.

Lemma IndexByte_neg s c : IndexByte s c < 0 <-> str_mem c s = false.
Proof.
  induction s as [|a s IH]; cbn; [split; [done|lia]|].
  destruct (Ascii.eqb a c); cbn; [split; [lia|done]|]. rewrite <- IH.
  destruct (Z.ltb_spec (IndexByte s c) 0); cbv zeta; lia.
Qed.

Lemma str_forall_app p s t : str_forall p (s +:+ t) = str_forall p s && str_forall p t.
Proof.
  induction s as [|a s IH]; [done|]. change (String a s +:+ t)%string with (String a (s +:+ t)).
  cbn [str_forall]. by rewrite IH, andb_assoc.
Qed.

Lemma str_mem_app c s t : str_mem c (s +:+ t) = str_mem c s || str_mem c t.
Proof.
  induction s as [|a s IH]; [done|]. change (String a s +:+ t)%string with (String a (s +:+ t)).
  cbn [str_mem]. by rewrite IH, orb_assoc.
Qed.

#[export] Hint Rewrite str_forall_app str_mem_app : mcp.

(** [strings.ReplaceAll(s, old, new)] for a non-empty [old]: occurrences are
    replaced from left to right and do not overlap; [skip] counts the bytes of the
    current occurrence still to be dropped. *)
Fixpoint replace_from (skip : nat) (s old new : string) : string :=
  match s with
  | EmptyString => EmptyString
  | String a s' =>
      match skip with
      | S k => replace_from k s' old new
      | O => if HasPrefix s old
             then (new +:+ replace_from (Nat.pred (String.length old)) s' old new)%string
             else String a (replace_from 0 s' old new)
      end
  end.
Definition ReplaceAll (s old new : string) : string := replace_from 0 s old new.

(** Replacing a single byte acts byte by byte. *)
Lemma ReplaceAll_byte s c new :
  ReplaceAll s (String c EmptyString) new
  = match s with
    | EmptyString => EmptyString
    | String a s' =>
        if Ascii.eqb c a then (new +:+ ReplaceAll s' (String c EmptyString) new)%string
        else String a (ReplaceAll s' (String c EmptyString) new)
    end.
Proof.
  destruct s as [|a s]; [done|]. unfold ReplaceAll. cbn [replace_from HasPrefix].
  rewrite andb_true_r. by destruct (Ascii.eqb c a).
Qed.

(** A string is split in one way at its last occurrence of a byte. *)
Lemma split_last_unique c a b d e :
  str_mem c d = false -> str_mem c e = false ->
  (a +:+ String c d)%string = (b +:+ String c e)%string -> a = b /\ d = e.
Proof.
  intros Hd He. revert b; induction a as [|x a IH]; intros [|y b]; cbn.
  - intros [= ->]. done.
  - intros [= -> ->]. rewrite str_mem_app in Hd. cbn in Hd. rewrite Ascii.eqb_refl, orb_true_r in Hd. done.
  - intros [= -> <-]. rewrite str_mem_app in He. cbn in He. rewrite Ascii.eqb_refl, orb_true_r in He. done.
  - intros [= -> H]. destruct (IH b H) as [-> ->]. done.
Qed.
