(* ===== verification/GoUnicode.v ===== *)
(** * Text in Go

    A Go string is bytes; ranging over it decodes UTF-8 and yields U+FFFD for each
    byte that starts no valid sequence.  This file models that loop, the functions of
    packages [unicode/utf8], [strings] and [strconv] the validators call, and the
    regular expressions that are one bracketed class repeated. *)
From S2P Require Import Prelude GoStrings.
From stdpp Require Import pretty.
From Stdlib Require Import Strings.Ascii.
#[local] Open Scope Z_scope.

Definition bz (a : ascii) : Z := Z.of_N (N_of_ascii a).

Lemma bz_range a : 0 <= bz a < 256.
Proof. unfold bz. pose proof (N_ascii_bounded a). lia. Qed.

(** ** UTF-8 *)

Definition RuneError : Z := 65533.

Definition in_range (lo hi b : Z) : bool := (lo <=? b) && (b <=? hi).

(** What follows a lead byte of a multi-byte sequence: the number of bytes after it
    and the range of the first of them (the others are in 0x80..0xBF). *)
Definition lead (b : Z) : option (nat * Z * Z) :=
  if in_range 194 223 b then Some (1%nat, 128, 191)
  else if b =? 224 then Some (2%nat, 160, 191)
  else if b =? 237 then Some (2%nat, 128, 159)
  else if in_range 225 239 b then Some (2%nat, 128, 191)
  else if b =? 240 then Some (3%nat, 144, 191)
  else if in_range 241 243 b then Some (3%nat, 128, 191)
  else if b =? 244 then Some (3%nat, 128, 143)
  else None.

(** [utf8.DecodeRuneInString]: the rune and its width; [None] for an invalid
    encoding, where Go returns RuneError and 1. *)
Definition decode_rune (s : string) : option (Z * nat) :=
  match s with
  | EmptyString => None
  | String a0 s1 =>
      if bz a0 <? 128 then Some (bz a0, 1%nat)
      else
        match lead (bz a0), s1 with
        | Some (1%nat, lo, hi), String a1 _ =>
            if in_range lo hi (bz a1) then Some ((bz a0 - 192) * 64 + (bz a1 - 128), 2%nat) else None
        | Some (2%nat, lo, hi), String a1 (String a2 _) =>
            if in_range lo hi (bz a1) && in_range 128 191 (bz a2)
            then Some ((bz a0 - 224) * 4096 + (bz a1 - 128) * 64 + (bz a2 - 128), 3%nat) else None
        | Some (3%nat, lo, hi), String a1 (String a2 (String a3 _)) =>
            if in_range lo hi (bz a1) && in_range 128 191 (bz a2) && in_range 128 191 (bz a3)
            then Some ((bz a0 - 240) * 262144 + (bz a1 - 128) * 4096 + (bz a2 - 128) * 64 + (bz a3 - 128), 4%nat)
            else None
        | _, _ => None
        end
  end.

(** The runes of [for _, ch := range s]; [skip] counts the bytes of the current
    sequence still to be passed. *)
Fixpoint runes_from (skip : nat) (s : string) : list Z :=
  match s with
  | EmptyString => []
  | String _ s' =>
      match skip with
      | S k => runes_from k s'
      | O => match decode_rune s with
             | Some (r, n) => r :: runes_from (Nat.pred n) s'
             | None => RuneError :: runes_from 0 s'
             end
      end
  end.
Definition runes (s : string) : list Z := runes_from 0 s.

(** [utf8.ValidString]. *)
Fixpoint valid_from (skip : nat) (s : string) : bool :=
  match s with
  | EmptyString => true
  | String _ s' =>
      match skip with
      | S k => valid_from k s'
      | O => match decode_rune s with
             | Some (_, n) => valid_from (Nat.pred n) s'
             | None => false
             end
      end
  end.
Definition ValidString (s : string) : bool := valid_from 0 s.

(** A rune decoded from several bytes is not ASCII. *)
Lemma decode_rune_high a s r n :
  128 <= bz a -> decode_rune (String a s) = Some (r, n) -> 128 <= r.
Proof.
  intros Ha. unfold decode_rune, lead, in_range.
  destruct (Z.ltb_spec (bz a) 128); [lia|].
  pose proof (bz_range a).
  repeat case_match; intros; simplify_eq; bool_to_prop; lia.
Qed.

Lemma runes_ascii a s : bz a < 128 -> runes (String a s) = bz a :: runes s.
Proof. intros H. unfold runes. cbn. by destruct (Z.ltb_spec (bz a) 128); [|lia]. Qed.

(** A test on runes that only ASCII can pass is a test on bytes. *)
Lemma forallb_runes (p : Z -> bool) (s : string) :
  (forall r, p r = true -> r < 128) ->
  forallb p (runes s) = str_forall (fun a => p (bz a)) s.
Proof.
  intros Hp. induction s as [|a s IH]; [done|].
  destruct (decide (bz a < 128)) as [H|H].
  - rewrite runes_ascii by done. cbn. by rewrite IH.
  - assert (p (bz a) = false) as Hpa.
    { destruct (p (bz a)) eqn:E; [|done]. apply Hp in E. lia. }
    cbn [str_forall]. rewrite Hpa. cbn [andb].
    unfold runes. cbn [runes_from].
    destruct (decode_rune (String a s)) as [[r n]|] eqn:D; cbn [forallb].
    + apply decode_rune_high in D; [|lia]. destruct (p r) eqn:E; [|done].
      apply Hp in E. lia.
    + destruct (p RuneError) eqn:E; [|done]. apply Hp in E. unfold RuneError in E. lia.
Qed.

Lemma ascii_ValidString (s : string) :
  str_forall (fun a => bz a <? 128) s = true -> ValidString s = true.
Proof.
  unfold ValidString. induction s as [|a s IH]; cbn; [done|].
  intros [Ha Hs]%andb_prop. rewrite Ha. by apply IH.
Qed.

(** ** Regular expressions [^[class]+$] *)

Definition match_class (class : Z -> bool) (s : string) : bool :=
  negb (bool_decide (s = EmptyString)) && forallb class (runes s).

(** ** Splitting, searching and trimming *)

(** [strings.Split(s, sep)] for a one-byte separator. *)
Fixpoint SplitByte (c : ascii) (s : string) : list string :=
  match s with
  | EmptyString => [EmptyString]
  | String a s' =>
      if Ascii.eqb a c then EmptyString :: SplitByte c s'
      else match SplitByte c s' with
           | [] => [String a EmptyString]
           | w :: ws => String a w :: ws
           end
  end.

Fixpoint join_byte (c : ascii) (ws : list string) : string :=
  match ws with
  | [] => EmptyString
  | [w] => w
  | w :: ws => (w +:+ String c (join_byte c ws))%string
  end.

Lemma SplitByte_nonempty c s : SplitByte c s <> [].
Proof. destruct s as [|a s]; cbn; [done|]. by repeat case_match. Qed.

Lemma join_SplitByte c s : join_byte c (SplitByte c s) = s.
Proof.
  induction s as [|a s IH]; [done|]. cbn.
  pose proof (SplitByte_nonempty c s).
  destruct (Ascii.eqb_spec a c) as [->|].
  - destruct (SplitByte c s) as [|w ws]; [done|]. cbn in *. by rewrite IH.
  - destruct (SplitByte c s) as [|w [|w' ws]]; [done| |]; cbn in *; by rewrite <- IH.
Qed.

Lemma SplitByte_free c s w : w ∈ SplitByte c s -> str_mem c w = false.
Proof.
  revert w; induction s as [|a s IH]; intros w; cbn.
  - by intros ->%list_elem_of_singleton.
  - destruct (Ascii.eqb a c) eqn:E.
    + intros [->|]%elem_of_cons; [done|by apply IH].
    + destruct (SplitByte c s) as [|w' ws].
      * intros ->%list_elem_of_singleton. cbn. by rewrite E.
      * intros [->|]%elem_of_cons; [|apply IH; set_solver].
        cbn. rewrite E. apply IH. set_solver.
Qed.

Lemma str_app_nil_r s : (s +:+ EmptyString)%string = s.
Proof. induction s as [|a s IH]; [done|]. exact (f_equal (String a) IH). Qed.

Lemma str_app_assoc s t u : ((s +:+ t) +:+ u)%string = (s +:+ (t +:+ u))%string.
Proof. induction s as [|a s IH]; [done|]. exact (f_equal (String a) IH). Qed.

(** Every word of a split is a part of the string, in_range separators. *)
Lemma SplitByte_part c s w : w ∈ SplitByte c s -> exists u v, s = (u +:+ w +:+ v)%string.
Proof.
  revert w; induction s as [|a s IH]; intros w; cbn.
  - intros ->%list_elem_of_singleton. by exists EmptyString, EmptyString.
  - destruct (Ascii.eqb a c) eqn:E.
    + intros [->|Hw]%elem_of_cons.
      * by exists EmptyString, (String a s).
      * destruct (IH w Hw) as (u & v & ->). by exists (String a u), v.
    + pose proof (join_SplitByte c s) as J.
      destruct (SplitByte c s) as [|w' ws] eqn:Es.
      * by apply SplitByte_nonempty in Es.
      * intros [->|Hw]%elem_of_cons.
        -- exists EmptyString. destruct ws as [|w2 ws]; cbn in J; rewrite <- J.
           ++ exists EmptyString. by rewrite str_app_nil_r.
           ++ by eexists.
        -- destruct (IH w ltac:(set_solver)) as (u & v & ->). by exists (String a u), v.
Qed.

(** [strings.ContainsAny(s, chars)] for ASCII characters. *)
Definition ContainsAny (s chars : string) : bool := negb (str_forall (fun a => negb (str_mem a chars)) s).

(** The encodings of the runes of [unicode.IsSpace]. *)
Definition str_of (l : list Z) : string :=
  fold_right (fun z s => String (ascii_of_N (Z.to_N z)) s) EmptyString l.
Definition spaces : list string :=
  ((fun z => str_of [z]) <$> [9; 10; 11; 12; 13; 32])
  ++ [str_of [194; 133]; str_of [194; 160]; str_of [225; 154; 128]]
  ++ ((fun z => str_of [226; 128; z])
        <$> [128; 129; 130; 131; 132; 133; 134; 135; 136; 137; 138; 168; 169; 175])
  ++ [str_of [226; 129; 159]; str_of [227; 128; 128]].

(** Removes words of [ws] from the front for as long as one is a prefix. *)
Fixpoint trim_from (ws : list string) (skip : nat) (s : string) : string :=
  match s with
  | EmptyString => EmptyString
  | String _ s' =>
      match skip with
      | S k => trim_from ws k s'
      | O => match List.find (HasPrefix s) ws with
             | Some w => trim_from ws (Nat.pred (String.length w)) s'
             | None => s
             end
      end
  end.

Fixpoint str_rev (s : string) : string :=
  match s with EmptyString => EmptyString | String a s' => (str_rev s' +:+ String a EmptyString)%string end.

(** [strings.TrimSpace].  A suffix that is the encoding of a space is what
    DecodeLastRune finds: its lead byte is the nearest one from the end. *)
Definition TrimLeft (s : string) : string := trim_from spaces 0 s.
Definition TrimRight (s : string) : string := str_rev (trim_from (str_rev <$> spaces) 0 (str_rev s)).
Definition TrimSpace (s : string) : string := TrimRight (TrimLeft s).

Lemma str_rev_app s t : str_rev (s +:+ t) = (str_rev t +:+ str_rev s)%string.
Proof.
  induction s as [|a s IH]; cbn; [by rewrite str_app_nil_r|].
  change (str_rev (s +:+ t) +:+ String a "" = str_rev t +:+ (str_rev s +:+ String a ""))%string.
  by rewrite IH, str_app_assoc.
Qed.

Lemma str_rev_involutive s : str_rev (str_rev s) = s.
Proof. induction s as [|a s IH]; [done|]. cbn. by rewrite str_rev_app, IH. Qed.

(** What trimming leaves is a suffix of its input without a removable prefix. *)
Lemma trim_suffix ws skip s : exists u, s = (u +:+ trim_from ws skip s)%string.
Proof.
  revert skip; induction s as [|a s IH]; intros skip; [by exists EmptyString|]. cbn.
  destruct skip as [|k].
  - destruct (List.find _ ws) as [w|].
    + destruct (IH (Nat.pred (String.length w))) as [u Hu]. exists (String a u).
      exact (f_equal (String a) Hu).
    + by exists EmptyString.
  - destruct (IH k) as [u Hu]. exists (String a u). exact (f_equal (String a) Hu).
Qed.

Definition no_prefix_in (ws : list string) (s : string) : bool := forallb (fun w => negb (HasPrefix s w)) ws.

Lemma find_no_prefix ws s : no_prefix_in ws s = true <-> List.find (HasPrefix s) ws = None.
Proof.
  unfold no_prefix_in. induction ws as [|w ws IH]; cbn; [done|].
  destruct (HasPrefix s w); cbn; [done|apply IH].
Qed.

Lemma trim_done ws s : no_prefix_in ws s = true -> trim_from ws 0 s = s.
Proof. intros H%find_no_prefix. destruct s as [|a s]; [done|]. cbn -[HasPrefix]. by rewrite H. Qed.

Lemma trim_no_prefix ws skip s :
  no_prefix_in ws EmptyString = true -> no_prefix_in ws (trim_from ws skip s) = true.
Proof.
  intros H0. revert skip; induction s as [|a s IH]; intros skip; [done|]. cbn -[HasPrefix].
  destruct skip as [|k]; [|apply IH].
  destruct (List.find _ ws) as [w|] eqn:E; [apply IH|]. by apply find_no_prefix.
Qed.

(** A prefix of a string without removable prefix has none either. *)
Lemma no_prefix_shorter ws s t : no_prefix_in ws (s +:+ t) = true -> no_prefix_in ws s = true.
Proof.
  unfold no_prefix_in. rewrite !forallb_forall. intros H w Hw. specialize (H w Hw).
  rewrite negb_true_iff in H |- *. destruct (HasPrefix s w) eqn:E; [|done].
  apply HasPrefix_spec in E as [u ->].
  enough (HasPrefix ((w +:+ u) +:+ t) w = true) by congruence.
  apply HasPrefix_spec. exists (u +:+ t)%string. by rewrite str_app_assoc.
Qed.

Lemma TrimRight_prefix s : exists v, s = (TrimRight s +:+ v)%string.
Proof.
  unfold TrimRight. destruct (trim_suffix (str_rev <$> spaces) 0 (str_rev s)) as [u Hu].
  exists (str_rev u). rewrite <- str_rev_app, <- Hu. by rewrite str_rev_involutive.
Qed.

Lemma TrimSpace_part s : exists u v, s = (u +:+ TrimSpace s +:+ v)%string.
Proof.
  destruct (trim_suffix spaces 0 s) as [u Hu]. destruct (TrimRight_prefix (TrimLeft s)) as [v Hv].
  exists u, v. unfold TrimSpace. rewrite <- Hv. exact Hu.
Qed.

(** No space is left at either end. *)
Definition trimmed (s : string) : bool :=
  no_prefix_in spaces s && no_prefix_in (str_rev <$> spaces) (str_rev s).

Lemma TrimSpace_trimmed s : trimmed (TrimSpace s) = true.
Proof.
  unfold trimmed, TrimSpace. rewrite andb_true_iff. split.
  - destruct (TrimRight_prefix (TrimLeft s)) as [v Hv].
    apply (no_prefix_shorter _ _ v). rewrite <- Hv. by apply trim_no_prefix.
  - unfold TrimRight. rewrite str_rev_involutive. by apply trim_no_prefix.
Qed.

Lemma TrimSpace_id s : trimmed s = true -> TrimSpace s = s.
Proof.
  unfold trimmed. intros [Hl Hr]%andb_prop. unfold TrimSpace, TrimLeft.
  rewrite (trim_done _ _ Hl). unfold TrimRight.
  by rewrite (trim_done _ _ Hr), str_rev_involutive.
Qed.

(** ** Decimal numbers

    [strconv.Itoa] and [strconv.FormatInt(_, 10)] are stdpp's [pretty]. *)

Lemma length_pretty_N_go (n : nat) x s :
  (x < 10 ^ N.of_nat n)%N -> slen (pretty_N_go x s) <= Z.of_nat n + slen s.
Proof.
  revert x s; induction n as [|n IH]; intros x s Hx.
  - assert (x = 0%N) as -> by (change (N.of_nat 0) with 0%N in Hx; rewrite N.pow_0_r in Hx; lia).
    rewrite pretty_N_go_0. lia.
  - destruct (decide (x = 0)%N) as [->|]; [rewrite pretty_N_go_0; lia|].
    rewrite pretty_N_go_step by lia.
    rewrite Nat2N.inj_succ, N.pow_succ_r' in Hx.
    etransitivity; [apply IH; apply N.Div0.div_lt_upper_bound; lia|].
    unfold slen. cbn [String.length]. lia.
Qed.

Lemma length_pretty_Z (z : Z) : min_i64 <= z <= max_i64 -> slen (pretty z) <= 20.
Proof.
  intros Hz. unfold min_i64, max_i64 in Hz.
  assert (forall p, Zpos p <= 2 ^ 63 -> slen (pretty (Npos p)) <= 19) as H.
  { intros p Hp. unfold pretty, pretty_N. destruct (decide _); [done|].
    change 19 with (Z.of_nat 19 + slen ""). apply length_pretty_N_go.
    change (10 ^ N.of_nat 19)%N with 10000000000000000000%N. lia. }
  destruct z as [|p|p]; [by vm_compute| |].
  - transitivity 19; [apply (H p)|]; lia.
  - change (pretty (Zneg p)) with ("-" +:+ pretty (Npos p))%string.
    specialize (H p ltac:(lia)). unfold slen in *.
    change (Z.of_nat (S (String.length (pretty (Npos p)))) <= 20). lia.
Qed.

Lemma pretty_N_go_forall (p : ascii -> bool) x s :
  (forall d, p (pretty_N_char d) = true) -> str_forall p s = true -> str_forall p (pretty_N_go x s) = true.
Proof.
  intros Hp. revert s; induction (N.lt_wf_0 x) as [x _ IH]; intros s Hs.
  destruct (decide (x = 0)%N) as [->|]; [by rewrite pretty_N_go_0|].
  rewrite pretty_N_go_step by lia. apply IH; [apply N.div_lt; lia|].
  cbn [str_forall]. by rewrite Hp, Hs.
Qed.

Lemma pretty_N_ascii (n : N) : str_forall (fun a => bz a <? 128) (pretty n) = true.
Proof.
  unfold pretty, pretty_N. destruct (decide _); [done|]. apply pretty_N_go_forall; [|done].
  intros d. unfold pretty_N_char. by repeat case_match.
Qed.

Lemma pretty_Z_ascii (z : Z) : str_forall (fun a => bz a <? 128) (pretty z) = true.
Proof.
  destruct z as [|p|p]; [done|apply (pretty_N_ascii (Npos p))|].
  change (pretty (Zneg p)) with ("-" +:+ pretty (Npos p))%string.
  by rewrite str_forall_app, pretty_N_ascii.
Qed.

Lemma pretty_Z_nonempty (z : Z) : pretty z <> EmptyString.
Proof.
  change EmptyString with (""%string). intros H.
  assert (forall p, pretty (Npos p) <> EmptyString) as N.
  { intros p. unfold pretty, pretty_N. destruct (decide _); [done|].
    rewrite pretty_N_go_step by lia. intros E.
    assert (forall x s, (1 <= String.length s -> 1 <= String.length (pretty_N_go x s))%nat) as L.
    { intros x. induction (N.lt_wf_0 x) as [x _ IH]; intros s Hs.
      destruct (decide (x = 0)%N) as [->|]; [by rewrite pretty_N_go_0|].
      rewrite pretty_N_go_step by lia. apply IH; [apply N.div_lt; lia|cbn; lia]. }
    specialize (L (Npos p `div` 10)%N (String (pretty_N_char (Npos p `mod` 10)) "") ltac:(cbn; lia)).
    rewrite E in L. cbn in L. lia. }
  destruct z as [|p|p]; [done|by apply (N p)|done].
Qed.
