(* ===== verification/GoFloat.v ===== *)
(** * float64

    IEEE 754 binary64 through the executable specification of the Standard Library, and the
    conversions between float64 and the integer types that the components use. *)
From S2P Require Import Prelude.
From Stdlib Require Export Floats.SpecFloat.
#[local] Open Scope Z_scope.

Notation float := spec_float.
Definition fadd : float -> float -> float := SFadd 53 1024.
Definition fsub : float -> float -> float := SFsub 53 1024.
Definition fmul : float -> float -> float := SFmul 53 1024.
Definition fdiv : float -> float -> float := SFdiv 53 1024.
(** [float64(z)] of an integer. *)
Definition float_of_int (z : Z) : float := binary_normalize 53 1024 z 0 false.
Definition fone : float := float_of_int 1.
Definition fzero : float := S754_zero false.

(** A decimal constant n/d: the quotient of two integers float64 holds exactly. *)
Definition fconst (n d : Z) : float := fdiv (float_of_int n) (float_of_int d).

(** [time.Duration(x)]: truncation towards zero; Go leaves the conversion of values
    outside the int64 range (and of NaN) to the implementation. *)
Definition duration_of_float (out_of_range : float -> Z) (x : float) : Z :=
  match x with
  | S754_zero _ => 0
  | S754_finite s m e =>
      let z := cond_Zopp s (if 0 <=? e then Zpos m * 2 ^ e else Zpos m / 2 ^ (- e)) in
      if (min_i64 <=? z) && (z <=? max_i64) then z else out_of_range x
  | _ => out_of_range x
  end.
