(* ===== verification/Wire.v ===== *)
(** * The gateway's binary wire protocol

    [services/gateway/pkg/wire/protocol.go]: frames of a 12-byte header (magic,
    version, message type, payload length) and a payload, their encoder and
    decoder, and version negotiation. *)
From S2P Require Import Prelude GoIO.
#[local] Open Scope Z_scope.

(** ** Constants and data *)

Definition MagicBytes : Z := 0x4D435042.
Definition CurrentVersion : Z := 0x0001.
Definition MinVersion : Z := 0x0001.
Definition MaxVersion : Z := 0x0001.
Definition HeaderSize : Z := 12.
Definition maxPayload : Z := 10 * 1024 * 1024.

Definition MessageTypeRequest : Z := 0x0001.
Definition MessageTypeResponse : Z := 0x0002.
Definition MessageTypeControl : Z := 0x0003.
Definition MessageTypeHealthCheck : Z := 0x0004.
Definition MessageTypeError : Z := 0x0005.
Definition MessageTypeVersionNegotiation : Z := 0x0006.
Definition MessageTypeVersionAck : Z := 0x0007.

Record Frame := mkFrame {
  Version : Z;
  MessageType : Z;
  Payload : list byte;
}.

Record frameHeader := mkHeader {
  hVersion : Z;
  hMessageType : Z;
  hPayloadLen : Z;
}.

Inductive WireError :=
| FailedTo (what : string) (err : io_error)
| InvalidMagic (magic : Z)
| UnsupportedVersion (version : Z)
| PayloadTooLarge (len : Z).

(** ** Encoding *)

(** [Frame.Encode]: five writes, each wrapped with its own message; the length
    field is the payload length converted to uint32. *)
Definition Encode `{Writer W} (f : Frame) : M W WireError unit :=
  M_wrap (FailedTo "failed to write magic bytes") (write_be 4 MagicBytes);;
  M_wrap (FailedTo "failed to write version") (write_be 2 (Version f));;
  M_wrap (FailedTo "failed to write message type") (write_be 2 (MessageType f));;
  M_wrap (FailedTo "failed to write payload length") (write_be 4 (wrap_u 32 (zlen (Payload f))));;
  if 0 <? zlen (Payload f)
  then M_wrap (FailedTo "failed to write payload") (write (Payload f))
  else mret tt.

(** [EncodeMessage]: encodes into a [bytes.Buffer]. *)
Definition EncodeMessage (msgType : Z) (payload : list byte) : result WireError (list byte) :=
  match Encode {| Version := CurrentVersion; MessageType := msgType; Payload := payload |} [] with
  | (Ok _, buf) => Ok buf
  | (Err e, _) => Err e
  end.

(** ** Decoding *)

Definition validateMagicBytes : M (list byte) WireError unit :=
  magic ← M_wrap (FailedTo "failed to read magic bytes") (read_be 4);
  if negb (magic =? MagicBytes) then M_fail (InvalidMagic magic) else mret tt.

Definition readVersion : M (list byte) WireError Z :=
  version ← M_wrap (FailedTo "failed to read version") (read_be 2);
  if (version <? MinVersion) || (MaxVersion <? version)
  then M_fail (UnsupportedVersion version) else mret version.

Definition readMessageType : M (list byte) WireError Z :=
  M_wrap (FailedTo "failed to read message type") (read_be 2).

Definition readPayloadLength : M (list byte) WireError Z :=
  payloadLen ← M_wrap (FailedTo "failed to read payload length") (read_be 4);
  if maxPayload <? payloadLen then M_fail (PayloadTooLarge payloadLen) else mret payloadLen.

Definition readFrameHeader : M (list byte) WireError frameHeader :=
  validateMagicBytes;;
  version ← readVersion;
  msgType ← readMessageType;
  payloadLen ← readPayloadLength;
  mret {| hVersion := version; hMessageType := msgType; hPayloadLen := payloadLen |}.

Definition readFramePayload (payloadLen : Z) : M (list byte) WireError (list byte) :=
  if payloadLen =? 0 then mret []
  else M_wrap (FailedTo "failed to read payload") (ReadFull (Z.to_nat payloadLen)).

Definition Decode : M (list byte) WireError Frame :=
  header ← readFrameHeader;
  payload ← readFramePayload (hPayloadLen header);
  mret {| Version := hVersion header; MessageType := hMessageType header; Payload := payload |}.

Definition DecodeMessage (data : list byte) : result WireError Frame := fst (Decode data).

(** ** Version negotiation *)

Definition NegotiateVersion (clientMin clientMax serverMin serverMax : Z) : result unit Z :=
  let minSupported := if clientMin <? serverMin then serverMin else clientMin in
  let maxSupported := if serverMax <? clientMax then serverMax else clientMax in
  if maxSupported <? minSupported then Err tt else Ok maxSupported.

Definition IsVersionSupported (version : Z) : bool :=
  (MinVersion <=? version) && (version <=? MaxVersion).

(** ** The frame format, stated once *)

(** The octets of a frame whose payload fits the length field. *)
Definition frame_bytes (f : Frame) : list byte :=
  be_bytes 4 MagicBytes ++ be_bytes 2 (Version f) ++ be_bytes 2 (MessageType f)
    ++ be_bytes 4 (zlen (Payload f)) ++ Payload f.

(** Frames a decoder of this version accepts: a supported version, a 16-bit type
    and a payload within the limit. *)
Record wire_frame (f : Frame) : Prop := {
  wf_version : IsVersionSupported (Version f) = true;
  wf_type : 0 <= MessageType f < 2 ^ 16;
  wf_payload : zlen (Payload f) <= maxPayload;
}.

Lemma length_frame_bytes f : zlen (frame_bytes f) = HeaderSize + zlen (Payload f).
Proof. unfold frame_bytes. rewrite !zlen_app. unfold zlen, HeaderSize. rewrite !length_be_bytes. lia. Qed.

Lemma Encode_Buffer f buf :
  Encode f buf =
    (Ok tt, buf ++ be_bytes 4 MagicBytes ++ be_bytes 2 (Version f) ++ be_bytes 2 (MessageType f)
              ++ be_bytes 4 (wrap_u 32 (zlen (Payload f))) ++ Payload f).
Proof.
  unfold Encode, mbind, M_bind, M_wrap, write_be, write, Buffer; cbn.
  destruct (Z.ltb_spec 0 (zlen (Payload f))).
  - by rewrite <- !app_assoc.
  - rewrite (zlen_nil_inv (Payload f)) by (pose proof (zlen_nonneg (Payload f)); lia).
    unfold mret, M_ret. by rewrite app_nil_r, <- !app_assoc.
Qed.

Lemma Encode_frame_bytes f buf :
  zlen (Payload f) < 2 ^ 32 -> Encode f buf = (Ok tt, buf ++ frame_bytes f).
Proof.
  intros. rewrite Encode_Buffer, wrap_u_small; [done|]. pose proof (zlen_nonneg (Payload f)); lia.
Qed.

(** *** One lemma per field of the header, both directions *)

Lemma validateMagicBytes_app s : validateMagicBytes (be_bytes 4 MagicBytes ++ s) = (Ok tt, s).
Proof.
  unfold validateMagicBytes.
  by rewrite (M_bind_ok _ _ _ _ _ (M_wrap_ok _ _ _ _ _ (read_be_app 4 MagicBytes s ltac:(by vm_compute)))).
Qed.

Lemma validateMagicBytes_bad z s :
  0 <= z < 2 ^ 32 -> z <> MagicBytes ->
  validateMagicBytes (be_bytes 4 z ++ s) = (Err (InvalidMagic z), s).
Proof.
  intros Hz Hne. unfold validateMagicBytes.
  rewrite (M_bind_ok _ _ _ _ _ (M_wrap_ok _ _ _ _ _ (read_be_app 4 z s Hz))).
  by rewrite (proj2 (Z.eqb_neq _ _) Hne).
Qed.

Lemma readVersion_app v s :
  IsVersionSupported v = true -> readVersion (be_bytes 2 v ++ s) = (Ok v, s).
Proof.
  unfold IsVersionSupported, MinVersion, MaxVersion. intros Hv. bool_to_prop.
  unfold readVersion.
  rewrite (M_bind_ok _ _ _ _ _ (M_wrap_ok _ _ _ _ _ (read_be_app 2 v s ltac:(lia)))).
  unfold MinVersion, MaxVersion.
  destruct (Z.ltb_spec v 1), (Z.ltb_spec 1 v); [lia..|done].
Qed.

Lemma readMessageType_app t s :
  0 <= t < 2 ^ 16 -> readMessageType (be_bytes 2 t ++ s) = (Ok t, s).
Proof. intros. apply M_wrap_ok. by apply read_be_app. Qed.

Lemma readPayloadLength_app n s :
  0 <= n < 2 ^ 32 ->
  readPayloadLength (be_bytes 4 n ++ s) =
    (if maxPayload <? n then Err (PayloadTooLarge n) else Ok n, s).
Proof.
  intros Hn. unfold readPayloadLength.
  rewrite (M_bind_ok _ _ _ _ _ (M_wrap_ok _ _ _ _ _ (read_be_app 4 n s Hn))).
  by destruct (maxPayload <? n).
Qed.

Lemma readFramePayload_app p s : readFramePayload (zlen p) (p ++ s) = (Ok p, s).
Proof.
  unfold readFramePayload. destruct (Z.eqb_spec (zlen p) 0) as [E|E].
  - by rewrite (zlen_nil_inv p E).
  - apply M_wrap_ok, ReadFull_app. unfold zlen. lia.
Qed.

Lemma readFrameHeader_app v t n s :
  IsVersionSupported v = true -> 0 <= t < 2 ^ 16 -> 0 <= n < 2 ^ 32 ->
  readFrameHeader (be_bytes 4 MagicBytes ++ be_bytes 2 v ++ be_bytes 2 t ++ be_bytes 4 n ++ s)
  = (if maxPayload <? n then Err (PayloadTooLarge n) else Ok (mkHeader v t n), s).
Proof.
  intros. unfold readFrameHeader.
  rewrite (M_bind_ok _ _ _ _ _ (validateMagicBytes_app _)).
  erewrite M_bind_ok by by apply readVersion_app.
  erewrite M_bind_ok by by apply readMessageType_app.
  unfold mbind, M_bind. rewrite readPayloadLength_app by done.
  by destruct (maxPayload <? n).
Qed.

Lemma Decode_frame_bytes f s : wire_frame f -> Decode (frame_bytes f ++ s) = (Ok f, s).
Proof.
  intros [Hv Ht Hp]. unfold Decode, frame_bytes. rewrite <- !app_assoc.
  pose proof (zlen_nonneg (Payload f)). unfold maxPayload in Hp.
  unfold mbind, M_bind at 1.
  rewrite readFrameHeader_app by (done || lia).
  destruct (Z.ltb_spec maxPayload (zlen (Payload f))); [unfold maxPayload in *; lia|].
  cbn [hPayloadLen]. unfold M_bind. rewrite readFramePayload_app. by destruct f.
Qed.

Lemma readFramePayload_ok_inv n s p s' :
  0 <= n -> readFramePayload n s = (Ok p, s') -> s = p ++ s' /\ zlen p = n.
Proof.
  intros Hn. unfold readFramePayload. destruct (Z.eqb_spec n 0) as [->|Hne].
  - by intros [= <- <-].
  - intros H%M_wrap_ok_inv. apply ReadFull_ok_inv in H as [-> Hl]. unfold zlen. split; [done|lia].
Qed.

Lemma readFrameHeader_ok_inv s h s' :
  readFrameHeader s = (Ok h, s') ->
  s = be_bytes 4 MagicBytes ++ be_bytes 2 (hVersion h) ++ be_bytes 2 (hMessageType h)
        ++ be_bytes 4 (hPayloadLen h) ++ s'
  /\ IsVersionSupported (hVersion h) = true /\ 0 <= hMessageType h < 2 ^ 16
  /\ 0 <= hPayloadLen h <= maxPayload.
Proof.
  intros (? & s1 & Hm & H)%M_bind_ok_inv.
  apply M_bind_ok_inv in H as (v & s2 & Hv & H).
  apply M_bind_ok_inv in H as (t & s3 & Ht & H).
  apply M_bind_ok_inv in H as (n & s4 & Hl & [= <- <-]).
  apply M_bind_ok_inv in Hm as (m & s1' & Hm%M_wrap_ok_inv%read_be_ok_inv & H1).
  apply M_bind_ok_inv in Hv as (v' & s2' & Hv%M_wrap_ok_inv%read_be_ok_inv & H2).
  apply M_wrap_ok_inv, read_be_ok_inv in Ht.
  apply M_bind_ok_inv in Hl as (n' & s4' & Hl%M_wrap_ok_inv%read_be_ok_inv & H3).
  destruct (Z.eqb_spec m MagicBytes) as [->|]; [|done]. injection H1 as <- <-.
  unfold IsVersionSupported.
  destruct (Z.ltb_spec v' MinVersion), (Z.ltb_spec MaxVersion v'); [done..|].
  injection H2 as <- <-.
  destruct (Z.ltb_spec maxPayload n'); [done|]. injection H3 as <- <-.
  destruct Hm as [-> _], Hv as [-> _], Ht as [-> Ht], Hl as [-> Hl]. cbn.
  repeat split; lia.
Qed.

Lemma Decode_ok_inv s f s' : Decode s = (Ok f, s') -> s = frame_bytes f ++ s' /\ wire_frame f.
Proof.
  intros (h & s1 & Hh%readFrameHeader_ok_inv & H)%M_bind_ok_inv.
  destruct Hh as (-> & Hv & Ht & Hl).
  apply M_bind_ok_inv in H as (p & s2 & Hp & [= <- <-]).
  apply readFramePayload_ok_inv in Hp as [-> Hp]; [|lia].
  unfold frame_bytes. cbn. rewrite Hp, <- !app_assoc.
  split; [done|]. split; cbn; [done..|lia].
Qed.

(** ** Properties *)

(** Frames written one after the other into the same writer. *)
Fixpoint Encode_all `{Writer W} (fs : list Frame) : M W WireError unit :=
  match fs with
  | [] => mret tt
  | f :: fs => Encode f;; Encode_all fs
  end.

(** [n] calls of [Decode] on the same reader. *)
Fixpoint Decode_many (n : nat) : M (list byte) WireError (list Frame) :=
  match n with
  | O => mret []
  | S n => f ← Decode; fs ← Decode_many n; mret (f :: fs)
  end.

Lemma Encode_all_frame_bytes fs buf :
  Forall wire_frame fs -> Encode_all fs buf = (Ok tt, buf ++ concat (map frame_bytes fs)).
Proof.
  intros H; revert buf; induction H as [|f fs Hf _ IH]; intros buf; cbn.
  - by rewrite app_nil_r.
  - unfold mbind, M_bind. rewrite Encode_frame_bytes, IH, <- app_assoc; [done|].
    destruct Hf. unfold maxPayload in *. lia.
Qed.

Lemma Decode_many_frame_bytes fs rest :
  Forall wire_frame fs ->
  Decode_many (length fs) (concat (map frame_bytes fs) ++ rest) = (Ok fs, rest).
Proof.
  induction 1 as [|f fs Hf _ IH]; cbn; [done|].
  rewrite <- app_assoc. unfold mbind, M_bind. by rewrite Decode_frame_bytes, IH by done.
Qed.

Definition ping_frame : Frame :=
  {| Version := 1; MessageType := MessageTypeHealthCheck; Payload := [] |}.
Definition request_frame : Frame :=
  {| Version := 1; MessageType := MessageTypeRequest; Payload := [Byte.x7b; Byte.x7d] |}.

Lemma sample_frames_ok : Forall wire_frame [ping_frame; request_frame].
Proof. repeat constructor; by vm_compute. Qed.

(** C3: A sequence of frames with a supported version, a 16-bit type and a payload of at most
    10 MB, encoded into one buffer, is decoded frame by frame to the same sequence, and the bytes
    that follow are left unread: the framing is self-delimiting. *)
Theorem Decode_Encode_stream (fs : list Frame) (rest : list byte) :
  Forall wire_frame fs ->
  exists out, Encode_all fs [] = (Ok tt, out) /\
    Decode_many (length fs) (out ++ rest) = (Ok fs, rest).
Proof.
  intros H. exists (concat (map frame_bytes fs)).
  split; [exact (Encode_all_frame_bytes fs [] H) | by apply Decode_many_frame_bytes].
Qed.

Lemma Decode_Encode_stream_witness :
  exists out, Encode_all [ping_frame; request_frame] [] = (Ok tt, out) /\
    Decode_many 2 (out ++ [Byte.x4d]) = (Ok [ping_frame; request_frame], [Byte.x4d]).
Proof. exact (Decode_Encode_stream _ [Byte.x4d] sample_frames_ok). Defined.

(** Whatever [Decode] accepts is an encoding: the bytes it consumed are exactly the bytes
    [Encode] writes for the frame it returned, that frame has a supported version, a 16-bit type
    and at most 10 MB of payload, and nothing past the frame is consumed. *)
Lemma Decode_canonical (s rest : list byte) (f : Frame) :
  Decode s = (Ok f, rest) ->
  wire_frame f /\ exists out, Encode f [] = (Ok tt, out) /\ s = out ++ rest.
Proof.
  intros [-> Hf]%Decode_ok_inv. split; [done|]. exists (frame_bytes f). split; [|done].
  apply (Encode_frame_bytes f []). destruct Hf. unfold maxPayload in *. lia.
Qed.

Lemma Decode_canonical_witness :
  wire_frame request_frame /\
  exists out, Encode request_frame [] = (Ok tt, out) /\ frame_bytes request_frame ++ [Byte.x00] = out ++ [Byte.x00].
Proof. apply (Decode_canonical _ [Byte.x00]). by vm_compute. Defined.

(** A connection that ends inside a frame never yields a frame: every strict prefix of an
    encoded frame makes [Decode] return an error. *)
Lemma Decode_truncated (f : Frame) (p q : list byte) :
  wire_frame f -> frame_bytes f = p ++ q -> q <> [] -> is_ok (fst (Decode p)) = false.
Proof.
  intros Hf Hpq Hq. destruct (Decode p) as [[f'|e] s] eqn:E; [|done]. exfalso.
  apply Decode_ok_inv in E as [-> Hf']. pose proof (Decode_frame_bytes f [] Hf) as H1.
  rewrite app_nil_r, Hpq, <- app_assoc, (Decode_frame_bytes _ _ Hf') in H1.
  injection H1 as _ H1. destruct s, q; naive_solver.
Qed.

Lemma Decode_truncated_witness :
  is_ok (fst (Decode (take 13 (frame_bytes request_frame)))) = false.
Proof.
  apply (Decode_truncated request_frame _ (drop 13 (frame_bytes request_frame)));
    [constructor; by vm_compute | by rewrite take_drop | by vm_compute].
Defined.

Definition huge_frame : Frame :=
  {| Version := 1; MessageType := MessageTypeRequest;
     Payload := replicate (Z.to_nat (maxPayload + 1)) Byte.x00 |}.

(** [Encode] does not enforce the 10 MB limit [Decode] enforces: a frame with a larger payload
    is written without an error, but no decoder reads it back, and below 4 GB the decoder's error
    is the one for an oversized payload. *)
Lemma Encode_oversized (f : Frame) :
  IsVersionSupported (Version f) = true -> 0 <= MessageType f < 2 ^ 16 ->
  maxPayload < zlen (Payload f) ->
  exists out, Encode f [] = (Ok tt, out) /\
    (forall rest, fst (Decode (out ++ rest)) <> Ok f) /\
    (zlen (Payload f) < 2 ^ 32 ->
       forall rest, fst (Decode (out ++ rest)) = Err (PayloadTooLarge (zlen (Payload f)))).
Proof.
  intros Hv Ht Hp. eexists. split; [apply Encode_Buffer|]. split.
  - intros rest. destruct (Decode _) as [[f'|e] s] eqn:E; cbn; [|done].
    apply Decode_ok_inv in E as [_ [_ _ H]]. intros [= ->]. lia.
  - intros Hl rest. rewrite wrap_u_small by (pose proof (zlen_nonneg (Payload f)); lia).
    unfold Decode, mbind, M_bind at 1. cbn [app]. rewrite <- !app_assoc.
    rewrite readFrameHeader_app by (done || (pose proof (zlen_nonneg (Payload f)); lia)).
    by destruct (Z.ltb_spec maxPayload (zlen (Payload f))); [|lia].
Qed.

Lemma Encode_oversized_witness :
  exists out, Encode huge_frame [] = (Ok tt, out) /\
    (forall rest, fst (Decode (out ++ rest)) <> Ok huge_frame) /\
    (zlen (Payload huge_frame) < 2 ^ 32 ->
       forall rest, fst (Decode (out ++ rest)) = Err (PayloadTooLarge (zlen (Payload huge_frame)))).
Proof.
  apply (Encode_oversized huge_frame); [done | by vm_compute |].
  unfold huge_frame, zlen; cbn [Payload]. rewrite length_replicate, Z2Nat.id; by vm_compute.
Defined.

(** [NegotiateVersion] returns the greatest version in both ranges, and fails exactly when the
    ranges have no version in common. *)
Lemma NegotiateVersion_greatest (cmin cmax smin smax : Z) :
  match NegotiateVersion cmin cmax smin smax with
  | Ok v => (cmin <= v <= cmax /\ smin <= v <= smax) /\
            (forall w, cmin <= w <= cmax -> smin <= w <= smax -> w <= v)
  | Err _ => forall w, ~ (cmin <= w <= cmax /\ smin <= w <= smax)
  end.
Proof.
  unfold NegotiateVersion.
  destruct (Z.ltb_spec cmin smin), (Z.ltb_spec smax cmax); cbv zeta; case_tests;
    repeat split; intros; lia.
Qed.
