(* ===== verification/BinaryFrame.v ===== *)
(** * The router's binary frames

    [services/router/internal/gateway/binary_frame.go] with the constants of
    [constants.go]: the frame writer and reader of the router's TCP client, a
    16-byte header (magic, version, message type, reserved word, payload length)
    and a payload.  The last section relates them to the gateway's codec. *)
From S2P Require Import Prelude GoIO GoStrings Wire.
#[local] Open Scope Z_scope.

Module Router.

Definition MaxPayloadSize : Z := 10 * 1024 * 1024.
Definition MagicBytes : Z := 0x4D435000.
Definition HeaderSize : Z := 16.

Record BinaryFrame := mkBinaryFrame {
  Magic : Z;
  Version : Z;
  MessageType : Z;
  PayloadLen : Z;
  Payload : list byte;
}.

Inductive FrameError :=
| ConnectionClosed (operation : string)
| Wrapped (operation : string) (err : io_error)
| InvalidMagic (magic : Z)
| PayloadTooLarge (len : Z).

(** [wrapConnectionError] on a non-nil error. *)
Definition wrapConnectionError (operation : string) (err : io_error) : FrameError :=
  let errStr := error_text err in
  if bool_decide (err = EOF) || bool_decide (err = EPIPE) || bool_decide (err = ECONNRESET)
     || Contains errStr "broken pipe" || Contains errStr "connection reset"
  then ConnectionClosed operation
  else Wrapped operation err.

(** [BinaryFrame.WriteToWriter]: the magic constant (not the field [Magic]),
    version, type, a zero word, the length (not the field [PayloadLen]) and the
    payload.  The bounds check comes after the first twelve bytes are written. *)
Definition WriteToWriter `{Writer W} (f : BinaryFrame) : M W FrameError unit :=
  M_wrap (wrapConnectionError "failed to write magic bytes") (write_be 4 MagicBytes);;
  M_wrap (wrapConnectionError "failed to write version") (write_be 2 (Version f));;
  M_wrap (wrapConnectionError "failed to write message type") (write_be 2 (MessageType f));;
  M_wrap (wrapConnectionError "failed to write reserved padding") (write_be 4 0);;
  if 2 ^ 32 - 1 <? zlen (Payload f) then M_fail (PayloadTooLarge (zlen (Payload f)))
  else
    M_wrap (wrapConnectionError "failed to write payload length")
      (write_be 4 (wrap_u 32 (zlen (Payload f))));;
    if 0 <? zlen (Payload f)
    then M_wrap (wrapConnectionError "failed to write payload") (write (Payload f))
    else mret tt.

(** [ReadBinaryFrame]: the fields [Magic] and [PayloadLen] of the result keep
    their zero values; the version is not checked. *)
Definition ReadBinaryFrame : M (list byte) FrameError BinaryFrame :=
  magic ← M_wrap (wrapConnectionError "failed to read magic bytes") (read_be 4);
  if negb (magic =? MagicBytes) then M_fail (InvalidMagic magic) else
  version ← M_wrap (wrapConnectionError "failed to read version") (read_be 2);
  msgType ← M_wrap (wrapConnectionError "failed to read message type") (read_be 2);
  M_wrap (wrapConnectionError "failed to read reserved padding") (read_be 4);;
  payloadLen ← M_wrap (wrapConnectionError "failed to read payload length") (read_be 4);
  if MaxPayloadSize <? payloadLen then M_fail (PayloadTooLarge payloadLen) else
  payload ← (if 0 <? payloadLen
             then M_wrap (wrapConnectionError "failed to read payload") (ReadFull (Z.to_nat payloadLen))
             else mret []);
  mret {| Magic := 0; Version := version; MessageType := msgType;
          PayloadLen := 0; Payload := payload |}.

(** The octets [WriteToWriter] writes for a payload below 4 GB. *)
Definition binary_frame_bytes (f : BinaryFrame) : list byte :=
  be_bytes 4 MagicBytes ++ be_bytes 2 (Version f) ++ be_bytes 2 (MessageType f)
    ++ be_bytes 4 0 ++ be_bytes 4 (zlen (Payload f)) ++ Payload f.

Record router_frame (f : BinaryFrame) : Prop := {
  rf_version : 0 <= Version f < 2 ^ 16;
  rf_type : 0 <= MessageType f < 2 ^ 16;
  rf_payload : zlen (Payload f) <= MaxPayloadSize;
}.

(** What a reader makes of a frame: the two redundant fields are cleared. *)
Definition as_read (f : BinaryFrame) : BinaryFrame :=
  {| Magic := 0; Version := Version f; MessageType := MessageType f;
     PayloadLen := 0; Payload := Payload f |}.

Lemma WriteToWriter_Buffer f buf :
  zlen (Payload f) < 2 ^ 32 -> WriteToWriter f buf = (Ok tt, buf ++ binary_frame_bytes f).
Proof.
  intros Hl. pose proof (zlen_nonneg (Payload f)).
  unfold WriteToWriter, binary_frame_bytes, mbind, M_bind, M_wrap, write_be, write, Buffer; cbn.
  destruct (Z.ltb_spec (2 ^ 32 - 1) (zlen (Payload f))); [lia|].
  rewrite wrap_u_small by lia.
  destruct (Z.ltb_spec 0 (zlen (Payload f))).
  - by rewrite <- !app_assoc.
  - rewrite (zlen_nil_inv (Payload f)) by lia.
    unfold mret, M_ret. by rewrite app_nil_r, <- !app_assoc.
Qed.

(** Reading a header field that is there. *)
Lemma field_app {A} op n z s (k : Z -> M (list byte) FrameError A) :
  0 <= z < 256 ^ Z.of_nat n ->
  (x ← M_wrap (wrapConnectionError op) (read_be n); k x) (be_bytes n z ++ s) = k z s.
Proof. intros. by erewrite M_bind_ok by by apply M_wrap_ok, read_be_app. Qed.

Lemma ReadBinaryFrame_bytes f s :
  router_frame f -> ReadBinaryFrame (binary_frame_bytes f ++ s) = (Ok (as_read f), s).
Proof.
  intros [Hv Ht Hp]. pose proof (zlen_nonneg (Payload f)). unfold MaxPayloadSize in Hp.
  unfold ReadBinaryFrame, binary_frame_bytes. rewrite <- !app_assoc.
  rewrite field_app by (by vm_compute). rewrite Z.eqb_refl; cbn [negb].
  rewrite !field_app by (done || lia).
  destruct (Z.ltb_spec MaxPayloadSize (zlen (Payload f))); [unfold MaxPayloadSize in *; lia|].
  erewrite M_bind_ok; [done|].
  destruct (Z.ltb_spec 0 (zlen (Payload f))).
  - apply M_wrap_ok, ReadFull_app. unfold zlen. lia.
  - by rewrite (zlen_nil_inv (Payload f)) by lia.
Qed.

(** ** Properties *)

Definition sample_frame : BinaryFrame :=
  {| Magic := MagicBytes; Version := 1; MessageType := 1; PayloadLen := 2;
     Payload := [Byte.x7b; Byte.x7d] |}.

Lemma sample_frame_ok : router_frame sample_frame.
Proof. constructor; by vm_compute. Qed.

(** The router reads back what it writes: version, type and payload of a frame of at most
    10 MB survive, and the bytes that follow it are left unread. *)
Lemma ReadBinaryFrame_WriteToWriter (f : BinaryFrame) (rest : list byte) :
  router_frame f ->
  exists out, WriteToWriter f [] = (Ok tt, out) /\
    zlen out = HeaderSize + zlen (Payload f) /\
    ReadBinaryFrame (out ++ rest) = (Ok (as_read f), rest).
Proof.
  intros Hf. exists (binary_frame_bytes f).
  split; [apply (WriteToWriter_Buffer f []); destruct Hf; unfold MaxPayloadSize in *; lia|].
  split; [|by apply ReadBinaryFrame_bytes].
  unfold binary_frame_bytes, HeaderSize. rewrite !zlen_app. unfold zlen. rewrite !length_be_bytes. lia.
Qed.

Lemma ReadBinaryFrame_WriteToWriter_witness :
  exists out, WriteToWriter sample_frame [] = (Ok tt, out) /\
    zlen out = HeaderSize + zlen (Payload sample_frame) /\
    ReadBinaryFrame (out ++ [Byte.x01]) = (Ok (as_read sample_frame), [Byte.x01]).
Proof. exact (ReadBinaryFrame_WriteToWriter sample_frame [Byte.x01] sample_frame_ok). Defined.

(** The two ends of the TCP binary protocol do not understand each other: every frame the
    router writes is refused by the gateway's [Decode], and every frame the gateway writes is
    refused by the router's [ReadBinaryFrame], in both cases at the magic word, whatever the frame
    and whatever follows it.  (The header sizes differ as well.) *)
Lemma router_gateway_frames_incompatible :
  (forall (f : BinaryFrame) out rest, WriteToWriter f [] = (Ok tt, out) ->
     fst (Decode (out ++ rest)) = Err (Wire.InvalidMagic 0x4D435000)) /\
  (forall (f : Frame) out rest, Encode f [] = (Ok tt, out) ->
     fst (ReadBinaryFrame (out ++ rest)) = Err (InvalidMagic 0x4D435042)).
Proof.
  split; intros f out rest H.
  - assert (exists s, out = be_bytes 4 MagicBytes ++ s) as [s ->].
    { unfold WriteToWriter, mbind, M_bind, M_wrap, M_fail, mret, M_ret, write_be, write, Buffer in H.
      cbn in H. repeat case_match; simplify_eq; rewrite <- ?app_assoc; by eexists. }
    rewrite <- app_assoc. unfold Decode, readFrameHeader.
    erewrite M_bind_err; [done|]. apply M_bind_err.
    by apply validateMagicBytes_bad.
  - rewrite Encode_Buffer, app_nil_l in H. simplify_eq. rewrite <- !app_assoc.
    unfold ReadBinaryFrame. by rewrite field_app by by vm_compute.
Qed.

(** [wrapConnectionError] reports a lost connection exactly for end of stream, a broken pipe
    or a reset connection (by value or by text), and otherwise keeps the cause. *)
Lemma wrapConnectionError_classifies (op : string) (e : io_error) :
  wrapConnectionError op e =
    match e with
    | EOF | EPIPE | ECONNRESET => ConnectionClosed op
    | ErrUnexpectedEOF | ErrClosedPipe => Wrapped op e
    | ErrText t =>
        if Contains t "broken pipe" || Contains t "connection reset"
        then ConnectionClosed op else Wrapped op e
    end.
Proof. by destruct e. Qed.

End Router.
