(* ===== verification/Breaker.v ===== *)
(** * The gateway's circuit breaker

    [services/gateway/pkg/circuit/breaker.go].  Each critical section of the mutex
    is one operation; [Call] has two of them with the protected function between,
    and the background goroutine contributes a tick.  The clock reading of a
    critical section is an argument [now] (nanoseconds). *)
From S2P Require Import Prelude.
#[local] Open Scope Z_scope.

Module Circuit.

Inductive State := StateClosed | StateOpen | StateHalfOpen.

#[export] Instance State_eq_dec : EqDecision State.
Proof. solve_decision. Defined.

(** [State.String]. *)
Definition State_String (s : State) : string :=
  match s with
  | StateClosed => "closed"
  | StateOpen => "open"
  | StateHalfOpen => "half-open"
  end.

Record CircuitBreaker := mkBreaker {
  maxFailures : Z;
  successThreshold : Z;
  timeout : Z;
  state : State;
  failures : Z;
  successes : Z;
  lastFailureTime : Z;
  lastStateChange : Z;
  stopped : bool;   (* stopCh is closed and the recovery goroutine has ended *)
}.

Definition NewCircuitBreaker (maxFailures successThreshold timeout now : Z) : CircuitBreaker :=
  {| maxFailures := maxFailures; successThreshold := successThreshold; timeout := timeout;
     state := StateClosed; failures := 0; successes := 0;
     lastFailureTime := time_zero; lastStateChange := now; stopped := false |}.

Definition set_failures (n : Z) (cb : CircuitBreaker) : CircuitBreaker :=
  {| maxFailures := maxFailures cb; successThreshold := successThreshold cb; timeout := timeout cb;
     state := state cb; failures := n; successes := successes cb;
     lastFailureTime := lastFailureTime cb; lastStateChange := lastStateChange cb;
     stopped := stopped cb |}.

Definition set_successes (n : Z) (cb : CircuitBreaker) : CircuitBreaker :=
  {| maxFailures := maxFailures cb; successThreshold := successThreshold cb; timeout := timeout cb;
     state := state cb; failures := failures cb; successes := n;
     lastFailureTime := lastFailureTime cb; lastStateChange := lastStateChange cb;
     stopped := stopped cb |}.

Definition set_lastFailureTime (t : Z) (cb : CircuitBreaker) : CircuitBreaker :=
  {| maxFailures := maxFailures cb; successThreshold := successThreshold cb; timeout := timeout cb;
     state := state cb; failures := failures cb; successes := successes cb;
     lastFailureTime := t; lastStateChange := lastStateChange cb; stopped := stopped cb |}.

(** [setState]. *)
Definition setState (s : State) (now : Z) (cb : CircuitBreaker) : CircuitBreaker :=
  {| maxFailures := maxFailures cb; successThreshold := successThreshold cb; timeout := timeout cb;
     state := s; failures := failures cb; successes := successes cb;
     lastFailureTime := lastFailureTime cb; lastStateChange := now; stopped := stopped cb |}.

(** [checkAndTransitionToHalfOpen], run by [autoRecovery] every 100 ms. *)
Definition checkAndTransitionToHalfOpen (now : Z) (cb : CircuitBreaker) : CircuitBreaker :=
  if bool_decide (state cb = StateOpen) && (timeout cb <? time_sub now (lastFailureTime cb))
  then set_successes 0 (setState StateHalfOpen now cb)
  else cb.

(** One iteration of the [autoRecovery] loop when the ticker fires. *)
Definition autoRecovery_tick (now : Z) (cb : CircuitBreaker) : CircuitBreaker :=
  if stopped cb then cb else checkAndTransitionToHalfOpen now cb.

(** [recordFailure]. *)
Definition recordFailure (now : Z) (cb : CircuitBreaker) : CircuitBreaker :=
  let cb := set_lastFailureTime now (set_failures (failures cb + 1) cb) in
  match state cb with
  | StateClosed =>
      if maxFailures cb <=? failures cb
      then set_failures 0 (setState StateOpen now cb) else cb
  | StateHalfOpen => set_failures 0 (setState StateOpen now cb)
  | StateOpen => cb
  end.

(** [recordSuccess]. *)
Definition recordSuccess (now : Z) (cb : CircuitBreaker) : CircuitBreaker :=
  let cb := set_failures 0 cb in
  match state cb with
  | StateHalfOpen =>
      let cb := set_successes (successes cb + 1) cb in
      if successThreshold cb <=? successes cb
      then set_successes 0 (setState StateClosed now cb) else cb
  | StateClosed => cb
  | StateOpen => cb
  end.

(** The critical section [Call] runs after the function: success or failure. *)
Definition record (ok : bool) (now : Z) (cb : CircuitBreaker) : CircuitBreaker :=
  if ok then recordSuccess now cb else recordFailure now cb.

Inductive CallError (Err : Type) := ErrCircuitOpen | FnError (e : Err).
Arguments ErrCircuitOpen {Err}.
Arguments FnError {Err} e.

(** [Call] when no other caller interleaves.  The protected function acts on an
    environment; [now] is read after it returns. *)
Definition Call {Env Err} (fn : Env -> option Err * Env) (now : Z)
    (cb : CircuitBreaker) (env : Env) : option (CallError Err) * CircuitBreaker * Env :=
  if bool_decide (state cb = StateOpen) then (Some ErrCircuitOpen, cb, env)
  else match fn env with
       | (Some e, env') => (Some (FnError e), recordFailure now cb, env')
       | (None, env') => (None, recordSuccess now cb, env')
       end.

Definition GetState (cb : CircuitBreaker) : State := state cb.
Definition IsOpen (cb : CircuitBreaker) : bool := bool_decide (state cb = StateOpen).

(** [Reset]. *)
Definition Reset (now : Z) (cb : CircuitBreaker) : CircuitBreaker :=
  {| maxFailures := maxFailures cb; successThreshold := successThreshold cb; timeout := timeout cb;
     state := StateClosed; failures := 0; successes := 0;
     lastFailureTime := lastFailureTime cb; lastStateChange := now; stopped := stopped cb |}.

(** [Close]: closing the stop channel twice panics ([None]). *)
Definition Close (cb : CircuitBreaker) : option CircuitBreaker :=
  if stopped cb then None
  else Some {| maxFailures := maxFailures cb; successThreshold := successThreshold cb;
               timeout := timeout cb; state := state cb; failures := failures cb;
               successes := successes cb; lastFailureTime := lastFailureTime cb;
               lastStateChange := lastStateChange cb; stopped := true |}.

(** ** Concurrent executions

    A configuration is the breaker, the number of callers between the two critical
    sections of [Call], and the clock. *)

Record Config := mkConfig { breaker : CircuitBreaker; inflight : nat; clock : Z }.

Inductive step : Config -> Config -> Prop :=
| step_reject cb n t :
    state cb = StateOpen -> step (mkConfig cb n t) (mkConfig cb n t)
| step_begin cb n t :
    state cb <> StateOpen -> step (mkConfig cb n t) (mkConfig cb (S n) t)
| step_end cb n t ok :
    step (mkConfig cb (S n) t) (mkConfig (record ok t cb) n t)
| step_tick cb n t :
    step (mkConfig cb n t) (mkConfig (autoRecovery_tick t cb) n t)
| step_close cb cb' n t :
    Close cb = Some cb' -> step (mkConfig cb n t) (mkConfig cb' n t)
| step_clock cb n t t' :
    t <= t' -> step (mkConfig cb n t) (mkConfig cb n t').

(** The same with manual resets. *)
Inductive step_or_reset : Config -> Config -> Prop :=
| sr_step c c' : step c c' -> step_or_reset c c'
| sr_reset cb n t : step_or_reset (mkConfig cb n t) (mkConfig (Reset t cb) n t).

(** ** Invariant *)

(** The counters stay below the thresholds that would have changed the state. *)
Record breaker_inv (cb : CircuitBreaker) : Prop := {
  inv_failures : 0 <= failures cb;
  inv_closed : state cb = StateClosed -> failures cb < Z.max 1 (maxFailures cb);
  inv_half : state cb = StateHalfOpen -> 0 <= successes cb < Z.max 1 (successThreshold cb);
}.

Lemma record_inv ok now cb : breaker_inv cb -> breaker_inv (record ok now cb).
Proof.
  intros [Hf Hc Hh]. unfold record, recordFailure, recordSuccess; cbn.
  destruct ok, (state cb) eqn:E; cbn; case_tests; split; cbn; rewrite ?E;
    intros; try discriminate; try specialize (Hc eq_refl); try specialize (Hh eq_refl); lia.
Qed.

Lemma tick_inv now cb : breaker_inv cb -> breaker_inv (autoRecovery_tick now cb).
Proof.
  intros [Hf Hc Hh]. unfold autoRecovery_tick, checkAndTransitionToHalfOpen.
  case_tests; split; cbn; intros; auto; done || lia.
Qed.

Lemma Reset_inv now cb : breaker_inv (Reset now cb).
Proof. split; cbn; intros; try done; lia. Qed.

#[export] Hint Resolve record_inv tick_inv Reset_inv : mcp.

Lemma step_or_reset_inv c c' :
  step_or_reset c c' -> breaker_inv (breaker c) -> breaker_inv (breaker c').
Proof.
  intros [? ? []|]; cbn; eauto with mcp.
  unfold Close in *. case_match; simplify_eq. by intros [? ? ?]; split.
Qed.

(** ** Frame conditions of the operations *)

Lemma record_config ok now cb :
  maxFailures (record ok now cb) = maxFailures cb /\
  successThreshold (record ok now cb) = successThreshold cb /\
  timeout (record ok now cb) = timeout cb /\ stopped (record ok now cb) = stopped cb.
Proof.
  unfold record, recordFailure, recordSuccess; cbn.
  destruct ok, (state cb); cbn; case_tests; done.
Qed.

Lemma record_open ok now cb : state cb = StateOpen -> state (record ok now cb) = StateOpen.
Proof. intros H. unfold record, recordFailure, recordSuccess; cbn. by destruct ok; rewrite H; cbn. Qed.

Lemma record_open_lastFailureTime ok now cb :
  lastFailureTime cb <= now -> lastFailureTime cb <= lastFailureTime (record ok now cb).
Proof.
  intros. unfold record, recordFailure, recordSuccess; cbn.
  destruct ok, (state cb); cbn; case_tests; cbn; lia.
Qed.

Lemma record_lastFailureTime_le ok now cb :
  lastFailureTime cb <= now -> lastFailureTime (record ok now cb) <= now.
Proof.
  intros. unfold record, recordFailure, recordSuccess; cbn.
  destruct ok, (state cb); cbn; case_tests; cbn; lia.
Qed.

(** ** Consecutive failures *)

(** The breaker after a sequence of completed calls, no tick in between. *)
Definition record_all (now : Z) (os : list bool) (cb : CircuitBreaker) : CircuitBreaker :=
  fold_left (fun cb ok => record ok now cb) os cb.

(** [os] has [n] failures in a row somewhere. *)
Definition failure_run (n : nat) (os : list bool) : Prop :=
  exists pre post, os = pre ++ replicate n false ++ post.

Lemma record_all_open now os cb :
  state cb = StateOpen -> state (record_all now os cb) = StateOpen.
Proof.
  revert cb; induction os as [|o os IH]; intros cb H; [done|].
  by apply IH, record_open.
Qed.

Lemma failure_run_cons n o os : failure_run n os -> failure_run n (o :: os).
Proof. intros (pre & post & ->). by exists (o :: pre), post. Qed.

Lemma failure_run_success n os : failure_run (S n) (true :: os) -> failure_run (S n) os.
Proof. intros ([|o pre] & post & H); [done|]. injection H as <- ->. by exists pre, post. Qed.

(** With [k] failures already counted, the circuit opens when the sequence starts
    with the missing failures or has a full run later. *)
Lemma record_all_trips now os cb n k :
  state cb = StateClosed -> maxFailures cb = Z.of_nat (S n) -> failures cb = Z.of_nat k -> (k <= n)%nat ->
  state (record_all now os cb) = StateOpen <->
  (exists post, os = replicate (S n - k) false ++ post) \/ failure_run (S n) os.
Proof.
  revert cb k; induction os as [|o os IH]; intros cb k Hs Hm Hf Hk.
  - cbn. rewrite Hs. split; [done|].
    intros [[post H]|(pre & post & H)]; [|by destruct pre].
    destruct (S n - k)%nat eqn:E; [lia|done].
  - cbn [record_all fold_left]. fold (record_all now os (record o now cb)).
    destruct o; cbn [record].
    + assert (recordSuccess now cb = set_failures 0 cb) as -> by (unfold recordSuccess; cbn; by rewrite Hs).
      rewrite (IH (set_failures 0 cb) 0%nat) by (done || lia).
      split.
      * intros [[post ->]|H]; right; [|by apply failure_run_cons].
        exists [true], post. by rewrite Nat.sub_0_r.
      * intros [[post H]|H]; right; [|by apply failure_run_success].
        destruct (S n - k)%nat eqn:E; [lia|done].
    + unfold recordFailure. cbn. rewrite Hs, Hm, Hf.
      destruct (Z.leb_spec (Z.of_nat (S n)) (Z.of_nat k + 1)).
      * assert (k = n) as -> by lia. rewrite record_all_open by done.
        split; [intros _; left|done]. replace (S n - n)%nat with 1%nat by lia. by exists os.
      * rewrite (IH _ (S k)) by (cbn; done || lia).
        replace (S n - S k)%nat with (n - k)%nat by lia.
        replace (S n - k)%nat with (S (n - k)) by lia. split.
        -- intros [[post ->]|H']; [left; by exists post | right; by apply failure_run_cons].
        -- intros [[post H']|([|o pre] & post & H')].
           ++ left. injection H' as ->. by exists post.
           ++ left. injection H' as ->. exists (replicate k false ++ post).
              rewrite app_assoc, <- replicate_add. repeat f_equal. lia.
           ++ right. injection H' as <- ->. by exists pre, post.
Qed.

(** ** Recovery *)

Lemma tick_recovers now cb :
  state cb = StateOpen -> stopped cb = false -> timeout cb < time_sub now (lastFailureTime cb) ->
  autoRecovery_tick now cb = set_successes 0 (setState StateHalfOpen now cb).
Proof.
  intros Hs Hst Ht. unfold autoRecovery_tick, checkAndTransitionToHalfOpen.
  by rewrite Hst, bool_decide_true, (proj2 (Z.ltb_lt _ _) Ht) by done.
Qed.

Lemma record_all_half_open now k cb n :
  state cb = StateHalfOpen -> successThreshold cb = Z.of_nat n -> 0 <= successes cb ->
  successes cb + Z.of_nat k < Z.of_nat n ->
  state (record_all now (replicate k true) cb) = StateHalfOpen /\
  successes (record_all now (replicate k true) cb) = successes cb + Z.of_nat k /\
  successThreshold (record_all now (replicate k true) cb) = Z.of_nat n.
Proof.
  revert cb; induction k as [|k IH]; intros cb Hs Ht H0 Hk; [repeat split; cbn; try done; lia|].
  cbn [replicate record_all fold_left]. fold (record_all now (replicate k true) (record true now cb)).
  assert (record true now cb = set_successes (successes cb + 1) (set_failures 0 cb)) as ->.
  { unfold record, recordSuccess; cbn. rewrite Hs, Ht.
    destruct (Z.leb_spec (Z.of_nat n) (successes cb + 1)); [lia|done]. }
  destruct (IH (set_successes (successes cb + 1) (set_failures 0 cb))) as (? & Hsu & ?); cbn; try done; try lia.
  repeat split; try done. rewrite Hsu. cbn. lia.
Qed.

(** ** Open periods *)

Lemma step_clock_mono c c' : rtc step c c' -> clock c <= clock c'.
Proof. induction 1 as [|c c1 c' [] _ IH]; cbn in *; lia. Qed.

(** A step from an open breaker within its timeout keeps it open and can only
    move the last failure forward. *)
Lemma step_stays_open c c' :
  step c c' -> state (breaker c) = StateOpen -> 0 <= timeout (breaker c) ->
  lastFailureTime (breaker c) <= clock c ->
  clock c' <= lastFailureTime (breaker c) + timeout (breaker c) ->
  state (breaker c') = StateOpen /\ timeout (breaker c') = timeout (breaker c) /\
  lastFailureTime (breaker c) <= lastFailureTime (breaker c') <= clock c'.
Proof.
  intros [] Hs Ht Hl Hc; cbn in *; try (repeat split; done || lia).
  - destruct (record_config ok t cb) as (_ & _ & -> & _). rewrite record_open by done.
    pose proof (record_open_lastFailureTime ok t cb Hl).
    pose proof (record_lastFailureTime_le ok t cb Hl). lia || (repeat split; lia).
  - unfold autoRecovery_tick, checkAndTransitionToHalfOpen.
    destruct (Z.ltb_spec (timeout cb) (time_sub t (lastFailureTime cb))) as [Hlt|].
    + unfold time_sub, min_i64, max_i64 in Hlt. lia.
    + rewrite andb_false_r. destruct (stopped cb); repeat split; done || lia.
  - unfold Close in *. case_match; simplify_eq; cbn. repeat split; done || lia.
Qed.

(** ** Properties *)

Definition sample : CircuitBreaker := NewCircuitBreaker 2 2 (30 * Second) 0.

(** In every interleaving of callers, recovery ticks, clock advances, resets and close, the
    failure count of a closed breaker stays below the failure threshold and the success count of a
    half-open one below the success threshold: the thresholds cannot be overrun by callers that
    were admitted before the state changed. *)
Lemma breaker_counters_bounded (mf st tmo t0 : Z) (c : Config) :
  rtc step_or_reset (mkConfig (NewCircuitBreaker mf st tmo t0) 0 t0) c ->
  breaker_inv (breaker c).
Proof.
  remember (mkConfig _ _ _) as c0 eqn:E. intros H.
  assert (breaker_inv (breaker c0)) as H0 by (subst; split; cbn; intros; try done; lia).
  clear E. induction H as [|c0 c1 c Hs _ IH]; [done|]. apply IH. by eapply step_or_reset_inv.
Qed.

Lemma breaker_counters_bounded_witness :
  breaker_inv (record false 5 (record false 5 sample)).
Proof.
  apply (breaker_counters_bounded 2 2 (30 * Second) 0 (mkConfig _ 0 5)).
  eapply rtc_l; [apply sr_step, step_begin; done|].
  eapply rtc_l; [apply sr_step, step_begin; done|].
  eapply rtc_l; [apply sr_step, (step_clock _ _ 0 5); lia|].
  eapply rtc_l; [apply sr_step, (step_end _ _ _ false)|].
  eapply rtc_l; [apply sr_step, (step_end _ _ _ false)|].
  apply rtc_refl.
Defined.

(** C22: A closed breaker opens exactly when [maxFailures] calls fail in a row: after any sequence of
    completed calls the circuit is open if and only if the sequence contains a run of that many
    consecutive failures. *)
Theorem opens_iff_failure_run (now tmo st t0 : Z) (n : nat) (os : list bool) :
  state (record_all now os (NewCircuitBreaker (Z.of_nat (S n)) st tmo t0)) = StateOpen
  <-> failure_run (S n) os.
Proof.
  rewrite (record_all_trips now os _ n 0) by (done || cbn; lia). split.
  - intros [[post ->]|H]; [|done]. by exists [], post.
  - by right.
Qed.

(** An open breaker stays open, so every call fails fast, in all interleavings (calls still in
    flight, ticks, close) until more than [timeout] has passed since the last recorded failure;
    only a manual reset, which is excluded here, can end the period earlier. *)
Lemma open_until_timeout (c c' : Config) :
  rtc step c c' ->
  state (breaker c) = StateOpen -> 0 <= timeout (breaker c) ->
  lastFailureTime (breaker c) <= clock c ->
  clock c' <= lastFailureTime (breaker c) + timeout (breaker c) ->
  state (breaker c') = StateOpen.
Proof.
  induction 1 as [|c c1 c' Hs Hr IH]; intros Ho Ht Hl Hc; [done|].
  pose proof (step_clock_mono _ _ Hr).
  destruct (step_stays_open _ _ Hs Ho Ht Hl) as (Ho1 & Ht1 & Hl1); [lia|].
  apply IH; [done | lia..].
Qed.

Lemma open_until_timeout_witness :
  state (autoRecovery_tick (20 * Second) (record_all 0 [false; false] sample)) = StateOpen.
Proof.
  apply (open_until_timeout (mkConfig (record_all 0 [false; false] sample) 1 0)
                            (mkConfig (autoRecovery_tick (20 * Second) (record_all 0 [false; false] sample)) 1 (20 * Second)));
    [|by vm_compute..].
  eapply rtc_l; [apply (step_clock _ _ 0 (20 * Second)); by vm_compute|].
  eapply rtc_l; [apply step_tick|]. apply rtc_refl.
Defined.

(** C40: Recovery: once the timeout has passed, a tick makes an open breaker half-open, and from
    there it closes after exactly [successThreshold] successful calls in a row, while a failure
    before that opens it again. *)
Theorem recovery_needs_successes (now : Z) (cb : CircuitBreaker) (n k : nat) :
  state cb = StateOpen -> stopped cb = false -> timeout cb < time_sub now (lastFailureTime cb) ->
  successThreshold cb = Z.of_nat n -> (0 < n)%nat -> (k < n)%nat ->
  let half := autoRecovery_tick now cb in
  state (record_all now (replicate k true) half) = StateHalfOpen /\
  state (record_all now (replicate n true) half) = StateClosed /\
  (forall post, state (record_all now (replicate k true ++ false :: post) half) = StateOpen).
Proof.
  intros Hs Hst Ht Hn Hpos Hk half. subst half. rewrite tick_recovers by done.
  set (half := set_successes 0 _).
  assert (forall j, (j < n)%nat -> state (record_all now (replicate j true) half) = StateHalfOpen /\
            successes (record_all now (replicate j true) half) = Z.of_nat j /\
            successThreshold (record_all now (replicate j true) half) = Z.of_nat n) as Hj.
  { intros j Hj. apply (record_all_half_open now j half n); cbn; done || lia. }
  split_and!.
  - by apply Hj.
  - destruct n as [|n]; [lia|]. rewrite replicate_S_end. unfold record_all. rewrite fold_left_app.
    fold (record_all now (replicate n true) half). cbn.
    destruct (Hj n ltac:(lia)) as (H1 & H2 & H3). unfold recordSuccess; cbn. rewrite H1, H2, H3.
    by destruct (Z.leb_spec (Z.of_nat (S n)) (Z.of_nat n + 1)); [|lia].
  - intros post. unfold record_all. rewrite fold_left_app. fold (record_all now (replicate k true) half).
    cbn. apply (record_all_open now post). unfold recordFailure; cbn.
    by destruct (Hj k Hk) as (-> & _).
Qed.

Lemma recovery_needs_successes_witness :
  let half := autoRecovery_tick (31 * Second) (record_all 0 [false; false] sample) in
  state (record_all (31 * Second) (replicate 1 true) half) = StateHalfOpen /\
  state (record_all (31 * Second) (replicate 2 true) half) = StateClosed /\
  (forall post, state (record_all (31 * Second) (replicate 1 true ++ false :: post) half) = StateOpen).
Proof. apply recovery_needs_successes; (by vm_compute) || lia. Defined.

(** A backend that always fails, with the number of times it was invoked. *)
Definition dead_backend (calls : nat) : option unit * nat := (Some tt, S calls).

(** [k] calls one after the other through the breaker. *)
Fixpoint Call_many {Env Err} (k : nat) (fn : Env -> option Err * Env) (now : Z)
    (cb : CircuitBreaker) (env : Env) : CircuitBreaker * Env :=
  match k with
  | O => (cb, env)
  | S k => let '(_, cb', env') := Call fn now cb env in Call_many k fn now cb' env'
  end.

Lemma Call_many_open {Env Err} k (fn : Env -> option Err * Env) now cb env :
  state cb = StateOpen -> Call_many k fn now cb env = (cb, env).
Proof. intros H. induction k; cbn; [done|]. unfold Call. by rewrite bool_decide_true. Qed.

Lemma Call_many_dead now k : forall cb calls m,
  state cb = StateClosed -> maxFailures cb = Z.of_nat m -> 0 <= failures cb < Z.of_nat m ->
  Z.of_nat (snd (Call_many k dead_backend now cb calls))
  = Z.of_nat calls + Z.min (Z.of_nat k) (Z.of_nat m - failures cb).
Proof.
  induction k as [|k IH]; intros cb calls m Hs Hm Hf; [cbn; lia|].
  cbn [Call_many]. unfold Call. rewrite bool_decide_false by congruence. cbn.
  unfold recordFailure; cbn. rewrite Hs, Hm.
  destruct (Z.leb_spec (Z.of_nat m) (failures cb + 1)).
  - rewrite Call_many_open by done. cbn. lia.
  - erewrite IH; cbn; [|done|done|lia]. cbn. lia.
Qed.

(** A backend that keeps failing is invoked exactly [maxFailures] times by any longer sequence of
    calls through a fresh breaker: the remaining calls fail fast without reaching it. *)
Lemma dead_backend_call_count (now st tmo t0 : Z) (m k : nat) :
  (0 < m)%nat ->
  snd (Call_many k dead_backend now (NewCircuitBreaker (Z.of_nat m) st tmo t0) 0%nat) = Nat.min k m.
Proof.
  intros Hm. apply Nat2Z.inj.
  rewrite (Call_many_dead now k _ 0%nat m) by (done || cbn; lia). cbn. lia.
Qed.

Lemma dead_backend_call_count_witness :
  snd (Call_many 7 dead_backend 0 (NewCircuitBreaker 5 3 (30 * Second) 0) 0%nat) = 5%nat.
Proof. apply (dead_backend_call_count 0 3 (30 * Second) 0 5 7). lia. Defined.

End Circuit.
