(* ===== verification/RouterBreaker.v ===== *)
(** * The router's circuit breaker

    [services/router/internal/gateway/circuit_breaker.go]: the breaker the router
    wraps around a gateway client.  Every operation holds the mutex for its whole
    state change, so an execution is a sequence of these operations; the clock is
    read into the arguments [now]. *)
From S2P Require Import Prelude.
#[local] Open Scope Z_scope.

Module GwBreaker.

Inductive CircuitState := CircuitClosed | CircuitOpen | CircuitHalfOpen.

#[export] Instance CircuitState_eq_dec : EqDecision CircuitState.
Proof. solve_decision. Defined.

Definition CircuitState_String (s : CircuitState) : string :=
  match s with
  | CircuitClosed => "CLOSED"
  | CircuitOpen => "OPEN"
  | CircuitHalfOpen => "HALF_OPEN"
  end.

Record CircuitBreakerConfig := mkConfig {
  FailureThreshold : Z;
  RecoveryTimeout : Z;
  SuccessThreshold : Z;
  TimeoutDuration : Z;
  MonitoringWindow : Z;
}.

Definition DefaultCircuitBreakerConfig : CircuitBreakerConfig :=
  {| FailureThreshold := 5; RecoveryTimeout := 30 * Second; SuccessThreshold := 3;
     TimeoutDuration := 10 * Second; MonitoringWindow := 60 * Second |}.

Record failureRecord := mkFailure { timestamp : Z; error : string }.

Record CircuitBreaker := mkBreaker {
  config : CircuitBreakerConfig;
  state : CircuitState;
  stateChangedAt : Z;
  recentFailures : list failureRecord;
  consecutiveFailures : Z;
  consecutiveSuccesses : Z;
  totalRequests : Z;
  totalFailures : Z;
  totalSuccesses : Z;
  lastFailureTime : Z;
  lastSuccessTime : Z;
}.

Definition NewCircuitBreaker (cfg : CircuitBreakerConfig) (now : Z) : CircuitBreaker :=
  {| config := cfg; state := CircuitClosed; stateChangedAt := now; recentFailures := [];
     consecutiveFailures := 0; consecutiveSuccesses := 0;
     totalRequests := 0; totalFailures := 0; totalSuccesses := 0;
     lastFailureTime := time_zero; lastSuccessTime := time_zero |}.

(** [setState]; logging is left out. *)
Definition setState (s : CircuitState) (now : Z) (cb : CircuitBreaker) : CircuitBreaker :=
  {| config := config cb; state := s; stateChangedAt := now; recentFailures := recentFailures cb;
     consecutiveFailures := consecutiveFailures cb; consecutiveSuccesses := consecutiveSuccesses cb;
     totalRequests := totalRequests cb; totalFailures := totalFailures cb;
     totalSuccesses := totalSuccesses cb;
     lastFailureTime := lastFailureTime cb; lastSuccessTime := lastSuccessTime cb |}.

(** [cleanupOldFailures]. *)
Definition cleanupOldFailures (now : Z) (cb : CircuitBreaker) : CircuitBreaker :=
  let cutoff := time_add now (dur_neg (MonitoringWindow (config cb))) in
  {| config := config cb; state := state cb; stateChangedAt := stateChangedAt cb;
     recentFailures := List.filter (fun f => time_after (timestamp f) cutoff) (recentFailures cb);
     consecutiveFailures := consecutiveFailures cb; consecutiveSuccesses := consecutiveSuccesses cb;
     totalRequests := totalRequests cb; totalFailures := totalFailures cb;
     totalSuccesses := totalSuccesses cb;
     lastFailureTime := lastFailureTime cb; lastSuccessTime := lastSuccessTime cb |}.

(** [allowRequest]. *)
Definition allowRequest (now : Z) (cb : CircuitBreaker) : bool :=
  match state cb with
  | CircuitClosed => true
  | CircuitOpen => RecoveryTimeout (config cb) <=? time_sub now (stateChangedAt cb)
  | CircuitHalfOpen => true
  end.

(** [recordSuccess]. *)
Definition recordSuccess (now : Z) (cb0 : CircuitBreaker) : CircuitBreaker :=
  let cb :=
    {| config := config cb0; state := state cb0; stateChangedAt := stateChangedAt cb0;
       recentFailures := recentFailures cb0;
       consecutiveFailures := 0; consecutiveSuccesses := consecutiveSuccesses cb0 + 1;
       totalRequests := i64_add (totalRequests cb0) 1; totalFailures := totalFailures cb0;
       totalSuccesses := i64_add (totalSuccesses cb0) 1;
       lastFailureTime := lastFailureTime cb0; lastSuccessTime := now |} in
  match state cb with
  | CircuitHalfOpen =>
      if SuccessThreshold (config cb) <=? consecutiveSuccesses cb
      then setState CircuitClosed now cb else cb
  | CircuitOpen =>
      if RecoveryTimeout (config cb) <=? time_sub now (stateChangedAt cb)
      then setState CircuitHalfOpen now cb else cb
  | CircuitClosed => cb
  end.

(** [recordFailure]. *)
Definition recordFailure (err : string) (now : Z) (cb0 : CircuitBreaker) : CircuitBreaker :=
  let cb := cleanupOldFailures now
    {| config := config cb0; state := state cb0; stateChangedAt := stateChangedAt cb0;
       recentFailures := recentFailures cb0 ++ [{| timestamp := now; error := err |}];
       consecutiveFailures := consecutiveFailures cb0 + 1; consecutiveSuccesses := 0;
       totalRequests := i64_add (totalRequests cb0) 1;
       totalFailures := i64_add (totalFailures cb0) 1; totalSuccesses := totalSuccesses cb0;
       lastFailureTime := now; lastSuccessTime := lastSuccessTime cb0 |} in
  match state cb with
  | CircuitClosed =>
      if FailureThreshold (config cb) <=? consecutiveFailures cb
      then setState CircuitOpen now cb else cb
  | CircuitHalfOpen => setState CircuitOpen now cb
  | CircuitOpen => cb
  end.

(** [ForceOpen], [ForceClose], [ForceFail]. *)
Definition ForceOpen (now : Z) (cb : CircuitBreaker) : CircuitBreaker := setState CircuitOpen now cb.

Definition ForceClose (now : Z) (cb0 : CircuitBreaker) : CircuitBreaker :=
  let cb := setState CircuitClosed now cb0 in
  {| config := config cb; state := state cb; stateChangedAt := stateChangedAt cb;
     recentFailures := recentFailures cb; consecutiveFailures := 0; consecutiveSuccesses := 0;
     totalRequests := totalRequests cb; totalFailures := totalFailures cb;
     totalSuccesses := totalSuccesses cb;
     lastFailureTime := lastFailureTime cb; lastSuccessTime := lastSuccessTime cb |}.

Definition ForceFail (err : string) (now : Z) (cb : CircuitBreaker) : CircuitBreaker :=
  recordFailure err now cb.

Record CircuitBreakerStats := mkStats {
  sState : CircuitState;
  sFailureCount : Z;
  sSuccessCount : Z;
  sConsecutiveFailures : Z;
  sConsecutiveSuccesses : Z;
  sTotalRequests : Z;
  sTotalFailures : Z;
  sTotalSuccesses : Z;
  sLastFailureTime : Z;
  sLastSuccessTime : Z;
  sStateChangedTime : Z;
}.

Definition GetStats (cb : CircuitBreaker) : CircuitBreakerStats :=
  {| sState := state cb; sFailureCount := zlen (recentFailures cb);
     sSuccessCount := totalSuccesses cb;
     sConsecutiveFailures := consecutiveFailures cb;
     sConsecutiveSuccesses := consecutiveSuccesses cb;
     sTotalRequests := totalRequests cb; sTotalFailures := totalFailures cb;
     sTotalSuccesses := totalSuccesses cb;
     sLastFailureTime := lastFailureTime cb; sLastSuccessTime := lastSuccessTime cb;
     sStateChangedTime := stateChangedAt cb |}.

(** ** Guarded operations of the wrapped client *)

(** How the [select] of [executeWithCircuitBreaker] ends: the call returned (with
    an error or without) or the context ended first. *)
Inductive Outcome := Returned (err : option string) | ContextDone (err : string).

Inductive ExecError :=
| Rejected (operation : string)
| ClientError (err : string)
| TimedOut (operation err : string).

(** [executeWithCircuitBreaker]: the wrapped call acts on the client [Env];
    [now] is the clock at [allowRequest], [now'] the clock when the call ended. *)
Definition executeWithCircuitBreaker {Env} (operation : string) (fn : Env -> Outcome * Env)
    (now now' : Z) (cb : CircuitBreaker) (env : Env) : option ExecError * CircuitBreaker * Env :=
  if negb (allowRequest now cb)
  then (Some (Rejected operation), recordFailure "circuit breaker is OPEN" now cb, env)
  else match fn env with
       | (Returned (Some e), env') => (Some (ClientError e), recordFailure e now' cb, env')
       | (Returned None, env') => (None, recordSuccess now' cb, env')
       | (ContextDone e, env') => (Some (TimedOut operation e), recordFailure e now' cb, env')
       end.

(** The [GatewayClient] interface the breaker wraps and implements. *)
Class GatewayClient (Env Request Response : Type) := {
  client_Connect : Env -> Outcome * Env;
  client_SendRequest : Request -> Env -> Outcome * Env;
  client_ReceiveResponse : Env -> (Outcome * option Response) * Env;
  client_SendPing : Env -> Outcome * Env;
  client_IsConnected : Env -> bool;
}.

Section Wrapped.
Context {Env Request Response : Type} `{!GatewayClient Env Request Response}.

Definition Connect (now now' : Z) (cb : CircuitBreaker) (env : Env) :=
  executeWithCircuitBreaker "Connect" client_Connect now now' cb env.

Definition SendRequest (req : Request) (now now' : Z) (cb : CircuitBreaker) (env : Env) :=
  executeWithCircuitBreaker "SendRequest" (client_SendRequest req) now now' cb env.

(** The response variable lives beside the client and keeps its zero value when
    the call is rejected. *)
Definition ReceiveResponse (now now' : Z) (cb : CircuitBreaker) (env : Env)
    : option Response * option ExecError * CircuitBreaker * Env :=
  let '(err, cb', (env', result)) :=
    executeWithCircuitBreaker "ReceiveResponse"
      (fun '(e, _) => let '((o, r), e') := client_ReceiveResponse e in (o, (e', r)))
      now now' cb (env, None) in
  (result, err, cb', env').

Definition SendPing (now now' : Z) (cb : CircuitBreaker) (env : Env) :=
  executeWithCircuitBreaker "SendPing" client_SendPing now now' cb env.

Definition IsConnected (cb : CircuitBreaker) (env : Env) : bool :=
  if bool_decide (state cb = CircuitOpen) then false else client_IsConnected env.

End Wrapped.

(** ** Executions as sequences of operations *)

Inductive Op :=
| OpSuccess | OpFailure (err : string) | OpForceOpen | OpForceClose.

Definition apply_op (o : Op) (now : Z) (cb : CircuitBreaker) : CircuitBreaker :=
  match o with
  | OpSuccess => recordSuccess now cb
  | OpFailure e => recordFailure e now cb
  | OpForceOpen => ForceOpen now cb
  | OpForceClose => ForceClose now cb
  end.

Definition run (ops : list (Op * Z)) (cb : CircuitBreaker) : CircuitBreaker :=
  fold_left (fun cb '(o, now) => apply_op o now cb) ops cb.

(** ** Invariant *)

Record breaker_inv (cb : CircuitBreaker) : Prop := {
  inv_total : totalRequests cb = wrap_s 64 (totalFailures cb + totalSuccesses cb);
  inv_counts : 0 <= consecutiveFailures cb /\ 0 <= consecutiveSuccesses cb;
  inv_alternate : consecutiveFailures cb = 0 \/ consecutiveSuccesses cb = 0;
  inv_closed : state cb = CircuitClosed ->
               consecutiveFailures cb < Z.max 1 (FailureThreshold (config cb));
}.

Lemma total_succ a b t : t = wrap_s 64 (a + b) -> i64_add t 1 = wrap_s 64 (i64_add a 1 + b).
Proof.
  intros ->. unfold i64_add. rewrite !wrap_s_add_l by lia. f_equal. lia.
Qed.

Lemma apply_op_inv o now cb : breaker_inv cb -> breaker_inv (apply_op o now cb).
Proof.
  intros [Ht Hc Ha Hcl].
  pose proof (total_succ _ _ _ Ht) as Hf.
  rewrite Z.add_comm in Ht. pose proof (total_succ _ _ _ Ht) as Hs.
  rewrite Z.add_comm in Ht, Hs.
  destruct o; cbn; [unfold recordSuccess|unfold recordFailure|unfold ForceOpen|unfold ForceClose]; cbn;
    destruct (state cb); case_tests; split; cbn; intros; try done; lia.
Qed.

#[export] Hint Resolve apply_op_inv : mcp.

Lemma run_inv ops cb : breaker_inv cb -> breaker_inv (run ops cb).
Proof. revert cb; induction ops as [|[o t] ops IH]; cbn; eauto with mcp. Qed.

Lemma apply_op_config o now cb : config (apply_op o now cb) = config cb.
Proof.
  destruct o; cbn; [unfold recordSuccess|unfold recordFailure|done..]; cbn;
    destruct (state cb); case_tests; done.
Qed.

(** ** An open breaker *)

Lemma recordFailure_open err now cb :
  state cb = CircuitOpen ->
  state (recordFailure err now cb) = CircuitOpen /\
  stateChangedAt (recordFailure err now cb) = stateChangedAt cb /\
  config (recordFailure err now cb) = config cb.
Proof. intros H. unfold recordFailure; cbn. rewrite H. by cbn. Qed.

Definition run_failures (fs : list (string * Z)) (cb : CircuitBreaker) : CircuitBreaker :=
  fold_left (fun cb '(e, now) => recordFailure e now cb) fs cb.

Lemma run_failures_open fs cb :
  state cb = CircuitOpen ->
  state (run_failures fs cb) = CircuitOpen /\
  stateChangedAt (run_failures fs cb) = stateChangedAt cb /\
  config (run_failures fs cb) = config cb.
Proof.
  revert cb; induction fs as [|[e t] fs IH]; intros cb H; [done|].
  change (run_failures ((e, t) :: fs) cb) with (run_failures fs (recordFailure e t cb)).
  destruct (recordFailure_open e t cb H) as (H1 & H2 & H3).
  destruct (IH _ H1) as (? & -> & ->). by rewrite H2, H3.
Qed.

Lemma recentFailures_recordFailure err now cb :
  recentFailures (recordFailure err now cb)
  = List.filter (fun f => time_after (timestamp f) (time_add now (dur_neg (MonitoringWindow (config cb)))))
      (recentFailures cb ++ [{| timestamp := now; error := err |}]).
Proof. unfold recordFailure; cbn. destruct (state cb); cbn; case_tests; done. Qed.

(** ** The monitoring window *)

(** The failures among a sequence of operations. *)
Fixpoint failures_of (ops : list (Op * Z)) : list failureRecord :=
  match ops with
  | [] => []
  | (OpFailure e, t) :: ops => {| timestamp := t; error := e |} :: failures_of ops
  | _ :: ops => failures_of ops
  end.

Definition within (window now : Z) (f : failureRecord) : bool :=
  time_after (timestamp f) (time_add now (dur_neg window)).

Lemma failures_of_app ops ops' : failures_of (ops ++ ops') = failures_of ops ++ failures_of ops'.
Proof. induction ops as [|[[] t] ops IH]; cbn; rewrite ?IH; done. Qed.

Lemma within_mono w now now' f :
  now <= now' -> within w now' f = true -> within w now f = true.
Proof. unfold within, time_after, time_add. intros H H'. bool_to_prop. apply Z.ltb_lt. lia. Qed.

Lemma filter_within_within w now now' l :
  now <= now' ->
  List.filter (within w now') (List.filter (within w now) l) = List.filter (within w now') l.
Proof.
  intros H. induction l as [|f l IH]; [done|]. cbn.
  destruct (within w now' f) eqn:E'.
  - rewrite (within_mono _ _ _ _ H E'). cbn. by rewrite E', IH.
  - destruct (within w now f); cbn; by rewrite ?E'.
Qed.

Lemma recentFailures_apply_op o now cb :
  recentFailures (apply_op o now cb) =
  match o with
  | OpFailure e => List.filter (within (MonitoringWindow (config cb)) now)
                     (recentFailures cb ++ [{| timestamp := now; error := e |}])
  | _ => recentFailures cb
  end.
Proof.
  destruct o; cbn; [|apply recentFailures_recordFailure|done..].
  unfold recordSuccess; cbn. destruct (state cb); case_tests; done.
Qed.

Lemma run_snoc ops o t cb : run (ops ++ [(o, t)]) cb = apply_op o t (run ops cb).
Proof. unfold run. by rewrite fold_left_app. Qed.

Lemma run_config ops cb : config (run ops cb) = config cb.
Proof.
  induction ops as [|[o t] ops IH] using rev_ind; [done|]. by rewrite run_snoc, apply_op_config.
Qed.

(** Pruning never loses a failure that is still inside a later window. *)
Lemma recentFailures_prune ops cb now :
  recentFailures cb = [] -> (forall o t, (o, t) ∈ ops -> t <= now) ->
  let w := MonitoringWindow (config cb) in
  List.filter (within w now) (recentFailures (run ops cb)) = List.filter (within w now) (failures_of ops).
Proof.
  intros H0. induction ops as [|[o t] ops IH] using rev_ind; intros Hle w; [by cbn; rewrite H0|].
  assert (t <= now) by (apply (Hle o); set_solver).
  assert (forall o' t', (o', t') ∈ ops -> t' <= now) as Hle' by (intros o' t' ?; apply (Hle o'); set_solver).
  specialize (IH Hle'). cbn zeta in IH.
  rewrite run_snoc, recentFailures_apply_op, failures_of_app, run_config.
  destruct o; cbn [failures_of]; rewrite ?app_nil_r; try exact IH.
  rewrite filter_within_within by done. rewrite !List.filter_app. by rewrite IH.
Qed.

(** ** Recovery *)

Definition run_successes (now : Z) (k : nat) (cb : CircuitBreaker) : CircuitBreaker :=
  Nat.iter k (recordSuccess now) cb.

Lemma run_successes_half now k cb :
  state cb = CircuitHalfOpen ->
  consecutiveSuccesses cb + Z.of_nat k < SuccessThreshold (config cb) \/ k = 0%nat ->
  state (run_successes now k cb) = CircuitHalfOpen /\
  consecutiveSuccesses (run_successes now k cb) = consecutiveSuccesses cb + Z.of_nat k /\
  config (run_successes now k cb) = config cb.
Proof.
  intros Hs. induction k as [|k IH]; intros Hk; [cbn; repeat split; done || lia|].
  destruct Hk as [Hk|]; [|done]. destruct IH as (H1 & H2 & H3); [lia|].
  change (run_successes now (S k) cb) with (recordSuccess now (run_successes now k cb)).
  unfold recordSuccess; cbn [state config consecutiveSuccesses]. rewrite H1, H2, H3.
  case_tests; cbn; rewrite ?H2, ?H3; [lia|]. repeat split; done || lia.
Qed.

(** ** Properties *)

Definition cfg : CircuitBreakerConfig := DefaultCircuitBreakerConfig.
Definition tripped : CircuitBreaker :=
  run_failures (replicate 5 ("connection refused", 0)) (NewCircuitBreaker cfg 0).

(** After any sequence of recorded results and forced transitions the total of requests is the
    total of failures plus successes (at int64 width), a streak of failures and a streak of
    successes never coexist, and a closed breaker has seen fewer consecutive failures than the
    failure threshold. *)
Lemma router_breaker_accounting (c : CircuitBreakerConfig) (t0 : Z) (ops : list (Op * Z)) :
  breaker_inv (run ops (NewCircuitBreaker c t0)).
Proof. apply run_inv. split; cbn; intros; try done; lia. Qed.

(** While an open breaker rejects requests, the rejections, which it records as failures, do not
    postpone recovery: after any number of them a request is admitted exactly when [RecoveryTimeout]
    has passed since the circuit opened. *)
Lemma rejections_do_not_postpone_recovery (cb : CircuitBreaker) (fs : list (string * Z)) (now : Z) :
  state cb = CircuitOpen ->
  min_i64 <= now - stateChangedAt cb <= max_i64 ->
  allowRequest now (run_failures fs cb) = (RecoveryTimeout (config cb) <=? now - stateChangedAt cb).
Proof.
  intros H Hr. destruct (run_failures_open fs cb H) as (H1 & H2 & H3).
  unfold allowRequest. by rewrite H1, H2, H3, time_sub_small.
Qed.

Lemma rejections_do_not_postpone_recovery_witness :
  allowRequest (30 * Second) (run_failures [("circuit breaker is OPEN", 29 * Second)] tripped) = true.
Proof.
  rewrite (rejections_do_not_postpone_recovery tripped); [by vm_compute | by vm_compute | split; by vm_compute].
Defined.

(** Recovery of an open breaker past its timeout takes max(2, SuccessThreshold) successes in a
    row: the first one moves it to half-open and is already counted, so only SuccessThreshold - 1
    of them happen in the half-open state (one, when the threshold is 1). *)
Lemma recovery_success_count (cb : CircuitBreaker) (now : Z) (k : nat) :
  state cb = CircuitOpen -> consecutiveSuccesses cb = 0 ->
  RecoveryTimeout (config cb) <= time_sub now (stateChangedAt cb) ->
  Z.of_nat k <= Z.max 2 (SuccessThreshold (config cb)) ->
  state (run_successes now k cb) =
    if (k =? 0)%nat then CircuitOpen
    else if Z.of_nat k <? Z.max 2 (SuccessThreshold (config cb)) then CircuitHalfOpen
    else CircuitClosed.
Proof.
  intros Hs Hc Ht Hk. destruct k as [|k]; [done|]. cbn [Nat.eqb].
  assert (exists cb1, recordSuccess now cb = cb1 /\ state cb1 = CircuitHalfOpen /\
            consecutiveSuccesses cb1 = 1 /\ config cb1 = config cb) as (cb1 & E & H1 & H2 & H3).
  { eexists; split; [done|]. unfold recordSuccess; cbn. rewrite Hs, Hc.
    destruct (Z.leb_spec (RecoveryTimeout (config cb)) (time_sub now (stateChangedAt cb))); [done|lia]. }
  unfold run_successes. rewrite Nat.iter_succ_r, E. fold (run_successes now k cb1).
  destruct (Z.ltb_spec (Z.of_nat (S k)) (Z.max 2 (SuccessThreshold (config cb)))).
  - apply run_successes_half; [done|]. rewrite H2, H3. lia.
  - destruct k as [|k]; [lia|].
    change (run_successes now (S k) cb1) with (recordSuccess now (run_successes now k cb1)).
    destruct (run_successes_half now k cb1 H1) as (G1 & G2 & G3); [rewrite H2, H3; lia|].
    unfold recordSuccess; cbn [state config consecutiveSuccesses].
    rewrite G1, G2, G3, H2, H3. by case_tests; [|lia].
Qed.

Lemma recovery_success_count_witness :
  state (run_successes (30 * Second) 3 tripped) = CircuitClosed.
Proof. rewrite (recovery_success_count tripped); by vm_compute. Defined.

(** A client whose calls always fail; the environment counts them. *)
Definition dead_client (calls : nat) : Outcome * nat := (Returned (Some "connection refused"), S calls).

Fixpoint execute_many (times : list Z) (cb : CircuitBreaker) (calls : nat) : CircuitBreaker * nat :=
  match times with
  | [] => (cb, calls)
  | t :: ts =>
      let '(_, cb', calls') := executeWithCircuitBreaker "SendRequest" dead_client t t cb calls in
      execute_many ts cb' calls'
  end.

(** Once the recovery timeout of an open breaker has passed, it no longer protects a client that
    keeps failing: a failed probe neither restarts the timeout nor leaves the open state, so every
    later request reaches the client. *)
Lemma open_breaker_stops_protecting (cb : CircuitBreaker) (times : list Z) (calls : nat) :
  state cb = CircuitOpen ->
  Forall (fun t => RecoveryTimeout (config cb) <= time_sub t (stateChangedAt cb)) times ->
  state (fst (execute_many times cb calls)) = CircuitOpen /\
  snd (execute_many times cb calls) = (calls + length times)%nat.
Proof.
  intros Hs Ht. revert cb calls Hs Ht.
  induction times as [|t ts IH]; intros cb calls Hs Ht; [cbn; split; [done|lia]|].
  apply Forall_cons in Ht as [Ht Hts].
  cbn [execute_many]. unfold executeWithCircuitBreaker, allowRequest. rewrite Hs.
  destruct (Z.leb_spec (RecoveryTimeout (config cb)) (time_sub t (stateChangedAt cb))); [|lia]. cbn.
  destruct (recordFailure_open "connection refused" t cb Hs) as (H1 & H2 & H3).
  destruct (IH (recordFailure "connection refused" t cb) (S calls) H1) as [G1 G2]; [by rewrite H2, H3|].
  split; [done|]. rewrite G2. lia.
Qed.

Lemma open_breaker_stops_protecting_witness :
  state (fst (execute_many [30 * Second; 31 * Second; 32 * Second] tripped 0%nat)) = CircuitOpen /\
  snd (execute_many [30 * Second; 31 * Second; 32 * Second] tripped 0%nat) = 3%nat.
Proof.
  apply (open_breaker_stops_protecting tripped [30 * Second; 31 * Second; 32 * Second] 0%nat);
    [by vm_compute | repeat constructor; by vm_compute].
Defined.

(** The failure count the statistics report right after a failure is the number of failures of
    the whole history inside the monitoring window: pruning at every failure loses none of them. *)
Lemma failure_count_is_window_count (c : CircuitBreakerConfig) (t0 now : Z) (e : string)
    (ops : list (Op * Z)) :
  (forall o t, (o, t) ∈ ops -> t <= now) ->
  sFailureCount (GetStats (run (ops ++ [(OpFailure e, now)]) (NewCircuitBreaker c t0)))
  = count (within (MonitoringWindow c) now) (failures_of (ops ++ [(OpFailure e, now)])).
Proof.
  intros Hle. pose proof (recentFailures_prune ops (NewCircuitBreaker c t0) now eq_refl Hle) as Hp.
  cbn [GetStats sFailureCount]. rewrite run_snoc, recentFailures_apply_op, run_config, failures_of_app.
  change (config (NewCircuitBreaker c t0)) with c in *.
  by rewrite List.filter_app, count_app, zlen_app, Hp.
Qed.

Lemma failure_count_is_window_count_witness :
  sFailureCount (GetStats (run ([(OpFailure "a", 0); (OpSuccess, 1)] ++ [(OpFailure "b", 60 * Second)])
                              (NewCircuitBreaker cfg 0))) = 1.
Proof.
  rewrite (failure_count_is_window_count cfg 0 (60 * Second) "b"); [by vm_compute|].
  intros o t H. assert (t = 0 \/ t = 1) by set_solver. unfold Second. lia.
Defined.

End GwBreaker.
