(* ===== verification/LoadBalancer.v ===== *)
(** * Load balancing across backend endpoints

    [services/gateway/internal/discovery/types.go] (the endpoint and its health
    flag) and [services/gateway/pkg/loadbalancer/loadbalancer.go] (round robin,
    least connections, weighted).  Balancers hold pointers to endpoints that the
    health checker updates, so an endpoint list is a list of pointers and every
    operation reads the endpoint store of the moment. *)
From S2P Require Import Prelude.
#[local] Open Scope Z_scope.

(** ** Endpoints *)

Record ToolInfo := mkTool { ToolName : string; ToolDescription : string }.

Record Endpoint := mkEndpoint {
  Service : string;
  Namespace : string;
  Address : string;
  Port : Z;
  Scheme : string;
  Path : string;
  Weight : Z;
  Metadata : gmap string string;
  Tools : list ToolInfo;
  healthy : Z;    (* uint32: 0 = false *)
}.

Definition IsHealthy (e : Endpoint) : bool := negb (healthy e =? 0).

Definition SetHealthy (h : bool) (e : Endpoint) : Endpoint :=
  {| Service := Service e; Namespace := Namespace e; Address := Address e; Port := Port e;
     Scheme := Scheme e; Path := Path e; Weight := Weight e; Metadata := Metadata e;
     Tools := Tools e; healthy := if h then 1 else 0 |}.

(** Pointers to endpoints and the store they point into. *)
Definition ptr := nat.
Definition store := ptr -> Endpoint.

(** ** The [LoadBalancer] interface *)

Class LoadBalancer (LB : Type) := {
  lb_endpoints : LB -> list ptr;
  lb_Next : store -> LB -> option ptr * LB;
  lb_UpdateEndpoints : store -> list ptr -> LB -> LB;
}.

(** What its clients rely on: [Next] picks a healthy endpoint of the current
    list and does not change the list; updates replace it. *)
Class LawfulBalancer (LB : Type) `{LoadBalancer LB} := {
  next_healthy : forall st lb p lb', lb_Next st lb = (Some p, lb') ->
    p ∈ lb_endpoints lb /\ IsHealthy (st p) = true;
  next_endpoints : forall st lb, lb_endpoints (snd (lb_Next st lb)) = lb_endpoints lb;
  update_endpoints : forall st eps lb, lb_endpoints (lb_UpdateEndpoints st eps lb) = eps;
}.

(** ** Round robin *)

Record RoundRobin := mkRR { rr_endpoints : list ptr; rr_current : Z }.

Definition NewRoundRobin (endpoints : list ptr) : RoundRobin :=
  {| rr_endpoints := endpoints; rr_current := 0 |}.

(** The scan [for i := 0; i < len(endpoints); i++]: [k] iterations from [i]. *)
Fixpoint rr_scan (ok : ptr -> bool) (endpoints : list ptr) (start : Z) (i k : nat) : option ptr :=
  match k with
  | O => None
  | S k' =>
      let idx := u64_add start (Z.of_nat i) mod zlen endpoints in
      match endpoints !! Z.to_nat idx with
      | Some ep => if ok ep then Some ep else rr_scan ok endpoints start (S i) k'
      | None => None
      end
  end.

Definition RoundRobin_Next (st : store) (rr : RoundRobin) : option ptr * RoundRobin :=
  if zlen (rr_endpoints rr) =? 0 then (None, rr)
  else
    let start := u64_add (rr_current rr) 1 in
    (rr_scan (fun p => IsHealthy (st p)) (rr_endpoints rr) start 0 (length (rr_endpoints rr)),
     {| rr_endpoints := rr_endpoints rr; rr_current := start |}).

Definition RoundRobin_UpdateEndpoints (endpoints : list ptr) (rr : RoundRobin) : RoundRobin :=
  {| rr_endpoints := endpoints; rr_current := rr_current rr |}.

(** ** Least connections *)

Record LeastConnections := mkLC { lc_endpoints : list ptr; lc_connections : gmap string Z }.

Definition NewLeastConnections (endpoints : list ptr) : LeastConnections :=
  {| lc_endpoints := endpoints; lc_connections := ∅ |}.

(** A missing key reads as the zero value. *)
Definition conns_of (m : gmap string Z) (addr : string) : Z := default 0 (m !! addr).

Definition lc_loop_step (st : store) (m : gmap string Z) (acc : option ptr * Z) (ep : ptr)
    : option ptr * Z :=
  let '(selected, minConns) := acc in
  if negb (IsHealthy (st ep)) then acc
  else let conns := conns_of m (Address (st ep)) in
       if conns <? minConns then (Some ep, conns) else acc.

Definition lc_select (st : store) (m : gmap string Z) (eps : list ptr) : option ptr * Z :=
  fold_left (lc_loop_step st m) eps (None, max_i64).

Definition LeastConnections_Next (st : store) (lc : LeastConnections) : option ptr * LeastConnections :=
  if zlen (lc_endpoints lc) =? 0 then (None, lc)
  else match fst (lc_select st (lc_connections lc) (lc_endpoints lc)) with
       | Some ep =>
           let a := Address (st ep) in
           (Some ep, {| lc_endpoints := lc_endpoints lc;
                        lc_connections := <[a := i64_add (conns_of (lc_connections lc) a) 1]> (lc_connections lc) |})
       | None => (None, lc)
       end.

(** The clean-up of counts: only the addresses of the new endpoints that had a
    count keep it. *)
Definition keep_counts (st : store) (eps : list ptr) (old : gmap string Z) : gmap string Z :=
  fold_left (fun m ep => match old !! Address (st ep) with
                         | Some c => <[Address (st ep) := c]> m
                         | None => m
                         end) eps ∅.

Definition LeastConnections_UpdateEndpoints (st : store) (endpoints : list ptr) (lc : LeastConnections)
    : LeastConnections :=
  {| lc_endpoints := endpoints; lc_connections := keep_counts st endpoints (lc_connections lc) |}.

(** The decrement of a positive count. *)
Definition release (addr : string) (m : gmap string Z) : gmap string Z :=
  match m !! addr with
  | Some count => if 0 <? count then <[addr := count - 1]> m else m
  | None => m
  end.

Definition LeastConnections_ReleaseConnection (addr : string) (lc : LeastConnections) : LeastConnections :=
  {| lc_endpoints := lc_endpoints lc; lc_connections := release addr (lc_connections lc) |}.

(** ** Weighted *)

Record Weighted := mkW {
  w_endpoints : list ptr;
  w_weights : list Z;
  w_totalWeight : Z;
  w_current : Z;
}.

Definition effective_weight (e : Endpoint) : Z := if Weight e <=? 0 then 1 else Weight e.

(** [calculateWeights]: the weights slice and the total (an [int] sum). *)
Definition calculateWeights (st : store) (endpoints : list ptr) : list Z * Z :=
  let ws := map (fun p => effective_weight (st p)) endpoints in
  (ws, fold_left i64_add ws 0).

Definition NewWeighted (st : store) (endpoints : list ptr) : Weighted :=
  let '(ws, total) := calculateWeights st endpoints in
  {| w_endpoints := endpoints; w_weights := ws; w_totalWeight := total; w_current := 0 |}.

(** The selection loop: running sum of the weights of the healthy endpoints. *)
Fixpoint weighted_scan (ok : ptr -> bool) (eps : list ptr) (ws : list Z) (currentWeight position : Z)
    : option ptr :=
  match eps, ws with
  | ep :: eps, w :: ws =>
      if negb (ok ep) then weighted_scan ok eps ws currentWeight position
      else let currentWeight := i64_add currentWeight w in
           if position <? currentWeight then Some ep
           else weighted_scan ok eps ws currentWeight position
  | _, _ => None
  end.

Definition Weighted_Next (st : store) (w : Weighted) : option ptr * Weighted :=
  if (zlen (w_endpoints w) =? 0) || (w_totalWeight w =? 0) then (None, w)
  else
    let counter := u64_add (w_current w) 1 in
    let position := counter mod wrap_u 64 (w_totalWeight w) in
    let ok p := IsHealthy (st p) in
    let selected :=
      match weighted_scan ok (w_endpoints w) (w_weights w) 0 position with
      | Some ep => Some ep
      | None => List.find ok (w_endpoints w)
      end in
    (selected, {| w_endpoints := w_endpoints w; w_weights := w_weights w;
                  w_totalWeight := w_totalWeight w; w_current := counter |}).

Definition Weighted_UpdateEndpoints (st : store) (endpoints : list ptr) (w : Weighted) : Weighted :=
  let '(ws, total) := calculateWeights st endpoints in
  {| w_endpoints := endpoints; w_weights := ws; w_totalWeight := total; w_current := w_current w |}.

(** ** Instances of the interface *)

#[export] Instance RoundRobin_LB : LoadBalancer RoundRobin := {|
  lb_endpoints := rr_endpoints;
  lb_Next := RoundRobin_Next;
  lb_UpdateEndpoints := fun _ => RoundRobin_UpdateEndpoints;
|}.

#[export] Instance LeastConnections_LB : LoadBalancer LeastConnections := {|
  lb_endpoints := lc_endpoints;
  lb_Next := LeastConnections_Next;
  lb_UpdateEndpoints := LeastConnections_UpdateEndpoints;
|}.

#[export] Instance Weighted_LB : LoadBalancer Weighted := {|
  lb_endpoints := w_endpoints;
  lb_Next := Weighted_Next;
  lb_UpdateEndpoints := Weighted_UpdateEndpoints;
|}.

(** ** Round robin: lemmas *)

Lemma rr_scan_sound ok eps start i k p :
  rr_scan ok eps start i k = Some p -> p ∈ eps /\ ok p = true.
Proof.
  revert i; induction k as [|k IH]; intros i; cbn; [done|].
  destruct (eps !! _) as [ep|] eqn:E; [|done].
  destruct (ok ep) eqn:Eok; [|by apply IH].
  intros [= <-]. split; [|done]. by eapply list_elem_of_lookup_2.
Qed.

(** The slot an iteration looks at, when the counter does not wrap. *)
Definition slot (n : nat) (z : Z) : nat := Z.to_nat (z mod Z.of_nat n).

Lemma slot_lt n z : (0 < n)%nat -> (slot n z < n)%nat.
Proof. intros. unfold slot. pose proof (Z.mod_pos_bound z (Z.of_nat n) ltac:(lia)). lia. Qed.

Lemma rr_scan_none ok eps start i k :
  0 <= start -> start + Z.of_nat (i + k) <= 2 ^ 64 -> eps <> [] ->
  rr_scan ok eps start i k = None ->
  forall j, (i <= j < i + k)%nat ->
    exists p, eps !! slot (length eps) (start + Z.of_nat j) = Some p /\ ok p = false.
Proof.
  intros Hs. revert i; induction k as [|k IH]; intros i Hw Hne; cbn; [lia|].
  rewrite u64_add_small by lia. intros H j Hj. unfold zlen in H.
  fold (slot (length eps) (start + Z.of_nat i)) in H.
  destruct (lookup_lt_is_Some_2 eps (slot (length eps) (start + Z.of_nat i))) as [p Hp].
  { apply slot_lt. destruct eps; [done|cbn; lia]. }
  rewrite Hp in H. destruct (ok p) eqn:E; [done|].
  destruct (decide (j = i)) as [->|]; [by exists p|].
  apply (IH (S i)); [lia|done|done|lia].
Qed.

(** Consecutive counters visit every slot. *)
Lemma slot_surj n start s :
  0 <= start -> (s < n)%nat -> exists j, (j < n)%nat /\ slot n (start + Z.of_nat j) = s.
Proof.
  intros Hst Hs. set (r := start mod Z.of_nat n).
  assert (0 <= r < Z.of_nat n) by (apply Z.mod_pos_bound; lia).
  exists (Z.to_nat ((Z.of_nat s - r) mod Z.of_nat n)).
  pose proof (Z.mod_pos_bound (Z.of_nat s - r) (Z.of_nat n) ltac:(lia)).
  split; [lia|]. unfold slot. rewrite Z2Nat.id by lia.
  rewrite Zplus_mod_idemp_r, <- Zplus_mod_idemp_l. fold r.
  replace (r + (Z.of_nat s - r)) with (Z.of_nat s) by lia. rewrite Z.mod_small; lia.
Qed.

Lemma rr_scan_complete ok eps start :
  0 <= start -> start + zlen eps <= 2 ^ 64 ->
  (exists p, p ∈ eps /\ ok p = true) ->
  is_Some (rr_scan ok eps start 0 (length eps)).
Proof.
  intros Hs Hw (p & Hp & Hok). destruct (rr_scan ok eps start 0 (length eps)) eqn:E; [eauto|].
  apply list_elem_of_lookup_1 in Hp as [s Hsl].
  destruct (slot_surj (length eps) start s) as (j & Hj & Hj'); [done|by eapply lookup_lt_Some|].
  destruct (rr_scan_none ok eps start 0 (length eps) Hs Hw) with (j := j) as (q & Hq & Hq');
    [by destruct eps | done | lia |].
  rewrite Hj' in Hq. congruence.
Qed.

#[export] Instance RoundRobin_lawful : LawfulBalancer RoundRobin.
Proof.
  split; cbn.
  - intros st rr p rr'. unfold RoundRobin_Next. case_tests; [done|].
    intros [= H _]. by apply rr_scan_sound in H.
  - intros st rr. unfold RoundRobin_Next. by case_tests.
  - done.
Qed.

(** ** Least connections: lemmas *)

Definition eligible (st : store) (eps : list ptr) (p : ptr) : Prop :=
  p ∈ eps /\ IsHealthy (st p) = true.

Lemma lc_select_app st m eps acc :
  let r := fold_left (lc_loop_step st m) eps acc in
  (snd r <= snd acc) /\
  (forall p, eligible st eps p -> snd r <= conns_of m (Address (st p)) \/ snd acc <= conns_of m (Address (st p))) /\
  (r = acc \/ exists p, eligible st eps p /\ r = (Some p, conns_of m (Address (st p))) /\ snd r < snd acc).
Proof.
  unfold eligible. revert acc; induction eps as [|ep eps IH]; intros acc; cbn [fold_left].
  - cbv zeta. split_and!; [lia | set_solver | by left].
  - cbv zeta. destruct (IH (lc_loop_step st m acc ep)) as (H1 & H2 & H3). clear IH.
    set (r := fold_left _ _ _) in *. destruct acc as [sel mn]. cbn [lc_loop_step snd] in *.
    destruct (IsHealthy (st ep)) eqn:Eh; cbn [negb] in *.
    + destruct (Z.ltb_spec (conns_of m (Address (st ep))) mn); cbn [snd] in *.
      * split_and!; [lia| |].
        -- intros p [[->|Hp]%elem_of_cons Hh]; [lia|]. destruct (H2 p); [done|lia|lia].
        -- right. destruct H3 as [->|(p & [? ?] & -> & ?)]; [exists ep | exists p];
             (split; [split; [set_solver|done]|]); (split; [done|cbn in *; lia]).
      * split_and!; [lia| |].
        -- intros p [[->|Hp]%elem_of_cons Hh]; [lia|]. by apply H2.
        -- destruct H3 as [->|(p & [? ?] & -> & ?)]; [by left|right].
           exists p. split; [split; [set_solver|done]|]. split; [done|cbn in *; lia].
    + split_and!; [done| |].
      * intros p [[->|Hp]%elem_of_cons Hh]; [congruence|]. by apply H2.
      * destruct H3 as [->|(p & [? ?] & -> & ?)]; [by left|right].
        exists p. split; [split; [set_solver|done]|]. split; [done|cbn in *; lia].
Qed.

(** The selected endpoint is healthy and has the fewest connections; none is
    selected only if no healthy endpoint has a count below the int64 maximum. *)
Lemma lc_select_spec st m eps :
  match fst (lc_select st m eps) with
  | Some p => eligible st eps p /\
      forall q, eligible st eps q -> conns_of m (Address (st p)) <= conns_of m (Address (st q))
  | None => forall q, eligible st eps q -> max_i64 <= conns_of m (Address (st q))
  end.
Proof.
  unfold lc_select. destruct (lc_select_app st m eps (None, max_i64)) as (H1 & H2 & [H3|(p & Hp & H3 & H4)]);
    cbn zeta in *; rewrite H3 in *; cbn in *.
  - intros q Hq. destruct (H2 q Hq); lia.
  - split; [done|]. intros q Hq. destruct (H2 q Hq); lia.
Qed.

#[export] Instance LeastConnections_lawful : LawfulBalancer LeastConnections.
Proof.
  split; cbn.
  - intros st lc p lc'. unfold LeastConnections_Next. case_tests; [done| |done].
    intros [= <- _]. pose proof (lc_select_spec st (lc_connections lc) (lc_endpoints lc)) as H'.
    rewrite E in H'. apply H'.
  - intros st lc. unfold LeastConnections_Next. by case_tests.
  - done.
Qed.

Lemma keep_counts_lookup st eps old addr :
  keep_counts st eps old !! addr =
  if decide (Exists (fun p => Address (st p) = addr) eps) then old !! addr else None.
Proof.
  unfold keep_counts.
  induction eps as [|ep eps IH] using rev_ind; [by rewrite decide_False by (by inversion 1)|].
  rewrite fold_left_app. cbn [fold_left]. set (m := fold_left _ _ _) in *.
  destruct (decide (Address (st ep) = addr)) as [<-|Hne].
  - rewrite decide_True by (apply Exists_app; right; by constructor).
    destruct (old !! Address (st ep)) as [c|] eqn:E; [by rewrite lookup_insert_eq|].
    rewrite IH. by case_decide.
  - assert (Exists (fun p => Address (st p) = addr) (eps ++ [ep])
            <-> Exists (fun p => Address (st p) = addr) eps) as Heq.
    { rewrite Exists_app, Exists_cons, Exists_nil. tauto. }
    rewrite (decide_ext _ _ _ _ Heq), <- IH.
    destruct (old !! Address (st ep)) as [c|]; [by rewrite lookup_insert_ne|done].
Qed.

(** ** Weighted: lemmas *)

Definition sumZ (ws : list Z) : Z := fold_right Z.add 0 ws.

(** The weight of the healthy entries, and the part of it that belongs to [p]. *)
Fixpoint healthy_weight (ok : ptr -> bool) (eps : list ptr) (ws : list Z) : Z :=
  match eps, ws with
  | ep :: eps, w :: ws => (if ok ep then w else 0) + healthy_weight ok eps ws
  | _, _ => 0
  end.

Definition share (ok : ptr -> bool) (p : ptr) (eps : list ptr) (ws : list Z) : Z :=
  healthy_weight (fun q => ok q && bool_decide (q = p)) eps ws.

Lemma weighted_scan_sound ok eps ws cur pos p :
  weighted_scan ok eps ws cur pos = Some p -> p ∈ eps /\ ok p = true.
Proof.
  revert ws cur; induction eps as [|ep eps IH]; intros [|w ws] cur; cbn; try done.
  destruct (ok ep) eqn:E; cbn.
  - case_tests; [intros [= <-]; split; [set_solver|done]|].
    intros [? ?]%IH. split; [set_solver|done].
  - intros [? ?]%IH. split; [set_solver|done].
Qed.

#[export] Instance Weighted_lawful : LawfulBalancer Weighted.
Proof.
  split; cbn.
  - intros st w p w'. unfold Weighted_Next. destruct (_ || _); [done|].
    destruct (weighted_scan _ _ _ _ _) eqn:E; intros [= H _].
    + simplify_eq. by apply weighted_scan_sound in E.
    + apply List.find_some in H. by rewrite list_elem_of_In.
  - intros st w. unfold Weighted_Next. by destruct (_ || _).
  - intros st eps w. unfold Weighted_UpdateEndpoints. by destruct (calculateWeights st eps).
Qed.

Lemma sumZ_cons w ws : sumZ (w :: ws) = w + sumZ ws.
Proof. done. Qed.

Lemma healthy_weight_bounds ok eps ws :
  Forall (fun w => 0 < w) ws -> 0 <= healthy_weight ok eps ws <= sumZ ws.
Proof.
  revert eps; induction ws as [|w ws IH]; intros [|ep eps] H; cbn [healthy_weight]; try done;
    apply Forall_cons in H as [Hw Hws]; rewrite sumZ_cons.
  - specialize (IH [] Hws). cbn in IH. lia.
  - specialize (IH eps Hws). destruct (ok ep); lia.
Qed.

Lemma count_const {A} (b : bool) (l : list A) : count (fun _ => b) l = if b then zlen l else 0.
Proof. induction l as [|x l IH]; [by destruct b|]. rewrite count_cons, IH. unfold zlen. destruct b; cbn; lia. Qed.

Lemma zlen_seqZ a n : 0 <= n -> zlen (seqZ a n) = n.
Proof. intros. unfold zlen. rewrite length_seqZ. lia. Qed.

(** Over the positions [cur .. cur + H - 1], H the healthy weight, each endpoint is
    picked as many times as its weight; later positions pick nothing. *)
Lemma weighted_scan_shares ok p eps : forall ws cur,
  length eps = length ws -> Forall (fun w => 0 < w) ws -> 0 <= cur -> cur + sumZ ws <= max_i64 ->
  count (fun pos => bool_decide (weighted_scan ok eps ws cur pos = Some p))
    (seqZ cur (healthy_weight ok eps ws)) = share ok p eps ws /\
  (forall pos, cur + healthy_weight ok eps ws <= pos -> weighted_scan ok eps ws cur pos = None).
Proof.
  unfold share.
  induction eps as [|ep eps IH]; intros [|w ws] cur Hl Hp Hc Hm; try done.
  injection Hl as Hl. apply Forall_cons in Hp as [Hw Hp]. rewrite sumZ_cons in Hm.
  assert (0 <= sumZ ws) by (pose proof (healthy_weight_bounds ok eps ws Hp); lia).
  pose proof (healthy_weight_bounds ok eps ws Hp).
  cbn [healthy_weight weighted_scan]. destruct (ok ep) eqn:E; cbn [negb andb].
  - rewrite i64_add_small by (unfold min_i64; lia).
    destruct (IH ws (cur + w)) as [IH1 IH2]; [done..|lia|lia|]. clear IH. split.
    + rewrite seqZ_app, count_app by lia.
      rewrite (count_ext _ (fun _ => bool_decide (ep = p)) (seqZ cur w)).
      2:{ intros pos [? ?]%elem_of_seqZ. destruct (Z.ltb_spec pos (cur + w)); [|lia].
          apply bool_decide_ext. naive_solver. }
      rewrite count_const, zlen_seqZ by lia. f_equal.
      rewrite <- IH1. apply count_ext. intros pos [? ?]%elem_of_seqZ.
      by destruct (Z.ltb_spec pos (cur + w)); [lia|].
    + intros pos Hpos. destruct (Z.ltb_spec pos (cur + w)); [lia|]. apply IH2. lia.
  - apply IH; done || lia.
Qed.

Lemma calculateWeights_spec st eps :
  sumZ (map (fun p => effective_weight (st p)) eps) <= max_i64 ->
  snd (calculateWeights st eps) = sumZ (map (fun p => effective_weight (st p)) eps).
Proof.
  cbn. set (ws := map _ eps).
  assert (Forall (fun w => 0 < w) ws) as Hp.
  { subst ws. apply Forall_map, Forall_forall. intros p _. unfold effective_weight. case_tests; lia. }
  clearbody ws. intros Hm.
  enough (forall a, 0 <= a -> a + sumZ ws <= max_i64 -> fold_left i64_add ws a = a + sumZ ws) as H
    by (rewrite H; lia).
  clear Hm. induction Hp as [|w ws Hw Hp IH]; intros a Ha Hm; [cbn; lia|].
  rewrite sumZ_cons in *. cbn [fold_left].
  pose proof (healthy_weight_bounds (fun _ => true) [] ws Hp).
  rewrite i64_add_small by (unfold min_i64; lia). rewrite IH by lia. lia.
Qed.

(** ** Consecutive calls *)

Fixpoint next_many `{LoadBalancer LB} (k : nat) (st : store) (lb : LB) : list (option ptr) :=
  match k with
  | O => []
  | S k => let '(r, lb') := lb_Next st lb in r :: next_many k st lb'
  end.

(** Consecutive counters modulo [n] are a rotation of [0 .. n-1]. *)
Lemma rotation_perm c n :
  0 <= c -> 0 < n -> map (fun i => (c + i) mod n) (seqZ 0 n) ≡ₚ seqZ 0 n.
Proof.
  intros Hc Hn. set (r := c mod n). assert (0 <= r < n) as Hr by by apply Z.mod_pos_bound.
  assert (map (fun i => (c + i) mod n) (seqZ 0 n) = seqZ r (n - r) ++ seqZ 0 r) as ->.
  { pose proof (seqZ_app 0 (n - r) r ltac:(lia) ltac:(lia)) as Hsplit.
    replace (n - r + r) with n in Hsplit by lia. rewrite Z.add_0_l in Hsplit.
    rewrite Hsplit, map_app. f_equal.
    - rewrite <- (Z.add_0_r r) at 2. rewrite <- (fmap_add_seqZ r 0 (n - r)). apply map_ext_in.
      intros i [? ?]%list_elem_of_In%elem_of_seqZ. rewrite <- Zplus_mod_idemp_l. fold r.
      apply Z.mod_small. lia.
    - replace 0 with ((r - n) + (n - r)) by lia. rewrite <- (fmap_add_seqZ (r - n) (n - r) r).
      apply map_ext_in. intros i [? ?]%list_elem_of_In%elem_of_seqZ.
      rewrite <- Zplus_mod_idemp_l. fold r.
      replace (r + i) with ((r - n + i) + 1 * n) by lia. rewrite Z.mod_add by lia.
      apply Z.mod_small. lia. }
  rewrite Permutation_app_comm, <- seqZ_app by lia. f_equiv. lia.
Qed.

Lemma count_perm {A} (f : A -> bool) l k : l ≡ₚ k -> count f l = count f k.
Proof.
  induction 1; rewrite ?count_cons; lia.
Qed.

Lemma count_map {A B} (g : A -> B) (f : B -> bool) l : count f (map g l) = count (fun x => f (g x)) l.
Proof. induction l as [|x l IH]; [done|]. cbn [map]. by rewrite !count_cons, IH. Qed.

Lemma seqZ_succ n : seqZ (Z.succ 0) n = map (Z.add 1) (seqZ 0 n).
Proof. symmetry. exact (fmap_add_seqZ 1 0 n). Qed.

Lemma rr_scan_all_healthy ok eps start k :
  (forall p, p ∈ eps -> ok p = true) -> 0 <= start < 2 ^ 64 -> eps <> [] ->
  rr_scan ok eps start 0 (S k) = eps !! slot (length eps) start.
Proof.
  intros Hok Hs Hne. cbn. rewrite u64_add_small, Z.add_0_r by lia. unfold zlen.
  fold (slot (length eps) start). destruct (eps !! slot (length eps) start) as [p|] eqn:E; [|done].
  rewrite Hok; [done|]. by eapply list_elem_of_lookup_2.
Qed.

Lemma rr_next_many st eps : forall k c,
  (forall p, p ∈ eps -> IsHealthy (st p) = true) -> eps <> [] ->
  0 <= c -> c + Z.of_nat k < 2 ^ 64 ->
  next_many k st {| rr_endpoints := eps; rr_current := c |}
  = map (fun i => eps !! Z.to_nat ((c + 1 + i) mod zlen eps)) (seqZ 0 (Z.of_nat k)).
Proof.
  induction k as [|k IH]; intros c Hok Hne Hc Hk; [done|].
  rewrite Nat2Z.inj_succ, seqZ_cons by lia. cbn [map next_many lb_Next RoundRobin_LB].
  unfold RoundRobin_Next; cbn [rr_endpoints rr_current].
  destruct (Z.eqb_spec (zlen eps) 0) as [Hz|_]; [by apply zlen_nil_inv in Hz|].
  rewrite u64_add_small by lia. destruct eps as [|p eps]; [done|].
  cbn [length]. rewrite rr_scan_all_healthy by (done || lia). rewrite IH by (done || lia).
  f_equal; [by rewrite Z.add_0_r|].
  rewrite Z.pred_succ, seqZ_succ, map_map. apply map_ext. intros i.
  do 3 f_equal. lia.
Qed.

Lemma map_lookup_seqZ {A} (l : list A) :
  map (fun i => l !! Z.to_nat i) (seqZ 0 (zlen l)) = map Some l.
Proof.
  apply list_eq. intros i. change (map ?f ?l) with (f <$> l).
  rewrite !list_lookup_fmap. destruct (decide (i < length l)%nat) as [Hi|Hi].
  - rewrite lookup_seqZ_lt by (unfold zlen; lia). cbn. rewrite Z.add_0_l, Nat2Z.id.
    by destruct (lookup_lt_is_Some_2 l i Hi) as [x ->].
  - rewrite lookup_seqZ_ge by (unfold zlen; lia). cbn. by rewrite lookup_ge_None_2 by lia.
Qed.

(** One weighted pick: the endpoint of a position, with the fallback. *)
Definition pick_at (ok : ptr -> bool) (w : Weighted) (position : Z) : option ptr :=
  match weighted_scan ok (w_endpoints w) (w_weights w) 0 position with
  | Some ep => Some ep
  | None => List.find ok (w_endpoints w)
  end.

Lemma w_next_many st : forall k w,
  w_endpoints w <> [] -> 0 < w_totalWeight w < 2 ^ 63 -> 0 <= w_current w ->
  w_current w + Z.of_nat k < 2 ^ 64 ->
  next_many k st w
  = map (fun i => pick_at (fun p => IsHealthy (st p)) w ((w_current w + 1 + i) mod w_totalWeight w))
      (seqZ 0 (Z.of_nat k)).
Proof.
  induction k as [|k IH]; intros w Hne Ht Hc Hk; [done|].
  rewrite Nat2Z.inj_succ, seqZ_cons by lia. cbn [map next_many lb_Next Weighted_LB].
  unfold Weighted_Next.
  destruct (Z.eqb_spec (zlen (w_endpoints w)) 0) as [Hz|_]; [by apply zlen_nil_inv in Hz|].
  destruct (Z.eqb_spec (w_totalWeight w) 0); [lia|]. cbn [orb].
  rewrite u64_add_small, wrap_u_small by lia. rewrite IH by (cbn; done || lia). cbn.
  f_equal; [by rewrite Z.add_0_r|].
  rewrite Z.pred_succ, seqZ_succ, map_map. apply map_ext. intros i.
  unfold pick_at; cbn. replace (w_current w + 1 + 1 + i) with (w_current w + 1 + (1 + i)) by lia.
  done.
Qed.

Lemma find_first_healthy {A} (ok : A -> bool) l p :
  p ∈ l -> ok p = true -> exists q, List.find ok l = Some q.
Proof.
  intros Hp Hok. destruct (List.find ok l) as [q|] eqn:E; [eauto|].
  pose proof (List.find_none _ _ E p). rewrite <- list_elem_of_In in *. naive_solver congruence.
Qed.

Lemma weighted_scan_some ok pos eps : forall ws cur,
  length eps = length ws -> Forall (fun x => 0 < x) ws -> 0 <= cur ->
  cur + sumZ ws <= max_i64 -> pos < cur + healthy_weight ok eps ws -> cur <= pos ->
  weighted_scan ok eps ws cur pos <> None.
Proof.
  induction eps as [|ep eps IH]; intros [|x ws] cur Hl Hp Hc Hm Hlt Hge; cbn in *; try done; [lia|].
  apply Forall_cons in Hp as [Hx Hp]. pose proof (healthy_weight_bounds ok eps ws Hp).
  fold (sumZ ws) in Hm. injection Hl as Hl. destruct (ok ep); cbn.
  - rewrite i64_add_small by (unfold min_i64; lia). case_tests; [done|]. apply IH; done || lia.
  - apply IH; done || lia.
Qed.

(** Over one full cycle of positions: own share, plus the weight of the unhealthy
    endpoints for the first healthy one. *)
Lemma pick_at_cycle ok w p :
  length (w_endpoints w) = length (w_weights w) -> Forall (fun x => 0 < x) (w_weights w) ->
  sumZ (w_weights w) <= max_i64 ->
  let T := sumZ (w_weights w) in
  let H := healthy_weight ok (w_endpoints w) (w_weights w) in
  count (fun pos => bool_decide (pick_at ok w pos = Some p)) (seqZ 0 T)
  = share ok p (w_endpoints w) (w_weights w)
    + (if bool_decide (List.find ok (w_endpoints w) = Some p) then T - H else 0).
Proof.
  intros Hl Hp Hm T H.
  destruct (weighted_scan_shares ok p (w_endpoints w) (w_weights w) 0 Hl Hp) as [H1 H2]; [lia..|].
  pose proof (healthy_weight_bounds ok (w_endpoints w) (w_weights w) Hp).
  replace T with (H + (T - H)) at 1 by lia. rewrite seqZ_app, count_app by (subst T H; lia).
  f_equal.
  - rewrite <- H1. apply count_ext. intros pos [? ?]%elem_of_seqZ. unfold pick_at.
    destruct (weighted_scan ok _ _ 0 pos) eqn:E; [done|]. exfalso.
    by apply (weighted_scan_some ok pos (w_endpoints w) (w_weights w) 0 Hl Hp) in E; [|lia..].
  - rewrite (count_ext _ (fun _ => bool_decide (List.find ok (w_endpoints w) = Some p))).
    + rewrite count_const, zlen_seqZ by (subst T H; lia). done.
    + intros pos [? ?]%elem_of_seqZ. unfold pick_at. by rewrite H2 by lia.
Qed.

(** *** Least connections over time *)

Lemma lc_next_spread st eps lc k m p lc' :
  lc_endpoints lc = eps ->
  (forall p, p ∈ eps -> IsHealthy (st p) = true) ->
  (forall p q, p ∈ eps -> q ∈ eps -> Address (st p) = Address (st q) -> p = q) ->
  0 <= m <= k -> k + 1 < max_i64 ->
  (forall p, p ∈ eps -> m <= conns_of (lc_connections lc) (Address (st p)) <= m + 1) ->
  LeastConnections_Next st lc = (Some p, lc') ->
  exists m', 0 <= m' <= k + 1 /\
    forall q, q ∈ eps -> m' <= conns_of (lc_connections lc') (Address (st q)) <= m' + 1.
Proof.
  intros He Hh Hinj Hm Hk Hc. unfold LeastConnections_Next. rewrite He.
  pose proof (lc_select_spec st (lc_connections lc) eps) as Hs.
  destruct (zlen eps =? 0); [done|].
  destruct (fst (lc_select st (lc_connections lc) eps)) as [p'|]; [|done].
  intros [= <- <-]. destruct Hs as [[Hp _] Hmin]. cbn.
  pose proof (Hc p' Hp) as Hcp.
  rewrite i64_add_small by (unfold min_i64; lia).
  assert (forall q, q ∈ eps ->
    conns_of (<[Address (st p') := conns_of (lc_connections lc) (Address (st p')) + 1]> (lc_connections lc)) (Address (st q))
    = if decide (q = p') then conns_of (lc_connections lc) (Address (st p')) + 1
      else conns_of (lc_connections lc) (Address (st q))) as Hlook.
  { intros q Hq. unfold conns_of at 1. case_decide as Hd; [by subst; rewrite lookup_insert_eq|].
    rewrite lookup_insert_ne; [done|]. intros Ha. apply Hd. symmetry. by apply Hinj. }
  exists (if conns_of (lc_connections lc) (Address (st p')) =? m then m else m + 1).
  split; [case_tests; lia|]. intros q Hq. rewrite Hlook by done.
  pose proof (Hmin q (conj Hq (Hh q Hq))). pose proof (Hc q Hq).
  case_tests; case_decide; lia.
Qed.

Definition lc_after (st : store) (k : nat) (lc : LeastConnections) : LeastConnections :=
  Nat.iter k (fun lc => snd (LeastConnections_Next st lc)) lc.

Lemma lc_after_endpoints st k lc : lc_endpoints (lc_after st k lc) = lc_endpoints lc.
Proof.
  induction k as [|k IH]; [done|]. cbn. rewrite <- IH.
  exact (next_endpoints (LB := LeastConnections) st (lc_after st k lc)).
Qed.

(** ** Properties *)

Definition with_addr (a : string) (w : Z) (h : bool) : Endpoint :=
  SetHealthy h {| Service := "weather"; Namespace := "default"; Address := a; Port := 8080;
     Scheme := "http"; Path := "/mcp"; Weight := w; Metadata := ∅; Tools := []; healthy := 1 |}.
Definition sample_store (p : ptr) : Endpoint :=
  match p with
  | O => with_addr "10.0.0.1" 1 true
  | 1%nat => with_addr "10.0.0.2" 2 true
  | 2%nat => with_addr "10.0.0.3" 3 false
  | _ => with_addr "10.0.0.4" 4 true
  end.

(** What a client does with a balancer: ask for an endpoint or replace the list. *)
Inductive LBOp := LNext | LUpdate (eps : list ptr).

(** The answers of a run, each with the endpoint list and the store of the moment. *)
Fixpoint lb_run `{LoadBalancer LB} (ops : list (LBOp * store)) (lb : LB)
    : list (list ptr * store * option ptr) :=
  match ops with
  | [] => []
  | (LNext, st) :: ops =>
      let '(r, lb') := lb_Next st lb in (lb_endpoints lb, st, r) :: lb_run ops lb'
  | (LUpdate eps, st) :: ops => lb_run ops (lb_UpdateEndpoints st eps lb)
  end.

(** Every balancer that meets the interface (round robin, least connections and weighted do)
    answers, over any history of requests, endpoint updates and health changes, only with endpoints
    of the list in force that are healthy at that moment. *)
Lemma balancers_pick_healthy {LB : Type} `{LawfulBalancer LB} (ops : list (LBOp * store)) (lb : LB)
    (eps : list ptr) (st : store) (p : ptr) :
  (eps, st, Some p) ∈ lb_run ops lb -> p ∈ eps /\ IsHealthy (st p) = true.
Proof.
  revert lb; induction ops as [|[[|eps'] st'] ops IH]; intros lb; cbn; [set_solver| |by apply IH].
  destruct (lb_Next st' lb) as [r lb'] eqn:E. intros [[= -> -> <-]|Hin]%elem_of_cons; [|by eapply IH].
  by eapply next_healthy.
Qed.

Lemma balancers_pick_healthy_witness :
  1%nat ∈ [0%nat; 1%nat; 2%nat] /\ IsHealthy (sample_store 1%nat) = true.
Proof.
  apply (balancers_pick_healthy [(LNext, sample_store)] (NewRoundRobin [0%nat; 1%nat; 2%nat])).
  vm_compute. left.
Defined.

(** Round robin finds a healthy endpoint whenever there is one, whatever the health of the
    others, as long as the 64-bit counter does not wrap inside the scan. *)
Lemma RoundRobin_Next_complete (st : store) (rr : RoundRobin) :
  0 <= rr_current rr -> rr_current rr + 1 + zlen (rr_endpoints rr) <= 2 ^ 64 ->
  (exists p, p ∈ rr_endpoints rr /\ IsHealthy (st p) = true) <-> is_Some (fst (RoundRobin_Next st rr)).
Proof.
  intros Hc Hw. pose proof (zlen_nonneg (rr_endpoints rr)) as Hn.
  unfold RoundRobin_Next. destruct (Z.eqb_spec (zlen (rr_endpoints rr)) 0) as [Hz|Hz]; cbn.
  - rewrite (zlen_nil_inv _ Hz). split; [intros (p & Hp & _); set_solver | by intros [? ?]].
  - rewrite u64_add_small by lia. split.
    + apply (rr_scan_complete (fun p => IsHealthy (st p))); lia.
    + intros [p Hp]. exists p. by apply rr_scan_sound in Hp.
Qed.

Lemma RoundRobin_Next_complete_witness :
  is_Some (fst (RoundRobin_Next sample_store {| rr_endpoints := [2%nat; 2%nat; 1%nat]; rr_current := 7 |})).
Proof.
  apply (RoundRobin_Next_complete sample_store {| rr_endpoints := [2%nat; 2%nat; 1%nat]; rr_current := 7 |});
    [by vm_compute | by vm_compute |].
  exists 1%nat. split; [set_solver | by vm_compute].
Defined.

(** C38: Fairness of round robin: with all endpoints healthy, any n consecutive answers, n the number
    of endpoints, name every endpoint exactly once. *)
Theorem RoundRobin_fair (st : store) (eps : list ptr) (c : Z) :
  (forall p, p ∈ eps -> IsHealthy (st p) = true) ->
  0 <= c -> c + zlen eps < 2 ^ 64 ->
  next_many (length eps) st {| rr_endpoints := eps; rr_current := c |} ≡ₚ map Some eps.
Proof.
  intros Hh Hc Hw. destruct (decide (eps = [])) as [->|Hne]; [done|].
  assert (0 < zlen eps).
  { pose proof (zlen_nonneg eps). destruct (decide (zlen eps = 0)) as [Hz|]; [|lia].
    by apply zlen_nil_inv in Hz. }
  rewrite rr_next_many by (unfold zlen in *; done || lia).
  rewrite <- map_lookup_seqZ, <- (map_map (fun i => (c + 1 + i) mod zlen eps) (fun j => eps !! Z.to_nat j)).
  apply Permutation_map, rotation_perm; lia.
Qed.

Lemma RoundRobin_fair_witness :
  next_many 3 sample_store {| rr_endpoints := [0%nat; 1%nat; 3%nat]; rr_current := 5 |}
  ≡ₚ map Some [0%nat; 1%nat; 3%nat].
Proof.
  apply (RoundRobin_fair sample_store [0%nat; 1%nat; 3%nat] 5); [|by vm_compute..].
  intros p Hp. assert (p = 0%nat \/ p = 1%nat \/ p = 3%nat) as [->|[->| ->]] by set_solver; by vm_compute.
Defined.

(** Least connections answers with a healthy endpoint whose connection count is minimal among
    the healthy ones, and with none only if there is no healthy endpoint (counts below the int64
    maximum). *)
Lemma LeastConnections_Next_minimal (st : store) (lc : LeastConnections) :
  (forall p, p ∈ lc_endpoints lc -> conns_of (lc_connections lc) (Address (st p)) < max_i64) ->
  match fst (LeastConnections_Next st lc) with
  | Some p => eligible st (lc_endpoints lc) p /\
      forall q, eligible st (lc_endpoints lc) q ->
        conns_of (lc_connections lc) (Address (st p)) <= conns_of (lc_connections lc) (Address (st q))
  | None => forall q, q ∈ lc_endpoints lc -> IsHealthy (st q) = false
  end.
Proof.
  intros Hb. pose proof (lc_select_spec st (lc_connections lc) (lc_endpoints lc)) as Hs.
  unfold LeastConnections_Next. destruct (Z.eqb_spec (zlen (lc_endpoints lc)) 0) as [Hz|Hz]; cbn.
  - rewrite (zlen_nil_inv _ Hz). set_solver.
  - destruct (fst (lc_select _ _ _)) as [p|]; cbn; [done|].
    intros q Hq. destruct (IsHealthy (st q)) eqn:E; [|done].
    specialize (Hs q (conj Hq E)). specialize (Hb q Hq). lia.
Qed.

Lemma LeastConnections_Next_minimal_witness :
  fst (LeastConnections_Next sample_store (NewLeastConnections [2%nat])) = None /\
  forall q, q ∈ [2%nat] -> IsHealthy (sample_store q) = false.
Proof.
  split; [by vm_compute|].
  refine (LeastConnections_Next_minimal sample_store (NewLeastConnections [2%nat]) _).
  intros p _. by vm_compute.
Defined.

(** Under a steady set of healthy endpoints with distinct addresses, least connections spreads
    the load evenly: after any number of answers without releases the connection counts of any two
    endpoints differ by at most one. *)
Lemma LeastConnections_spread (st : store) (eps : list ptr) (k : nat) (p q : ptr) :
  (forall p, p ∈ eps -> IsHealthy (st p) = true) ->
  (forall p q, p ∈ eps -> q ∈ eps -> Address (st p) = Address (st q) -> p = q) ->
  Z.of_nat k + 1 < max_i64 -> p ∈ eps -> q ∈ eps ->
  let m := lc_connections (lc_after st k (NewLeastConnections eps)) in
  Z.abs (conns_of m (Address (st p)) - conns_of m (Address (st q))) <= 1.
Proof.
  intros Hh Hinj Hk Hp Hq m.
  enough (exists m0, 0 <= m0 <= Z.of_nat k /\ forall r, r ∈ eps -> m0 <= conns_of m (Address (st r)) <= m0 + 1)
    as (m0 & _ & Hm) by (pose proof (Hm p Hp); pose proof (Hm q Hq); lia).
  subst m. clear Hp Hq. induction k as [|k IH].
  - exists 0. split; [lia|]. intros r _. by vm_compute.
  - destruct IH as (m0 & Hm0 & Hm); [lia|].
    change (lc_after st (S k) ?l) with (snd (LeastConnections_Next st (lc_after st k l))).
    set (lc := lc_after st k (NewLeastConnections eps)) in *.
    destruct (LeastConnections_Next st lc) as [[r|] lc'] eqn:E; cbn.
    + destruct (lc_next_spread st eps lc (Z.of_nat k) m0 r lc') as (m' & ? & ?);
        [apply lc_after_endpoints | done || lia.. |].
      exists m'. split; [lia|done].
    + assert (lc' = lc) as ->.
      { unfold LeastConnections_Next in E. repeat case_match; by simplify_eq. }
      exists m0. split; [lia|done].
Qed.

Lemma LeastConnections_spread_witness :
  Z.abs (conns_of (lc_connections (lc_after sample_store 5%nat (NewLeastConnections [0%nat; 1%nat; 3%nat]))) "10.0.0.1"
       - conns_of (lc_connections (lc_after sample_store 5%nat (NewLeastConnections [0%nat; 1%nat; 3%nat]))) "10.0.0.4") <= 1.
Proof.
  apply (LeastConnections_spread sample_store [0%nat; 1%nat; 3%nat] 5%nat 0%nat 3%nat).
  - intros p Hp. assert (p = 0%nat \/ p = 1%nat \/ p = 3%nat) as [->|[->| ->]] by set_solver; by vm_compute.
  - intros p q Hp Hq.
    assert (p = 0%nat \/ p = 1%nat \/ p = 3%nat) as [->|[->| ->]] by set_solver;
    assert (q = 0%nat \/ q = 1%nat \/ q = 3%nat) as [->|[->| ->]] by set_solver; by vm_compute.
  - by vm_compute.
  - set_solver.
  - set_solver.
Defined.

(** Distribution of the weighted balancer: over a full cycle of consecutive answers, as many as
    the total weight, a healthy endpoint is chosen as many times as its weight, and the first
    healthy endpoint is chosen in addition once for every unit of weight of the unhealthy ones. *)
Lemma Weighted_distribution (st : store) (eps : list ptr) (c : Z) (p : ptr) :
  let w0 := NewWeighted st eps in
  let w := {| w_endpoints := eps; w_weights := w_weights w0; w_totalWeight := w_totalWeight w0; w_current := c |} in
  let ok p := IsHealthy (st p) in
  let T := sumZ (w_weights w) in
  eps <> [] -> T <= max_i64 -> 0 <= c -> c + T < 2 ^ 64 ->
  count (fun r => bool_decide (r = Some p)) (next_many (Z.to_nat T) st w)
  = share ok p eps (w_weights w)
    + (if bool_decide (List.find ok eps = Some p)
       then T - healthy_weight ok eps (w_weights w) else 0).
Proof.
  intros w0 w ok T Hne HT Hc Hw.
  assert (Forall (fun x => 0 < x) (w_weights w)) as Hp.
  { cbn. apply Forall_map, Forall_forall. intros q _. unfold effective_weight. case_tests; lia. }
  assert (w_totalWeight w = T) as Htot by (apply calculateWeights_spec; exact HT).
  assert (0 < T) as HTpos.
  { subst T. destruct eps as [|e eps]; [done|]. cbn in Hp |- *. apply Forall_cons in Hp as [? Hp'].
    pose proof (healthy_weight_bounds (fun _ => true) [] _ Hp') as Hb. cbn in Hb. unfold sumZ in *. lia. }
  rewrite w_next_many; [|done | rewrite Htot; unfold max_i64 in HT; lia | exact Hc | cbn [w_current w]; lia].
  rewrite Z2Nat.id, count_map, Htot by lia.
  etrans; [|apply (pick_at_cycle ok w p); [cbn; by rewrite length_map | done | done]].
  etrans; [|exact (count_perm _ _ _ (rotation_perm (c + 1) T ltac:(lia) HTpos))]. rewrite count_map.
  apply count_ext. intros i _. apply bool_decide_ext. reflexivity.
Qed.

Lemma Weighted_distribution_witness :
  count (fun r => bool_decide (r = Some 1%nat)) (next_many 6 sample_store (NewWeighted sample_store [0%nat; 1%nat; 2%nat])) = 2.
Proof.
  refine (eq_trans (Weighted_distribution sample_store [0%nat; 1%nat; 2%nat] 0 1%nat _ _ _ _) _); by vm_compute.
Defined.
