(* ===== verification/RequestQueue.v ===== *)
(** * The router's request queue

    [services/router/internal/router/request_queue.go]: requests that arrive while
    the router is not connected, with the drain of [message_router.go]
    ([processQueuedRequests]).  Each queued request carries a response channel of
    capacity one; channels live in a store of their own because the caller of
    [Enqueue] keeps the receiving end.  Operations that would panic (a send on a
    closed channel, closing one twice) or block for ever give [None]. *)
From S2P Require Import Prelude.
#[local] Open Scope Z_scope.

(** ** Channels *)

Record Chan := mkChan { buffered : list (option string); chan_closed : bool }.

Definition chan_cap : nat := 1.

Record Channels := mkChannels { chans : gmap nat Chan; next_chan : nat }.

(** [make(chan error, 1)]. *)
Definition make_chan (w : Channels) : nat * Channels :=
  (next_chan w, {| chans := <[next_chan w := {| buffered := []; chan_closed := false |}]> (chans w);
                   next_chan := S (next_chan w) |}).

(** [select { case c <- v: default: }]. *)
Definition try_send (c : nat) (v : option string) (w : Channels) : option Channels :=
  match chans w !! c with
  | Some ch =>
      if chan_closed ch then None
      else if (length (buffered ch) <? chan_cap)%nat
      then Some {| chans := <[c := {| buffered := buffered ch ++ [v]; chan_closed := false |}]> (chans w);
                   next_chan := next_chan w |}
      else Some w
  | None => None
  end.

(** [c <- v]: blocks when the buffer is full. *)
Definition send (c : nat) (v : option string) (w : Channels) : option Channels :=
  match chans w !! c with
  | Some ch => if (length (buffered ch) <? chan_cap)%nat then try_send c v w else None
  | None => None
  end.

Definition close_chan (c : nat) (w : Channels) : option Channels :=
  match chans w !! c with
  | Some ch =>
      if chan_closed ch then None
      else Some {| chans := <[c := {| buffered := buffered ch; chan_closed := true |}]> (chans w);
                   next_chan := next_chan w |}
  | None => None
  end.

(** ** The queue *)

Record QueuedRequest := mkQR {
  Data : string;
  Timestamp : Z;
  Context : nat;      (* the request context, by its identity *)
  Response : nat;     (* the response channel *)
}.

#[export] Instance QueuedRequest_eq_dec : EqDecision QueuedRequest.
Proof. solve_decision. Defined.

Record RequestQueue := mkRQ {
  queue : list QueuedRequest;
  maxSize : Z;
  totalQueued : Z;
  totalDropped : Z;
  totalProcessed : Z;
}.

Definition NewRequestQueue (size : Z) : RequestQueue :=
  {| queue := []; maxSize := if size <=? 0 then 100 else size;
     totalQueued := 0; totalDropped := 0; totalProcessed := 0 |}.

(** [Enqueue]: the new response channel, or the queue-full error with its size.
    The JSON parse of the data only feeds a log message. *)
Definition Enqueue (data : string) (ctx : nat) (now : Z) (rq : RequestQueue) (w : Channels)
    : result Z nat * RequestQueue * Channels :=
  if maxSize rq <=? zlen (queue rq)
  then (Err (maxSize rq),
        {| queue := queue rq; maxSize := maxSize rq; totalQueued := totalQueued rq;
           totalDropped := i64_add (totalDropped rq) 1; totalProcessed := totalProcessed rq |}, w)
  else
    let '(c, w') := make_chan w in
    let qr := {| Data := data; Timestamp := now; Context := ctx; Response := c |} in
    (Ok c,
     {| queue := queue rq ++ [qr]; maxSize := maxSize rq; totalQueued := i64_add (totalQueued rq) 1;
        totalDropped := totalDropped rq; totalProcessed := totalProcessed rq |}, w').

(** [DequeueAll]. *)
Definition DequeueAll (rq : RequestQueue) : list QueuedRequest * RequestQueue :=
  if zlen (queue rq) =? 0 then ([], rq)
  else (queue rq,
        {| queue := []; maxSize := maxSize rq; totalQueued := totalQueued rq;
           totalDropped := totalDropped rq;
           totalProcessed := i64_add (totalProcessed rq) (zlen (queue rq)) |}).

(** The notification loop of [Clear]. *)
Fixpoint notify_all (err : option string) (qs : list QueuedRequest) (w : Channels) : option Channels :=
  match qs with
  | [] => Some w
  | qr :: qs =>
      w1 ← try_send (Response qr) err w;
      w2 ← close_chan (Response qr) w1;
      notify_all err qs w2
  end.

Definition Clear (err : option string) (rq : RequestQueue) (w : Channels)
    : option (RequestQueue * Channels) :=
  if zlen (queue rq) =? 0 then Some (rq, w)
  else
    w' ← notify_all err (queue rq) w;
    Some ({| queue := []; maxSize := maxSize rq; totalQueued := totalQueued rq;
             totalDropped := i64_add (totalDropped rq) (zlen (queue rq));
             totalProcessed := totalProcessed rq |}, w').

Definition Size (rq : RequestQueue) : Z := zlen (queue rq).
Definition IsEmpty (rq : RequestQueue) : bool := zlen (queue rq) =? 0.
Definition IsFull (rq : RequestQueue) : bool := maxSize rq <=? zlen (queue rq).
Definition GetMetrics (rq : RequestQueue) : Z * Z * Z :=
  (totalQueued rq, totalDropped rq, totalProcessed rq).

(** The drain loop of [MessageRouter.processQueuedRequests]: [ctx_err] tells which
    request contexts have ended, [process] is [processStdinMessageDirect]. *)
Fixpoint answer_all (ctx_err : nat -> bool) (process : string -> option string)
    (qs : list QueuedRequest) (w : Channels) : option Channels :=
  match qs with
  | [] => Some w
  | qr :: qs =>
      w2 ← (if ctx_err (Context qr)
            then w1 ← send (Response qr) (Some "request context canceled") w;
                 close_chan (Response qr) w1
            else w1 ← try_send (Response qr) (process (Data qr)) w;
                 close_chan (Response qr) w1);
      answer_all ctx_err process qs w2
  end.

Definition processQueuedRequests (ctx_err : nat -> bool) (process : string -> option string)
    (rq : RequestQueue) (w : Channels) : option (RequestQueue * Channels) :=
  let '(requests, rq') := DequeueAll rq in
  w' ← answer_all ctx_err process requests w;
  Some (rq', w').

(** ** Runs of the queue *)

Inductive QOp :=
| QEnqueue (data : string) (ctx : nat) (now : Z)
| QProcess (ctx_err : nat -> bool) (process : string -> option string)
| QClear (err : option string).

Definition q_step (o : QOp) (s : RequestQueue * Channels) : option (RequestQueue * Channels) :=
  let '(rq, w) := s in
  match o with
  | QEnqueue d c t => let '(_, rq', w') := Enqueue d c t rq w in Some (rq', w')
  | QProcess ce p => processQueuedRequests ce p rq w
  | QClear e => Clear e rq w
  end.

Fixpoint q_run (ops : list QOp) (s : RequestQueue * Channels) : option (RequestQueue * Channels) :=
  match ops with
  | [] => Some s
  | o :: ops => s' ← q_step o s; q_run ops s'
  end.

Definition enqueues (ops : list QOp) : Z :=
  count (fun o => match o with QEnqueue _ _ _ => true | _ => false end) ops.

(** ** Invariant *)

(** Requests in the queue own distinct, open, empty channels. *)
Record queue_inv (rq : RequestQueue) (w : Channels) : Prop := {
  qi_size : zlen (queue rq) <= maxSize rq;
  qi_pos : 0 < maxSize rq;
  qi_nodup : NoDup (map Response (queue rq));
  qi_open : forall qr, qr ∈ queue rq ->
    chans w !! Response qr = Some {| buffered := []; chan_closed := false |};
  qi_fresh : forall c ch, chans w !! c = Some ch -> (c < next_chan w)%nat;
}.

(** The channel of a request that has been answered. *)
Definition answered (v : option string) : Chan := {| buffered := [v]; chan_closed := true |}.

Lemma try_send_open c v w :
  chans w !! c = Some {| buffered := []; chan_closed := false |} ->
  try_send c v w = Some {| chans := <[c := {| buffered := [v]; chan_closed := false |}]> (chans w);
                           next_chan := next_chan w |}.
Proof. intros H. unfold try_send. by rewrite H. Qed.

Lemma send_then_close c v w :
  chans w !! c = Some {| buffered := []; chan_closed := false |} ->
  (w1 ← try_send c v w; close_chan c w1)
  = Some {| chans := <[c := answered v]> (chans w); next_chan := next_chan w |}.
Proof.
  intros H. rewrite (try_send_open _ _ _ H). cbn. unfold close_chan; cbn.
  rewrite lookup_insert_eq; cbn. by rewrite insert_insert_eq.
Qed.

(** Answering a list of requests that own distinct open channels. *)
Lemma answer_loop (f : QueuedRequest -> option string)
    (loop : list QueuedRequest -> Channels -> option Channels) :
  (forall w, loop [] w = Some w) ->
  (forall qr qs w, chans w !! Response qr = Some {| buffered := []; chan_closed := false |} ->
     loop (qr :: qs) w
     = w2 ← (w1 ← try_send (Response qr) (f qr) w; close_chan (Response qr) w1); loop qs w2) ->
  forall qs w,
  NoDup (map Response qs) ->
  (forall qr, qr ∈ qs -> chans w !! Response qr = Some {| buffered := []; chan_closed := false |}) ->
  exists w', loop qs w = Some w' /\ next_chan w' = next_chan w /\
    (forall qr, qr ∈ qs -> chans w' !! Response qr = Some (answered (f qr))) /\
    (forall c, c ∉ map Response qs -> chans w' !! c = chans w !! c).
Proof.
  intros Hnil Hcons qs; induction qs as [|qr qs IH]; intros w Hnd Hop.
  - exists w. rewrite Hnil. split_and!; [done..|set_solver|done].
  - cbn in Hnd. apply NoDup_cons in Hnd as [Hnin Hnd].
    assert (chans w !! Response qr = Some {| buffered := []; chan_closed := false |}) as Hq
      by (apply Hop; set_solver).
    rewrite Hcons, send_then_close by done. cbn.
    destruct (IH {| chans := <[Response qr := answered (f qr)]> (chans w); next_chan := next_chan w |} Hnd)
      as (w' & Hw' & Hn & Ha & Ho).
    { intros qr' Hqr'. cbn. rewrite lookup_insert_ne; [apply Hop; set_solver|].
      intros Heq. apply Hnin. rewrite Heq. by apply list_elem_of_fmap_2. }
    exists w'. rewrite Hw'. split_and!; [done|done| |].
    + intros qr' [->|Hqr']%elem_of_cons; [|by apply Ha]. rewrite Ho by done. cbn. by rewrite lookup_insert_eq.
    + intros c Hc. cbn in Hc. apply not_elem_of_cons in Hc as [? ?]. rewrite Ho by done. cbn. by rewrite lookup_insert_ne.
Qed.

(** What a drain answers to a request. *)
Definition reply (ctx_err : nat -> bool) (process : string -> option string) (qr : QueuedRequest) : option string :=
  if ctx_err (Context qr) then Some "request context canceled" else process (Data qr).

Lemma send_open c v w :
  chans w !! c = Some {| buffered := []; chan_closed := false |} -> send c v w = try_send c v w.
Proof. intros H. unfold send. by rewrite H. Qed.

Lemma answer_all_ok ctx_err process qs w :
  NoDup (map Response qs) ->
  (forall qr, qr ∈ qs -> chans w !! Response qr = Some {| buffered := []; chan_closed := false |}) ->
  exists w', answer_all ctx_err process qs w = Some w' /\ next_chan w' = next_chan w /\
    (forall qr, qr ∈ qs -> chans w' !! Response qr = Some (answered (reply ctx_err process qr))) /\
    (forall c, c ∉ map Response qs -> chans w' !! c = chans w !! c).
Proof.
  apply answer_loop; [done|]. intros qr qs' w' H. cbn. unfold reply.
  destruct (ctx_err (Context qr)); [by rewrite send_open|done].
Qed.

Lemma notify_all_ok err qs w :
  NoDup (map Response qs) ->
  (forall qr, qr ∈ qs -> chans w !! Response qr = Some {| buffered := []; chan_closed := false |}) ->
  exists w', notify_all err qs w = Some w' /\ next_chan w' = next_chan w /\
    (forall qr, qr ∈ qs -> chans w' !! Response qr = Some (answered err)) /\
    (forall c, c ∉ map Response qs -> chans w' !! c = chans w !! c).
Proof.
  apply (answer_loop (fun _ => err)); [done|]. intros qr qs' w' H. cbn.
  by destruct (try_send (Response qr) err w').
Qed.

Lemma elem_of_responses qr qs : qr ∈ qs -> Response qr ∈ map Response qs.
Proof. intros. by apply list_elem_of_fmap_2. Qed.

Lemma queue_inv_fresh rq w qr : queue_inv rq w -> qr ∈ queue rq -> (Response qr < next_chan w)%nat.
Proof. intros Hi Hq. by eapply qi_fresh, qi_open. Qed.

Lemma Enqueue_inv d c t rq w :
  queue_inv rq w -> queue_inv (snd (fst (Enqueue d c t rq w))) (snd (Enqueue d c t rq w)).
Proof.
  intros Hi. pose proof (fun qr => queue_inv_fresh rq w qr Hi) as Hf. destruct Hi as [Hs Hp Hn Ho Hfr].
  unfold Enqueue. destruct (Z.leb_spec (maxSize rq) (zlen (queue rq))); cbn; [by split|].
  split; cbn; [rewrite zlen_app; unfold zlen in *; cbn; lia | done | | |].
  - rewrite map_app. apply NoDup_app. split_and!; [done| |apply NoDup_singleton].
    intros x (qr & -> & Hq)%list_elem_of_fmap_1. cbn. specialize (Hf qr Hq). set_solver by lia.
  - intros qr [Hq| ->%list_elem_of_singleton]%elem_of_app; cbn; [|by rewrite lookup_insert_eq].
    specialize (Hf qr Hq). rewrite lookup_insert_ne by lia. by apply Ho.
  - intros c' ch. rewrite lookup_insert. case_decide; [lia|]. intros ?%Hfr. lia.
Qed.

(** A drain empties the queue and keeps the freshness of channel numbers. *)
Lemma drained_inv rq w rq' w' qs :
  queue_inv rq w -> queue rq = qs -> queue rq' = [] -> maxSize rq' = maxSize rq ->
  next_chan w' = next_chan w -> (forall c, c ∉ map Response qs -> chans w' !! c = chans w !! c) ->
  queue_inv rq' w'.
Proof.
  intros Hi <- Hq Hm Hn Ho. pose proof (fun qr => queue_inv_fresh rq w qr Hi) as Hf.
  destruct Hi as [Hs Hp Hnd Hop Hfr]. split; rewrite ?Hq, ?Hm; [unfold zlen; cbn; lia | done | constructor | set_solver |].
  intros c ch Hc. rewrite Hn. destruct (decide (c ∈ map Response (queue rq))) as [Hin|Hin].
  - apply list_elem_of_fmap_1 in Hin as (qr & -> & Hqr). by apply Hf.
  - rewrite Ho in Hc by done. by eapply Hfr.
Qed.

(** Every operation succeeds and preserves the invariant. *)
Lemma q_step_inv o rq w :
  queue_inv rq w -> exists rq' w', q_step o (rq, w) = Some (rq', w') /\ queue_inv rq' w' /\
    maxSize rq' = maxSize rq /\
    wrap_s 64 (totalProcessed rq' + totalDropped rq' + zlen (queue rq'))
    = wrap_s 64 (totalProcessed rq + totalDropped rq + zlen (queue rq)
                 + match o with QEnqueue _ _ _ => 1 | _ => 0 end).
Proof.
  intros Hi. destruct o as [d c t|ce p|e]; cbn.
  - pose proof (Enqueue_inv d c t rq w Hi) as Hi'.
    destruct (Enqueue d c t rq w) as [[r rq'] w'] eqn:E. exists rq', w'.
    split_and!; [done|done| |]; unfold Enqueue, make_chan in E;
      destruct (Z.leb_spec (maxSize rq) (zlen (queue rq))); simplify_eq; cbn; try done.
    + rewrite (Z.add_shuffle0 (totalProcessed rq)), i64_add_wrap. f_equal. lia.
    + rewrite zlen_app. f_equal. unfold zlen. cbn. lia.
  - unfold processQueuedRequests, DequeueAll.
    destruct (Z.eqb_spec (zlen (queue rq)) 0) as [Hz|Hz]; cbn.
    + exists rq, w. split_and!; try done. by rewrite Z.add_0_r.
    + destruct (answer_all_ok ce p (queue rq) w) as (w' & -> & Hn & _ & Ho); [apply Hi..|]. cbn.
      eexists _, w'. split_and!; [done|by eapply drained_inv|done|]. cbn.
      rewrite <- Z.add_assoc, Z.add_comm, i64_add_wrap. f_equal. unfold zlen. cbn. lia.
  - unfold Clear. destruct (Z.eqb_spec (zlen (queue rq)) 0) as [Hz|Hz]; cbn.
    + exists rq, w. split_and!; try done. by rewrite Z.add_0_r.
    + destruct (notify_all_ok e (queue rq) w) as (w' & -> & Hn & _ & Ho); [apply Hi..|]. cbn.
      eexists _, w'. split_and!; [done|by eapply drained_inv|done|]. cbn.
      rewrite (Z.add_shuffle0 (totalProcessed rq)), i64_add_wrap. f_equal. unfold zlen. cbn. lia.
Qed.

Lemma q_run_inv ops rq w :
  queue_inv rq w -> exists rq' w', q_run ops (rq, w) = Some (rq', w') /\ queue_inv rq' w' /\
    maxSize rq' = maxSize rq /\
    wrap_s 64 (totalProcessed rq' + totalDropped rq' + zlen (queue rq'))
    = wrap_s 64 (totalProcessed rq + totalDropped rq + zlen (queue rq) + enqueues ops).
Proof.
  revert rq w; induction ops as [|o ops IH]; intros rq w Hi.
  - exists rq, w. split_and!; try done. by rewrite Z.add_0_r.
  - destruct (q_step_inv o rq w Hi) as (rq1 & w1 & H1 & Hi1 & Hm1 & Ht1).
    destruct (IH rq1 w1 Hi1) as (rq2 & w2 & H2 & Hi2 & Hm2 & Ht2).
    exists rq2, w2. cbn [q_run]. rewrite H1. cbn. split_and!; [done|done|congruence|].
    rewrite Ht2, <- wrap_s_add_l, Ht1, wrap_s_add_l by lia. f_equal.
    unfold enqueues. rewrite count_cons. destruct o; lia.
Qed.

Lemma empty_queue_inv size : queue_inv (NewRequestQueue size) {| chans := ∅; next_chan := 0 |}.
Proof.
  split; cbn; [unfold zlen; cbn; case_tests; lia | case_tests; lia | constructor | set_solver | done].
Qed.

(** ** Properties *)

(** C36: Over any sequence of enqueues, drains and clears, starting from an empty queue, no operation
    panics or blocks, the queue never exceeds its maximum size, and no request is lost: requests
    processed, dropped and still queued add up to the requests offered (at int64 width). *)
Theorem queue_conserves_requests (size : Z) (ops : list QOp) :
  exists rq w, q_run ops (NewRequestQueue size, {| chans := ∅; next_chan := 0 |}) = Some (rq, w) /\
    Size rq <= (if size <=? 0 then 100 else size) /\
    wrap_s 64 (totalProcessed rq + totalDropped rq + Size rq) = wrap_s 64 (enqueues ops).
Proof.
  destruct (q_run_inv ops _ _ (empty_queue_inv size)) as (rq & w & H1 & Hi & Hm & Ht).
  exists rq, w. split_and!; [done| |done]. unfold Size.
  pose proof (qi_size _ _ Hi). by rewrite Hm in *.
Qed.

(** A drain answers every queued request exactly once: each response channel holds the one
    result (the processing error, or the cancellation of its context) and is closed, channels of
    other requests are untouched, and the requests are handed out in the order they arrived. *)
Lemma drain_answers_once (ctx_err : nat -> bool) (process : string -> option string)
    (rq : RequestQueue) (w : Channels) :
  queue_inv rq w ->
  fst (DequeueAll rq) = queue rq /\
  exists rq' w', processQueuedRequests ctx_err process rq w = Some (rq', w') /\
    queue rq' = [] /\
    (forall qr, qr ∈ queue rq -> chans w' !! Response qr = Some (answered (reply ctx_err process qr))) /\
    (forall c, c ∉ map Response (queue rq) -> chans w' !! c = chans w !! c).
Proof.
  intros Hi. unfold processQueuedRequests, DequeueAll.
  destruct (Z.eqb_spec (zlen (queue rq)) 0) as [Hz|Hz]; cbn.
  - apply zlen_nil_inv in Hz. rewrite Hz. split; [done|]. exists rq, w. split_and!; [done..|set_solver|done].
  - split; [done|]. destruct (answer_all_ok ctx_err process (queue rq) w) as (w' & -> & _ & Ha & Ho); [apply Hi..|].
    cbn. by eexists _, w'.
Qed.

Definition queue_of_two : RequestQueue * Channels :=
  default (NewRequestQueue 2, {| chans := ∅; next_chan := 0 |})
    (q_run [QEnqueue "a" 0 1; QEnqueue "b" 1 2] (NewRequestQueue 2, {| chans := ∅; next_chan := 0 |})).

Lemma drain_answers_once_witness :
  fst (DequeueAll (fst queue_of_two)) = queue (fst queue_of_two) /\
  exists rq' w', processQueuedRequests (fun c => (c =? 0)%nat) (fun _ => None) (fst queue_of_two) (snd queue_of_two) = Some (rq', w') /\
    queue rq' = [] /\
    (forall qr, qr ∈ queue (fst queue_of_two) ->
       chans w' !! Response qr = Some (answered (reply (fun c => (c =? 0)%nat) (fun _ => None) qr))) /\
    (forall c, c ∉ map Response (queue (fst queue_of_two)) -> chans w' !! c = chans (snd queue_of_two) !! c).
Proof.
  apply (drain_answers_once (fun c => (c =? 0)%nat) (fun _ => None)).
  destruct (q_run_inv [QEnqueue "a" 0 1; QEnqueue "b" 1 2] _ _ (empty_queue_inv 2)) as (rq & w & H1 & Hi & _).
  unfold queue_of_two. by rewrite H1.
Defined.
