(* ===== verification/NamespaceRouter.v ===== *)
(** * Namespace routing

    [services/router/internal/gateway/namespace_router.go]: rules that map MCP
    method names to endpoint tags, ordered by priority.  Package [regexp] enters
    through a class that states what the router uses of it; the theorems hold for
    every implementation, and an instance for the pattern forms of the default
    rules makes the definitions executable. *)
From S2P Require Import Prelude GoStrings.
From stdpp Require Import pretty.
From Stdlib Require Import Strings.Ascii Sorted.
#[local] Open Scope Z_scope.

(** [regexp]: compilation may fail; submatches are empty exactly when there is no
    match (the documented nil result), otherwise they start with the whole match. *)
Class Regexp := {
  regexp : Type;
  Compile : string -> option regexp;
  MatchString : regexp -> string -> bool;
  FindStringSubmatch : regexp -> string -> list string;
  Submatch_nil : forall r s, FindStringSubmatch r s = [] <-> MatchString r s = false;
}.

Section Routing.
Context `{Regexp}.

Record NamespaceRoutingRule := mkRule {
  Pattern : string;
  Tags : list string;
  Priority : Z;
  Description : string;
  regex : option regexp;
}.

Record NamespaceRoutingConfig := mkRoutingConfig {
  Enabled : bool;
  Rules : list NamespaceRoutingRule;
}.

Record NamespaceRouter := mkRouter {
  config : NamespaceRoutingConfig;
  rules : list NamespaceRoutingRule;
}.

Definition StandardRoutingPriority : Z := 2.
Definition HighRoutingPriority : Z := 3.

Definition mk (p : string) (ts : list string) (prio : Z) (d : string) : NamespaceRoutingRule :=
  {| Pattern := p; Tags := ts; Priority := prio; Description := d; regex := None |}.

Definition getSystemRoutingRules : list NamespaceRoutingRule :=
  [mk "^initialize$" ["system"; "default"] 1 "Route initialization requests to system endpoints"].

Definition getMCPCapabilityRules : list NamespaceRoutingRule :=
  [mk "^tools/.*" ["tools"; "default"] StandardRoutingPriority
     "Route tool-related requests to tool-capable endpoints";
   mk "^prompts/.*" ["prompts"; "default"] StandardRoutingPriority
     "Route prompt-related requests to prompt-capable endpoints";
   mk "^resources/.*" ["resources"; "default"] StandardRoutingPriority
     "Route resource-related requests to resource-capable endpoints"].

Definition getDottedNamespaceRules : list NamespaceRoutingRule :=
  [mk "^docker\..*" ["docker"; "default"] HighRoutingPriority
     "Route docker namespace methods to docker-capable endpoints";
   mk "^k8s\..*" ["k8s"; "default"] HighRoutingPriority
     "Route k8s namespace methods to k8s-capable endpoints";
   mk "^fs\..*" ["fs"; "default"] HighRoutingPriority
     "Route filesystem namespace methods to fs-capable endpoints";
   mk "^web\..*" ["web"; "default"] HighRoutingPriority
     "Route web namespace methods to web-capable endpoints";
   mk "^db\..*" ["db"; "default"] HighRoutingPriority
     "Route database namespace methods to db-capable endpoints"].

Definition getSlashNamespaceRules : list NamespaceRoutingRule :=
  [mk "^fs/.*" ["fs"; "default"] HighRoutingPriority
     "Route filesystem methods to fs-capable endpoints";
   mk "^web/.*" ["web"; "default"] HighRoutingPriority
     "Route web methods to web-capable endpoints";
   mk "^db/.*" ["db"; "default"] HighRoutingPriority
     "Route database methods to db-capable endpoints"].

Definition DefaultNamespaceRoutingRules : list NamespaceRoutingRule :=
  getSystemRoutingRules ++ getMCPCapabilityRules ++ getDottedNamespaceRules ++ getSlashNamespaceRules.

(** ** Construction *)

Definition with_regex (r : NamespaceRoutingRule) (re : option regexp) : NamespaceRoutingRule :=
  {| Pattern := Pattern r; Tags := Tags r; Priority := Priority r;
     Description := Description r; regex := re |}.

(** The compile loop of [NewNamespaceRouter]: a rule whose pattern does not
    compile is skipped, an empty pattern keeps its nil regex. *)
Fixpoint compile_rules (rs : list NamespaceRoutingRule) : list NamespaceRoutingRule :=
  match rs with
  | [] => []
  | r :: rs =>
      if bool_decide (Pattern r = EmptyString) then r :: compile_rules rs
      else match Compile (Pattern r) with
           | Some re => with_regex r (Some re) :: compile_rules rs
           | None => compile_rules rs
           end
  end.

(** The inner loop of the exchange sort: position [i] holds [x], [j] runs over the
    [rest] of the slice, and the two are exchanged when out of order.  The result
    is the final value of position [i] and of the rest. *)
Fixpoint exchange_pass (x : NamespaceRoutingRule) (rest : list NamespaceRoutingRule)
    : NamespaceRoutingRule * list NamespaceRoutingRule :=
  match rest with
  | [] => (x, [])
  | y :: rest' =>
      if Priority y <? Priority x
      then let '(m, r) := exchange_pass y rest' in (m, x :: r)
      else let '(m, r) := exchange_pass x rest' in (m, y :: r)
  end.

(** The outer loop: [i] runs over the slice; [n] bounds the iterations. *)
Fixpoint exchange_sort (n : nat) (rs : list NamespaceRoutingRule) : list NamespaceRoutingRule :=
  match n, rs with
  | S n, x :: rest => let '(m, r) := exchange_pass x rest in m :: exchange_sort n r
  | _, _ => rs
  end.

Definition NewNamespaceRouter (cfg : NamespaceRoutingConfig) : NamespaceRouter :=
  let rs := if zlen (Rules cfg) =? 0 then DefaultNamespaceRoutingRules else Rules cfg in
  let compiled := compile_rules rs in
  {| config := cfg; rules := exchange_sort (length compiled) compiled |}.

(** ** Routing *)

Definition matchesRule (method : string) (rule : NamespaceRoutingRule) : bool :=
  match regex rule with
  | Some re => MatchString re method
  | None => Contains method (Pattern rule)
  end.

(** [fmt.Sprintf("$%d", i)]. *)
Definition placeholder (i : nat) : string := ("$" +:+ pretty (N.of_nat i))%string.

(** The placeholder loop over the captured groups [matches[1:]]. *)
Fixpoint expand_groups (i : nat) (groups : list string) (tag : string) : string :=
  match groups with
  | [] => tag
  | g :: groups =>
      expand_groups (S i) groups
        (if Contains tag (placeholder i) then ReplaceAll tag (placeholder i) g else tag)
  end.

Definition expandTags (method : string) (rule : NamespaceRoutingRule) : list string :=
  match regex rule with
  | None => Tags rule
  | Some re =>
      let matches := FindStringSubmatch re method in
      if zlen matches <=? 1 then Tags rule
      else map (expand_groups 1 (tail matches)) (Tags rule)
  end.

Inductive RouteError := ErrEmptyMethod.

Definition RouteRequest (nr : NamespaceRouter) (method : string) : result RouteError (list string) :=
  if negb (Enabled (config nr)) then Ok []
  else if bool_decide (method = EmptyString) then Err ErrEmptyMethod
  else match List.find (matchesRule method) (rules nr) with
       | Some rule => Ok (expandTags method rule)
       | None => Ok []
       end.

Inductive ValidateError := ErrNilRequest | ErrMethodEmpty | ErrNoRule (method : string).

(** [ValidateRequest]; a nil request is [None]. *)
Definition ValidateRequest (nr : NamespaceRouter) (req : option string) : result ValidateError unit :=
  match req with
  | None => Err ErrNilRequest
  | Some method =>
      if bool_decide (method = EmptyString) then Err ErrMethodEmpty
      else if existsb (matchesRule method) (rules nr) then Ok tt
      else Err (ErrNoRule method)
  end.

Definition ExtractNamespace (method : string) : string :=
  if bool_decide (method = EmptyString) then "default"
  else if bool_decide (method = "initialize") || HasPrefix method "tools/" then "system"
  else
    let dot := IndexByte method "."%char in
    if 0 <? dot then str_take (Z.to_nat dot) method
    else
      let slash := IndexByte method "/"%char in
      if 0 <? slash then str_take (Z.to_nat slash) method else "default".

(** ** Changing the rules *)

(** The insertion loop of [AddRule]: before the first rule of larger priority. *)
Fixpoint insert_rule (r : NamespaceRoutingRule) (rs : list NamespaceRoutingRule) : list NamespaceRoutingRule :=
  match rs with
  | [] => [r]
  | e :: rs => if Priority r <? Priority e then r :: e :: rs else e :: insert_rule r rs
  end.

(** [AddRule]; the error carries the pattern that does not compile. *)
Definition AddRule (r : NamespaceRoutingRule) (nr : NamespaceRouter) : result string NamespaceRouter :=
  if bool_decide (Pattern r = EmptyString)
  then Ok {| config := config nr; rules := insert_rule r (rules nr) |}
  else match Compile (Pattern r) with
       | None => Err (Pattern r)
       | Some re => Ok {| config := config nr; rules := insert_rule (with_regex r (Some re)) (rules nr) |}
       end.

(** [RemoveRule]: the number of removed rules and the router. *)
Definition RemoveRule (pattern : string) (nr : NamespaceRouter) : Z * NamespaceRouter :=
  let newRules := List.filter (fun r => negb (bool_decide (Pattern r = pattern))) (rules nr) in
  (zlen (rules nr) - zlen newRules, {| config := config nr; rules := newRules |}).

(** ** Order of the rules *)

Definition before (a b : NamespaceRoutingRule) : Prop := Priority a <= Priority b.

Lemma before_trans a b c : before a b -> before b c -> before a c.
Proof. unfold before. lia. Qed.

Lemma exchange_pass_spec x rest m r :
  exchange_pass x rest = (m, r) -> m :: r ≡ₚ x :: rest /\ Forall (before m) r /\ length r = length rest.
Proof.
  revert x m r; induction rest as [|y rest IH]; intros x m r; cbn; [by intros [= <- <-]|].
  destruct (Z.ltb_spec (Priority y) (Priority x)) as [Hlt|Hge].
  - destruct (exchange_pass y rest) as [m' r'] eqn:E. intros [= <- <-].
    destruct (IH _ _ _ E) as (Hp & Hf & Hl). split_and!; [| |cbn; lia].
    + by rewrite Permutation_swap, Hp.
    + constructor; [|done].
      assert (before m' y) as Hb.
      { assert (y ∈ m' :: r') as [->|Hy]%elem_of_cons by (rewrite Hp; set_solver);
          [unfold before; lia|]. rewrite Forall_forall in Hf. by apply Hf. }
      unfold before in *. lia.
  - destruct (exchange_pass x rest) as [m' r'] eqn:E. intros [= <- <-].
    destruct (IH _ _ _ E) as (Hp & Hf & Hl). split_and!; [| |cbn; lia].
    + rewrite Permutation_swap, Hp. apply Permutation_swap.
    + constructor; [|done].
      assert (before m' x) as Hb.
      { assert (x ∈ m' :: r') as [->|Hy]%elem_of_cons by (rewrite Hp; set_solver);
          [unfold before; lia|]. rewrite Forall_forall in Hf. by apply Hf. }
      unfold before in *. lia.
Qed.

Lemma exchange_sort_spec n rs :
  (length rs <= n)%nat -> exchange_sort n rs ≡ₚ rs /\ StronglySorted before (exchange_sort n rs).
Proof.
  revert rs; induction n as [|n IH]; intros [|x rest] Hn; cbn in *;
    [split; [done|apply SSorted_nil] | lia | split; [done|apply SSorted_nil] |].
  destruct (exchange_pass x rest) as [m r] eqn:E.
  destruct (exchange_pass_spec _ _ _ _ E) as (Hp & Hf & Hl).
  destruct (IH r) as [Hp' Hs]; [lia|]. split.
  - by rewrite Hp', Hp.
  - constructor; [done|]. apply Forall_forall. intros y Hy. rewrite Hp' in Hy. rewrite Forall_forall in Hf. by apply Hf.
Qed.

Lemma insert_rule_perm r rs : insert_rule r rs ≡ₚ r :: rs.
Proof.
  induction rs as [|e rs IH]; cbn; [done|]. case_tests; [done|]. rewrite IH. apply Permutation_swap.
Qed.

Lemma insert_rule_sorted r rs : StronglySorted before rs -> StronglySorted before (insert_rule r rs).
Proof.
  induction 1 as [|e rs Hs IH Hf]; cbn; [repeat constructor|].
  destruct (Z.ltb_spec (Priority r) (Priority e)).
  - constructor; [by constructor|]. constructor; [unfold before; lia|].
    eapply Forall_impl; [exact Hf|]. intros x. apply before_trans. unfold before. lia.
  - constructor; [done|]. rewrite insert_rule_perm. constructor; [unfold before; lia|done].
Qed.

Lemma filter_sorted (p : NamespaceRoutingRule -> bool) rs :
  StronglySorted before rs -> StronglySorted before (List.filter p rs).
Proof.
  induction 1 as [|e rs Hs IH Hf]; cbn; [constructor|]. destruct (p e); [|done].
  constructor; [done|]. apply Forall_forall. intros x [_ Hx]%elem_of_filter_bool.
  rewrite Forall_forall in Hf. by apply Hf.
Qed.

(** The first match of a sorted list has the least priority value of all matches. *)
Lemma find_sorted (p : NamespaceRoutingRule -> bool) rs r :
  StronglySorted before rs -> List.find p rs = Some r ->
  r ∈ rs /\ p r = true /\ forall r', r' ∈ rs -> p r' = true -> before r r'.
Proof.
  induction 1 as [|e rs Hs IH Hf]; cbn; [done|]. destruct (p e) eqn:E.
  - intros [= <-]. split_and!; [set_solver|done|].
    intros r' [->|Hr']%elem_of_cons _; [unfold before; lia|]. rewrite Forall_forall in Hf. by apply Hf.
  - intros (Hin & Hp & Hmin)%IH. split_and!; [set_solver|done|].
    intros r' [->|Hr']%elem_of_cons Hp'; [congruence|by apply Hmin].
Qed.

(** ** Routers reached by construction and rule changes *)

Inductive RuleOp := Add (r : NamespaceRoutingRule) | Remove (pattern : string).

(** A failed addition leaves the router as it is. *)
Definition rule_op (nr : NamespaceRouter) (o : RuleOp) : NamespaceRouter :=
  match o with
  | Add r => match AddRule r nr with Ok nr' => nr' | Err _ => nr end
  | Remove p => snd (RemoveRule p nr)
  end.

Definition rule_ops (ops : list RuleOp) (nr : NamespaceRouter) : NamespaceRouter := fold_left rule_op ops nr.

Lemma rule_op_sorted nr o :
  StronglySorted before (rules nr) ->
  StronglySorted before (rules (rule_op nr o)) /\ config (rule_op nr o) = config nr.
Proof.
  intros Hs. destruct o as [r|p]; cbn; [|split; [by apply filter_sorted|done]].
  unfold AddRule. destruct (bool_decide _); cbn; [split; [by apply insert_rule_sorted|done]|].
  destruct (Compile (Pattern r)); cbn; split; try done; by apply insert_rule_sorted.
Qed.

Lemma rule_ops_sorted ops nr :
  StronglySorted before (rules nr) ->
  StronglySorted before (rules (rule_ops ops nr)) /\ config (rule_ops ops nr) = config nr.
Proof.
  revert nr; induction ops as [|o ops IH]; intros nr Hs; [done|]. cbn.
  destruct (rule_op_sorted nr o Hs) as [Hs' Hc]. destruct (IH _ Hs') as [? Hc'].
  split; [done|]. etrans; [exact Hc'|done].
Qed.

Lemma new_router_sorted cfg : StronglySorted before (rules (NewNamespaceRouter cfg)).
Proof. cbn. by apply exchange_sort_spec. Qed.

(** A new router holds exactly the rules whose pattern compiles (the default rules when none is
    configured), each once, in order of priority: the hand-written exchange sort sorts. *)
Lemma NewNamespaceRouter_sorts (cfg : NamespaceRoutingConfig) :
  rules (NewNamespaceRouter cfg)
    ≡ₚ compile_rules (if zlen (Rules cfg) =? 0 then DefaultNamespaceRoutingRules else Rules cfg) /\
  StronglySorted before (rules (NewNamespaceRouter cfg)).
Proof. cbn. by apply exchange_sort_spec. Qed.

(** After any sequence of rule additions and removals, an enabled router answers a non-empty
    method with the expanded tags of a matching rule that no other matching rule precedes in
    priority, and with no tags exactly when no rule matches; [ValidateRequest] accepts the request
    exactly in the first case. *)
Lemma RouteRequest_by_priority (cfg : NamespaceRoutingConfig) (ops : list RuleOp) (method : string) :
  Enabled cfg = true -> method <> EmptyString ->
  let nr := rule_ops ops (NewNamespaceRouter cfg) in
  (exists r, r ∈ rules nr /\ matchesRule method r = true /\
     (forall r', r' ∈ rules nr -> matchesRule method r' = true -> Priority r <= Priority r') /\
     RouteRequest nr method = Ok (expandTags method r) /\ ValidateRequest nr (Some method) = Ok tt) \/
  ((forall r, r ∈ rules nr -> matchesRule method r = false) /\
     RouteRequest nr method = Ok [] /\ ValidateRequest nr (Some method) = Err (ErrNoRule method)).
Proof.
  intros He Hm nr. subst nr.
  destruct (rule_ops_sorted ops _ (new_router_sorted cfg)) as [Hs Hc].
  set (nr := rule_ops ops (NewNamespaceRouter cfg)) in *.
  unfold RouteRequest, ValidateRequest. rewrite Hc, bool_decide_false by done. cbn [config NewNamespaceRouter].
  rewrite He. cbn [negb].
  destruct (List.find (matchesRule method) (rules nr)) as [r|] eqn:E.
  - left. destruct (find_sorted _ _ _ Hs E) as (Hin & Hp & Hmin). exists r. split_and!; try done.
    assert (existsb (matchesRule method) (rules nr) = true) as ->; [|done].
    apply existsb_exists. exists r. by rewrite <- list_elem_of_In.
  - right. assert (forall r, r ∈ rules nr -> matchesRule method r = false) as Hnone.
    { intros r Hr. apply (List.find_none _ _ E). by apply list_elem_of_In. }
    split_and!; [done..|].
    assert (existsb (matchesRule method) (rules nr) = false) as ->; [|done].
    apply not_true_is_false. intros (r & Hr & Hp)%existsb_exists.
    apply list_elem_of_In in Hr. specialize (Hnone r Hr). congruence.
Qed.

(** Removing a pattern deletes all rules with it, keeps every other rule and reports the number
    deleted; removing a pattern that was just added restores the rules, when no other rule had it. *)
Lemma RemoveRule_AddRule (r : NamespaceRoutingRule) (nr nr' : NamespaceRouter) :
  AddRule r nr = Ok nr' -> (forall e, e ∈ rules nr -> Pattern e <> Pattern r) ->
  RemoveRule (Pattern r) nr' = (1, nr).
Proof.
  intros Ha Hf. destruct nr as [c rs]. cbn in Hf.
  assert (exists r', Pattern r' = Pattern r /\ nr' = {| config := c; rules := insert_rule r' rs |}) as (r' & Hp & ->).
  { unfold AddRule in Ha. destruct (bool_decide _); [simplify_eq; by exists r|].
    destruct (Compile (Pattern r)) as [re|]; simplify_eq. by exists (with_regex r (Some re)). }
  unfold RemoveRule; cbn. rewrite <- Hp in *.
  assert (List.filter (fun e => negb (bool_decide (Pattern e = Pattern r'))) (insert_rule r' rs) = rs) as ->.
  { clear Ha. induction rs as [|e rs IH]; cbn; [by rewrite bool_decide_true|].
    assert (List.filter (fun e => negb (bool_decide (Pattern e = Pattern r'))) rs = rs) as Hid.
    { apply List.forallb_filter_id, List.forallb_forall. intros x Hx.
      rewrite bool_decide_false; [done|]. apply Hf. apply list_elem_of_In in Hx. set_solver. }
    destruct (Z.ltb_spec (Priority r') (Priority e)); cbn;
      rewrite ?(bool_decide_true (Pattern r' = Pattern r')), (bool_decide_false (Pattern e = Pattern r'))
        by (done || (apply Hf; set_solver)); cbn; f_equal; [done|].
    apply IH. intros x Hx. apply Hf. set_solver. }
  f_equal. unfold zlen. rewrite (Permutation_length (insert_rule_perm r' rs)). cbn. lia.
Qed.

(** [ExtractNamespace] never returns an empty namespace, and a method that is not a system method
    and has a dot after its first byte is split at its first dot. *)
Lemma ExtractNamespace_dotted (method : string) :
  ExtractNamespace method <> EmptyString /\
  (method <> "initialize" -> HasPrefix method "tools/" = false -> 0 < IndexByte method "."%char ->
   exists rest, method = (ExtractNamespace method +:+ String "."%char rest)%string /\
     str_mem "."%char (ExtractNamespace method) = false).
Proof.
  assert (forall i s, 0 < i -> s <> EmptyString -> str_take (Z.to_nat i) s <> EmptyString) as Htake.
  { intros i [|a s] Hi Hs; [done|]. destruct (Z.to_nat i) eqn:E; [lia|done]. }
  unfold ExtractNamespace. split.
  - destruct (bool_decide_reflect (method = EmptyString)) as [|Hne]; [done|].
    case_tests; try done; by apply Htake.
  - intros Hi Ht Hd. rewrite bool_decide_false by (by intros ->).
    rewrite bool_decide_false, Ht by done. cbn [orb].
    rewrite (proj2 (Z.ltb_lt _ _) Hd). apply IndexByte_spec. lia.
Qed.

End Routing.

(** ** An executable instance: anchored literal patterns

    The patterns of the default rules have the forms [^literal$] and
    [^literal.*], the literal with escaped punctuation.  For these, matching is
    equality and prefix test. *)

Inductive anchored := Exactly (s : string) | StartsWith (s : string).

(** The literal after the anchor: up to [$] or [.*] at the end of the pattern. *)
Fixpoint parse_literal (p : string) : option anchored :=
  match p with
  | "$" => Some (Exactly EmptyString)
  | ".*" => Some (StartsWith EmptyString)
  | String "\" (String c p') =>
      match parse_literal p' with
      | Some (Exactly s) => Some (Exactly (String c s))
      | Some (StartsWith s) => Some (StartsWith (String c s))
      | None => None
      end
  | String c p' =>
      if str_mem c "\.+*?()|[]{}^$" then None
      else match parse_literal p' with
           | Some (Exactly s) => Some (Exactly (String c s))
           | Some (StartsWith s) => Some (StartsWith (String c s))
           | None => None
           end
  | EmptyString => None
  end.

Definition compile_anchored (p : string) : option anchored :=
  match p with
  | String "^" p' => parse_literal p'
  | _ => None
  end.

Definition match_anchored (r : anchored) (s : string) : bool :=
  match r with
  | Exactly t => String.eqb s t
  | StartsWith t => HasPrefix s t
  end.

(** The part of a string before its first newline: what [.*] takes. *)
Fixpoint line_of (s : string) : string :=
  match s with
  | EmptyString => EmptyString
  | String c s' => if Ascii.eqb c "010"%char then EmptyString else String c (line_of s')
  end.

Definition submatch_anchored (r : anchored) (s : string) : list string :=
  if match_anchored r s
  then match r with
       | Exactly t => [t]
       | StartsWith t => [(t +:+ line_of (String.substring (String.length t) (String.length s) s))%string]
       end
  else [].

#[export] Program Instance AnchoredLiteral : Regexp := {|
  regexp := anchored;
  Compile := compile_anchored;
  MatchString := match_anchored;
  FindStringSubmatch := submatch_anchored;
|}.
Next Obligation. intros r s. unfold submatch_anchored. by destruct (match_anchored r s), r. Qed.

Definition default_router : NamespaceRouter := NewNamespaceRouter {| Enabled := true; Rules := [] |}.

(** The method prefixes of the default rules with their tags. *)
Definition default_prefixes : list (string * list string) :=
  [("tools/", ["tools"; "default"]); ("prompts/", ["prompts"; "default"]);
   ("resources/", ["resources"; "default"]); ("docker.", ["docker"; "default"]);
   ("k8s.", ["k8s"; "default"]); ("fs.", ["fs"; "default"]); ("web.", ["web"; "default"]);
   ("db.", ["db"; "default"]); ("fs/", ["fs"; "default"]); ("web/", ["web"; "default"]);
   ("db/", ["db"; "default"])].

(** The default rules route every method of a known namespace (tools/, prompts/, resources/,
    docker., k8s., fs., web., db., fs/, web/, db/) to the tags of that namespace, whatever follows
    the prefix. *)
Lemma default_rules_route (prefix method : string) (tags : list string) :
  (prefix, tags) ∈ default_prefixes ->
  RouteRequest default_router (prefix +:+ method)%string = Ok tags.
Proof.
  intros Hin. apply list_elem_of_In in Hin. cbn in Hin.
  destruct_or?; simplify_eq; done.
Qed.

Lemma default_rules_route_witness :
  RouteRequest default_router "docker.ps" = Ok ["docker"; "default"].
Proof. apply (default_rules_route "docker." "ps" ["docker"; "default"]). vm_compute. repeat constructor. Defined.

Definition custom : NamespaceRoutingRule :=
  {| Pattern := "^git/.*"; Tags := ["git"]; Priority := 2; Description := ""; regex := None |}.

Lemma NewNamespaceRouter_priorities : map Priority (rules default_router) = [1; 2; 2; 2; 3; 3; 3; 3; 3; 3; 3; 3].
Proof. done. Qed.

Lemma RouteRequest_by_priority_witness :
  (exists r, r ∈ rules (rule_ops [Add custom] default_router) /\ matchesRule "git/log" r = true /\
     (forall r', r' ∈ rules (rule_ops [Add custom] default_router) -> matchesRule "git/log" r' = true ->
        Priority r <= Priority r') /\
     RouteRequest (rule_ops [Add custom] default_router) "git/log" = Ok (expandTags "git/log" r) /\
     ValidateRequest (rule_ops [Add custom] default_router) (Some "git/log") = Ok tt) \/
  ((forall r, r ∈ rules (rule_ops [Add custom] default_router) -> matchesRule "git/log" r = false) /\
     RouteRequest (rule_ops [Add custom] default_router) "git/log" = Ok [] /\
     ValidateRequest (rule_ops [Add custom] default_router) (Some "git/log") = Err (ErrNoRule "git/log")).
Proof. apply (RouteRequest_by_priority {| Enabled := true; Rules := [] |} [Add custom] "git/log"); done. Defined.

Lemma RemoveRule_AddRule_witness :
  RemoveRule "^git/.*" (rule_ops [Add custom] default_router) = (1, default_router).
Proof.
  apply (RemoveRule_AddRule custom default_router); [done|].
  intros e He. apply list_elem_of_In in He. vm_compute in He. destruct_or?; subst; done.
Defined.

Lemma ExtractNamespace_dotted_witness :
  ExtractNamespace "docker.ps" <> EmptyString /\
  exists rest, "docker.ps" = (ExtractNamespace "docker.ps" +:+ String "."%char rest)%string /\
     str_mem "."%char (ExtractNamespace "docker.ps") = false.
Proof.
  destruct (ExtractNamespace_dotted "docker.ps") as [H1 H2]. split; [exact H1|]. apply H2; done.
Defined.

(** Rules of equal priority may change their relative order in the exchange sort. *)
Example exchange_sort_unstable :
  map Pattern (exchange_sort 3 [mk "a" [] 2 ""; mk "b" [] 2 ""; mk "c" [] 1 ""]) = ["c"; "b"; "a"].
Proof. done. Qed.

(** With ten groups the placeholder of the tenth is taken for the first one
    followed by a zero. *)
Example expand_tenth_group :
  expand_groups 1 ["a"; "b"; "c"; "d"; "e"; "f"; "g"; "h"; "i"; "j"] "$10" = "a0".
Proof. by vm_compute. Qed.
