(* ===== verification/Hybrid.v ===== *)
(** * Load balancing across protocols

    [services/gateway/pkg/loadbalancer/hybrid.go]: endpoints grouped by the
    protocol detected from their metadata, scheme and address, a preference order
    on protocols, and one of three strategies inside a group. *)
From S2P Require Import Prelude LoadBalancer.
#[local] Open Scope Z_scope.

Module Hybrid.

(** ** State and configuration *)

Definition strategyLeastConnections : string := "least_connections".
Definition protocolHTTP : string := "http".
Definition protocolStdio : string := "stdio".

Record HybridLoadBalancer := mkHybrid {
  endpoints : list ptr;
  protocolGroups : gmap string (list ptr);
  protocolPref : list string;
  strategy : string;
  connections : gmap string Z;
  current : Z;
  healthAware : bool;
}.

Record HybridConfig := mkHybridConfig {
  Strategy : string;
  HealthAware : bool;
  ProtocolPreference : list string;
  FallbackToUnhealthy : bool;
}.

Definition with_current (c : Z) (h : HybridLoadBalancer) : HybridLoadBalancer :=
  {| endpoints := endpoints h; protocolGroups := protocolGroups h; protocolPref := protocolPref h;
     strategy := strategy h; connections := connections h; current := c; healthAware := healthAware h |}.

Definition with_connections (m : gmap string Z) (h : HybridLoadBalancer) : HybridLoadBalancer :=
  {| endpoints := endpoints h; protocolGroups := protocolGroups h; protocolPref := protocolPref h;
     strategy := strategy h; connections := m; current := current h; healthAware := healthAware h |}.

(** A missing key of a map of slices reads as the nil slice. *)
Definition group (m : gmap string (list ptr)) (protocol : string) : list ptr := default [] (m !! protocol).

(** ** Protocol groups *)

Definition detectProtocol (ep : Endpoint) : string :=
  match Metadata ep !! "protocol" with
  | Some protocol => protocol
  | None =>
      if bool_decide (Scheme ep = "ws") || bool_decide (Scheme ep = "wss") then "websocket"
      else if bool_decide (Scheme ep = protocolHTTP) || bool_decide (Scheme ep = "https") then
        if bool_decide (Path ep = "/events") || bool_decide (Metadata ep !! "sse" = Some "true") then "sse"
        else protocolHTTP
      else if bool_decide (Scheme ep = protocolStdio) then protocolStdio
      else if bool_decide (Address ep = "localhost") || (Port ep =? 0) then protocolStdio
      else protocolHTTP
  end.

(** [updateProtocolGroups]: endpoints appended to the group of their protocol. *)
Definition updateProtocolGroups (st : store) (eps : list ptr) : gmap string (list ptr) :=
  fold_left (fun m ep => let protocol := detectProtocol (st ep) in
                         <[protocol := group m protocol ++ [ep]]> m) eps ∅.

Definition NewHybridLoadBalancer (st : store) (eps : list ptr) (config : HybridConfig) : HybridLoadBalancer :=
  {| endpoints := eps;
     protocolGroups := updateProtocolGroups st eps;
     protocolPref := if zlen (ProtocolPreference config) =? 0
                     then [protocolHTTP; "websocket"; protocolStdio; "sse"] else ProtocolPreference config;
     strategy := if bool_decide (Strategy config = EmptyString) then "round_robin" else Strategy config;
     connections := ∅; current := 0; healthAware := HealthAware config |}.

(** ** Strategies *)

(** The test every strategy applies to an endpoint. *)
Definition usable (st : store) (h : HybridLoadBalancer) (ep : ptr) : bool :=
  negb (healthAware h) || IsHealthy (st ep).

Definition nextRoundRobin (st : store) (eps : list ptr) (h : HybridLoadBalancer) : option ptr * HybridLoadBalancer :=
  if zlen eps =? 0 then (None, h)
  else let start := u64_add (current h) 1 in
       (rr_scan (usable st h) eps start 0 (length eps), with_current start h).

(** The loop that collects the endpoints with the fewest connections. *)
Definition lc_candidates_step (st : store) (h : HybridLoadBalancer) (acc : list ptr * Z) (ep : ptr) : list ptr * Z :=
  let '(candidates, minConns) := acc in
  if healthAware h && negb (IsHealthy (st ep)) then acc
  else let conns := conns_of (connections h) (Address (st ep)) in
       if conns <? minConns then ([ep], conns)
       else if conns =? minConns then (candidates ++ [ep], minConns)
       else acc.

Definition nextLeastConnections (st : store) (eps : list ptr) (h : HybridLoadBalancer) : option ptr * HybridLoadBalancer :=
  if zlen eps =? 0 then (None, h)
  else let '(candidates, _) := fold_left (lc_candidates_step st h) eps ([], max_i64) in
       if zlen candidates =? 0 then (None, h)
       else if 1 <? zlen candidates then
         let c := u64_add (current h) 1 in
         (candidates !! Z.to_nat (c mod zlen candidates), with_current c h)
       else (head candidates, h).

Definition getEndpointWeight (ep : Endpoint) : Z := if Weight ep <=? 0 then 1 else Weight ep.

Definition getHealthyWeightedEndpoints (st : store) (eps : list ptr) (h : HybridLoadBalancer) : list ptr * Z :=
  fold_left (fun acc ep =>
    let '(healthyEndpoints, totalWeight) := acc in
    if healthAware h && negb (IsHealthy (st ep)) then acc
    else (healthyEndpoints ++ [ep], i64_add totalWeight (getEndpointWeight (st ep)))) eps ([], 0).

Fixpoint weight_scan (st : store) (eps : list ptr) (currentWeight position : Z) : option ptr :=
  match eps with
  | [] => None
  | ep :: eps =>
      let currentWeight := i64_add currentWeight (getEndpointWeight (st ep)) in
      if position <? currentWeight then Some ep else weight_scan st eps currentWeight position
  end.

Definition selectWeightedEndpoint (st : store) (eps : list ptr) (totalWeight : Z) (h : HybridLoadBalancer)
    : option ptr * HybridLoadBalancer :=
  let counter := u64_add (current h) 1 in
  let position := wrap_s 64 (counter mod wrap_u 64 totalWeight) in
  (match weight_scan st eps 0 position with
   | Some ep => Some ep
   | None => head eps
   end, with_current counter h).

Definition nextWeighted (st : store) (eps : list ptr) (h : HybridLoadBalancer) : option ptr * HybridLoadBalancer :=
  if zlen eps =? 0 then (None, h)
  else let '(healthyEndpoints, totalWeight) := getHealthyWeightedEndpoints st eps h in
       if (zlen healthyEndpoints =? 0) || (totalWeight =? 0) then (None, h)
       else selectWeightedEndpoint st healthyEndpoints totalWeight h.

Definition applyStrategy (st : store) (eps : list ptr) (h : HybridLoadBalancer) : option ptr * HybridLoadBalancer :=
  if bool_decide (strategy h = strategyLeastConnections) then nextLeastConnections st eps h
  else if bool_decide (strategy h = "weighted") then nextWeighted st eps h
  else nextRoundRobin st eps h.

(** ** Selection *)

Definition trackConnection (st : store) (ep : ptr) (h : HybridLoadBalancer) : HybridLoadBalancer :=
  if bool_decide (strategy h = strategyLeastConnections) then
    let a := Address (st ep) in
    with_connections (<[a := i64_add (conns_of (connections h) a) 1]> (connections h)) h
  else h.

Definition selectFromProtocol (st : store) (protocol : string) (h : HybridLoadBalancer)
    : option ptr * HybridLoadBalancer :=
  let eps := group (protocolGroups h) protocol in
  if zlen eps =? 0 then (None, h)
  else match applyStrategy st eps h with
       | (None, h') => (None, h')
       | (Some ep, h') =>
           if healthAware h' && negb (IsHealthy (st ep)) then (None, h')
           else (Some ep, trackConnection st ep h')
       end.

Fixpoint selectFromPreferredProtocols (st : store) (prefs : list string) (h : HybridLoadBalancer)
    : option ptr * HybridLoadBalancer :=
  match prefs with
  | [] => (None, h)
  | protocol :: prefs =>
      match selectFromProtocol st protocol h with
      | (Some ep, h') => (Some ep, h')
      | (None, h') => selectFromPreferredProtocols st prefs h'
      end
  end.

Definition fallbackSelection (st : store) (h : HybridLoadBalancer) : option ptr * HybridLoadBalancer :=
  if negb (healthAware h) then nextRoundRobin st (endpoints h) h else (None, h).

Definition Next (st : store) (h : HybridLoadBalancer) : option ptr * HybridLoadBalancer :=
  if zlen (endpoints h) =? 0 then (None, h)
  else match selectFromPreferredProtocols st (protocolPref h) h with
       | (Some ep, h') => (Some ep, h')
       | (None, h') => fallbackSelection st h'
       end.

Definition UpdateEndpoints (st : store) (eps : list ptr) (h : HybridLoadBalancer) : HybridLoadBalancer :=
  {| endpoints := eps; protocolGroups := updateProtocolGroups st eps; protocolPref := protocolPref h;
     strategy := strategy h;
     connections := if bool_decide (strategy h = strategyLeastConnections)
                    then keep_counts st eps (connections h) else connections h;
     current := current h; healthAware := healthAware h |}.

Definition ReleaseConnection (address : string) (h : HybridLoadBalancer) : HybridLoadBalancer :=
  if negb (bool_decide (strategy h = "least_connections")) then h
  else with_connections (release address (connections h)) h.

(** ** Statistics *)

Record ProtocolStats := mkPS {
  Protocol : string;
  TotalCount : Z;
  HealthyCount : Z;
  UnhealthyCount : Z;
  TotalWeight : Z;
  Preference : Z;
}.

Fixpoint preference_from (i : Z) (prefs : list string) (protocol : string) : Z :=
  match prefs with
  | [] => i + 1
  | pref :: prefs => if bool_decide (pref = protocol) then i + 1 else preference_from (i + 1) prefs protocol
  end.

Definition getProtocolPreference (protocol : string) (h : HybridLoadBalancer) : Z :=
  preference_from 0 (protocolPref h) protocol.

Definition group_stats (st : store) (h : HybridLoadBalancer) (protocol : string) (eps : list ptr) : ProtocolStats :=
  {| Protocol := protocol;
     TotalCount := zlen eps;
     HealthyCount := count (fun p => IsHealthy (st p)) eps;
     UnhealthyCount := count (fun p => negb (IsHealthy (st p))) eps;
     TotalWeight := fold_left (fun t p => i64_add t (getEndpointWeight (st p))) eps 0;
     Preference := getProtocolPreference protocol h |}.

Definition GetProtocolStats (st : store) (h : HybridLoadBalancer) : gmap string ProtocolStats :=
  map_imap (fun protocol eps => Some (group_stats st h protocol eps)) (protocolGroups h).

(** ** Groups *)

Definition of_protocol (st : store) (protocol : string) (p : ptr) : bool :=
  bool_decide (detectProtocol (st p) = protocol).

Lemma updateProtocolGroups_acc st eps m protocol :
  group (fold_left (fun m ep => let protocol := detectProtocol (st ep) in
                                <[protocol := group m protocol ++ [ep]]> m) eps m) protocol =
  group m protocol ++ List.filter (of_protocol st protocol) eps.
Proof.
  revert m; induction eps as [|ep eps IH]; intros m; cbn; [by rewrite app_nil_r|].
  rewrite IH. unfold of_protocol at 2. unfold group at 1.
  destruct (decide (detectProtocol (st ep) = protocol)) as [->|Hne].
  - rewrite lookup_insert, bool_decide_true, decide_True by done. cbn. by rewrite <- app_assoc.
  - by rewrite lookup_insert_ne, bool_decide_false.
Qed.

Lemma updateProtocolGroups_group st eps protocol :
  group (updateProtocolGroups st eps) protocol = List.filter (of_protocol st protocol) eps.
Proof. unfold updateProtocolGroups. by rewrite updateProtocolGroups_acc. Qed.

(** ** Strategies pick a usable endpoint exactly when the group has one *)

Fixpoint total_weight (st : store) (eps : list ptr) : Z :=
  match eps with [] => 0 | p :: eps => getEndpointWeight (st p) + total_weight st eps end.

Lemma getEndpointWeight_pos e : 1 <= getEndpointWeight e.
Proof. unfold getEndpointWeight. case_tests; lia. Qed.

Lemma total_weight_nonneg st eps : 0 <= total_weight st eps.
Proof. induction eps as [|p eps IH]; cbn; [lia|]. pose proof (getEndpointWeight_pos (st p)). lia. Qed.

Lemma total_weight_filter st ok eps : total_weight st (List.filter ok eps) <= total_weight st eps.
Proof.
  induction eps as [|p eps IH]; cbn; [lia|].
  pose proof (getEndpointWeight_pos (st p)). destruct (ok p); cbn; lia.
Qed.

(** A selection [r] from the endpoints [eps]. *)
Definition picks (ok : ptr -> bool) (eps : list ptr) (r : option ptr) : Prop :=
  match r with
  | Some p => p ∈ eps /\ ok p = true
  | None => forall p, p ∈ eps -> ok p = false
  end.

Lemma picks_nil ok : picks ok [] None.
Proof. intros p Hp. set_solver. Qed.

Lemma negb_usable st h ep : healthAware h && negb (IsHealthy (st ep)) = negb (usable st h ep).
Proof. unfold usable. by destruct (healthAware h), (IsHealthy (st ep)). Qed.

Lemma nextRoundRobin_picks st eps h :
  0 <= current h -> current h + 1 + zlen eps <= 2 ^ 64 ->
  picks (usable st h) eps (fst (nextRoundRobin st eps h)).
Proof.
  intros H0 Hw. unfold nextRoundRobin. case_tests; [apply zlen_nil_inv in e as ->; apply picks_nil|]. cbn [fst].
  pose proof (zlen_nonneg eps). rewrite u64_add_small by lia.
  destruct (rr_scan _ _ _ _ _) as [p|] eqn:E; [by apply rr_scan_sound in E|].
  intros p Hp. destruct (usable st h p) eqn:Eu; [|done].
  destruct (rr_scan_complete (usable st h) eps (current h + 1)) as [q Hq]; [lia|lia|by exists p|congruence].
Qed.

(** The invariant of the candidate loop: the candidates are the usable endpoints
    seen so far whose count is the minimum. *)
Lemma lc_candidates_spec st h eps :
  (forall p, p ∈ eps -> conns_of (connections h) (Address (st p)) <= max_i64) ->
  let '(cs, mn) := fold_left (lc_candidates_step st h) eps ([], max_i64) in
  mn <= max_i64 /\
  (forall p, p ∈ cs -> p ∈ eps /\ usable st h p = true /\ conns_of (connections h) (Address (st p)) = mn) /\
  (forall p, p ∈ eps -> usable st h p = true -> mn <= conns_of (connections h) (Address (st p))) /\
  (cs = [] -> mn = max_i64 /\ forall p, p ∈ eps -> usable st h p = false).
Proof.
  intros Hmax. induction eps as [|p eps IH] using rev_ind; [cbn; split_and!; [lia|set_solver..]|].
  rewrite fold_left_app. cbn [fold_left].
  destruct (fold_left _ eps _) as [cs mn]. unfold lc_candidates_step. rewrite negb_usable.
  destruct IH as (Hle & Hin & Hmin & Hnil); [intros q Hq; apply Hmax; set_solver|].
  pose proof (Hmax p ltac:(set_solver)) as Hp.
  set (k := conns_of (connections h) (Address (st p))) in *.
  assert (forall q, q ∈ eps ++ [p] -> q ∈ eps \/ q = p) as Hsplit by set_solver.
  destruct (usable st h p) eqn:Eu; cbn [negb].
  2:{ split_and!; [done| | |].
      - intros q Hq. destruct (Hin q Hq) as (? & ? & ?). split_and!; [set_solver|done..].
      - intros q [?| ->]%Hsplit; [by apply Hmin|congruence].
      - intros [? ?]%Hnil. split; [done|]. intros q [?| ->]%Hsplit; auto. }
  case_tests.
  - split_and!; [lia| | |done].
    + intros q ->%list_elem_of_singleton. split_and!; [set_solver|done..].
    + intros q [?| ->]%Hsplit Hu; [|by subst k]. specialize (Hmin q ltac:(done) Hu). lia.
  - split_and!; [done| | |].
    + intros q [Hq|Hq%list_elem_of_singleton]%elem_of_app; [|subst q; split_and!; [set_solver|done..]].
      destruct (Hin q Hq) as (? & ? & ?). split_and!; [set_solver|done..].
    + intros q [?| ->]%Hsplit Hu; [by apply Hmin|]. subst k. lia.
    + intros Hc. by apply app_nil in Hc as [_ ?].
  - split_and!; [done| | |].
    + intros q Hq. destruct (Hin q Hq) as (? & ? & ?). split_and!; [set_solver|done..].
    + intros q [?| ->]%Hsplit Hu; [by apply Hmin|]. subst k. lia.
    + intros [? ?]%Hnil. lia.
Qed.

Lemma nextLeastConnections_picks st eps h :
  (forall p, p ∈ eps -> conns_of (connections h) (Address (st p)) <= max_i64) ->
  picks (usable st h) eps (fst (nextLeastConnections st eps h)).
Proof.
  intros Hmax. unfold nextLeastConnections.
  case_tests; [apply zlen_nil_inv in e as ->; apply picks_nil|].
  pose proof (lc_candidates_spec st h eps Hmax) as Hc.
  destruct (fold_left _ eps _) as [cs mn]. destruct Hc as (_ & Hin & _ & Hnil).
  destruct (Z.eqb_spec (zlen cs) 0) as [->%zlen_nil_inv|Hne]; [exact (proj2 (Hnil eq_refl))|].
  case_tests; cbn [fst].
  - destruct (lookup_lt_is_Some_2 cs (Z.to_nat (u64_add (current h) 1 mod zlen cs))) as [p Hp].
    { unfold zlen in *. pose proof (Z.mod_pos_bound (u64_add (current h) 1) (Z.of_nat (length cs))). lia. }
    rewrite Hp. apply list_elem_of_lookup_2 in Hp. destruct (Hin p Hp) as (? & ? & _). done.
  - destruct cs as [|p cs]; [done|]. cbn. destruct (Hin p ltac:(set_solver)) as (? & ? & _). done.
Qed.

Lemma getHealthyWeightedEndpoints_spec st eps h :
  total_weight st eps <= max_i64 ->
  getHealthyWeightedEndpoints st eps h =
    (List.filter (usable st h) eps, total_weight st (List.filter (usable st h) eps)).
Proof.
  unfold getHealthyWeightedEndpoints.
  enough (forall acc t, 0 <= t -> t + total_weight st eps <= max_i64 ->
    fold_left (fun acc ep =>
      let '(healthyEndpoints, totalWeight) := acc in
      if healthAware h && negb (IsHealthy (st ep)) then acc
      else (healthyEndpoints ++ [ep], i64_add totalWeight (getEndpointWeight (st ep)))) eps (acc, t) =
    (acc ++ List.filter (usable st h) eps, t + total_weight st (List.filter (usable st h) eps))) as H.
  { intros Hb. by rewrite H by lia. }
  induction eps as [|p eps IH]; intros acc t Ht Hb; cbn.
  { by rewrite app_nil_r, Z.add_0_r. }
  cbn in Hb. pose proof (getEndpointWeight_pos (st p)). pose proof (total_weight_nonneg st eps).
  rewrite negb_usable. destruct (usable st h p); cbn [negb].
  - rewrite i64_add_small by (unfold min_i64; lia). rewrite IH by lia.
    rewrite <- app_assoc. cbn. f_equal. lia.
  - apply IH; lia.
Qed.

Lemma weight_scan_sound st eps cw pos p : weight_scan st eps cw pos = Some p -> p ∈ eps.
Proof.
  revert cw; induction eps as [|q eps IH]; intros cw; cbn; [done|].
  case_tests; [intros [= ->]; set_solver|]. intros ?%IH. set_solver.
Qed.

Lemma nextWeighted_picks st eps h :
  total_weight st eps <= max_i64 -> picks (usable st h) eps (fst (nextWeighted st eps h)).
Proof.
  intros Hb. unfold nextWeighted. case_tests; [apply zlen_nil_inv in e as ->; apply picks_nil|].
  rewrite getHealthyWeightedEndpoints_spec by done.
  destruct (List.filter (usable st h) eps) as [|q hs] eqn:Ef; [exact (proj1 (filter_nil_iff _ _) Ef)|].
  rewrite <- Ef. pose proof (getEndpointWeight_pos (st q)). pose proof (total_weight_nonneg st hs).
  replace (total_weight st (List.filter (usable st h) eps) =? 0) with false
    by (rewrite Ef; cbn; symmetry; apply Z.eqb_neq; lia).
  replace (zlen (List.filter (usable st h) eps) =? 0) with false
    by (rewrite Ef; unfold zlen; cbn; symmetry; apply Z.eqb_neq; lia).
  cbn [orb selectWeightedEndpoint fst].
  assert (forall p, p ∈ List.filter (usable st h) eps -> picks (usable st h) eps (Some p)) as Hok
    by (intros p [? ?]%elem_of_filter_bool; done).
  unfold selectWeightedEndpoint. cbn [fst].
  destruct (weight_scan _ _ _ _) as [p|] eqn:E; [by apply Hok; apply weight_scan_sound in E|].
  rewrite Ef. apply Hok. rewrite Ef. set_solver.
Qed.

(** ** Selection across protocols *)

(** What a selection leaves unchanged; the counter advances by at most [k]. *)
Record frame (k : Z) (h h' : HybridLoadBalancer) : Prop := {
  fr_endpoints : endpoints h' = endpoints h;
  fr_groups : protocolGroups h' = protocolGroups h;
  fr_pref : protocolPref h' = protocolPref h;
  fr_strategy : strategy h' = strategy h;
  fr_health : healthAware h' = healthAware h;
  fr_current : current h <= current h' <= current h + k;
}.

Lemma frame_trans a b h1 h2 h3 : frame a h1 h2 -> frame b h2 h3 -> frame (a + b) h1 h3.
Proof. intros [] []. split; [congruence..|lia]. Qed.

Lemma frame_refl h : frame 1 h h.
Proof. split; [done..|lia]. Qed.

Lemma frame_usable k st h h' : frame k h h' -> usable st h' = usable st h.
Proof. intros []. unfold usable. by rewrite fr_health0. Qed.

Lemma applyStrategy_frame st eps h :
  0 <= current h -> current h + 1 < 2 ^ 64 ->
  frame 1 h (snd (applyStrategy st eps h)) /\ connections (snd (applyStrategy st eps h)) = connections h.
Proof.
  intros H0 Hw.
  assert (frame 1 h (with_current (u64_add (current h) 1) h)) as Hf.
  { rewrite u64_add_small by lia. split; [done..|cbn; lia]. }
  pose proof (frame_refl h).
  unfold applyStrategy, nextLeastConnections, nextWeighted, nextRoundRobin, selectWeightedEndpoint.
  destruct (fold_left _ _ _) as [cs mn], (getHealthyWeightedEndpoints _ _ _) as [hs t].
  by case_tests.
Qed.

(** Bounds under which no machine integer wraps during a selection. *)
Record no_wrap (st : store) (h : HybridLoadBalancer) (eps : list ptr) : Prop := {
  nw_current : 0 <= current h;
  nw_counter : current h + 1 + zlen eps <= 2 ^ 64;
  nw_weight : total_weight st eps <= max_i64;
  nw_conns : forall a, conns_of (connections h) a <= max_i64;
}.

Lemma applyStrategy_picks st eps h :
  no_wrap st h eps -> picks (usable st h) eps (fst (applyStrategy st eps h)).
Proof.
  intros []. unfold applyStrategy. case_tests.
  - by apply nextLeastConnections_picks.
  - by apply nextWeighted_picks.
  - by apply nextRoundRobin_picks.
Qed.

(** The groups hold the endpoints of each protocol, in list order. *)
Definition grouped (st : store) (h : HybridLoadBalancer) : Prop :=
  forall protocol, group (protocolGroups h) protocol = List.filter (of_protocol st protocol) (endpoints h).

Lemma no_wrap_group st h protocol :
  grouped st h -> no_wrap st h (endpoints h) -> no_wrap st h (group (protocolGroups h) protocol).
Proof.
  intros Hg []. rewrite Hg.
  pose proof (total_weight_filter st (of_protocol st protocol) (endpoints h)).
  pose proof (count_le_zlen (of_protocol st protocol) (endpoints h)) as Hc.
  unfold count in Hc. fold (zlen (List.filter (of_protocol st protocol) (endpoints h))) in Hc.
  split; [done|lia|lia|done].
Qed.

(** No usable endpoint speaks [protocol]. *)
Definition none_usable (st : store) (h : HybridLoadBalancer) (protocol : string) : Prop :=
  forall q, q ∈ endpoints h -> detectProtocol (st q) = protocol -> usable st h q = false.

Lemma selectFromProtocol_spec st protocol h :
  grouped st h -> no_wrap st h (endpoints h) ->
  match selectFromProtocol st protocol h with
  | (Some p, _) => p ∈ endpoints h /\ detectProtocol (st p) = protocol /\ usable st h p = true
  | (None, h') => none_usable st h protocol /\ frame 1 h h' /\ connections h' = connections h
  end.
Proof.
  intros Hg Hn. unfold selectFromProtocol, none_usable.
  pose proof (applyStrategy_picks st _ h (no_wrap_group st h protocol Hg Hn)) as Hp.
  destruct (Z.eqb_spec (zlen (group (protocolGroups h) protocol)) 0) as [He%zlen_nil_inv|He].
  { split; [|split; [apply frame_refl|done]]. intros q Hq Hd. rewrite Hg, filter_nil_iff in He.
    specialize (He q Hq). unfold of_protocol in He. by apply bool_decide_eq_false in He. }
  assert (zlen (endpoints h) <> 0) as Hne by (rewrite Hg in He; intros H%zlen_nil_inv; by rewrite H in He).
  pose proof (zlen_nonneg (endpoints h)).
  destruct (applyStrategy_frame st (group (protocolGroups h) protocol) h) as [Hf Hc]; [apply Hn|destruct Hn; lia|].
  destruct (applyStrategy _ _ _) as [[p|] h']; cbn [fst snd] in *.
  - destruct Hp as [Hin Hu]. rewrite negb_usable, (frame_usable 1 st h h' Hf), Hu. cbn.
    rewrite Hg in Hin. apply elem_of_filter_bool in Hin as [Hd Hin].
    split_and!; [done|by apply bool_decide_eq_true in Hd|done].
  - split; [|done]. intros q Hq Hd. apply Hp. rewrite Hg, elem_of_filter_bool.
    split; [by apply bool_decide_eq_true|done].
Qed.

Lemma none_usable_frame k st h h' protocol : frame k h h' -> none_usable st h' protocol -> none_usable st h protocol.
Proof.
  intros Hf H q. unfold none_usable in H. rewrite (fr_endpoints _ _ _ Hf), (frame_usable _ st h h' Hf) in H. apply H.
Qed.

Lemma grouped_frame k st h h' : frame k h h' -> grouped st h -> grouped st h'.
Proof. intros [] Hg protocol. by rewrite fr_groups0, fr_endpoints0. Qed.

(** The counter budget of a pass over [n] protocols. *)
Definition budget (st : store) (h : HybridLoadBalancer) (n : Z) : Prop :=
  no_wrap st h (endpoints h) /\ current h + n + 1 + zlen (endpoints h) <= 2 ^ 64.

Lemma budget_frame st h h' n :
  0 <= n -> budget st h (n + 1) -> frame 1 h h' -> connections h' = connections h -> budget st h' n.
Proof.
  intros Hn [[] Hb] [] Hc. unfold budget. rewrite fr_endpoints0.
  split; [split|]; rewrite ?Hc; try done; lia.
Qed.

Lemma selectFromPreferredProtocols_spec st prefs h :
  grouped st h -> budget st h (zlen prefs) ->
  match selectFromPreferredProtocols st prefs h with
  | (Some p, _) => p ∈ endpoints h /\ usable st h p = true /\
      exists i, prefs !! i = Some (detectProtocol (st p)) /\
        forall j protocol, (j < i)%nat -> prefs !! j = Some protocol -> none_usable st h protocol
  | (None, h') => (forall protocol, protocol ∈ prefs -> none_usable st h protocol) /\
      frame (zlen prefs) h h' /\ budget st h' 0
  end.
Proof.
  revert h; induction prefs as [|pr prefs IH]; intros h Hg Hb; cbn [selectFromPreferredProtocols].
  { split_and!; [set_solver|split; [done..|unfold zlen; cbn; lia]|done]. }
  replace (zlen (pr :: prefs)) with (zlen prefs + 1) in * by (unfold zlen; cbn; lia).
  pose proof (selectFromProtocol_spec st pr h Hg (proj1 Hb)) as Hs.
  destruct (selectFromProtocol st pr h) as [[p|] h'].
  { destruct Hs as (? & Hd & ?). split_and!; [done..|]. exists 0%nat. split; [by rewrite Hd|lia]. }
  destruct Hs as (Hnone & Hf & Hc).
  specialize (IH h' (grouped_frame _ _ _ _ Hf Hg) (budget_frame st h h' _ (zlen_nonneg _) Hb Hf Hc)).
  rewrite (fr_endpoints _ _ _ Hf), (frame_usable _ st h h' Hf) in IH.
  destruct (selectFromPreferredProtocols st prefs h') as [[p|] h''].
  - destruct IH as (? & ? & i & Hi & Hlt). split_and!; [done..|]. exists (S i). split; [done|].
    intros [|j] protocol Hj; cbn; [by intros [= <-]|]. intros Hp.
    eapply none_usable_frame; [done|]. eapply Hlt; [|done]. lia.
  - destruct IH as (Hall & Hf' & Hb'). split_and!; [|rewrite Z.add_comm; by eapply frame_trans|done].
    intros protocol [->|Hp]%elem_of_cons; [done|]. eapply none_usable_frame; [done|]. by apply Hall.
Qed.

(** ** Operations and the states they reach *)

Inductive HOp :=
| HNext
| HUpdate (eps : list ptr)
| HRelease (address : string)
| HHealth (p : ptr) (healthy : bool).   (* the health checker: Endpoint.SetHealthy *)

Definition set_health (p : ptr) (b : bool) (st : store) : store :=
  fun q => if decide (q = p) then SetHealthy b (st q) else st q.

Definition h_step (s : store * HybridLoadBalancer) (o : HOp) : store * HybridLoadBalancer :=
  let '(st, h) := s in
  match o with
  | HNext => (st, snd (Next st h))
  | HUpdate eps => (st, UpdateEndpoints st eps h)
  | HRelease a => (st, ReleaseConnection a h)
  | HHealth p b => (set_health p b st, h)
  end.

Definition h_run (st : store) (eps : list ptr) (config : HybridConfig) (ops : list HOp) : store * HybridLoadBalancer :=
  fold_left h_step ops (st, NewHybridLoadBalancer st eps config).

(** A selection changes the state only through the counter and the tracked
    connections. *)
Lemma Next_preserves (P : HybridLoadBalancer -> Prop) st h :
  (forall h, P h -> P (with_current (u64_add (current h) 1) h)) ->
  (forall h p, P h -> P (trackConnection st p h)) ->
  P h -> P (snd (Next st h)).
Proof.
  intros Hcur Htrack HP.
  assert (forall eps h, P h -> P (snd (nextRoundRobin st eps h))) as Hrr
    by (intros; unfold nextRoundRobin; case_tests; cbn; auto).
  assert (forall eps h, P h -> P (snd (applyStrategy st eps h))) as Happ.
  { intros eps h' HP'. unfold applyStrategy, nextLeastConnections, nextWeighted, selectWeightedEndpoint.
    destruct (fold_left _ _ _) as [cs mn], (getHealthyWeightedEndpoints _ _ _) as [hs t].
    case_tests; cbn; auto. }
  assert (forall pr h, P h -> P (snd (selectFromProtocol st pr h))) as Hsel.
  { intros pr h' HP'. unfold selectFromProtocol. specialize (Happ (group (protocolGroups h') pr) h' HP').
    destruct (applyStrategy _ _ _) as [[p|] h'']; case_tests; cbn in *; auto. }
  assert (forall prs h, P h -> P (snd (selectFromPreferredProtocols st prs h))) as Hprefs.
  { induction prs as [|pr prs IH]; intros h' HP'; cbn; [done|].
    specialize (Hsel pr h' HP'). destruct (selectFromProtocol _ _ _) as [[p|] h'']; cbn in *; auto. }
  unfold Next, fallbackSelection. specialize (Hprefs (protocolPref h) h HP).
  destruct (selectFromPreferredProtocols _ _ _) as [[p|] h']; case_tests; cbn in *; auto.
Qed.

Record h_inv (st : store) (h : HybridLoadBalancer) : Prop := {
  inv_grouped : grouped st h;
  inv_current : 0 <= current h < 2 ^ 64;
  inv_conns : forall a, conns_of (connections h) a <= max_i64;
}.

Lemma i64_add_le_max a b : i64_add a b <= max_i64.
Proof.
  unfold i64_add, wrap_s, max_i64. pose proof (Z.mod_pos_bound (a + b + 2 ^ (64 - 1)) (2 ^ 64)). lia.
Qed.

Lemma conns_of_insert m a b c : conns_of (<[a := c]> m) b = if decide (a = b) then c else conns_of m b.
Proof. unfold conns_of. case_decide; subst; [by rewrite lookup_insert_eq|by rewrite lookup_insert_ne]. Qed.

Lemma conns_of_release m a b : conns_of (release a m) b <= conns_of m b.
Proof.
  unfold release. destruct (m !! a) as [c|] eqn:E; [|lia]. case_tests; [|lia].
  rewrite conns_of_insert. case_decide; [|lia]. subst. unfold conns_of. rewrite E. cbn. lia.
Qed.

Lemma keep_counts_le st eps old b :
  conns_of old b <= max_i64 -> conns_of (keep_counts st eps old) b <= max_i64.
Proof.
  intros Hb. unfold keep_counts.
  assert (conns_of ∅ b <= max_i64) as H by (unfold conns_of; rewrite lookup_empty; done).
  revert H. generalize (∅ : gmap string Z). induction eps as [|ep eps IH]; intros m Hm; cbn; [done|].
  apply IH. destruct (old !! Address (st ep)) as [c|] eqn:E; [|done].
  rewrite conns_of_insert. case_decide; [|done]. subst. unfold conns_of in Hb. by rewrite E in Hb.
Qed.

Lemma detectProtocol_SetHealthy b e : detectProtocol (SetHealthy b e) = detectProtocol e.
Proof. done. Qed.

Lemma of_protocol_set_health p b st protocol q : of_protocol (set_health p b st) protocol q = of_protocol st protocol q.
Proof. unfold of_protocol, set_health. by destruct (decide (q = p)). Qed.

Lemma h_step_inv s o : h_inv (fst s) (snd s) -> h_inv (fst (h_step s o)) (snd (h_step s o)).
Proof.
  destruct s as [st h]. destruct o as [|eps|a|p b]; cbn; intros Hi.
  - apply Next_preserves; [| |done].
    + intros h' []. split; [done|apply wrap_u_range; lia|done].
    + intros h' p []. unfold trackConnection. case_tests; [|done]. split; cbn; [done..|].
      intros b. rewrite conns_of_insert. destruct (decide _); [apply i64_add_le_max|done].
  - destruct Hi. split; [|done|].
    + intros protocol. apply updateProtocolGroups_group.
    + intros b. cbn. case_tests; [by apply keep_counts_le|done].
  - unfold ReleaseConnection. destruct Hi. case_tests; [done|]. split; [done..|].
    intros b. cbn. etrans; [apply conns_of_release|done].
  - destruct Hi. split; [|done..]. intros protocol. rewrite inv_grouped0.
    apply List.filter_ext. intros q. by rewrite of_protocol_set_health.
Qed.

Lemma h_run_inv st eps config ops : h_inv (fst (h_run st eps config ops)) (snd (h_run st eps config ops)).
Proof.
  unfold h_run. set (s := (st, NewHybridLoadBalancer st eps config)).
  assert (h_inv (fst s) (snd s)) as H.
  { split; cbn; [intros protocol; apply updateProtocolGroups_group|lia|done]. }
  revert H. generalize s. clear. induction ops as [|o ops IH]; intros s Hs; [done|].
  cbn. by apply IH, h_step_inv.
Qed.

(** After any sequence of selections, endpoint updates, releases and health changes, a selection
    of the hybrid balancer returns a usable endpoint (healthy, when the balancer is health aware) of
    the first protocol in preference order that has one.  With no such endpoint a health-aware
    balancer returns nil, and one that ignores health returns some endpoint of its list, if there is
    any.  Assumes that the counters of the state and the total weight stay in range. *)
Lemma hybrid_next_preferred (st0 : store) (eps : list ptr) (config : HybridConfig) (ops : list HOp)
    (st : store) (h : HybridLoadBalancer) :
  h_run st0 eps config ops = (st, h) ->
  current h + zlen (protocolPref h) + 1 + zlen (endpoints h) <= 2 ^ 64 ->
  total_weight st (endpoints h) <= max_i64 ->
  match fst (Next st h) with
  | Some p => p ∈ endpoints h /\ usable st h p = true /\
      ((exists i, protocolPref h !! i = Some (detectProtocol (st p)) /\
          forall j protocol, (j < i)%nat -> protocolPref h !! j = Some protocol -> none_usable st h protocol) \/
       (healthAware h = false /\ forall q, q ∈ endpoints h -> detectProtocol (st q) ∉ protocolPref h))
  | None => endpoints h = [] \/
      (healthAware h = true /\
       forall q, q ∈ endpoints h -> IsHealthy (st q) = true -> detectProtocol (st q) ∉ protocolPref h)
  end.
Proof.
  pose proof (h_run_inv st0 eps config ops) as [Hg Hc Hm].
  intros Hrun Hcur Hw. rewrite Hrun in *. cbn [fst snd] in *.
  assert (budget st h (zlen (protocolPref h))) as Hb.
  { pose proof (zlen_nonneg (protocolPref h)). split; [split|]; try done; lia. }
  pose proof (selectFromPreferredProtocols_spec st (protocolPref h) h Hg Hb) as Hs.
  unfold Next. destruct (Z.eqb_spec (zlen (endpoints h)) 0) as [?%zlen_nil_inv|Hne]; [by left|].
  destruct (selectFromPreferredProtocols _ _ _) as [[p|] h']; cbn [fst].
  { destruct Hs as (? & ? & Hi). split_and!; [done..|by left]. }
  destruct Hs as (Hnone & Hf & Hb').
  unfold fallbackSelection. rewrite (fr_health _ _ _ Hf), (fr_endpoints _ _ _ Hf).
  assert (forall q, q ∈ endpoints h -> usable st h q = true -> detectProtocol (st q) ∉ protocolPref h) as Hout.
  { intros q Hq Hu Hin. specialize (Hnone _ Hin q Hq eq_refl). congruence. }
  unfold usable in Hout. destruct (healthAware h) eqn:Eh; cbn [negb orb fst] in *.
  { right. split; [done|]. intros q Hq Hh. by apply Hout. }
  pose proof (nextRoundRobin_picks st (endpoints h) h') as Hp. destruct Hb' as [[] Hb'].
  rewrite (fr_endpoints _ _ _ Hf), (frame_usable _ st h h' Hf) in *.
  specialize (Hp ltac:(done) ltac:(lia)). unfold usable in *. rewrite Eh in *. cbn [negb orb] in *.
  destruct (fst (nextRoundRobin _ _ _)) as [p|]; cbn in Hp.
  - split; [apply Hp|]. split; [done|]. right. split; [done|]. intros q Hq. by apply Hout.
  - left. destruct (endpoints h) as [|q ?]; [done|]. by specialize (Hp q ltac:(set_solver)).
Qed.

(** A websocket endpoint, two http endpoints and one of an unlisted protocol. *)
Definition sample_endpoint (a s : string) (m : gmap string string) : Endpoint :=
  {| Service := "svc"; Namespace := "ns"; Address := a; Port := 8080; Scheme := s; Path := "/";
     Weight := 1; Metadata := m; Tools := []; healthy := 1 |}.

Definition sample_store : store := fun p =>
  match p with
  | 0%nat => sample_endpoint "w" "ws" ∅
  | 1%nat => sample_endpoint "a" "http" ∅
  | 2%nat => sample_endpoint "b" "https" ∅
  | _ => sample_endpoint "g" "http" {[ "protocol" := "grpc" ]}
  end.

Definition sample_config : HybridConfig :=
  {| Strategy := "least_connections"; HealthAware := true; ProtocolPreference := []; FallbackToUnhealthy := true |}.

Definition sample_run : store * HybridLoadBalancer :=
  h_run sample_store [0; 1; 2; 3]%nat sample_config [HNext; HHealth 1%nat false; HHealth 2%nat false].

Lemma hybrid_next_preferred_witness :
  let st := fst sample_run in let h := snd sample_run in
  fst (Next st h) = Some 0%nat /\
  match fst (Next st h) with
  | Some p => p ∈ endpoints h /\ usable st h p = true /\
      ((exists i, protocolPref h !! i = Some (detectProtocol (st p)) /\
          forall j protocol, (j < i)%nat -> protocolPref h !! j = Some protocol -> none_usable st h protocol) \/
       (healthAware h = false /\ forall q, q ∈ endpoints h -> detectProtocol (st q) ∉ protocolPref h))
  | None => endpoints h = [] \/
      (healthAware h = true /\
       forall q, q ∈ endpoints h -> IsHealthy (st q) = true -> detectProtocol (st q) ∉ protocolPref h)
  end.
Proof.
  split; [by vm_compute|].
  apply (hybrid_next_preferred sample_store [0; 1; 2; 3]%nat sample_config
    [HNext; HHealth 1%nat false; HHealth 2%nat false]); [apply surjective_pairing|by vm_compute..].
Defined.

(** A healthy endpoint whose protocol is not in the preference list is never
    chosen by a health-aware balancer, and [FallbackToUnhealthy] has no effect. *)
Example unlisted_protocol_never_chosen :
  fst (Next sample_store (NewHybridLoadBalancer sample_store [3]%nat sample_config)) = None.
Proof. by vm_compute. Qed.

End Hybrid.
