(* ===== verification/SlidingWindow.v ===== *)
(** * Sliding windows

    Shared by the rate limiters: a log of admitted instants, each admitted because
    fewer than [n] earlier ones lie in the window of length [w] that ends at it. *)
From S2P Require Import Prelude.
#[local] Open Scope Z_scope.

(** Instants of the log after [t - w]. *)
Definition recent (w t : Z) (l : list Z) : Z := count (fun x => t - w <? x) l.

Inductive admitted (w n : Z) : list Z -> Prop :=
| admitted_nil : admitted w n []
| admitted_snoc l t :
    admitted w n l -> (forall x, x ∈ l -> x <= t) -> recent w t l < n -> admitted w n (l ++ [t]).

(** Every window of length [w], wherever it ends, holds at most [n] admissions. *)
Lemma admitted_window w n l s :
  0 <= n -> admitted w n l -> count (fun x => (s - w <? x) && (x <=? s)) l <= n.
Proof.
  intros Hn Ha. induction Ha as [|l t Ha IH Hle Hr]; [done|].
  rewrite count_app, count_cons, count_nil.
  destruct ((s - w <? t) && (t <=? s)) eqn:E; [|lia].
  bool_to_prop. unfold recent in Hr.
  enough (count (fun x => (s - w <? x) && (x <=? s)) l <= count (fun x => t - w <? x) l) by lia.
  apply count_mono. intros x Hx Hb. bool_to_prop. apply Z.ltb_lt. lia.
Qed.

(** Dropping instants that no later window reaches does not change the count. *)
Lemma recent_filter w t t' l :
  t <= t' -> recent w t' (List.filter (fun x => t - w <? x) l) = recent w t' l.
Proof.
  intros Ht. unfold recent. rewrite count_filter. apply count_ext. intros x _.
  destruct (Z.ltb_spec (t - w) x), (Z.ltb_spec (t' - w) x); done || lia.
Qed.

Lemma recent_app w t l k : recent w t (l ++ k) = recent w t l + recent w t k.
Proof. apply count_app. Qed.

Lemma recent_mono w t t' l : t <= t' -> recent w t' l <= recent w t l.
Proof. intros Ht. apply count_mono. intros x _ Hx. bool_to_prop. apply Z.ltb_lt. lia. Qed.

Lemma recent_narrow w w' t l : w' <= w -> recent w' t l <= recent w t l.
Proof. intros Hw. apply count_mono. intros x _ Hx. bool_to_prop. apply Z.ltb_lt. lia. Qed.

Lemma zlen_recent w t l : zlen (List.filter (fun x => t - w <? x) l) = recent w t l.
Proof. done. Qed.
