(* ===== verification/RateLimit.v ===== *)
(** * The gateway's rate limiters

    [services/gateway/internal/ratelimit/ratelimit.go] and [redis_circuit.go]: the
    in-memory limiter, the Redis limiter, and the Redis limiter behind a circuit
    breaker that falls back on a local one; and the breaker-protected session
    operations.  Redis enters through a class that states the documented behaviour
    of its counters; clock readings are arguments. *)
From S2P Require Import Prelude GoStrings SlidingWindow Breaker.
From stdpp Require Import pretty.
From Stdlib Require Import Strings.Ascii.
#[local] Open Scope Z_scope.

Module GwLimit.

Record RateLimitConfig := mkRateLimitConfig { RequestsPerMinute : Z; Burst : Z }.

Definition rateLimitWindowSeconds : Z := 60.
Definition burstWindowSeconds : Z := 10.
Definition defaultRetryCount : Z := 10.

(** ** The [RateLimiter] interface: one clock reading per call. *)
Class RateLimiter (L E : Type) := {
  rl_Allow : string -> RateLimitConfig -> Z -> L -> result E bool * L;
}.

(** ** In memory *)

Record InMemoryRateLimiter := mkInMemory { requests : gmap string (list Z); burstWindow : Z }.

Definition CreateLocalMemoryRateLimiter : InMemoryRateLimiter :=
  {| requests := ∅; burstWindow := defaultRetryCount * Second |}.

Definition SetBurstWindow (duration : Z) (r : InMemoryRateLimiter) : InMemoryRateLimiter :=
  {| requests := requests r; burstWindow := duration |}.

(** The slice of a key; a missing key reads as nil. *)
Definition entries (r : InMemoryRateLimiter) (key : string) : list Z := default [] (requests r !! key).

Definition with_requests (m : gmap string (list Z)) (r : InMemoryRateLimiter) : InMemoryRateLimiter :=
  {| requests := m; burstWindow := burstWindow r |}.

(** The clean-up of a key's entries, which does not create the key. *)
Definition clean_key (key : string) (windowStart : Z) (r : InMemoryRateLimiter) : InMemoryRateLimiter :=
  match requests r !! key with
  | Some ts => with_requests (<[key := List.filter (fun t => time_after t windowStart) ts]> (requests r)) r
  | None => r
  end.

Definition Allow_local (key : string) (config : RateLimitConfig) (now : Z) (r : InMemoryRateLimiter)
    : bool * InMemoryRateLimiter :=
  if RequestsPerMinute config <=? 0 then (true, r)
  else
    let windowStart := time_add now (dur_neg Minute) in
    let r := clean_key key windowStart r in
    let currentCount := zlen (entries r key) in
    if RequestsPerMinute config <=? currentCount then (false, r)
    else if (0 <? Burst config) &&
            (Burst config <=? count (fun t => time_after t (time_add now (dur_neg (burstWindow r)))) (entries r key))
    then (false, r)
    else (true, with_requests (<[key := entries r key ++ [now]]> (requests r)) r).

(** The in-memory limiter never returns an error. *)
#[export] Instance InMemory_RL E : RateLimiter InMemoryRateLimiter E := {|
  rl_Allow := fun key config now r => let '(b, r') := Allow_local key config now r in (Ok b, r');
|}.

(** ** Redis *)

(** Counters with a time to live.  [value r k t] is the counter that [GET k] would
    see at instant [t] if nothing else is executed; [IncrExpire k ttl now] is the
    pipeline INCR, EXPIRE executed at [now].  INCR returns the incremented value,
    EXPIRE keeps the key for [ttl]; a failed pipeline may have executed any of its
    commands, but never lowers a live counter; other keys are not touched. *)
Class Redis := {
  redis : Type;
  redis_error : Type;
  value : redis -> string -> Z -> Z;
  IncrExpire : string -> Z -> Z -> redis -> result redis_error Z * redis;
  incr_value : forall k ttl now r n r', IncrExpire k ttl now r = (Ok n, r') -> n = value r k now + 1;
  expire_keeps : forall k ttl now r n r' t, IncrExpire k ttl now r = (Ok n, r') ->
    now <= t < now + ttl -> value r' k t = n;
  failed_keeps : forall k ttl now r e r' t, IncrExpire k ttl now r = (Err e, r') ->
    now <= t -> value r k t <= value r' k t;
  other_keys : forall k ttl now r k' t, k' <> k -> value (snd (IncrExpire k ttl now r)) k' t = value r k' t;
}.

Section RedisLimiter.
Context `{Redis}.

Record RedisRateLimiter := mkRedisLimiter { client : redis; prefix : string }.

Definition CreateRedisBackedRateLimiter (client : redis) : RedisRateLimiter :=
  {| client := client; prefix := "ratelimit:" |}.

(** [now.Unix()]. *)
Definition unix (now : Z) : Z := now / Second.

(** [fmt.Sprintf("%s%s:%d", ...)] and [fmt.Sprintf("%sburst:%s:%d", ...)]. *)
Definition rate_key (prefix key : string) (w : Z) : string := (prefix +:+ key +:+ ":" +:+ pretty w)%string.
Definition burst_key (prefix key : string) (w : Z) : string :=
  (prefix +:+ "burst:" +:+ key +:+ ":" +:+ pretty w)%string.

Definition with_client (c : redis) (r : RedisRateLimiter) : RedisRateLimiter :=
  {| client := c; prefix := prefix r |}.

Definition checkRateLimit (key : string) (now : Z) (r : RedisRateLimiter)
    : result redis_error Z * RedisRateLimiter :=
  let redisKey := rate_key (prefix r) key (Z.quot (unix now) rateLimitWindowSeconds) in
  let '(res, c) := IncrExpire redisKey (Minute + Second) now (client r) in
  (res, with_client c r).

Definition checkBurstLimit (key : string) (burst now : Z) (r : RedisRateLimiter)
    : result redis_error bool * RedisRateLimiter :=
  let burstKey := burst_key (prefix r) key (Z.quot (unix now) burstWindowSeconds) in
  let '(res, c) := IncrExpire burstKey (defaultRetryCount * Second + Second) now (client r) in
  match res with
  | Err e => (Err e, with_client c r)
  | Ok burstCount => (Ok (burstCount <=? burst), with_client c r)
  end.

(** [RedisRateLimiter.Allow]; the two checks read the clock each. *)
Definition Allow_redis (key : string) (config : RateLimitConfig) (now now_burst : Z) (r : RedisRateLimiter)
    : result redis_error bool * RedisRateLimiter :=
  if RequestsPerMinute config <=? 0 then (Ok true, r)
  else match checkRateLimit key now r with
       | (Err e, r') => (Err e, r')
       | (Ok n, r') =>
           if negb (n <=? RequestsPerMinute config) then (Ok false, r')
           else if 0 <? Burst config then checkBurstLimit key (Burst config) now_burst r'
           else (Ok true, r')
       end.

(** ** Redis behind a circuit breaker *)

Context {F : Type} `{RateLimiter F redis_error}.

Record FaultTolerant := mkFT {
  limiter : RedisRateLimiter;
  circuitBreaker : Circuit.CircuitBreaker;
  fallback : F;
}.

Definition circuitBreakerThreshold : Z := 5.
Definition circuitBreakerFailureCount : Z := 3.
Definition circuitBreakerTimeoutSeconds : Z := 30.

Definition CreateFaultTolerantRedisRateLimiter (c : redis) (local : F) (now : Z) : FaultTolerant :=
  {| limiter := CreateRedisBackedRateLimiter c;
     circuitBreaker := Circuit.NewCircuitBreaker circuitBreakerThreshold circuitBreakerFailureCount
                         (circuitBreakerTimeoutSeconds * Second) now;
     fallback := local |}.

(** The clock readings of one call: the two Redis checks, the breaker's record of
    the outcome, the fallback. *)
Record Clocks := mkClocks { t_rate : Z; t_burst : Z; t_record : Z; t_local : Z }.

Definition use_fallback (key : string) (config : RateLimitConfig) (t : Z) (r : FaultTolerant)
    : result redis_error bool * FaultTolerant :=
  let '(res, f) := rl_Allow key config t (fallback r) in
  (res, {| limiter := limiter r; circuitBreaker := circuitBreaker r; fallback := f |}).

(** The closure passed to [Call]: it stores [allowed] and returns the error. *)
Definition redis_attempt (key : string) (config : RateLimitConfig) (c : Clocks)
    (env : bool * RedisRateLimiter) : option redis_error * (bool * RedisRateLimiter) :=
  match Allow_redis key config (t_rate c) (t_burst c) (snd env) with
  | (Ok allowed, l) => (None, (allowed, l))
  | (Err e, l) => (Some e, (false, l))
  end.

Definition Allow_ft (key : string) (config : RateLimitConfig) (c : Clocks) (r : FaultTolerant)
    : result redis_error bool * FaultTolerant :=
  if Circuit.IsOpen (circuitBreaker r) then use_fallback key config (t_local c) r
  else
    match Circuit.Call (redis_attempt key config c) (t_record c) (circuitBreaker r) (false, limiter r) with
    | (cbErr, cb, (allowed, l)) =>
        let r := {| limiter := l; circuitBreaker := cb; fallback := fallback r |} in
        match cbErr with
        | Some _ => use_fallback key config (t_local c) r
        | None => (Ok allowed, r)
        end
    end.

Definition GetCircuitBreakerState (r : FaultTolerant) : Circuit.State := Circuit.GetState (circuitBreaker r).

Definition ResetCircuitBreaker (now : Z) (r : FaultTolerant) : FaultTolerant :=
  {| limiter := limiter r; circuitBreaker := Circuit.Reset now (circuitBreaker r); fallback := fallback r |}.

End RedisLimiter.

(** ** Session operations behind a circuit breaker *)

Section SessionStore.

(** The string commands of Redis; a missing key is the distinguished error [Nil]. *)
Inductive GetError (E : Type) := RedisNil | GetFailed (e : E).
Arguments RedisNil {E}.
Arguments GetFailed {E} e.

Context {KV E : Type}
  (kv_Get : string -> KV -> result (GetError E) string * KV)
  (kv_Set : string -> string -> Z -> KV -> option E * KV)
  (kv_Del : string -> KV -> option E * KV).

Record RedisSessionManager := mkSessions { kv : KV; breaker : Circuit.CircuitBreaker }.

Inductive SessionError := Unavailable | NotFound | CallFailed (e : Circuit.CallError E).

Definition CreateFaultTolerantRedisSessionManager (c : KV) (now : Z) : RedisSessionManager :=
  {| kv := c; breaker := Circuit.NewCircuitBreaker circuitBreakerThreshold circuitBreakerFailureCount
                           (circuitBreakerTimeoutSeconds * Second) now |}.

Definition get_attempt (key : string) (env : result (GetError E) string * KV)
    : option E * (result (GetError E) string * KV) :=
  let '(res, c) := kv_Get key (snd env) in
  (match res with Err (GetFailed e) => Some e | _ => None end, (res, c)).

Definition Get (key : string) (now : Z) (r : RedisSessionManager)
    : result SessionError string * RedisSessionManager :=
  if Circuit.IsOpen (breaker r) then (Err Unavailable, r)
  else match Circuit.Call (get_attempt key) now (breaker r) (Ok EmptyString, kv r) with
       | (cbErr, cb, (res, c)) =>
           let r := {| kv := c; breaker := cb |} in
           match cbErr, res with
           | Some e, _ => (Err (CallFailed e), r)
           | None, Err RedisNil => (Err NotFound, r)
           | None, Ok v => (Ok v, r)
           | None, Err (GetFailed _) => (Ok EmptyString, r)
           end
       end.

Definition Set_ (key val : string) (expiration now : Z) (r : RedisSessionManager)
    : result SessionError unit * RedisSessionManager :=
  if Circuit.IsOpen (breaker r) then (Err Unavailable, r)
  else match Circuit.Call (kv_Set key val expiration) now (breaker r) (kv r) with
       | (Some e, cb, c) => (Err (CallFailed e), {| kv := c; breaker := cb |})
       | (None, cb, c) => (Ok tt, {| kv := c; breaker := cb |})
       end.

Definition Delete (key : string) (now : Z) (r : RedisSessionManager)
    : result SessionError unit * RedisSessionManager :=
  if Circuit.IsOpen (breaker r) then (Err Unavailable, r)
  else match Circuit.Call (kv_Del key) now (breaker r) (kv r) with
       | (Some e, cb, c) => (Err (CallFailed e), {| kv := c; breaker := cb |})
       | (None, cb, c) => (Ok tt, {| kv := c; breaker := cb |})
       end.

End SessionStore.

(** ** The in-memory limiter against the full log *)

(** A call: its key and its clock reading; an answered call also has the decision. *)
Record Req := mkReq { rq_key : string; rq_now : Z }.

Fixpoint local_run (cfg : string -> RateLimitConfig) (reqs : list Req) (r : InMemoryRateLimiter)
    : list (Req * bool) * InMemoryRateLimiter :=
  match reqs with
  | [] => ([], r)
  | q :: reqs =>
      let '(b, r') := Allow_local (rq_key q) (cfg (rq_key q)) (rq_now q) r in
      let '(outs, r'') := local_run cfg reqs r' in
      ((q, b) :: outs, r'')
  end.

(** The instants at which calls on a key were admitted. *)
Definition admissions (key : string) (outs : list (Req * bool)) : list Z :=
  map (fun o => rq_now (fst o)) (List.filter (fun o => bool_decide (rq_key (fst o) = key) && snd o) outs).

(** The reference decision, on the complete log of admissions. *)
Definition has_room (config : RateLimitConfig) (now : Z) (log : list Z) : bool :=
  (RequestsPerMinute config <=? 0) ||
  ((recent Minute now log <? RequestsPerMinute config) &&
   ((Burst config <=? 0) || (recent (10 * Second) now log <? Burst config))).

Fixpoint reference_run (cfg : string -> RateLimitConfig) (past : list (Req * bool)) (reqs : list Req)
    : list (Req * bool) :=
  match reqs with
  | [] => past
  | q :: reqs =>
      let b := has_room (cfg (rq_key q)) (rq_now q) (admissions (rq_key q) past) in
      reference_run cfg (past ++ [(q, b)]) reqs
  end.

Lemma admissions_snoc key past q b :
  admissions key (past ++ [(q, b)]) =
  admissions key past ++ (if bool_decide (rq_key q = key) && b then [rq_now q] else []).
Proof.
  unfold admissions. rewrite List.filter_app, map_app. cbn. by destruct (_ && b).
Qed.

Lemma entries_insert key ts key' r :
  entries (with_requests (<[key := ts]> (requests r)) r) key' = if decide (key = key') then ts else entries r key'.
Proof. unfold entries. cbn. case_decide; subst; [by rewrite lookup_insert_eq|by rewrite lookup_insert_ne]. Qed.

Lemma entries_clean key ws r key' :
  entries (clean_key key ws r) key' =
  if decide (key = key') then List.filter (fun t => time_after t ws) (entries r key) else entries r key'.
Proof.
  unfold clean_key. destruct (requests r !! key) as [ts|] eqn:E.
  - rewrite entries_insert. unfold entries at 2. by rewrite E.
  - case_decide; subst; [|done]. unfold entries. by rewrite E.
Qed.

Lemma burstWindow_clean key ws r : burstWindow (clean_key key ws r) = burstWindow r.
Proof. unfold clean_key. by destruct (requests r !! key). Qed.

(** What the limiter keeps of a key agrees with the log on every later window. *)
Record log_inv (cfg : string -> RateLimitConfig) (past : list (Req * bool)) (last : Z) (r : InMemoryRateLimiter) : Prop := {
  li_burst : burstWindow r = 10 * Second;
  li_entries : forall key t, 0 < RequestsPerMinute (cfg key) -> last <= t ->
    List.filter (fun x => t - Minute <? x) (entries r key) =
    List.filter (fun x => t - Minute <? x) (admissions key past);
}.

Lemma filter_filter_narrow (w t t' : Z) (l : list Z) :
  t <= t' ->
  List.filter (fun x => t' - w <? x) (List.filter (fun x => t - w <? x) l) = List.filter (fun x => t' - w <? x) l.
Proof.
  intros Ht. induction l as [|x l IH]; cbn; [done|].
  destruct (Z.ltb_spec (t - w) x); cbn; destruct (Z.ltb_spec (t' - w) x); cbn; rewrite ?IH; done || lia.
Qed.

Lemma time_after_minute now l :
  List.filter (fun t => time_after t (time_add now (dur_neg Minute))) l = List.filter (fun x => now - Minute <? x) l.
Proof. done. Qed.

(** One call: the decision is the reference decision and the invariant is kept. *)
Lemma Allow_local_step cfg past last q r :
  log_inv cfg past last r -> last <= rq_now q ->
  let '(b, r') := Allow_local (rq_key q) (cfg (rq_key q)) (rq_now q) r in
  b = has_room (cfg (rq_key q)) (rq_now q) (admissions (rq_key q) past) /\
  log_inv cfg (past ++ [(q, b)]) (rq_now q) r'.
Proof.
  intros [Hbw He] Hlast. destruct q as [key now]. cbn [rq_key rq_now] in *.
  unfold Allow_local, has_room. set (config := cfg key).
  destruct (Z.leb_spec (RequestsPerMinute config) 0) as [Hrpm|Hrpm]; cbn [orb].
  { split; [done|]. split; [done|]. intros k t Hk Ht. rewrite admissions_snoc. cbn.
    rewrite bool_decide_false by (intros ->; subst config; lia). rewrite app_nil_r. apply He; lia. }
  cbv zeta. set (r1 := clean_key key _ r).
  assert (entries r1 key = List.filter (fun x => now - Minute <? x) (admissions key past)) as Hk1.
  { subst r1. rewrite entries_clean, decide_True, time_after_minute by done. by apply He. }
  assert (burstWindow r1 = 10 * Second) as Hb1 by (subst r1; by rewrite burstWindow_clean).
  assert (forall k t, 0 < RequestsPerMinute (cfg k) -> now <= t ->
    List.filter (fun x => t - Minute <? x) (entries r1 k) =
    List.filter (fun x => t - Minute <? x) (admissions k past)) as He1.
  { intros k t Hk Ht. destruct (decide (key = k)) as [<-|Hne].
    - rewrite Hk1. by apply filter_filter_narrow.
    - subst r1. rewrite entries_clean, decide_False by done. apply He; [done|lia]. }
  rewrite Hk1, zlen_recent, Hb1.
  replace (count _ (List.filter _ _)) with (recent (10 * Second) now (admissions key past)).
  2:{ rewrite count_filter. apply count_ext. intros x _. unfold time_after, time_add, dur_neg.
      change (wrap_s 64 (- (10 * Second))) with (- (10 * Second)). unfold Minute, Second.
      destruct (Z.ltb_spec (now - 10 * 1000000000) x), (Z.ltb_spec (now - 60 * 1000000000) x),
        (Z.ltb_spec (now + - (10 * 1000000000)) x); cbn; done || lia. }
  assert (forall r', burstWindow r' = 10 * Second -> (forall k, entries r' k = entries r1 k) ->
    log_inv cfg (past ++ [(mkReq key now, false)]) now r') as Hfalse.
  { intros r' ? He'. split; [done|]. intros k t Hk Ht. rewrite admissions_snoc, andb_false_r, app_nil_r, He'.
    by apply He1. }
  destruct (Z.leb_spec (RequestsPerMinute config) (recent Minute now (admissions key past))) as [Hfull|Hroom].
  { rewrite (proj2 (Z.ltb_ge _ _) Hfull). split; [done|by apply Hfalse]. }
  rewrite (proj2 (Z.ltb_lt _ _) Hroom). cbn [andb].
  destruct (Z.ltb_spec 0 (Burst config)) as [Hb0|Hb0];
    [rewrite (proj2 (Z.leb_gt _ _) Hb0)|rewrite (proj2 (Z.leb_le _ _) Hb0)]; cbn [andb orb].
  1: destruct (Z.leb_spec (Burst config) (recent (10 * Second) now (admissions key past))) as [Hbf|Hbf];
    [rewrite (proj2 (Z.ltb_ge _ _) Hbf); split; [done|by apply Hfalse]|rewrite (proj2 (Z.ltb_lt _ _) Hbf)].
  all: split; [done|]; split; [done|]; intros k t Hk Ht; rewrite admissions_snoc, entries_insert, List.filter_app;
    cbn [rq_key rq_now]; destruct (decide (key = k)) as [<-|Hne];
    [rewrite bool_decide_true, List.filter_app, filter_filter_narrow by done; done
    |rewrite bool_decide_false by done; cbn; rewrite app_nil_r; by apply He1].
Qed.

Definition chronological (reqs : list Req) : Prop := StronglySorted (fun p q => rq_now p <= rq_now q) reqs.

Lemma local_run_reference cfg reqs past last r :
  log_inv cfg past last r -> chronological reqs -> Forall (fun q => last <= rq_now q) reqs ->
  reference_run cfg past reqs = past ++ fst (local_run cfg reqs r).
Proof.
  revert past last r; induction reqs as [|q reqs IH]; intros past last r Hi Hs Hl; cbn.
  { by rewrite app_nil_r. }
  inversion Hs as [|? ? Hs' Hq]; inversion Hl as [|? ? Hlq Hl']; subst.
  pose proof (Allow_local_step cfg past last q r Hi Hlq) as Hst.
  destruct (Allow_local _ _ _ _) as [b r']. destruct Hst as [<- Hi'].
  rewrite (IH _ _ _ Hi' Hs' Hq). destruct (local_run cfg reqs r') as [outs r'']. by rewrite <- app_assoc.
Qed.

(** The reference admits within a window of length [w] with limit [n] whenever
    [has_room] implies room in that window. *)
Lemma reference_admitted cfg key w n reqs past last :
  (forall now log, has_room (cfg key) now log = true -> recent w now log < n) ->
  admitted w n (admissions key past) -> (forall x, x ∈ admissions key past -> x <= last) ->
  chronological reqs -> Forall (fun q => last <= rq_now q) reqs ->
  admitted w n (admissions key (reference_run cfg past reqs)).
Proof.
  intros Hroom. revert past last; induction reqs as [|q reqs IH]; intros past last Ha Hle Hs Hl; cbn; [done|].
  inversion Hs as [|? ? Hs' Hq]; inversion Hl as [|? ? Hlq Hl']; subst.
  apply (IH _ (rq_now q)); [| |done..]; rewrite admissions_snoc.
  - destruct (decide (rq_key q = key)) as [<-|Hne]; [rewrite bool_decide_true by done|
      rewrite bool_decide_false by done; by rewrite app_nil_r]. cbn [andb].
    destruct (has_room _ _ _) eqn:E; [|by rewrite app_nil_r].
    constructor; [done| |by apply Hroom]. intros x Hx. specialize (Hle x Hx). lia.
  - intros x [Hx|Hx]%elem_of_app; [specialize (Hle x Hx); lia|]. destruct (_ && _); set_solver by lia.
Qed.

(** A key without a limit is never refused. *)
Lemma reference_unlimited cfg past reqs q b :
  RequestsPerMinute (cfg (rq_key q)) <= 0 -> (forall b', (q, b') ∈ past -> b' = true) ->
  (q, b) ∈ reference_run cfg past reqs -> b = true.
Proof.
  intros Hq. revert past; induction reqs as [|q' reqs IH]; intros past Hp; cbn; [apply Hp|].
  apply IH. intros b' [Hin|[= -> ->]%list_elem_of_singleton]%elem_of_app; [by apply Hp|].
  unfold has_room. by rewrite (proj2 (Z.leb_le _ _) Hq).
Qed.

(** C23: Let every key have a fixed configuration.  For any sequence of calls in clock order, the decisions of the
    in-memory limiter are those of a sliding window over the complete log of admissions (expired entries it drops never
    matter).  So for a key with a positive RequestsPerMinute, no window of 60 seconds, wherever it lies, holds more
    admissions than RequestsPerMinute, and no window of 10 seconds more than a positive Burst; a key whose
    RequestsPerMinute is not positive is not limited at all: each of its calls is admitted, whatever its Burst. *)
Theorem inmemory_sliding_window (cfg : string -> RateLimitConfig) (reqs : list Req) :
  chronological reqs ->
  let outs := fst (local_run cfg reqs CreateLocalMemoryRateLimiter) in
  outs = reference_run cfg [] reqs /\
  (forall key t, 0 < RequestsPerMinute (cfg key) ->
    count (fun x => (t - Minute <? x) && (x <=? t)) (admissions key outs) <= RequestsPerMinute (cfg key) /\
    (0 < Burst (cfg key) ->
     count (fun x => (t - 10 * Second <? x) && (x <=? t)) (admissions key outs) <= Burst (cfg key))) /\
  (forall q b, RequestsPerMinute (cfg (rq_key q)) <= 0 -> (q, b) ∈ outs -> b = true).
Proof.
  intros Hs outs.
  assert (exists last, Forall (fun q => last <= rq_now q) reqs) as [last Hl].
  { destruct reqs as [|q reqs]; [by exists 0|]. inversion Hs; subst. exists (rq_now q). by constructor. }
  assert (outs = reference_run cfg [] reqs) as Hout.
  { symmetry. apply (local_run_reference cfg reqs [] last); [|done..]. by split. }
  split; [done|]. split; [|rewrite Hout; intros q b Hq; apply reference_unlimited; [done|set_solver]]. intros key t Hrpm. rewrite Hout.
  assert (forall w n, 0 <= n -> (forall now log, has_room (cfg key) now log = true -> recent w now log < n) ->
    count (fun x => (t - w <? x) && (x <=? t)) (admissions key (reference_run cfg [] reqs)) <= n) as Hb.
  { intros w n Hn Hroom. apply admitted_window; [done|].
    apply (reference_admitted _ _ _ _ _ _ last); [done|constructor|set_solver|done..]. }
  unfold has_room in Hb. split; [|intros Hburst]; apply Hb; [lia| |lia|]; intros now log;
    rewrite (proj2 (Z.leb_gt _ _) Hrpm); cbn [orb].
  - intros [? ?]%andb_prop. by bool_to_prop.
  - rewrite (proj2 (Z.leb_gt _ _) Hburst). cbn [orb]. intros [? ?]%andb_prop. by bool_to_prop.
Qed.

Definition sample_cfg (key : string) : RateLimitConfig := {| RequestsPerMinute := 2; Burst := 1 |}.
Definition sample_reqs : list Req :=
  [mkReq "u" 0; mkReq "u" (5 * Second); mkReq "u" (20 * Second); mkReq "u" (40 * Second); mkReq "u" (61 * Second)].

Lemma inmemory_sliding_window_witness :
  map snd (fst (local_run sample_cfg sample_reqs CreateLocalMemoryRateLimiter)) = [true; false; true; false; true] /\
  forall t, count (fun x => (t - Minute <? x) && (x <=? t))
      (admissions "u" (fst (local_run sample_cfg sample_reqs CreateLocalMemoryRateLimiter))) <= 2.
Proof.
  split; [by vm_compute|]. intros t.
  apply (inmemory_sliding_window sample_cfg sample_reqs); [|done].
  repeat constructor; vm_compute; discriminate.
Defined.

(** ** Redis keys *)

Lemma pretty_N_go_no_colon x s :
  str_mem ":"%char s = false -> str_mem ":"%char (pretty_N_go x s) = false.
Proof.
  revert s; induction (N.lt_wf_0 x) as [x _ IH]; intros s Hs.
  destruct (decide (x = 0)%N) as [->|]; [by rewrite pretty_N_go_0|].
  rewrite pretty_N_go_step by lia. apply IH; [apply N.div_lt; lia|].
  cbn [str_mem]. rewrite Hs, orb_false_r. unfold pretty_N_char. by repeat case_match.
Qed.

Lemma pretty_N_no_colon (n : N) : str_mem ":"%char (pretty n) = false.
Proof.
  unfold pretty, pretty_N. destruct (decide _); [done|]. by apply pretty_N_go_no_colon.
Qed.

Lemma pretty_no_colon (z : Z) : str_mem ":"%char (pretty z) = false.
Proof.
  destruct z as [|p|p]; [done|exact (pretty_N_no_colon (Npos p))|].
  change (pretty (Zneg p)) with ("-" +:+ pretty (Npos p))%string.
  rewrite str_mem_app, pretty_N_no_colon. done.
Qed.

Lemma prefix_cancel (p s t : string) : (p +:+ s)%string = (p +:+ t)%string -> s = t.
Proof. induction p as [|c p IH]; cbn; [done|]. intros [= H]. auto. Qed.

Lemma rate_key_inj p k w k' w' : rate_key p k w = rate_key p k' w' -> k = k' /\ w = w'.
Proof.
  unfold rate_key. intros H%prefix_cancel.
  apply split_last_unique in H as [-> H]; [|apply pretty_no_colon..].
  split; [done|]. by apply (inj pretty) in H.
Qed.

(** A burst counter and a rate counter share a key only in windows of equal number. *)
Lemma burst_rate_key p k b k' w : burst_key p k b = rate_key p k' w -> b = w.
Proof.
  unfold rate_key, burst_key. intros H%prefix_cancel. rewrite (string_app_assoc "burst:" k) in H.
  apply split_last_unique in H as [_ H]; [|apply pretty_no_colon..].
  by apply (inj pretty) in H.
Qed.

(** ** Redis: a fixed window per minute *)

Section FixedWindow.
Context `{Redis}.

Record RReq := mkRReq { rr_key : string; rr_now : Z; rr_burst : Z }.

Fixpoint redis_run (cfg : string -> RateLimitConfig) (reqs : list RReq) (r : RedisRateLimiter)
    : list (RReq * result redis_error bool) * RedisRateLimiter :=
  match reqs with
  | [] => ([], r)
  | q :: reqs =>
      let '(res, r') := Allow_redis (rr_key q) (cfg (rr_key q)) (rr_now q) (rr_burst q) r in
      let '(outs, r'') := redis_run cfg reqs r' in
      ((q, res) :: outs, r'')
  end.

Definition minute_of (t : Z) : Z := Z.quot (unix t) rateLimitWindowSeconds.

(** Clock readings between the years 2001 and 2128. *)
Definition era (t : Z) : Prop := 1000000000 * Second <= t <= 5000000000 * Second.

Definition in_order (reqs : list RReq) : Prop :=
  StronglySorted (fun p q => rr_burst p <= rr_now q) reqs /\
  Forall (fun q => rr_now q <= rr_burst q /\ era (rr_now q) /\ era (rr_burst q)) reqs.

Definition granted {E} (res : result E bool) : bool := match res with Ok b => b | Err _ => false end.

Lemma minute_of_bound t t' : era t -> era t' -> minute_of t = minute_of t' -> t' < t + (Minute + Second).
Proof.
  unfold minute_of, unix, era, Minute, Second, rateLimitWindowSeconds. intros Ht Ht'.
  rewrite !Z.quot_div_nonneg by (try apply Z.div_pos; lia).
  Z.to_euclidean_division_equations. lia.
Qed.

Lemma burst_window_apart t t' : era t -> era t' -> Z.quot (unix t) burstWindowSeconds <> minute_of t'.
Proof.
  unfold minute_of, unix, era, Second, rateLimitWindowSeconds, burstWindowSeconds. intros Ht Ht'.
  rewrite !Z.quot_div_nonneg by (try apply Z.div_pos; lia).
  Z.to_euclidean_division_equations. lia.
Qed.

Context (key : string) (t0 : Z) (cfg : string -> RateLimitConfig).
Hypothesis (Ht0 : era t0) (Hrpm : 0 < RequestsPerMinute (cfg key)).

(** The rate counter of [key] in the minute of [t0] is at least [a] from [last] on. *)
Definition counted (a last : Z) (r : RedisRateLimiter) : Prop :=
  forall t, last <= t -> era t -> minute_of t = minute_of t0 ->
    a <= value (client r) (rate_key (prefix r) key (minute_of t0)) t.

Lemma counted_other a last r k ttl now :
  k <> rate_key (prefix r) key (minute_of t0) -> counted a last r ->
  counted a last (with_client (snd (IncrExpire k ttl now (client r))) r).
Proof. intros Hk Hc t Hl Ht Hm. cbn. rewrite other_keys by done. by apply Hc. Qed.

Lemma checkBurstLimit_counted a last r k burst now :
  era now -> counted a last r ->
  counted a last (snd (checkBurstLimit k burst now r)) /\ prefix (snd (checkBurstLimit k burst now r)) = prefix r.
Proof.
  intros Hn Hc. unfold checkBurstLimit. set (bk := burst_key _ _ _).
  pose proof (counted_other a last r bk (defaultRetryCount * Second + Second) now) as Ho.
  destruct (IncrExpire bk _ now (client r)) as [[n|e] c]; cbn in *; (split; [|done]); apply Ho; try done;
    intros E%burst_rate_key; by apply (burst_window_apart now t0) in E.
Qed.

(** The request counts against the window. *)
Definition hits (q : RReq) : bool := bool_decide (rr_key q = key) && (minute_of (rr_now q) =? minute_of t0).

Lemma checkRateLimit_counted a q last r :
  era (rr_now q) -> last <= rr_now q -> counted a last r ->
  match checkRateLimit (rr_key q) (rr_now q) r with
  | (Ok n, r') => prefix r' = prefix r /\ counted a (rr_now q) r' /\
      (hits q = true -> a + 1 <= n /\ counted n (rr_now q) r')
  | (Err _, r') => prefix r' = prefix r /\ counted a (rr_now q) r'
  end.
Proof.
  intros Hera Hlast Hc. unfold checkRateLimit, hits. fold (minute_of (rr_now q)).
  set (rk := rate_key (prefix r) (rr_key q) (minute_of (rr_now q))).
  assert (forall a', counted a' last r -> counted a' (rr_now q) r) as Hlater.
  { intros a' Ha t Ht. apply Ha. lia. }
  destruct (decide (rk = rate_key (prefix r) key (minute_of t0))) as [E|Hne].
  - destruct (rate_key_inj _ _ _ _ _ E) as [Hk Hm].
    destruct (IncrExpire rk _ _ _) as [[n|e] c] eqn:EI.
    + assert (n = value (client r) rk (rr_now q) + 1) as -> by by eapply incr_value.
      assert (a <= value (client r) rk (rr_now q)) as Ha by (rewrite E; apply Hc; [lia|done|exact Hm]).
      assert (counted (value (client r) rk (rr_now q) + 1) (rr_now q) (with_client c r)) as Hn.
      { intros t Ht Het Hmt. cbn. rewrite <- E. rewrite (expire_keeps _ _ _ _ _ _ t EI); [lia|].
        pose proof (minute_of_bound (rr_now q) t Hera Het ltac:(congruence)). lia. }
      split_and!; [done| |intros _; split; [lia|done]].
      intros t Ht Het Hmt. specialize (Hn t Ht Het Hmt). lia.
    + split; [done|]. intros t Ht Het Hmt. cbn. rewrite <- E.
      etrans; [|by eapply failed_keeps]. rewrite E. apply Hc; [lia|done..].
  - pose proof (counted_other a last r rk (Minute + Second) (rr_now q) Hne Hc) as Ho.
    destruct (IncrExpire rk _ _ _) as [[n|e] c]; cbn in Ho.
    + split_and!; [done|intros t Ht; apply Ho; lia|]. intros [Hk Hm]%andb_prop.
      apply bool_decide_eq_true in Hk. apply Z.eqb_eq in Hm. subst rk. rewrite Hk, Hm in Hne. done.
    + split; [done|]. intros t Ht. apply Ho. lia.
Qed.

Lemma counted_later a last last' r : last <= last' -> counted a last r -> counted a last' r.
Proof. intros Hl Hc t Ht. apply Hc. lia. Qed.

Lemma counted_le a b last r : b <= a -> counted a last r -> counted b last r.
Proof. intros Hb Hc t Ht He Hm. specialize (Hc t Ht He Hm). lia. Qed.

Lemma Allow_redis_counted a q last r :
  rr_now q <= rr_burst q -> era (rr_now q) -> era (rr_burst q) -> last <= rr_now q ->
  0 <= a <= RequestsPerMinute (cfg key) -> counted a last r ->
  let '(res, r') := Allow_redis (rr_key q) (cfg (rr_key q)) (rr_now q) (rr_burst q) r in
  let a' := a + (if hits q && granted res then 1 else 0) in
  a' <= RequestsPerMinute (cfg key) /\ counted a' (rr_burst q) r'.
Proof.
  intros Hnb Hn Hb Hlast Ha Hc. unfold Allow_redis.
  destruct (Z.leb_spec (RequestsPerMinute (cfg (rr_key q))) 0) as [Hz|Hz].
  { replace (hits q) with false; [cbn; split; [lia|]; rewrite Z.add_0_r; eapply counted_later, Hc; lia|].
    symmetry. unfold hits. rewrite bool_decide_false; [done|]. intros E. rewrite E in Hz. lia. }
  pose proof (checkRateLimit_counted a q last r Hn Hlast Hc) as Hr.
  destruct (checkRateLimit _ _ r) as [[n|e] r'].
  2:{ cbn. rewrite andb_false_r. split; [lia|]. rewrite Z.add_0_r. eapply counted_later, Hr; lia. }
  destruct Hr as (Hp & Hc' & Hhit).
  assert (counted a (rr_burst q) r') as Hcb by (eapply counted_later, Hc'; lia).
  destruct (Z.leb_spec n (RequestsPerMinute (cfg (rr_key q)))) as [Hle|Hgt]; cbn [negb].
  2:{ cbn. rewrite andb_false_r. split; [lia|]. by rewrite Z.add_0_r. }
  assert (forall b, let a' := a + (if hits q && b then 1 else 0) in
    a' <= RequestsPerMinute (cfg key) /\ counted a' (rr_burst q) r') as Hend.
  { intros b. destruct (hits q) eqn:Eh, b; cbn; rewrite ?Z.add_0_r; try (split; [lia|done]).
    destruct (Hhit eq_refl) as [Hn1 Hcn]. unfold hits in Eh. apply andb_prop in Eh as [Ek _].
    apply bool_decide_eq_true in Ek. rewrite Ek in Hle. split; [lia|].
    eapply counted_le; [exact Hn1|]. eapply counted_later, Hcn. lia. }
  destruct (Z.ltb_spec 0 (Burst (cfg (rr_key q)))); [|exact (Hend true)].
  destruct (checkBurstLimit (rr_key q) (Burst (cfg (rr_key q))) (rr_burst q) r') as [res r''] eqn:Eb.
  specialize (Hend (granted res)). cbv zeta in *. destruct Hend as [? Hce]. split; [done|].
  destruct (checkBurstLimit_counted _ _ r' (rr_key q) (Burst (cfg (rr_key q))) (rr_burst q) Hb Hce) as [Hx _].
  by rewrite Eb in Hx.
Qed.

Lemma redis_run_counted reqs a last r :
  in_order reqs -> Forall (fun q => last <= rr_now q) reqs ->
  0 <= a <= RequestsPerMinute (cfg key) -> counted a last r ->
  a + count (fun o => hits (fst o) && granted (snd o)) (fst (redis_run cfg reqs r)) <= RequestsPerMinute (cfg key).
Proof.
  revert a last r; induction reqs as [|q reqs IH]; intros a last r [Hs Hf] Hl Ha Hc; cbn [redis_run].
  { cbn [fst]. rewrite count_nil. lia. }
  inversion Hs as [|? ? Hs' Hq]; inversion Hl as [|? ? Hlq Hl']; inversion Hf as [|? ? (Hnb & Hn & Hb) Hf']; subst.
  pose proof (Allow_redis_counted a q last r Hnb Hn Hb Hlq Ha Hc) as Hst.
  destruct (Allow_redis _ _ _ _ _) as [res r']. cbv zeta in Hst. destruct Hst as [Hle Hc'].
  assert (0 <= a + (if hits q && granted res then 1 else 0)) by (destruct (_ && _); lia).
  specialize (IH _ (rr_burst q) r' (conj Hs' Hf') Hq (conj H0 Hle) Hc').
  destruct (redis_run cfg reqs r') as [outs r'']. cbn [fst snd] in *. rewrite count_cons. cbn [fst snd]. lia.
Qed.

End FixedWindow.

(** Whatever Redis errors occur, and whatever other keys are limited through the same store, the
    Redis limiter admits at most RequestsPerMinute calls of a key in each calendar minute, for calls
    in clock order between 2001 and 2128 and a rate counter that is not negative at the start. *)
Lemma redis_fixed_window `{Redis} (cfg : string -> RateLimitConfig) (key : string) (t0 : Z)
    (reqs : list RReq) (r : RedisRateLimiter) :
  era t0 -> 0 < RequestsPerMinute (cfg key) -> in_order reqs ->
  (forall t, 0 <= value (client r) (rate_key (prefix r) key (minute_of t0)) t) ->
  count (fun o => hits key t0 (fst o) && granted (snd o)) (fst (redis_run cfg reqs r)) <= RequestsPerMinute (cfg key).
Proof.
  intros Ht0 Hrpm Ho Hv.
  assert (exists last, Forall (fun q => last <= rr_now q) reqs) as [last Hl].
  { destruct Ho as [Hs Hf]. destruct reqs as [|q reqs]; [by exists 0|].
    inversion Hs; inversion Hf as [|? ? (? & _) _]; subst. exists (rr_now q). constructor; [lia|].
    eapply Forall_impl; [done|]. cbn. lia. }
  pose proof (redis_run_counted key t0 cfg Ht0 Hrpm reqs 0 last r Ho Hl) as Hb.
  rewrite Z.add_0_l in Hb. apply Hb; [lia|]. intros t _ _ _. apply Hv.
Qed.

(** A store with no failures: a map from keys to a counter and its expiry. *)
Definition simple_value (m : gmap string (Z * Z)) (k : string) (t : Z) : Z :=
  match m !! k with Some (n, expiry) => if t <? expiry then n else 0 | None => 0 end.

#[export] Program Instance SimpleRedis : Redis := {|
  redis := gmap string (Z * Z);
  redis_error := unit;
  value := simple_value;
  IncrExpire := fun k ttl now m =>
    let n := simple_value m k now + 1 in (Ok n, <[k := (n, now + ttl)]> m);
|}.
Next Obligation. intros k ttl now m n m' [= <- _]. done. Qed.
Next Obligation.
  intros k ttl now m n m' t [= <- <-] Ht. unfold simple_value at 1. rewrite lookup_insert_eq.
  rewrite (proj2 (Z.ltb_lt _ _)); [done|lia].
Qed.
Next Obligation. intros k ttl now m e m' t [=]. Qed.
Next Obligation. intros k ttl now m k' t Hk. unfold simple_value. cbn. by rewrite lookup_insert_ne. Qed.

Definition limit3 (key : string) : RateLimitConfig := {| RequestsPerMinute := 3; Burst := 0 |}.

(** Calls of one key at the given seconds. *)
Definition calls_at (ts : list Z) : list RReq := map (fun t => mkRReq "u" (t * Second) (t * Second)) ts.

Lemma redis_fixed_window_witness :
  map snd (fst (redis_run limit3 (calls_at [1700000040; 1700000041; 1700000042; 1700000099])
    (CreateRedisBackedRateLimiter ∅))) = [Ok true; Ok true; Ok true; Ok false] /\
  count (fun o => hits "u" (1700000040 * Second) (fst o) && granted (snd o))
    (fst (redis_run limit3 (calls_at [1700000040; 1700000041; 1700000042; 1700000099])
      (CreateRedisBackedRateLimiter ∅))) <= 3.
Proof.
  split; [by vm_compute|].
  apply (redis_fixed_window limit3 "u" (1700000040 * Second)
           (calls_at [1700000040; 1700000041; 1700000042; 1700000099]) (CreateRedisBackedRateLimiter ∅)).
  - split; by vm_compute.
  - done.
  - split; repeat constructor; vm_compute; discriminate.
  - intros t. done.
Defined.

(** The window is the calendar minute, not the last sixty seconds: at the turn of a
    minute twice the limit passes within four seconds. *)
Example redis_minute_boundary :
  map snd (fst (redis_run limit3 (calls_at
      [1700000097; 1700000098; 1700000099; 1700000100; 1700000100; 1700000101])
    (CreateRedisBackedRateLimiter ∅))) = repeat (Ok true) 6.
Proof. by vm_compute. Qed.

(** ** Falling back *)

Section FaultTolerance.
Context `{Redis} {F : Type} `{RateLimiter F redis_error} (cfg : string -> RateLimitConfig).

(** A call, a tick of the breaker's recovery goroutine, a manual reset. *)
Inductive FtOp :=
| FtCall (key : string) (c : Clocks)
| FtTick (now : Z)
| FtReset (now : Z).

Definition with_breaker (cb : Circuit.CircuitBreaker) (r : FaultTolerant (F := F)) : FaultTolerant :=
  {| limiter := limiter r; circuitBreaker := cb; fallback := fallback r |}.

Fixpoint ft_run (ops : list FtOp) (r : FaultTolerant (F := F)) : list (result redis_error bool) * FaultTolerant :=
  match ops with
  | [] => ([], r)
  | FtCall key c :: ops =>
      let '(res, r') := Allow_ft key (cfg key) c r in
      let '(outs, r'') := ft_run ops r' in (res :: outs, r'')
  | FtTick now :: ops => ft_run ops (with_breaker (Circuit.autoRecovery_tick now (circuitBreaker r)) r)
  | FtReset now :: ops => ft_run ops (ResetCircuitBreaker now r)
  end.

(** The same calls on the fallback alone. *)
Fixpoint fallback_run (ops : list FtOp) (f : F) : list (result redis_error bool) :=
  match ops with
  | [] => []
  | FtCall key c :: ops =>
      let '(res, f') := rl_Allow key (cfg key) (t_local c) f in res :: fallback_run ops f'
  | _ :: ops => fallback_run ops f
  end.

Definition is_call (o : FtOp) : Prop := match o with FtCall _ _ => True | _ => False end.

(** Redis is down: no pipeline succeeds. *)
Definition redis_down : Prop := forall k ttl now c, is_ok (fst (IncrExpire k ttl now c)) = false.

Hypothesis (Hdown : redis_down) (Hlimited : forall key, 0 < RequestsPerMinute (cfg key)).

Lemma Allow_redis_down key now nb r : exists e r', Allow_redis key (cfg key) now nb r = (Err e, r').
Proof.
  unfold Allow_redis, checkRateLimit. rewrite (proj2 (Z.leb_gt _ _) (Hlimited key)).
  set (k := rate_key _ _ _). pose proof (Hdown k (Minute + Second) now (client r)) as Hd.
  destruct (IncrExpire k _ _ _) as [[n|e] c]; [done|eauto].
Qed.

(** A call with Redis down is answered by the fallback and recorded as a failure,
    unless the breaker is open, in which case Redis is not asked. *)
Lemma Allow_ft_down key c r :
  exists l, Allow_ft key (cfg key) c r =
    use_fallback key (cfg key) (t_local c)
      {| limiter := l;
         circuitBreaker := if Circuit.IsOpen (circuitBreaker r) then circuitBreaker r
                           else Circuit.recordFailure (t_record c) (circuitBreaker r);
         fallback := fallback r |} /\
    (Circuit.IsOpen (circuitBreaker r) = true -> l = limiter r).
Proof.
  unfold Allow_ft, Circuit.Call, redis_attempt. unfold Circuit.IsOpen.
  destruct (bool_decide _) eqn:E; [exists (limiter r); by destruct r|]. cbn [snd].
  destruct (Allow_redis_down key (t_rate c) (t_burst c) (limiter r)) as (e & l & ->). by exists l.
Qed.

Lemma ft_run_down ops r : fst (ft_run ops r) = fallback_run ops (fallback r).
Proof.
  revert r; induction ops as [|[key c|now|now] ops IH]; intros r; cbn; [done| |by rewrite IH..].
  destruct (Allow_ft_down key c r) as (l & -> & _). unfold use_fallback. cbn [fallback].
  destruct (rl_Allow key (cfg key) (t_local c) (fallback r)) as [res f].
  set (r' := {| limiter := _ |}). specialize (IH r'). destruct (ft_run ops r') as [outs r'']. cbn in *. by rewrite IH.
Qed.

(** With the breaker open and no recovery, Redis is left alone. *)
Lemma ft_run_open ops r :
  Forall is_call ops -> Circuit.IsOpen (circuitBreaker r) = true -> limiter (snd (ft_run ops r)) = limiter r.
Proof.
  revert r; induction ops as [|o ops IH]; intros r Hc Ho; [done|].
  inversion Hc as [|? ? Ho' Hc']; subst. destruct o as [key c| |]; try done. cbn [ft_run].
  destruct (Allow_ft_down key c r) as (l & -> & Hl). rewrite Ho in *. specialize (Hl eq_refl). subst l.
  unfold use_fallback. cbn [fallback limiter circuitBreaker].
  destruct (rl_Allow key (cfg key) (t_local c) (fallback r)) as [res f].
  set (r' := {| limiter := limiter r |}). specialize (IH r' Hc' Ho).
  by destruct (ft_run ops r') as [outs r''].
Qed.

(** Failures left before a closed breaker opens. *)
Lemma ft_run_closed ops r m :
  Forall is_call ops -> Circuit.state (circuitBreaker r) = Circuit.StateClosed ->
  Z.of_nat (S m) = Circuit.maxFailures (circuitBreaker r) - Circuit.failures (circuitBreaker r) ->
  limiter (snd (ft_run ops r)) = limiter (snd (ft_run (take (S m) ops) r)).
Proof.
  revert r m; induction ops as [|o ops IH]; intros r m Hc Hs Hm; [done|].
  inversion Hc as [|? ? Ho' Hc']; subst. destruct o as [key c| |]; try done. cbn [take ft_run].
  destruct (Allow_ft_down key c r) as (l & -> & _).
  replace (Circuit.IsOpen (circuitBreaker r)) with false by (unfold Circuit.IsOpen; by rewrite Hs).
  unfold use_fallback. cbn [fallback limiter circuitBreaker].
  destruct (rl_Allow key (cfg key) (t_local c) (fallback r)) as [res f].
  set (r' := {| limiter := l |}).
  enough (limiter (snd (ft_run ops r')) = limiter (snd (ft_run (take m ops) r'))) as E
    by (destruct (ft_run ops r'), (ft_run (take m ops) r'); done).
  destruct m as [|m].
  - rewrite ft_run_open; [by destruct ops|done|]. subst r'. cbn. unfold Circuit.recordFailure. cbn. rewrite Hs.
    rewrite (proj2 (Z.leb_le _ _)) by lia. done.
  - apply IH; [done|..]; subst r'; cbn; unfold Circuit.recordFailure; cbn; rewrite Hs;
      rewrite (proj2 (Z.leb_gt _ _)) by lia; [done|cbn; lia].
Qed.

End FaultTolerance.

(** While Redis is down, the fault-tolerant limiter never returns an error of its own: whatever the
    calls, recovery ticks and resets, its answers are those of the fallback limiter alone.  A fresh
    one bothers Redis for at most five calls before the breaker opens. *)
Lemma redis_down_uses_fallback `{Redis} {F : Type} `{RateLimiter F redis_error}
    (cfg : string -> RateLimitConfig) (c : redis) (local : F) (t : Z) (ops : list FtOp) :
  redis_down -> (forall key, 0 < RequestsPerMinute (cfg key)) ->
  let r := CreateFaultTolerantRedisRateLimiter c local t in
  fst (ft_run cfg ops r) = fallback_run cfg ops local /\
  (Forall is_call ops -> limiter (snd (ft_run cfg ops r)) = limiter (snd (ft_run cfg (take 5 ops) r))).
Proof.
  intros Hd Hl r. split; [by apply (ft_run_down cfg Hd Hl ops r)|].
  intros Hc. by apply (ft_run_closed cfg Hd Hl ops r 4).
Qed.

(** A store that counts the attempts and fails. *)
#[local] Program Instance DeadRedis : Redis := {|
  redis := nat;
  redis_error := unit;
  value := fun _ _ _ => 0;
  IncrExpire := fun _ _ _ n => (Err tt, S n);
|}.
Next Obligation. intros k ttl now m n m' [=]. Qed.
Next Obligation. intros k ttl now m n m' t [=]. Qed.
Next Obligation. done. Qed.
Next Obligation. done. Qed.

Lemma redis_down_uses_fallback_witness :
  let ops := repeat (FtCall "u" (mkClocks 0 0 0 0)) 7 in
  let r := @CreateFaultTolerantRedisRateLimiter DeadRedis _ 0%nat CreateLocalMemoryRateLimiter 0 in
  fst (ft_run limit3 ops r) = [Ok true; Ok true; Ok true; Ok false; Ok false; Ok false; Ok false] /\
  limiter (snd (ft_run limit3 ops r)) = limiter (snd (ft_run limit3 (take 5 ops) r)).
Proof.
  intros ops r.
  destruct (@redis_down_uses_fallback DeadRedis _ _ limit3 0%nat CreateLocalMemoryRateLimiter 0 ops) as [H1 H2];
    [done|done|]. fold r in H1, H2. rewrite H1. split; [by vm_compute|]. apply H2. by repeat constructor.
Defined.

End GwLimit.
