(* ===== verification/RouterRateLimit.v ===== *)
(** * The router's rate limiters

    [services/router/internal/ratelimit/ratelimit.go]: a sliding window, a token
    bucket on float64 (IEEE 754 binary64, through the executable specification of the
    Standard Library), and a limiter that admits everything.  Clock readings are
    arguments.  The waiting loops run over a schedule: what each iteration sees. *)
From S2P Require Import Prelude SlidingWindow GoFloat.
#[local] Open Scope Z_scope.

Module RouterLimit.

Inductive LimitError := RateExceeded | WaitTooLong (wait : Z) | ContextDone.

(** ** The [RateLimiter] interface *)

Class RateLimiter (L : Type) := { rl_Allow : Z -> L -> result LimitError unit * L }.

(** ** Sliding window *)

Definition DefaultBackoffTime : Z := 10 * Millisecond.

Record SlidingWindowLimiter := mkSW {
  windowSize : Z;
  maxEvents : Z;
  events : list Z;
  cleanupAt : Z;
}.

Definition NewSlidingWindowLimiter (windowSize maxEvents now : Z) : SlidingWindowLimiter :=
  {| windowSize := windowSize; maxEvents := maxEvents; events := []; cleanupAt := time_add now windowSize |}.

Definition cleanup (now : Z) (l : SlidingWindowLimiter) : SlidingWindowLimiter :=
  let windowStart := time_add now (dur_neg (windowSize l)) in
  {| windowSize := windowSize l; maxEvents := maxEvents l;
     events := List.filter (fun t => time_after t windowStart) (events l); cleanupAt := cleanupAt l |}.

Definition with_cleanupAt (t : Z) (l : SlidingWindowLimiter) : SlidingWindowLimiter :=
  {| windowSize := windowSize l; maxEvents := maxEvents l; events := events l; cleanupAt := t |}.

Definition SlidingWindow_Allow (now : Z) (l : SlidingWindowLimiter) : result LimitError unit * SlidingWindowLimiter :=
  if maxEvents l <=? 0 then (Err RateExceeded, l)
  else
    let l := if time_after now (cleanupAt l)
             then with_cleanupAt (time_add now (windowSize l)) (cleanup now l) else l in
    let windowStart := time_add now (dur_neg (windowSize l)) in
    if maxEvents l <=? count (fun t => time_after t windowStart) (events l) then (Err RateExceeded, l)
    else (Ok tt, {| windowSize := windowSize l; maxEvents := maxEvents l;
                    events := events l ++ [now]; cleanupAt := cleanupAt l |}).

#[export] Instance SlidingWindow_RL : RateLimiter SlidingWindowLimiter := {| rl_Allow := SlidingWindow_Allow |}.

(** One iteration of a waiting loop: whether the context is done at its start, the
    clock reading of [Allow], and whether the context ends while the timer runs. *)
Record Poll := mkPoll { done_before : bool; poll_now : Z; done_waiting : bool }.

(** The [Wait] loop, polling with exponential backoff; [None] when the schedule ends
    while still waiting.  The durations waited are returned. *)
Fixpoint SlidingWindow_Wait (backoff : Z) (polls : list Poll) (l : SlidingWindowLimiter)
    : option (result LimitError unit) * list Z * SlidingWindowLimiter :=
  match polls with
  | [] => (None, [], l)
  | q :: polls =>
      if done_before q then (Some (Err ContextDone), [], l)
      else match SlidingWindow_Allow (poll_now q) l with
           | (Ok tt, l') => (Some (Ok tt), [], l')
           | (Err _, l') =>
               if done_waiting q then (Some (Err ContextDone), [backoff], l')
               else
                 let next := let b := wrap_s 64 (backoff * 2) in if Second <? b then Second else b in
                 let '(r, waits, l'') := SlidingWindow_Wait next polls l' in (r, backoff :: waits, l'')
           end
  end.

(** ** Token bucket *)

(** [d.Seconds()]: whole seconds plus the fraction. *)
Definition Seconds (d : Z) : float :=
  fadd (float_of_int (Z.quot d Second)) (fdiv (float_of_int (Z.rem d Second)) (float_of_int Second)).

Section TokenBucket.
Variable out_of_range : float -> Z.
#[local] Notation duration_of_float := (duration_of_float out_of_range).

Record TokenBucketLimiter := mkTB {
  rate : float;
  burst : Z;
  maxWait : Z;
  tokens : float;
  lastTime : Z;
}.

Definition NewTokenBucketLimiter (rate : float) (burst maxWait now : Z) : TokenBucketLimiter :=
  {| rate := rate; burst := burst; maxWait := maxWait;
     tokens := if (burst <=? 0) && SFltb fzero rate then fone
               else if burst <=? 0 then fzero else float_of_int burst;
     lastTime := now |}.

Definition with_tokens (t : float) (now : Z) (l : TokenBucketLimiter) : TokenBucketLimiter :=
  {| rate := rate l; burst := burst l; maxWait := maxWait l; tokens := t; lastTime := now |}.

(** The refill shared by [Allow] and [Wait], capped at [maxTokens]. *)
Definition refill (maxTokens : float) (now : Z) (l : TokenBucketLimiter) : float :=
  let t := fadd (tokens l) (fmul (Seconds (time_sub now (lastTime l))) (rate l)) in
  if SFltb maxTokens t then maxTokens else t.

Definition TokenBucket_Allow (now : Z) (l : TokenBucketLimiter) : result LimitError unit * TokenBucketLimiter :=
  if SFleb (rate l) fzero then (Err RateExceeded, l)
  else
    let maxTokens := if burst l <=? 0 then fone else float_of_int (burst l) in
    let t := refill maxTokens now l in
    if SFleb fone t then (Ok tt, with_tokens (fsub t fone) now l)
    else (Err RateExceeded, with_tokens t now l).

(** The [Wait] loop of the token bucket; [None] while still waiting. *)
Fixpoint TokenBucket_Wait (polls : list Poll) (l : TokenBucketLimiter)
    : option (result LimitError unit) * TokenBucketLimiter :=
  match polls with
  | [] => (None, l)
  | q :: polls =>
      let t := refill (float_of_int (burst l)) (poll_now q) l in
      if SFleb fone t then (Some (Ok tt), with_tokens (fsub t fone) (poll_now q) l)
      else
        let l := with_tokens t (poll_now q) l in
        let tokensNeeded := fsub fone t in
        let waitTime := duration_of_float (fmul (fdiv tokensNeeded (rate l)) (float_of_int Second)) in
        if maxWait l <? waitTime then (Some (Err (WaitTooLong waitTime)), l)
        else if done_waiting q then (Some (Err ContextDone), l)
        else TokenBucket_Wait polls l
  end.

#[export] Instance TokenBucket_RL : RateLimiter TokenBucketLimiter := {| rl_Allow := TokenBucket_Allow |}.

(** ** Construction by configuration *)

Inductive Limiter := NoOp | TokenBucket (l : TokenBucketLimiter).

Definition NoOp_Allow : result LimitError unit := Ok tt.

Definition defaultTimeoutSeconds : Z := 30.

Definition NewRateLimiter (ratePerSecond : float) (burst now : Z) : Limiter :=
  if SFleb ratePerSecond fzero then NoOp
  else TokenBucket (NewTokenBucketLimiter ratePerSecond burst (defaultTimeoutSeconds * Second) now).

Definition Limiter_Allow (now : Z) (l : Limiter) : result LimitError unit * Limiter :=
  match l with
  | NoOp => (NoOp_Allow, NoOp)
  | TokenBucket b => let '(r, b') := TokenBucket_Allow now b in (r, TokenBucket b')
  end.

(** ** Token bucket: zero burst *)

(** A refill capped at zero is never a whole token. *)
Lemma refill_zero now l : SFleb fone (refill fzero now l) = false.
Proof.
  unfold refill. set (t := fadd _ _). clearbody t.
  destruct t as [[]|[]| |[] m e]; reflexivity.
Qed.

(** With a burst of zero, [Wait] never admits a request, whatever the rate, the clock and the number
    of iterations, although [Allow] admits one on a fresh limiter of the same configuration (at 10
    requests per second), as its comment promises. *)
Lemma wait_zero_burst_never_admits (polls : list Poll) (l : TokenBucketLimiter) :
  burst l = 0 ->
  fst (TokenBucket_Wait polls l) <> Some (Ok tt) /\
  fst (TokenBucket_Allow 0 (NewTokenBucketLimiter (float_of_int 10) 0 Second 0)) = Ok tt.
Proof.
  intros Hb. split; [|by vm_compute].
  revert l Hb; induction polls as [|q polls IH]; intros l Hb; cbn [TokenBucket_Wait]; [done|].
  rewrite Hb. change (float_of_int 0) with fzero. rewrite refill_zero.
  cbn [with_tokens rate maxWait]. case_tests; [done..|]. by apply IH.
Qed.

End TokenBucket.

Lemma wait_zero_burst_never_admits_witness :
  fst (TokenBucket_Wait (fun _ => 0) (repeat (mkPoll false (5 * Second) false) 5)
    (NewTokenBucketLimiter (float_of_int 10) 0 (30 * Second) 0)) = None /\
  fst (TokenBucket_Wait (fun _ => 0) (repeat (mkPoll false (5 * Second) false) 5)
    (NewTokenBucketLimiter (float_of_int 10) 0 (30 * Second) 0)) <> Some (Ok tt).
Proof.
  split; [by vm_compute|].
  apply (wait_zero_burst_never_admits (fun _ => 0) (repeat (mkPoll false (5 * Second) false) 5)
    (NewTokenBucketLimiter (float_of_int 10) 0 (30 * Second) 0)). done.
Defined.

(** ** Sliding window: the full log *)

Fixpoint window_run (nows : list Z) (l : SlidingWindowLimiter) : list (Z * bool) * SlidingWindowLimiter :=
  match nows with
  | [] => ([], l)
  | now :: nows =>
      let '(r, l') := SlidingWindow_Allow now l in
      let '(outs, l'') := window_run nows l' in ((now, is_ok r) :: outs, l'')
  end.

Definition admissions (outs : list (Z * bool)) : list Z := map fst (List.filter snd outs).

(** The reference: the decision on the complete log. *)
Fixpoint reference_run (w n : Z) (past : list (Z * bool)) (nows : list Z) : list (Z * bool) :=
  match nows with
  | [] => past
  | now :: nows => reference_run w n (past ++ [(now, recent w now (admissions past) <? n)]) nows
  end.

Lemma window_admissions_snoc past now b : admissions (past ++ [(now, b)]) = admissions past ++ (if b then [now] else []).
Proof. unfold admissions. rewrite List.filter_app, map_app. by destruct b. Qed.

(** The events kept count like the log in every window from [last] on. *)
Record window_inv (w n : Z) (past : list (Z * bool)) (last : Z) (l : SlidingWindowLimiter) : Prop := {
  wi_size : windowSize l = w;
  wi_max : maxEvents l = n;
  wi_recent : forall t, last <= t -> recent w t (events l) = recent w t (admissions past);
}.

Lemma Allow_window_step w n past last now l :
  0 <= w <= max_i64 -> 0 < n -> window_inv w n past last l -> last <= now ->
  let '(r, l') := SlidingWindow_Allow now l in
  is_ok r = (recent w now (admissions past) <? n) /\ window_inv w n (past ++ [(now, is_ok r)]) now l'.
Proof.
  intros Hw Hn [Hs Hm He] Hlast. unfold SlidingWindow_Allow. rewrite Hm, (proj2 (Z.leb_gt _ _) Hn).
  cbv zeta. set (l1 := if time_after now (cleanupAt l) then _ else l).
  assert (window_inv w n past now l1) as [Hs1 Hm1 He1].
  { subst l1. destruct (time_after now (cleanupAt l)).
    - split; cbn; [done..|]. intros t Ht. rewrite Hs. unfold time_add, time_after. rewrite dur_neg_small by done.
      change (now + - w) with (now - w). rewrite recent_filter by done. apply He. lia.
    - split; [done..|]. intros t Ht. apply He. lia. }
  rewrite Hs1, Hm1.
  replace (count _ (events l1)) with (recent w now (admissions past)).
  2:{ rewrite <- He1 by lia. unfold recent, time_after, time_add. by rewrite dur_neg_small. }
  destruct (Z.leb_spec n (recent w now (admissions past))) as [Hf|Hf]; cbn [is_ok].
  - rewrite (proj2 (Z.ltb_ge _ _) Hf). split; [done|]. split; [done..|].
    intros t Ht. rewrite window_admissions_snoc, app_nil_r. by apply He1.
  - rewrite (proj2 (Z.ltb_lt _ _) Hf). split; [done|]. split; cbn; [done..|].
    intros t Ht. rewrite window_admissions_snoc, !recent_app, He1 by done. done.
Qed.

Lemma window_run_reference w n nows past last l :
  0 <= w <= max_i64 -> 0 < n -> window_inv w n past last l ->
  StronglySorted Z.le nows -> Forall (Z.le last) nows ->
  reference_run w n past nows = past ++ fst (window_run nows l).
Proof.
  intros Hw Hn. revert past last l; induction nows as [|now nows IH]; intros past last l Hi Hs Hl; cbn.
  { by rewrite app_nil_r. }
  inversion Hs as [|? ? Hs' Hq]; inversion Hl as [|? ? Hlq Hl']; subst.
  pose proof (Allow_window_step w n past last now l Hw Hn Hi Hlq) as Hst.
  destruct (SlidingWindow_Allow now l) as [r l']. destruct Hst as [<- Hi'].
  rewrite (IH _ _ _ Hi' Hs' Hq). destruct (window_run nows l') as [outs l'']. by rewrite <- app_assoc.
Qed.

Lemma window_reference_admitted w n nows past last :
  admitted w n (admissions past) -> (forall x, x ∈ admissions past -> x <= last) ->
  StronglySorted Z.le nows -> Forall (Z.le last) nows ->
  admitted w n (admissions (reference_run w n past nows)).
Proof.
  revert past last; induction nows as [|now nows IH]; intros past last Ha Hle Hs Hl; cbn; [done|].
  inversion Hs as [|? ? Hs' Hq]; inversion Hl as [|? ? Hlq Hl']; subst.
  apply (IH _ now); [| |done..]; rewrite window_admissions_snoc; destruct (Z.ltb_spec (recent w now (admissions past)) n).
  - constructor; [done| |done]. intros x Hx. specialize (Hle x Hx). lia.
  - by rewrite app_nil_r.
  - intros x [Hx|Hx]%elem_of_app; [specialize (Hle x Hx); lia|set_solver by lia].
  - intros x Hx. rewrite app_nil_r in Hx. specialize (Hle x Hx). lia.
Qed.

(** The sliding-window limiter decides as if it kept every admission (its periodic clean-up never
    matters), so for clock readings in order no window of length windowSize, wherever it lies, holds
    more than maxEvents admissions. *)
Lemma sliding_window_bound (w n t0 : Z) (nows : list Z) :
  0 <= w <= max_i64 -> 0 < n -> StronglySorted Z.le nows ->
  let outs := fst (window_run nows (NewSlidingWindowLimiter w n t0)) in
  outs = reference_run w n [] nows /\
  forall t, count (fun x => (t - w <? x) && (x <=? t)) (admissions outs) <= n.
Proof.
  intros Hw Hn Hs outs.
  assert (exists last, Forall (Z.le last) nows) as [last Hl].
  { destruct nows as [|x nows]; [by exists 0|]. inversion Hs; subst. exists x. by constructor. }
  assert (outs = reference_run w n [] nows) as Ho.
  { symmetry. apply (window_run_reference w n nows [] last); [done|done| |done|done]. by split. }
  split; [done|]. intros t. rewrite Ho. apply admitted_window; [lia|].
  apply (window_reference_admitted w n nows [] last); [constructor|set_solver|done..].
Qed.

Lemma sliding_window_bound_witness :
  map snd (fst (window_run [0; 1; 2; 11; 12] (NewSlidingWindowLimiter 10 2 0))) = [true; true; false; true; true] /\
  forall t, count (fun x => (t - 10 <? x) && (x <=? t))
    (admissions (fst (window_run [0; 1; 2; 11; 12] (NewSlidingWindowLimiter 10 2 0)))) <= 2.
Proof.
  split; [by vm_compute|].
  apply (sliding_window_bound 10 2 0 [0; 1; 2; 11; 12]); [unfold max_i64; lia|lia|repeat constructor; lia].
Defined.

End RouterLimit.
