(* ===== verification/GatewayErrors.v ===== *)
(** * Gateway errors

    [services/gateway/internal/errors/errors.go] and [context.go], with the
    constructors of [validation_errors.go] and [session/errors.go].  Errors are
    pointers to mutable structs and their context is a Go map that wrapping shares,
    so the model threads a heap of errors and maps.  A nil dereference panics. *)
From S2P Require Import Prelude.
#[local] Open Scope Z_scope.

Module GwErrors.

Definition ErrorType : Type := string.
Definition TypeValidation : ErrorType := "VALIDATION".
Definition TypeNotFound : ErrorType := "NOT_FOUND".
Definition TypeUnauthorized : ErrorType := "UNAUTHORIZED".
Definition TypeForbidden : ErrorType := "FORBIDDEN".
Definition TypeInternal : ErrorType := "INTERNAL".
Definition TypeTimeout : ErrorType := "TIMEOUT".
Definition TypeCanceled : ErrorType := "CANCELED".
Definition TypeRateLimit : ErrorType := "RATE_LIMIT".
Definition TypeConflict : ErrorType := "CONFLICT".
Definition TypeUnavailable : ErrorType := "UNAVAILABLE".

Definition SeverityLow : string := "LOW".
Definition SeverityMedium : string := "MEDIUM".
Definition SeverityHigh : string := "HIGH".

Definition getSeverityForType (t : ErrorType) : string :=
  if bool_decide (t = TypeInternal) then SeverityHigh
  else if bool_decide (t ∈ [TypeUnauthorized; TypeForbidden]) then SeverityMedium
  else if bool_decide (t ∈ [TypeValidation; TypeNotFound]) then SeverityLow
  else if bool_decide (t ∈ [TypeTimeout; TypeUnavailable]) then SeverityMedium
  else if bool_decide (t ∈ [TypeRateLimit; TypeCanceled; TypeConflict]) then SeverityLow
  else SeverityMedium.

Definition isRetryableType (t : ErrorType) : bool :=
  bool_decide (t ∈ [TypeTimeout; TypeUnavailable; TypeRateLimit]).

(** ** Errors, pointers and the heap *)

(** Errors of other packages: the two context errors, an error with a [Temporary]
    method, any other. *)
Inductive stdError := DeadlineExceeded | Canceled | NetError (text : string) (temporary : bool) | TextError (text : string).

(** An [error] value: a foreign error, a [fmt.Errorf("...%w")] wrapper with its
    text, or a pointer to a [GatewayError]. *)
Inductive error :=
| EStd (e : stdError)
| EWrap (text : string) (inner : error)
| EGw (l : nat).

Inductive value := VStr (s : string) | VInt (z : Z) | VTime (t : Z) | VOther.

Record GatewayError := mkGE {
  Type_ : ErrorType;
  Message : string;
  Code : string;
  Cause : option error;
  Ctx : option nat;           (* the map, nil or shared *)
  Stack : list string;
  Severity : string;
  Retryable : bool;
  HTTPStatus : Z;
  Component : string;
  Operation : string;
}.

Record heap := mkHeap { errs : gmap nat GatewayError; maps : gmap nat (gmap string value); next : nat }.

Definition empty_heap : heap := {| errs := ∅; maps := ∅; next := 0 |}.

Inductive panic := NilDereference.

Notation op A := (M heap panic A).

(** Allocation of a struct, and [make(map[string]interface{})]. *)
Definition new_error (e : GatewayError) : op (option nat) := fun h =>
  (Ok (Some (next h)), {| errs := <[next h := e]> (errs h); maps := maps h; next := S (next h) |}).

Definition new_map : op nat := fun h =>
  (Ok (next h), {| errs := errs h; maps := <[next h := ∅]> (maps h); next := S (next h) |}).

Definition deref (p : option nat) : op (nat * GatewayError) := fun h =>
  match p with
  | Some l => match errs h !! l with Some e => (Ok (l, e), h) | None => (Err NilDereference, h) end
  | None => (Err NilDereference, h)
  end.

Definition store_error (l : nat) (e : GatewayError) : op unit := fun h =>
  (Ok tt, {| errs := <[l := e]> (errs h); maps := maps h; next := next h |}).

Definition map_put (m : nat) (k : string) (v : value) : op unit := fun h =>
  (Ok tt, {| errs := errs h; maps := alter (insert k v) m (maps h); next := next h |}).

Section Errors.

(** [runtime.Caller] frames. *)
Variable captureStack : Z -> list string.
Definition stackSkipFrames : Z := 2.

Definition New (t : ErrorType) (message : string) : op (option nat) :=
  new_error {| Type_ := t; Message := message; Code := ""; Cause := None; Ctx := None;
               Stack := captureStack stackSkipFrames; Severity := getSeverityForType t;
               Retryable := isRetryableType t; HTTPStatus := 0; Component := ""; Operation := "" |}.

Definition WithContext (k : string) (v : value) (p : option nat) : op (option nat) :=
  '(l, e) ← deref p;
  m ← (match Ctx e with
       | Some m => mret m
       | None => m ← new_map;
                 _ ← store_error l
                   {| Type_ := Type_ e; Message := Message e; Code := Code e; Cause := Cause e; Ctx := Some m;
                      Stack := Stack e; Severity := Severity e; Retryable := Retryable e;
                      HTTPStatus := HTTPStatus e; Component := Component e; Operation := Operation e |};
                 mret m
       end : op nat);
  _ ← map_put m k v;
  mret p.

Definition WithOperation (operation : string) (p : option nat) : op (option nat) :=
  '(l, e) ← deref p;
  _ ← store_error l
    {| Type_ := Type_ e; Message := Message e; Code := Code e; Cause := Cause e; Ctx := Ctx e;
       Stack := Stack e; Severity := Severity e; Retryable := Retryable e;
       HTTPStatus := HTTPStatus e; Component := Component e; Operation := operation |};
  mret p.

Definition WithComponent (component : string) (p : option nat) : op (option nat) :=
  '(l, e) ← deref p;
  _ ← store_error l
    {| Type_ := Type_ e; Message := Message e; Code := Code e; Cause := Cause e; Ctx := Ctx e;
       Stack := Stack e; Severity := Severity e; Retryable := Retryable e;
       HTTPStatus := HTTPStatus e; Component := component; Operation := Operation e |};
  mret p.

Definition WithHTTPStatus (status : Z) (p : option nat) : op (option nat) :=
  '(l, e) ← deref p;
  _ ← store_error l
    {| Type_ := Type_ e; Message := Message e; Code := Code e; Cause := Cause e; Ctx := Ctx e;
       Stack := Stack e; Severity := Severity e; Retryable := Retryable e;
       HTTPStatus := status; Component := Component e; Operation := Operation e |};
  mret p.

Definition AsRetryable (p : option nat) : op (option nat) :=
  '(l, e) ← deref p;
  _ ← store_error l
    {| Type_ := Type_ e; Message := Message e; Code := Code e; Cause := Cause e; Ctx := Ctx e;
       Stack := Stack e; Severity := Severity e; Retryable := true;
       HTTPStatus := HTTPStatus e; Component := Component e; Operation := Operation e |};
  mret p.

(** [errors.As(err, &ge)]: the first [GatewayError] of the chain. *)
Fixpoint As (err : error) : option nat :=
  match err with
  | EGw l => Some l
  | EWrap _ inner => As inner
  | EStd _ => None
  end.

Definition Wrap (err : option error) (message : string) : op (option nat) :=
  match err with
  | None => mret None
  | Some err =>
      match As err with
      | Some l =>
          '(_, ge) ← deref (Some l);
          new_error {| Type_ := Type_ ge; Message := message; Code := ""; Cause := Some (EGw l); Ctx := Ctx ge;
                       Stack := captureStack stackSkipFrames; Severity := Severity ge;
                       Retryable := Retryable ge; HTTPStatus := HTTPStatus ge;
                       Component := Component ge; Operation := Operation ge |}
      | None =>
          new_error {| Type_ := TypeInternal; Message := message; Code := ""; Cause := Some err; Ctx := None;
                       Stack := captureStack stackSkipFrames; Severity := SeverityMedium;
                       Retryable := false; HTTPStatus := 0; Component := ""; Operation := "" |}
      end
  end.

Definition WrapWithType (err : option error) (t : ErrorType) (message : string) : op (option nat) :=
  match err with
  | None => mret None
  | Some err =>
      new_error {| Type_ := t; Message := message; Code := ""; Cause := Some err; Ctx := None;
                   Stack := captureStack stackSkipFrames; Severity := getSeverityForType t;
                   Retryable := isRetryableType t; HTTPStatus := 0; Component := ""; Operation := "" |}
  end.

(** ** Classification *)

Definition lookup_error (h : heap) (err : error) : option GatewayError := l ← As err; errs h !! l.

Definition IsType (h : heap) (err : error) (t : ErrorType) : bool :=
  match lookup_error h err with Some ge => bool_decide (Type_ ge = t) | None => false end.

(** [errors.Is(err, DeadlineExceeded) || errors.Is(err, Canceled)] on a chain
    without gateway errors. *)
Fixpoint is_context_error (err : error) : bool :=
  match err with
  | EStd DeadlineExceeded | EStd Canceled => true
  | EWrap _ inner => is_context_error inner
  | _ => false
  end.

Definition IsRetryable (h : heap) (err : error) : bool :=
  match lookup_error h err with
  | Some ge => Retryable ge
  | None => if is_context_error err then true
            else match err with EStd (NetError _ temporary) => temporary | _ => false end
  end.

Definition getErrorTypeStatusMap : list (ErrorType * Z) :=
  [(TypeValidation, 400); (TypeUnauthorized, 401); (TypeForbidden, 403); (TypeNotFound, 404);
   (TypeConflict, 409); (TypeRateLimit, 429); (TypeTimeout, 408); (TypeUnavailable, 503);
   (TypeCanceled, 499); (TypeInternal, 500)].

(** [GetHTTPStatus]; [entries] is the order in which the range loop visits the
    status map, which Go leaves open. *)
Definition GetHTTPStatus (entries : list (ErrorType * Z)) (h : heap) (err : error) : Z :=
  let from_map := match List.find (fun p => IsType h err (fst p)) entries with
                  | Some (_, status) => status
                  | None => 500
                  end in
  match lookup_error h err with
  | Some ge => if 0 <? HTTPStatus ge then HTTPStatus ge else from_map
  | None => from_map
  end.

(** The [Is] method of a gateway error. *)
Definition GatewayError_Is (e : GatewayError) (h : heap) (target : error) : bool :=
  match target with
  | EGw l => match errs h !! l with
             | Some t => bool_decide (Type_ e = Type_ t) && bool_decide (Code e = Code t)
             | None => false
             end
  | _ => false
  end.

(** ** Context values *)

(** The request context: the values of the ten keys, by field name.  [FromContext]
    visits them in this order. *)
Definition getContextMappings : list string :=
  ["request_id"; "user_id"; "session_id"; "endpoint"; "method"; "namespace"; "backend"; "protocol";
   "client_ip"; "trace_id"].

Definition std_text (err : stdError) : string :=
  match err with
  | DeadlineExceeded => "context deadline exceeded"
  | Canceled => "context canceled"
  | NetError s _ | TextError s => s
  end.

(** [err.Error()] of a chain without gateway errors. *)
Definition plain_text (err : error) : string :=
  match err with EStd e => std_text e | EWrap s _ => s | EGw _ => "" end.

Fixpoint add_context (ctx : gmap string value) (fields : list string) (p : option nat) : op (option nat) :=
  match fields with
  | [] => mret p
  | f :: fields =>
      match ctx !! f with
      | Some v => p ← WithContext f v p; add_context ctx fields p
      | None => add_context ctx fields p
      end
  end.

Definition FromContext (ctx : gmap string value) (err : option error) : op (option nat) :=
  match err with
  | None => mret None
  | Some err =>
      p ← (match As err with
           | Some l => mret (Some l)
           | None => Wrap (Some err) (plain_text err)
           end : op (option nat));
      add_context ctx getContextMappings p
  end.

Definition as_error (p : option nat) : option error := EGw <$> p.

Definition WrapContext (ctx : gmap string value) (err : option error) (message : string) : op (option nat) :=
  match err with
  | None => mret None
  | Some _ => p ← Wrap err message; FromContext ctx (as_error p)
  end.

Definition NewWithContext (ctx : gmap string value) (t : ErrorType) (message : string) : op (option nat) :=
  p ← New t message; FromContext ctx (as_error p).

(** [EnrichContext] and its siblings: only non-empty values are stored. *)
Definition with_value (k v : string) (ctx : gmap string value) : gmap string value :=
  if bool_decide (v = EmptyString) then ctx else <[k := VStr v]> ctx.

Definition EnrichContext (requestID userID sessionID clientIP : string) (ctx : gmap string value) : gmap string value :=
  with_value "client_ip" clientIP (with_value "session_id" sessionID
    (with_value "user_id" userID (with_value "request_id" requestID ctx))).

Definition EnrichWithEndpoint (endpoint method protocol : string) (ctx : gmap string value) : gmap string value :=
  with_value "protocol" protocol (with_value "method" method (with_value "endpoint" endpoint ctx)).

Definition EnrichWithBackend (backend namespace : string) (ctx : gmap string value) : gmap string value :=
  with_value "namespace" namespace (with_value "backend" backend ctx).

Definition EnrichWithTraceID (traceID : string) (ctx : gmap string value) : gmap string value :=
  with_value "trace_id" traceID ctx.

(** ** Constructors *)

Local Infix "+s" := String.append (at level 50, left associativity).
(** Method chaining: [e.WithComponent(...).WithContext(...)]. *)
Local Notation "m ->> f" := (mbind f m) (at level 61, left associativity).

Definition NewValidationError (message : string) : op (option nat) :=
  New TypeValidation message ->> WithHTTPStatus 400.
Definition NewNotFoundError (resource : string) : op (option nat) :=
  New TypeNotFound (resource +s " not found") ->> WithHTTPStatus 404.
Definition NewUnauthorizedError (message : string) : op (option nat) :=
  New TypeUnauthorized message ->> WithHTTPStatus 401.
Definition NewForbiddenError (message : string) : op (option nat) :=
  New TypeForbidden message ->> WithHTTPStatus 403.
Definition NewInternalError (message : string) : op (option nat) :=
  New TypeInternal message ->> WithHTTPStatus 500.

Definition NewTimeoutError (operation : string) (cause : option error) : op (option nat) :=
  match cause with
  | Some _ =>
      WrapWithType cause TypeTimeout ("operation " +s operation +s " timed out")
        ->> WithHTTPStatus 408 ->> WithOperation operation
  | None =>
      New TypeTimeout ("operation " +s operation +s " timed out")
        ->> WithHTTPStatus 408 ->> WithOperation operation
  end.

Definition NewRateLimitError (message : string) : op (option nat) :=
  New TypeRateLimit message ->> WithHTTPStatus 429.
Definition NewUnavailableError (service : string) : op (option nat) :=
  New TypeUnavailable ("service " +s service +s " is unavailable") ->> WithHTTPStatus 503.

(** [backend_errors.go]. *)
Definition CreateConnectionError (backendName protocol message : string) (cause : option error) : op (option nat) :=
  (match cause with Some _ => Wrap cause message | None => New TypeInternal message end)
    ->> WithComponent "backend" ->> WithOperation "connect"
    ->> WithContext "backend_name" (VStr backendName) ->> WithContext "protocol" (VStr protocol)
    ->> WithContext "code" (VStr "BACKEND_CONNECTION_FAILED")
    ->> WithHTTPStatus 503 ->> AsRetryable.

Definition WrapWriteError (ctx : gmap string value) (err : option error) (backendName : string) (dataSize : Z)
    : op (option nat) :=
  WrapContext ctx err "failed to write to backend"
    ->> WithComponent "backend" ->> WithOperation "write"
    ->> WithContext "backend_name" (VStr backendName) ->> WithContext "data_size" (VInt dataSize)
    ->> WithContext "code" (VStr "BACKEND_WRITE_FAILED").

Definition WrapReadError (ctx : gmap string value) (err : option error) (backendName : string) : op (option nat) :=
  WrapContext ctx err "failed to read from backend"
    ->> WithComponent "backend" ->> WithOperation "read"
    ->> WithContext "backend_name" (VStr backendName) ->> WithContext "code" (VStr "BACKEND_READ_FAILED").

Definition CreateBackendUnavailableError (backendName reason : string) : op (option nat) :=
  New TypeUnavailable ("backend " +s backendName +s " unavailable: " +s reason)
    ->> WithComponent "backend" ->> WithContext "backend_name" (VStr backendName)
    ->> WithContext "reason" (VStr reason) ->> WithContext "code" (VStr "BACKEND_UNAVAILABLE")
    ->> WithHTTPStatus 503.

Definition CreateBackendOverloadedError (backendName : string) (queueSize : Z) : op (option nat) :=
  New TypeRateLimit ("backend " +s backendName +s " is overloaded")
    ->> WithComponent "backend" ->> WithContext "backend_name" (VStr backendName)
    ->> WithContext "queue_size" (VInt queueSize) ->> WithContext "code" (VStr "BACKEND_OVERLOADED")
    ->> WithHTTPStatus 503.

(** [session/errors.go]. *)
Definition NewSessionNotFoundError (sessionID : string) : op (option nat) :=
  New TypeNotFound "session not found"
    ->> WithComponent "session" ->> WithContext "session_id" (VStr sessionID)
    ->> WithContext "code" (VStr "SESSION_NOT_FOUND") ->> WithHTTPStatus 404.

Definition NewSessionExpiredError (sessionID : string) (expiredAt : Z) : op (option nat) :=
  New TypeUnauthorized "session has expired"
    ->> WithComponent "session" ->> WithContext "session_id" (VStr sessionID)
    ->> WithContext "expired_at" (VTime expiredAt)
    ->> WithContext "code" (VStr "SESSION_EXPIRED") ->> WithHTTPStatus 401.

Definition WrapSessionCreationError (ctx : gmap string value) (err : option error) (userID : string) : op (option nat) :=
  WrapContext ctx err "failed to create session"
    ->> WithComponent "session" ->> WithOperation "create"
    ->> WithContext "user_id" (VStr userID) ->> WithContext "code" (VStr "SESSION_CREATION_FAILED").

Definition WrapSessionStoreError (ctx : gmap string value) (err : option error) (operation sessionID : string)
    : op (option nat) :=
  WrapContext ctx err ("session store " +s operation +s " failed")
    ->> WithComponent "session" ->> WithOperation ("store_" +s operation)
    ->> WithContext "session_id" (VStr sessionID) ->> WithContext "code" (VStr "SESSION_STORE_FAILED").

Definition WrapSessionDeleteError (ctx : gmap string value) (err : option error) (sessionID : string) : op (option nat) :=
  WrapContext ctx err "failed to delete session"
    ->> WithComponent "session" ->> WithOperation "delete"
    ->> WithContext "session_id" (VStr sessionID) ->> WithContext "code" (VStr "SESSION_DELETE_FAILED").

(** [validation_errors.go]. *)
Definition NewEmptyFieldError (field : string) : op (option nat) :=
  New TypeValidation (field +s " cannot be empty")
    ->> WithComponent "validation" ->> WithContext "field" (VStr field)
    ->> WithContext "code" (VStr "VALIDATION_EMPTY_FIELD") ->> WithHTTPStatus 400.

Definition NewInvalidCharactersError (field val : string) : op (option nat) :=
  New TypeValidation (field +s " contains invalid characters: " +s val)
    ->> WithComponent "validation" ->> WithContext "field" (VStr field) ->> WithContext "value" (VStr val)
    ->> WithContext "code" (VStr "VALIDATION_INVALID_CHARACTERS") ->> WithHTTPStatus 400.

(** ** Wrapping keeps the classification *)

(** A layer around an error: the package's [Wrap] or a [fmt.Errorf("...%w")]. *)
Inductive layer := LWrap (message : string) | LFmt (text : string).

Fixpoint add_layers (ls : list layer) (err : error) : op error :=
  match ls with
  | [] => mret err
  | LFmt text :: ls => add_layers ls (EWrap text err)
  | LWrap message :: ls =>
      p ← Wrap (Some err) message;
      match p with Some l => add_layers ls (EGw l) | None => M_fail NilDereference end
  end.

(** The classification of an error: what its callers branch on. *)
Definition same_class (h : heap) (err : error) (h' : heap) (err' : error) : Prop :=
  IsRetryable h' err' = IsRetryable h err /\
  (forall t, IsType h' err' t = IsType h err t) /\
  (forall entries, GetHTTPStatus entries h' err' = GetHTTPStatus entries h err).

(** Equal class, status and retry fields of the first gateway error of the chains. *)
Definition same_fields (e e' : GatewayError) : Prop :=
  Type_ e' = Type_ e /\ Retryable e' = Retryable e /\ HTTPStatus e' = HTTPStatus e.

Lemma same_fields_class h err h' err' e e' :
  lookup_error h err = Some e -> lookup_error h' err' = Some e' -> same_fields e e' ->
  same_class h err h' err'.
Proof.
  intros He He' (Ht & Hr & Hs). unfold same_class, IsRetryable, GetHTTPStatus, IsType.
  rewrite He, He', Ht, Hr, Hs. done.
Qed.

Definition heap_wf (h : heap) : Prop := forall l, (next h <= l)%nat -> errs h !! l = None /\ maps h !! l = None.

(** Allocation extends the heap. *)
Lemma new_error_spec e h :
  heap_wf h ->
  exists h', new_error e h = (Ok (Some (next h)), h') /\ heap_wf h' /\ errs h' !! next h = Some e /\
    (forall l e0, errs h !! l = Some e0 -> errs h' !! l = Some e0).
Proof.
  intros Hwf. eexists. split; [done|]. cbn. split_and!.
  - intros l Hl. cbn in *. rewrite lookup_insert_ne by lia. apply Hwf. lia.
  - by rewrite lookup_insert_eq.
  - intros l e0 Hl. rewrite lookup_insert_ne; [done|]. intros <-.
    destruct (Hwf (next h) ltac:(lia)). congruence.
Qed.

Lemma Wrap_gateway err message h e :
  heap_wf h -> lookup_error h err = Some e ->
  exists l' h' e', Wrap (Some err) message h = (Ok (Some l'), h') /\ heap_wf h' /\
    errs h' !! l' = Some e' /\ same_fields e e' /\ Ctx e' = Ctx e /\ maps h' = maps h /\
    (forall l e0, errs h !! l = Some e0 -> errs h' !! l = Some e0).
Proof.
  unfold lookup_error, Wrap. intros Hwf He.
  destruct (As err) as [l|]; cbn in He; [|done].
  rewrite (M_bind_ok _ _ h (l, e) h) by (unfold deref; by rewrite He).
  set (e' := {| Type_ := Type_ e |}). exists (next h). destruct (new_error_spec e' h Hwf) as (h' & Hn & Hwf' & He' & Hold).
  exists h', e'. split_and!; try done. unfold new_error in Hn. by injection Hn as <-.
Qed.

Lemma add_layers_class ls err h e :
  heap_wf h -> lookup_error h err = Some e ->
  exists err' h' e', add_layers ls err h = (Ok err', h') /\ lookup_error h' err' = Some e' /\ same_fields e e'.
Proof.
  revert err h e; induction ls as [|[message|text] ls IH]; intros err h e Hwf He; cbn [add_layers].
  - exists err, h, e. split_and!; [done..|]. by split_and!.
  - destruct (Wrap_gateway err message h e Hwf He) as (l' & h1 & e1 & HW & Hwf1 & He1 & Hf & _).
    rewrite (M_bind_ok _ _ _ _ _ HW).
    destruct (IH (EGw l') h1 e1 Hwf1 He1) as (err' & h' & e' & ? & ? & Hf').
    exists err', h', e'. split_and!; [done..|].
    destruct Hf as (? & ? & ?), Hf' as (? & ? & ?). split_and!; congruence.
  - by apply IH.
Qed.

(** Wrapping a foreign error makes an internal one. *)
Lemma Wrap_foreign err message h :
  heap_wf h -> As err = None ->
  exists l' h', Wrap (Some err) message h = (Ok (Some l'), h') /\
    IsRetryable h' (EGw l') = false /\ IsType h' (EGw l') TypeInternal = true /\
    GetHTTPStatus getErrorTypeStatusMap h' (EGw l') = 500.
Proof.
  intros Hwf Ha. unfold Wrap. rewrite Ha.
  set (e := {| Type_ := TypeInternal |}). destruct (new_error_spec e h Hwf) as (h' & Hn & _ & He & _).
  exists (next h), h'. rewrite Hn. unfold IsRetryable, GetHTTPStatus, IsType, lookup_error. cbn. rewrite He. done.
Qed.

(** The range over the status map finds at most one entry, whatever the order. *)
Lemma status_order entries h err :
  entries ≡ₚ getErrorTypeStatusMap ->
  GetHTTPStatus entries h err = GetHTTPStatus getErrorTypeStatusMap h err.
Proof.
  intros Hp.
  assert (forall t s, (t, s) ∈ entries -> (t, s) ∈ getErrorTypeStatusMap) as Hin by (intros t s; by rewrite Hp).
  assert (forall t s, (t, s) ∈ getErrorTypeStatusMap -> (t, s) ∈ entries) as Hin' by (intros t s; by rewrite Hp).
  assert (forall l, (forall t s, (t, s) ∈ l -> (t, s) ∈ getErrorTypeStatusMap) ->
    (forall t s, (t, s) ∈ getErrorTypeStatusMap -> (t, s) ∈ l) ->
    match List.find (fun p => IsType h err (fst p)) l with
    | Some (t, s) => (t, s) ∈ getErrorTypeStatusMap /\ IsType h err t = true
    | None => forall t s, (t, s) ∈ getErrorTypeStatusMap -> IsType h err t = false
    end) as Hfind.
  { intros l H1 H2. destruct (List.find _ l) as [[t s]|] eqn:E.
    - apply List.find_some in E as [Hl Ht]. apply list_elem_of_In in Hl. auto.
    - intros t s Hts. apply (List.find_none _ _ E (t, s)). apply list_elem_of_In. auto. }
  assert (forall t t', IsType h err t = true -> IsType h err t' = true -> t = t') as Huniq.
  { unfold IsType. intros t t'. destruct (lookup_error h err); [|done].
    intros <-%bool_decide_eq_true <-%bool_decide_eq_true. done. }
  pose proof (Hfind entries Hin Hin') as F1. pose proof (Hfind getErrorTypeStatusMap ltac:(auto) ltac:(auto)) as F2.
  unfold GetHTTPStatus.
  destruct (List.find _ entries) as [[t s]|], (List.find _ getErrorTypeStatusMap) as [[t' s']|]; cbv zeta.
  - destruct F1 as [F1 T1], F2 as [F2 T2]. pose proof (Huniq _ _ T1 T2) as <-.
    assert (s = s') as ->; [|done]. apply list_elem_of_In in F1, F2.
    cbn in F1, F2. destruct_or?; simplify_eq; done.
  - destruct F1 as [F1 T1]. rewrite (F2 t s F1) in T1. done.
  - destruct F2 as [F2 T2]. rewrite (F1 t' s' F2) in T2. done.
  - done.
Qed.

(** ** The operations and the heaps they reach *)

Inductive eop :=
| ONew (t : ErrorType) (message : string)
| OWrap (err : option error) (message : string)
| OWrapWithType (err : option error) (t : ErrorType) (message : string)
| OWithContext (p : option nat) (k : string) (v : value)
| OWithOperation (p : option nat) (operation : string)
| OWithComponent (p : option nat) (component : string)
| OWithHTTPStatus (p : option nat) (status : Z)
| OAsRetryable (p : option nat)
| OFromContext (ctx : gmap string value) (err : option error).

Definition run_eop (o : eop) : op (option nat) :=
  match o with
  | ONew t m => New t m
  | OWrap err m => Wrap err m
  | OWrapWithType err t m => WrapWithType err t m
  | OWithContext p k v => WithContext k v p
  | OWithOperation p s => WithOperation s p
  | OWithComponent p s => WithComponent s p
  | OWithHTTPStatus p s => WithHTTPStatus s p
  | OAsRetryable p => AsRetryable p
  | OFromContext ctx err => FromContext ctx err
  end.

Fixpoint run_eops (os : list eop) (h : heap) : heap :=
  match os with [] => h | o :: os => run_eops os (snd (run_eop o h)) end.

(** A computation keeps a predicate of the heap, on its error path too. *)
Definition keeps (P : heap -> Prop) {A} (m : op A) : Prop := forall h, P h -> P (snd (m h)).

Lemma keeps_bind P {A B} (m : op A) (f : A -> op B) : keeps P m -> (forall a, keeps P (f a)) -> keeps P (m ≫= f).
Proof.
  intros Hm Hf h Hh. unfold mbind, M_bind. specialize (Hm h Hh). destruct (m h) as [[a|e] h']; [by apply Hf|done].
Qed.

Lemma keeps_ret P {A} (a : A) : keeps P (mret a).
Proof. by intros h. Qed.

Definition no_codes (h : heap) : Prop := forall l e, errs h !! l = Some e -> Code e = EmptyString.

Lemma keeps_new_error e : Code e = EmptyString -> keeps no_codes (new_error e).
Proof.
  intros He h Hh l e' Hl. cbn in Hl. apply lookup_insert_Some in Hl as [[_ <-]|[_ Hl]]; [done|by eapply Hh].
Qed.

Lemma keeps_store l e : Code e = EmptyString -> keeps no_codes (store_error l e).
Proof.
  intros He h Hh l' e' Hl. cbn in Hl. apply lookup_insert_Some in Hl as [[_ <-]|[_ Hl]]; [done|by eapply Hh].
Qed.

(** A dereferenced error has no code either. *)
Lemma keeps_deref {B} p (f : nat * GatewayError -> op B) :
  (forall l e, Code e = EmptyString -> keeps no_codes (f (l, e))) -> keeps no_codes (deref p ≫= f).
Proof.
  intros Hf h Hh. unfold mbind, M_bind, deref. destruct p as [l|]; [|done].
  destruct (errs h !! l) as [e|] eqn:E; [|done]. apply Hf; [by eapply Hh|done].
Qed.

Lemma keeps_WithContext k v p : keeps no_codes (WithContext k v p).
Proof.
  apply keeps_deref. intros l e He. apply keeps_bind.
  2:{ intros m. apply keeps_bind; [by intros h Hh l' e'; apply Hh|intros; apply keeps_ret]. }
  destruct (Ctx e); [apply keeps_ret|]. apply keeps_bind; [by intros h Hh l' e'; apply Hh|].
  intros m. apply keeps_bind; [by apply keeps_store|intros; apply keeps_ret].
Qed.

Lemma keeps_Wrap err message : keeps no_codes (Wrap err message).
Proof.
  unfold Wrap. destruct err as [err|]; [|apply keeps_ret].
  destruct (As err); [apply keeps_deref; intros|]; by apply keeps_new_error.
Qed.

Lemma keeps_add_context ctx fields p : keeps no_codes (add_context ctx fields p).
Proof.
  revert p; induction fields as [|f fields IH]; intros p; cbn [add_context]; [apply keeps_ret|].
  destruct (ctx !! f); [|apply IH]. apply keeps_bind; [apply keeps_WithContext|apply IH].
Qed.

Lemma keeps_run_eop o : keeps no_codes (run_eop o).
Proof.
  destruct o; cbn [run_eop];
    try (apply keeps_deref; intros; apply keeps_bind; [by apply keeps_store|intros; apply keeps_ret]).
  - by apply keeps_new_error.
  - apply keeps_Wrap.
  - unfold WrapWithType. destruct err; [by apply keeps_new_error|apply keeps_ret].
  - apply keeps_WithContext.
  - unfold FromContext. destruct err as [err|]; [|apply keeps_ret].
    apply keeps_bind; [destruct (As err); [apply keeps_ret|apply keeps_Wrap]|intros; apply keeps_add_context].
Qed.

Lemma run_eops_no_codes os h : no_codes h -> no_codes (run_eops os h).
Proof. revert h; induction os as [|o os IH]; intros h Hh; [done|]. by apply IH, keeps_run_eop. Qed.

(** Wrapping a gateway error any number of times, with the package's Wrap or with fmt.Errorf, keeps
    what callers branch on: its types, its retryability and its HTTP status.  Wrapping a foreign error
    gives a non-retryable internal error with status 500, even when the error itself counts as
    retryable.  The status never depends on the iteration order of the status map. *)
Lemma wrap_classification (ls : list layer) (err : error) (h : heap) :
  heap_wf h ->
  (forall e, lookup_error h err = Some e ->
     exists err' h', add_layers ls err h = (Ok err', h') /\ same_class h err h' err') /\
  (forall message, As err = None ->
     exists l' h', Wrap (Some err) message h = (Ok (Some l'), h') /\
       IsRetryable h' (EGw l') = false /\ IsType h' (EGw l') TypeInternal = true /\
       GetHTTPStatus getErrorTypeStatusMap h' (EGw l') = 500) /\
  (forall entries, entries ≡ₚ getErrorTypeStatusMap ->
     GetHTTPStatus entries h err = GetHTTPStatus getErrorTypeStatusMap h err).
Proof.
  intros Hwf. split_and!.
  - intros e He. destruct (add_layers_class ls err h e Hwf He) as (err' & h' & e' & Ha & He' & Hf).
    exists err', h'. split; [done|]. by eapply same_fields_class.
  - intros message Ha. by apply Wrap_foreign.
  - intros entries. apply status_order.
Qed.

(** No operation of the package sets the Code field that the Is method compares (codes go to the
    context map), so after any sequence of operations errors.Is matches any two gateway errors of the
    same type, whatever their codes. *)
Lemma Is_matches_by_type (os : list eop) (l l' : nat) (e e' : GatewayError) :
  errs (run_eops os empty_heap) !! l = Some e -> errs (run_eops os empty_heap) !! l' = Some e' ->
  GatewayError_Is e (run_eops os empty_heap) (EGw l') = bool_decide (Type_ e = Type_ e').
Proof.
  intros He He'. assert (no_codes (run_eops os empty_heap)) as Hn by by apply run_eops_no_codes.
  unfold GatewayError_Is. rewrite He', (Hn _ _ He), (Hn _ _ He').
  rewrite (bool_decide_true (EmptyString = EmptyString)), andb_true_r by done. done.
Qed.

(** A wrapper shares the context map of the gateway error it wraps: adding a context value to the
    wrapper, such as its own error code, changes the wrapped error's context. *)
Lemma wrap_shares_context (err : error) (message k : string) (v : value) (h : heap) (e : GatewayError)
    (m : nat) (c : gmap string value) :
  heap_wf h -> lookup_error h err = Some e -> Ctx e = Some m -> maps h !! m = Some c ->
  exists p h', (Wrap (Some err) message ≫= WithContext k v) h = (Ok p, h') /\
    lookup_error h' err = Some e /\ maps h' !! m = Some (<[k := v]> c).
Proof.
  intros Hwf He Hm Hc.
  destruct (Wrap_gateway err message h e Hwf He) as (l' & h1 & e1 & HW & _ & He1 & _ & Hctx & Hmaps & Hold).
  rewrite (M_bind_ok _ _ _ _ _ HW). unfold WithContext.
  rewrite (M_bind_ok _ _ h1 (l', e1) h1) by (unfold deref; by rewrite He1).
  rewrite Hctx, Hm. eexists _, _. split; [reflexivity|]. cbn. rewrite Hmaps, lookup_alter_eq, Hc. split; [|done].
  unfold lookup_error in *. destruct (As err) as [l|]; cbn in *; [by apply Hold|done].
Qed.

End Errors.

(** A heap with a session error and a wrapped copy. *)
Definition no_stack (skip : Z) : list string := [].
Definition sample_heap : heap := snd (NewSessionNotFoundError no_stack "s1" empty_heap).

Lemma sample_heap_wf : heap_wf sample_heap.
Proof.
  intros l Hl. change (next sample_heap) with 2%nat in Hl.
  assert (dom (errs sample_heap) = ({[0%nat]} : gset nat)) as He by by vm_compute.
  assert (dom (maps sample_heap) = ({[1%nat]} : gset nat)) as Hm by by vm_compute.
  split; apply not_elem_of_dom; rewrite ?He, ?Hm; set_solver by lia.
Qed.

Lemma wrap_classification_witness :
  exists err' h', add_layers no_stack [LWrap "get"; LFmt "request: get"] (EGw 0) sample_heap = (Ok err', h') /\
    same_class sample_heap (EGw 0) h' err' /\ GetHTTPStatus getErrorTypeStatusMap h' err' = 404.
Proof.
  destruct (wrap_classification no_stack [LWrap "get"; LFmt "request: get"] (EGw 0) sample_heap sample_heap_wf)
    as (H & _ & _).
  destruct (H _ eq_refl) as (err' & h' & Ha & Hc). exists err', h'. split_and!; [done..|].
  destruct Hc as (_ & _ & ->). done.
Defined.

Definition two_errors : list eop :=
  [ONew TypeNotFound "a"; OWithContext (Some 0%nat) "code" (VStr "SESSION_NOT_FOUND");
   ONew TypeNotFound "b"; OWithContext (Some 2%nat) "code" (VStr "DISCOVERY_SERVICE_NOT_FOUND")].

Lemma Is_matches_by_type_witness :
  exists e, errs (run_eops no_stack two_errors empty_heap) !! 0%nat = Some e /\
    GatewayError_Is e (run_eops no_stack two_errors empty_heap) (EGw 2) = true.
Proof.
  eexists. split; [reflexivity|].
  rewrite (Is_matches_by_type no_stack two_errors 0 2 _ _ eq_refl eq_refl). done.
Defined.

Lemma wrap_shares_context_witness :
  exists p h', (Wrap no_stack (Some (EGw 0)) "load" ≫= WithContext "code" (VStr "SESSION_STORE_FAILED")) sample_heap
      = (Ok p, h') /\
    (c ← maps h' !! 1%nat; c !! "code") = Some (VStr "SESSION_STORE_FAILED").
Proof.
  destruct (wrap_shares_context no_stack (EGw 0) "load" "code" (VStr "SESSION_STORE_FAILED") sample_heap _ 1 _
    sample_heap_wf eq_refl eq_refl eq_refl) as (p & h' & Ha & _ & Hm).
  exists p, h'. split; [done|]. rewrite Hm. done.
Defined.

End GwErrors.
