(* ===== verification/ErrorCatalog.v ===== *)
(** * The catalogue of gateway errors

    The constructors of [validation_errors.go], [backend_errors.go],
    [discovery_errors.go] and [server_errors.go] of
    [services/gateway/internal/errors] that [GatewayErrors] does not hold already, as
    chains of its operations.  [entry] names the constructors that build a new error
    and [raise] runs them; [wrapper] and [wrap_with] do the same for the constructors
    that wrap one. *)
From S2P Require Import Prelude GatewayErrors.
From stdpp Require Import pretty.
#[local] Open Scope Z_scope.

Module ErrCatalog.
Import GwErrors.

Section Catalog.

Variable captureStack : Z -> list string.
(** [time.Duration.String]. *)
Variable dur_String : Z -> string.

Local Notation New := (New captureStack).
Local Notation WrapContext := (WrapContext captureStack).
Local Infix "+s" := String.append (at level 50, left associativity).
Local Notation "m ->> f" := (mbind f m) (at level 61, left associativity).

(** ** [validation_errors.go] *)

Definition NewFieldTooLongError (field : string) (length maxLength : Z) : op (option nat) :=
  New TypeValidation (field +s " too long: " +s pretty length +s " > " +s pretty maxLength)
    ->> WithComponent "validation" ->> WithContext "field" (VStr field)
    ->> WithContext "length" (VInt length) ->> WithContext "max_length" (VInt maxLength)
    ->> WithContext "code" (VStr "VALIDATION_FIELD_TOO_LONG") ->> WithHTTPStatus 400.

Definition NewInvalidUTF8Error (field : string) : op (option nat) :=
  New TypeValidation (field +s " contains invalid UTF-8")
    ->> WithComponent "validation" ->> WithContext "field" (VStr field)
    ->> WithContext "code" (VStr "VALIDATION_INVALID_UTF8") ->> WithHTTPStatus 400.

Definition NewDirectoryTraversalError (field : string) : op (option nat) :=
  New TypeValidation (field +s " contains directory traversal")
    ->> WithComponent "validation" ->> WithContext "field" (VStr field)
    ->> WithContext "code" (VStr "VALIDATION_DIRECTORY_TRAVERSAL") ->> WithHTTPStatus 400.

Definition NewInvalidIDTypeError (idType : string) : op (option nat) :=
  New TypeValidation ("invalid ID type: " +s idType)
    ->> WithComponent "validation" ->> WithContext "type" (VStr idType)
    ->> WithContext "code" (VStr "VALIDATION_INVALID_ID_TYPE") ->> WithHTTPStatus 400.

Definition NewInvalidURLError (url reason : string) : op (option nat) :=
  New TypeValidation ("invalid URL: " +s reason)
    ->> WithComponent "validation" ->> WithContext "url" (VStr url) ->> WithContext "reason" (VStr reason)
    ->> WithContext "code" (VStr "VALIDATION_INVALID_URL") ->> WithHTTPStatus 400.

Definition NewInvalidSchemeError (scheme : string) : op (option nat) :=
  New TypeValidation ("invalid URL scheme: " +s scheme)
    ->> WithComponent "validation" ->> WithContext "scheme" (VStr scheme)
    ->> WithContext "code" (VStr "VALIDATION_INVALID_SCHEME") ->> WithHTTPStatus 400.

Definition NewMissingHostError : op (option nat) :=
  New TypeValidation "URL missing host"
    ->> WithComponent "validation"
    ->> WithContext "code" (VStr "VALIDATION_MISSING_HOST") ->> WithHTTPStatus 400.

Definition NewInvalidHostnameError (hostname : string) : op (option nat) :=
  New TypeValidation ("invalid hostname: " +s hostname)
    ->> WithComponent "validation" ->> WithContext "hostname" (VStr hostname)
    ->> WithContext "code" (VStr "VALIDATION_INVALID_HOSTNAME") ->> WithHTTPStatus 400.

Definition NewInvalidIPError (ip : string) : op (option nat) :=
  New TypeValidation ("invalid IP address: " +s ip)
    ->> WithComponent "validation" ->> WithContext "ip" (VStr ip)
    ->> WithContext "code" (VStr "VALIDATION_INVALID_IP") ->> WithHTTPStatus 400.

Definition NewInvalidTokenError (reason : string) : op (option nat) :=
  New TypeValidation ("token " +s reason)
    ->> WithComponent "validation" ->> WithContext "reason" (VStr reason)
    ->> WithContext "code" (VStr "VALIDATION_INVALID_TOKEN") ->> WithHTTPStatus 400.

(** ** [backend_errors.go] *)

Definition CreateConnectionTimeoutError (backendName : string) (timeout : Z) : op (option nat) :=
  NewTimeoutError captureStack ("connection to backend " +s backendName) None
    ->> WithComponent "backend" ->> WithContext "backend_name" (VStr backendName)
    ->> WithContext "timeout" (VStr (dur_String timeout))
    ->> WithContext "code" (VStr "BACKEND_CONNECTION_TIMEOUT").

Definition CreateProtocolMismatchError (expected actual : string) : op (option nat) :=
  New TypeValidation ("protocol mismatch: expected " +s expected +s ", got " +s actual)
    ->> WithComponent "backend" ->> WithContext "expected_protocol" (VStr expected)
    ->> WithContext "actual_protocol" (VStr actual)
    ->> WithContext "code" (VStr "BACKEND_PROTOCOL_MISMATCH") ->> WithHTTPStatus 400.

Definition WrapInvalidResponseError (ctx : gmap string value) (err : option error)
    (backendName responseType : string) : op (option nat) :=
  WrapContext ctx err "invalid response from backend"
    ->> WithComponent "backend" ->> WithOperation "process_response"
    ->> WithContext "backend_name" (VStr backendName) ->> WithContext "response_type" (VStr responseType)
    ->> WithContext "code" (VStr "BACKEND_INVALID_RESPONSE").

(** [WrapContextf]: the callers have formatted the message. *)
Definition WrapContextf (ctx : gmap string value) (err : option error) (message : string) : op (option nat) :=
  match err with
  | None => mret None
  | Some _ => p ← Wrap captureStack err message; FromContext captureStack ctx (as_error p)
  end.

Definition WrapStreamError (ctx : gmap string value) (err : option error) (backendName operation : string)
    : op (option nat) :=
  WrapContextf ctx err ("stream " +s operation +s " failed")
    ->> WithComponent "backend" ->> WithOperation ("stream_" +s operation)
    ->> WithContext "backend_name" (VStr backendName) ->> WithContext "code" (VStr "BACKEND_STREAM_ERROR").

Definition WrapWebSocketUpgradeError (ctx : gmap string value) (err : option error) (backendName : string)
    (statusCode : Z) : op (option nat) :=
  WrapContext ctx err "WebSocket upgrade failed"
    ->> WithComponent "backend_websocket" ->> WithOperation "upgrade"
    ->> WithContext "backend_name" (VStr backendName) ->> WithContext "status_code" (VInt statusCode)
    ->> WithContext "code" (VStr "BACKEND_WEBSOCKET_UPGRADE") ->> WithHTTPStatus 502.

Definition WrapSSEConnectionError (ctx : gmap string value) (err : option error) (backendName : string)
    : op (option nat) :=
  WrapContext ctx err "SSE connection failed"
    ->> WithComponent "backend_sse" ->> WithOperation "connect"
    ->> WithContext "backend_name" (VStr backendName)
    ->> WithContext "code" (VStr "BACKEND_SSE_CONNECTION_FAILED") ->> WithHTTPStatus 502.

Definition WrapStdioError (ctx : gmap string value) (err : option error) (operation : string) : op (option nat) :=
  WrapContextf ctx err ("stdio " +s operation +s " failed")
    ->> WithComponent "backend_stdio" ->> WithOperation ("stdio_" +s operation)
    ->> WithContext "code" (VStr "BACKEND_STDIO_FAILED").

(** The values of the three key types [backendContextKey], [discoveryContextKey] and
    [serverContextKey]; their names are distinct from those of [getContextMappings]. *)
Definition EnrichContextWithBackend (backendName protocol : string) (ctx : gmap string value) : gmap string value :=
  with_value "backend.protocol" protocol (with_value "backend.name" backendName ctx).

(** ** [discovery_errors.go] *)

Definition NewServiceNotFoundError (serviceName namespace : string) : op (option nat) :=
  New TypeNotFound ("service " +s serviceName +s " not found in namespace " +s namespace)
    ->> WithComponent "discovery" ->> WithContext "service_name" (VStr serviceName)
    ->> WithContext "namespace" (VStr namespace)
    ->> WithContext "code" (VStr "DISCOVERY_SERVICE_NOT_FOUND") ->> WithHTTPStatus 404.

Definition NewNoHealthyInstancesError (serviceName namespace : string) (totalInstances : Z) : op (option nat) :=
  New TypeUnavailable ("no healthy instances for service " +s serviceName)
    ->> WithComponent "discovery" ->> WithContext "service_name" (VStr serviceName)
    ->> WithContext "namespace" (VStr namespace) ->> WithContext "total_instances" (VInt totalInstances)
    ->> WithContext "code" (VStr "DISCOVERY_NO_HEALTHY_INSTANCES") ->> WithHTTPStatus 503.

Definition WrapRegistrationError (ctx : gmap string value) (err : option error) (serviceName instanceID : string)
    : op (option nat) :=
  WrapContext ctx err "failed to register service"
    ->> WithComponent "discovery" ->> WithOperation "register"
    ->> WithContext "service_name" (VStr serviceName) ->> WithContext "instance_id" (VStr instanceID)
    ->> WithContext "code" (VStr "DISCOVERY_REGISTRATION_FAILED").

Definition WrapDeregistrationError (ctx : gmap string value) (err : option error) (serviceName instanceID : string)
    : op (option nat) :=
  WrapContext ctx err "failed to deregister service"
    ->> WithComponent "discovery" ->> WithOperation "deregister"
    ->> WithContext "service_name" (VStr serviceName) ->> WithContext "instance_id" (VStr instanceID)
    ->> WithContext "code" (VStr "DISCOVERY_DEREGISTRATION_FAILED").

Definition WrapHealthCheckError (ctx : gmap string value) (err : option error) (serviceName instanceID : string)
    : op (option nat) :=
  WrapContext ctx err "health check failed"
    ->> WithComponent "discovery" ->> WithOperation "health_check"
    ->> WithContext "service_name" (VStr serviceName) ->> WithContext "instance_id" (VStr instanceID)
    ->> WithContext "code" (VStr "DISCOVERY_HEALTH_CHECK_FAILED").

Definition WrapWatchError (ctx : gmap string value) (err : option error) (serviceName : string) : op (option nat) :=
  WrapContext ctx err "service watch failed"
    ->> WithComponent "discovery" ->> WithOperation "watch"
    ->> WithContext "service_name" (VStr serviceName) ->> WithContext "code" (VStr "DISCOVERY_WATCH_FAILED").

Definition NewInvalidServiceConfigError (reason serviceName : string) : op (option nat) :=
  New TypeValidation ("invalid service configuration: " +s reason)
    ->> WithComponent "discovery" ->> WithContext "service_name" (VStr serviceName)
    ->> WithContext "reason" (VStr reason)
    ->> WithContext "code" (VStr "DISCOVERY_INVALID_SERVICE_CONFIG") ->> WithHTTPStatus 400.

Definition NewProviderUnavailableError (provider reason : string) : op (option nat) :=
  New TypeUnavailable ("discovery provider " +s provider +s " unavailable: " +s reason)
    ->> WithComponent "discovery" ->> WithContext "provider" (VStr provider) ->> WithContext "reason" (VStr reason)
    ->> WithContext "code" (VStr "DISCOVERY_PROVIDER_UNAVAILABLE") ->> WithHTTPStatus 503.

Definition NewInvalidEndpointError (endpoint reason : string) : op (option nat) :=
  New TypeValidation ("invalid endpoint " +s endpoint +s ": " +s reason)
    ->> WithComponent "discovery" ->> WithContext "endpoint" (VStr endpoint) ->> WithContext "reason" (VStr reason)
    ->> WithContext "code" (VStr "DISCOVERY_INVALID_ENDPOINT") ->> WithHTTPStatus 400.

Definition EnrichContextWithService (serviceName namespace instanceID : string) (ctx : gmap string value)
    : gmap string value :=
  with_value "discovery.instance" instanceID
    (with_value "discovery.namespace" namespace (with_value "discovery.service" serviceName ctx)).

(** ** [server_errors.go] *)

Definition WrapServerStartError (ctx : gmap string value) (err : option error) (address : string) : op (option nat) :=
  WrapContext ctx err "failed to start server"
    ->> WithComponent "server" ->> WithOperation "start"
    ->> WithContext "address" (VStr address) ->> WithContext "code" (VStr "SERVER_START_FAILED").

Definition WrapServerShutdownError (ctx : gmap string value) (err : option error) : op (option nat) :=
  WrapContext ctx err "failed to shutdown server gracefully"
    ->> WithComponent "server" ->> WithOperation "shutdown"
    ->> WithContext "code" (VStr "SERVER_SHUTDOWN_FAILED").

Definition WrapListenerCreationError (ctx : gmap string value) (err : option error) (address protocol : string)
    : op (option nat) :=
  WrapContext ctx err "failed to create listener"
    ->> WithComponent "server" ->> WithOperation "create_listener"
    ->> WithContext "address" (VStr address) ->> WithContext "protocol" (VStr protocol)
    ->> WithContext "code" (VStr "SERVER_LISTENER_FAILED").

Definition WrapTLSConfigError (ctx : gmap string value) (err : option error) (certFile keyFile : string)
    : op (option nat) :=
  WrapContext ctx err "TLS configuration failed"
    ->> WithComponent "server" ->> WithOperation "configure_tls"
    ->> WithContext "cert_file" (VStr certFile) ->> WithContext "key_file" (VStr keyFile)
    ->> WithContext "code" (VStr "SERVER_TLS_CONFIG_FAILED").

Definition WrapConnectionAcceptError (ctx : gmap string value) (err : option error) : op (option nat) :=
  WrapContext ctx err "failed to accept connection"
    ->> WithComponent "server" ->> WithOperation "accept_connection"
    ->> WithContext "code" (VStr "SERVER_ACCEPT_FAILED").

Definition WrapConnectionHandleError (ctx : gmap string value) (err : option error) (clientAddr : string)
    : op (option nat) :=
  WrapContext ctx err "failed to handle connection"
    ->> WithComponent "server" ->> WithOperation "handle_connection"
    ->> WithContext "client_address" (VStr clientAddr) ->> WithContext "code" (VStr "SERVER_HANDLE_FAILED").

Definition WrapConfigLoadError (ctx : gmap string value) (err : option error) (configPath : string)
    : op (option nat) :=
  WrapContext ctx err "failed to load configuration"
    ->> WithComponent "server" ->> WithOperation "load_config"
    ->> WithContext "config_path" (VStr configPath) ->> WithContext "code" (VStr "SERVER_CONFIG_LOAD_FAILED").

Definition NewRateLimitExceededError (clientAddr : string) (limit : Z) (window : string) : op (option nat) :=
  New TypeRateLimit "rate limit exceeded"
    ->> WithComponent "server" ->> WithContext "client_address" (VStr clientAddr)
    ->> WithContext "limit" (VInt limit) ->> WithContext "window" (VStr window)
    ->> WithContext "code" (VStr "SERVER_RATE_LIMIT_EXCEEDED") ->> WithHTTPStatus 429.

Definition NewMaxConnectionsError (current max : Z) : op (option nat) :=
  New TypeUnavailable "maximum connections reached"
    ->> WithComponent "server" ->> WithContext "current_connections" (VInt current)
    ->> WithContext "max_connections" (VInt max)
    ->> WithContext "code" (VStr "SERVER_MAX_CONNECTIONS") ->> WithHTTPStatus 503.

Definition NewProtocolError (reason protocol : string) : op (option nat) :=
  New TypeValidation ("protocol error: " +s reason)
    ->> WithComponent "server" ->> WithContext "reason" (VStr reason) ->> WithContext "protocol" (VStr protocol)
    ->> WithContext "code" (VStr "SERVER_PROTOCOL_ERROR") ->> WithHTTPStatus 400.

Definition NewInvalidRequestError (reason path : string) : op (option nat) :=
  New TypeValidation ("invalid request: " +s reason)
    ->> WithComponent "server" ->> WithContext "reason" (VStr reason) ->> WithContext "path" (VStr path)
    ->> WithContext "code" (VStr "SERVER_INVALID_REQUEST") ->> WithHTTPStatus 400.

Definition EnrichContextWithConnection (clientAddr serverAddr protocol : string) (ctx : gmap string value)
    : gmap string value :=
  with_value "connection.protocol" protocol
    (with_value "connection.server" serverAddr (with_value "connection.client" clientAddr ctx)).

(** ** The constructors by name *)

Inductive entry :=
| EmptyField (field : string) | FieldTooLong (field : string) (length maxLength : Z)
| InvalidUTF8 (field : string) | InvalidCharacters (field val : string) | DirectoryTraversal (field : string)
| InvalidIDType (idType : string) | InvalidURL (url reason : string) | InvalidScheme (scheme : string)
| MissingHost | InvalidHostname (hostname : string) | InvalidIP (ip : string) | InvalidToken (reason : string)
| ConnectionTimeout (backendName : string) (timeout : Z) | ProtocolMismatch (expected actual : string)
| BackendUnavailable (backendName reason : string) | BackendOverloaded (backendName : string) (queueSize : Z)
| ServiceNotFound (serviceName namespace : string)
| NoHealthyInstances (serviceName namespace : string) (totalInstances : Z)
| InvalidServiceConfig (reason serviceName : string) | ProviderUnavailable (provider reason : string)
| InvalidEndpoint (endpoint reason : string)
| RateLimitExceeded (clientAddr : string) (limit : Z) (window : string) | MaxConnections (current max : Z)
| ProtocolError (reason protocol : string) | InvalidRequest (reason path : string).

Definition raise (c : entry) : op (option nat) :=
  match c with
  | EmptyField f => NewEmptyFieldError captureStack f
  | FieldTooLong f n m => NewFieldTooLongError f n m
  | InvalidUTF8 f => NewInvalidUTF8Error f
  | InvalidCharacters f v => NewInvalidCharactersError captureStack f v
  | DirectoryTraversal f => NewDirectoryTraversalError f
  | InvalidIDType t => NewInvalidIDTypeError t
  | InvalidURL u r => NewInvalidURLError u r
  | InvalidScheme s => NewInvalidSchemeError s
  | MissingHost => NewMissingHostError
  | InvalidHostname s => NewInvalidHostnameError s
  | InvalidIP s => NewInvalidIPError s
  | InvalidToken r => NewInvalidTokenError r
  | ConnectionTimeout b t => CreateConnectionTimeoutError b t
  | ProtocolMismatch e a => CreateProtocolMismatchError e a
  | BackendUnavailable b r => CreateBackendUnavailableError captureStack b r
  | BackendOverloaded b q => CreateBackendOverloadedError captureStack b q
  | ServiceNotFound s n => NewServiceNotFoundError s n
  | NoHealthyInstances s n t => NewNoHealthyInstancesError s n t
  | InvalidServiceConfig r s => NewInvalidServiceConfigError r s
  | ProviderUnavailable p r => NewProviderUnavailableError p r
  | InvalidEndpoint e r => NewInvalidEndpointError e r
  | RateLimitExceeded c l w => NewRateLimitExceededError c l w
  | MaxConnections c m => NewMaxConnectionsError c m
  | ProtocolError r p => NewProtocolError r p
  | InvalidRequest r p => NewInvalidRequestError r p
  end.

(** What the callers of an error branch on: its type and the HTTP status it is
    answered with. *)
Definition class_of (c : entry) : ErrorType * Z :=
  match c with
  | ConnectionTimeout _ _ => (TypeTimeout, 408)
  | BackendUnavailable _ _ | NoHealthyInstances _ _ _ | ProviderUnavailable _ _ | MaxConnections _ _ =>
      (TypeUnavailable, 503)
  | BackendOverloaded _ _ => (TypeRateLimit, 503)
  | RateLimitExceeded _ _ _ => (TypeRateLimit, 429)
  | ServiceNotFound _ _ => (TypeNotFound, 404)
  | _ => (TypeValidation, 400)
  end.

Inductive wrapper :=
| WWrite (backendName : string) (dataSize : Z) | WRead (backendName : string)
| WInvalidResponse (backendName responseType : string) | WStream (backendName operation : string)
| WWebSocketUpgrade (backendName : string) (statusCode : Z) | WSSEConnection (backendName : string)
| WStdio (operation : string) | WRegistration (serviceName instanceID : string)
| WDeregistration (serviceName instanceID : string) | WHealthCheck (serviceName instanceID : string)
| WWatch (serviceName : string) | WServerStart (address : string) | WServerShutdown
| WListenerCreation (address protocol : string) | WTLSConfig (certFile keyFile : string)
| WConnectionAccept | WConnectionHandle (clientAddr : string) | WConfigLoad (configPath : string).

Definition wrap_with (w : wrapper) (ctx : gmap string value) (err : option error) : op (option nat) :=
  match w with
  | WWrite b n => WrapWriteError captureStack ctx err b n
  | WRead b => WrapReadError captureStack ctx err b
  | WInvalidResponse b t => WrapInvalidResponseError ctx err b t
  | WStream b o => WrapStreamError ctx err b o
  | WWebSocketUpgrade b c => WrapWebSocketUpgradeError ctx err b c
  | WSSEConnection b => WrapSSEConnectionError ctx err b
  | WStdio o => WrapStdioError ctx err o
  | WRegistration s i => WrapRegistrationError ctx err s i
  | WDeregistration s i => WrapDeregistrationError ctx err s i
  | WHealthCheck s i => WrapHealthCheckError ctx err s i
  | WWatch s => WrapWatchError ctx err s
  | WServerStart a => WrapServerStartError ctx err a
  | WServerShutdown => WrapServerShutdownError ctx err
  | WListenerCreation a p => WrapListenerCreationError ctx err a p
  | WTLSConfig c k => WrapTLSConfigError ctx err c k
  | WConnectionAccept => WrapConnectionAcceptError ctx err
  | WConnectionHandle c => WrapConnectionHandleError ctx err c
  | WConfigLoad p => WrapConfigLoadError ctx err p
  end.

(** ** Building a new error *)

(** Nothing allocated before is changed. *)
Definition frame (h0 h : heap) : Prop :=
  forall l, (l < next h0)%nat -> errs h !! l = errs h0 !! l /\ maps h !! l = maps h0 !! l.

Definition ctx_is (h0 h : heap) (m : option nat) (ctx : gmap string value) : Prop :=
  match m with
  | None => ctx = ∅
  | Some m => (next h0 <= m)%nat /\ maps h !! m = Some ctx
  end.

(** The result of a chain of builders started in [h0]: a new error of this class,
    with this context map. *)
Definition built (h0 : heap) (t : ErrorType) (status : Z) (ctx : gmap string value)
    (r : result panic (option nat) * heap) : Prop :=
  exists l e h, r = (Ok (Some l), h) /\ heap_wf h /\ (next h0 <= l)%nat /\ (next h0 <= next h)%nat /\
    errs h !! l = Some e /\ Type_ e = t /\ HTTPStatus e = status /\ Retryable e = isRetryableType t /\
    ctx_is h0 h (Ctx e) ctx /\ frame h0 h.

Lemma built_New h0 t message : heap_wf h0 -> built h0 t 0 ∅ (New t message h0).
Proof.
  intros Hwf. unfold GwErrors.New, new_error. eexists _, _, _. split; [reflexivity|].
  cbn. split; [|split; [lia|split; [lia|split; [apply lookup_insert_eq|split_and!; try done]]]].
  - intros l Hl. cbn in *. rewrite lookup_insert_ne by lia. apply Hwf. lia.
  - intros l Hl. cbn. by rewrite lookup_insert_ne by lia.
Qed.

(** A setter of one field keeps the rest. *)
Lemma built_store h0 t st ctx (m : op (option nat)) (f : GatewayError -> GatewayError) st' :
  (forall e, Type_ (f e) = Type_ e /\ Retryable (f e) = Retryable e /\ Ctx (f e) = Ctx e) ->
  (forall e, HTTPStatus e = st -> HTTPStatus (f e) = st') ->
  built h0 t st ctx (m h0) ->
  built h0 t st' ctx ((m ->> (fun p => '(l, e) ← deref p; _ ← store_error l (f e); mret p)) h0).
Proof.
  intros Hf Hs (l & e & h & Hm & Hwf & Hl & Hn & He & Ht & Hst & Hr & Hc & Hfr).
  rewrite (M_bind_ok _ _ _ _ _ Hm).
  unfold mbind, M_bind, deref, store_error. rewrite He. cbn.
  destruct (Hf e) as (F1 & F2 & F3).
  eexists l, (f e), _. split; [reflexivity|]. cbn. rewrite F1, F2, F3. split_and!; try done.
  - intros l' Hl'. cbn in *. rewrite lookup_insert_ne; [by apply Hwf|].
    intros <-. destruct (Hwf l Hl'). congruence.
  - apply lookup_insert_eq.
  - by apply Hs.
  - intros l' Hl'. cbn. rewrite lookup_insert_ne by lia. by apply Hfr.
Qed.

Lemma built_WithComponent h0 t st ctx m c :
  built h0 t st ctx (m h0) -> built h0 t st ctx ((m ->> WithComponent c) h0).
Proof.
  apply (built_store h0 t st ctx m (fun e =>
    {| Type_ := Type_ e; Message := Message e; Code := Code e; Cause := Cause e; Ctx := Ctx e;
       Stack := Stack e; Severity := Severity e; Retryable := Retryable e;
       HTTPStatus := HTTPStatus e; Component := c; Operation := Operation e |})); done.
Qed.

Lemma built_WithOperation h0 t st ctx m o :
  built h0 t st ctx (m h0) -> built h0 t st ctx ((m ->> WithOperation o) h0).
Proof.
  apply (built_store h0 t st ctx m (fun e =>
    {| Type_ := Type_ e; Message := Message e; Code := Code e; Cause := Cause e; Ctx := Ctx e;
       Stack := Stack e; Severity := Severity e; Retryable := Retryable e;
       HTTPStatus := HTTPStatus e; Component := Component e; Operation := o |})); done.
Qed.

Lemma built_WithHTTPStatus h0 t st ctx m s :
  built h0 t st ctx (m h0) -> built h0 t s ctx ((m ->> WithHTTPStatus s) h0).
Proof.
  apply (built_store h0 t st ctx m (fun e =>
    {| Type_ := Type_ e; Message := Message e; Code := Code e; Cause := Cause e; Ctx := Ctx e;
       Stack := Stack e; Severity := Severity e; Retryable := Retryable e;
       HTTPStatus := s; Component := Component e; Operation := Operation e |})); done.
Qed.

Lemma built_WithContext h0 t st ctx m k v :
  built h0 t st ctx (m h0) -> built h0 t st (<[k := v]> ctx) ((m ->> WithContext k v) h0).
Proof.
  intros (l & e & h & Hm & Hwf & Hl & Hn & He & Ht & Hst & Hr & Hc & Hfr).
  rewrite (M_bind_ok _ _ _ _ _ Hm). unfold WithContext.
  rewrite (M_bind_ok _ _ h (l, e) h) by (unfold deref; by rewrite He).
  destruct (Ctx e) as [c|] eqn:Ec; cbn in Hc.
  - destruct Hc as [Hc1 Hc2]. unfold mbind, M_bind, mret, M_ret, map_put. cbn.
    eexists l, e, _. split; [reflexivity|]. cbn. rewrite Ec. split_and!; try done.
    + intros l' Hl'. cbn in *. destruct (Hwf l' Hl') as [H1 H2]. split; [done|].
      rewrite lookup_alter_None. done.
    + cbn. split; [done|]. rewrite lookup_alter_eq. by rewrite Hc2.
    + intros l' Hl'. cbn. rewrite lookup_alter_ne by lia. by apply Hfr.
  - unfold mbind, M_bind, mret, M_ret, map_put, new_map, store_error. cbn.
    eexists l, _, _. split; [reflexivity|].
    cbn. split; [|split; [lia|split; [lia|split; [apply lookup_insert_eq|split_and!; try done]]]].
    + intros l' Hl'. cbn in *. destruct (Hwf l' ltac:(lia)) as [H1 H2]. split.
      * rewrite lookup_insert_ne; [done|]. intros ->. congruence.
      * rewrite lookup_alter_None, lookup_insert_ne by lia. done.
    + cbn. split; [lia|]. rewrite lookup_alter_eq, lookup_insert_eq. cbn. by rewrite Hc.
    + intros l' Hl'. cbn. rewrite lookup_insert_ne, lookup_alter_ne, lookup_insert_ne by lia. by apply Hfr.
Qed.

Lemma built_NewTimeoutError h0 operation :
  heap_wf h0 -> built h0 TypeTimeout 408 ∅ (NewTimeoutError captureStack operation None h0).
Proof. intros. apply built_WithOperation. eapply built_WithHTTPStatus. by apply built_New. Qed.

#[local] Hint Resolve built_New built_NewTimeoutError built_WithComponent built_WithOperation
  built_WithHTTPStatus built_WithContext : mcp.

(** The context of the error an entry builds holds a ["code"]. *)
Lemma raise_built c h :
  heap_wf h ->
  exists ctx v, built h (fst (class_of c)) (snd (class_of c)) ctx (raise c h) /\ ctx !! "code" = Some (VStr v).
Proof.
  intros Hwf. destruct c; eexists _, _; (split; [eauto 12 with mcp|apply lookup_insert_eq]).
Qed.

(** ** The class of an error along a chain of builders *)

Definition class3 (e : GatewayError) : ErrorType * Z * bool := (Type_ e, HTTPStatus e, Retryable e).

(** The result is an error of class [c] in a well-formed heap. *)
Definition gives (c : ErrorType * Z * bool) (r : result panic (option nat) * heap) : Prop :=
  exists l e h, r = (Ok (Some l), h) /\ heap_wf h /\ errs h !! l = Some e /\ class3 e = c.

Lemma gives_new e h : heap_wf h -> gives (class3 e) (new_error e h).
Proof. intros Hwf. destruct (new_error_spec e h Hwf) as (h' & -> & ? & ? & _). by exists (next h), e, h'. Qed.

Lemma gives_Wrap_foreign err message h :
  heap_wf h -> As err = None -> gives (TypeInternal, 0, false) (Wrap captureStack (Some err) message h).
Proof. intros Hwf Ha. unfold Wrap. rewrite Ha. by apply (gives_new {| Type_ := TypeInternal |}). Qed.

Lemma gives_Wrap_gateway err message h e :
  heap_wf h -> lookup_error h err = Some e -> gives (class3 e) (Wrap captureStack (Some err) message h).
Proof.
  intros Hwf He. destruct (Wrap_gateway captureStack err message h e Hwf He) as (l & h' & e' & -> & ? & ? & Hf & _).
  exists l, e', h'. split_and!; try done. unfold class3. destruct Hf as (-> & -> & ->). done.
Qed.

Lemma gives_update c c' (m : op (option nat)) (f : GatewayError -> GatewayError) h :
  (forall e, class3 e = c -> class3 (f e) = c') -> gives c (m h) ->
  gives c' ((m ->> (fun p => '(l, e) ← deref p; _ ← store_error l (f e); mret p)) h).
Proof.
  intros Hf (l & e & h' & Hm & Hwf & He & Hc). rewrite (M_bind_ok _ _ _ _ _ Hm).
  unfold mbind, M_bind, deref, store_error. rewrite He. cbn.
  eexists l, (f e), _. split; [reflexivity|]. cbn. split; [|split; [apply lookup_insert_eq|by apply Hf]].
  intros l' Hl'. cbn in *. rewrite lookup_insert_ne; [by apply Hwf|]. intros <-. destruct (Hwf l Hl'). congruence.
Qed.

Lemma gives_WithComponent c m s h : gives c (m h) -> gives c ((m ->> WithComponent s) h).
Proof.
  apply (gives_update c c m (fun e =>
    {| Type_ := Type_ e; Message := Message e; Code := Code e; Cause := Cause e; Ctx := Ctx e;
       Stack := Stack e; Severity := Severity e; Retryable := Retryable e;
       HTTPStatus := HTTPStatus e; Component := s; Operation := Operation e |})). done.
Qed.

Lemma gives_WithOperation c m o h : gives c (m h) -> gives c ((m ->> WithOperation o) h).
Proof.
  apply (gives_update c c m (fun e =>
    {| Type_ := Type_ e; Message := Message e; Code := Code e; Cause := Cause e; Ctx := Ctx e;
       Stack := Stack e; Severity := Severity e; Retryable := Retryable e;
       HTTPStatus := HTTPStatus e; Component := Component e; Operation := o |})). done.
Qed.

Lemma gives_WithHTTPStatus t s rt m st h : gives (t, s, rt) (m h) -> gives (t, st, rt) ((m ->> WithHTTPStatus st) h).
Proof.
  apply (gives_update (t, s, rt) (t, st, rt) m (fun e =>
    {| Type_ := Type_ e; Message := Message e; Code := Code e; Cause := Cause e; Ctx := Ctx e;
       Stack := Stack e; Severity := Severity e; Retryable := Retryable e;
       HTTPStatus := st; Component := Component e; Operation := Operation e |})). by intros e [= <- _ <-].
Qed.

Lemma gives_WithContext c m k v h : gives c (m h) -> gives c ((m ->> WithContext k v) h).
Proof.
  intros (l & e & h' & Hm & Hwf & He & Hc). rewrite (M_bind_ok _ _ _ _ _ Hm). unfold WithContext.
  rewrite (M_bind_ok _ _ h' (l, e) h') by (unfold deref; by rewrite He).
  destruct (Ctx e) as [mp|] eqn:Ec; unfold mbind, M_bind, mret, M_ret, map_put, new_map, store_error; cbn;
    eexists l, _, _; (split; [reflexivity|]); cbn.
  - split_and!; try done. intros l' Hl'. cbn in *. destruct (Hwf l' Hl'). by rewrite lookup_alter_None.
  - split; [|split; [apply lookup_insert_eq|done]]. intros l' Hl'. cbn in *.
    destruct (Hwf l' ltac:(lia)) as [H1 H2].
    rewrite lookup_insert_ne, lookup_alter_None, lookup_insert_ne by (lia || congruence). done.
Qed.

Lemma gives_add_context c m ctx fields h : gives c (m h) -> gives c ((m ->> add_context ctx fields) h).
Proof.
  revert m; induction fields as [|f fields IH]; intros m Hm.
  - destruct Hm as (l & e & h' & E & ?). rewrite (M_bind_ok _ _ _ _ _ E). by exists l, e, h'.
  - assert ((m ->> add_context ctx (f :: fields)) h =
            match ctx !! f with Some v => ((m ->> WithContext f v) ->> add_context ctx fields) h
                              | None => (m ->> add_context ctx fields) h end) as ->.
    { unfold mbind, M_bind. cbn [add_context]. destruct (m h) as [[p|x] h'], (ctx !! f); done. }
    destruct (ctx !! f) as [v|]; [|by apply IH]. by apply IH, gives_WithContext.
Qed.

(** [FromContext] keeps the class of a gateway error, and wraps a foreign one. *)
Lemma gives_FromContext ctx err h e :
  heap_wf h -> lookup_error h err = Some e -> gives (class3 e) (FromContext captureStack ctx (Some err) h).
Proof.
  unfold lookup_error. intros Hwf He. unfold FromContext. destruct (As err) as [l|]; cbn in He; [|done].
  apply gives_add_context. by exists l, e, h.
Qed.

Lemma gives_WrapContextf ctx err message h c :
  gives c (Wrap captureStack (Some err) message h) -> gives c (WrapContextf ctx (Some err) message h).
Proof.
  intros (l & e & h' & E & Hwf & He & <-). unfold WrapContextf. rewrite (M_bind_ok _ _ _ _ _ E).
  apply gives_FromContext; [done|]. cbn. by rewrite He.
Qed.

(** Both ways of wrapping, by what is wrapped. *)
Definition class_wrapped (h : heap) (err : error) : ErrorType * Z * bool :=
  match lookup_error h err with Some e => class3 e | None => (TypeInternal, 0, false) end.

(** A gateway error in the chain is one of the heap. *)
Definition valid_err (h : heap) (err : error) : Prop := forall l, As err = Some l -> is_Some (errs h !! l).

Lemma gives_Wrap err message h :
  heap_wf h -> valid_err h err -> gives (class_wrapped h err) (Wrap captureStack (Some err) message h).
Proof.
  intros Hwf Hv. unfold class_wrapped. destruct (lookup_error h err) as [e|] eqn:E; [by apply gives_Wrap_gateway|].
  apply gives_Wrap_foreign; [done|]. unfold lookup_error in E. destruct (As err) as [l|] eqn:Ea; [|done].
  destruct (Hv l Ea) as [e He]. cbn in E. congruence.
Qed.

(** ** Wrapping *)

(** Every wrapper applied to a nil error dereferences nil at its first call. *)
Lemma wrap_nil_panics w ctx h : (wrap_with w ctx None h).1 = Err NilDereference.
Proof. destruct w; reflexivity. Qed.

(** ** Enrichment that errors never show *)

Lemma add_context_ext ctx ctx' fields p h :
  (forall f, f ∈ fields -> ctx !! f = ctx' !! f) ->
  add_context ctx fields p h = add_context ctx' fields p h.
Proof.
  revert p h; induction fields as [|f fields IH]; intros p h H; [done|]. cbn.
  rewrite (H f) by set_solver. destruct (ctx' !! f) as [v|]; [|apply IH; set_solver].
  unfold mbind, M_bind. destruct (WithContext f v p h) as [[q|e] h']; [apply IH; set_solver|done].
Qed.

Lemma with_value_ne k v ctx f : f <> k -> with_value k v ctx !! f = ctx !! f.
Proof. intros H. unfold with_value. case_bool_decide; [done|]. by rewrite lookup_insert_ne. Qed.

Lemma FromContext_ext ctx ctx' err h :
  (forall f, f ∈ getContextMappings -> ctx !! f = ctx' !! f) ->
  FromContext captureStack ctx err h = FromContext captureStack ctx' err h.
Proof.
  intros H. destruct err as [err|]; [|done]. unfold FromContext, mbind, M_bind.
  destruct (As err) as [l|]; [by apply add_context_ext|].
  destruct (Wrap _ _ _ h) as [[p|e] h']; [by apply add_context_ext|done].
Qed.

(** The three enrichments of a request context the errors of the package do not read. *)
Lemma enriched_unread backendName protocol serviceName namespace instanceID clientAddr serverAddr proto ctx f :
  f ∈ getContextMappings ->
  EnrichContextWithBackend backendName protocol (EnrichContextWithService serviceName namespace instanceID
    (EnrichContextWithConnection clientAddr serverAddr proto ctx)) !! f = ctx !! f.
Proof.
  intros Hf. unfold EnrichContextWithBackend, EnrichContextWithService, EnrichContextWithConnection.
  assert (forall k, k ∉ getContextMappings -> f <> k) as N by (intros k Hk ->; done).
  rewrite !with_value_ne; [done|..]; apply N; vm_compute; set_solver.
Qed.

(** Every constructor of the catalogue returns a new error of its class, whatever the
    arguments: the type decides retryability, the status is the one of its package,
    the context carries a code, no error or context map that existed before is
    touched, and [GetHTTPStatus] answers with that status in any order of its map. *)
Lemma catalog_errors (c : entry) (h : heap) (entries : list (ErrorType * Z)) :
  heap_wf h ->
  exists l h', raise c h = (Ok (Some l), h') /\ heap_wf h' /\ errs h !! l = None /\
    IsType h' (EGw l) (fst (class_of c)) = true /\
    GetHTTPStatus entries h' (EGw l) = snd (class_of c) /\
    IsRetryable h' (EGw l) = isRetryableType (fst (class_of c)) /\
    (exists e m code, errs h' !! l = Some e /\ Ctx e = Some m /\ errs h !! m = None /\
       maps h' !! m ≫= lookup "code" = Some (VStr code)) /\
    (forall l', (l' < next h)%nat -> errs h' !! l' = errs h !! l' /\ maps h' !! l' = maps h !! l').
Proof.
  intros Hwf. destruct (raise_built c h Hwf) as (ctx & code & B & Hcode).
  destruct B as (l & e & h' & Hr & Hwf' & Hl & _ & He & Ht & Hst & Hre & Hc & Hfr).
  exists l, h'. unfold IsType, GetHTTPStatus, IsRetryable, lookup_error. cbn. rewrite He. cbn.
  split_and!; try done.
  - by apply Hwf.
  - by apply bool_decide_eq_true.
  - rewrite Hst. by destruct c.
  - destruct (Ctx e) as [m|] eqn:Em; cbn in Hc; [|by rewrite Hc in Hcode].
    destruct Hc as [Hm Hc]. exists e, m, code. split_and!; try done; [by apply Hwf|].
    rewrite Hc. exact Hcode.
Qed.

End Catalog.

Lemma catalog_errors_witness :
  exists l h', raise (fun _ => []) (fun _ => EmptyString) (FieldTooLong "method" 300 255) empty_heap = (Ok (Some l), h') /\
    GetHTTPStatus [] h' (EGw l) = 400.
Proof.
  destruct (catalog_errors (fun _ => []) (fun _ => EmptyString) (FieldTooLong "method" 300 255) empty_heap [])
    as (l & h' & Hr & _ & _ & _ & Hs & _).
  { intros l _. done. }
  exists l, h'. split; [exact Hr|exact Hs].
Defined.

End ErrCatalog.
