(* ===== verification/Validation.v ===== *)
(** * Gateway input validation

    [services/gateway/internal/validation/validation.go].  A validator allocates
    nothing but the error it returns, so its result names the constructor of
    [ErrorCatalog] and its arguments; [raise] builds the error itself.  The URL and IP
    parsers of packages [net/url] and [net] are a class. *)
From S2P Require Import Prelude GoStrings GoUnicode GatewayErrors ErrorCatalog.
From stdpp Require Import pretty.
From Stdlib Require Import Strings.Ascii.
#[local] Open Scope Z_scope.

Module Validate.
Import GwErrors ErrCatalog.

Definition MaxNamespaceLength : Z := 255.
Definition MaxMethodLength : Z := 255.
Definition MaxIDLength : Z := 255.
Definition MaxTokenLength : Z := 4096.
Definition MaxURLLength : Z := 2048.

(** ** Character classes *)

Definition alnum (r : Z) : bool := in_range 97 122 r || in_range 65 90 r || in_range 48 57 r.
Definition one_of (l : list Z) (r : Z) : bool := existsb (Z.eqb r) l.

(** The classes of the three regular expressions: letters, digits and some of
    [. _ - /]. *)
Definition namespace_char (r : Z) : bool := alnum r || one_of [46; 95; 45] r.
Definition method_char (r : Z) : bool := alnum r || one_of [46; 95; 47; 45] r.
Definition id_char (r : Z) : bool := alnum r || one_of [95; 45] r.

Definition namespaceRegex (s : string) : bool := match_class namespace_char s.
Definition methodRegex (s : string) : bool := match_class method_char s.
Definition idRegex (s : string) : bool := match_class id_char s.

(** ** Names *)

Definition ValidateNamespace (namespace : string) : result entry unit :=
  first_error
    [(bool_decide (namespace = EmptyString), EmptyField "namespace");
     (MaxNamespaceLength <? slen namespace, FieldTooLong "namespace" (slen namespace) MaxNamespaceLength);
     (negb (ValidString namespace), InvalidUTF8 "namespace");
     (negb (namespaceRegex namespace), InvalidCharacters "namespace" namespace);
     (Contains namespace "..", DirectoryTraversal "namespace")].

Definition ValidateMethod (method : string) : result entry unit :=
  first_error
    [(bool_decide (method = EmptyString), EmptyField "method");
     (MaxMethodLength <? slen method, FieldTooLong "method" (slen method) MaxMethodLength);
     (negb (ValidString method), InvalidUTF8 "method");
     (negb (methodRegex method), InvalidCharacters "method" method);
     (Contains method "..", DirectoryTraversal "method")].

(** ** Request identifiers *)

(** The dynamic type of [id]: the four the switch names, any other by its %T. *)
Inductive dynamic (float64 : Type) :=
| IDString (s : string) | IDFloat (f : float64) | IDInt (z : Z) | IDInt64 (z : Z) | IDOther (typ : string).
Arguments IDString {_} s.
Arguments IDFloat {_} f.
Arguments IDInt {_} z.
Arguments IDInt64 {_} z.
Arguments IDOther {_} typ.

(** The [%g] verb of package fmt on float64: never empty, ASCII, at most 24 bytes
    (the shortest decimal that reads back the number). *)
Class FormatG := {
  float64 : Type;
  Sprintf_g : float64 -> string;
  Sprintf_g_nonempty : forall f, Sprintf_g f <> EmptyString;
  Sprintf_g_length : forall f, slen (Sprintf_g f) <= 24;
  Sprintf_g_ascii : forall f, str_forall (fun a => bz a <? 128) (Sprintf_g f) = true;
}.

Definition convertIDToString `{FormatG} (id : dynamic float64) : result entry string :=
  match id with
  | IDString v => Ok v
  | IDFloat v => Ok (Sprintf_g v)
  | IDInt v | IDInt64 v => Ok (pretty v)
  | IDOther t => Err (InvalidIDType t)
  end.

Definition validateIDString (idStr : string) : result entry unit :=
  first_error
    [(bool_decide (idStr = EmptyString), EmptyField "ID");
     (MaxIDLength <? slen idStr, FieldTooLong "ID" (slen idStr) MaxIDLength);
     (negb (ValidString idStr), InvalidUTF8 "ID")].

Definition validateStringIDFormat (idStr : string) : result entry unit :=
  first_error [(negb (idRegex idStr), InvalidCharacters "ID" idStr)].

Definition ValidateRequestID `{FormatG} (id : dynamic float64) : result entry unit :=
  idStr ← convertIDToString id;
  _ ← validateIDString idStr;
  match id with
  | IDString _ => validateStringIDFormat idStr
  | _ => Ok tt
  end.

(** ** Tokens *)

Definition nul_cr_lf : string := str_of [0; 13; 10].

Definition ValidateToken (token : string) : result entry unit :=
  first_error
    [(bool_decide (token = EmptyString), EmptyField "token");
     (MaxTokenLength <? slen token, FieldTooLong "token" (slen token) MaxTokenLength);
     (negb (ValidString token), InvalidUTF8 "token");
     (ContainsAny token nul_cr_lf, InvalidToken "contains invalid characters")].

(** ** Host names *)

Definition isAlphaNumeric (ch : Z) : bool := in_range 97 122 ch || in_range 65 90 ch || in_range 48 57 ch.

(** [byte(ch)] keeps the low eight bits of the rune. *)
Definition isValidLabelContent (label : string) : bool :=
  forallb (fun ch => isAlphaNumeric (wrap_u 8 ch) || (ch =? 45)) (runes label).

Fixpoint last_byte (s : string) (d : ascii) : ascii :=
  match s with EmptyString => d | String a s' => last_byte s' a end.

Definition isValidLabel (label : string) : bool :=
  match label with
  | EmptyString => false
  | String a s' =>
      if 63 <? slen label then false
      else if negb (isAlphaNumeric (bz a)) || negb (isAlphaNumeric (bz (last_byte s' a))) then false
      else isValidLabelContent label
  end.

Definition isValidHostnameLength (hostname : string) : bool :=
  negb (bool_decide (hostname = EmptyString)) && (slen hostname <=? 255).

Definition isValidHostname (hostname : string) : bool :=
  if negb (isValidHostnameLength hostname) then false
  else forallb isValidLabel (SplitByte "."%char hostname).

(** ** URLs and addresses *)

Record URL := mkURL { Scheme : string; Host : string; Hostname : string; URLPort : string; URLPath : string }.

(** [url.Parse] (with [u.Hostname()] and [u.Port()]) and [net.ParseIP]; an error is its text. *)
Class NetParsers := {
  url_Parse : string -> result string URL;
  net_ParseIP : string -> bool;   (* false: nil *)
}.

Definition valid_schemes : list string := ["http"; "https"; "ws"; "wss"; "tcp"; "tcps"].

Definition ValidateURL `{NetParsers} (urlStr : string) : result entry unit :=
  _ ← first_error
    [(bool_decide (urlStr = EmptyString), EmptyField "URL");
     (MaxURLLength <? slen urlStr, FieldTooLong "URL" (slen urlStr) MaxURLLength);
     (negb (ValidString urlStr), InvalidUTF8 "URL")];
  match url_Parse urlStr with
  | Err reason => Err (InvalidURL urlStr reason)
  | Ok u =>
      first_error
        [(negb (bool_decide (Scheme u ∈ valid_schemes)), InvalidScheme (Scheme u));
         (bool_decide (Host u = EmptyString), MissingHost);
         (negb (net_ParseIP (Hostname u)) && negb (isValidHostname (Hostname u)), InvalidHostname (Hostname u))]
  end.

Definition ValidateIP `{NetParsers} (ip : string) : result entry unit :=
  first_error
    [(bool_decide (ip = EmptyString), EmptyField "IP");
     (negb (net_ParseIP ip), InvalidIP ip)].

(** ** Sanitising *)

Definition SanitizeString (s : string) : string :=
  let s := ReplaceAll s (str_of [0]) "" in
  let s := ReplaceAll s (str_of [13]) " " in
  let s := ReplaceAll s (str_of [10]) " " in
  TrimSpace s.

(** ** Specifications *)

Lemma alnum_ascii r : alnum r = true -> 0 <= r < 128.
Proof. unfold alnum, in_range. rewrite !orb_true_iff, !andb_true_iff. lia. Qed.

Lemma class_ascii l r : forallb (fun z => z <? 128) l = true -> alnum r || one_of l r = true -> r < 128.
Proof.
  intros Hl [H|H]%orb_true_iff; [apply alnum_ascii in H; lia|].
  unfold one_of in H. apply existsb_exists in H as (z & Hz & ->%Z.eqb_eq).
  rewrite forallb_forall in Hl. specialize (Hl _ Hz). lia.
Qed.

Lemma str_forall_impl (p q : ascii -> bool) s :
  (forall a, p a = true -> q a = true) -> str_forall p s = true -> str_forall q s = true.
Proof. intros H. induction s as [|a s IH]; cbn; [done|]. intros [? ?]%andb_prop. rewrite H by done. auto. Qed.

(** A match of one of the expressions is a non-empty string of bytes of its class,
    and so is valid UTF-8. *)
Lemma match_class_spec class s :
  (forall r, class r = true -> r < 128) ->
  match_class class s = true <-> s <> EmptyString /\ str_forall (fun a => class (bz a)) s = true.
Proof.
  intros Hc. unfold match_class. rewrite andb_true_iff, negb_true_iff, bool_decide_eq_false, forallb_runes; done.
Qed.

Lemma class_ValidString class s :
  (forall r, class r = true -> r < 128) -> str_forall (fun a => class (bz a)) s = true -> ValidString s = true.
Proof.
  intros Hc Hs. apply ascii_ValidString. revert Hs. apply str_forall_impl. intros a Ha%Hc. lia.
Qed.

(** A name as the two name validators accept it. *)
Definition good_name (class : Z -> bool) (max : Z) (s : string) : Prop :=
  s <> EmptyString /\ slen s <= max /\ str_forall (fun a => class (bz a)) s = true /\ Contains s ".." = false.

Lemma name_guards class max (s : string) (e1 e2 e3 e4 e5 : entry) :
  (forall r, class r = true -> r < 128) ->
  first_error [(bool_decide (s = EmptyString), e1); (max <? slen s, e2); (negb (ValidString s), e3);
               (negb (match_class class s), e4); (Contains s "..", e5)] = Ok tt
  <-> good_name class max s.
Proof.
  intros Hc. unfold good_name. rewrite first_error_ok, !Forall_cons, Forall_nil. cbn.
  rewrite bool_decide_eq_false, Z.ltb_ge, !negb_false_iff, match_class_spec by done.
  pose proof (class_ValidString class s Hc). naive_solver.
Qed.

Lemma Contains_middle u w v : Contains (u +:+ w +:+ v) w = true.
Proof. apply Contains_spec. by exists u, v. Qed.

(** ** Host names *)

Lemma runes_of_ascii s :
  str_forall (fun a => bz a <? 128) s = true ->
  forall p : Z -> bool, forallb p (runes s) = str_forall (fun a => p (bz a)) s.
Proof.
  intros Hs p. induction s as [|a s IH]; [done|]. cbn in Hs. apply andb_prop in Hs as [Ha Hs].
  rewrite runes_ascii by lia. cbn. by rewrite IH.
Qed.

(** The letter-digit-hyphen rule of RFC 1123. *)
Definition ldh_char (a : ascii) : bool := isAlphaNumeric (bz a) || (bz a =? 45).
Definition ldh_label (l : string) : bool :=
  match l with
  | EmptyString => false
  | String a l' => (slen l <=? 63) && isAlphaNumeric (bz a) && isAlphaNumeric (bz (last_byte l' a)) && str_forall ldh_char l
  end.
Definition rfc_hostname (h : string) : bool :=
  negb (bool_decide (h = EmptyString)) && (slen h <=? 255) && forallb ldh_label (SplitByte "."%char h).

Lemma isValidLabel_ascii l :
  str_forall (fun a => bz a <? 128) l = true -> isValidLabel l = ldh_label l.
Proof.
  intros Hl. destruct l as [|a l]; [done|]. unfold isValidLabel, ldh_label.
  rewrite Z.leb_antisym. destruct (63 <? slen (String a l)); [done|].
  destruct (isAlphaNumeric (bz a)), (isAlphaNumeric (bz (last_byte l a))); try done.
  cbn [negb orb andb]. unfold isValidLabelContent. rewrite (runes_of_ascii _ Hl).
  generalize (String a l). intros s. induction s as [|b s IH]; [done|]. cbn. rewrite IH.
  unfold ldh_char. by rewrite wrap_u_small by (pose proof (bz_range b); lia).
Qed.

Lemma ldh_ascii l : ldh_label l = true -> str_forall (fun a => bz a <? 128) l = true.
Proof.
  destruct l as [|a l]; [done|]. unfold ldh_label. intros [_ H]%andb_prop. revert H.
  apply str_forall_impl. intros b. unfold ldh_char. rewrite orb_true_iff.
  intros [H%alnum_ascii|H]; lia.
Qed.

Lemma SplitByte_forall p c s w : w ∈ SplitByte c s -> str_forall p s = true -> str_forall p w = true.
Proof.
  intros (u & v & ->)%SplitByte_part. rewrite !str_forall_app. intros H. by bool_to_prop.
Qed.

Lemma forallb_eq {A} (p q : A -> bool) l : (forall x, x ∈ l -> p x = q x) -> forallb p l = forallb q l.
Proof. induction l as [|x l IH]; intros H; [done|]. cbn. rewrite H, IH; [done|set_solver..]. Qed.

(** ** Sanitising *)

Lemma ReplaceAll_mem c d new s :
  str_mem d new = false -> str_mem d s = false \/ c = d ->
  str_mem d (ReplaceAll s (String c EmptyString) new) = false.
Proof.
  intros Hn. induction s as [|a s IH]; intros H; [done|]. rewrite ReplaceAll_byte.
  destruct (Ascii.eqb_spec c a) as [->|].
  - rewrite str_mem_app, Hn. cbn. apply IH. destruct H as [H|]; [left|by right].
    cbn in H. by apply orb_false_iff in H as [_ ?].
  - cbn. destruct H as [[H1 H2]%orb_false_iff|<-].
    + rewrite H1. apply IH. by left.
    + rewrite IH by by right. rewrite orb_false_r. by apply Ascii.eqb_neq.
Qed.

Lemma ReplaceAll_id c new s : str_mem c s = false -> ReplaceAll s (String c EmptyString) new = s.
Proof.
  induction s as [|a s IH]; [done|]. cbn [str_mem]. intros [Ha Hs]%orb_false_iff.
  rewrite ReplaceAll_byte, (IH Hs). destruct (Ascii.eqb_spec c a) as [->|]; [|done].
  by rewrite Ascii.eqb_refl in Ha.
Qed.

Lemma TrimSpace_mem d s : str_mem d s = false -> str_mem d (TrimSpace s) = false.
Proof.
  destruct (TrimSpace_part s) as (u & v & Hs). rewrite Hs at 1. rewrite !str_mem_app.
  intros (_ & [? _]%orb_false_iff)%orb_false_iff. done.
Qed.

(** ** Theorems *)

(** The name validators accept exactly the non-empty names of at most 255 bytes over
    their alphabet without [".."]; in particular an accepted method, read as a path,
    has no parent-directory segment. *)
Lemma accepted_names (s : string) :
  (ValidateNamespace s = Ok tt <-> good_name namespace_char MaxNamespaceLength s) /\
  (ValidateMethod s = Ok tt <-> good_name method_char MaxMethodLength s) /\
  (ValidateMethod s = Ok tt -> ".."%string ∉ SplitByte "/"%char s) /\
  (forall e, ValidateNamespace s = Err e \/ ValidateMethod s = Err e -> class_of e = (TypeValidation, 400)).
Proof.
  assert (forall r, namespace_char r = true -> r < 128) as Hn by (intros r; by apply class_ascii).
  assert (forall r, method_char r = true -> r < 128) as Hm by (intros r; by apply class_ascii).
  split_and!; [by apply name_guards|by apply name_guards| |].
  - intros (_ & _ & _ & Hd)%name_guards Hin; [|done].
    apply SplitByte_part in Hin as (u & v & ->). by rewrite Contains_middle in Hd.
  - intros e [H%first_error_err|H%first_error_err]; cbn in H; set_unfold; naive_solver.
Qed.

(** Request identifiers: every number is accepted, a string exactly when it is
    non-empty, at most 255 bytes, over letters, digits, ["-"] and ["_"], and any
    other type is an error. *)
Lemma accepted_request_ids `{FormatG} :
  (forall s, ValidateRequestID (IDString s) = Ok tt <->
     s <> EmptyString /\ slen s <= MaxIDLength /\ str_forall (fun a => id_char (bz a)) s = true) /\
  (forall f, ValidateRequestID (IDFloat f) = Ok tt) /\
  (forall z, min_i64 <= z <= max_i64 ->
     ValidateRequestID (IDInt z) = Ok tt /\ ValidateRequestID (IDInt64 z) = Ok tt) /\
  (forall t, ValidateRequestID (IDOther t) = Err (InvalidIDType t)).
Proof.
  assert (forall s, s <> EmptyString -> slen s <= MaxIDLength ->
    str_forall (fun a => bz a <? 128) s = true -> validateIDString s = Ok tt) as V.
  { intros s H1 H2 H3. apply first_error_ok. rewrite !Forall_cons, Forall_nil. cbn.
    rewrite (ascii_ValidString s H3), bool_decide_eq_false. split_and!; try done. lia. }
  split_and!.
  - intros s. assert (forall r, id_char r = true -> r < 128) as Hc by (intros r; by apply class_ascii).
    unfold ValidateRequestID, validateStringIDFormat, idRegex, mbind, result_bind. cbn -[validateIDString]. split.
    + destruct (validateIDString s) as [[]|e] eqn:E; cbn; [|done].
      apply first_error_ok in E. rewrite !Forall_cons in E. cbn in E.
      destruct (match_class id_char s) eqn:Em; cbn; [|done]. intros _.
      apply match_class_spec in Em; [|done]. destruct E as (_ & E%Z.ltb_ge & _). naive_solver.
    + intros (H1 & H2 & H3). rewrite V; [|done..|].
      * cbn. by rewrite (proj2 (match_class_spec id_char s Hc) (conj H1 H3)).
      * revert H3. apply str_forall_impl. intros a Ha%Hc. lia.
  - intros f. unfold ValidateRequestID, mbind, result_bind. cbn -[validateIDString]. rewrite V; [done|apply Sprintf_g_nonempty| |apply Sprintf_g_ascii].
    pose proof (Sprintf_g_length f). unfold MaxIDLength. lia.
  - intros z Hz. unfold ValidateRequestID, mbind, result_bind. cbn -[validateIDString].
    rewrite V; [done|apply pretty_Z_nonempty| |apply pretty_Z_ascii].
    pose proof (length_pretty_Z z Hz). unfold MaxIDLength. lia.
  - done.
Qed.

(** Host names: everything RFC 1123 allows is accepted, and on ASCII names nothing
    else is. *)
Lemma hostnames (h : string) :
  (rfc_hostname h = true -> isValidHostname h = true) /\
  (str_forall (fun a => bz a <? 128) h = true -> isValidHostname h = rfc_hostname h).
Proof.
  assert (forall lab, (forall l, l ∈ SplitByte "."%char h -> isValidLabel l = lab l) ->
    isValidHostname h = negb (bool_decide (h = EmptyString)) && (slen h <=? 255) && forallb lab (SplitByte "."%char h)) as E.
  { intros lab Hl. unfold isValidHostname, isValidHostnameLength. rewrite (forallb_eq _ lab); [|done].
    by destruct (negb (bool_decide (h = EmptyString)) && (slen h <=? 255)). }
  split.
  - intros H. rewrite (E ldh_label); [done|]. intros l Hl. apply isValidLabel_ascii, ldh_ascii.
    unfold rfc_hostname in H. apply andb_prop in H as [_ H]. rewrite forallb_forall in H.
    by apply H, list_elem_of_In.
  - intros H. apply E. intros l Hl. apply isValidLabel_ascii. by eapply SplitByte_forall.
Qed.

(** Sanitising leaves no NUL, carriage return or line feed, no white space at
    either end, and a second pass changes nothing. *)
Lemma SanitizeString_clean (s : string) :
  (forall c, str_mem c nul_cr_lf = true -> str_mem c (SanitizeString s) = false) /\
  trimmed (SanitizeString s) = true /\
  SanitizeString (SanitizeString s) = SanitizeString s.
Proof.
  assert (forall c, str_mem c nul_cr_lf = true -> str_mem c (SanitizeString s) = false) as Hc.
  { intros c. unfold SanitizeString. intros H. apply TrimSpace_mem.
    unfold nul_cr_lf, str_of in H. cbn [fold_right str_mem] in H.
    rewrite orb_false_r, !orb_true_iff, !Ascii.eqb_eq in H. destruct H as [<-|[<-|<-]];
      (apply ReplaceAll_mem; [reflexivity|]);
      repeat first [right; reflexivity | left; apply ReplaceAll_mem; [reflexivity|]]. }
  split_and!; [done|apply TrimSpace_trimmed|].
  unfold SanitizeString at 1. cbn zeta. unfold str_of. cbn [fold_right].
  do 3 rewrite (ReplaceAll_id _ _ (SanitizeString s)) by by apply Hc. apply TrimSpace_id, TrimSpace_trimmed.
Qed.

(** ** Instances and examples *)

(** A formatter of the class's shape, for a type with one number. *)
#[local] Instance format_zero : FormatG :=
  {| float64 := unit; Sprintf_g := fun _ => "0"%string; Sprintf_g_nonempty := fun _ => ltac:(done);
     Sprintf_g_length := fun _ => ltac:(done); Sprintf_g_ascii := fun _ => eq_refl |}.

Lemma accepted_names_witness :
  ValidateMethod "tools/call" = Ok tt /\ ".."%string ∉ SplitByte "/"%char "tools/call".
Proof.
  destruct (accepted_names "tools/call") as (_ & H1 & H2 & _).
  assert (ValidateMethod "tools/call" = Ok tt) as H by (apply H1; split_and!; done).
  split; [exact H | exact (H2 H)].
Defined.

Lemma accepted_request_ids_witness :
  ValidateRequestID (IDString "req-1") = Ok tt /\ ValidateRequestID (IDFloat tt) = Ok tt /\
  ValidateRequestID (IDInt64 min_i64) = Ok tt.
Proof.
  destruct accepted_request_ids as (H1 & H2 & H3 & _). split_and!.
  - apply H1. split_and!; done.
  - apply H2.
  - apply H3. done.
Defined.

Lemma hostnames_witness : isValidHostname "api.example-1.com" = true.
Proof. apply hostnames. reflexivity. Defined.

(** The label check reads the low byte of each rune: U+0161 passes for ["a"]. *)
Example truncated_rune_accepted :
  isValidHostname ("a" +:+ str_of [197; 161] +:+ "b") = true /\ rfc_hostname ("a" +:+ str_of [197; 161] +:+ "b") = false.
Proof. split; vm_compute; reflexivity. Qed.

Example rejections :
  ValidateMethod "a/../b" = Err (DirectoryTraversal "method") /\
  ValidateNamespace "a b" = Err (InvalidCharacters "namespace" "a b") /\
  ValidateToken (str_of [65; 10]) = Err (InvalidToken "contains invalid characters").
Proof. split_and!; vm_compute; reflexivity. Qed.

End Validate.
