(* ===== verification/Session.v ===== *)
(** * Sessions

    [services/gateway/internal/session/memory_manager.go] and [manager.go]: the
    in-memory and the Redis implementation of the [Manager] interface.  Sessions are
    shared pointers in memory (callers and table alias them) and values in Redis. *)
From S2P Require Import Prelude GoUnicode RateLimit.
From Stdlib Require Import Strings.Ascii.
#[local] Open Scope Z_scope.

Module Sessions.

Record Session := mkSession {
  ID : string;
  User : string;
  CreatedAt : Z;
  UpdatedAt : Z;
  ExpiresAt : Z;
  Scopes : list string;
  Metadata : gmap string string;
  RateLimit : GwLimit.RateLimitConfig;
}.

(** The claims of a token; [ExpiresAt] is a pointer. *)
Record Claims := mkClaims {
  Subject : string;
  ClaimsExpiresAt : option Z;
  ClaimsScopes : list string;
  ClaimsRateLimit : GwLimit.RateLimitConfig;
}.

Definition HasScope (scope : string) (s : Session) : bool :=
  existsb (fun sc => bool_decide (sc = scope)) (Scopes s).

(** Errors by the constructor that builds them ([session/errors.go]); a panic ends
    the call. *)
Inductive SessionError :=
| SessionNotFound (id : string)
| SessionExpired (id : string) (expiredAt : Z)
| SessionStoreFailed (operation id : string)
| SessionDeleteFailed (id : string)
| Panicked.

Definition new_session (claims : Claims) (expires : Z) (id : string) (created updated : Z) : Session :=
  {| ID := id; User := Subject claims; CreatedAt := created; UpdatedAt := updated; ExpiresAt := expires;
     Scopes := ClaimsScopes claims; Metadata := ∅; RateLimit := ClaimsRateLimit claims |}.

Definition touch (now : Z) (s : Session) : Session :=
  {| ID := ID s; User := User s; CreatedAt := CreatedAt s; UpdatedAt := now; ExpiresAt := ExpiresAt s;
     Scopes := Scopes s; Metadata := Metadata s; RateLimit := RateLimit s |}.

(** ** In memory *)

Record MemoryManager := mkMemory {
  heap : gmap nat Session;                    (* the sessions callers and the table point to *)
  next : nat;
  sessions : option (gmap string nat);        (* nil after Close *)
  closed : bool;
}.

Definition CreateInMemorySessionStore : MemoryManager :=
  {| heap := ∅; next := 0; sessions := Some ∅; closed := false |}.

Notation mem A := (M MemoryManager SessionError A).

Definition with_sessions (ss : option (gmap string nat)) (m : MemoryManager) : MemoryManager :=
  {| heap := heap m; next := next m; sessions := ss; closed := closed m |}.

Definition write (p : nat) (s : Session) (m : MemoryManager) : MemoryManager :=
  {| heap := <[p := s]> (heap m); next := next m; sessions := sessions m; closed := closed m |}.

(** A read of a nil map finds nothing; a write to it panics. *)
Definition find (id : string) (m : MemoryManager) : option nat := ss ← sessions m; ss !! id.

(** [performCleanup]: sessions past their expiry leave the table. *)
Definition performCleanup (now : Z) (m : MemoryManager) : MemoryManager :=
  let live p := match heap m !! p with Some s => negb (time_after now (ExpiresAt s)) | None => true end in
  with_sessions (filter (fun '(_, p) => live p = true) <$> sessions m) m.

(** [CreateSession]; [id] is the generated identifier. *)
Definition CreateSession (claims : Claims) (id : string) (created updated : Z) : mem nat := fun m =>
  match ClaimsExpiresAt claims, sessions m with
  | Some expires, Some ss =>
      let p := next m in
      (Ok p, {| heap := <[p := new_session claims expires id created updated]> (heap m); next := S p;
                sessions := Some (<[id := p]> ss); closed := closed m |})
  | _, _ => (Err Panicked, m)
  end.

(** [RemoveSession]; deleting from a nil map does nothing. *)
Definition RemoveSession (id : string) (m : MemoryManager) : MemoryManager :=
  with_sessions (delete id <$> sessions m) m.

Definition GetSession (id : string) (now : Z) : mem nat := fun m =>
  match find id m with
  | None => (Err (SessionNotFound id), m)
  | Some p =>
      match heap m !! p with
      | None => (Err Panicked, m)
      | Some s =>
          if time_after now (ExpiresAt s)
          then (Err (SessionExpired (ID s) (ExpiresAt s)), RemoveSession id m)
          else (Ok p, m)
      end
  end.

Definition UpdateSession (p : nat) (updated now : Z) : mem unit := fun m =>
  match heap m !! p with
  | None => (Err Panicked, m)
  | Some s =>
      let m := write p (touch updated s) m in
      if time_after now (ExpiresAt s) then (Err (SessionExpired (ID s) (ExpiresAt s)), m)
      else match sessions m with
           | None => (Err (SessionNotFound (ID s)), m)
           | Some ss =>
               match ss !! ID s with
               | None => (Err (SessionNotFound (ID s)), m)
               | Some _ => (Ok tt, with_sessions (Some (<[ID s := p]> ss)) m)
               end
           end
  end.

(** [Close]: closing the stop channel twice panics. *)
Definition Close : mem unit := fun m =>
  if closed m then (Err Panicked, m)
  else (Ok tt, {| heap := heap m; next := next m; sessions := None; closed := true |}).

(** [GetStats]: total, active and expired sessions. *)
Definition GetStats (now : Z) (m : MemoryManager) : Z * Z * Z :=
  let ps := match sessions m with Some ss => map snd (map_to_list ss) | None => [] end in
  let active := count (fun p => match heap m !! p with Some s => now <? ExpiresAt s | None => false end) ps in
  (zlen ps, active, zlen ps - active).

(** ** In Redis *)

(** The texts of a session are valid UTF-8; what is not is replaced when it is encoded. *)
Definition session_reads_back (s : Session) : bool :=
  ValidString (ID s) && ValidString (User s) && forallb ValidString (Scopes s) &&
  forallb (fun kv => ValidString (fst kv) && ValidString (snd kv)) (map_to_list (Metadata s)).

(** The string commands and the JSON codec.  [visible s k t] is what GET would
    return at [t].  A SET with a positive expiration keeps the value for it, up to the
    millisecond the protocol rounds to, and drops it afterwards; DEL removes the key;
    a command that succeeds touches only its key; GET changes nothing. *)
Class SessionStore := {
  kvs : Type;
  kv_error : Type;
  visible : kvs -> string -> Z -> option string;
  kv_Get : string -> Z -> kvs -> result (GwLimit.GetError kv_error) string;
  kv_Set : string -> string -> Z -> Z -> kvs -> option kv_error * kvs;
  kv_Del : string -> Z -> kvs -> option kv_error * kvs;
  marshal : Session -> option string;
  unmarshal : string -> option Session;
  get_visible : forall k now s d, kv_Get k now s = Ok d -> visible s k now = Some d;
  get_nil : forall k now s, kv_Get k now s = Err (GwLimit.RedisNil _) -> visible s k now = None;
  set_visible : forall k d ttl now s s' t, kv_Set k d ttl now s = (None, s') -> 0 < ttl ->
    now <= t -> t + Millisecond <= now + ttl -> visible s' k t = Some d;
  set_expires : forall k d ttl now s s' t, kv_Set k d ttl now s = (None, s') -> 0 < ttl ->
    now + ttl + Millisecond <= t -> visible s' k t = None;
  set_other : forall k d ttl now s s' k' t, kv_Set k d ttl now s = (None, s') -> k' <> k ->
    visible s' k' t = visible s k' t;
  del_gone : forall k now s s' t, kv_Del k now s = (None, s') -> visible s' k t = None;
  del_other : forall k now s s' k' t, kv_Del k now s = (None, s') -> k' <> k -> visible s' k' t = visible s k' t;
  unmarshal_marshal : forall s d, session_reads_back s = true -> marshal s = Some d -> unmarshal d = Some s;
}.

Section RedisManager.
Context `{SessionStore}.

Record RedisManager := mkRedisManager { client : kvs; ttl : Z }.

Definition with_client (c : kvs) (m : RedisManager) : RedisManager := {| client := c; ttl := ttl m |}.

Definition session_key (id : string) : string := ("session:" +:+ id)%string.

Notation rop A := (M RedisManager SessionError A).

(** The session's remaining life, at most the manager's TTL. *)
Definition session_ttl (m : RedisManager) (s : Session) (now : Z) : Z :=
  let t := time_sub (ExpiresAt s) now in if ttl m <? t then ttl m else t.

Definition RedisCreateSession (claims : Claims) (id : string) (created updated now : Z) : rop Session := fun m =>
  match ClaimsExpiresAt claims with
  | None => (Err Panicked, m)
  | Some expires =>
      let s := new_session claims expires id created updated in
      match marshal s with
      | None => (Err (SessionStoreFailed "marshal" id), m)
      | Some data =>
          match kv_Set (session_key id) data (session_ttl m s now) now (client m) with
          | (Some _, c) => (Err (SessionStoreFailed "set" id), with_client c m)
          | (None, c) => (Ok s, with_client c m)
          end
      end
  end.

Definition RedisRemoveSession (id : string) (now : Z) : rop unit := fun m =>
  match kv_Del (session_key id) now (client m) with
  | (Some _, c) => (Err (SessionDeleteFailed id), with_client c m)
  | (None, c) => (Ok tt, with_client c m)
  end.

Definition RedisGetSession (id : string) (now : Z) : rop Session := fun m =>
  match kv_Get (session_key id) now (client m) with
  | Err (GwLimit.RedisNil _) => (Err (SessionNotFound id), m)
  | Err (GwLimit.GetFailed _ _) => (Err (SessionStoreFailed "get" id), m)
  | Ok data =>
      match unmarshal data with
      | None => (Err (SessionStoreFailed "unmarshal" id), m)
      | Some s =>
          if time_after now (ExpiresAt s)
          then (Err (SessionExpired (ID s) (ExpiresAt s)), snd (RedisRemoveSession id now m))
          else (Ok s, m)
      end
  end.

(** [UpdateSession]: the caller's session is touched; the result carries it. *)
Definition RedisUpdateSession (s : Session) (updated now : Z) : rop Session := fun m =>
  let s := touch updated s in
  match marshal s with
  | None => (Err (SessionStoreFailed "marshal" (ID s)), m)
  | Some data =>
      if time_sub (ExpiresAt s) now <=? 0 then (Err (SessionExpired (ID s) (ExpiresAt s)), m)
      else match kv_Set (session_key (ID s)) data (session_ttl m s now) now (client m) with
           | (Some _, c) => (Err (SessionStoreFailed "update" (ID s)), with_client c m)
           | (None, c) => (Ok s, with_client c m)
           end
  end.

End RedisManager.

(** ** Runs of the in-memory manager *)

Inductive SOp :=
| SCreate (claims : Claims) (id : string) (created updated : Z)
| SGet (id : string)
| SUpdate (p : nat) (updated : Z)
| SRemove (id : string)
| SMeta (p : nat) (k v : string)       (* the caller writes session.Metadata[k] *)
| SCleanup.                            (* the ticker fires *)

(** What the caller observes. *)
Inductive obs := Got (p : nat) | Done | Failed (e : SessionError).

Definition observe {A} (f : A -> obs) (r : result SessionError A) : obs :=
  match r with Ok a => f a | Err e => Failed e end.

Definition set_meta (k v : string) (s : Session) : Session :=
  {| ID := ID s; User := User s; CreatedAt := CreatedAt s; UpdatedAt := UpdatedAt s; ExpiresAt := ExpiresAt s;
     Scopes := Scopes s; Metadata := <[k := v]> (Metadata s); RateLimit := RateLimit s |}.

Definition mem_step (now : Z) (o : SOp) (m : MemoryManager) : list obs * MemoryManager :=
  match o with
  | SCreate claims id created updated =>
      let '(r, m') := CreateSession claims id created updated m in ([observe Got r], m')
  | SGet id => let '(r, m') := GetSession id now m in ([observe Got r], m')
  | SUpdate p updated => let '(r, m') := UpdateSession p updated now m in ([observe (fun _ => Done) r], m')
  | SRemove id => ([Done], RemoveSession id m)
  | SMeta p k v =>
      match heap m !! p with
      | Some s => ([Done], write p (set_meta k v s) m)
      | None => ([Failed Panicked], m)
      end
  | SCleanup => ([], performCleanup now m)
  end.

Fixpoint mem_run (ops : list (Z * SOp)) (m : MemoryManager) : list obs * MemoryManager :=
  match ops with
  | [] => ([], m)
  | (now, o) :: ops =>
      let '(out, m') := mem_step now o m in
      let '(outs, m'') := mem_run ops m' in (out ++ outs, m'')
  end.

Definition no_cleanup (ops : list (Z * SOp)) : list (Z * SOp) :=
  List.filter (fun o => match snd o with SCleanup => false | _ => true end) ops.

Definition created_ids (ops : list (Z * SOp)) : list string :=
  omap (fun o => match snd o with SCreate _ id _ _ => Some id | _ => None end) ops.

(** Equal observations, except that the cleaned table may answer "not found" where
    the other still answers "expired". *)
Definition obs_le (o o' : obs) : Prop :=
  o = o' \/ exists id t, o = Failed (SessionNotFound id) /\ o' = Failed (SessionExpired id t).

(** The cleaned table [c] against the uncleaned one [a] at instant [t]: same heap,
    and [c] lacks only sessions that have expired. *)
Record sim (t : Z) (used : list string) (c a : MemoryManager) : Prop := {
  sim_heap : heap c = heap a;
  sim_next : next c = next a;
  sim_tables : exists sc sa, sessions c = Some sc /\ sessions a = Some sa /\ sc ⊆ sa /\
    forall id p, sa !! id = Some p ->
      exists s, heap a !! p = Some s /\ ID s = id /\ (sc !! id = None -> ExpiresAt s < t);
  sim_alloc : forall p s, heap a !! p = Some s -> (p < next a)%nat /\ ID s ∈ used;
  sim_unique : forall p p' s s', heap a !! p = Some s -> heap a !! p' = Some s' -> ID s = ID s' -> p = p';
}.

Lemma sim_later t t' used c a : t <= t' -> sim t used c a -> sim t' used c a.
Proof.
  intros Ht [H1 H2 (sc & sa & ? & ? & ? & Hs) H4 H5]. split; try done.
  exists sc, sa. split_and!; [done..|]. intros id p Hp. destruct (Hs id p Hp) as (s & ? & ? & He).
  exists s. split_and!; [done..|]. intros Hn. specialize (He Hn). lia.
Qed.

(** Writing a session without changing its identity or expiry. *)
Lemma sim_write t used c a p s s' :
  sim t used c a -> heap a !! p = Some s -> ID s' = ID s -> ExpiresAt s' = ExpiresAt s ->
  sim t used (write p s' c) (write p s' a).
Proof.
  intros [H1 H2 (sc & sa & Hc & Ha & Hsub & Hs) H4 H5] Hp Hid Hex.
  assert (forall q u, <[p:=s']> (heap a) !! q = Some u -> exists u0, heap a !! q = Some u0 /\ ID u = ID u0) as Hin.
  { intros q u Hq. apply lookup_insert_Some in Hq as [[<- <-]|[? ?]]; eauto. }
  split; cbn; [by rewrite H1|done|exists sc, sa; split_and!; [done..|]| |].
  - intros id q Hq. destruct (Hs id q Hq) as (u & Hu & Hui & Hue).
    destruct (decide (p = q)) as [<-|Hne]; [|exists u; by rewrite lookup_insert_ne].
    exists s'. rewrite lookup_insert_eq. simplify_eq. rewrite Hid, Hex. by split_and!.
  - intros q u Hq. destruct (Hin q u Hq) as (u0 & Hu0 & ->). by apply (H4 q u0).
  - intros q q' u u' Hq Hq' E. destruct (Hin q u Hq) as (u0 & ? & E0), (Hin q' u' Hq') as (u0' & ? & E0').
    apply (H5 q q' u0 u0'); congruence.
Qed.

Lemma sim_remove t used c a id : sim t used c a -> sim t used (RemoveSession id c) (RemoveSession id a).
Proof.
  intros [H1 H2 (sc & sa & Hc & Ha & Hsub & Hs) H4 H5]. split; try done.
  exists (delete id sc), (delete id sa). cbn. rewrite Hc, Ha. split_and!; [done..|by apply delete_mono|].
  intros id' p Hp. apply lookup_delete_Some in Hp as [Hne Hp]. destruct (Hs id' p Hp) as (s & ? & ? & He).
  exists s. split_and!; [done..|]. rewrite lookup_delete_ne by done. done.
Qed.

Lemma sim_cleanup t used c a : sim t used c a -> sim t used (performCleanup t c) a.
Proof.
  intros [H1 H2 (sc & sa & Hc & Ha & Hsub & Hs) H4 H5]. split; try done.
  unfold performCleanup. rewrite Hc. cbn. eexists _, sa. split_and!; [done..| |].
  { etrans; [apply map_filter_subseteq|done]. }
  intros id p Hp. destruct (Hs id p Hp) as (s & Hh & Hid & He). exists s. split_and!; [done..|].
  intros Hn. apply map_lookup_filter_None in Hn as [Hn|Hn]; [by apply He|].
  destruct (sc !! id) as [p'|] eqn:E; [|by apply He].
  assert (p' = p) as -> by (pose proof (lookup_weaken _ _ _ _ E Hsub); congruence).
  specialize (Hn p eq_refl). cbn in Hn. rewrite H1, Hh in Hn. unfold time_after in Hn.
  destruct (Z.ltb_spec (ExpiresAt s) t); [done|]. by destruct Hn.
Qed.

(** A cleaned lookup: equal, or missing because expired. *)
Lemma sim_find t used c a id :
  sim t used c a ->
  match find id a with
  | None => find id c = None
  | Some p => exists s, heap a !! p = Some s /\ ID s = id /\
      (find id c = Some p \/ (find id c = None /\ ExpiresAt s < t))
  end.
Proof.
  intros [H1 H2 (sc & sa & Hc & Ha & Hsub & Hs) H4 H5]. unfold find. rewrite Hc, Ha. cbn.
  destruct (sa !! id) as [p|] eqn:E.
  - destruct (Hs id p E) as (s & ? & ? & He). exists s. split_and!; [done..|].
    destruct (sc !! id) as [p'|] eqn:E'; [left|right; auto].
    pose proof (lookup_weaken _ _ _ _ E' Hsub). congruence.
  - by eapply lookup_weaken_None.
Qed.

Lemma sim_get t used c a id :
  sim t used c a ->
  obs_le (observe Got (fst (GetSession id t c))) (observe Got (fst (GetSession id t a))) /\
  sim t used (snd (GetSession id t c)) (snd (GetSession id t a)).
Proof.
  intros Hsim. pose proof (sim_find t used c a id Hsim) as Hf. unfold GetSession.
  destruct (find id a) as [p|]; [|rewrite Hf; split; [by left|done]].
  destruct Hf as (s & Hh & Hid & [Hc|[Hc He]]); rewrite Hc, ?(sim_heap _ _ _ _ Hsim), Hh; unfold time_after.
  - destruct (ExpiresAt s <? t); (split; [by left|]); [by apply sim_remove|done].
  - rewrite (proj2 (Z.ltb_lt _ _) He). cbn. split; [right; exists id, (ExpiresAt s); by rewrite Hid|].
    destruct Hsim as [H1 H2 (sc & sa & Hsc & Hsa & Hsub & Hs) H4 H5]. split; try done.
    cbn. rewrite Hsa. exists sc, (delete id sa). unfold find in Hc. rewrite Hsc in Hc. cbn in Hc.
    split_and!; [done..| |].
    + apply map_subseteq_spec. intros i x Hx. rewrite lookup_delete_ne; [by eapply lookup_weaken|congruence].
    + intros i q Hq. apply lookup_delete_Some in Hq as [_ Hq]. by apply Hs.
Qed.

Lemma sim_update t used c a p updated :
  sim t used c a ->
  fst (UpdateSession p updated t c) = fst (UpdateSession p updated t a) /\
  sim t used (snd (UpdateSession p updated t c)) (snd (UpdateSession p updated t a)).
Proof.
  intros Hsim. unfold UpdateSession. rewrite (sim_heap _ _ _ _ Hsim).
  destruct (heap a !! p) as [s|] eqn:Hp; [|done].
  pose proof (sim_write t used c a p s (touch updated s) Hsim Hp eq_refl eq_refl) as Hw.
  unfold time_after. destruct (Z.ltb_spec (ExpiresAt s) t) as [|Hlive]; [done|].
  destruct Hw as [H1 H2 (sc & sa & Hc & Ha & Hsub & Hs) H4 H5]. rewrite Hc, Ha.
  destruct (sa !! ID s) as [q|] eqn:Eq.
  - destruct (Hs _ _ Eq) as (u & Hu & Hui & Hue). cbn in Hu.
    assert (q = p) as ->.
    { apply (H5 q p u (touch updated s)); [done|cbn; by rewrite lookup_insert_eq|done]. }
    rewrite lookup_insert_eq in Hu. injection Hu as <-.
    destruct (sc !! ID s) as [q'|] eqn:Eq'; [|specialize (Hue eq_refl); cbn in Hue; lia].
    pose proof (lookup_weaken _ _ _ _ Eq' Hsub) as E. rewrite Eq in E. injection E as <-.
    split; [done|]. split; try done. exists sc, sa. cbn. rewrite !insert_id by done. by split_and!.
  - rewrite (lookup_weaken_None _ _ _ Eq Hsub). split; [done|]. split; try done. by exists sc, sa.
Qed.

Lemma sim_create t used c a claims id created updated :
  sim t used c a -> id ∉ used ->
  fst (CreateSession claims id created updated c) = fst (CreateSession claims id created updated a) /\
  sim t (id :: used) (snd (CreateSession claims id created updated c)) (snd (CreateSession claims id created updated a)).
Proof.
  intros [H1 H2 (sc & sa & Hc & Ha & Hsub & Hs) H4 H5] Hid. unfold CreateSession. rewrite Hc, Ha, H2.
  destruct (ClaimsExpiresAt claims) as [ex|]; cbn.
  2:{ split; [done|]. split; [done..| | |done]; [by exists sc, sa|]. intros p s Hp. destruct (H4 p s Hp). set_solver. }
  split; [done|]. set (s0 := new_session _ _ _ _ _).
  assert (forall p s, <[next a := s0]> (heap a) !! p = Some s -> (p = next a /\ s = s0) \/ (p <> next a /\ heap a !! p = Some s))
    as Hin by (intros p s Hp; apply lookup_insert_Some in Hp; naive_solver).
  split; cbn; [by rewrite H1|done| | |].
  - exists (<[id := next a]> sc), (<[id := next a]> sa). split_and!; [done..|by apply insert_mono|].
    intros i p Hp. apply lookup_insert_Some in Hp as [[<- <-]|[Hne Hp]].
    + exists s0. rewrite !lookup_insert_eq. done.
    + destruct (Hs i p Hp) as (s & Hh & ? & He). exists s. rewrite (lookup_insert_ne sc) by done.
      destruct (H4 p s Hh). rewrite lookup_insert_ne by lia. done.
  - intros p s [[-> ->]|[_ Hp]]%Hin; [split; [lia|set_solver]|]. destruct (H4 p s Hp). split; [lia|set_solver].
  - intros p p' s s' [[-> ->]|[_ Hp]]%Hin [[-> ->]|[_ Hp']]%Hin E; [done|..|by eapply H5].
    + destruct (H4 p' s' Hp'). cbn in E. subst. done.
    + destruct (H4 p s Hp). cbn in E. subst. done.
Qed.

Lemma mem_step_sim t used c a o :
  sim t used c a -> (forall claims id u v, o = SCreate claims id u v -> id ∉ used) ->
  exists used', (forall id, id ∈ used' -> id ∈ used \/ exists claims u v, o = SCreate claims id u v) /\
  match o with
  | SCleanup => sim t used' (snd (mem_step t o c)) a /\ fst (mem_step t o c) = []
  | _ => Forall2 obs_le (fst (mem_step t o c)) (fst (mem_step t o a)) /\
         sim t used' (snd (mem_step t o c)) (snd (mem_step t o a))
  end.
Proof.
  intros Hsim Hid. assert (forall o, obs_le o o) as Hrefl by (by left).
  destruct o as [claims id u v|id|p u|id|p k v|]; cbn.
  - destruct (sim_create t used c a claims id u v Hsim) as [He Hs']; [by eapply Hid|].
    exists (id :: used). split; [intros i [->|?]%elem_of_cons; eauto 10|].
    destruct (CreateSession _ _ _ _ c), (CreateSession _ _ _ _ a). cbn in *. subst. auto.
  - exists used. split; [by left|]. destruct (sim_get t used c a id Hsim) as [Ho Hs'].
    destruct (GetSession id t c), (GetSession id t a). split; [constructor; [exact Ho|constructor]|done].
  - exists used. split; [by left|]. destruct (sim_update t used c a p u Hsim) as [He Hs'].
    destruct (UpdateSession _ _ _ c), (UpdateSession _ _ _ a). cbn in *. subst. auto.
  - exists used. split; [by left|]. split; [auto|by apply sim_remove].
  - exists used. split; [by left|]. rewrite (sim_heap _ _ _ _ Hsim).
    destruct (heap a !! p) as [s|] eqn:Hp; cbn; (split; [auto|]); [by eapply sim_write|done].
  - exists used. split; [by left|]. split; [by apply sim_cleanup|done].
Qed.

Definition chronological (ops : list (Z * SOp)) : Prop := StronglySorted (fun o o' => fst o <= fst o') ops.

Lemma mem_run_sim ops t used c a :
  sim t used c a -> chronological ops -> Forall (fun o => t <= fst o) ops ->
  NoDup (created_ids ops) -> (forall id, id ∈ created_ids ops -> id ∉ used) ->
  Forall2 obs_le (fst (mem_run ops c)) (fst (mem_run (no_cleanup ops) a)).
Proof.
  revert t used c a; induction ops as [|[now o] ops IH]; intros t used c a Hsim Hs Hl Hnd Hfresh; [constructor|].
  inversion Hs as [|? ? Hs' Hq]; inversion Hl as [|? ? Hlq Hl']; subst. cbn [fst] in *.
  assert (sim now used c a) as Hsim' by by eapply sim_later.
  assert (forall claims id u v, o = SCreate claims id u v -> id ∉ used) as Hid.
  { intros claims id u v ->. apply Hfresh. unfold created_ids. cbn. set_solver. }
  destruct (mem_step_sim now used c a o Hsim' Hid) as (used' & Hu & Hstep).
  assert (NoDup (created_ids ops) /\ forall id, id ∈ created_ids ops -> id ∉ used') as [Hnd' Hfresh'].
  { unfold created_ids in *. cbn in Hnd, Hfresh. split.
    - destruct o; cbn in Hnd; try done. by inversion Hnd.
    - intros id Hin Hc. destruct (Hu id Hc) as [Hin'|(claims & u & v & ->)].
      + apply (Hfresh id); [|done]. destruct o; cbn; set_solver.
      + cbn in Hnd. by inversion Hnd. }
  assert (o = SCleanup \/ o <> SCleanup) as [->|Hne] by (destruct o; auto).
  - cbn [no_cleanup List.filter snd]. destruct Hstep as [Hs1 He]. cbn [mem_run].
    specialize (IH now used' _ a Hs1 Hs' Hq Hnd' Hfresh'). destruct (mem_step now SCleanup c) as [out c'].
    cbn [fst snd] in *. subst out. by destruct (mem_run ops c').
  - replace (no_cleanup ((now, o) :: ops)) with ((now, o) :: no_cleanup ops) by by destruct o.
    assert (Forall2 obs_le (fst (mem_step now o c)) (fst (mem_step now o a)) /\
            sim now used' (snd (mem_step now o c)) (snd (mem_step now o a))) as [Ho Hs1] by by destruct o.
    specialize (IH now used' _ _ Hs1 Hs' Hq Hnd' Hfresh'). cbn [mem_run].
    destruct (mem_step now o c) as [out c'], (mem_step now o a) as [out' a']. cbn [fst snd] in *.
    destruct (mem_run ops c') as [outs ?], (mem_run (no_cleanup ops) a') as [outs' ?]. cbn in *.
    by apply Forall2_app.
Qed.

(** C24: The background clean-up is invisible to callers: for any sequence of creations (with distinct
    identifiers), reads, updates, removals and metadata writes in clock order, the answers with the
    clean-up ticks are the answers without them, except that an expired session may be reported as
    not found instead of expired. *)
Theorem cleanup_transparent (ops : list (Z * SOp)) :
  chronological ops -> NoDup (created_ids ops) ->
  Forall2 obs_le (fst (mem_run ops CreateInMemorySessionStore))
                 (fst (mem_run (no_cleanup ops) CreateInMemorySessionStore)).
Proof.
  intros Hs Hnd.
  assert (exists t, Forall (fun o => t <= fst o) ops) as [t Ht].
  { destruct ops as [|o ops]; [by exists 0|]. inversion Hs; subst. exists (fst o). by constructor. }
  apply (mem_run_sim ops t []); [|done..|set_solver].
  split; [done|done| |by intros|by intros]. exists ∅, ∅. by split_and!.
Qed.

Definition token (expires : Z) : Claims :=
  {| Subject := "u"; ClaimsExpiresAt := Some expires; ClaimsScopes := [];
     ClaimsRateLimit := {| GwLimit.RequestsPerMinute := 10; GwLimit.Burst := 0 |} |}.

Definition sample_ops : list (Z * SOp) :=
  [(1, SCreate (token 10) "a" 1 1); (2, SCreate (token 50) "b" 2 2); (20, SCleanup); (21, SGet "a"); (22, SGet "b");
   (23, SUpdate 0%nat 23); (24, SUpdate 1%nat 24)].

Lemma cleanup_transparent_witness :
  fst (mem_run sample_ops CreateInMemorySessionStore) =
    [Got 0; Got 1; Failed (SessionNotFound "a"); Got 1; Failed (SessionExpired "a" 10); Done] /\
  Forall2 obs_le (fst (mem_run sample_ops CreateInMemorySessionStore))
                 (fst (mem_run (no_cleanup sample_ops) CreateInMemorySessionStore)).
Proof.
  split; [by vm_compute|]. apply (cleanup_transparent sample_ops).
  - repeat constructor; cbn; lia.
  - repeat constructor; set_solver.
Defined.

(** ** The Redis manager *)

Section RedisProofs.
Context `{SessionStore}.

(** [k] reads as session [s] until [until], unless Redis fails. *)
Definition readable (m : RedisManager) (id : string) (s : Session) (from until : Z) : Prop :=
  forall t, from <= t -> t <= until ->
    fst (RedisGetSession id t m) = Ok s \/ fst (RedisGetSession id t m) = Err (SessionStoreFailed "get" id).

Lemma set_readable m s data now c :
  session_reads_back s = true -> marshal s = Some data -> 0 < session_ttl m s now -> now <= ExpiresAt s -> 
  kv_Set (session_key (ID s)) data (session_ttl m s now) now (client m) = (None, c) ->
  readable (with_client c m) (ID s) s now (now + session_ttl m s now - Millisecond).
Proof.
  intros Hv Hm Hpos Hexp Hset t Hfrom Huntil. unfold RedisGetSession. cbn.
  destruct (kv_Get _ t c) as [d|[|e]] eqn:Eg; cbn; [| |by right].
  - apply get_visible in Eg. rewrite (set_visible _ _ _ _ _ _ t Hset) in Eg by lia. injection Eg as <-.
    rewrite (unmarshal_marshal _ _ Hv Hm). left. unfold time_after.
    destruct (Z.ltb_spec (ExpiresAt s) t); [|done]. exfalso.
    unfold session_ttl, time_sub in *. unfold Millisecond, max_i64, min_i64 in *.
    destruct (Z.ltb_spec (ttl m) (Z.min (2 ^ 63 - 1) (Z.max (- 2 ^ 63) (ExpiresAt s - now)))); lia.
  - apply get_nil in Eg. rewrite (set_visible _ _ _ _ _ _ t Hset) in Eg by lia. done.
Qed.

End RedisProofs.

(** A session of valid UTF-8 that is created in Redis from an unexpired token can be read back, equal field by field,
    until its token expires or the manager's TTL has passed (up to the millisecond of Redis), whatever
    was stored before; a read can only fail on a Redis error.  The same holds after an update. *)
Lemma redis_session_readable `{SessionStore} (claims : Claims) (id : string) (created updated now : Z)
    (s : Session) (m m' : RedisManager) :
  (RedisCreateSession claims id created updated now m = (Ok s, m') \/
   exists s0, ID s0 = id /\ RedisUpdateSession s0 updated now m = (Ok s, m')) ->
  session_reads_back s = true -> now < ExpiresAt s -> 0 < ttl m ->
  readable m' id s now (now + Z.min (ttl m) (time_sub (ExpiresAt s) now) - Millisecond).
Proof.
  intros Hop Hv Hexp Httl.
  assert (0 < session_ttl m s now /\ session_ttl m s now = Z.min (ttl m) (time_sub (ExpiresAt s) now)) as [Hpos <-].
  { unfold session_ttl, time_sub, max_i64, min_i64. case_tests; lia. }
  assert (exists data c, marshal s = Some data /\ ID s = id /\ m' = with_client c m /\
    kv_Set (session_key (ID s)) data (session_ttl m s now) now (client m) = (None, c))
    as (data & c & Hm & <- & -> & Hset); [|eapply set_readable; (done || lia)].
  destruct Hop as [Hc|(s0 & Hid & Hu)].
  - unfold RedisCreateSession in Hc. destruct (ClaimsExpiresAt claims); [|done]. cbv zeta in Hc.
    destruct (marshal _) as [data|] eqn:Em; [|done].
    destruct (kv_Set _ _ _ _ _) as [[e|] c] eqn:Es; [done|]. injection Hc as <- <-. eauto 10.
  - unfold RedisUpdateSession in Hu. cbv zeta in Hu. destruct (marshal _) as [data|] eqn:Em; [|done].
    destruct (_ <=? 0); [done|]. destruct (kv_Set _ _ _ _ _) as [[e|] c] eqn:Es; [done|].
    injection Hu as <- <-. eauto 10.
Qed.

(** The two managers disagree on updating a removed session: the in-memory manager answers "not
    found" and stores nothing, the Redis manager stores the session again and later reads find it. *)
Lemma update_after_remove `{SessionStore} (m : MemoryManager) (p : nat) (s : Session) (updated now : Z)
    (r r1 r2 : RedisManager) (s' : Session) :
  heap m !! p = Some s -> session_reads_back s = true -> now < ExpiresAt s -> 0 < ttl r ->
  RedisRemoveSession (ID s) now r = (Ok tt, r1) -> RedisUpdateSession s updated now r1 = (Ok s', r2) ->
  fst (UpdateSession p updated now (RemoveSession (ID s) m)) = Err (SessionNotFound (ID s)) /\
  readable r2 (ID s) s' now (now + Z.min (ttl r) (time_sub (ExpiresAt s) now) - Millisecond).
Proof.
  intros Hp Hv Hexp Httl Hr Hu. split.
  - unfold UpdateSession. cbn. rewrite Hp. unfold time_after. rewrite (proj2 (Z.ltb_ge _ _)) by lia.
    destruct (sessions m); cbn; [|done]. by rewrite lookup_delete_eq.
  - assert (ttl r1 = ttl r) as Ht.
    { unfold RedisRemoveSession in Hr. by destruct (kv_Del _ _ _) as [[e|] c]; simplify_eq. }
    assert (s' = touch updated s) as ->.
    { unfold RedisUpdateSession in Hu. cbv zeta in Hu. destruct (marshal _); [|done].
      destruct (_ <=? 0); [done|]. destruct (kv_Set _ _ _ _ _) as [[e|] c]; [done|]. by injection Hu as <- _. }
    intros t Hfrom Huntil. unfold RedisUpdateSession in Hu. cbv zeta in Hu.
    destruct (marshal (touch updated s)) as [data|] eqn:Em; [|done]. destruct (_ <=? 0); [done|].
    destruct (kv_Set _ _ _ _ _) as [[e|] c] eqn:Es; [done|]. injection Hu as <-.
    assert (session_ttl r1 (touch updated s) now = Z.min (ttl r) (time_sub (ExpiresAt s) now)) as Hst.
    { unfold session_ttl, time_sub, max_i64, min_i64. rewrite Ht. cbn. case_tests; lia. }
    assert (0 < session_ttl r1 (touch updated s) now) as Hpos.
    { rewrite Hst. unfold time_sub, max_i64, min_i64. lia. }
    apply (set_readable r1 (touch updated s) data now c Hv Em Hpos); [cbn; lia|done|done|]. cbn. rewrite Hst. done.
Qed.

(** ** An executable store: a map with expiry instants, sessions written as bits *)

#[local] Instance RateLimitConfig_eq_dec : EqDecision GwLimit.RateLimitConfig.
Proof. solve_decision. Defined.
#[local] Instance Session_eq_dec : EqDecision Session.
Proof. solve_decision. Defined.

#[local] Instance Session_countable : Countable Session.
Proof.
  refine (inj_countable'
    (fun s => (ID s, User s, CreatedAt s, UpdatedAt s, ExpiresAt s, Scopes s, Metadata s,
               GwLimit.RequestsPerMinute (RateLimit s), GwLimit.Burst (RateLimit s)))
    (fun '(i, u, c, d, e, sc, md, r, b) => mkSession i u c d e sc md (GwLimit.mkRateLimitConfig r b)) _).
  by intros [? ? ? ? ? ? ? []].
Defined.

Fixpoint bits (p : positive) : string :=
  match p with xH => "" | xO p => String "0"%char (bits p) | xI p => String "1"%char (bits p) end.

Fixpoint unbits (s : string) : positive :=
  match s with
  | String "0"%char s => xO (unbits s)
  | String "1"%char s => xI (unbits s)
  | _ => xH
  end.

Lemma unbits_bits p : unbits (bits p) = p.
Proof. induction p as [p IH|p IH|]; cbn; by rewrite ?IH. Qed.

Definition table_get (m : gmap string (string * Z)) (k : string) (t : Z) : option string :=
  match m !! k with Some (d, expiry) => if t <? expiry then Some d else None | None => None end.

Definition table_reply (m : gmap string (string * Z)) (k : string) (now : Z) : result (GwLimit.GetError unit) string :=
  match table_get m k now with Some d => Ok d | None => Err (GwLimit.RedisNil _) end.

#[local] Program Instance TableStore : SessionStore := {|
  kvs := gmap string (string * Z);
  kv_error := unit;
  visible := table_get;
  kv_Get := fun k now m => table_reply m k now;
  kv_Set := fun k d ttl now m => (None, <[k := (d, now + ttl)]> m);
  kv_Del := fun k now m => (None, delete k m);
  marshal := fun s => Some (bits (encode s));
  unmarshal := fun d => decode (unbits d);
|}.
Next Obligation. intros k now m d. unfold table_reply. by destruct (table_get m k now); intros [= ->]. Qed.
Next Obligation. intros k now m. unfold table_reply. by destruct (table_get m k now). Qed.
Next Obligation.
  intros k d ttl now m m' t [= <-] ? ? Ht. unfold table_get. rewrite lookup_insert_eq, (proj2 (Z.ltb_lt _ _)); [done|].
  unfold Millisecond in Ht. lia.
Qed.
Next Obligation.
  intros k d ttl now m m' t [= <-] ? Ht. unfold table_get. rewrite lookup_insert_eq, (proj2 (Z.ltb_ge _ _)); [done|].
  unfold Millisecond in Ht. lia.
Qed.
Next Obligation. intros k d ttl now m m' k' t [= <-] ?. unfold table_get. by rewrite lookup_insert_ne. Qed.
Next Obligation. intros k now m m' t [= <-]. unfold table_get. by rewrite lookup_delete_eq. Qed.
Next Obligation. intros k now m m' k' t [= <-] ?. unfold table_get. by rewrite lookup_delete_ne. Qed.
Next Obligation. intros s d _ [= <-]. by rewrite unbits_bits, decode_encode. Qed.

Definition store0 : RedisManager := @mkRedisManager TableStore ∅ (24 * 60 * Minute).

Lemma redis_session_readable_witness :
  exists s m', RedisCreateSession (token (60 * Second)) "a" 0 0 0 store0 = (Ok s, m') /\
    readable m' "a" s 0 (60 * Second - Millisecond).
Proof.
  eexists _, _. split; [reflexivity|].
  exact (redis_session_readable (token (60 * Second)) "a" 0 0 0 _ store0 _ (or_introl eq_refl) eq_refl eq_refl eq_refl).
Defined.

Definition table_with_a : MemoryManager := snd (CreateSession (token (60 * Second)) "a" 0 0 CreateInMemorySessionStore).

Lemma update_after_remove_witness :
  let s := new_session (token (60 * Second)) (60 * Second) "a" 0 0 in
  exists r1 r2 s', RedisRemoveSession "a" 1 store0 = (Ok tt, r1) /\ RedisUpdateSession s 1 1 r1 = (Ok s', r2) /\
    fst (UpdateSession 0 1 1 (RemoveSession "a" table_with_a)) = Err (SessionNotFound "a") /\
    readable r2 "a" s' 1 (1 + (60 * Second - 1) - Millisecond).
Proof.
  intros s. eexists _, _, _. split; [reflexivity|]. split; [reflexivity|].
  exact (update_after_remove table_with_a 0 s 1 1 store0 _ _ _ eq_refl eq_refl eq_refl eq_refl eq_refl eq_refl).
Defined.

End Sessions.
