(* ===== verification/GatewayPool.v ===== *)
(** * The router's gateway pool

    [services/router/internal/gateway/pool.go], [endpoint_selector.go] and
    [pool_client.go]: endpoints with their clients and health, selection by four
    strategies, the retry selector that duplicates it, and the client that connects
    through the pool and follows namespace routing.  The client of an endpoint enters
    through the [GatewayClient] class; [math/rand] is a stream of draws. *)
From S2P Require Import Prelude NamespaceRouter.
From stdpp Require Import functions.
#[local] Open Scope Z_scope.

Module Pool.

(** ** The [GatewayClient] interface

    What the pool calls; [Err] carries the text of the error. *)
Class GatewayClient (C : Type) := {
  gc_Connect : C -> result string unit * C;
  gc_SendRequest : string -> C -> result string unit * C;
  gc_ReceiveResponse : C -> result string string * C;
  gc_SendPing : C -> result string unit * C;
  gc_IsConnected : C -> bool;
  gc_Close : C -> result string unit * C;
}.

Definition ptr := nat.

Definition RoundRobinStrategy : string := "round_robin".
Definition LeastConnectionsStrategy : string := "least_connections".
Definition WeightedStrategy : string := "weighted".
Definition PriorityStrategy : string := "priority".

Record EndpointHealth := mkHealth {
  IsHealthyFlag : bool;
  ConsecutiveFailures : Z;
  ConsecutiveSuccesses : Z;
  LastChecked : Z;
  LastError : option string;
}.

Record GatewayEndpoint := mkGatewayEndpoint { URL : string; Weight : Z; Priority : Z; Tags : list string }.

Section Pool.
Context {C : Type} `{GatewayClient C}.
(** The [i]-th draw of [rand.Intn(n)]. *)
Variable draws : nat -> Z -> Z.

Record GatewayEndpointWrapper := mkWrapper {
  Client : C;
  Config : GatewayEndpoint;
  Health : EndpointHealth;
  ActiveConns : Z;
}.

Definition GetActiveConnections (g : GatewayEndpointWrapper) : Z := ActiveConns g.

Definition with_conns (n : Z) (g : GatewayEndpointWrapper) : GatewayEndpointWrapper :=
  {| Client := Client g; Config := Config g; Health := Health g; ActiveConns := n |}.

Definition IncrementConnections (g : GatewayEndpointWrapper) : GatewayEndpointWrapper :=
  with_conns (i64_add (ActiveConns g) 1) g.
Definition DecrementConnections (g : GatewayEndpointWrapper) : GatewayEndpointWrapper :=
  with_conns (i64_add (ActiveConns g) (-1)) g.

Definition IsHealthy (g : GatewayEndpointWrapper) : bool := IsHealthyFlag (Health g).

Definition with_health (h : EndpointHealth) (g : GatewayEndpointWrapper) : GatewayEndpointWrapper :=
  {| Client := Client g; Config := Config g; Health := h; ActiveConns := ActiveConns g |}.

Definition with_client (c : C) (g : GatewayEndpointWrapper) : GatewayEndpointWrapper :=
  {| Client := c; Config := Config g; Health := Health g; ActiveConns := ActiveConns g |}.

Definition UpdateHealth (healthy : bool) (err : option string) (now : Z) (g : GatewayEndpointWrapper)
    : GatewayEndpointWrapper :=
  with_health
    (if healthy
     then {| IsHealthyFlag := true; ConsecutiveFailures := 0;
             ConsecutiveSuccesses := i64_add (ConsecutiveSuccesses (Health g)) 1;
             LastChecked := now; LastError := err |}
     else {| IsHealthyFlag := false; ConsecutiveFailures := i64_add (ConsecutiveFailures (Health g)) 1;
             ConsecutiveSuccesses := 0; LastChecked := now; LastError := err |}) g.

Record GatewayPool := mkPool {
  endpoints : list ptr;
  strategy : string;
  roundRobinIndex : Z;
  HealthyThreshold : Z;
  UnhealthyThreshold : Z;
  wrapper : ptr -> GatewayEndpointWrapper;   (* what the pointers point to *)
  drawn : nat;                               (* draws of math/rand so far *)
}.

Definition with_index (i : Z) (p : GatewayPool) : GatewayPool :=
  {| endpoints := endpoints p; strategy := strategy p; roundRobinIndex := i;
     HealthyThreshold := HealthyThreshold p; UnhealthyThreshold := UnhealthyThreshold p;
     wrapper := wrapper p; drawn := drawn p |}.

Definition with_wrapper (e : ptr) (g : GatewayEndpointWrapper) (p : GatewayPool) : GatewayPool :=
  {| endpoints := endpoints p; strategy := strategy p; roundRobinIndex := roundRobinIndex p;
     HealthyThreshold := HealthyThreshold p; UnhealthyThreshold := UnhealthyThreshold p;
     wrapper := <[e := g]> (wrapper p); drawn := drawn p |}.

Definition update (e : ptr) (f : GatewayEndpointWrapper -> GatewayEndpointWrapper) (p : GatewayPool) : GatewayPool :=
  with_wrapper e (f (wrapper p e)) p.

(** [rand.Intn(n)]: panics unless [n] is positive. *)
Definition Intn (n : Z) (p : GatewayPool) : option Z * GatewayPool :=
  if n <=? 0 then (None, p)
  else (Some (draws (drawn p) n),
        {| endpoints := endpoints p; strategy := strategy p; roundRobinIndex := roundRobinIndex p;
           HealthyThreshold := HealthyThreshold p; UnhealthyThreshold := UnhealthyThreshold p;
           wrapper := wrapper p; drawn := S (drawn p) |}).

(** ** Strategies of the pool; [None] is a panic *)

Definition selectRoundRobin (eps : list ptr) (p : GatewayPool) : option ptr * GatewayPool :=
  let counter := u64_add (roundRobinIndex p) 1 in
  let index := wrap_u 64 (counter - 1) in
  (eps !! Z.to_nat (index mod zlen eps), with_index counter p).

(** The minimum loop: the first endpoint with the fewest connections. *)
Definition least_step (p : GatewayPool) (acc : ptr * Z) (e : ptr) : ptr * Z :=
  let connections := GetActiveConnections (wrapper p e) in
  if connections <? snd acc then (e, connections) else acc.

Definition least_of (p : GatewayPool) (e : ptr) (rest : list ptr) : ptr :=
  fst (fold_left (least_step p) rest (e, GetActiveConnections (wrapper p e))).

Definition selectLeastConnections (eps : list ptr) (p : GatewayPool) : option ptr * GatewayPool :=
  match eps with
  | [] => (None, p)
  | [e] => (Some e, p)
  | e :: rest => (Some (least_of p e rest), p)
  end.

Definition weight_of (p : GatewayPool) (e : ptr) : Z := Weight (Config (wrapper p e)).

Definition total_weight (p : GatewayPool) (eps : list ptr) : Z :=
  fold_left (fun t e => i64_add t (weight_of p e)) eps 0.

(** The walk to the first endpoint whose running weight exceeds the target. *)
Fixpoint weight_walk (p : GatewayPool) (eps : list ptr) (currentWeight target : Z) : option ptr :=
  match eps with
  | [] => None
  | e :: eps =>
      let currentWeight := i64_add currentWeight (weight_of p e) in
      if target <? currentWeight then Some e else weight_walk p eps currentWeight target
  end.

Definition selectWeighted (eps : list ptr) (p : GatewayPool) : option ptr * GatewayPool :=
  let totalWeight := total_weight p eps in
  if totalWeight =? 0 then selectRoundRobin eps p
  else match Intn totalWeight p with
       | (None, p') => (None, p')
       | (Some target, p') =>
           (match weight_walk p eps 0 target with Some e => Some e | None => eps !! Nat.pred (length eps) end, p')
       end.

(** The loop that collects the endpoints of the smallest priority number. *)
Definition priority_step (p : GatewayPool) (acc : Z * list ptr) (e : ptr) : Z * list ptr :=
  let pr := Priority (Config (wrapper p e)) in
  if pr <? fst acc then (pr, [e])
  else if pr =? fst acc then (fst acc, snd acc ++ [e])
  else acc.

Definition top_priority (p : GatewayPool) (eps : list ptr) : list ptr :=
  match eps with
  | [] => []
  | e :: _ => snd (fold_left (priority_step p) eps (Priority (Config (wrapper p e)), []))
  end.

Definition selectPriority (eps : list ptr) (p : GatewayPool) : option ptr * GatewayPool :=
  selectRoundRobin (top_priority p eps) p.

Inductive SelectError := NoHealthyEndpoints | NoEndpointsConfigured | Panicked.

Definition healthy_endpoints (p : GatewayPool) : list ptr :=
  List.filter (fun e => IsHealthy (wrapper p e)) (endpoints p).

Definition or_panic (r : option ptr * GatewayPool) : result SelectError ptr * GatewayPool :=
  match r with (Some e, p) => (Ok e, p) | (None, p) => (Err Panicked, p) end.

Definition SelectEndpoint (p : GatewayPool) : result SelectError ptr * GatewayPool :=
  let healthyEndpoints := healthy_endpoints p in
  if zlen healthyEndpoints =? 0 then (Err NoHealthyEndpoints, p)
  else or_panic
    (if bool_decide (strategy p = RoundRobinStrategy) then selectRoundRobin healthyEndpoints p
     else if bool_decide (strategy p = LeastConnectionsStrategy) then selectLeastConnections healthyEndpoints p
     else if bool_decide (strategy p = WeightedStrategy) then selectWeighted healthyEndpoints p
     else if bool_decide (strategy p = PriorityStrategy) then selectPriority healthyEndpoints p
     else selectRoundRobin healthyEndpoints p).

(** ** The retry selector *)

Definition applyRoundRobin (eps : list ptr) (p : GatewayPool) : option ptr * GatewayPool :=
  let counter := u64_add (roundRobinIndex p) 1 in
  let index := wrap_u 64 (counter - 1) in
  (eps !! Z.to_nat (index mod zlen eps), with_index counter p).

Definition applyLeastConnections (eps : list ptr) (p : GatewayPool) : option ptr * GatewayPool :=
  match eps with
  | [] => (None, p)
  | [e] => (Some e, p)
  | e :: rest => (Some (least_of p e rest), p)
  end.

Definition selectByWeight (eps : list ptr) (totalWeight : Z) (p : GatewayPool) : option ptr * GatewayPool :=
  match Intn totalWeight p with
  | (None, p') => (None, p')
  | (Some target, p') =>
      (match weight_walk p eps 0 target with Some e => Some e | None => eps !! Nat.pred (length eps) end, p')
  end.

Definition applyWeighted (eps : list ptr) (p : GatewayPool) : option ptr * GatewayPool :=
  let totalWeight := total_weight p eps in
  if totalWeight =? 0 then applyRoundRobin eps p else selectByWeight eps totalWeight p.

Definition applyPriority (eps : list ptr) (p : GatewayPool) : option ptr * GatewayPool :=
  let highestPriorityEndpoints := top_priority p eps in
  if 1 <? zlen highestPriorityEndpoints then applyRoundRobin highestPriorityEndpoints p
  else (head highestPriorityEndpoints, p).

Definition selectByStrategy (eps : list ptr) (p : GatewayPool) : option ptr * GatewayPool :=
  if bool_decide (strategy p = RoundRobinStrategy) then applyRoundRobin eps p
  else if bool_decide (strategy p = LeastConnectionsStrategy) then applyLeastConnections eps p
  else if bool_decide (strategy p = WeightedStrategy) then applyWeighted eps p
  else if bool_decide (strategy p = PriorityStrategy) then applyPriority eps p
  else applyRoundRobin eps p.

Definition SelectForRetry (p : GatewayPool) : result SelectError ptr * GatewayPool :=
  if zlen (endpoints p) =? 0 then (Err NoEndpointsConfigured, p)
  else let healthyEndpoints := healthy_endpoints p in
       or_panic (if zlen healthyEndpoints =? 0 then selectByStrategy (endpoints p) p
                 else selectByStrategy healthyEndpoints p).

(** ** Tags and health checks *)

Definition hasAllTags (endpointTags requiredTags : list string) : bool :=
  forallb (fun required => existsb (fun tag => bool_decide (tag = required)) endpointTags) requiredTags.

Definition GetEndpointByTags (tags : list string) (p : GatewayPool) : option (list ptr) :=
  let matching := List.filter (fun e => IsHealthy (wrapper p e) && hasAllTags (Tags (Config (wrapper p e))) tags)
                    (endpoints p) in
  if zlen matching =? 0 then None else Some matching.

Definition set_flag (b : bool) (g : GatewayEndpointWrapper) : GatewayEndpointWrapper :=
  with_health {| IsHealthyFlag := b; ConsecutiveFailures := ConsecutiveFailures (Health g);
                 ConsecutiveSuccesses := ConsecutiveSuccesses (Health g);
                 LastChecked := LastChecked (Health g); LastError := LastError (Health g) |} g.

(** [checkEndpointHealth], with both threshold branches. *)
Definition checkEndpointHealth (now : Z) (e : ptr) (p : GatewayPool) : GatewayPool :=
  let isHealthy := gc_IsConnected (Client (wrapper p e)) in
  let p := update e (UpdateHealth isHealthy None now) p in
  let health := Health (wrapper p e) in
  if isHealthy && negb (IsHealthyFlag health) && (HealthyThreshold p <=? ConsecutiveSuccesses health)
  then update e (set_flag true) p
  else if negb isHealthy && IsHealthyFlag health && (UnhealthyThreshold p <=? ConsecutiveFailures health)
  then update e (set_flag false) p
  else p.

(** [performHealthChecks]: every endpoint once; the goroutines touch different
    endpoints, so their order does not matter. *)
Definition performHealthChecks (now : Z) (p : GatewayPool) : GatewayPool :=
  fold_left (fun p e => checkEndpointHealth now e p) (endpoints p) p.

(** ** The pool client *)

Context `{Regexp}.

Record PoolClient := mkPoolClient {
  pool : GatewayPool;
  RetryCount : Z;
  namespaceRouter : option NamespaceRouter;
  currentEndpoint : option ptr;
}.

Definition with_pool (p : GatewayPool) (pc : PoolClient) : PoolClient :=
  {| pool := p; RetryCount := RetryCount pc; namespaceRouter := namespaceRouter pc;
     currentEndpoint := currentEndpoint pc |}.

Definition with_current (e : option ptr) (pc : PoolClient) : PoolClient :=
  {| pool := pool pc; RetryCount := RetryCount pc; namespaceRouter := namespaceRouter pc; currentEndpoint := e |}.

Definition touch (e : ptr) (f : GatewayEndpointWrapper -> GatewayEndpointWrapper) (pc : PoolClient) : PoolClient :=
  with_pool (update e f (pool pc)) pc.

Inductive ClientError :=
| NotConnected
| SelectFailed (e : SelectError)
| ConnectFailed (attempts : Z)
| CallFailed (text : string)
| NoEndpointWithTags
| Panic.

(** A call on the client of an endpoint. *)
Definition call {A} (e : ptr) (f : C -> result string A * C) (pc : PoolClient) : result string A * PoolClient :=
  let '(r, c) := f (Client (wrapper (pool pc) e)) in (r, touch e (with_client c) pc).

Definition connectToEndpoint (e : ptr) (pc : PoolClient) : result string unit * PoolClient := call e gc_Connect pc.

(** What both connect paths do on success. *)
Definition adopt (e : ptr) (now : Z) (pc : PoolClient) : PoolClient :=
  touch e (UpdateHealth true None now) (touch e IncrementConnections (with_current (Some e) pc)).

(** The retry loop: [k] attempts left of [maxRetries]. *)
Fixpoint retry_loop (maxRetries now : Z) (k : nat) (pc : PoolClient) : result ClientError unit * PoolClient :=
  match k with
  | O => (Err (ConnectFailed maxRetries), pc)
  | S k' =>
      match SelectForRetry (pool pc) with
      | (Err Panicked, p) => (Err Panic, with_pool p pc)
      | (Err err, p) =>
          let pc := with_pool p pc in
          match k' with O => (Err (SelectFailed err), pc) | S _ => retry_loop maxRetries now k' pc end
      | (Ok e, p) =>
          match connectToEndpoint e (with_pool p pc) with
          | (Ok _, pc) => (Ok tt, adopt e now pc)
          | (Err err, pc) => retry_loop maxRetries now k' (touch e (UpdateHealth false (Some err) now) pc)
          end
      end
  end.

Definition connectWithRetry (now : Z) (pc : PoolClient) : result ClientError unit * PoolClient :=
  let maxRetries := if RetryCount pc <=? 0 then 3 else RetryCount pc in
  retry_loop maxRetries now (Z.to_nat maxRetries) pc.

Definition connect_selected (e : ptr) (now : Z) (pc : PoolClient) : result ClientError unit * PoolClient :=
  match connectToEndpoint e pc with
  | (Ok _, pc) => (Ok tt, adopt e now pc)
  | (Err err, pc) => connectWithRetry now (touch e (UpdateHealth false (Some err) now) pc)
  end.

Definition Connect (now : Z) (pc : PoolClient) : result ClientError unit * PoolClient :=
  match SelectEndpoint (pool pc) with
  | (Ok e, p) => connect_selected e now (with_pool p pc)
  | (Err Panicked, p) => (Err Panic, with_pool p pc)
  | (Err _, p) =>
      match SelectForRetry p with
      | (Ok e, p) => connect_selected e now (with_pool p pc)
      | (Err Panicked, p) => (Err Panic, with_pool p pc)
      | (Err err, p) => (Err (SelectFailed err), with_pool p pc)
      end
  end.

Definition SelectEndpointByTags (tags : list string) (now : Z) (pc : PoolClient)
    : result ClientError unit * PoolClient :=
  match GetEndpointByTags tags (pool pc) with
  | None => (Err NoEndpointWithTags, pc)
  | Some [] => (Err Panic, pc)
  | Some (selected :: _) =>
      let pc :=
        match currentEndpoint pc with
        | Some cur =>
            if negb (bool_decide (cur = selected)) && gc_IsConnected (Client (wrapper (pool pc) cur))
            then touch cur DecrementConnections (snd (call cur gc_Close pc)) else pc
        | None => pc
        end in
      let finish pc := (Ok tt, adopt selected now pc) in
      if negb (gc_IsConnected (Client (wrapper (pool pc) selected))) then
        match connectToEndpoint selected pc with
        | (Ok _, pc) => finish pc
        | (Err err, pc) => (Err (CallFailed err), touch selected (UpdateHealth false (Some err) now) pc)
        end
      else finish pc
  end.

(** [handleNamespaceRouting]: failures keep the current endpoint. *)
Definition handleNamespaceRouting (nr : NamespaceRouter) (method : string) (now : Z) (pc : PoolClient) : PoolClient :=
  match RouteRequest nr method with
  | Err _ => pc
  | Ok tags => snd (SelectEndpointByTags tags now pc)
  end.

Definition SendRequest (method : string) (now : Z) (pc : PoolClient) : result ClientError unit * PoolClient :=
  let pc := match namespaceRouter pc with
            | Some nr => if Enabled (config nr) then handleNamespaceRouting nr method now pc else pc
            | None => pc
            end in
  match currentEndpoint pc with
  | None => (Err NotConnected, pc)
  | Some cur =>
      match call cur (gc_SendRequest method) pc with
      | (Err err, pc) => (Err (CallFailed err), touch cur (UpdateHealth false (Some err) now) pc)
      | (Ok _, pc) => (Ok tt, pc)
      end
  end.

Definition ReceiveResponse (now : Z) (pc : PoolClient) : result ClientError string * PoolClient :=
  match currentEndpoint pc with
  | None => (Err NotConnected, pc)
  | Some cur =>
      match call cur gc_ReceiveResponse pc with
      | (Err err, pc) => (Err (CallFailed err), touch cur (UpdateHealth false (Some err) now) pc)
      | (Ok resp, pc) => (Ok resp, pc)
      end
  end.

Definition SendPing (now : Z) (pc : PoolClient) : result ClientError unit * PoolClient :=
  match currentEndpoint pc with
  | None => (Err NotConnected, pc)
  | Some cur =>
      match call cur gc_SendPing pc with
      | (Err err, pc) => (Err (CallFailed err), touch cur (UpdateHealth false (Some err) now) pc)
      | (Ok _, pc) => (Ok tt, pc)
      end
  end.

Definition IsConnected (now : Z) (pc : PoolClient) : bool * PoolClient :=
  match currentEndpoint pc with
  | None => (false, pc)
  | Some cur =>
      let connected := gc_IsConnected (Client (wrapper (pool pc) cur)) in
      (connected, if connected then pc else touch cur (UpdateHealth false (Some "connection lost") now) pc)
  end.

(** [GatewayPool.Close]: every client is closed; the errors are collected. *)
Fixpoint close_all (eps : list ptr) (pc : PoolClient) : list string * PoolClient :=
  match eps with
  | [] => ([], pc)
  | e :: eps =>
      let '(r, pc) := call e gc_Close pc in
      let '(errs, pc) := close_all eps pc in
      (match r with Err err => err :: errs | Ok _ => errs end, pc)
  end.

(** [PoolClient.Close]: the error of the current endpoint's client, or else those
    of the pool. *)
Definition Close (pc : PoolClient) : list string * PoolClient :=
  let '(err, pc) := match currentEndpoint pc with
                    | Some cur => let '(r, pc) := call cur gc_Close pc in
                                  (match r with Err e => Some e | Ok _ => None end,
                                   with_current None (touch cur DecrementConnections pc))
                    | None => (None, pc)
                    end in
  let '(errs, pc) := close_all (endpoints (pool pc)) pc in
  (match err with Some e => [e] | None => errs end, pc).

Definition ForceReconnect (now : Z) (pc : PoolClient) : result ClientError unit * PoolClient :=
  let pc := match currentEndpoint pc with
            | Some cur =>
                with_current None (touch cur (UpdateHealth false (Some "forced reconnection") now)
                  (touch cur DecrementConnections (snd (call cur gc_Close pc))))
            | None => pc
            end in
  Connect now pc.

(** ** Strategies: lemmas *)

Lemma selectRoundRobin_in eps p : eps <> [] -> exists e, fst (selectRoundRobin eps p) = Some e /\ e ∈ eps.
Proof.
  intros Hne. unfold selectRoundRobin. cbn [fst]. set (i := wrap_u 64 _).
  destruct (lookup_lt_is_Some_2 eps (Z.to_nat (i mod zlen eps))) as [e He].
  { unfold zlen. destruct eps as [|x eps]; [done|]. cbn [length].
    pose proof (Z.mod_pos_bound i (Z.of_nat (S (length eps))) ltac:(lia)). lia. }
  exists e. split; [done|]. by eapply list_elem_of_lookup_2.
Qed.

Lemma least_of_spec p e rest :
  least_of p e rest ∈ e :: rest /\
  forall q, q ∈ e :: rest -> ActiveConns (wrapper p (least_of p e rest)) <= ActiveConns (wrapper p q).
Proof. clear draws.
  unfold least_of.
  assert (forall acc, snd acc = ActiveConns (wrapper p (fst acc)) ->
    let r := fold_left (least_step p) rest acc in
    snd r = ActiveConns (wrapper p (fst r)) /\ (fst r = fst acc \/ fst r ∈ rest) /\
    snd r <= snd acc /\ forall q, q ∈ rest -> snd r <= ActiveConns (wrapper p q)) as Hgen.
  { induction rest as [|x rest IH]; intros acc Hacc; cbn.
    - split_and!; [done|by left|lia|set_solver].
    - destruct (IH (least_step p acc x)) as (H1 & H2 & H3 & H4).
      { unfold least_step, GetActiveConnections. by case_tests. }
      cbv zeta in *. unfold least_step, GetActiveConnections in *.
      destruct (Z.ltb_spec (ActiveConns (wrapper p x)) (snd acc)); cbn in *;
        (split_and!; [done| |lia|];
          [destruct H2 as [->|?]; [first [by left|right; by left]|right; by right]
          |intros q [->|Hq]%elem_of_cons; auto; lia]). }
  destruct (Hgen (e, ActiveConns (wrapper p e)) eq_refl) as (H1 & H2 & H3 & H4). cbv zeta in *.
  unfold GetActiveConnections. cbn in H2, H3. rewrite <- H1.
  split; [set_solver|]. intros q [->|Hq]%elem_of_cons; [done|auto].
Qed.

Fixpoint sum_weights (p : GatewayPool) (eps : list ptr) : Z :=
  match eps with [] => 0 | e :: eps => weight_of p e + sum_weights p eps end.

Lemma sum_weights_nonneg p eps : Forall (fun e => 0 <= weight_of p e) eps -> 0 <= sum_weights p eps.
Proof. induction 1; cbn; lia. Qed.

Lemma total_weight_sum p eps :
  Forall (fun e => 0 <= weight_of p e) eps -> sum_weights p eps <= max_i64 -> total_weight p eps = sum_weights p eps.
Proof.
  unfold total_weight. intros Hp Hm.
  enough (forall t, 0 <= t -> t + sum_weights p eps <= max_i64 ->
    fold_left (fun t e => i64_add t (weight_of p e)) eps t = t + sum_weights p eps) as Hg.
  { rewrite Hg; lia. }
  clear Hm. induction Hp as [|e eps He Hp IH]; intros t Ht Hm; cbn in *; [lia|].
  pose proof (sum_weights_nonneg p eps Hp). rewrite i64_add_small by (unfold min_i64; lia). rewrite IH; lia.
Qed.

Lemma weight_walk_spec p eps cur target :
  Forall (fun e => 0 <= weight_of p e) eps -> 0 <= cur -> cur + sum_weights p eps <= max_i64 ->
  cur <= target < cur + sum_weights p eps ->
  exists e, weight_walk p eps cur target = Some e /\ e ∈ eps /\ 0 < weight_of p e.
Proof. clear draws.
  intros Hp. revert cur; induction Hp as [|e eps He Hp IH]; intros cur Hc Hm Ht; cbn in *; [lia|].
  pose proof (sum_weights_nonneg p eps Hp). rewrite i64_add_small by (unfold min_i64; lia).
  destruct (Z.ltb_spec target (cur + weight_of p e)).
  - exists e. split_and!; [done|set_solver|lia].
  - destruct (IH (cur + weight_of p e)) as (x & ? & ? & ?); [lia..|]. exists x. set_solver.
Qed.

Lemma top_priority_spec p e rest :
  let eps := e :: rest in
  top_priority p eps <> [] /\
  forall x, x ∈ top_priority p eps ->
    x ∈ eps /\ forall q, q ∈ eps -> Priority (Config (wrapper p x)) <= Priority (Config (wrapper p q)).
Proof. clear draws.
  unfold top_priority. set (prio q := Priority (Config (wrapper p q))).
  assert (forall l, let r := fold_left (priority_step p) l (prio e, []) in
    (forall x, x ∈ snd r -> x ∈ l /\ prio x = fst r) /\ (forall q, q ∈ l -> fst r <= prio q) /\ fst r <= prio e /\
    (snd r = [] -> fst r = prio e /\ e ∉ l)) as Hgen.
  { induction l as [|x l IH] using rev_ind; [cbn; split_and!; [set_solver|set_solver|lia|set_solver]|].
    rewrite fold_left_app. cbn [fold_left]. cbv zeta in *.
    set (r := fold_left (priority_step p) l (prio e, [])) in *. destruct IH as (H1 & H2 & H3 & H4).
    unfold priority_step. fold (prio x).
    destruct (Z.ltb_spec (prio x) (fst r)); [|destruct (Z.eqb_spec (prio x) (fst r))]; cbn [fst snd].
    - split_and!; [set_solver| |lia|done]. intros q [Hq|Hq]%elem_of_app; [specialize (H2 q Hq); lia|set_solver by lia].
    - split_and!; [|set_solver by lia|done|intros Hx; by apply app_nil in Hx as [_ ?]].
      intros y [Hy|Hy]%elem_of_app; [destruct (H1 y Hy); set_solver|]. apply list_elem_of_singleton in Hy as ->. set_solver.
    - split_and!; [|set_solver by lia|done|].
      + intros y Hy. destruct (H1 y Hy). set_solver.
      + intros [He Hl]%H4. split; [done|]. intros [Hx|Hx]%elem_of_app; [done|].
        apply list_elem_of_singleton in Hx as ->. lia. }
  destruct (Hgen (e :: rest)) as (H1 & H2 & _ & H4). cbv zeta in *. split; [intros [_ Hx]%H4; set_solver|].
  intros x Hx. destruct (H1 x Hx) as [? Hp]. split; [done|]. intros q Hq. subst prio. cbn in *. rewrite Hp. by apply H2.
Qed.

(** Draws are in range; weights are sane. *)
Definition lawful_draws : Prop := forall i n, 0 < n -> 0 <= draws i n < n.

Definition sane_weights (p : GatewayPool) (eps : list ptr) : Prop :=
  Forall (fun e => 0 <= weight_of p e) eps /\ sum_weights p eps <= max_i64.

(** What a strategy promises about the endpoint it picks. *)
Definition picks_well (p : GatewayPool) (eps : list ptr) (e : ptr) : Prop :=
  e ∈ eps /\
  (strategy p = LeastConnectionsStrategy -> forall q, q ∈ eps -> ActiveConns (wrapper p e) <= ActiveConns (wrapper p q)) /\
  (strategy p = PriorityStrategy -> forall q, q ∈ eps ->
     Priority (Config (wrapper p e)) <= Priority (Config (wrapper p q))) /\
  (strategy p = WeightedStrategy -> 0 < sum_weights p eps -> 0 < weight_of p e).

Lemma selectByStrategy_picks p eps :
  lawful_draws -> sane_weights p eps -> eps <> [] ->
  exists e, fst (selectByStrategy eps p) = Some e /\ picks_well p eps e.
Proof.
  intros Hd [Hw Hs] Hne. unfold selectByStrategy, picks_well.
  destruct (selectRoundRobin_in eps p Hne) as (rr & Hrr & Hrrin). change (applyRoundRobin eps p) with (selectRoundRobin eps p).
  destruct (bool_decide_reflect (strategy p = RoundRobinStrategy)) as [E|].
  { exists rr. rewrite E. split_and!; done. }
  destruct (bool_decide_reflect (strategy p = LeastConnectionsStrategy)) as [E|].
  { rewrite E. destruct eps as [|e rest]; [done|].
    destruct (least_of_spec p e rest) as [Hin Hmin].
    exists (least_of p e rest). split_and!; [by destruct rest|done|by auto|done|done]. }
  destruct (bool_decide_reflect (strategy p = WeightedStrategy)) as [E|].
  { rewrite E. unfold applyWeighted, selectByWeight, Intn. rewrite total_weight_sum by done.
    pose proof (sum_weights_nonneg p eps Hw).
    destruct (Z.eqb_spec (sum_weights p eps) 0) as [E0|E0].
    - exists rr. change (applyRoundRobin eps p) with (selectRoundRobin eps p). split_and!; try done. lia.
    - rewrite (proj2 (Z.leb_gt _ _)) by lia. cbn [fst].
      destruct (weight_walk_spec p eps 0 (draws (drawn p) (sum_weights p eps)) Hw) as (e & -> & Hin & Hpos);
        [lia|lia|apply Hd; lia|]. exists e. by split_and!. }
  destruct (bool_decide_reflect (strategy p = PriorityStrategy)) as [E|].
  { rewrite E. destruct eps as [|e0 rest]; [done|].
    destruct (top_priority_spec p e0 rest) as [Hnil Htop]. cbv zeta in *.
    assert (exists e, fst (applyPriority (e0 :: rest) p) = Some e /\ e ∈ top_priority p (e0 :: rest)) as (e & He & Hin).
    { unfold applyPriority. destruct (1 <? _); [by apply selectRoundRobin_in|].
      destruct (top_priority p (e0 :: rest)) as [|x l]; [done|]. exists x. set_solver. }
    destruct (Htop e Hin) as [? Hmin]. exists e. split_and!; [done|done|done|by auto|done]. }
  exists rr. split_and!; done.
Qed.

(** The duplicated selection code of the pool chooses the same endpoints. *)
Lemma selectPriority_apply eps p : eps <> [] -> fst (selectPriority eps p) = fst (applyPriority eps p).
Proof.
  intros Hne. unfold selectPriority, applyPriority. destruct eps as [|e rest]; [done|].
  destruct (top_priority_spec p e rest) as [Hnil _]. cbv zeta in *.
  destruct (top_priority p (e :: rest)) as [|x [|y l]]; [done| |].
  2:{ by rewrite (proj2 (Z.ltb_lt 1 (zlen (x :: y :: l)))) by (unfold zlen; cbn; lia). }
  unfold selectRoundRobin. cbn [fst]. change (zlen [x]) with 1. by rewrite Z.mod_1_r.
Qed.

Lemma SelectEndpoint_strategy p :
  healthy_endpoints p <> [] ->
  fst (SelectEndpoint p) = fst (or_panic (selectByStrategy (healthy_endpoints p) p)).
Proof.
  intros Hne. unfold SelectEndpoint, selectByStrategy.
  destruct (Z.eqb_spec (zlen (healthy_endpoints p)) 0) as [E%zlen_nil_inv|_]; [done|].
  case_tests; try done.
  pose proof (selectPriority_apply (healthy_endpoints p) p Hne) as Hp.
  by destruct (selectPriority _ _) as [[]], (applyPriority _ _) as [[]]; cbn in *; simplify_eq.
Qed.

Lemma or_panic_ok r (e : ptr) : fst r = Some e -> fst (or_panic r) = Ok e.
Proof. by destruct r as [[]]; intros [= ->]. Qed.

(** ** Health checks *)

Lemma wrapper_update e f p q : wrapper (update e f p) q = if decide (q = e) then f (wrapper p e) else wrapper p q.
Proof. clear draws. cbn. case_decide; subst; [by rewrite fn_lookup_insert|by rewrite fn_lookup_insert_ne]. Qed.

Lemma checkEndpointHealth_flag now e p q :
  IsHealthy (wrapper (checkEndpointHealth now e p) q) =
    (if decide (q = e) then gc_IsConnected (Client (wrapper p e)) else IsHealthy (wrapper p q)) /\
  Client (wrapper (checkEndpointHealth now e p) q) = Client (wrapper p q) /\
  endpoints (checkEndpointHealth now e p) = endpoints p.
Proof. clear draws.
  unfold checkEndpointHealth. cbv zeta. set (c := gc_IsConnected (Client (wrapper p e))).
  set (p1 := update e (UpdateHealth c None now) p).
  assert (IsHealthyFlag (Health (wrapper p1 e)) = c) as Hf.
  { subst p1. rewrite wrapper_update, decide_True by done. by destruct c. }
  rewrite Hf. replace (c && negb c) with false by by destruct c. replace (negb c && c) with false by by destruct c.
  cbn [andb]. subst p1. rewrite wrapper_update. destruct (decide (q = e)) as [->|]; [|done]. by destruct c.
Qed.

Lemma performHealthChecks_flag now p q :
  q ∈ endpoints p ->
  IsHealthy (wrapper (performHealthChecks now p) q) = gc_IsConnected (Client (wrapper p q)).
Proof. clear draws.
  intros Hq. unfold performHealthChecks.
  assert (forall l p', Client (wrapper p' q) = Client (wrapper p q) ->
    (q ∈ l \/ IsHealthy (wrapper p' q) = gc_IsConnected (Client (wrapper p q))) ->
    IsHealthy (wrapper (fold_left (fun p e => checkEndpointHealth now e p) l p') q) =
    gc_IsConnected (Client (wrapper p q))) as Hgen; [|by apply Hgen; auto].
  induction l as [|e l IH]; intros p' Hc Hin; cbn; [destruct Hin; [set_solver|done]|].
  destruct (checkEndpointHealth_flag now e p' q) as (Hf & Hcl & _). apply IH; [congruence|].
  destruct (decide (q = e)) as [->|Hne]; [right; congruence|].
  destruct Hin as [Hin|Hin]; [left; set_solver|right; congruence].
Qed.

(** ** Namespace routing *)

(** A client that stays connected and delivers every request. *)
Definition reliable : Prop :=
  forall m c, gc_IsConnected c = true ->
    exists c', gc_SendRequest m c = (Ok tt, c') /\ gc_IsConnected c' = true.

(** Requests of [method] are routed to [e], which is current and connected. *)
Record routed_to (e : ptr) (tags : list string) (method : string) (pc : PoolClient) : Prop := {
  rt_current : currentEndpoint pc = Some e;
  rt_connected : gc_IsConnected (Client (wrapper (pool pc) e)) = true;
  rt_router : exists nr, namespaceRouter pc = Some nr /\ Enabled (config nr) = true /\
                         RouteRequest nr method = Ok tags;
  rt_first : exists rest, GetEndpointByTags tags (pool pc) = Some (e :: rest);
}.

(** Changes of one healthy endpoint that keep it healthy do not change the match. *)
Lemma GetEndpointByTags_update tags e f p :
  IsHealthy (wrapper p e) = true -> IsHealthy (f (wrapper p e)) = true -> Config (f (wrapper p e)) = Config (wrapper p e) ->
  GetEndpointByTags tags (update e f p) = GetEndpointByTags tags p.
Proof. clear draws.
  intros H1 H2 H3. unfold GetEndpointByTags.
  replace (List.filter _ (endpoints (update e f p)))
    with (List.filter (fun e => IsHealthy (wrapper p e) && hasAllTags (Tags (Config (wrapper p e))) tags) (endpoints p));
    [done|].
  apply List.filter_ext. intros q. rewrite wrapper_update. destruct (decide (q = e)) as [->|]; [|done].
  by rewrite H1, H2, H3.
Qed.

Lemma GetEndpointByTags_healthy tags p e rest :
  GetEndpointByTags tags p = Some (e :: rest) ->
  e ∈ endpoints p /\ IsHealthy (wrapper p e) = true /\ hasAllTags (Tags (Config (wrapper p e))) tags = true.
Proof. clear draws.
  unfold GetEndpointByTags. case_tests; [done|]. intros [= E].
  assert (e ∈ List.filter (fun e => IsHealthy (wrapper p e) && hasAllTags (Tags (Config (wrapper p e))) tags) (endpoints p))
    as [[? ?]%andb_prop ?]%elem_of_filter_bool by (rewrite E; set_solver). done.
Qed.

Lemma SendRequest_routed e tags method now pc :
  reliable -> routed_to e tags method pc ->
  exists pc', SendRequest method now pc = (Ok tt, pc') /\ routed_to e tags method pc' /\
    ActiveConns (wrapper (pool pc') e) = i64_add (ActiveConns (wrapper (pool pc) e)) 1.
Proof. clear draws.
  intros Hrel [Hcur Hcon (nr & Hnr & Hen & Hroute) [rest Hfirst]].
  destruct (GetEndpointByTags_healthy _ _ _ _ Hfirst) as (_ & Hh & _).
  unfold SendRequest, handleNamespaceRouting, SelectEndpointByTags.
  rewrite Hnr, Hen, Hroute, Hfirst, Hcur, bool_decide_true by done. cbn [negb andb].
  rewrite Hcon. cbn [negb snd adopt currentEndpoint touch with_pool with_current].
  unfold call. cbn [pool with_pool touch with_current adopt].
  rewrite !wrapper_update, !decide_True by done. cbn [with_health with_conns Client UpdateHealth IncrementConnections].
  destruct (Hrel method _ Hcon) as (c' & -> & Hc').
  eexists. split; [reflexivity|]. split; [split|]; cbn [currentEndpoint namespaceRouter pool touch with_pool adopt with_current].
  - done.
  - rewrite wrapper_update, decide_True by done. exact Hc'.
  - by exists nr.
  - exists rest. rewrite !GetEndpointByTags_update; [done|..]; rewrite ?wrapper_update, ?decide_True by done; done.
  - rewrite !wrapper_update, !decide_True by done. done.
Qed.

Fixpoint send_many (n : nat) (method : string) (now : Z) (pc : PoolClient) : PoolClient :=
  match n with O => pc | S n => send_many n method now (snd (SendRequest method now pc)) end.

(** C37: Selection picks a healthy endpoint, and fails only when there is none: one with the fewest
    active connections, the smallest priority number or a positive weight, according to the strategy.
    The separate code of the retry selector picks the same endpoint, and with no healthy endpoint it
    still picks one of the pool.  Assumes weights that are not negative and do not overflow. *)
Theorem SelectEndpoint_sound (p : GatewayPool) :
  lawful_draws -> sane_weights p (healthy_endpoints p) -> sane_weights p (endpoints p) -> endpoints p <> [] ->
  match healthy_endpoints p with
  | [] => fst (SelectEndpoint p) = Err NoHealthyEndpoints /\
          exists e, fst (SelectForRetry p) = Ok e /\ picks_well p (endpoints p) e
  | _ :: _ => exists e, fst (SelectEndpoint p) = Ok e /\ fst (SelectForRetry p) = Ok e /\
                IsHealthy (wrapper p e) = true /\ picks_well p (healthy_endpoints p) e
  end.
Proof.
  intros Hd Hw Hw' Hne. pose proof (SelectEndpoint_strategy p) as Hst.
  assert (zlen (endpoints p) =? 0 = false) as Hz by (apply Z.eqb_neq; intros ?%zlen_nil_inv; done).
  unfold SelectForRetry. rewrite Hz. destruct (healthy_endpoints p) as [|e0 rest] eqn:E.
  - split; [unfold SelectEndpoint; by rewrite E|].
    destruct (selectByStrategy_picks p (endpoints p) Hd Hw' Hne) as (e & He & Hp).
    exists e. split; [by apply or_panic_ok|done].
  - rewrite <- E in *. assert (healthy_endpoints p <> []) as Hne' by by rewrite E.
    destruct (selectByStrategy_picks p (healthy_endpoints p) Hd Hw Hne') as (e & He & Hp).
    assert (zlen (healthy_endpoints p) =? 0 = false) as -> by (apply Z.eqb_neq; intros ?%zlen_nil_inv; done).
    exists e. rewrite Hst, (or_panic_ok _ _ He) by done. split_and!; [done..| |done].
    destruct Hp as [Hin _]. by apply elem_of_filter_bool in Hin as [? _].
Qed.

(** The configured health thresholds have no effect: after a round of health checks an endpoint is
    healthy exactly when its client is connected, whatever the thresholds and the earlier results. *)
Lemma health_checks_ignore_thresholds (now : Z) (p : GatewayPool) (e : ptr) :
  e ∈ endpoints p ->
  IsHealthy (wrapper (performHealthChecks now p) e) = gc_IsConnected (Client (wrapper p e)).
Proof. clear draws. apply performHealthChecks_flag. Qed.

(** With namespace routing, every request adds one to the active connections of its endpoint even
    when that endpoint is already the current, connected one: [n] requests over one connection leave a
    count larger by [n], which the least-connections strategy then compares. *)
Lemma routed_requests_leak_connections (e : ptr) (tags : list string) (method : string) (now : Z)
    (n : nat) (pc : PoolClient) :
  reliable -> routed_to e tags method pc ->
  0 <= ActiveConns (wrapper (pool pc) e) -> ActiveConns (wrapper (pool pc) e) + Z.of_nat n <= max_i64 ->
  currentEndpoint (send_many n method now pc) = Some e /\
  ActiveConns (wrapper (pool (send_many n method now pc)) e) = ActiveConns (wrapper (pool pc) e) + Z.of_nat n.
Proof. clear draws.
  intros Hrel. revert pc; induction n as [|n IH]; intros pc Hr Hnn Hm; cbn [send_many].
  { split; [apply Hr|lia]. }
  destruct (SendRequest_routed e tags method now pc Hrel Hr) as (pc' & -> & Hr' & Hc). cbn [snd].
  rewrite i64_add_small in Hc by (unfold min_i64; lia).
  destruct (IH pc' Hr') as [? Hn]; [lia|lia|]. split; [done|]. rewrite Hn, Hc. lia.
Qed.

End Pool.

(** ** Sample pools: a client that is its connection flag *)

#[local] Instance FlagClient : GatewayClient bool := {|
  gc_Connect := fun _ => (Ok tt, true);
  gc_SendRequest := fun _ c => (if c then Ok tt else Err "closed", c);
  gc_ReceiveResponse := fun c => (if c then Ok "response" else Err "closed", c);
  gc_SendPing := fun c => (if c then Ok tt else Err "closed", c);
  gc_IsConnected := fun c => c;
  gc_Close := fun _ => (Ok tt, false);
|}.

Definition sample_wrapper (e : ptr) : GatewayEndpointWrapper :=
  {| Client := bool_decide (e = 1%nat);
     Config := {| URL := "ws://gw"; Weight := Z.of_nat e; Priority := 5 - Z.of_nat e;
                  Tags := if bool_decide (e = 1%nat) then ["docker"; "default"] else ["default"] |};
     Health := {| IsHealthyFlag := negb (bool_decide (e = 2%nat)); ConsecutiveFailures := 0; ConsecutiveSuccesses := 0;
                  LastChecked := 0; LastError := None |};
     ActiveConns := 3 - Z.of_nat e |}.

Definition sample_pool (s : string) : GatewayPool :=
  {| endpoints := [0; 1; 2]%nat; strategy := s; roundRobinIndex := 0; HealthyThreshold := 3; UnhealthyThreshold := 3;
     wrapper := sample_wrapper; drawn := 0 |}.

Lemma SelectEndpoint_sound_witness :
  exists e, fst (SelectEndpoint (fun _ _ => 0) (sample_pool PriorityStrategy)) = Ok e /\
    fst (SelectForRetry (fun _ _ => 0) (sample_pool PriorityStrategy)) = Ok e /\
    IsHealthy (sample_wrapper e) = true /\
    picks_well (sample_pool PriorityStrategy) (healthy_endpoints (sample_pool PriorityStrategy)) e.
Proof.
  apply (SelectEndpoint_sound (fun _ _ => 0) (sample_pool PriorityStrategy)).
  - intros i n Hn. lia.
  - split; [repeat constructor; by vm_compute|by vm_compute].
  - split; [repeat constructor; by vm_compute|by vm_compute].
  - done.
Defined.

Lemma health_checks_ignore_thresholds_witness :
  IsHealthy (wrapper (performHealthChecks 0 (sample_pool RoundRobinStrategy)) 0%nat) = false.
Proof.
  rewrite (health_checks_ignore_thresholds 0 (sample_pool RoundRobinStrategy) 0%nat); [done|]. cbn. set_solver.
Defined.

Definition sample_client : PoolClient :=
  {| pool := sample_pool LeastConnectionsStrategy; RetryCount := 3; namespaceRouter := Some default_router;
     currentEndpoint := Some 1%nat |}.

Lemma routed_requests_leak_connections_witness :
  currentEndpoint (send_many 5 "docker.ps" 0 sample_client) = Some 1%nat /\
  ActiveConns (wrapper (pool (send_many 5 "docker.ps" 0 sample_client)) 1%nat) = 7.
Proof.
  apply (routed_requests_leak_connections 1%nat ["docker"; "default"] "docker.ps" 0 5 sample_client).
  - intros m c Hc. exists c. cbn in *. by rewrite Hc.
  - split; [done|done| |].
    + exists default_router. by vm_compute.
    + exists []. by vm_compute.
  - done.
  - done.
Defined.

End Pool.
