(* ===== verification/Goroutines.v ===== *)
(** * Goroutines

    Concurrent code as programs over atomic commands.  A goroutine is a [prog]: it returns,
    performs one atomic command and continues with its result, or starts another goroutine.
    A loop of the code is a label: [Again l] starts the next iteration of [body l].  A world is a
    shared state with the goroutines that run; one step is one command of one goroutine, or a
    step of the environment.  [sound] is the proof rule used for the components: a typing of
    programs by environments (what a goroutine owns and knows), preserved by every command, is
    preserved by every interleaving. *)
From S2P Require Import Prelude.

(** A command that leaves the state as it is, when [b] holds. *)
Definition when {S} (b : bool) (s : S) : option S := if b then Some s else None.

Lemma when_Some {S} b (s s' : S) : when b s = Some s' -> b = true /\ s' = s.
Proof. unfold when. destruct b; [by intros [= <-]|done]. Qed.

(** What the goroutines' environments add up to. *)
Section Sums.
Context {Env : Type} (owes : Env -> Z).

Definition total_of (es : gmap nat Env) : Z := map_fold (fun _ e n => owes e + n)%Z 0%Z es.

Lemma total_of_empty : total_of ∅ = 0%Z.
Proof. done. Qed.

Lemma total_of_insert es t e : es !! t = None -> total_of (<[t := e]> es) = (owes e + total_of es)%Z.
Proof. intros Hn. unfold total_of. rewrite map_fold_insert_L; [done|lia|done]. Qed.

Lemma total_of_delete es t e : es !! t = Some e -> total_of es = (owes e + total_of (delete t es))%Z.
Proof. intros He. rewrite <- (total_of_insert (delete t es) t e) by apply lookup_delete_eq. by rewrite insert_delete_eq, insert_id. Qed.

Lemma total_of_update es t e e' : es !! t = Some e -> total_of (<[t := e']> es) = (total_of es - owes e + owes e')%Z.
Proof. intros He. rewrite (total_of_delete es t e He), <- insert_delete_eq, total_of_insert by apply lookup_delete_eq. lia. Qed.

Lemma total_of_zero es : (forall t e, es !! t = Some e -> owes e = 0%Z) -> total_of es = 0%Z.
Proof.
  intros Ho. induction es as [|t e es Hn IH] using map_ind; [done|].
  rewrite total_of_insert, (Ho t e), IH; [done| |by rewrite lookup_insert_eq|done].
  intros u f Hu. apply (Ho u). rewrite lookup_insert_ne; [done|]. intros ->. congruence.
Qed.

Lemma total_of_nonneg es : (forall t e, es !! t = Some e -> 0 <= owes e)%Z -> (0 <= total_of es)%Z.
Proof.
  intros Ho. induction es as [|t e es Hn IH] using map_ind; [done|]. rewrite total_of_insert by done.
  assert (0 <= owes e)%Z by (apply (Ho t); by rewrite lookup_insert_eq). assert (0 <= total_of es)%Z; [|lia].
  apply IH. intros u f Hu. apply (Ho u). rewrite lookup_insert_ne; [done|]. intros ->. congruence.
Qed.

End Sums.

Section Goroutines.

(** Atomic commands with the type of their results, the shared state, the labels of loops. *)
Context {cmd : Type -> Type} {St label : Type}.

Inductive next := Exit | Again (l : label).

Inductive prog (A : Type) :=
| Ret (a : A)
| Do {X : Type} (c : cmd X) (k : X -> prog A)
| Go (child : prog next) (k : prog A).
#[global] Arguments Ret {A}.
#[global] Arguments Do {A X}.
#[global] Arguments Go {A}.

Fixpoint prog_bind {A B} (p : prog A) (f : A -> prog B) : prog B :=
  match p with
  | Ret a => f a
  | Do c k => Do c (fun x => prog_bind (k x) f)
  | Go ch k => Go ch (prog_bind k f)
  end.

#[global] Instance prog_mret : MRet prog := fun A a => Ret a.
#[global] Instance prog_mbind : MBind prog := fun A B f p => prog_bind p f.

Definition perform {X} (c : cmd X) : prog X := Do c Ret.
Definition go (child : prog next) : prog unit := Go child (Ret tt).

(** ** Interleavings *)

(** [exec c x s]: the command can end with result [x] now, and the state it leaves; [None]: not
    with this result now.  [panics c s]: the command panics now. *)
Variable exec : forall X, cmd X -> X -> St -> option St.
Variable panics : forall X, cmd X -> St -> bool.
Variable body : label -> prog next.
Variable env_step : St -> St -> Prop.

Record world := mkWorld { st : St; tasks : gmap nat (prog next); panicked : bool }.

(** One step of a running goroutine: the state, what it becomes, a goroutine it started. *)
Definition task_step (s : St) (p : prog next) (s' : St) (p' : option (prog next)) (child : option (prog next)) : Prop :=
  match p with
  | Ret Exit => s' = s /\ p' = None /\ child = None
  | Ret (Again l) => s' = s /\ p' = Some (body l) /\ child = None
  | Do c k => exists x, panics _ c s = false /\ exec _ c x s = Some s' /\ p' = Some (k x) /\ child = None
  | Go ch k => s' = s /\ p' = Some k /\ child = Some ch
  end.

Definition may_panic (s : St) (p : prog next) : bool := match p with Do c _ => panics _ c s | _ => false end.

Inductive step : world -> world -> Prop :=
| step_task w t p s' p' child t' :
    panicked w = false -> tasks w !! t = Some p -> task_step (st w) p s' p' child ->
    tasks w !! t' = None ->
    step w {| st := s'; panicked := false;
              tasks := match child with
                       | Some ch => <[t' := ch]> (partial_alter (fun _ => p') t (tasks w))
                       | None => partial_alter (fun _ => p') t (tasks w)
                       end |}
| step_panic w t p :
    panicked w = false -> tasks w !! t = Some p -> may_panic (st w) p = true ->
    step w {| st := st w; tasks := tasks w; panicked := true |}
| step_env w s' :
    panicked w = false -> env_step (st w) s' -> step w {| st := s'; tasks := tasks w; panicked := false |}.

Inductive reachable (w0 : world) : world -> Prop :=
| reach_init : reachable w0 w0
| reach_step w w' : reachable w0 w -> step w w' -> reachable w0 w'.

(** ** Runs

    An executable scheduler: which goroutine moves, and the results its command gets. *)
Definition oracle := St -> forall X, cmd X -> X.

Definition fresh_task (w : world) : nat := fresh (dom (tasks w) : gset nat).

Definition run_task (t : nat) (o : oracle) (w : world) : option world :=
  if panicked w then None else
  match tasks w !! t with
  | None => None
  | Some (Ret Exit) => Some {| st := st w; tasks := delete t (tasks w); panicked := false |}
  | Some (Ret (Again l)) => Some {| st := st w; tasks := <[t := body l]> (tasks w); panicked := false |}
  | Some (Do c k) =>
      if panics _ c (st w) then Some {| st := st w; tasks := tasks w; panicked := true |}
      else let x := o (st w) _ c in
           s' ← exec _ c x (st w); Some {| st := s'; tasks := <[t := k x]> (tasks w); panicked := false |}
  | Some (Go ch k) => Some {| st := st w; tasks := <[fresh_task w := ch]> (<[t := k]> (tasks w)); panicked := false |}
  end.

Fixpoint run (sched : list (nat * oracle)) (w : world) : option world :=
  match sched with
  | [] => Some w
  | (t, o) :: sched => w' ← run_task t o w; run sched w'
  end.

Lemma fresh_task_none w : tasks w !! fresh_task w = None.
Proof. apply (not_elem_of_dom (D := gset nat)). apply (is_fresh (dom (tasks w) : gset nat)). Qed.

Lemma run_task_step t o w w' : run_task t o w = Some w' -> step w w'.
Proof.
  unfold run_task. destruct (panicked w) eqn:Ep; [done|]. destruct (tasks w !! t) as [p|] eqn:Et; [|done].
  destruct p as [[|l]|X c k|ch k].
  - intros [= <-]. apply (step_task w t _ _ None None (fresh_task w) Ep Et); [done|apply fresh_task_none].
  - intros [= <-]. apply (step_task w t _ _ (Some _) None (fresh_task w) Ep Et); [done|apply fresh_task_none].
  - destruct (panics _ c (st w)) eqn:Ec; [intros [= <-]; by apply (step_panic w t (Do c k))|].
    cbn zeta. destruct (exec _ c (o (st w) X c) (st w)) as [s'|] eqn:Ee; [|done]. intros [= <-].
    apply (step_task w t _ _ (Some _) None (fresh_task w) Ep Et); [by exists (o (st w) X c)|apply fresh_task_none].
  - intros [= <-]. apply (step_task w t _ _ (Some _) (Some ch) (fresh_task w) Ep Et); [done|apply fresh_task_none].
Qed.

Lemma run_reachable sched w0 w w' : reachable w0 w -> run sched w = Some w' -> reachable w0 w'.
Proof.
  revert w; induction sched as [|[t o] sched IH]; cbn; intros w Hr; [by intros [= <-]|].
  destruct (run_task t o w) as [w1|] eqn:E; [|done]. apply IH. eapply reach_step; [exact Hr|by eapply run_task_step].
Qed.

(** ** Paths

    [counts p n Q]: on every path of [p] with admitted results, starting from [n], the weights of its
    commands and of the goroutines it starts add up to a number that satisfies [Q] with the result. *)
Section Paths.
Variable admitted : forall X, cmd X -> X -> Prop.
Variable weight : forall X, cmd X -> X -> Z.

Fixpoint counts {A} (p : prog A) (n : Z) (Q : Z -> A -> Prop) : Prop :=
  match p with
  | Ret a => Q n a
  | Do c k => forall x, admitted _ c x -> counts (k x) (n + weight _ c x)%Z Q
  | Go ch k => exists m, counts ch 0 (fun n' _ => n' = m) /\ counts k (n + m)%Z Q
  end.

Lemma counts_mono {A} (p : prog A) n (Q Q' : Z -> A -> Prop) : counts p n Q -> (forall m a, Q m a -> Q' m a) -> counts p n Q'.
Proof.
  revert n Q Q'. induction p as [A a|A X c k IH|A ch _ k IH]; cbn; intros n Q Q' Hp HQ; [by apply HQ| |].
  - intros x Hx. eapply IH; [by apply Hp|done].
  - destruct Hp as (m & Hm & Hk). exists m. split; [done|]. by eapply IH.
Qed.

Lemma counts_bind {A B} (p : prog A) (f : A -> prog B) n Q :
  counts p n (fun m a => counts (f a) m Q) -> counts (p ≫= f) n Q.
Proof.
  revert n Q f. change (forall (n : Z) (Q : Z -> B -> Prop) (f : A -> prog B),
    counts p n (λ m a, counts (f a) m Q) → counts (prog_bind p f) n Q).
  induction p as [A a|A X c k IH|A ch _ k IH]; cbn; intros n Q f Hp; [done| |].
  - intros x Hx. by apply IH, Hp.
  - destruct Hp as (m & Hm & Hk). exists m. split; [done|]. by apply IH.
Qed.

Lemma counts_ret {A} (a : A) n (Q : Z -> A -> Prop) : Q n a -> counts (mret a) n Q.
Proof. done. Qed.

Lemma counts_perform {X} (c : cmd X) n (Q : Z -> X -> Prop) :
  (forall x, admitted _ c x -> Q (n + weight _ c x)%Z x) -> counts (perform c) n Q.
Proof. done. Qed.

Lemma counts_go ch n m (Q : Z -> unit -> Prop) : counts ch 0 (fun n' _ => n' = m) -> Q (n + m)%Z tt -> counts (go ch) n Q.
Proof. intros Hc HQ. by exists m. Qed.

End Paths.

(** ** Typing *)

Context {Env : Type}.
Variable Inv : St -> gmap nat Env -> Prop.
Variable pre : forall X, cmd X -> Env -> Prop.
Variable valid : forall X, cmd X -> X -> Env -> Prop.        (* results that can occur *)
Variable post : forall X, cmd X -> X -> Env -> Env.
Variable split : Env -> Env -> Env -> Prop.                  (* what a started goroutine gets, what the starter keeps *)
Variable exit_ok : Env -> Prop.                              (* what is left when a goroutine ends *)
Variable label_env : label -> Env -> Env -> Prop.            (* what an iteration starts with, from what is left *)
Variable crash : forall X, cmd X -> bool.                    (* commands whose panics are not excluded *)

Fixpoint wp {A} (p : prog A) (e : Env) (Q : A -> Env -> Prop) : Prop :=
  match p with
  | Ret a => Q a e
  | Do c k => pre _ c e /\ forall x, valid _ c x e -> wp (k x) (post _ c x e) Q
  | Go ch k => exists ec e1, split e ec e1 /\
      wp ch ec (fun n e' => match n with Exit => exit_ok e' | Again l => exists e2, label_env l e' e2 end) /\ wp k e1 Q
  end.

Definition goroutine_ok (p : prog next) (e : Env) : Prop :=
  wp p e (fun n e' => match n with Exit => exit_ok e' | Again l => exists e2, label_env l e' e2 end).

Lemma wp_mono {A} (p : prog A) e (Q Q' : A -> Env -> Prop) : wp p e Q -> (forall a e', Q a e' -> Q' a e') -> wp p e Q'.
Proof.
  revert e Q Q'. induction p as [A a|A X c k IH|A ch _ k IH]; cbn; intros e Q Q' Hp HQ; [by apply HQ| |].
  - destruct Hp as [Hc Hk]. split; [done|]. intros x Hx. eapply IH; [by apply Hk|done].
  - destruct Hp as (ec & e1 & Hs & Hc & Hk). exists ec, e1. split_and!; [done|done|]. by eapply IH.
Qed.

Lemma wp_bind {A B} (p : prog A) (f : A -> prog B) e Q :
  wp p e (fun a e' => wp (f a) e' Q) -> wp (p ≫= f) e Q.
Proof.
  revert e Q f. change (forall (e : Env) (Q : B -> Env -> Prop) (f : A -> prog B),
    wp p e (λ (a : A) (e' : Env), wp (f a) e' Q) → wp (prog_bind p f) e Q).
  induction p as [A a|A X c k IH|A ch _ k IH]; cbn; intros e Q f Hp; [done| |].
  - destruct Hp as [Hc Hk]. split; [done|]. intros x Hx. by apply IH, Hk.
  - destruct Hp as (ec & e1 & Hs & Hc & Hk). exists ec, e1. split_and!; [done|done|]. by apply IH.
Qed.

Lemma wp_ret {A} (a : A) e Q : Q a e -> wp (mret a) e Q.
Proof. done. Qed.

Lemma wp_perform {X} (c : cmd X) e Q :
  pre _ c e -> (forall x, valid _ c x e -> Q x (post _ c x e)) -> wp (perform c) e Q.
Proof. done. Qed.

Lemma wp_go ch e ec e1 (Q : unit -> Env -> Prop) : split e ec e1 -> goroutine_ok ch ec -> Q tt e1 -> wp (go ch) e Q.
Proof. intros Hs Hc Hq. by exists ec, e1. Qed.

(** What commands, jumps, starts and the environment must preserve. *)
Record rules : Prop := {
  rule_no_panic s es t e X (c : cmd X) :
    Inv s es -> es !! t = Some e -> pre _ c e -> panics _ c s = true -> crash _ c = true;
  rule_exec s es t e X (c : cmd X) x s' :
    Inv s es -> es !! t = Some e -> pre _ c e -> panics _ c s = false -> exec _ c x s = Some s' ->
    valid _ c x e /\ Inv s' (<[t := post _ c x e]> es);
  rule_exit s es t e : Inv s es -> es !! t = Some e -> exit_ok e -> Inv s (delete t es);
  rule_again s es t e l e2 : Inv s es -> es !! t = Some e -> label_env l e e2 -> Inv s (<[t := e2]> es);
  rule_start s es t e t' ec e1 :
    Inv s es -> es !! t = Some e -> es !! t' = None -> split e ec e1 -> Inv s (<[t' := ec]> (<[t := e1]> es));
  rule_env s es s' : Inv s es -> env_step s s' -> Inv s' es;
  rule_body l e e2 : label_env l e e2 -> goroutine_ok (body l) e2;
}.

(** A panic stops the program at a command that may crash. *)
Definition crashed (w : world) : Prop :=
  exists t X (c : cmd X) k, tasks w !! t = Some (Do c k) /\ panics _ c (st w) = true /\ crash _ c = true.

Definition typed (w : world) : Prop :=
  (panicked w = true -> crashed w) /\ exists es, Inv (st w) es /\ dom es = dom (tasks w) /\
    forall t p e, tasks w !! t = Some p -> es !! t = Some e -> goroutine_ok p e.

Lemma typed_update w t s' es p' e' (ts : gmap nat (prog next)) :
  ts = <[t := p']> (tasks w) -> is_Some (tasks w !! t) -> Inv s' (<[t := e']> es) -> dom es = dom (tasks w) ->
  (forall t p e, tasks w !! t = Some p -> es !! t = Some e -> goroutine_ok p e) -> goroutine_ok p' e' ->
  typed {| st := s'; tasks := ts; panicked := false |}.
Proof.
  intros -> Hs Hi Hd Ht Hp. split; [done|]. exists (<[t := e']> es). split_and!; [done| |].
  - cbn. rewrite !dom_insert_L, Hd. done.
  - cbn. intros u q e. destruct (decide (u = t)) as [->|Hu].
    + rewrite !lookup_insert_eq. by intros [= <-] [= <-].
    + rewrite !lookup_insert_ne by done. apply Ht.
Qed.

Lemma typed_task_step (R : rules) w t p s' p' child t' :
  typed w -> tasks w !! t = Some p -> task_step (st w) p s' p' child -> tasks w !! t' = None ->
  typed {| st := s'; panicked := false;
           tasks := match child with
                    | Some ch => <[t' := ch]> (partial_alter (fun _ => p') t (tasks w))
                    | None => partial_alter (fun _ => p') t (tasks w)
                    end |}.
Proof.
  intros (Hp & es & Hi & Hd & Ht) Etask Hs Hfresh.
  assert (exists e, es !! t = Some e) as [e Ee].
  { apply elem_of_dom. rewrite Hd. apply elem_of_dom. by exists p. }
  pose proof (Ht t p e Etask Ee) as Hok. destruct p as [[|l]|X c k|ch k]; cbn in Hs.
  - destruct Hs as (-> & -> & ->). split; [done|]. exists (delete t es). split_and!; cbn.
    + by eapply rule_exit.
    + change (partial_alter (fun _ => None) t (tasks w)) with (delete t (tasks w)). by rewrite !dom_delete_L, Hd.
    + intros u q e' Hq He'. apply lookup_delete_Some in He' as [Hu He'].
      apply (Ht u); [|done]. by rewrite lookup_partial_alter_ne in Hq.
  - destruct Hs as (-> & -> & ->). destruct Hok as [e2 Hl].
    eapply typed_update; [reflexivity|by eexists|by eapply (rule_again R)|done|done|by eapply (rule_body R)].
  - destruct Hs as (x & Hn & Hx & -> & ->). destruct Hok as [Hc Hk].
    destruct (rule_exec R _ _ _ _ _ c x s' Hi Ee Hc Hn Hx) as [Hv Hi'].
    eapply typed_update; [reflexivity|by eexists|exact Hi'|done|done|by apply Hk].
  - destruct Hs as (-> & -> & ->). destruct Hok as (ec & e1 & Hsp & Hch & Hk).
    assert (es !! t' = None) as Hn by (apply not_elem_of_dom; rewrite Hd; by apply not_elem_of_dom).
    assert (t' <> t) as Hne by (intros ->; congruence).
    split; [done|]. exists (<[t' := ec]> (<[t := e1]> es)). split_and!; cbn.
    + by eapply rule_start.
    + change (partial_alter (fun _ => Some k) t (tasks w)) with (<[t := k]> (tasks w)). by rewrite !dom_insert_L, Hd.
    + intros u q e'. destruct (decide (u = t')) as [->|Hu]; [rewrite !lookup_insert_eq; by intros [= <-] [= <-]|].
      rewrite !(lookup_insert_ne _ t') by done. destruct (decide (u = t)) as [->|Hu'].
      * rewrite lookup_partial_alter_eq, lookup_insert_eq. by intros [= <-] [= <-].
      * rewrite lookup_partial_alter_ne, lookup_insert_ne by done. apply Ht.
Qed.

(** Typed programs stay typed, whatever the interleaving, and panic only where the typing allows it. *)
Lemma sound w0 w : rules -> typed w0 -> reachable w0 w -> typed w.
Proof.
  intros R H0 Hr. induction Hr as [|w w' _ IH Hs]; [done|].
  destruct Hs as [w t p s' p' child t' Hp Et Hs Hf|w t p Hp Et Hm|w s' Hp He].
  - by eapply typed_task_step.
  - destruct IH as (_ & es & Hi & Hd & Ht). split; [|by exists es]. intros _.
    destruct p as [|X c k|]; try done. cbn in Hm.
    assert (exists e, es !! t = Some e) as [e Ee].
    { apply elem_of_dom. rewrite Hd. apply elem_of_dom. by eexists. }
    destruct (Ht t _ e Et Ee) as [Hc _]. exists t, X, c, k. split_and!; [done|done|].
    by eapply (rule_no_panic R).
  - destruct IH as (_ & es & Hi & Hd & Ht). split; [done|]. exists es. split_and!; [|done|done]. by eapply rule_env.
Qed.

End Goroutines.
#[global] Arguments prog : clear implicits.
#[global] Arguments next : clear implicits.
#[global] Arguments world : clear implicits.
