(* ===== verification/ConnPool.v ===== *)
(** * The router's connection pool

    [services/router/internal/pool/]: pool.go, connection_acquirer.go,
    generic_connection.go, constants.go and manager.go.  Connections are pointers
    into the pool's heap.  Every access to shared state (the map under its lock, an atomic
    counter, a channel operation) is one action; acquirers, releasers, the maintainer, the health
    checker and [Close] run as threads whose actions interleave ([step]).  What
    the environment decides (clock readings, liveness and ping of a connection, the
    factory's answer, the ready case of a [select]) comes with each step. *)
From S2P Require Import Prelude Goroutines.
#[local] Open Scope Z_scope.

Module ConnPool.

(** ** Configuration *)

Definition DefaultMinPoolSize : Z := 2.
Definition DefaultMaxPoolSize : Z := 10.
Definition DefaultMaxIdleTime : Z := 5 * Minute.
Definition DefaultMaxLifetime : Z := 30 * Minute.
Definition DefaultAcquireTimeout : Z := 5 * Second.
Definition DefaultHealthCheckInterval : Z := 30 * Second.

Record Config := mkConfig {
  MinSize : Z;
  MaxSize : Z;
  MaxIdleTime : Z;
  MaxLifetime : Z;
  AcquireTimeout : Z;
  HealthCheckInterval : Z;
}.

Definition DefaultConfig : Config :=
  {| MinSize := DefaultMinPoolSize; MaxSize := DefaultMaxPoolSize; MaxIdleTime := DefaultMaxIdleTime;
     MaxLifetime := DefaultMaxLifetime; AcquireTimeout := DefaultAcquireTimeout;
     HealthCheckInterval := DefaultHealthCheckInterval |}.

Definition validateAndNormalizePoolConfig (c : Config) : Config :=
  let minSize := if MinSize c <? 0 then 0 else MinSize c in
  let maxSize := if MaxSize c <=? 0 then 10 else MaxSize c in
  {| MinSize := if maxSize <? minSize then maxSize else minSize;
     MaxSize := maxSize;
     MaxIdleTime := if MaxIdleTime c <=? 0 then DefaultMaxIdleTime else MaxIdleTime c;
     MaxLifetime := if MaxLifetime c <=? 0 then DefaultMaxLifetime else MaxLifetime c;
     AcquireTimeout := if AcquireTimeout c <=? 0 then DefaultAcquireTimeout else AcquireTimeout c;
     HealthCheckInterval := if HealthCheckInterval c <=? 0 then DefaultHealthCheckInterval else HealthCheckInterval c |}.

(** ** State *)

Record pooledConn := mkPC {
  id : string;
  createdAt : Z;
  lastUsedAt : Z;
  usageCount : Z;
}.

Record Stats := mkStats {
  TotalConnections : Z;
  ActiveConnections : Z;
  IdleConnections : Z;
  WaitCount : Z;
  WaitDuration : Z;
  CreatedCount : Z;
  ClosedCount : Z;
  FailedCount : Z;
}.

(** A waiter's channel: capacity one. *)
Record chan := mkChan { buffer : option nat; ch_closed : bool }.

Record Pool := mkPool {
  config : Config;
  conns : gmap nat pooledConn;                  (* the heap *)
  connections : option (gmap string nat);       (* nil after Close *)
  idle : list nat;                              (* channel of capacity MaxSize *)
  idle_closed : bool;
  waiters : list nat;                           (* channel of capacity MaxSize *)
  waiters_closed : bool;
  chans : gmap nat chan;
  stats : Stats;
  closed : bool;
  closeCh : bool;                               (* closed *)
  closes : list nat;                            (* calls of Close on connections *)
  next : nat;
}.

Definition createPoolStruct (c : Config) : Pool :=
  {| config := c; conns := ∅; connections := Some ∅; idle := []; idle_closed := false; waiters := [];
     waiters_closed := false; chans := ∅; stats := mkStats 0 0 0 0 0 0 0 0; closed := false; closeCh := false; closes := [];
     next := 0 |}.

(** Setters. *)
Definition set_conns f (p : Pool) : Pool := mkPool (config p) (f (conns p)) (connections p) (idle p) (idle_closed p) (waiters p) (waiters_closed p) (chans p) (stats p) (closed p) (closeCh p) (closes p) (next p).
Definition set_connections f (p : Pool) : Pool := mkPool (config p) (conns p) (f (connections p)) (idle p) (idle_closed p) (waiters p) (waiters_closed p) (chans p) (stats p) (closed p) (closeCh p) (closes p) (next p).
Definition set_idle f (p : Pool) : Pool := mkPool (config p) (conns p) (connections p) (f (idle p)) (idle_closed p) (waiters p) (waiters_closed p) (chans p) (stats p) (closed p) (closeCh p) (closes p) (next p).
Definition set_waiters f (p : Pool) : Pool := mkPool (config p) (conns p) (connections p) (idle p) (idle_closed p) (f (waiters p)) (waiters_closed p) (chans p) (stats p) (closed p) (closeCh p) (closes p) (next p).
Definition set_chans f (p : Pool) : Pool := mkPool (config p) (conns p) (connections p) (idle p) (idle_closed p) (waiters p) (waiters_closed p) (f (chans p)) (stats p) (closed p) (closeCh p) (closes p) (next p).
Definition set_stats f (p : Pool) : Pool := mkPool (config p) (conns p) (connections p) (idle p) (idle_closed p) (waiters p) (waiters_closed p) (chans p) (f (stats p)) (closed p) (closeCh p) (closes p) (next p).
Definition set_closes f (p : Pool) : Pool := mkPool (config p) (conns p) (connections p) (idle p) (idle_closed p) (waiters p) (waiters_closed p) (chans p) (stats p) (closed p) (closeCh p) (f (closes p)) (next p).
Definition set_next f (p : Pool) : Pool := mkPool (config p) (conns p) (connections p) (idle p) (idle_closed p) (waiters p) (waiters_closed p) (chans p) (stats p) (closed p) (closeCh p) (closes p) (f (next p)).

Definition set_closeCh (p : Pool) : Pool := mkPool (config p) (conns p) (connections p) (idle p) (idle_closed p) (waiters p) (waiters_closed p) (chans p) (stats p) (closed p) true (closes p) (next p).
Definition set_idle_closed (p : Pool) : Pool := mkPool (config p) (conns p) (connections p) (idle p) true (waiters p) (waiters_closed p) (chans p) (stats p) (closed p) (closeCh p) (closes p) (next p).
Definition set_waiters_closed (p : Pool) : Pool := mkPool (config p) (conns p) (connections p) (idle p) (idle_closed p) (waiters p) true (chans p) (stats p) (closed p) (closeCh p) (closes p) (next p).
Definition set_closed (p : Pool) : Pool := mkPool (config p) (conns p) (connections p) (idle p) (idle_closed p) (waiters p) (waiters_closed p) (chans p) (stats p) true (closeCh p) (closes p) (next p).

Definition set_total v (s : Stats) : Stats := mkStats v (ActiveConnections s) (IdleConnections s) (WaitCount s) (WaitDuration s) (CreatedCount s) (ClosedCount s) (FailedCount s).
Definition set_active v (s : Stats) : Stats := mkStats (TotalConnections s) v (IdleConnections s) (WaitCount s) (WaitDuration s) (CreatedCount s) (ClosedCount s) (FailedCount s).
Definition set_idles v (s : Stats) : Stats := mkStats (TotalConnections s) (ActiveConnections s) v (WaitCount s) (WaitDuration s) (CreatedCount s) (ClosedCount s) (FailedCount s).
Definition set_wait v (s : Stats) : Stats := mkStats (TotalConnections s) (ActiveConnections s) (IdleConnections s) v (WaitDuration s) (CreatedCount s) (ClosedCount s) (FailedCount s).
Definition set_wait_duration v (s : Stats) : Stats := mkStats (TotalConnections s) (ActiveConnections s) (IdleConnections s) (WaitCount s) v (CreatedCount s) (ClosedCount s) (FailedCount s).
Definition set_created v (s : Stats) : Stats := mkStats (TotalConnections s) (ActiveConnections s) (IdleConnections s) (WaitCount s) (WaitDuration s) v (ClosedCount s) (FailedCount s).
Definition set_closed_count v (s : Stats) : Stats := mkStats (TotalConnections s) (ActiveConnections s) (IdleConnections s) (WaitCount s) (WaitDuration s) (CreatedCount s) v (FailedCount s).
Definition set_failed v (s : Stats) : Stats := mkStats (TotalConnections s) (ActiveConnections s) (IdleConnections s) (WaitCount s) (WaitDuration s) (CreatedCount s) (ClosedCount s) v.

(** Errors of the package, and the ways a goroutine can die or hang. *)
Inductive pool_error := ErrPoolClosed | ErrPoolExhausted | ErrInvalidConn | ErrConnTimeout | CtxErr | FactoryErr (e : string).
#[export] Instance pool_error_eq_dec : EqDecision pool_error.
Proof. solve_decision. Defined.

Inductive abort := NilDereference | NilMapWrite | SendOnClosed | BlocksForever.

(** What the environment decides in one action. *)
Inductive choice := Proceed | CtxDone | TimedOut.
Record env := mkEnv {
  now1 : Z; now2 : Z; now3 : Z;
  alive : bool;                      (* IsAlive of the connection at hand *)
  ping_ok : bool;                    (* Validate of the connection at hand *)
  factory : result string string;    (* Create: an error, or the new connection's id *)
  ready : choice;                    (* the case a select takes *)
}.

Notation act A := (M Pool abort A).
Definition modify (f : Pool -> Pool) : act unit := fun p => (Ok tt, f p).
Definition read {A} (f : Pool -> A) : act A := fun p => (Ok (f p), p).

(** ** Threads

    A thread is the point a goroutine has reached; one step is one access to shared state (the map under its lock,
    one atomic addition to a counter, one channel operation), with what the goroutine does on its own around it.  The
    first four constructors go on with a thread, the fifth returns. *)

Inductive counter := CTotal | CActive | CIdle | CWait | CDuration | CCreated | CClosed | CFailed.

Inductive event := Acquired (l : nat) | Failed (err : pool_error) | Finished.

Inductive thread :=
| Count (c : counter) (d : Z) (k : thread)
| Touch (l : nat) (k : thread)
| Remove (l : nat) (k : thread)
| ConnClose (l : nat) (k : thread)
| Ret (ev : event) (spawn : bool)
| InitCreate (n : nat) | InitPush (l : nat) (n : nat)
| AcqIdle (start : Z) | AcqValid (start : Z) (l : nat) | AcqCheck (start : Z) | AcqCreate (start : Z)
| AcqQueue (start : Z) (ch : nat) | AcqWait (start : Z) (ch : nat) | AcqDone (start : Z) (r : result pool_error nat)
| RelValid (l : nat) | RelWaiter (l : nat) | RelGive (l ch : nat) | RelIdle (l : nat)
| MaintRead (wg : bool) | MaintCreate (wg : bool) (n : nat) | MaintPush (wg : bool) (l n : nat)
| HealthCollect (got : list nat) | HealthProcess (todo : list nat) (removed : Z) | HealthReturn (l : nat) (todo : list nat) (removed : Z)
| CloseCh | CloseWait | CloseWaiters | DrainWaiters | CloseIdle | DrainIdle | CloseAll.

(** The next action of a thread: it cannot proceed, goes on, or returns, perhaps
    starting the maintenance that a health check triggers. *)
Inductive outcome := Blocked | Goto (t : thread) | Return (ev : event) (spawn : bool).

(** [atomic.AddInt64] on a counter. *)
Definition count (c : counter) (d : Z) (s : Stats) : Stats :=
  match c with
  | CTotal => set_total (i64_add (TotalConnections s) d) s
  | CActive => set_active (i64_add (ActiveConnections s) d) s
  | CIdle => set_idles (i64_add (IdleConnections s) d) s
  | CWait => set_wait (i64_add (WaitCount s) d) s
  | CDuration => set_wait_duration (i64_add (WaitDuration s) d) s
  | CCreated => set_created (i64_add (CreatedCount s) d) s
  | CClosed => set_closed_count (i64_add (ClosedCount s) d) s
  | CFailed => set_failed (i64_add (FailedCount s) d) s
  end.

Definition add_to (c : counter) (d : Z) (k : thread) : act outcome :=
  _ ← modify (set_stats (count c d)); mret (Goto k).

(** ** Connections *)

(** The factory's answer and the new [pooledConn] are the goroutine's own; the entry in the map is the step.  Then the
    two counters. *)
Definition createConnection (e : env) (ok : nat -> thread) (failed : string -> thread) : act outcome :=
  match factory e with
  | Err err => mret (Goto (Count CFailed 1 (failed err)))
  | Ok cid =>
      l ← read next;
      _ ← modify (set_next S);
      _ ← modify (set_conns (<[l := {| id := cid; createdAt := now1 e; lastUsedAt := now2 e; usageCount := 0 |}]>));
      m ← read connections;
      match m with
      | None => M_fail NilMapWrite
      | Some _ =>
          _ ← modify (set_connections (fmap (<[cid := l]>)));
          mret (Goto (Count CCreated 1 (Count CTotal 1 (ok l))))
      end
  end.

Definition conn_Close (l : nat) (k : thread) : act outcome := _ ← modify (set_closes (cons l)); mret (Goto k).

Definition deref (l : nat) : act pooledConn := fun p =>
  match conns p !! l with Some pc => (Ok pc, p) | None => (Err NilDereference, p) end.

(** The entry goes from the map; then the two counters, then the connection is closed. *)
Definition removeConnection (l : nat) (k : thread) : act outcome :=
  pc ← deref l;
  _ ← modify (set_connections (fmap (delete (id pc))));
  mret (Goto (Count CTotal (-1) (Count CClosed 1 (ConnClose l k)))).

Definition isValidConnection (e : env) (l : nat) : act bool :=
  pc ← deref l;
  c ← read config;
  mret (if negb (alive e) then false
        else if MaxLifetime c <? time_sub (now1 e) (createdAt pc) then false
        else if MaxIdleTime c <? time_sub (now2 e) (lastUsedAt pc) then false
        else ping_ok e).

(** ** Acquiring *)

Definition validatePool (p : Pool) : option pool_error := if closed p then Some ErrPoolClosed else None.

Definition recordWaitStart (k : thread) : thread := Count CWait 1 k.

(** The deferred call, and the return. *)
Definition recordWaitDuration (e : env) (start : Z) (k : thread) : thread := Count CDuration (time_sub (now3 e) start) k.

Definition acq_done (e : env) (start : Z) (r : result pool_error nat) : act outcome :=
  mret (Goto (recordWaitDuration e start (Ret (match r with Ok l => Acquired l | Err err => Failed err end) false))).

(** The connection's own fields. *)
Definition touched (now : Z) (pc : pooledConn) : pooledConn :=
  {| id := id pc; createdAt := createdAt pc; lastUsedAt := now; usageCount := i64_add (usageCount pc) 1 |}.
Definition touch (e : env) (l : nat) (k : thread) : act outcome :=
  _ ← modify (set_conns (alter (touched (now1 e)) l)); mret (Goto k).

Definition activateConnection (l : nat) (k : thread) : thread := Touch l (Count CActive 1 (Count CIdle (-1) k)).

(** The select of [tryGetIdleConnection], and what follows when it received a connection.  A receive on the closed and empty channel
    yields nil, which the check of the connection dereferences. *)
Definition tryGetIdleConnection (start : Z) : act outcome :=
  q ← read idle;
  match q with
  | l :: _ => _ ← modify (set_idle tail); mret (Goto (AcqValid start l))
  | [] =>
      c ← read idle_closed;
      if (c : bool) then M_fail NilDereference else mret (Goto (AcqCheck start))
  end.
Definition check_idle (e : env) (start : Z) (l : nat) : act outcome :=
  ok ← isValidConnection e l;
  mret (Goto (if (ok : bool) then activateConnection l (AcqDone start (Ok l)) else Remove l (AcqCheck start))).

Definition canCreateNewConnection : act bool :=
  read (fun p => from_option (fun m : gmap string nat => Z.of_nat (size m)) 0 (connections p) <? MaxSize (config p)).

(** [make(chan *pooledConn, 1)] of [waitForConnection]. *)
Definition waitForConnection (start : Z) : act outcome :=
  ch ← read next;
  _ ← modify (set_next S);
  _ ← modify (set_chans (<[ch := {| buffer := None; ch_closed := false |}]>));
  mret (Goto (AcqQueue start ch)).

(** [tryCreateNewConnection]: its check, and what follows when there was room; without room the acquirer waits. *)
Definition tryCreateNewConnection (start : Z) : act outcome :=
  ok ← canCreateNewConnection;
  if (ok : bool) then mret (Goto (AcqCreate start)) else waitForConnection start.
Definition create_checked (e : env) (start : Z) : act outcome :=
  createConnection e (fun l => Count CActive 1 (AcqDone start (Ok l))) (fun err => AcqDone start (Err (FactoryErr err))).

(** The selects of a waiter; blocked when the chosen case is not ready. *)
Definition QueueRequest (e : env) (start : Z) (ch : nat) : act outcome :=
  match ready e with
  | CtxDone => mret (Goto (AcqDone start (Err CtxErr)))
  | TimedOut => mret (Goto (AcqDone start (Err ErrConnTimeout)))
  | Proceed =>
      wc ← read waiters_closed;
      if (wc : bool) then M_fail SendOnClosed
      else
        room ← read (fun p => zlen (waiters p) <? MaxSize (config p));
        if (room : bool) then _ ← modify (set_waiters (fun w => w ++ [ch])); mret (Goto (AcqWait start ch))
        else mret Blocked
  end.

Definition handleReceivedConnection (start : Z) (conn : option nat) : thread :=
  match conn with
  | None => AcqDone start (Err ErrPoolClosed)
  | Some l => Touch l (Count CActive 1 (AcqDone start (Ok l)))
  end.

Definition WaitForConnection (e : env) (start : Z) (ch : nat) : act outcome :=
  match ready e with
  | CtxDone => mret (Goto (AcqDone start (Err CtxErr)))
  | TimedOut => mret (Goto (AcqDone start (Err ErrConnTimeout)))
  | Proceed =>
      c ← read (fun p => chans p !! ch);
      match c with
      | Some (mkChan (Some l) cl) =>
          _ ← modify (set_chans (<[ch := mkChan None cl]>)); mret (Goto (handleReceivedConnection start (Some l)))
      | Some (mkChan None true) => mret (Goto (handleReceivedConnection start None))
      | _ => mret Blocked
      end
  end.

(** ** Releasing *)

(** The entry of [Release]: a closed pool only closes the connection, a connection that
    is not of this pool is an error; otherwise the release goes on. *)
Definition release_entry (conn : option nat) (p : Pool) : thread :=
  if closed p then match conn with Some l => ConnClose l (Ret Finished false) | None => Ret Finished false end
  else match conn with
       | None => Ret (Failed ErrInvalidConn) false
       | Some l => Count CActive (-1) (RelValid l)
       end.

Definition rel_valid (e : env) (l : nat) : act outcome :=
  ok ← isValidConnection e l;
  mret (Goto (if (ok : bool) then RelWaiter l else Remove l (Ret Finished false))).

(** The select that takes a waiter.  A closed and empty [waiters] yields a nil channel, on which the send blocks. *)
Definition take_waiter (l : nat) : act outcome :=
  w ← read waiters;
  match w with
  | ch :: _ => _ ← modify (set_waiters tail); mret (Goto (RelGive l ch))
  | [] =>
      wc ← read waiters_closed;
      if (wc : bool) then M_fail BlocksForever else mret (Goto (RelIdle l))
  end.

Definition give_to_waiter (l ch : nat) : act outcome :=
  c ← read (fun p => chans p !! ch);
  match c with
  | Some (mkChan None false) => _ ← modify (set_chans (<[ch := mkChan (Some l) false]>)); mret (Goto (Ret Finished false))
  | Some (mkChan _ true) => M_fail SendOnClosed
  | _ => mret Blocked
  end.

(** [p.idle <- pc] in a select: whether there was room. *)
Definition push_idle (l : nat) : act bool :=
  ic ← read idle_closed;
  if (ic : bool) then M_fail SendOnClosed
  else
    room ← read (fun p => zlen (idle p) <? MaxSize (config p));
    if (room : bool) then _ ← modify (set_idle (fun q => q ++ [l])); mret true else mret false.

(** The select of [Release], [maintain] and the health check: the connection becomes idle, which is counted, or is removed. *)
Definition push_or_remove (l : nat) (k : thread) : act outcome :=
  ok ← push_idle l;
  mret (Goto (if (ok : bool) then Count CIdle 1 k else Remove l k)).
Definition rel_idle (l : nat) : act outcome := push_or_remove l (Ret Finished false).

(** ** Starting and maintaining *)

(** [initializeMinimumConnections]: the send on [idle] blocks while it is full. *)
Definition init_create (e : env) (n : nat) : act outcome :=
  match n with
  | O => mret (Goto (Ret Finished false))
  | S n => createConnection e (fun l => InitPush l n) (fun _ => InitCreate n)
  end.
Definition init_push (l n : nat) : act outcome :=
  ok ← push_idle l; mret (if (ok : bool) then Goto (Count CIdle 1 (InitCreate n)) else Blocked).

(** [maintain]. *)
Definition maint_read (wg : bool) : act outcome :=
  n ← read (fun p => MinSize (config p) - from_option (fun m : gmap string nat => Z.of_nat (size m)) 0 (connections p));
  mret (Goto (if n <=? 0 then Ret Finished false else MaintCreate wg (Z.to_nat n))).
Definition maint_create (e : env) (wg : bool) (n : nat) : act outcome :=
  match n with
  | O => mret (Goto (Ret Finished false))
  | S n => createConnection e (fun l => MaintPush wg l n) (fun _ => MaintCreate wg n)
  end.
Definition maint_push (wg : bool) (l n : nat) : act outcome := push_or_remove l (MaintCreate wg n).

(** [checkHealth]: [collectIdleConnections], then [processHealthCheckedConnections]
    and [finalizeHealthCheck].  On a closed [idle] the first loop never ends. *)
Definition collectIdleConnections (got : list nat) : act outcome :=
  q ← read idle;
  match q with
  | l :: _ => _ ← modify (set_idle tail); mret (Goto (HealthCollect (got ++ [l])))
  | [] =>
      ic ← read idle_closed;
      if (ic : bool) then M_fail BlocksForever else mret (Goto (Count CIdle (- zlen got) (HealthProcess got 0)))
  end.

Definition processHealthCheckedConnections (e : env) (todo : list nat) (removed : Z) : act outcome :=
  match todo with
  | [] => mret (Goto (Ret Finished (0 <? removed)))
  | l :: todo =>
      ok ← isValidConnection e l;
      mret (Goto (if (ok : bool) then HealthReturn l todo removed else Remove l (HealthProcess todo (removed + 1))))
  end.

(** With the pool closing either ready case may be taken. *)
Definition returnValidConnection (e : env) (l : nat) (todo : list nat) (removed : Z) : act outcome :=
  cl ← read closeCh;
  ok ← (if (cl : bool) && negb (match ready e with Proceed => true | _ => false end) then mret false else push_idle l : act bool);
  mret (Goto (if (ok : bool) then Count CIdle 1 (HealthProcess todo removed) else Remove l (HealthProcess todo (removed + 1)))).

(** ** Closing

    After the flag and [closeCh] the workers end; the channels are closed and drained, then every connection of
    the map is closed. *)
Definition close_closeCh : act outcome :=
  _ ← modify set_closeCh; mret (Goto CloseWait).
Definition close_waiters : act outcome :=
  _ ← modify set_waiters_closed; mret (Goto DrainWaiters).
Definition drain_waiters : act outcome :=
  w ← read waiters;
  match w with
  | ch :: _ =>
      _ ← modify (set_waiters tail);
      _ ← modify (set_chans (alter (fun c => mkChan (buffer c) true) ch));
      mret (Goto DrainWaiters)
  | [] => mret (Goto CloseIdle)
  end.
Definition close_idle : act outcome :=
  _ ← modify set_idle_closed; mret (Goto DrainIdle).
Definition drain_idle : act outcome :=
  q ← read idle;
  match q with
  | l :: _ => _ ← modify (set_idle tail); mret (Goto (ConnClose l DrainIdle))
  | [] => mret (Goto CloseAll)
  end.
Definition close_all : act outcome :=
  m ← read connections;
  _ ← modify (set_closes (app (from_option (fun m : gmap string nat => (map_to_list m).*2) [] m)));
  _ ← modify (set_connections (fun _ => None));
  mret (Goto (Ret Finished false)).

Definition thread_step (e : env) (t : thread) : act outcome :=
  match t with
  | Count c d k => add_to c d k
  | Touch l k => touch e l k
  | Remove l k => removeConnection l k
  | ConnClose l k => conn_Close l k
  | Ret ev spawn => mret (Return ev spawn)
  | InitCreate n => init_create e n
  | InitPush l n => init_push l n
  | AcqIdle st => tryGetIdleConnection st
  | AcqValid st l => check_idle e st l
  | AcqCheck st => tryCreateNewConnection st
  | AcqCreate st => create_checked e st
  | AcqQueue st ch => QueueRequest e st ch
  | AcqWait st ch => WaitForConnection e st ch
  | AcqDone st r => acq_done e st r
  | RelValid l => rel_valid e l
  | RelWaiter l => take_waiter l
  | RelGive l ch => give_to_waiter l ch
  | RelIdle l => rel_idle l
  | MaintRead wg => maint_read wg
  | MaintCreate wg n => maint_create e wg n
  | MaintPush wg l n => maint_push wg l n
  | HealthCollect got => collectIdleConnections got
  | HealthProcess todo removed => processHealthCheckedConnections e todo removed
  | HealthReturn l todo removed => returnValidConnection e l todo removed
  | CloseCh => close_closeCh
  | CloseWait => mret (Goto CloseWaiters)
  | CloseWaiters => close_waiters
  | DrainWaiters => drain_waiters
  | CloseIdle => close_idle
  | DrainIdle => drain_idle
  | CloseAll => close_all
  end.

(** ** The system: the pool, its threads, and the connections clients hold *)

Record sys := mkSys {
  pool : Pool;
  threads : gmap nat thread;
  held : list nat;
  workers_done : bool;
  crashed : option abort;
}.

(** Background goroutines that [wg.Wait] waits for. *)
Fixpoint in_wg (t : thread) : bool :=
  match t with
  | Count _ _ k | Touch _ k | Remove _ k | ConnClose _ k => in_wg k
  | MaintRead wg | MaintCreate wg _ | MaintPush wg _ _ => wg
  | HealthCollect _ | HealthProcess _ _ | HealthReturn _ _ _ => true
  | _ => false
  end.

Definition no_workers (m : gmap nat thread) : bool := forallb (fun kt => negb (in_wg (snd kt))) (map_to_list m).

Inductive label :=
| LAcquire (t : nat) (e : env)          (* Acquire is called *)
| LRelease (t : nat) (l : nat)          (* Release is called on a held connection *)
| LMaintain (t : nat) | LHealth (t : nat)   (* a ticker fires *)
| LClose (t : nat)
| LStep (t t' : nat) (e : env).         (* the next action of t; t' names a spawned thread *)

Definition free_id (t : nat) (s : sys) : bool := bool_decide (threads s !! t = None).

Definition with_thread (t : nat) (th : thread) (s : sys) : sys :=
  {| pool := pool s; threads := <[t := th]> (threads s); held := held s; workers_done := workers_done s;
     crashed := crashed s |}.
Definition with_pool (p : Pool) (s : sys) : sys :=
  {| pool := p; threads := threads s; held := held s; workers_done := workers_done s; crashed := crashed s |}.

Definition finish (t t' : nat) (p : Pool) (ev : event) (spawn : bool) (s : sys) : option sys :=
  let threads' := delete t (threads s) in
  let held' := match ev with Acquired l => l :: held s | _ => held s end in
  if spawn then
    if bool_decide (threads s !! t' = None) then
      Some {| pool := p; threads := <[t' := MaintRead false]> threads'; held := held';
              workers_done := workers_done s; crashed := crashed s |}
    else None
  else Some {| pool := p; threads := threads'; held := held'; workers_done := workers_done s; crashed := crashed s |}.

Fixpoint remove_one (l : nat) (k : list nat) : list nat :=
  match k with [] => [] | x :: k => if Nat.eqb x l then k else x :: remove_one l k end.

Definition run_thread (t t' : nat) (e : env) (th : thread) (s : sys) : option sys :=
  match thread_step e th (pool s) with
  | (Err BlocksForever, _) => None
  | (Err a, p) => Some {| pool := p; threads := threads s; held := held s; workers_done := workers_done s; crashed := Some a |}
  | (Ok Blocked, _) => None
  | (Ok (Goto th'), p) => Some (with_thread t th' (with_pool p s))
  | (Ok (Return ev spawn), p) => finish t t' p ev spawn s
  end.

Definition step (lb : label) (s : sys) : option sys :=
  match crashed s with
  | Some _ => None
  | None =>
  match lb with
  | LAcquire t e =>
      if free_id t s then
        match validatePool (pool s) with
        | Some _ => Some s
        | None => Some (with_thread t (recordWaitStart (AcqIdle (now1 e))) s)
        end
      else None
  | LRelease t l =>
      if free_id t s && bool_decide (l ∈ held s) then
        Some (with_thread t (release_entry (Some l) (pool s))
          {| pool := pool s; threads := threads s; held := remove_one l (held s);
             workers_done := workers_done s; crashed := None |})
      else None
  | LMaintain t => if free_id t s && negb (workers_done s) then Some (with_thread t (MaintRead true) s) else None
  | LHealth t =>
      if free_id t s && negb (workers_done s) then
        if closeCh (pool s) then Some s else Some (with_thread t (HealthCollect []) s)
      else None
  | LClose t =>
      if free_id t s then
        if closed (pool s) then Some s else Some (with_thread t CloseCh (with_pool (set_closed (pool s)) s))
      else None
  | LStep t t' e =>
      match threads s !! t with
      | None => None
      | Some CloseWait =>
          if no_workers (threads s) then
            Some {| pool := pool s; threads := <[t := CloseWaiters]> (threads s); held := held s;
                    workers_done := true; crashed := None |}
          else None
      | Some th => run_thread t t' e th s
      end
  end
  end.

(** A pool as [NewPool] starts it: the caller's goroutine creates the minimum
    connections while the background workers may already run. *)
Definition NewPool (c : Config) : sys :=
  let c := validateAndNormalizePoolConfig c in
  {| pool := createPoolStruct c; threads := {[0%nat := InitCreate (Z.to_nat (MinSize c))]}; held := [];
     workers_done := false; crashed := None |}.

Fixpoint run (lbs : list label) (s : sys) : option sys :=
  match lbs with
  | [] => Some s
  | lb :: lbs => s' ← step lb s; run lbs s'
  end.


(** ** Ownership

    Where a connection is: nowhere (closed or not yet created), in the idle channel, in
    a waiter's channel, with a client, in the hands of a thread, or closed by a client
    that released it after [Close]. *)

Inductive place := Nowhere | InIdle | InChan (ch : nat) | WithClient | WithThread (t : nat) | Retired.
#[export] Instance place_eq_dec : EqDecision place.
Proof. solve_decision. Defined.

Implicit Types (own : nat -> place).

(** The pool agrees with [own], and the map holds exactly the connections that are somewhere. *)
Record pool_inv own (p : Pool) : Prop := {
  pi_fresh : forall l, (next p <= l)%nat -> own l = Nowhere /\ chans p !! l = None;
  pi_idle_nodup : NoDup (idle p);
  pi_idle : forall l, l ∈ idle p -> own l = InIdle;
  pi_idle_all : idle_closed p = false -> forall l, own l = InIdle -> l ∈ idle p;
  pi_chan : forall ch l, own l = InChan ch <-> exists c, chans p !! ch = Some c /\ buffer c = Some l;
  pi_retired : forall l, own l = Retired -> closed p = true;
  pi_heap : forall l, own l <> Nowhere -> is_Some (conns p !! l);
  pi_map : forall m, connections p = Some m ->
    (forall l pc, own l <> Nowhere -> conns p !! l = Some pc -> m !! id pc = Some l) /\
    (forall i l, m !! i = Some l -> own l <> Nowhere /\ exists pc, conns p !! l = Some pc /\ id pc = i);
}.

(** Thread [t] has exactly the connections [hs] in its hands. *)
Definition in_hands own (t : nat) (hs : list nat) : Prop :=
  NoDup hs /\ forall l, l ∈ hs <-> own l = WithThread t.

(** A thread moves only what it has, what is in the pool, and what is nowhere. *)
Definition others own own' (t : nat) : Prop :=
  forall l, (own l = WithClient <-> own' l = WithClient) /\
            (forall t', t' <> t -> own l = WithThread t' <-> own' l = WithThread t').

Lemma others_refl own t : others own own t.
Proof. done. Qed.

Lemma others_trans own1 own2 own3 t : others own1 own2 t -> others own2 own3 t -> others own1 own3 t.
Proof.
  intros H1 H2 l. destruct (H1 l) as [A1 B1], (H2 l) as [A2 B2]. split; [by rewrite A1|].
  intros t' Ht. by rewrite (B1 t' Ht), (B2 t' Ht).
Qed.

(** A triple: from a pool satisfying [P] with [hs] in hand, the action leaves [Q a] in
    hand when it returns [a]. *)
Definition spec (P : Pool -> Prop) (t : nat) (hs : list nat) {A} (m : act A) (Q : A -> list nat) : Prop :=
  forall own p, P p -> pool_inv own p -> in_hands own t hs ->
    match m p with
    | (Ok a, p') => exists own', pool_inv own' p' /\ others own own' t /\ in_hands own' t (Q a)
    | (Err _, _) => True
    end.

Notation any := (fun _ : Pool => True).

Lemma spec_ret t hs {A} (a : A) : spec any t hs (mret a) (fun _ => hs).
Proof. intros own p _ Hp Hh. exists own. auto using others_refl. Qed.

Lemma spec_fail P t hs {A} a (Q : A -> list nat) : spec P t hs (M_fail a) Q.
Proof. done. Qed.

Lemma spec_bind P t hs {A B} (m : act A) (f : A -> act B) Q R :
  spec P t hs m Q -> (forall a, spec any t (Q a) (f a) R) -> spec P t hs (m ≫= f) R.
Proof.
  intros Hm Hf own p HP Hp Hh. specialize (Hm own p HP Hp Hh). unfold mbind, M_bind.
  destruct (m p) as [[a|e] p']; [|done]. destruct Hm as (own' & Hp' & Ho & Hh').
  specialize (Hf a own' p' I Hp' Hh'). destruct (f a p') as [[b|e] p'']; [|done].
  destruct Hf as (own'' & ? & ? & ?). exists own''. eauto using others_trans.
Qed.

Lemma spec_weaken P t hs {A} (m : act A) Q : spec any t hs m Q -> spec P t hs m Q.
Proof. intros H own p _. by apply H. Qed.

Lemma spec_post P t hs {A} (m : act A) Q Q' :
  spec P t hs m Q -> (forall a, Q a = Q' a) -> spec P t hs m Q'.
Proof.
  intros H HQ own p HP Hp Hh. specialize (H own p HP Hp Hh).
  destruct (m p) as [[a|e] p']; [|done]. by rewrite <- HQ.
Qed.

(** Reading, and updates of what ownership does not depend on. *)
Lemma spec_read t hs {A} (f : Pool -> A) : spec any t hs (read f) (fun _ => hs).
Proof. intros own p _ Hp Hh. exists own. auto using others_refl. Qed.

Definition neutral (f : Pool -> Pool) : Prop :=
  forall p, next (f p) = next p /\ idle (f p) = idle p /\ idle_closed (f p) = idle_closed p /\
    chans (f p) = chans p /\ connections (f p) = connections p /\ (closed p = true -> closed (f p) = true) /\
    (forall l, id <$> conns (f p) !! l = id <$> conns p !! l).

Lemma pool_inv_neutral own p f : neutral f -> pool_inv own p -> pool_inv own (f p).
Proof.
  intros Hf Hp. destruct (Hf p) as (H1 & H2 & H3 & H4 & H5 & H0 & H6).
  assert (forall l pc, conns (f p) !! l = Some pc -> exists pc', conns p !! l = Some pc' /\ id pc' = id pc) as K.
  { intros l pc Hl. specialize (H6 l). rewrite Hl in H6. destruct (conns p !! l) as [pc'|]; naive_solver. }
  assert (forall l pc, conns p !! l = Some pc -> exists pc', conns (f p) !! l = Some pc' /\ id pc' = id pc) as K'.
  { intros l pc Hl. specialize (H6 l). rewrite Hl in H6. destruct (conns (f p) !! l) as [pc'|]; naive_solver. }
  destruct Hp. constructor; rewrite ?H1, ?H2, ?H3, ?H4, ?H5; try done.
  - eauto.
  - intros l Hl. destruct (pi_heap0 l Hl) as [pc Hpc]. destruct (K' _ _ Hpc) as (pc' & ? & _). by exists pc'.
  - intros m Hm. destruct (pi_map0 m Hm) as (M1 & M2). split.
    + intros l pc Hl Hc. destruct (K _ _ Hc) as (pc' & Hc' & <-). eauto.
    + intros i l Hi. destruct (M2 i l Hi) as (? & pc & Hc & <-). split; [done|].
      destruct (K' _ _ Hc) as (pc' & ? & ?). eauto.
Qed.

Lemma spec_modify t hs f : neutral f -> spec any t hs (modify f) (fun _ => hs).
Proof. intros Hf own p _ Hp Hh. cbn. exists own. auto using others_refl, pool_inv_neutral. Qed.

Ltac neutral_tac :=
  intros ?; cbn; split_and!; try done; intros ?; try done;
  rewrite lookup_alter; (case_decide; [|done]); simplify_eq; by destruct (_ !! _).

Lemma neutral_stats f : neutral (set_stats f).
Proof. neutral_tac. Qed.

Lemma neutral_touch now l : neutral (set_conns (alter (touched now) l)).
Proof. neutral_tac. Qed.

Lemma neutral_closes f : neutral (set_closes f).
Proof. neutral_tac. Qed.

Lemma neutral_waiters f : neutral (set_waiters f).
Proof. neutral_tac. Qed.

Lemma neutral_closeCh : neutral set_closeCh.
Proof. neutral_tac. Qed.

Lemma neutral_closed : neutral set_closed.
Proof. neutral_tac. Qed.

Lemma neutral_waiters_closed : neutral set_waiters_closed.
Proof. neutral_tac. Qed.

#[local] Hint Resolve neutral_stats neutral_touch neutral_closes neutral_waiters neutral_closeCh neutral_waiters_closed
  spec_ret spec_read spec_fail : mcp.

(** Moving one connection. *)
Definition move own (l : nat) (pl : place) : nat -> place := fun x => if decide (x = l) then pl else own x.

(** Places a thread may take from and put to. *)
Definition local_to (t : nat) (pl : place) : Prop := pl <> WithClient /\ forall t', t' <> t -> pl <> WithThread t'.

Lemma others_move own l pl t : local_to t (own l) -> local_to t pl -> others own (move own l pl) t.
Proof.
  intros [H1 H2] [H3 H4] x. unfold move. case_decide as E; [subst x|done].
  split; [naive_solver|]. intros t' Ht. specialize (H2 t' Ht). specialize (H4 t' Ht). naive_solver.
Qed.

Lemma in_hands_take own t hs l :
  in_hands own t hs -> own l <> WithThread t -> in_hands (move own l (WithThread t)) t (l :: hs).
Proof.
  intros [Hn Hh] Hl. split.
  - apply NoDup_cons. split; [|done]. by rewrite Hh.
  - intros x. rewrite elem_of_cons. unfold move. case_decide; [subst; naive_solver|]. rewrite Hh. naive_solver.
Qed.

Lemma in_hands_drop own t hs l pl :
  in_hands own t (l :: hs) -> pl <> WithThread t -> in_hands (move own l pl) t hs.
Proof.
  intros [[Hl Hn]%NoDup_cons Hh] Hpl. split; [done|].
  intros x. unfold move. case_decide; [subst; naive_solver|]. rewrite <- Hh, elem_of_cons. naive_solver.
Qed.

Lemma in_hands_head own t hs l : in_hands own t (l :: hs) -> own l = WithThread t.
Proof. intros [_ H]. apply H. left. Qed.

Lemma local_thread t : local_to t (WithThread t).
Proof. split; [done|]. intros t' Ht [= ->]. done. Qed.
Lemma local_idle t : local_to t InIdle.
Proof. done. Qed.
Lemma local_chan t ch : local_to t (InChan ch).
Proof. done. Qed.
Lemma local_nowhere t : local_to t Nowhere.
Proof. done. Qed.
#[local] Hint Resolve local_thread local_idle local_chan local_nowhere : mcp.

(** Moving a connection between places leaves the map alone, as long as it is
    somewhere before and after. *)
Lemma map_move own p l pl m :
  own l <> Nowhere -> pl <> Nowhere -> pool_inv own p -> connections p = Some m ->
  (forall x pc, move own l pl x <> Nowhere -> conns p !! x = Some pc -> m !! id pc = Some x) /\
  (forall i x, m !! i = Some x -> move own l pl x <> Nowhere /\ exists pc, conns p !! x = Some pc /\ id pc = i).
Proof.
  intros Hl Hpl Hp Hm. destruct (pi_map _ _ Hp m Hm) as (M1 & M2). unfold move. split.
  - intros x pc Hx Hc. apply M1; [|done]. case_decide; congruence.
  - intros i x Hi. destruct (M2 i x Hi) as [? ?]. split; [|done]. by case_decide.
Qed.

(** Moving a connection that is in no queue or channel to a client or a thread. *)
Lemma pool_inv_move own p l pl :
  pool_inv own p -> own l <> Nowhere -> own l <> InIdle -> (forall ch, own l <> InChan ch) ->
  pl <> Nowhere -> pl <> InIdle -> (forall ch, pl <> InChan ch) -> pl <> Retired -> pool_inv (move own l pl) p.
Proof.
  intros Hp H1 H2 H3 P1 P2 P3 P4. pose proof Hp as [F N I1 I2 C Hret Hheap Hmap]. constructor; cbn; try done.
  - intros x Hx. destruct (F x Hx) as [Fx ?]. split; [|done]. unfold move. case_decide; congruence.
  - intros x Hx. unfold move. case_decide; [subst; by destruct H2; apply I1|by apply I1].
  - intros Hc x. unfold move. case_decide; [done|]. by apply I2.
  - intros ch x. rewrite <- C. unfold move. case_decide; [subst; specialize (P3 ch); specialize (H3 ch); split; congruence|done].
  - intros x. unfold move. case_decide; [done|apply Hret].
  - intros x Hx. apply Hheap. unfold move in Hx. case_decide; congruence.
  - intros m Hm. by apply (map_move own p l pl m).
Qed.

Lemma spec_pop t hs {B} (k : nat -> act B) (k' : act B) R :
  (forall l, spec any t (l :: hs) (k l) R) -> spec any t hs k' R ->
  spec any t hs (q ← read idle;
                 match q with l :: _ => _ ← modify (set_idle tail); k l | [] => k' end) R.
Proof.
  intros Hk Hk' own p _ Hp Hh. unfold mbind, M_bind, read.
  destruct (idle p) as [|l q] eqn:Eq; [by apply Hk'|]. cbn.
  pose proof (pi_idle_nodup _ _ Hp) as Hnd. rewrite Eq in Hnd. apply NoDup_cons in Hnd as [Hlq Hnd].
  assert (own l = InIdle) as Hl by (apply (pi_idle _ _ Hp); rewrite Eq; left).
  assert (others own (move own l (WithThread t)) t) as Ho
    by (apply others_move; [rewrite Hl|]; auto with mcp).
  specialize (Hk l (move own l (WithThread t)) (set_idle tail p) I).
  destruct (k l (set_idle tail p)) as [[b|e] p'']; [|done].
  destruct Hk as (own' & ? & ? & ?).
  - pose proof Hp as [F N I1 I2 C Hret Hheap Hmap]. constructor; cbn; rewrite ?Eq.
    + intros x Hx. destruct (F x Hx) as [Fx ?]. split; [|done]. unfold move. case_decide; congruence.
    + done.
    + intros x Hx. unfold move. case_decide; [subst; done|]. apply I1. rewrite Eq. by right.
    + intros Hc x. unfold move. case_decide; [done|]. intros Hx. specialize (I2 Hc x Hx). rewrite Eq in I2. set_solver.
    + intros ch x. rewrite <- C. unfold move. case_decide; [subst; split; congruence|done].
    + intros x. unfold move. case_decide; [done|apply Hret].
    + intros x Hx. apply Hheap. unfold move in Hx. case_decide; congruence.
    + intros m Hm. apply (map_move own p l (WithThread t) m); [congruence|done|exact Hp|exact Hm].
  - apply in_hands_take; [done|congruence].
  - exists own'. eauto using others_trans.
Qed.

Lemma spec_push t hs l : spec any t (l :: hs) (push_idle l) (fun b => if b then hs else l :: hs).
Proof.
  intros own p _ Hp Hh. unfold push_idle, mbind, M_bind, read, mret, M_ret, modify, M_fail. cbn.
  destruct (idle_closed p) eqn:Ec; [done|]. destruct (_ <? _) eqn:Er; [|exists own; auto using others_refl].
  pose proof (in_hands_head _ _ _ _ Hh) as Hl.
  exists (move own l InIdle). split_and!.
  - pose proof Hp as [F N I1 I2 C Hret Hheap Hmap]. constructor; cbn.
    + intros x Hx. destruct (F x Hx) as [Fx ?]. split; [|done]. unfold move. case_decide; congruence.
    + apply NoDup_app. split_and!; [done| |apply NoDup_singleton].
      intros x Hx ->%list_elem_of_singleton. apply I1 in Hx. congruence.
    + intros x [Hx| ->%list_elem_of_singleton]%elem_of_app; unfold move; case_decide; try done. by apply I1.
    + intros Hc x. unfold move. rewrite elem_of_app, list_elem_of_singleton. case_decide; [by right|]. left. by apply I2.
    + intros ch x. rewrite <- C. unfold move. case_decide; [subst; split; congruence|done].
    + intros x. unfold move. case_decide; [done|apply Hret].
    + intros x Hx. apply Hheap. unfold move in Hx. case_decide; congruence.
    + intros m Hm. apply (map_move own p l InIdle m); [congruence|done|exact Hp|exact Hm].
  - apply others_move; [rewrite Hl|]; auto with mcp.
  - by apply in_hands_drop.
Qed.

(** What a thread has in its hands, before and after its next action. *)
Fixpoint in_hand (th : thread) : list nat :=
  match th with
  | Count _ _ k | Touch _ k | ConnClose _ k => in_hand k
  | Remove l k => l :: in_hand k
  | Ret (Acquired l) _ | AcqDone _ (Ok l) => [l]
  | InitPush l _ | AcqValid _ l | RelValid l | RelWaiter l | RelGive l _ | RelIdle l | MaintPush _ l _ => [l]
  | HealthCollect ls | HealthProcess ls _ => ls
  | HealthReturn l ls _ => l :: ls
  | _ => []
  end.

Definition after (th : thread) (o : outcome) : list nat :=
  match o with
  | Blocked => in_hand th
  | Goto th' => in_hand th'
  | Return (Acquired l) _ => [l]
  | Return _ _ => []
  end.

Lemma spec_remove t l k : spec any t (l :: in_hand k) (removeConnection l k) (after (Remove l k)).
Proof.
  intros own p _ Hp Hh. pose proof (in_hands_head _ _ _ _ Hh) as Hl.
  pose proof Hp as [F N I1 I2 C Hret Hheap Hmap].
  unfold removeConnection, mbind, M_bind, deref, modify, mret, M_ret.
  destruct (Hheap l ltac:(congruence)) as [pc Hpc]. rewrite Hpc. cbn.
  exists (move own l Nowhere). split_and!.
  - constructor; cbn; try done.
    + intros x Hx. destruct (F x Hx) as [Fx ?]. split; [|done]. unfold move. by case_decide.
    + intros x Hx. unfold move. case_decide; [subst; apply I1 in Hx; congruence|by apply I1].
    + intros Hc x. unfold move. case_decide; [done|]. by apply I2.
    + intros ch x. rewrite <- C. unfold move. case_decide; [subst; split; congruence|done].
    + intros x. unfold move. case_decide; [done|apply Hret].
    + intros x Hx. apply Hheap. unfold move in Hx. case_decide; congruence.
    + intros m' Hm'. destruct (connections p) as [m|] eqn:Em; [|done]. injection Hm' as <-.
      destruct (Hmap m eq_refl) as (M1 & M2).
      pose proof (M1 l pc ltac:(congruence) Hpc) as Hml. unfold move. split.
      * intros x pc' Hx Hc. case_decide; [done|]. pose proof (M1 x pc' Hx Hc) as Hmx.
        rewrite lookup_delete_ne; [done|]. intros E. rewrite E in Hml. congruence.
      * intros i x Hi. apply lookup_delete_Some in Hi as [Hne Hi]. destruct (M2 i x Hi) as [Hx (pc' & Hc & Hid)].
        split; [|eauto]. case_decide; [|done]. subst x. congruence.
  - apply others_move; [rewrite Hl|]; auto with mcp.
  - by apply in_hands_drop.
Qed.

(** The factory's identifiers are UUIDs: never one that is in the map. *)
Definition fresh_for (e : env) (p : Pool) : Prop :=
  match factory e, connections p with Ok i, Some m => m !! i = None | _, _ => True end.

Lemma spec_create e t hs ok failed th :
  (forall l, in_hand (ok l) = l :: hs) -> (forall err, in_hand (failed err) = hs) ->
  spec (fresh_for e) t hs (createConnection e ok failed) (after th).
Proof.
  intros Hok Hfail own p Hfresh Hp Hh. unfold fresh_for in Hfresh. unfold createConnection.
  destruct (factory e) as [cid|err]; [|cbn; rewrite Hfail; exists own; auto using others_refl].
  pose proof Hp as [F N I1 I2 C Hret Hheap Hmap].
  unfold mbind, M_bind, read, modify, mret, M_ret. cbn. destruct (connections p) as [m|] eqn:Em; [|done]. cbn. rewrite Hok.
  destruct (F (next p) ltac:(lia)) as [Fn Fc].
  exists (move own (next p) (WithThread t)). split_and!.
  - constructor; cbn; try done.
    + intros x Hx. destruct (F x ltac:(lia)) as [Fx ?]. split; [|done]. unfold move. case_decide; [lia|done].
    + intros x Hx. unfold move. case_decide; [subst; apply I1 in Hx; congruence|by apply I1].
    + intros Hc x. unfold move. case_decide; [done|]. by apply I2.
    + intros ch x. rewrite <- C. unfold move. case_decide; [subst; split; congruence|done].
    + intros x. unfold move. case_decide; [done|apply Hret].
    + intros x Hx. destruct (decide (next p = x)) as [<-|]; [rewrite lookup_insert_eq; eauto|].
      rewrite lookup_insert_ne by done. apply Hheap. unfold move in Hx. case_decide; congruence.
    + intros m' Hm'. rewrite Em in Hm'. injection Hm' as <-. destruct (Hmap m eq_refl) as (M1 & M2).
      unfold move. split.
      * intros x pc' Hx Hc. destruct (decide (next p = x)) as [<-|Hne].
        -- rewrite lookup_insert_eq in Hc. injection Hc as <-. cbn. apply lookup_insert_eq.
        -- rewrite lookup_insert_ne in Hc by done. rewrite decide_False in Hx by done.
           specialize (M1 x pc' Hx Hc). rewrite lookup_insert_ne; congruence.
      * intros i x Hi. destruct (decide (cid = i)) as [<-|Hne].
        -- rewrite lookup_insert_eq in Hi. injection Hi as <-. rewrite decide_True by done. split; [done|].
           eexists. rewrite lookup_insert_eq. done.
        -- rewrite lookup_insert_ne in Hi by done. destruct (M2 i x Hi) as [Hx (pc' & Hc & Hid)].
           assert (x <> next p) by congruence. rewrite decide_False by done. split; [done|].
           exists pc'. rewrite lookup_insert_ne; done.
  - apply others_move; [rewrite Fn|]; auto with mcp.
  - apply in_hands_take; [done|congruence].
Qed.

Lemma spec_new_waiter t st : spec any t [] (waitForConnection st) (after (AcqCheck st)).
Proof.
  intros own p _ Hp Hh. pose proof Hp as [F N I1 I2 C Hret Hheap Hmap].
  unfold waitForConnection, mbind, M_bind, read, modify, mret, M_ret. cbn. destruct (F (next p) ltac:(lia)) as [Fn Fc].
  exists own. split_and!; [|auto using others_refl..]. constructor; cbn; try done.
  - intros x Hx. destruct (F x ltac:(lia)). split; [done|]. by rewrite lookup_insert_ne by lia.
  - intros ch x. rewrite C. split; intros (c & Hc & Hb); exists c; rewrite lookup_insert in *; case_decide; naive_solver.
Qed.

Lemma spec_give t l ch : spec any t [l] (give_to_waiter l ch) (after (RelGive l ch)).
Proof.
  intros own p _ Hp Hh. pose proof (in_hands_head _ _ _ _ Hh) as Hl.
  pose proof Hp as [F N I1 I2 C Hret Hheap Hmap].
  unfold give_to_waiter, mbind, M_bind, read, modify, mret, M_ret, M_fail. cbn.
  destruct (chans p !! ch) as [[[b|] []]|] eqn:Ech; try done; try (cbn; exists own; by auto using others_refl).
  exists (move own l (InChan ch)). split_and!.
  - constructor; cbn; try done.
    + intros x Hx. destruct (F x Hx) as [Fx Fc]. split.
      * unfold move. case_decide; congruence.
      * rewrite lookup_insert_ne; [done|]. congruence.
    + intros x Hx. unfold move. case_decide; [subst; apply I1 in Hx; congruence|by apply I1].
    + intros Hc x. unfold move. case_decide; [done|]. by apply I2.
    + intros ch' x. unfold move. rewrite lookup_insert. case_decide as Ex; case_decide as Ec; subst.
      * split; [eauto|done].
      * split; [congruence|]. intros Hx%C. congruence.
      * rewrite C. split; [intros (c & Hc & Hb)|intros (c & Hc & Hb)]; naive_solver.
      * apply C.
    + intros x. unfold move. case_decide; [done|apply Hret].
    + intros x Hx. apply Hheap. unfold move in Hx. case_decide; congruence.
    + intros m Hm. apply (map_move own p l (InChan ch) m); [congruence|done|exact Hp|exact Hm].
  - apply others_move; [rewrite Hl|]; auto with mcp.
  - by apply in_hands_drop.
Qed.

(** Taking the connection out of a waiter's channel. *)
Lemma spec_take_chan t hs {B} ch l cl (k : act B) R :
  spec any t (l :: hs) k R ->
  spec (fun p => chans p !! ch = Some (mkChan (Some l) cl)) t hs
    (_ ← modify (set_chans (<[ch := mkChan None cl]>)); k) R.
Proof.
  intros Hk own p Hch Hp Hh. pose proof Hp as [F N I1 I2 C Hret Hheap Hmap].
  unfold mbind, M_bind, modify.
  assert (own l = InChan ch) as Hl by (apply C; eauto).
  assert (others own (move own l (WithThread t)) t) as Ho
    by (apply others_move; [rewrite Hl|]; auto with mcp).
  specialize (Hk (move own l (WithThread t)) (set_chans (<[ch:=mkChan None cl]>) p) I).
  destruct (k _) as [[b|e] p'']; [|done].
  destruct Hk as (own' & ? & ? & ?).
  - constructor; cbn; try done.
    + intros x Hx. destruct (F x Hx) as [Fx Fc]. split.
      * unfold move. case_decide; congruence.
      * rewrite lookup_insert_ne; [done|]. congruence.
    + intros x Hx. unfold move. case_decide; [subst; apply I1 in Hx; congruence|by apply I1].
    + intros Hc x. unfold move. case_decide; [done|]. by apply I2.
    + intros ch' x. unfold move. rewrite lookup_insert. case_decide as Ex; case_decide as Ec; subst.
      * naive_solver.
      * split; [congruence|]. intros Hx%C. congruence.
      * rewrite C. naive_solver.
      * apply C.
    + intros x. unfold move. case_decide; [done|apply Hret].
    + intros x Hx. apply Hheap. unfold move in Hx. case_decide; congruence.
    + intros m Hm. apply (map_move own p l (WithThread t) m); [congruence|done|exact Hp|exact Hm].
  - apply in_hands_take; [done|congruence].
  - exists own'. eauto using others_trans.
Qed.

Lemma spec_return t hs {A} (a : A) (Q : A -> list nat) : Q a = hs -> spec any t hs (mret a) Q.
Proof. intros <- own p _ Hp Hh. exists own. auto using others_refl. Qed.

Lemma spec_deref t hs l : spec any t hs (deref l) (fun _ => hs).
Proof. intros own p _ Hp Hh. unfold deref. destruct (conns p !! l); [|done]. exists own. auto using others_refl. Qed.

Lemma spec_isValid e t hs l : spec any t hs (isValidConnection e l) (fun _ => hs).
Proof.
  eapply spec_bind; [apply spec_deref|]. intros pc. eapply spec_bind; [apply spec_read|]. intros c.
  apply spec_ret.
Qed.

Lemma spec_goto th t hs th' : in_hand th' = hs -> spec any t hs (mret (Goto th')) (after th).
Proof. intros <-. by apply spec_return. Qed.

Lemma acquire_spec e t st l ch r :
  spec any t [] (tryGetIdleConnection st) (after (AcqIdle st)) /\
  spec any t [l] (check_idle e st l) (after (AcqValid st l)) /\
  spec any t [] (tryCreateNewConnection st) (after (AcqCheck st)) /\
  spec (fresh_for e) t [] (create_checked e st) (after (AcqCreate st)) /\
  spec any t [] (QueueRequest e st ch) (after (AcqQueue st ch)) /\
  spec any t [] (WaitForConnection e st ch) (after (AcqWait st ch)) /\
  spec any t (in_hand (AcqDone st r)) (acq_done e st r) (after (AcqDone st r)).
Proof.
  split_and!.
  - apply spec_pop; [by intros; apply spec_goto|].
    eapply spec_bind; [apply spec_read|]. intros []; [apply spec_fail|by apply spec_goto].
  - eapply spec_bind; [apply spec_isValid|]. intros []; by apply spec_goto.
  - eapply spec_bind; [apply spec_read|]. intros []; [by apply spec_goto|apply spec_new_waiter].
  - by apply spec_create.
  - unfold QueueRequest. destruct (ready e); try by apply spec_goto.
    eapply spec_bind; [apply spec_read|]. intros []; [apply spec_fail|].
    eapply spec_bind; [apply spec_read|]. intros []; [|by apply spec_return].
    eapply spec_bind; [apply spec_modify, neutral_waiters|]. intros []. by apply spec_goto.
  - unfold WaitForConnection. destruct (ready e); try by apply spec_goto.
    intros own p _ Hp Hh. unfold mbind at 1, M_bind at 1, read at 1.
    destruct (chans p !! ch) as [[[x|] cl]|] eqn:Ech.
    + pose proof (spec_take_chan t [] ch x cl (mret (Goto (handleReceivedConnection st (Some x)))) (after (AcqWait st ch))
        (spec_goto (AcqWait st ch) t [x] (handleReceivedConnection st (Some x)) eq_refl) own p Ech Hp Hh) as K. exact K.
    + destruct cl; cbn; exists own; auto using others_refl.
    + cbn. exists own. auto using others_refl.
  - apply spec_goto. by destruct r.
Qed.

Lemma push_or_remove_spec t l k th : spec any t (l :: in_hand k) (push_or_remove l k) (after th).
Proof. eapply spec_bind; [apply spec_push|]. intros []; by apply spec_goto. Qed.

Lemma release_spec e t l :
  spec any t [l] (rel_valid e l) (after (RelValid l)) /\ spec any t [l] (take_waiter l) (after (RelWaiter l)) /\
  spec any t [l] (rel_idle l) (after (RelIdle l)).
Proof.
  split_and!.
  - eapply spec_bind; [apply spec_isValid|]. intros []; by apply spec_goto.
  - eapply spec_bind; [apply spec_read|]. intros [|ch' w].
    + eapply spec_bind; [apply spec_read|]. intros []; [apply spec_fail|by apply spec_goto].
    + eapply spec_bind; [apply spec_modify, neutral_waiters|]. intros []. by apply spec_goto.
  - apply (push_or_remove_spec t l (Ret Finished false)).
Qed.

Lemma maintain_spec e t n l wg :
  spec (fresh_for e) t [] (init_create e n) (after (InitCreate n)) /\
  spec any t [l] (init_push l n) (after (InitPush l n)) /\
  spec any t [] (maint_read wg) (after (MaintRead wg)) /\
  spec (fresh_for e) t [] (maint_create e wg n) (after (MaintCreate wg n)) /\
  spec any t [l] (maint_push wg l n) (after (MaintPush wg l n)).
Proof.
  split_and!.
  - destruct n as [|n]; [apply spec_weaken; by apply spec_goto|]. by apply spec_create.
  - eapply spec_bind; [apply spec_push|]. intros []; by apply spec_return.
  - eapply spec_bind; [apply spec_read|]. intros k. apply spec_goto. by destruct (k <=? 0).
  - destruct n as [|n]; [apply spec_weaken; by apply spec_goto|]. by apply spec_create.
  - apply (push_or_remove_spec t l (MaintCreate wg n)).
Qed.

Lemma in_hands_perm own t hs hs' : hs ≡ₚ hs' -> in_hands own t hs -> in_hands own t hs'.
Proof. intros Hp [Hn Hh]. split; [by rewrite <- Hp|]. intros l. by rewrite <- Hp. Qed.

Lemma spec_perm P t hs hs' {A} (m : act A) Q : hs ≡ₚ hs' -> spec P t hs m Q -> spec P t hs' m Q.
Proof. intros Hp H own p HP Hi Hh. apply (H own p HP Hi). by apply (in_hands_perm _ _ hs'). Qed.

Lemma health_spec e t got l todo removed :
  spec any t got (collectIdleConnections got) (after (HealthCollect got)) /\
  spec any t todo (processHealthCheckedConnections e todo removed) (after (HealthProcess todo removed)) /\
  spec any t (l :: todo) (returnValidConnection e l todo removed) (after (HealthReturn l todo removed)).
Proof.
  split_and!.
  - apply spec_pop.
    + intros x. apply (spec_perm _ _ (got ++ [x])); [by rewrite Permutation_app_comm|]. by apply spec_goto.
    + eapply spec_bind; [apply spec_read|]. intros []; [apply spec_fail|by apply spec_goto].
  - destruct todo as [|x todo]; [by apply spec_goto|].
    eapply spec_bind; [apply spec_isValid|]. intros []; by apply spec_goto.
  - eapply spec_bind; [apply spec_read|]. intros cl.
    apply (spec_bind _ _ _ _ _ (fun b : bool => if b then todo else l :: todo)); [|intros []; by apply spec_goto].
    destruct (_ && _); [by apply spec_return|apply spec_push].
Qed.

(** A connection that a client gives back after [Close], or that [Close] drains. *)
Lemma pool_inv_retire own p l :
  pool_inv own p -> closed p = true -> own l <> Nowhere -> (forall ch, own l <> InChan ch) -> (own l = InIdle -> l ∉ idle p) ->
  pool_inv (move own l Retired) p.
Proof.
  intros Hp Hcl Hn Hc Hi. pose proof Hp as [F N I1 I2 C Hret Hheap Hmap]. constructor; cbn; try done.
  - intros x Hx. destruct (F x Hx) as [Fx ?]. split; [|done]. unfold move. case_decide; congruence.
  - intros x Hx. unfold move. case_decide; [subst; by destruct (Hi (I1 _ Hx))|by apply I1].
  - intros Hcd x. unfold move. case_decide; [done|by apply I2].
  - intros ch x. rewrite <- C. unfold move. case_decide; [subst; specialize (Hc ch); split; congruence|done].
  - intros x Hx. apply Hheap. unfold move in Hx. case_decide; congruence.
  - intros m Hm. by apply (map_move own p l Retired m).
Qed.

Lemma spec_drain_idle t : spec (fun p => closed p = true) t [] drain_idle (after DrainIdle).
Proof.
  intros own p Hcl Hp Hh. unfold drain_idle, mbind, M_bind, modify, read, mret, M_ret.
  destruct (idle p) as [|l q] eqn:Ei; [by exists own; auto using others_refl|].
  pose proof Hp as [F N I1 I2 C Hret Hheap Hmap]. pose proof N as Nd. rewrite Ei in Nd. apply NoDup_cons in Nd as [Hlq Nq].
  assert (own l = InIdle) as Hl by (apply I1; rewrite Ei; left).
  exists (move own l Retired). split_and!.
  - constructor; cbn; rewrite ?Ei; cbn; try done.
    + intros x Hx. destruct (F x Hx) as [Fx ?]. split; [|done]. unfold move. case_decide; congruence.
    + intros x Hx. unfold move. case_decide; [by subst|]. apply I1. rewrite Ei. by right.
    + intros Hcd x. unfold move. case_decide; [done|]. intros Hx%(I2 Hcd). rewrite Ei in Hx. set_solver.
    + intros ch x. rewrite <- C. unfold move. case_decide; [subst; split; congruence|done].
    + intros x Hx. apply Hheap. unfold move in Hx. case_decide; congruence.
    + intros m Hm. apply (map_move own p l Retired m); [congruence|done..].
  - apply others_move; [rewrite Hl|]; done.
  - cbn. destruct Hh as [? Hh]. split; [done|]. intros x. unfold move. case_decide; [|apply Hh]. subst. rewrite Hh. split; congruence.
Qed.

Lemma close_spec t :
  spec any t [] close_waiters (after CloseWaiters) /\ spec any t [] drain_waiters (after DrainWaiters) /\
  spec any t [] close_idle (after CloseIdle) /\ spec any t [] close_all (after CloseAll).
Proof.
  split_and!; intros own p _ Hp Hh;
    unfold close_waiters, drain_waiters, close_idle, close_all, mbind, M_bind, modify, read, mret, M_ret; cbn;
    [| destruct (waiters p) as [|ch w]| |]; cbn;
    exists own; (split_and!; [|auto using others_refl..]); try done; pose proof Hp as [F N I1 I2 C Hret Hheap Hmap];
    constructor; cbn; try done.
  - intros l Hl. destruct (F l Hl) as [? Hc]. split; [done|]. rewrite lookup_alter. case_decide; [subst; by rewrite Hc|done].
  - intros ch' l. rewrite C, lookup_alter. case_decide as Ec; [subst ch'|done]. destruct (chans p !! ch) as [c|]; cbn; naive_solver.
Qed.

(** The steps of [Close]: they run only once the pool is closed. *)
Fixpoint closing (th : thread) : bool :=
  match th with
  | Count _ _ k | Touch _ k | Remove _ k | ConnClose _ k => closing k
  | CloseCh | CloseWait | CloseWaiters | DrainWaiters | CloseIdle | DrainIdle | CloseAll => true
  | _ => false
  end.

(** What the theorems ask of the environment and of the pool before a step. *)
Definition before (e : env) (th : thread) (p : Pool) : Prop := fresh_for e p /\ (closing th = true -> closed p = true).

Lemma spec_before e th t hs {A} (m : act A) Q : spec (fresh_for e) t hs m Q -> spec (before e th) t hs m Q.
Proof. intros H own p [HP _]. by apply H. Qed.

Lemma thread_spec e t th : spec (before e th) t (in_hand th) (thread_step e th) (after th).
Proof.
  destruct th as [c d k|l k|l k|l k|ev sp|n|l n|st|st l|st|st|st ch|st ch|st r|l|l|l ch|l|wg|wg n|wg l n|got|todo r|l todo r| | | | | | |];
    cbn [in_hand thread_step];
    try (apply spec_weaken; first
      [ apply spec_remove | apply spec_give
      | eapply spec_bind; [apply spec_modify; auto with mcp|]; intros []; by apply spec_goto ]).
  - apply spec_weaken. apply spec_return. by destruct ev.
  - apply spec_before. apply (maintain_spec e t n 0 false).
  - apply spec_weaken. apply (maintain_spec e t n l false).
  - apply spec_weaken. apply (acquire_spec e t st 0 0 (Ok 0%nat)).
  - apply spec_weaken. apply (acquire_spec e t st l 0 (Ok 0%nat)).
  - apply spec_weaken. apply (acquire_spec e t st 0 0 (Ok 0%nat)).
  - apply spec_before. apply (acquire_spec e t st 0 0 (Ok 0%nat)).
  - apply spec_weaken. apply (acquire_spec e t st 0 ch (Ok 0%nat)).
  - apply spec_weaken. apply (acquire_spec e t st 0 ch (Ok 0%nat)).
  - apply spec_weaken. apply (acquire_spec e t st 0 0 r).
  - apply spec_weaken. apply (release_spec e t l).
  - apply spec_weaken. apply (release_spec e t l).
  - apply spec_weaken. apply (release_spec e t l).
  - apply spec_weaken. apply (maintain_spec e t 0 0 wg).
  - apply spec_before. apply (maintain_spec e t n 0 wg).
  - apply spec_weaken. apply (maintain_spec e t n l wg).
  - apply spec_weaken. apply (health_spec e t got 0 [] 0).
  - apply spec_weaken. apply (health_spec e t [] 0 todo r).
  - apply spec_weaken. apply (health_spec e t [] l todo r).
  - apply spec_weaken. by apply spec_goto.
  - apply spec_weaken. apply (close_spec t).
  - apply spec_weaken. apply (close_spec t).
  - intros own p [_ Hcl]. apply spec_drain_idle. by apply Hcl.
  - apply spec_weaken. apply (close_spec t).
Qed.

(** ** The invariant of the system *)

Record sys_inv own (s : sys) : Prop := {
  si_pool : pool_inv own (pool s);
  si_held_nodup : NoDup (held s);
  si_held : forall l, l ∈ held s <-> own l = WithClient;
  si_threads : forall t th, threads s !! t = Some th -> in_hands own t (in_hand th);
  si_no_thread : forall t, threads s !! t = None -> forall l, own l <> WithThread t;
  si_closing : forall t th, threads s !! t = Some th -> closing th = true -> closed (pool s) = true;
}.

Lemma in_hands_none own t : (forall l, own l <> WithThread t) -> in_hands own t [].
Proof. intros H. split; [constructor|]. intros l. specialize (H l). set_solver. Qed.

(** The state after an action of thread [t] that leaves [hs] in its hands. *)
Lemma inv_update own own' s t p (th' : option thread) (spawned : option nat) (held' : list nat) wd cr :
  sys_inv own s -> pool_inv own' p -> NoDup held' -> (forall l, l ∈ held' <-> own' l = WithClient) ->
  (forall t', t' <> t -> forall l, own l = WithThread t' <-> own' l = WithThread t') ->
  in_hands own' t (from_option in_hand [] th') ->
  (forall t', spawned = Some t' -> threads s !! t' = None /\ t' <> t) ->
  (closed (pool s) = true -> closed p = true) -> (forall th, th' = Some th -> closing th = true -> closed p = true) ->
  let m := partial_alter (fun _ => th') t (threads s) in
  sys_inv own' {| pool := p; threads := match spawned with Some t' => <[t' := MaintRead false]> m | None => m end;
                  held := held'; workers_done := wd; crashed := cr |}.
Proof.
  intros [Hp Hn Hh Ht Hnt Hcl] Hp' Hn' Hh' Ho Hin Hsp Hmono Hth m.
  assert (forall t' th, m !! t' = Some th -> in_hands own' t' (in_hand th) /\ (closing th = true -> closed p = true)) as Hm.
  { intros t' th. unfold m. rewrite lookup_partial_alter. case_decide.
    - subst t'. intros ->. split; [done|by apply Hth].
    - intros E. destruct (Ht t' th E) as [H1 H2]. split; [|intros C; by apply Hmono, (Hcl t' th E)].
      split; [done|]. intros l. rewrite <- Ho by done. apply H2. }
  assert (forall t', m !! t' = None -> forall l, own' l <> WithThread t') as Hm'.
  { intros t'. unfold m. rewrite lookup_partial_alter. case_decide.
    - subst t'. intros ->. intros l Hl. destruct Hin as [_ Hin]. apply Hin in Hl. set_solver.
    - intros E l. rewrite <- Ho by done. by apply Hnt. }
  assert (forall t'', spawned = Some t'' -> in_hands own' t'' []) as Hnew.
  { intros t'' E. destruct (Hsp t'' E) as [Hs Hne]. apply in_hands_none, Hm'. unfold m. by rewrite lookup_partial_alter_ne. }
  constructor; cbn; try done; destruct spawned as [t''|]; try done.
  - intros t' th. rewrite lookup_insert. case_decide; [|apply Hm]. intros [= <-]. subst t'. by apply Hnew.
  - intros t' th E. by apply (Hm t' th).
  - intros t'. rewrite lookup_insert. case_decide; [done|apply Hm'].
  - intros t' th. rewrite lookup_insert. case_decide; [by intros [= <-]|apply Hm].
  - intros t' th E. by apply (Hm t' th).
Qed.

(** A thread that starts, with what it does to the pool at once. *)
Lemma inv_add_thread own s t th f :
  sys_inv own s -> threads s !! t = None -> in_hand th = [] -> neutral f -> (closing th = true -> closed (f (pool s)) = true) ->
  sys_inv own (with_thread t th (with_pool (f (pool s)) s)).
Proof.
  intros Hi Hfree Hth Hf Hc. pose proof Hi as [Hp Hn Hh Ht Hnt Hcl].
  apply (inv_update own own s t (f (pool s)) (Some th) None (held s) (workers_done s) (crashed s) Hi); try done.
  - by apply pool_inv_neutral.
  - cbn. rewrite Hth. by apply in_hands_none, Hnt.
  - apply (Hf (pool s)).
  - by intros ? [= <-].
Qed.

Lemma remove_one_spec l k : NoDup k -> NoDup (remove_one l k) /\ forall x, x ∈ remove_one l k <-> x ∈ k /\ x <> l.
Proof.
  induction k as [|y k IH]; intros Hk; [split; [constructor|set_solver]|].
  apply NoDup_cons in Hk as [Hy Hk]. destruct (IH Hk) as [N E]. cbn.
  destruct (Nat.eqb_spec y l) as [->|]; [split; [done|set_solver]|].
  split; [apply NoDup_cons; split; [rewrite E; tauto|done]|]. intros x. rewrite !elem_of_cons, E. naive_solver.
Qed.

(** A released connection leaves the client: the pool is closed, or the thread has it. *)
Lemma inv_release own s t l :
  sys_inv own s -> l ∈ held s -> threads s !! t = None ->
  let pl := if closed (pool s) then Retired else WithThread t in
  sys_inv (move own l pl) {| pool := pool s; threads := <[t := release_entry (Some l) (pool s)]> (threads s);
    held := remove_one l (held s); workers_done := workers_done s; crashed := None |}.
Proof.
  intros Hi Hl Hfree pl. pose proof Hi as [Hp Hn Hh Ht Hnt Hcl].
  assert (own l = WithClient) as Hown by by apply Hh.
  destruct (remove_one_spec l (held s) Hn) as [N E].
  apply (inv_update own (move own l pl) s t (pool s) (Some (release_entry (Some l) (pool s))) None
           (remove_one l (held s)) (workers_done s) None Hi); try done.
  - unfold pl. destruct (closed (pool s)) eqn:Ec; [apply pool_inv_retire; congruence|].
    apply pool_inv_move; first [exact Hp | intros; congruence].
  - intros x. rewrite E, Hh. unfold move, pl. destruct (closed (pool s)); case_decide; naive_solver.
  - intros t' Hne x. unfold move. case_decide; [|done]. subst x. unfold pl. destruct (closed (pool s)); split; congruence.
  - unfold release_entry, pl. destruct (closed (pool s)); cbn.
    + apply in_hands_none. intros x. unfold move. case_decide; [done|by apply Hnt].
    + apply in_hands_take; [by apply in_hands_none, Hnt|congruence].
  - intros th [= <-]. unfold release_entry. by destruct (closed (pool s)).
Qed.

Definition uuids (lb : label) (s : sys) : Prop :=
  match lb with LStep _ _ e => fresh_for e (pool s) | _ => True end.

(** The states a pool can be in, whatever its users, its timers and the scheduler do. *)
Inductive reachable (c : Config) : sys -> Prop :=
| reach_new : reachable c (NewPool c)
| reach_step s lb s' : reachable c s -> uuids lb s -> step lb s = Some s' -> reachable c s'.

(** The configuration stays, the closed flag is only set by [Close], and the steps of [Close] come from its own. *)
Lemma thread_frame e th p :
  match thread_step e th p with
  | (Ok o, p') => config p' = config p /\ closed p' = closed p /\
      match o with Goto th' => closing th' = true -> closing th = true | _ => True end
  | (Err _, p') => config p' = config p /\ closed p' = closed p /\ connections p' = connections p
  end.
Proof.
  destruct th; cbn [thread_step];
    unfold add_to, touch, removeConnection, conn_Close, init_create, init_push, tryGetIdleConnection, check_idle,
      tryCreateNewConnection, canCreateNewConnection, waitForConnection, create_checked, QueueRequest, WaitForConnection,
      acq_done, rel_valid, take_waiter, give_to_waiter, rel_idle, maint_read, maint_create, maint_push, push_or_remove,
      collectIdleConnections, processHealthCheckedConnections, returnValidConnection, close_closeCh, close_waiters,
      drain_waiters, close_idle, drain_idle, close_all, createConnection, push_idle, isValidConnection, deref,
      handleReceivedConnection, recordWaitDuration, activateConnection,
      mbind, M_bind, mret, M_ret, modify, read, M_fail;
    repeat (match goal with
            | |- context [match ?x with _ => _ end] =>
                lazymatch x with context [match _ with _ => _ end] => fail | _ => destruct x eqn:? end
            end; cbn); auto.
Qed.

Lemma inv_run own s t t' e th s' :
  sys_inv own s -> threads s !! t = Some th -> fresh_for e (pool s) ->
  run_thread t t' e th s = Some s' -> crashed s' = None -> crashed s = None -> exists own', sys_inv own' s'.
Proof.
  intros Hi Hth Hf Hr Hc Hc0. pose proof Hi as [Hp Hn Hh Ht Hnt Hcl].
  pose proof (thread_spec e t th own (pool s) (conj Hf (Hcl t th Hth)) Hp (Ht t th Hth)) as H.
  pose proof (thread_frame e th (pool s)) as G. unfold run_thread in Hr.
  destruct (thread_step e th (pool s)) as [[o|a] p]; [|destruct a; simplify_eq; cbn in Hc; done].
  destruct H as (own' & Hp' & Ho & Hin), G as (_ & Gc & Go).
  assert (forall l, l ∈ held s <-> own' l = WithClient) as Hh' by (intros l; rewrite Hh; apply Ho).
  destruct o as [|th'|ev spawn]; [done| |].
  - injection Hr as <-. exists own'.
    apply (inv_update own own' s t p (Some th') None (held s) (workers_done s) (crashed s) Hi Hp' Hn Hh'); try done.
    + intros t'' Hne l. by apply Ho.
    + congruence.
    + intros th'' [= <-] E. rewrite Gc. apply (Hcl t th Hth). by apply Go.
  - assert (exists sp, (forall t'', sp = Some t'' -> threads s !! t'' = None /\ t'' <> t) /\
      s' = {| pool := p; threads := match sp with Some t' => <[t' := MaintRead false]> (delete t (threads s)) | None => delete t (threads s) end;
              held := match ev with Acquired l => l :: held s | _ => held s end; workers_done := workers_done s; crashed := crashed s |})
      as (sp & Hsp & ->).
    { unfold finish in Hr. destruct spawn; [|exists None; naive_solver].
      case_bool_decide; [|done]. exists (Some t'). split; [|naive_solver].
      intros ? [= <-]. split; [done|]. intros ->. congruence. }
    exists (match ev with Acquired l => move own' l WithClient | _ => own' end).
    apply (inv_update own _ s t p None sp _ (workers_done s) (crashed s) Hi); try done; try congruence; destruct ev as [l|err|]; try done.
    + pose proof (in_hands_head _ _ _ _ Hin) as Hl. apply pool_inv_move; first [exact Hp' | intros; congruence].
    + pose proof (in_hands_head _ _ _ _ Hin) as Hl. apply NoDup_cons. split; [|done]. rewrite Hh'. congruence.
    + intros x. unfold move. rewrite elem_of_cons, Hh'. case_decide; naive_solver.
    + pose proof (in_hands_head _ _ _ _ Hin) as Hl. intros t'' Hne x. unfold move. case_decide; [|by apply Ho]. subst x.
      destruct (Ho l) as [_ Hol]. rewrite (Hol t'' Hne). split; congruence.
    + intros t'' Hne x. by apply Ho.
    + intros t'' Hne x. by apply Ho.
    + by apply in_hands_drop.
Qed.

Lemma step_inv own s lb s' :
  sys_inv own s -> uuids lb s -> step lb s = Some s' -> crashed s' = None -> exists own', sys_inv own' s'.
Proof.
  intros Hi Hu Hs Hc. unfold step in Hs. destruct (crashed s) eqn:Hcr; [done|].
  destruct lb as [t e|t l|t|t|t|t t' e]; unfold free_id in Hs.
  - case_bool_decide as Hf; [|done]. exists own. destruct (validatePool (pool s)); simplify_eq; [done|].
    by apply (inv_add_thread own s t _ (fun p => p)).
  - case_bool_decide as Hf; [|done]. case_bool_decide as Hl; [|done]. cbn in Hs. injection Hs as <-.
    exists (move own l (if closed (pool s) then Retired else WithThread t)). exact (inv_release own s t l Hi Hl Hf).
  - case_bool_decide as Hf; [|done]. destruct (workers_done s); cbn in Hs; simplify_eq. exists own.
    by apply (inv_add_thread own s t _ (fun p => p)).
  - case_bool_decide as Hf; [|done]. destruct (workers_done s), (closeCh (pool s)); cbn in Hs; simplify_eq; [by exists own|].
    exists own. by apply (inv_add_thread own s t _ (fun p => p)).
  - case_bool_decide as Hf; [|done]. destruct (closed (pool s)) eqn:Ecl; simplify_eq; [by exists own|].
    exists own. by apply inv_add_thread.
  - destruct (threads s !! t) as [th|] eqn:Eth; [|done]. cbn in Hu.
    assert (th = CloseWait \/ run_thread t t' e th s = Some s') as [-> |Hr] by (destruct th; auto).
    + destruct (no_workers (threads s)); simplify_eq. exists own. pose proof Hi as [Hp Hn Hh Ht Hnt Hcl].
      apply (inv_update own own s t (pool s) (Some CloseWaiters) None (held s) true None Hi Hp Hn Hh); try done.
      * exact (Ht t CloseWait Eth).
      * intros th _ _. by apply (Hcl t CloseWait Eth).
    + by eapply inv_run.
Qed.

(** ** The counters

    The map changes under the lock, the counters after it: what a thread still has to add to a counter. *)

#[export] Instance counter_eq_dec : EqDecision counter.
Proof. solve_decision. Defined.

Fixpoint owed (c : counter) (th : thread) : Z :=
  match th with
  | Count c' d k => (if decide (c' = c) then d else 0) + owed c k
  | Touch _ k | Remove _ k | ConnClose _ k => owed c k
  | _ => 0
  end.

Notation pending c s := (total_of (owed c) (threads s)).

Definition size_of (p : Pool) : Z := from_option (fun m : gmap string nat => Z.of_nat (size m)) 0 (connections p).

(** The counters less the map, with what is owed: kept by every step that leaves a map. *)
Definition total_off (p : Pool) (n : counter -> Z) : Z := wrap_s 64 (TotalConnections (stats p) + n CTotal - size_of p).
Definition balance_off (p : Pool) (n : counter -> Z) : Z :=
  wrap_s 64 (CreatedCount (stats p) + n CCreated - (ClosedCount (stats p) + n CClosed) - size_of p).

Lemma wrap_s_shift a b k : a = b + k * 2 ^ 64 -> wrap_s 64 a = wrap_s 64 b.
Proof. intros ->. unfold wrap_s. f_equal. rewrite <- (Z_mod_plus_full (b + 2 ^ (64 - 1)) k (2 ^ 64)). f_equal. lia. Qed.

Lemma i64_add_spec a b : exists k, i64_add a b = a + b + k * 2 ^ 64.
Proof.
  unfold i64_add, wrap_s. pose proof (Z_div_mod_eq_full (a + b + 2 ^ (64 - 1)) (2 ^ 64)).
  exists (- ((a + b + 2 ^ (64 - 1)) / 2 ^ 64)). lia.
Qed.

(** The counters the books are about. *)
Definition booked (c : counter) : Prop := c = CTotal \/ c = CCreated \/ c = CClosed.
#[local] Hint Unfold booked : core.

Lemma wrap_s_diff a b : wrap_s 64 (a - b) = 0 -> wrap_s 64 a = wrap_s 64 b.
Proof.
  unfold wrap_s. intros H. pose proof (Z_div_mod_eq_full (a - b + 2 ^ (64 - 1)) (2 ^ 64)).
  apply (wrap_s_shift a b ((a - b + 2 ^ (64 - 1)) / 2 ^ 64)). lia.
Qed.

Definition owed_after (o : outcome) (th : thread) (c : counter) : Z :=
  match o with Blocked => owed c th | Goto th' => owed c th' | Return _ _ => 0 end.

(** A step that leaves the map: the counters change only by what the thread owed. *)
Definition keeps_books (th : thread) (p : Pool) (r : result abort outcome * Pool) : Prop :=
  match r with
  | (Ok o, p') => connections p' <> None ->
      connections p <> None /\
      forall d : counter -> Z,
        total_off p' (fun c => d c + owed_after o th c) = total_off p (fun c => d c + owed c th) /\
        balance_off p' (fun c => d c + owed_after o th c) = balance_off p (fun c => d c + owed c th)
  | (Err _, _) => True
  end.

Lemma add_books c d k p : keeps_books (Count c d k) p (add_to c d k p).
Proof.
  intros Hm. split; [exact Hm|]. intros n. unfold total_off, balance_off, size_of.
  destruct (i64_add_spec (TotalConnections (stats p)) d) as [k1 E1], (i64_add_spec (CreatedCount (stats p)) d) as [k2 E2],
    (i64_add_spec (ClosedCount (stats p)) d) as [k3 E3].
  destruct c; cbn [owed owed_after connections stats set_stats count TotalConnections CreatedCount ClosedCount
      set_total set_active set_idles set_wait set_wait_duration set_created set_closed_count set_failed];
    rewrite ?E1, ?E2, ?E3; repeat (case_decide; try congruence); split;
    first [apply (wrap_s_shift _ _ 0); lia | apply (wrap_s_shift _ _ k1); lia
          | apply (wrap_s_shift _ _ k2); lia | apply (wrap_s_shift _ _ (- k3)); lia].
Qed.

Lemma remove_books own t l k p :
  pool_inv own p -> own l = WithThread t -> keeps_books (Remove l k) p (removeConnection l k p).
Proof.
  intros Hp Hl. destruct (pi_heap _ _ Hp l ltac:(congruence)) as [pc Hpc].
  unfold removeConnection, deref, mbind, M_bind, modify, mret, M_ret. rewrite Hpc. cbn [keeps_books connections set_connections].
  destruct (connections p) as [m|] eqn:Em; [|done]. intros _. split; [done|].
  pose proof (proj1 (pi_map _ _ Hp m Em) l pc ltac:(congruence) Hpc) as Hml.
  assert (Z.of_nat (size (delete (id pc) m)) = Z.of_nat (size m) - 1) as Hs.
  { rewrite map_size_delete, Hml. cbn. assert (size m <> 0%nat); [|lia]. intros E%map_size_empty_inv. by rewrite E, lookup_empty in Hml. }
  intros d. unfold total_off, balance_off, size_of. rewrite Em. cbn [stats connections set_connections from_option fmap option_fmap option_map owed owed_after].
  rewrite Em. cbn [from_option fmap option_fmap option_map]. rewrite Hs. repeat (case_decide; try congruence). split; apply (wrap_s_shift _ _ 0); lia.
Qed.

Lemma create_books e ok failed th p :
  fresh_for e p -> (forall c, owed c th = 0) -> (forall c l, booked c -> owed c (ok l) = 0) -> (forall c err, owed c (failed err) = 0) ->
  keeps_books th p (createConnection e ok failed p).
Proof.
  intros Hf Ht Hok Hfail. unfold fresh_for in Hf. unfold createConnection, mbind, M_bind, modify, read, mret, M_ret, M_fail.
  destruct (factory e) as [cid|err].
  - cbn [connections set_conns set_next]. destruct (connections p) as [m|] eqn:Em; [|done].
    intros _. split; [congruence|]. intros d. unfold total_off, balance_off, size_of.
    cbn [stats connections set_connections set_conns set_next owed_after owed]. rewrite Em.
    cbn [fmap option_fmap option_map from_option]. rewrite map_size_insert_None by done. rewrite !Ht, !Hok by auto.
    repeat (case_decide; try congruence). split; apply (wrap_s_shift _ _ 0); lia.
  - intros Hm. split; [done|]. intros d. unfold total_off, balance_off. cbn [owed_after owed]. rewrite !Ht, !Hfail.
    repeat (case_decide; try congruence). split; apply (wrap_s_shift _ _ 0); lia.
Qed.

(** Every other step leaves the counters and the map alone. *)
Definition quiet_step (th : thread) (p : Pool) (r : result abort outcome * Pool) : Prop :=
  match r with
  | (Ok o, p') => stats p' = stats p /\ (connections p' = connections p \/ connections p' = None) /\
      forall c, booked c -> owed_after o th c = owed c th
  | (Err _, _) => True
  end.

Lemma quiet_books th p r : quiet_step th p r -> keeps_books th p r.
Proof.
  destruct r as [[o|] p']; [|done]. intros (Hs & Hc & Ho) Hm. assert (connections p' = connections p) as E by naive_solver.
  split; [congruence|]. intros d. unfold total_off, balance_off, size_of. rewrite Hs, E. split; f_equal; rewrite !Ho by auto; done.
Qed.

(** Whether a step may change the books. *)
Definition writes_books (th : thread) : bool :=
  match th with Count _ _ _ | Remove _ _ | AcqCreate _ | InitCreate (S _) | MaintCreate _ (S _) => true | _ => false end.

Lemma thread_quiet e th p : writes_books th = false -> quiet_step th p (thread_step e th p).
Proof.
  destruct th; intros Hw; try done; cbn [thread_step];
    unfold touch, conn_Close, init_create, init_push, tryGetIdleConnection, check_idle, tryCreateNewConnection,
      canCreateNewConnection, waitForConnection, QueueRequest, WaitForConnection, acq_done, rel_valid, take_waiter,
      give_to_waiter, rel_idle, maint_read, maint_create, maint_push, push_or_remove, collectIdleConnections,
      processHealthCheckedConnections, returnValidConnection, close_closeCh, close_waiters, drain_waiters, close_idle,
      drain_idle, close_all, push_idle, isValidConnection, deref, handleReceivedConnection, recordWaitDuration,
      activateConnection, mbind, M_bind, mret, M_ret, modify, read, M_fail;
    repeat (match goal with
            | |- context [match ?x with _ => _ end] =>
                lazymatch x with context [match _ with _ => _ end] => fail | _ => destruct x end
            end; cbn); try done; split_and!; auto; by intros c [->|[-> | ->]].
Qed.

Lemma thread_books e own t th p :
  pool_inv own p -> in_hands own t (in_hand th) -> fresh_for e p -> keeps_books th p (thread_step e th p).
Proof.
  intros Hp Hh Hf. destruct (writes_books th) eqn:Hw; [|by apply quiet_books, thread_quiet].
  destruct th as [c d k|l k|l k|l k|ev sp|n|l n|st|st l|st|st|st ch|st ch|st r|l|l|l ch|l|wg|wg n|wg l n|got|todo r|l todo r| | | | | | |];
    try done; cbn [thread_step].
  - apply add_books.
  - apply (remove_books own t); [done|]. by apply in_hands_head in Hh.
  - destruct n as [|n]; [done|]. by apply create_books.
  - apply create_books; try done. by intros c l [->|[-> | ->]].
  - destruct n as [|n]; [done|]. by apply create_books.
Qed.

(** The books of the system: the pending additions are those of all threads. *)
Definition books (s : sys) : Prop :=
  connections (pool s) <> None -> total_off (pool s) (fun c => pending c s) = 0 /\ balance_off (pool s) (fun c => pending c s) = 0.

Lemma off_ext p f g : (forall c, booked c -> f c = g c) ->
  total_off p f = total_off p g /\ balance_off p f = balance_off p g.
Proof. intros H. unfold total_off, balance_off. by rewrite !H by auto. Qed.

(** A thread that owes nothing more or less, and a pool with the same counters and map. *)
Lemma books_add s p t th hl wd cr :
  books s -> threads s !! t = None -> (forall c, booked c -> owed c th = 0) -> stats p = stats (pool s) ->
  connections p = connections (pool s) ->
  books {| pool := p; threads := <[t := th]> (threads s); held := hl; workers_done := wd; crashed := cr |}.
Proof.
  intros Hb Hf Ho Hs Hc Hm. cbn [pool threads] in *. rewrite Hc in Hm. destruct (Hb Hm) as [B1 B2].
  destruct (off_ext p (fun c => total_of (owed c) (<[t:=th]> (threads s))) (fun c => pending c s)) as [-> ->].
  { intros c Hcs. rewrite total_of_insert, Ho by done. lia. }
  unfold total_off, balance_off, size_of in *. rewrite Hs, Hc. auto.
Qed.

Lemma finish_pending t t' p ev sp s s' th c :
  threads s !! t = Some th -> finish t t' p ev sp s = Some s' -> pool s' = p /\ pending c s' = pending c s - owed c th.
Proof.
  intros Hth Hf. pose proof (total_of_delete (owed c) _ _ _ Hth) as D. unfold finish in Hf. destruct sp.
  - case_bool_decide as Ht'; [|done]. injection Hf as <-. cbn. split; [done|].
    rewrite total_of_insert; [cbn; lia|]. rewrite lookup_delete. by case_decide.
  - injection Hf as <-. cbn. split; [done|lia].
Qed.

Lemma run_books own s t t' e th s' :
  sys_inv own s -> threads s !! t = Some th -> fresh_for e (pool s) ->
  run_thread t t' e th s = Some s' -> crashed s' = None -> crashed s = None -> books s -> books s'.
Proof.
  intros Hi Hth Hf Hr Hc Hc0 Hb. pose proof (thread_books e own t th (pool s) (si_pool _ _ Hi) (si_threads _ _ Hi t th Hth) Hf) as H.
  unfold run_thread in Hr. destruct (thread_step e th (pool s)) as [[o|a] p]; [|destruct a; simplify_eq; cbn in Hc; done].
  assert (o <> Blocked /\ pool s' = p /\ forall c, pending c s' = pending c s - owed c th + owed_after o th c) as (_ & Ep & Ec).
  { destruct o as [|th'|ev spawn]; [done| |].
    - injection Hr as <-. split_and!; [done|done|]. intros c. cbn. by rewrite (total_of_update _ _ _ th).
    - split_and!; [done|by apply (finish_pending t t' p ev spawn s s' th CTotal)|]. intros c.
      destruct (finish_pending t t' p ev spawn s s' th c Hth Hr) as [_ ->]. cbn. lia. }
  intros Hm. rewrite Ep in *. destruct (H Hm) as [Hm0 Hd]. destruct (Hb Hm0) as [B1 B2].
  destruct (Hd (fun c => pending c s - owed c th)) as [T1 T2].
  destruct (off_ext p (fun c => pending c s') (fun c => pending c s - owed c th + owed_after o th c)) as [-> ->]; [by intros|].
  rewrite T1, T2.
  destruct (off_ext (pool s) (fun c => pending c s - owed c th + owed c th) (fun c => pending c s)) as [-> ->]; [intros; lia|]. done.
Qed.

Lemma step_books own s lb s' :
  sys_inv own s -> uuids lb s -> step lb s = Some s' -> crashed s' = None -> books s -> books s'.
Proof.
  intros Hi Hu Hs Hc Hb. unfold step in Hs. destruct (crashed s) eqn:Hcr; [done|].
  assert (forall c th, booked c -> owed c (Count CActive (-1) th) = owed c th /\ owed c (Count CWait 1 th) = owed c th) as Ho
    by by intros c th [->|[-> | ->]].
  destruct lb as [t e|t l|t|t|t|t t' e]; unfold free_id in Hs.
  - case_bool_decide as Hf; [|done]. destruct (validatePool (pool s)); simplify_eq; [done|].
    apply books_add; try done. intros c Hcs. by apply Ho.
  - case_bool_decide as Hf; [|done]. case_bool_decide as Hl; [|done]. cbn in Hs. injection Hs as <-.
    apply books_add; try done. intros c Hcs. unfold release_entry. destruct (closed (pool s)); [done|]. by apply Ho.
  - case_bool_decide as Hf; [|done]. destruct (workers_done s); cbn in Hs; simplify_eq. by apply books_add.
  - case_bool_decide as Hf; [|done]. destruct (workers_done s), (closeCh (pool s)); cbn in Hs; simplify_eq; [done|]. by apply books_add.
  - case_bool_decide as Hf; [|done]. destruct (closed (pool s)); simplify_eq; [done|]. by apply books_add.
  - destruct (threads s !! t) as [th|] eqn:Eth; [|done]. cbn in Hu.
    assert (th = CloseWait \/ run_thread t t' e th s = Some s') as [-> |Hr] by (destruct th; auto).
    + destruct (no_workers (threads s)); simplify_eq. intros Hm. cbn [pool] in *. destruct (Hb Hm) as [B1 B2].
      rewrite <- B1 at 1. rewrite <- B2 at 1. apply off_ext. intros c _. cbn. rewrite (total_of_update _ _ _ CloseWait) by done. cbn. lia.
    + by eapply run_books.
Qed.

Lemma reachable_inv c s : reachable c s -> crashed s = None -> books s /\ exists own, sys_inv own s.
Proof.
  induction 1 as [|s lb s' _ IH Hu Hs]; intros Hc.
  - split.
    + intros _. destruct (off_ext (pool (NewPool c)) (fun ctr => pending ctr (NewPool c)) (fun _ => 0)) as [-> ->]; [|done].
      intros ctr _. apply total_of_zero. cbn [threads NewPool]. by intros t th [_ <-]%lookup_singleton_Some.
    + exists (fun _ => Nowhere). constructor; cbn; try done.
      * constructor; cbn; try done.
        -- constructor.
        -- set_solver.
        -- intros ch l. split; [done|]. by intros (c0 & H0 & _).
        -- intros m [= <-]. by split.
      * constructor.
      * set_solver.
      * intros t th Hth. apply lookup_singleton_Some in Hth as [_ <-]. by apply in_hands_none.
      * by intros t th [_ <-]%lookup_singleton_Some.
  - destruct IH as [Hb [own Hi]]; [unfold step in Hs; by destruct (crashed s)|].
    split; [by eapply step_books|by eapply step_inv].
Qed.

End ConnPool.
