(* ===== verification/ConnPoolTheorems.v ===== *)
(** * Theorems about the connection pool

    The capacity bound under concurrent acquisition, the fate of a connection handed
    to a waiter that gave up, the pooled gateway client of manager.go, and the
    theorems of [ConnPool]. *)
From S2P Require Import Prelude Goroutines ConnPool.
#[local] Open Scope Z_scope.

Module PoolTheorems.
Import ConnPool.

(** ** Capacity *)

(** Creations that threads have decided on and not yet entered in the map. *)
Fixpoint creating (th : thread) : Z :=
  match th with
  | Count _ _ k | Touch _ k | Remove _ k | ConnClose _ k => creating k
  | AcqCreate _ => 1
  | InitCreate n | InitPush _ n | MaintCreate _ n | MaintPush _ _ n => Z.of_nat n
  | _ => 0
  end.

Notation all_creating s := (total_of creating (threads s)).

Lemma creating_nonneg th : 0 <= creating th.
Proof. induction th; cbn; lia. Qed.

Definition creating_after (th : thread) (o : outcome) : Z :=
  match o with Blocked => creating th | Goto th' => creating th' | Return _ _ => 0 end.

(** Threads that decide to create connections. *)
Definition decides (th : thread) : bool := match th with AcqCheck _ | MaintRead _ => true | _ => false end.

Lemma quiet_creating e th p o p' :
  writes_books th = false -> decides th = false -> thread_step e th p = (Ok o, p') -> creating_after th o <= creating th.
Proof.
  destruct th; intros Hw Hd; try done; cbn [thread_step];
    unfold touch, conn_Close, init_create, init_push, tryGetIdleConnection, check_idle, QueueRequest, WaitForConnection,
      acq_done, rel_valid, take_waiter, give_to_waiter, rel_idle, maint_create, maint_push, push_or_remove,
      collectIdleConnections, processHealthCheckedConnections, returnValidConnection, close_closeCh, close_waiters,
      drain_waiters, close_idle, drain_idle, close_all, push_idle, isValidConnection, deref, handleReceivedConnection,
      recordWaitDuration, activateConnection, mbind, M_bind, mret, M_ret, modify, read, M_fail;
    repeat (match goal with
            | |- context [match ?x with _ => _ end] =>
                lazymatch x with context [match _ with _ => _ end] => fail | _ => destruct x end
            end; cbn); intros ?; simplify_eq; cbn -[Z.of_nat]; lia.
Qed.

Lemma grows_remove l k p o p' :
  removeConnection l k p = (Ok o, p') -> size_of p' <= size_of p /\ creating_after (Remove l k) o <= creating (Remove l k).
Proof.
  unfold removeConnection, deref, mbind, M_bind, modify, mret, M_ret. destruct (conns p !! l) as [pc|]; [|done].
  intros [= <- <-]. cbn. split; [|lia]. unfold size_of. cbn. destruct (connections p) as [m|]; cbn; [|lia].
  rewrite map_size_delete. destruct (m !! _); unfold Datatypes.id; lia.
Qed.

Lemma grows_create e ok failed p n o p' th :
  (forall l, creating (ok l) + 1 <= n) -> (forall err, creating (failed err) <= n) ->
  createConnection e ok failed p = (Ok o, p') -> size_of p' + creating_after th o <= size_of p + n.
Proof.
  intros Hok Hfail. unfold createConnection, mbind, M_bind, modify, read, mret, M_ret, M_fail, size_of.
  destruct (factory e) as [cid|err].
  - cbn [connections set_conns set_next]. destruct (connections p) as [m|] eqn:Em; [|done].
    intros [= <- <-]. cbn [creating_after creating connections set_connections set_conns set_next]. rewrite Em.
    cbn [fmap option_fmap option_map from_option]. specialize (Hok (next p)). rewrite map_size_insert.
    destruct (m !! cid); unfold Datatypes.id; lia.
  - intros [= <- <-]. cbn. specialize (Hfail err). lia.
Qed.

Lemma thread_grows e th p o p' :
  decides th = false -> thread_step e th p = (Ok o, p') -> size_of p' + creating_after th o <= size_of p + creating th.
Proof.
  intros Hd H. destruct (writes_books th) eqn:Hw.
  - destruct th as [c d k|l k|l k|l k|ev sp|n|l n|st|st l|st|st|st ch|st ch|st r|l|l|l ch|l|wg|wg n|wg l n|got|todo r|l todo r| | | | | | |];
      try done; cbn [thread_step] in H.
    + injection H as <- <-. unfold size_of. cbn. lia.
    + apply grows_remove in H. lia.
    + destruct n as [|n]; [done|]. apply (grows_create _ _ _ _ (Z.of_nat (S n))) with (th := InitCreate (S n)) in H; [exact H|intros; cbn -[Z.of_nat]; lia..].
    + apply (grows_create _ _ _ _ 1) with (th := AcqCreate st) in H; [exact H|intros; cbn; lia..].
    + destruct n as [|n]; [done|]. apply (grows_create _ _ _ _ (Z.of_nat (S n))) with (th := MaintCreate wg (S n)) in H; [exact H|intros; cbn -[Z.of_nat]; lia..].
  - pose proof (quiet_creating e th p o p' Hw Hd H). pose proof (thread_quiet e th p Hw) as Q. rewrite H in Q.
    destruct Q as (_ & Q & _). unfold size_of. destruct Q as [-> | ->]; cbn; [lia|]. destruct (connections p); cbn; lia.
Qed.

(** Runs in which no decision to create leaves more than [k] creations pending. *)
Inductive reachable_k (c : Config) (k : Z) : sys -> Prop :=
| reach_k_new : reachable_k c k (NewPool c)
| reach_k_step s lb s' :
    reachable_k c k s -> step lb s = Some s' -> all_creating s' <= all_creating s \/ all_creating s' <= k -> reachable_k c k s'.

Definition capacity_inv (c : Config) (k : Z) (s : sys) : Prop :=
  config (pool s) = validateAndNormalizePoolConfig c /\
  size_of (pool s) + all_creating s <= MaxSize (config (pool s)) + k - 1.

Lemma normalized_sizes c :
  let c' := validateAndNormalizePoolConfig c in 0 <= MinSize c' <= MaxSize c' /\ 1 <= MaxSize c'.
Proof. unfold validateAndNormalizePoolConfig. cbn. case_tests; lia. Qed.

Lemma finish_creating t t' p ev sp s s' th :
  threads s !! t = Some th -> finish t t' p ev sp s = Some s' ->
  pool s' = p /\ all_creating s' = all_creating s - creating th.
Proof.
  intros Hth Hf. pose proof (total_of_delete creating _ _ _ Hth) as D. unfold finish in Hf. destruct sp.
  - case_bool_decide as Ht'; [|done]. injection Hf as <-. cbn. split; [done|].
    rewrite total_of_insert; [cbn; lia|]. rewrite lookup_delete. by case_decide.
  - injection Hf as <-. cbn. split; [done|lia].
Qed.

(** A decision: it leaves the map alone, and what it decides on stays under the limit. *)
Lemma decides_room e th p o p' :
  decides th = true -> 1 <= MaxSize (config p) -> MinSize (config p) <= MaxSize (config p) ->
  thread_step e th p = (Ok o, p') ->
  creating th = 0 /\ size_of p' = size_of p /\ (creating_after th o = 0 \/ size_of p < MaxSize (config p) /\
    (creating_after th o = 1 \/ size_of p + creating_after th o = MinSize (config p))).
Proof.
  destruct th as [c d k|l k|l k|l k|ev sp|n|l n|st|st l|st|st|st ch|st ch|st r|l|l|l ch|l|wg|wg n|wg l n|got|todo r|l todo r| | | | | | |];
    intros Hd H1 H2; try done; cbn [thread_step].
  - unfold tryCreateNewConnection, canCreateNewConnection, waitForConnection, mbind, M_bind, read, modify, mret, M_ret.
    fold (size_of p). destruct (Z.ltb_spec (size_of p) (MaxSize (config p))); intros [= <- <-]; cbn; auto 7.
  - unfold maint_read, mbind, M_bind, read, mret, M_ret. fold (size_of p).
    destruct (Z.leb_spec (MinSize (config p) - size_of p) 0); intros [= <- <-]; cbn; [auto|].
    split_and!; [done..|]. right. split; [lia|]. right. lia.
Qed.

Lemma run_thread_capacity c k t t' e th s s' :
  1 <= k -> capacity_inv c k s -> threads s !! t = Some th -> run_thread t t' e th s = Some s' ->
  all_creating s' <= all_creating s \/ all_creating s' <= k -> capacity_inv c k s'.
Proof.
  intros Hk [Hc Hi] Hth Hr Hp. unfold run_thread in Hr. pose proof (thread_frame e th (pool s)) as F.
  destruct (thread_step e th (pool s)) as [[o|a] p] eqn:E.
  - destruct F as (Fc & _ & _).
    assert (o <> Blocked /\ pool s' = p /\ all_creating s' = all_creating s - creating th + creating_after th o) as (_ & Ep & Ec).
    { destruct o as [|th'|ev spawn]; [done| |].
      - injection Hr as <-. split_and!; [done|done|]. cbn. by rewrite (total_of_update _ _ _ th).
      - destruct (finish_creating t t' p ev spawn s s' th Hth Hr) as [-> ->]. split_and!; [done|done|]. cbn. lia. }
    unfold capacity_inv. rewrite Ep, Fc. split; [done|]. destruct (decides th) eqn:Hd.
    + pose proof (normalized_sizes c) as Hsz. cbv zeta in Hsz. rewrite <- Hc in Hsz.
      destruct (decides_room e th (pool s) o p Hd) as (D1 & D2 & D3); [lia|lia|done|]. lia.
    + pose proof (thread_grows e th (pool s) o p Hd E). lia.
  - destruct F as (Fc & _ & Fm). unfold capacity_inv, size_of in *. destruct a; simplify_eq; cbn; rewrite Fc, Fm; done.
Qed.

Lemma add_capacity c k s p t th hl wd cr :
  capacity_inv c k s -> threads s !! t = None -> creating th = 0 -> config p = config (pool s) -> connections p = connections (pool s) ->
  capacity_inv c k {| pool := p; threads := <[t := th]> (threads s); held := hl; workers_done := wd; crashed := cr |}.
Proof.
  intros [Hc Hi] Hf Hth E1 E2. unfold capacity_inv, size_of in *. cbn. rewrite E1, E2, total_of_insert by done. split; [done|lia].
Qed.

Lemma step_capacity c k lb s s' :
  1 <= k -> capacity_inv c k s -> step lb s = Some s' ->
  all_creating s' <= all_creating s \/ all_creating s' <= k -> capacity_inv c k s'.
Proof.
  intros Hk Hi Hs Hp. unfold step in Hs. destruct (crashed s) eqn:Hcr; [done|].
  destruct lb as [t e|t l|t|t|t|t t' e]; unfold free_id in Hs.
  - case_bool_decide as Hf; [|done]. destruct (validatePool (pool s)); simplify_eq; [done|]. by apply add_capacity.
  - case_bool_decide as Hf; [|done]. case_bool_decide as Hl; [|done]. cbn in Hs. injection Hs as <-.
    apply add_capacity; try done. unfold release_entry. by destruct (closed (pool s)).
  - case_bool_decide as Hf; [|done]. destruct (workers_done s); cbn in Hs; simplify_eq. by apply add_capacity.
  - case_bool_decide as Hf; [|done]. destruct (workers_done s), (closeCh (pool s)); cbn in Hs; simplify_eq; [done|]. by apply add_capacity.
  - case_bool_decide as Hf; [|done]. destruct (closed (pool s)); simplify_eq; [done|]. by apply add_capacity.
  - destruct (threads s !! t) as [th|] eqn:Eth; [|done].
    assert (th = CloseWait \/ run_thread t t' e th s = Some s') as [-> |Hr] by (destruct th; auto).
    + destruct (no_workers (threads s)); simplify_eq. destruct Hi as [Hc Hb]. split; [done|]. cbn.
      rewrite (total_of_update _ _ _ _ _ Eth). cbn. lia.
    + by eapply run_thread_capacity.
Qed.

Lemma capacity_reachable c k s : 1 <= k -> reachable_k c k s -> capacity_inv c k s.
Proof.
  intros Hk. induction 1 as [|s lb s' _ IH Hs Hp]; [|by eapply step_capacity].
  split; [done|]. pose proof (normalized_sizes c) as N. cbv zeta in N.
  change (0 + total_of creating {[0%nat := InitCreate (Z.to_nat (MinSize (validateAndNormalizePoolConfig c)))]}
          <= MaxSize (validateAndNormalizePoolConfig c) + k - 1).
  unfold total_of. rewrite map_fold_singleton. cbn [creating]. lia.
Qed.

(** ** Waiters that gave up *)

(** Connection [l] sits in the channel of a waiter that is queued no more. *)
Definition parked (ch l : nat) (p : Pool) : Prop :=
  (exists cl, chans p !! ch = Some (mkChan (Some l) cl)) /\ ch ∉ waiters p /\ (ch < next p)%nat.

Fixpoint waits_on (ch : nat) (th : thread) : bool :=
  match th with
  | Count _ _ k | Touch _ k | Remove _ k | ConnClose _ k => waits_on ch k
  | AcqQueue _ ch' | AcqWait _ ch' => bool_decide (ch' = ch)
  | _ => false
  end.

Definition stranded (ch l : nat) (s : sys) : Prop :=
  parked ch l (pool s) /\ forall t th, threads s !! t = Some th -> waits_on ch th = false.

Lemma parked_frame ch l p p' :
  chans p' = chans p -> (forall x, x ∈ waiters p' -> x ∈ waiters p) -> (next p <= next p')%nat -> parked ch l p -> parked ch l p'.
Proof. intros H1 H2 H3 ((cl & Hc) & Hw & Hn). split_and!; [rewrite H1; eauto|intros Hx%H2; done|lia]. Qed.

(** What a step does to the waiters' channels: most do nothing. *)
Definition parks (ch l : nat) (r : result abort outcome * Pool) : Prop :=
  parked ch l r.2 /\ match r.1 with Ok (Goto th') => waits_on ch th' = false | _ => True end.

(** Steps that touch the waiters or their channels. *)
Definition channel_step (th : thread) : bool :=
  match th with AcqCheck _ | AcqQueue _ _ | AcqWait _ _ | RelWaiter _ | RelGive _ _ | DrainWaiters => true | _ => false end.

Lemma thread_parks_other e th p ch l :
  channel_step th = false -> waits_on ch th = false -> parked ch l p -> parks ch l (thread_step e th p).
Proof.
  destruct th; intros Hc Hw Hp; try done; cbn [thread_step];
    unfold add_to, touch, removeConnection, conn_Close, init_create, init_push, tryGetIdleConnection, check_idle, create_checked,
      acq_done, rel_valid, rel_idle, maint_read, maint_create, maint_push, push_or_remove,
      collectIdleConnections, processHealthCheckedConnections, returnValidConnection, close_closeCh, close_waiters,
      close_idle, drain_idle, close_all, createConnection, push_idle, isValidConnection, deref,
      recordWaitDuration, activateConnection, mbind, M_bind, mret, M_ret, modify, read, M_fail;
    repeat (match goal with
            | |- context [match ?x with _ => _ end] =>
                lazymatch x with context [match _ with _ => _ end] => fail | _ => destruct x end
            end; cbn);
    (split; [cbn; first [exact Hp | apply (parked_frame ch l p); try done; cbn; lia]|done]).
Qed.

Lemma thread_parks e th p ch l : waits_on ch th = false -> parked ch l p -> parks ch l (thread_step e th p).
Proof.
  intros Hw Hp. destruct (channel_step th) eqn:Hc; [|by apply thread_parks_other].
  pose proof Hp as ((cl & Hch) & Hq & Hn).
  destruct th as [c d k|x k|x k|x k|ev sp|n|x n|st|st x|st|st|st ch'|st ch'|st r|x|x|x ch'|x|wg|wg n|wg x n|got|todo r|x todo r| | | | | | |];
    try done; cbn [thread_step waits_on] in *;
    unfold tryCreateNewConnection, canCreateNewConnection, waitForConnection, QueueRequest, WaitForConnection, take_waiter,
      give_to_waiter, drain_waiters, handleReceivedConnection, mbind, M_bind, mret, M_ret, modify, read, M_fail.
  - case_match; (split; [|cbn; try done]).
    + exact Hp.
    + cbn. unfold parked. cbn. rewrite lookup_insert_ne by lia. split_and!; [eauto|done|lia].
    + cbn. apply bool_decide_eq_false. lia.
  - apply bool_decide_eq_false in Hw.
    destruct (ready e); try (by split). destruct (waiters_closed p); [by split|]. case_match; [|by split].
    split; [|by apply bool_decide_eq_false]. cbn. unfold parked. cbn. split_and!; [eauto|set_solver|done].
  - apply bool_decide_eq_false in Hw.
    destruct (ready e); try (by split). destruct (chans p !! ch') as [[[x|] c]|] eqn:E; [|by destruct c; split|by split].
    split; [|done]. cbn. unfold parked. cbn. rewrite lookup_insert_ne by done. eauto.
  - destruct (waiters p) as [|ch' w] eqn:Ew; [destruct (waiters_closed p); by split|].
    split; [|done]. cbn. unfold parked. cbn. rewrite Ew. cbn. split_and!; [eauto|set_solver|done].
  - destruct (chans p !! ch') as [[[y|] []]|] eqn:E; try (by split). split; [|done].
    cbn. unfold parked. cbn. rewrite lookup_insert_ne by congruence. eauto.
  - destruct (waiters p) as [|ch' w] eqn:Ew; [by split|]. split; [|done].
    cbn. unfold parked. cbn. rewrite Ew in *. apply not_elem_of_cons in Hq as [Hne Hq]. cbn. rewrite lookup_alter_ne by done. eauto.
Qed.

Lemma stranded_insert ch l p m t th s' :
  parked ch l p -> (forall t th, m !! t = Some th -> waits_on ch th = false) -> waits_on ch th = false ->
  pool s' = p -> threads s' = <[t := th]> m -> stranded ch l s'.
Proof.
  intros Hp Hm Hth E1 E2. split; [by rewrite E1|]. intros t' th'. rewrite E2, lookup_insert.
  case_decide; [by intros [= <-]|apply Hm].
Qed.

Lemma stranded_step ch l lb s s' : stranded ch l s -> step lb s = Some s' -> stranded ch l s'.
Proof.
  intros [Hp Hw] Hs. unfold step in Hs. destruct (crashed s); [done|].
  assert (forall t th p hl wd cr, waits_on ch th = false -> parked ch l p ->
    stranded ch l {| pool := p; threads := <[t := th]> (threads s); held := hl; workers_done := wd; crashed := cr |}) as A.
  { intros t th p hl wd cr Hth Hp'. eapply (stranded_insert ch l p (threads s) t th); [exact Hp'|exact Hw|exact Hth|done..]. }
  destruct lb as [t e|t x|t|t|t|t t' e]; unfold free_id in Hs.
  - case_bool_decide; [|done]. destruct (validatePool (pool s)); simplify_eq; [done|]. by apply A.
  - case_bool_decide; [|done]. case_bool_decide; [|done]. cbn in Hs. injection Hs as <-. apply A; [|exact Hp].
    unfold release_entry. by destruct (closed (pool s)).
  - case_bool_decide; [|done]. destruct (workers_done s); cbn in Hs; simplify_eq. by apply A.
  - case_bool_decide; [|done]. destruct (workers_done s), (closeCh (pool s)); cbn in Hs; simplify_eq; [done|]. by apply A.
  - case_bool_decide; [|done]. destruct (closed (pool s)); simplify_eq; [done|]. by apply A.
  - destruct (threads s !! t) as [th|] eqn:Eth; [|done].
    assert (th = CloseWait \/ run_thread t t' e th s = Some s') as [-> |Hr] by (destruct th; auto).
    { destruct (no_workers (threads s)); simplify_eq. by apply A. }
    destruct (thread_parks e th (pool s) ch l (Hw t th Eth) Hp) as [K1 K2]. unfold run_thread in Hr.
    destruct (thread_step e th (pool s)) as [[o|a] p]; cbn in K1, K2; [|destruct a; simplify_eq; by split].
    destruct o as [|th'|ev sp]; [done| |].
    + simplify_eq. by apply A.
    + assert (forall t1 th1, delete t (threads s) !! t1 = Some th1 -> waits_on ch th1 = false) as Hd.
      { intros t1 th1 [_ H1]%lookup_delete_Some. by eapply Hw. }
      unfold finish in Hr. destruct sp; [case_bool_decide; [|done]|]; simplify_eq; [|by split].
      eapply (stranded_insert ch l p (delete t (threads s)) t' (MaintRead false)); done.
Qed.

(** The labels of a run respect the factory's promise. *)
Fixpoint uuids_along (lbs : list label) (s : sys) : Prop :=
  match lbs with
  | [] => True
  | lb :: lbs => uuids lb s /\ forall s', step lb s = Some s' -> uuids_along lbs s'
  end.

Lemma pool_run_reachable c lbs s s' : reachable c s -> uuids_along lbs s -> run lbs s = Some s' -> reachable c s'.
Proof.
  revert s; induction lbs as [|lb lbs IH]; intros s Hr Hu; cbn; [by intros [= <-]|].
  destruct Hu as [Hu1 Hu2]. destruct (step lb s) as [s1|] eqn:E; cbn; [|done]. apply IH; [|by apply Hu2].
  by eapply reach_step.
Qed.

Lemma run_stranded ch l lbs s s' : stranded ch l s -> run lbs s = Some s' -> stranded ch l s'.
Proof.
  revert s; induction lbs as [|lb lbs IH]; intros s Hs; cbn; [by intros [= <-]|].
  destruct (step lb s) as [s1|] eqn:E; cbn; [|done]. apply IH. by eapply stranded_step.
Qed.

(** ** Theorems *)

(** C21: under every interleaving of the atomic steps of acquirers, releasers, maintenance, health checks and [Close], a
    connection is in one place: no two clients hold the same one, none that is held is also idle, parked for a waiter or
    in the hands of a goroutine, and until the pool closes every connection of the map can be found.  The map is changed
    under the lock and the counters after it, so they agree with the map once the additions that goroutines still have to
    make are counted (as 64-bit integers): total, and created - closed, are the number of connections. *)
Theorem pool_ownership (c : Config) (s : sys) :
  reachable c s -> crashed s = None ->
  NoDup (held s) /\ NoDup (idle (pool s)) /\
  (forall l, l ∈ held s -> l ∉ idle (pool s) /\
     (forall ch b, chans (pool s) !! ch = Some b -> buffer b <> Some l) /\
     (forall t th, threads s !! t = Some th -> l ∉ in_hand th)) /\
  (forall m i l, connections (pool s) = Some m -> closed (pool s) = false -> idle_closed (pool s) = false ->
     m !! i = Some l ->
     l ∈ held s \/ l ∈ idle (pool s) \/ (exists ch b, chans (pool s) !! ch = Some b /\ buffer b = Some l) \/
     (exists t th, threads s !! t = Some th /\ l ∈ in_hand th)) /\
  (forall m, connections (pool s) = Some m ->
     wrap_s 64 (TotalConnections (stats (pool s)) + pending CTotal s) = wrap_s 64 (Z.of_nat (size m)) /\
     wrap_s 64 (CreatedCount (stats (pool s)) + pending CCreated s - (ClosedCount (stats (pool s)) + pending CClosed s)) =
       wrap_s 64 (Z.of_nat (size m))).
Proof.
  intros Hr Hc. destruct (reachable_inv c s Hr Hc) as [Hb [own [Hp Hn Hh Ht Hnt Hcl]]].
  pose proof Hp as [F N I1 I2 C Hret Hheap Hmap]. split_and!; [done|done| | |].
  - intros l Hl%Hh. split_and!.
    + intros Hi%I1. congruence.
    + intros ch b Hb' Hbl. assert (own l = InChan ch) by (apply C; eauto). congruence.
    + intros t th Hth Hin. destruct (Ht t th Hth) as [_ H]. apply H in Hin. congruence.
  - intros m i l Hm Hcd Hic Hi. destruct (Hmap m Hm) as (_ & M2). destruct (M2 i l Hi) as [Ho _].
    destruct (own l) as [| |ch| |t|] eqn:El.
    + done.
    + right; left. by apply I2.
    + right; right; left. exists ch. by apply C.
    + left. by apply Hh.
    + do 3 right. destruct (threads s !! t) as [th|] eqn:Eth; [|by destruct (Hnt t Eth l)].
      exists t, th. split; [done|]. by apply (Ht t th Eth).
    + apply Hret in El. congruence.
  - intros m Hm. destruct (Hb ltac:(congruence)) as [B1 B2]. unfold total_off, balance_off, size_of in *. rewrite Hm in *.
    split; by apply wrap_s_diff.
Qed.

(** The pool checks its capacity and creates in two steps, so the limit holds up to
    races: when at most [k] creations are ever pending at once, the pool never holds more
    than [MaxSize + k - 1] connections; with creations one at a time, never more
    than [MaxSize]. *)
Lemma pool_capacity (c : Config) (k : Z) (s : sys) :
  1 <= k -> reachable_k c k s ->
  size_of (pool s) <= MaxSize (validateAndNormalizePoolConfig c) + k - 1.
Proof.
  intros Hk Hr. destruct (capacity_reachable c k s Hk Hr) as [Hc H]. rewrite Hc in H.
  assert (0 <= all_creating s); [|lia].
  apply total_of_nonneg. intros t th _. apply creating_nonneg.
Qed.

(** A connection handed to a waiter that has already given up is lost: in every
    continuation it is neither idle nor with a client, and it still counts against the
    capacity for as long as the map exists. *)
Lemma stale_waiter_leaks (c : Config) (s : sys) (ch l : nat) (lbs : list label) (s' : sys) :
  reachable c s -> stranded ch l s -> uuids_along lbs s -> run lbs s = Some s' -> crashed s' = None ->
  l ∉ held s' /\ l ∉ idle (pool s') /\
  (forall m, connections (pool s') = Some m -> exists i, m !! i = Some l).
Proof.
  intros Hr Hst Hu Hrun Hc. pose proof (pool_run_reachable c lbs s s' Hr Hu Hrun) as Hr'.
  destruct (run_stranded ch l lbs s s' Hst Hrun) as [((cl & Hch) & _ & _) _].
  destruct (reachable_inv c s' Hr' Hc) as [_ [own [Hp Hn Hh Ht Hnt _]]].
  pose proof Hp as [F N I1 I2 C Hret Hheap Hmap].
  assert (own l = InChan ch) as Hl by (apply C; eauto). split_and!.
  - rewrite Hh. congruence.
  - intros Hi%I1. congruence.
  - intros m Hm. destruct (Hmap m Hm) as (M1 & _). destruct (Hheap l) as [pc Hpc]; [congruence|].
    exists (id pc). apply M1; [congruence|done].
Qed.

(** ** Concrete runs *)

Definition uuid_ok (lb : label) (s : sys) : bool :=
  match lb with
  | LStep _ _ e => match factory e, connections (pool s) with
                   | Ok i, Some m => bool_decide (m !! i = None)
                   | _, _ => true
                   end
  | _ => true
  end.

Fixpoint uuids_ok (lbs : list label) (s : sys) : bool :=
  match lbs with
  | [] => true
  | lb :: lbs => uuid_ok lb s && match step lb s with Some s' => uuids_ok lbs s' | None => true end
  end.

Lemma uuids_ok_sound lbs s : uuids_ok lbs s = true -> uuids_along lbs s.
Proof.
  revert s; induction lbs as [|lb lbs IH]; intros s; cbn; [done|]. intros [H1 H2]%andb_prop. split.
  - destruct lb as [| | | | |t t' e]; try done. cbn in *. unfold fresh_for.
    destruct (factory e), (connections (pool s)); try done. by apply bool_decide_eq_true in H1.
  - intros s' Hs. rewrite Hs in H2. by apply IH.
Qed.

(** Runs whose decisions leave at most [k] creations pending. *)
Fixpoint run_k (k : Z) (lbs : list label) (s : sys) : option sys :=
  match lbs with
  | [] => Some s
  | lb :: lbs =>
      s' ← step lb s;
      if (all_creating s' <=? all_creating s) || (all_creating s' <=? k)
      then run_k k lbs s' else None
  end.

Lemma run_k_reachable c k lbs s s' : reachable_k c k s -> run_k k lbs s = Some s' -> reachable_k c k s'.
Proof.
  revert s; induction lbs as [|lb lbs IH]; intros s Hr; cbn; [by intros [= <-]|].
  destruct (step lb s) as [s1|] eqn:E; cbn; [|done].
  destruct (_ || _) eqn:Ek; [|done]. apply IH. eapply reach_k_step; [done..|].
  apply orb_true_iff in Ek as [?|?]; [left|right]; lia.
Qed.

Definition small : Config :=
  {| MinSize := 0; MaxSize := 1; MaxIdleTime := Minute; MaxLifetime := Minute; AcquireTimeout := Second; HealthCheckInterval := Second |}.
Definition env_of (i : string) (r : choice) : env :=
  {| now1 := 0; now2 := 0; now3 := 0; alive := true; ping_ok := true; factory := Ok i; ready := r |}.

(** [n] steps of thread [t]. *)
Definition steps (t n : nat) (e : env) : list label := repeat (LStep t 9 e) n.

(** The start of the pool, and one client that acquires. *)
Definition one_client : list label :=
  steps 0 2 (env_of "x" Proceed) ++ [LAcquire 1 (env_of "x" Proceed)] ++ steps 1 3 (env_of "x" Proceed) ++
  steps 1 1 (env_of "a" Proceed) ++ steps 1 6 (env_of "x" Proceed).
(** A second waits and gives up; the first releases. *)
Definition leak_trace : list label :=
  one_client ++ [LAcquire 2 (env_of "x" Proceed)] ++ steps 2 4 (env_of "x" Proceed) ++ steps 2 4 (env_of "x" TimedOut) ++
  [LRelease 3 0] ++ steps 3 5 (env_of "x" Proceed).
(** A third client then waits in vain. *)
Definition later_trace : list label :=
  [LAcquire 4 (env_of "x" Proceed)] ++ steps 4 4 (env_of "x" Proceed) ++ steps 4 4 (env_of "x" TimedOut).

Definition leaked : sys := default (NewPool small) (run leak_trace (NewPool small)).
Definition later : sys := default leaked (run later_trace leaked).

Lemma leaked_run : run leak_trace (NewPool small) = Some leaked.
Proof. vm_compute. reflexivity. Qed.
Lemma later_run : run later_trace leaked = Some later.
Proof. vm_compute. reflexivity. Qed.

Lemma leaked_reachable : reachable small leaked.
Proof.
  eapply pool_run_reachable; [apply reach_new| |apply leaked_run]. apply uuids_ok_sound. vm_compute. reflexivity.
Qed.

Lemma leaked_stranded : stranded 1 0 leaked.
Proof.
  split.
  - split_and!; [exists false; vm_compute; reflexivity| |].
    + change (waiters (pool leaked)) with (@nil nat). set_solver.
    + change (next (pool leaked)) with 2%nat. lia.
  - intros t th. assert (threads leaked = ∅) as -> by (vm_compute; reflexivity). by rewrite lookup_empty.
Qed.

Lemma stale_waiter_leaks_witness : held later = [] /\ 0%nat ∉ idle (pool later) /\ size_of (pool later) = 1.
Proof.
  destruct (stale_waiter_leaks small leaked 1 0 later_trace later leaked_reachable leaked_stranded) as (_ & H & _).
  - apply uuids_ok_sound. vm_compute. reflexivity.
  - apply later_run.
  - vm_compute. reflexivity.
  - split_and!; [vm_compute; reflexivity|exact H|vm_compute; reflexivity].
Defined.

(** One connection, held by the first client. *)
Definition acquired_state : sys := default (NewPool small) (run one_client (NewPool small)).

Lemma pool_ownership_witness : held acquired_state = [0%nat] /\ 0%nat ∉ idle (pool acquired_state).
Proof.
  assert (held acquired_state = [0%nat]) as Hh by (vm_compute; reflexivity). split; [exact Hh|].
  destruct (pool_ownership small acquired_state) as (_ & _ & H & _).
  - apply (pool_run_reachable small one_client (NewPool small)); [apply reach_new| |vm_compute; reflexivity].
    apply uuids_ok_sound. vm_compute. reflexivity.
  - vm_compute. reflexivity.
  - apply H. rewrite Hh. left.
Defined.

(** Between the lock and the counter: the map has the connection, the total not yet. *)
Example counters_lag_behind :
  let s := default (NewPool small) (run (steps 0 2 (env_of "x" Proceed) ++ [LAcquire 1 (env_of "x" Proceed)] ++
                                         steps 1 4 (env_of "a" Proceed)) (NewPool small)) in
  size_of (pool s) = 1 /\ TotalConnections (stats (pool s)) = 0 /\ pending CTotal s = 1.
Proof. vm_compute. auto. Qed.

(** Two acquirers pass the check before either creates: the bound is reached. *)
Definition race_trace : list label :=
  steps 0 2 (env_of "x" Proceed) ++
  [LAcquire 1 (env_of "x" Proceed)] ++ steps 1 3 (env_of "x" Proceed) ++
  [LAcquire 2 (env_of "x" Proceed)] ++ steps 2 3 (env_of "x" Proceed) ++
  steps 1 1 (env_of "a" Proceed) ++ steps 2 1 (env_of "b" Proceed).
Definition raced : sys := default (NewPool small) (run_k 2 race_trace (NewPool small)).

Lemma pool_capacity_witness : size_of (pool raced) <= 2 /\ size_of (pool raced) = 2.
Proof.
  split; [|vm_compute; reflexivity].
  apply (pool_capacity small 2 raced); [lia|].
  apply (run_k_reachable small 2 race_trace (NewPool small)); [apply reach_k_new|vm_compute; reflexivity].
Defined.

(** [Close] closes an idle connection both when it drains the channel and when it walks the map. *)
Example idle_closed_twice :
  closes (pool (default (NewPool small)
    (run (one_client ++ [LRelease 3 0] ++ steps 3 6 (env_of "x" Proceed) ++ [LClose 5] ++ steps 5 10 (env_of "x" Proceed))
       (NewPool small)))) = [0%nat; 0%nat].
Proof. vm_compute. reflexivity. Qed.

(** An acquirer that passed the closed check before [Close] finished receives nil from
    the closed idle channel. *)
Example acquire_races_close :
  crashed (default (NewPool small)
    (run (steps 0 2 (env_of "x" Proceed) ++ [LAcquire 1 (env_of "x" Proceed)] ++ steps 1 1 (env_of "x" Proceed) ++
          [LClose 5] ++ steps 5 5 (env_of "x" Proceed) ++ steps 1 1 (env_of "x" Proceed)) (NewPool small))) = Some NilDereference.
Proof. vm_compute. reflexivity. Qed.

End PoolTheorems.
