(* ===== verification/PooledClient.v ===== *)
(** * The pooled gateway client

    [services/router/internal/pool/manager.go]: the client that takes its connection
    from a pool.  The pool is used through its three calls; [Acquire] returns the
    pool's own wrapper, whose dynamic type is [*pooledConn].  The mutex is not
    reentrant: locking it twice hangs the goroutine. *)
From S2P Require Import Prelude.
#[local] Open Scope Z_scope.

Module PooledClient.

(** The dynamic type of an interface value of type Connection. *)
Inductive Connection := GenericConnection (client : nat) | PooledConn (l : nat).

Inductive hang := Deadlock | NilDereference.

Section Client.

(** A pool and its calls: [NewWebSocketPool] or [NewTCPPool], [Acquire], [Release], [Close]. *)
Context {P : Type}.
Variable new_pool : result string P.
Variable Acquire : P -> result string nat * P.
Variable Release : Connection -> P -> option string * P.
Variable pool_Close : P -> option string * P.
(** [IsAlive] of a connection, and the calls of a client. *)
Variable IsAlive : Connection -> bool.
Variable client_call : nat -> option string.

Record PooledGatewayClient := mkClient {
  wsPool : option P;
  tcpPool : option P;
  isWebSocket : bool;
  locked : bool;
  current : option Connection;
  calls : list nat;          (* calls made on underlying clients *)
}.

Definition NewPooledGatewayClient (url_scheme : result string string) : result string PooledGatewayClient :=
  match url_scheme with
  | Err e => Err ("invalid gateway URL: " +:+ e)
  | Ok scheme =>
      if bool_decide (scheme ∈ ["ws"; "wss"]) then
        match new_pool with
        | Err e => Err ("failed to create WebSocket pool: " +:+ e)
        | Ok p => Ok {| wsPool := Some p; tcpPool := None; isWebSocket := true; locked := false; current := None; calls := [] |}
        end
      else if bool_decide (scheme ∈ ["tcp"; "tcps"; "tcp+tls"]) then
        match new_pool with
        | Err e => Err ("failed to create TCP pool: " +:+ e)
        | Ok p => Ok {| wsPool := None; tcpPool := Some p; isWebSocket := false; locked := false; current := None; calls := [] |}
        end
      else Err ("unsupported URL scheme: " +:+ scheme)
  end%string.

Notation op A := (M PooledGatewayClient hang A).

Definition set_current (c : option Connection) : op unit := fun s =>
  (Ok tt, mkClient (wsPool s) (tcpPool s) (isWebSocket s) (locked s) c (calls s)).
Definition lock : op unit := fun s =>
  if locked s then (Err Deadlock, s)
  else (Ok tt, mkClient (wsPool s) (tcpPool s) (isWebSocket s) true (current s) (calls s)).
Definition unlock : op unit := fun s =>
  (Ok tt, mkClient (wsPool s) (tcpPool s) (isWebSocket s) false (current s) (calls s)).
Definition get_current : op (option Connection) := fun s => (Ok (current s), s).

(** A call of the pool that [isWebSocket] selects. *)
Definition on_pool {A} (f : P -> A * P) : op A := fun s =>
  if isWebSocket s then
    match wsPool s with
    | Some p => let '(a, p') := f p in (Ok a, mkClient (Some p') (tcpPool s) (isWebSocket s) (locked s) (current s) (calls s))
    | None => (Err NilDereference, s)
    end
  else
    match tcpPool s with
    | Some p => let '(a, p') := f p in (Ok a, mkClient (wsPool s) (Some p') (isWebSocket s) (locked s) (current s) (calls s))
    | None => (Err NilDereference, s)
    end.

Definition acquireConnection : op (result string Connection) :=
  r ← on_pool Acquire;
  mret (match r with Ok l => Ok (PooledConn l) | Err e => Err e end).

Definition releaseConnection : op unit :=
  _ ← lock;
  c ← get_current;
  match c with
  | None => unlock
  | Some c => _ ← on_pool (Release c); _ ← set_current None; unlock
  end.

Definition Connect : op (option string) :=
  _ ← lock;
  c ← get_current;
  _ ← (match c with Some _ => releaseConnection | None => mret tt end : op unit);
  r ← acquireConnection;
  match r with
  | Err e => _ ← unlock; mret (Some ("failed to acquire connection: " +:+ e)%string)
  | Ok conn => _ ← set_current (Some conn); _ ← unlock; mret None
  end.

(** [p.mu.Lock(); conn := p.current; p.mu.Unlock()]. *)
Definition locked_current : op (option Connection) :=
  _ ← lock; c ← get_current; _ ← unlock; mret c.

(** [conn.( *GenericConnection)] and the call on its client. *)
Definition call_generic (conn : Connection) : op (option string) := fun s =>
  match conn with
  | GenericConnection cl =>
      (Ok (client_call cl), mkClient (wsPool s) (tcpPool s) (isWebSocket s) (locked s) (current s) (cl :: calls s))
  | PooledConn _ => (Ok (Some "type assertion failed"%string), s)
  end.

Definition SendRequest : op (option string) :=
  c ← locked_current;
  match c with
  | Some conn => call_generic conn
  | None =>
      err ← Connect;
      match err with
      | Some e => mret (Some ("not connected and failed to auto-connect: " +:+ e)%string)
      | None =>
          c ← locked_current;
          match c with
          | Some conn => call_generic conn
          | None => mret (Some "type assertion failed"%string)   (* nil.( *GenericConnection) *)
          end
      end
  end.

Definition ReceiveResponse : op (option string) :=
  c ← locked_current;
  match c with None => mret (Some "not connected"%string) | Some conn => call_generic conn end.

Definition SendPing : op (option string) :=
  c ← locked_current;
  match c with None => mret (Some "not connected"%string) | Some conn => call_generic conn end.

Definition close_pools : op (option string) := fun s =>
  match wsPool s, tcpPool s with
  | Some p, t => let '(e, p') := pool_Close p in (Ok e, mkClient (Some p') t (isWebSocket s) (locked s) (current s) (calls s))
  | None, Some p => let '(e, p') := pool_Close p in (Ok e, mkClient None (Some p') (isWebSocket s) (locked s) (current s) (calls s))
  | None, None => (Ok None, s)
  end.

Definition Close : op (option string) := _ ← releaseConnection; close_pools.

Definition IsConnected : op bool :=
  _ ← lock; c ← get_current; _ ← unlock;
  mret (match c with Some conn => IsAlive conn | None => false end).

(** ** What callers can observe *)

Inductive call := CConnect | CSend | CReceive | CPing | CClose | CIsConnected.

Definition run_call (c : call) : op (option string) :=
  match c with
  | CConnect => Connect | CSend => SendRequest | CReceive => ReceiveResponse | CPing => SendPing | CClose => Close
  | CIsConnected => _ ← IsConnected; mret None
  end.

Fixpoint run_calls (cs : list call) : op unit :=
  match cs with [] => mret tt | c :: cs => _ ← run_call c; run_calls cs end.

(** The client is unlocked, has the pool its URL selected, and holds at most a
    connection of that pool. *)
Definition client_inv (s : PooledGatewayClient) : Prop :=
  locked s = false /\ calls s = [] /\
  (if isWebSocket s then is_Some (wsPool s) else is_Some (tcpPool s)) /\
  (current s = None \/ exists l, current s = Some (PooledConn l)).

Lemma NewPooledGatewayClient_inv url s : NewPooledGatewayClient url = Ok s -> client_inv s /\ current s = None.
Proof.
  unfold NewPooledGatewayClient. destruct url as [u|]; [|done].
  repeat case_bool_decide; [destruct new_pool..|]; intros; simplify_eq; (split; [|done]); split_and!; cbn; eauto.
Qed.

Lemma on_pool_ok {A} (f : P -> A * P) s :
  (if isWebSocket s then is_Some (wsPool s) else is_Some (tcpPool s)) ->
  exists a s', on_pool f s = (Ok a, s') /\ isWebSocket s' = isWebSocket s /\
    (if isWebSocket s' then is_Some (wsPool s') else is_Some (tcpPool s')) /\
    locked s' = locked s /\ current s' = current s /\ calls s' = calls s.
Proof.
  unfold on_pool. destruct (isWebSocket s) eqn:Ews; intros [p Hp]; rewrite Hp; destruct (f p) as [a p'];
    eexists _, _; (split; [reflexivity|]); cbn; rewrite ?Ews; split_and!; eauto.
Qed.

Lemma locked_current_ok s : locked s = false -> exists s', locked_current s = (Ok (current s), s') /\
  locked s' = false /\ calls s' = calls s /\ current s' = current s /\ isWebSocket s' = isWebSocket s /\
  wsPool s' = wsPool s /\ tcpPool s' = tcpPool s.
Proof.
  intros Hl. unfold locked_current, lock, unlock, get_current, mbind, M_bind, mret, M_ret. rewrite Hl.
  eexists. split; [reflexivity|done].
Qed.

Lemma Connect_connected s : client_inv s -> current s <> None -> fst (Connect s) = Err Deadlock.
Proof.
  intros (Hl & _) Hc. unfold Connect, releaseConnection, lock, get_current, mbind, M_bind. rewrite Hl. cbn.
  by destruct (current s).
Qed.

Lemma Connect_fresh s :
  client_inv s -> current s = None ->
  exists r s', Connect s = (Ok r, s') /\ client_inv s' /\ (r = None -> current s' <> None).
Proof.
  intros (Hl & Hc & Hp & _) Hcur. unfold Connect, acquireConnection.
  unfold mbind at 1, M_bind at 1, lock. rewrite Hl. unfold get_current, mbind at 1, M_bind at 1. cbn. rewrite Hcur.
  set (s1 := mkClient _ _ _ _ _ _). destruct (on_pool_ok Acquire s1 Hp) as (a & s2 & E & E1 & E2 & E3 & E4 & E5).
  unfold mbind, M_bind. cbn. rewrite E. cbn.
  destruct a as [l|e]; eexists _, _; (split; [reflexivity|]); unfold client_inv; cbn; rewrite E1, ?E4, E5; cbn;
    rewrite E1 in E2; (split; [|done || by cbn]); split_and!; eauto.
Qed.

Lemma call_generic_pooled l s : call_generic (PooledConn l) s = (Ok (Some "type assertion failed"%string), s).
Proof. done. Qed.

(** The three operations that need a client end in an error. *)
Lemma client_ops_fail op s :
  client_inv s -> op ∈ [SendRequest; ReceiveResponse; SendPing] ->
  exists e s', op s = (Ok (Some e), s') /\ client_inv s'.
Proof.
  intros Hi Hop. pose proof Hi as (Hl & Hc & Hp & Hcur).
  destruct (locked_current_ok s Hl) as (s1 & E1 & L1 & C1 & K1 & W1 & P1 & P2).
  assert (client_inv s1) as Hi1 by (unfold client_inv; rewrite C1, K1, W1, P1, P2; done).
  repeat (apply elem_of_cons in Hop as [-> |Hop]); [| | |by apply elem_of_nil in Hop].
  - unfold SendRequest. rewrite (M_bind_ok _ _ _ _ _ E1).
    destruct Hcur as [H0|[l H0]]; rewrite H0; [|rewrite call_generic_pooled; eauto].
    destruct (Connect_fresh s1 Hi1 ltac:(congruence)) as (r & s2 & E2 & Hi2 & Hr).
    rewrite (M_bind_ok _ _ _ _ _ E2). destruct r as [e|]; [by eexists _, _|].
    pose proof Hi2 as (L2 & C2 & Q2 & Hcur2).
    destruct (locked_current_ok s2 L2) as (s3 & E3 & L3 & C3 & K3 & W3 & P3 & P4).
    rewrite (M_bind_ok _ _ _ _ _ E3). destruct Hcur2 as [H2|[l H2]]; [by destruct (Hr eq_refl)|].
    rewrite H2, call_generic_pooled. eexists _, _. split; [done|]. unfold client_inv.
    rewrite C3, K3, W3, P3, P4. split_and!; eauto.
  - unfold ReceiveResponse. rewrite (M_bind_ok _ _ _ _ _ E1).
    destruct Hcur as [H0|[l H0]]; rewrite H0; [by eexists _, _|rewrite call_generic_pooled; eauto].
  - unfold SendPing. rewrite (M_bind_ok _ _ _ _ _ E1).
    destruct Hcur as [H0|[l H0]]; rewrite H0; [by eexists _, _|rewrite call_generic_pooled; eauto].
Qed.

Lemma releaseConnection_ok s : client_inv s -> exists s', releaseConnection s = (Ok tt, s') /\ client_inv s'.
Proof.
  intros (Hl & Hc & Hp & Hcur). unfold releaseConnection, lock, get_current, mbind, M_bind. rewrite Hl. cbn.
  destruct (current s) as [conn|] eqn:Ec.
  - set (s1 := mkClient _ _ _ _ _ _). destruct (on_pool_ok (Release conn) s1 Hp) as (a & s2 & E & E1 & E2 & E3 & E4 & E5).
    rewrite E. eexists. split; [reflexivity|]. unfold client_inv; cbn. rewrite E5. split_and!; eauto.
  - eexists. split; [reflexivity|]. unfold client_inv; cbn. rewrite ?Ec. split_and!; eauto.
Qed.

Lemma close_pools_inv s r s' : client_inv s -> close_pools s = (Ok r, s') -> client_inv s'.
Proof.
  destruct s as [[w|] [t|] ws lk cur cl]; unfold client_inv, close_pools; cbn; intros (A1 & A2 & A3 & A4);
    try destruct (pool_Close _) as [e p']; intros [= <- <-]; cbn; (split; [done|]); (split; [done|]);
    (split; [|done]); destruct ws; eauto.
Qed.

(** An operation that ends keeps the invariant. *)
Lemma run_call_inv c s r s' : client_inv s -> run_call c s = (Ok r, s') -> client_inv s'.
Proof.
  intros Hi. pose proof Hi as (Hl & Hc & Hp & Hcur).
  assert (forall op, op ∈ [SendRequest; ReceiveResponse; SendPing] -> op s = (Ok r, s') -> client_inv s') as F.
  { intros op Hop E. destruct (client_ops_fail op s Hi Hop) as (e & s1 & E1 & H1). congruence. }
  destruct c; cbn [run_call].
  - intros E. destruct (decide (current s = None)) as [H0|H0].
    + destruct (Connect_fresh s Hi H0) as (r0 & s1 & E1 & H1 & _). congruence.
    + pose proof (Connect_connected s Hi H0) as D. by rewrite E in D.
  - apply F. left.
  - apply F. right. left.
  - apply F. right. right. left.
  - intros (u & s1 & E1 & E2)%M_bind_ok_inv. destruct (releaseConnection_ok s Hi) as (s2 & E3 & H2).
    rewrite E3 in E1. injection E1 as _ <-. by eapply close_pools_inv.
  - unfold IsConnected, lock, unlock, get_current, mbind, M_bind. rewrite Hl. cbn. intros [= <- <-].
    unfold client_inv. cbn. by split_and!.
Qed.

Lemma run_calls_inv cs s s' : client_inv s -> run_calls cs s = (Ok tt, s') -> client_inv s'.
Proof.
  revert s; induction cs as [|c cs IH]; intros s Hi; [by intros [= <-]|]. cbn [run_calls].
  intros (r & s1 & H1 & H2)%M_bind_ok_inv. apply (IH s1); [|done]. by eapply run_call_inv.
Qed.

(** Whatever calls are made, no request, receive or ping ever reaches a client: the
    assertion expects a GenericConnection and the pool hands out its wrapper.  A second
    Connect hangs on the client's own mutex. *)
Lemma pooled_client_unusable (url : result string string) (s0 s : PooledGatewayClient) (cs : list call) :
  NewPooledGatewayClient url = Ok s0 -> run_calls cs s0 = (Ok tt, s) ->
  calls s = [] /\
  (forall op, op ∈ [SendRequest; ReceiveResponse; SendPing] ->
     exists e s', op s = (Ok (Some e), s') /\ calls s' = []) /\
  (current s <> None -> fst (Connect s) = Err Deadlock).
Proof.
  intros Hn Hr. destruct (NewPooledGatewayClient_inv _ _ Hn) as [Hi0 _].
  pose proof (run_calls_inv _ _ _ Hi0 Hr) as Hi. split_and!; [apply Hi| |by apply Connect_connected].
  intros op Hop. destruct (client_ops_fail op s Hi Hop) as (e & s' & E & H). exists e, s'. split; [done|apply H].
Qed.

End Client.

Lemma pooled_client_unusable_witness :
  exists s0 s, NewPooledGatewayClient (Ok tt) (Ok "wss"%string) = Ok s0 /\
    run_calls (fun p => (Ok 0%nat, p)) (fun _ p => (None, p)) (fun p => (None, p)) (fun _ => true) (fun _ => None) [CConnect] s0 = (Ok tt, s) /\
    fst (Connect (fun p => (Ok 0%nat, p)) (fun _ p => (None, p)) s) = Err Deadlock.
Proof.
  eexists _, _. split; [reflexivity|]. split; [reflexivity|].
  eapply (pooled_client_unusable (Ok tt) (fun p => (Ok 0%nat, p)) (fun _ p => (None, p)) (fun p => (None, p)) (fun _ => true) (fun _ => None)
    (Ok "wss"%string) _ _ [CConnect]); [reflexivity|reflexivity|done].
Defined.

End PooledClient.
