(* ===== verification/Mcp.v ===== *)
(** * MCP messages

    [services/router/pkg/mcp/types.go]: the JSON-RPC messages both services exchange.
    A field of type interface{} holds a JSON value; encoding/json is a class. *)
From S2P Require Import Prelude GoStrings GoUnicode.
From Stdlib Require Import Strings.Ascii.
#[local] Open Scope Z_scope.

(** A decoded JSON value; a number is a float64, named here by an integer. *)
Inductive jvalue :=
| JNull | JBool (b : bool) | JNumber (n : Z) | JString (s : string)
| JArray (l : list jvalue) | JObject (l : list (string * jvalue)).

#[export] Instance jvalue_eq_dec : EqDecision jvalue.
Proof.
  refine (fix go v1 v2 := let _ : EqDecision jvalue := @go in
    match v1, v2 with
    | JNull, JNull => left _
    | JBool b, JBool b' => cast_if (decide (b = b'))
    | JNumber n, JNumber n' => cast_if (decide (n = n'))
    | JString s, JString s' => cast_if (decide (s = s'))
    | JArray l, JArray l' => cast_if (decide (l = l'))
    | JObject l, JObject l' => cast_if (decide (l = l'))
    | _, _ => right _
    end); abstract congruence.
Defined.

Record mcpError := mkMcpError { Code : Z; Message : string; Data : jvalue }.
Record Request := mkRequest { req_JSONRPC : string; Method : string; ReqParams : jvalue; req_ID : jvalue }.
Record Response := mkResponse { resp_JSONRPC : string; Result : jvalue; RespError : option mcpError; resp_ID : jvalue }.

#[export] Instance mcpError_eq_dec : EqDecision mcpError.
Proof. solve_decision. Defined.
#[export] Instance Request_eq_dec : EqDecision Request.
Proof. solve_decision. Defined.
#[export] Instance Response_eq_dec : EqDecision Response.
Proof. solve_decision. Defined.

Definition ErrorCodeParseError : Z := -32700.
Definition ErrorCodeInvalidRequest : Z := -32600.
Definition ErrorCodeMethodNotFound : Z := -32601.
Definition ErrorCodeInvalidParams : Z := -32602.
Definition ErrorCodeInternalError : Z := -32603.

(** The field of an object, [params["key"]] on a [map[string]interface{}]. *)
Definition field (k : string) (v : jvalue) : option jvalue :=
  match v with
  | JObject l => snd <$> List.find (fun kv => bool_decide (fst kv = k)) l
  | _ => None
  end.

(** ** Map keys

    A Go map with interface keys hashes the dynamic value; arrays and objects decode to
    slices and maps, which have no hash: using them as a key panics. *)
Inductive key := KNull | KBool (b : bool) | KNumber (n : Z) | KString (s : string).

#[export] Instance key_eq_dec : EqDecision key.
Proof. solve_decision. Defined.
#[export] Instance key_countable : Countable key.
Proof.
  refine (inj_countable' (fun k => match k with
      | KNull => inl tt | KBool b => inr (inl b) | KNumber n => inr (inr (inl n)) | KString s => inr (inr (inr s)) end)
    (fun x => match x with
      | inl _ => KNull | inr (inl b) => KBool b | inr (inr (inl n)) => KNumber n | inr (inr (inr s)) => KString s end) _).
  by intros [].
Defined.

Definition hash (v : jvalue) : option key :=
  match v with
  | JNull => Some KNull | JBool b => Some (KBool b) | JNumber n => Some (KNumber n) | JString s => Some (KString s)
  | JArray _ | JObject _ => None
  end.

Definition unhash (k : key) : jvalue :=
  match k with KNull => JNull | KBool b => JBool b | KNumber n => JNumber n | KString s => JString s end.

Lemma hash_unhash k : hash (unhash k) = Some k.
Proof. by destruct k. Qed.

(** ** encoding/json on messages

    Marshal writes a struct as compact text: an object in braces without raw line breaks.  It replaces invalid UTF-8,
    and writes the keys of a map in increasing order; a value that reads back as it is has valid texts only, and lists
    its keys in that order, none twice. *)
Fixpoint increasing (ks : list string) : bool :=
  match ks with
  | k :: ((k' :: _) as ks) => String.ltb k k' && increasing ks
  | _ => true
  end.
Fixpoint reads_back (v : jvalue) : bool :=
  match v with
  | JString s => ValidString s
  | JArray l => forallb reads_back l
  | JObject l => increasing (map fst l) && forallb (fun kv => ValidString (fst kv) && reads_back (snd kv)) l
  | _ => true
  end.
Definition response_reads_back (r : Response) : bool :=
  ValidString (resp_JSONRPC r) && reads_back (Result r) && reads_back (resp_ID r) &&
  match RespError r with Some e => ValidString (Message e) && reads_back (Data e) | None => true end.

Class JSON := {
  Marshal_request : Request -> result string string;
  Marshal_response : Response -> result string string;
  Unmarshal_response : string -> result string Response;
  marshal_one_line : forall r s, Marshal_response r = Ok s -> str_mem "010"%char s = false;
  marshal_object : forall r s, Marshal_response r = Ok s -> exists t, s = String "{"%char (t +:+ "}");
  unmarshal_marshal : forall r s, response_reads_back r = true -> Marshal_response r = Ok s -> Unmarshal_response s = Ok r;
}.

(** ** A codec

    A concrete codec that meets the laws of the class, for executable examples: a message is written in
    braces as the digits of its number. *)
Module Codec.

Fixpoint to_tree (v : jvalue) : gen_tree key :=
  match v with
  | JNull => GenLeaf KNull | JBool b => GenLeaf (KBool b) | JNumber n => GenLeaf (KNumber n) | JString s => GenLeaf (KString s)
  | JArray l => GenNode 0 (map to_tree l)
  | JObject l => GenNode 1 (map (fun kv => GenNode 2 [GenLeaf (KString (fst kv)); to_tree (snd kv)]) l)
  end.

Fixpoint of_tree (t : gen_tree key) : jvalue :=
  match t with
  | GenLeaf k => unhash k
  | GenNode 0 ts => JArray (map of_tree ts)
  | GenNode _ ts =>
      JObject (map (fun t => match t with GenNode _ [GenLeaf (KString k); t'] => (k, of_tree t') | _ => (EmptyString, JNull) end) ts)
  end.

Lemma of_to_tree : forall v, of_tree (to_tree v) = v.
Proof.
  fix IH 1. intros [| | | |l|l]; cbn; try done; f_equal.
  - induction l as [|v l IHl]; cbn; f_equal; [apply IH|exact IHl].
  - induction l as [|[k v] l IHl]; cbn; f_equal; [f_equal; apply IH|exact IHl].
Qed.

#[export] Instance jvalue_countable : Countable jvalue := inj_countable' to_tree of_tree of_to_tree.
#[export] Instance mcpError_countable : Countable mcpError.
Proof. refine (inj_countable' (fun e => (Code e, Message e, Data e)) (fun '(c, m, d) => mkMcpError c m d) _). by intros []. Defined.
#[export] Instance Response_countable : Countable Response.
Proof.
  refine (inj_countable' (fun r => (resp_JSONRPC r, Result r, RespError r, resp_ID r)) (fun '(j, r, e, i) => mkResponse j r e i) _).
  by intros [].
Defined.

Fixpoint digits (p : positive) : string :=
  match p with xH => "}" | xO p => String "0" (digits p) | xI p => String "1" (digits p) end%string.
Fixpoint number (s : string) : option positive :=
  match s with
  | String "0"%char s => xO <$> number s
  | String "1"%char s => xI <$> number s
  | String "}"%char EmptyString => Some xH
  | _ => None
  end.

Lemma number_digits p : number (digits p) = Some p.
Proof. induction p as [p IH|p IH|]; cbn; [by rewrite IH..|done]. Qed.
Lemma digits_one_line p : str_mem "010"%char (digits p) = false.
Proof. by induction p. Qed.
Lemma digits_end p : exists t, digits p = (t +:+ "}")%string.
Proof. induction p as [p [t E]|p [t E]|]; cbn; [exists (String "1" t)|exists (String "0" t)|exists EmptyString]; by rewrite ?E. Qed.

Definition encode_response (r : Response) : string := String "{"%char (digits (encode r)).
Definition decode_response (s : string) : result string Response :=
  match s with
  | String "{"%char s => match number s ≫= decode with Some r => Ok r | None => Err "syntax error"%string end
  | _ => Err "syntax error"%string
  end.

#[refine] Instance codec : JSON := {|
  Marshal_request := fun r => Ok (Method r);
  Marshal_response := fun r => Ok (encode_response r);
  Unmarshal_response := decode_response |}.
Proof.
  - intros r s [= <-]. unfold encode_response. cbn. apply digits_one_line.
  - intros r s [= <-]. destruct (digits_end (encode r)) as [t E]. exists t. unfold encode_response. by rewrite E.
  - intros r s _ [= <-]. unfold encode_response, decode_response. rewrite number_digits. cbn [mbind option_bind]. by rewrite decode_encode.
Defined.

End Codec.
