(* ===== verification/SseStream.v ===== *)
(** * Server-sent event streams of the gateway router

    The SSE part of [services/gateway/internal/router/router.go]: [parseSSEResponse],
    [readInitializeResponseFromSSE], [readSSEStream] and the pending requests of an
    [sseStream].  Every access to the pending map under its mutex is one action; the
    response channels (capacity one) are a store. *)
From S2P Require Import Prelude GoStrings GoUnicode Mcp.
From Stdlib Require Import Strings.Ascii.
#[local] Open Scope Z_scope.

Module Sse.

Section Sse.
Context `{JSON}.

Definition newline : ascii := "010"%char.
Definition data_prefix : string := "data: ".

(** [strings.TrimPrefix(line, "data: ")] of a line with that prefix. *)
Fixpoint str_drop (n : nat) (s : string) : string :=
  match n, s with O, _ => s | S n, String _ s' => str_drop n s' | S _, EmptyString => EmptyString end.
Definition TrimData (line : string) : string := str_drop (String.length data_prefix) line.

(** ** Whole bodies *)

Inductive sse_error := ParseError (e : string) | NoData | ReadError.

Fixpoint parse_lines (lines : list string) : result sse_error Response :=
  match lines with
  | [] => Err NoData
  | line :: lines =>
      let line := TrimSpace line in
      if HasPrefix line data_prefix then
        match Unmarshal_response (TrimData line) with
        | Ok resp => Ok resp
        | Err e => Err (ParseError e)
        end
      else parse_lines lines
  end.

Definition parseSSEResponse (respBody : string) : result sse_error Response :=
  parse_lines (SplitByte newline respBody).

(** ** Streams *)

(** [reader.ReadString('\n')] on what is left of the stream; at the end of the input an
    unfinished line is lost with the error. *)
Fixpoint ReadString (s : string) : option (string * string) :=
  match s with
  | EmptyString => None
  | String a s' =>
      if Ascii.eqb a newline then Some (String a EmptyString, s')
      else match ReadString s' with Some (l, rest) => Some (String a l, rest) | None => None end
  end.

(** The lines a reader gets before the error. *)
Fixpoint read_all (fuel : nat) (s : string) : list string :=
  match fuel with
  | O => []
  | S fuel => match ReadString s with Some (l, rest) => l :: read_all fuel rest | None => [] end
  end.

Definition skipped (line : string) : bool := bool_decide (line = EmptyString) || HasPrefix line ":".

(** [readInitializeResponseFromSSE] over the lines of the stream: the response and the
    lines left for [readSSEStream]. *)
Fixpoint readInitializeResponseFromSSE (lines : list string) : result sse_error (Response * list string) :=
  match lines with
  | [] => Err ReadError
  | line :: rest =>
      let line := TrimSpace line in
      if skipped line then readInitializeResponseFromSSE rest
      else if HasPrefix line data_prefix then
        match Unmarshal_response (TrimData line) with
        | Ok resp => Ok (resp, rest)
        | Err e => Err (ParseError e)
        end
      else readInitializeResponseFromSSE rest
  end.

(** The response a line of the stream carries, if any. *)
Definition line_response (line : string) : option Response :=
  let line := TrimSpace line in
  if skipped line then None
  else if HasPrefix line data_prefix then
    match Unmarshal_response (TrimData line) with Ok resp => Some resp | Err _ => None end
  else None.

Lemma ReadString_shorter s l rest : ReadString s = Some (l, rest) -> (String.length rest < String.length s)%nat.
Proof.
  revert l; induction s as [|a s IH]; intros l; cbn; [done|].
  destruct (Ascii.eqb a newline); [intros [= <- <-]; lia|].
  destruct (ReadString s) as [[l' r]|]; [|done]. intros [= <- <-]. specialize (IH l' eq_refl). lia.
Qed.

(** The length of the input is enough fuel: more changes nothing. *)
Lemma read_all_enough n m s :
  (String.length s <= n)%nat -> (String.length s <= m)%nat -> read_all n s = read_all m s.
Proof.
  revert m s; induction n as [|n IH]; intros m s Hn Hm.
  - destruct s; [|cbn in Hn; lia]. by destruct m.
  - destruct m as [|m]; [destruct s; [done|cbn in Hm; lia]|]. cbn.
    destruct (ReadString s) as [[l rest]|] eqn:E; [|done]. apply ReadString_shorter in E. f_equal. apply IH; lia.
Qed.

(** ** Pending requests *)

Record rchan := mkRchan { rbuf : option Response; rclosed : bool }.

Record sseStream := mkStream {
  sessionID : string;
  pendingRequests : gmap key nat;
  rchans : gmap nat rchan;
  next_chan : nat;
}.

Definition new_stream (sid : string) : sseStream :=
  {| sessionID := sid; pendingRequests := ∅; rchans := ∅; next_chan := 0 |}.

Inductive panic := UnhashableKey | SendOnClosed.

Notation act A := (M sseStream panic A).

(** [respChan := make(chan, 1); pendingRequests[req.ID] = respChan]. *)
Definition register (id : jvalue) : act nat := fun s =>
  let ch := next_chan s in
  match hash id with
  | None => (Err UnhashableKey, s)
  | Some k => (Ok ch, {| sessionID := sessionID s; pendingRequests := <[k := ch]> (pendingRequests s);
                         rchans := <[ch := mkRchan None false]> (rchans s); next_chan := S ch |})
  end.

(** [delete(pendingRequests, req.ID)]. *)
Definition unregister (id : jvalue) : act unit := fun s =>
  match hash id with
  | None => (Err UnhashableKey, s)
  | Some k => (Ok tt, {| sessionID := sessionID s; pendingRequests := delete k (pendingRequests s);
                         rchans := rchans s; next_chan := next_chan s |})
  end.

(** Delivery of a response by the reader: a non-blocking send, then the entry goes. *)
Definition deliver (resp : Response) : act unit := fun s =>
  match hash (resp_ID resp) with
  | None => (Err UnhashableKey, s)
  | Some k =>
      match pendingRequests s !! k with
      | None => (Ok tt, s)
      | Some ch =>
          match rchans s !! ch with
          | Some (mkRchan _ true) => (Err SendOnClosed, s)
          | Some (mkRchan (Some _) false) | None =>
              (Ok tt, {| sessionID := sessionID s; pendingRequests := delete k (pendingRequests s);
                         rchans := rchans s; next_chan := next_chan s |})
          | Some (mkRchan None false) =>
              (Ok tt, {| sessionID := sessionID s; pendingRequests := delete k (pendingRequests s);
                         rchans := <[ch := mkRchan (Some resp) false]> (rchans s); next_chan := next_chan s |})
          end
      end
  end.

(** One iteration of [readSSEStream]. *)
Definition read_line (line : string) : act unit :=
  match line_response line with Some resp => deliver resp | None => mret tt end.

(** The deferred clean-up: every pending channel is closed (the entries stay). *)
Definition end_stream (s : sseStream) : sseStream :=
  {| sessionID := sessionID s; pendingRequests := pendingRequests s;
     rchans := map_imap (fun ch c =>
       Some (if bool_decide (ch ∈ (map_to_list (pendingRequests s)).*2) then mkRchan (rbuf c) true else c)) (rchans s);
     next_chan := next_chan s |}.

(** The select of a waiting request: a response, nil from a closed channel, or nothing yet. *)
Inductive received := GotResponse (r : Response) | GotNil | NotReady.
Definition receive (ch : nat) (s : sseStream) : received :=
  match rchans s !! ch with
  | Some (mkRchan (Some r) _) => GotResponse r
  | Some (mkRchan None true) => GotNil
  | _ => NotReady
  end.

(** ** Interleavings *)

Inductive sop := SRegister (id : jvalue) | SUnregister (id : jvalue) | SLine (line : string).

Definition run_sop (o : sop) : act unit :=
  match o with
  | SRegister id => _ ← register id; mret tt
  | SUnregister id => unregister id
  | SLine line => read_line line
  end.

Fixpoint run_sops (os : list sop) : act unit :=
  match os with [] => mret tt | o :: os => _ ← run_sop o; run_sops os end.

(** The registration of [k] is replaced or given up. *)
Definition replaces (k : key) (o : sop) : bool :=
  match o with
  | SRegister id | SUnregister id => bool_decide (hash id = Some k)
  | SLine _ => false
  end.

(** The first response for [k] among the lines read before its registration is replaced or given up. *)
Fixpoint answer_for (k : key) (os : list sop) : option Response :=
  match os with
  | [] => None
  | SLine line :: os =>
      match line_response line with
      | Some resp => if bool_decide (hash (resp_ID resp) = Some k) then Some resp else answer_for k os
      | None => answer_for k os
      end
  | o :: os => if replaces k o then None else answer_for k os
  end.

(** Distinct entries have distinct channels, allocated and open. *)
Record stream_inv (s : sseStream) : Prop := {
  st_inj : forall k k' ch, pendingRequests s !! k = Some ch -> pendingRequests s !! k' = Some ch -> k = k';
  st_open : forall k ch, pendingRequests s !! k = Some ch -> rchans s !! ch = Some (mkRchan None false);
  st_fresh : forall ch, (next_chan s <= ch)%nat -> rchans s !! ch = None;
}.

Lemma st_lt s k ch : stream_inv s -> pendingRequests s !! k = Some ch -> (ch < next_chan s)%nat.
Proof.
  intros [H1 H2 H3] Hk. destruct (decide (next_chan s <= ch)%nat) as [Hle|]; [|lia].
  specialize (H2 _ _ Hk). rewrite (H3 ch Hle) in H2. done.
Qed.

Lemma new_stream_inv sid : stream_inv (new_stream sid).
Proof. constructor; cbn; intros; simplify_map_eq; done. Qed.

Lemma register_spec id s k :
  stream_inv s -> hash id = Some k ->
  exists s', register id s = (Ok (next_chan s), s') /\ stream_inv s' /\
    pendingRequests s' = <[k := next_chan s]> (pendingRequests s) /\
    rchans s' = <[next_chan s := mkRchan None false]> (rchans s).
Proof.
  intros Hi Hk. unfold register. rewrite Hk. eexists. split; [reflexivity|]. split; [|done].
  pose proof Hi as [H1 H2 H3]. constructor; cbn.
  - assert (forall k1, pendingRequests s !! k1 <> Some (next_chan s)) as N
      by (intros k1 H0; pose proof (st_lt s k1 _ Hi H0); lia).
    intros k1 k2 ch. rewrite !lookup_insert.
    case_decide; case_decide; intros E1 E2; simplify_eq; try done; [by destruct (N k2)|by destruct (N k1)|by eapply H1].
  - intros k1 ch. rewrite lookup_insert. case_decide.
    + intros [= <-]. apply lookup_insert_eq.
    + intros E1. pose proof (st_lt s k1 _ Hi E1). rewrite lookup_insert_ne by lia. by eapply H2.
  - intros ch Hch. rewrite lookup_insert_ne by lia. apply H3. lia.
Qed.

Lemma unregister_inv id s : stream_inv s -> stream_inv (snd (unregister id s)).
Proof.
  intros [H1 H2 H3]. unfold unregister. destruct (hash id) as [k|]; [|done]. constructor; cbn; [| |done].
  - intros k1 k2 ch [_ ?]%lookup_delete_Some [_ ?]%lookup_delete_Some. by eapply H1.
  - intros k1 ch [_ ?]%lookup_delete_Some. by eapply H2.
Qed.

Lemma deliver_spec resp s k :
  stream_inv s -> hash (resp_ID resp) = Some k ->
  exists s', deliver resp s = (Ok tt, s') /\ stream_inv s' /\ next_chan s' = next_chan s /\
    pendingRequests s' = delete k (pendingRequests s) /\
    rchans s' = match pendingRequests s !! k with
                | Some ch => <[ch := mkRchan (Some resp) false]> (rchans s)
                | None => rchans s
                end.
Proof.
  intros Hi Hk. pose proof Hi as [H1 H2 H3]. unfold deliver. rewrite Hk.
  destruct (pendingRequests s !! k) as [ch|] eqn:E.
  - rewrite (H2 _ _ E). eexists. split; [reflexivity|]. split; [|done]. constructor; cbn.
    + intros k1 k2 c [_ ?]%lookup_delete_Some [_ ?]%lookup_delete_Some. by eapply H1.
    + intros k1 c [Hne Hc]%lookup_delete_Some. rewrite lookup_insert_ne; [by eapply H2|].
      intros ->. apply Hne. by eapply H1.
    + intros c Hc. rewrite lookup_insert_ne; [by apply H3|]. pose proof (st_lt s k ch Hi E). lia.
  - eexists. split; [reflexivity|]. rewrite delete_id by done. done.
Qed.

(** A channel that no entry names any more. *)
Definition settled (ch : nat) (s : sseStream) : Prop :=
  (ch < next_chan s)%nat /\ forall k, pendingRequests s !! k <> Some ch.

Lemma op_inv o s s' : stream_inv s -> run_sop o s = (Ok tt, s') -> stream_inv s'.
Proof.
  intros Hi. destruct o as [id|id|line]; cbn.
  - intros (ch & s1 & E1 & E2)%M_bind_ok_inv. injection E2 as <-. destruct (hash id) as [k|] eqn:Hk.
    + destruct (register_spec id s k Hi Hk) as (s2 & E & Hi2 & _). congruence.
    + unfold register in E1. by rewrite Hk in E1.
  - intros E. pose proof (unregister_inv id s Hi) as U. by rewrite E in U.
  - unfold read_line. destruct (line_response line) as [r|]; [|by intros [= <-]].
    destruct (hash (resp_ID r)) as [k|] eqn:Hk; intros E.
    + destruct (deliver_spec r s k Hi Hk) as (s2 & E2 & Hi2 & _). congruence.
    + unfold deliver in E. by rewrite Hk in E.
Qed.

Lemma settled_op o s s' ch :
  stream_inv s -> settled ch s -> run_sop o s = (Ok tt, s') -> settled ch s' /\ rchans s' !! ch = rchans s !! ch.
Proof.
  intros Hi [Hlt Hno]. destruct o as [id|id|line]; cbn.
  - intros (c & s1 & E1 & E2)%M_bind_ok_inv. injection E2 as <-. unfold register in E1.
    destruct (hash id) as [k|]; [|done]. injection E1 as <- <-. unfold settled; cbn. split_and!.
    + lia.
    + intros k'. rewrite lookup_insert. case_decide; [intros [= E]; lia|apply Hno].
    + rewrite lookup_insert_ne by lia. done.
  - unfold unregister. destruct (hash id) as [k|]; [|done]. intros [= <-]. unfold settled; cbn. split_and!; [done| |done].
    intros k' [_ E]%lookup_delete_Some. by destruct (Hno k').
  - unfold read_line. destruct (line_response line) as [r|]; [|by intros [= <-]].
    destruct (hash (resp_ID r)) as [k|] eqn:Hk; intros E; [|unfold deliver in E; by rewrite Hk in E].
    destruct (deliver_spec r s k Hi Hk) as (s2 & E2 & _ & En & Ep & Er). assert (s2 = s') as -> by congruence.
    unfold settled. rewrite En, Ep, Er. split_and!; [done| |].
    + intros k' [_ E']%lookup_delete_Some. by destruct (Hno k').
    + destruct (pendingRequests s !! k) as [c|] eqn:E'; [|done]. rewrite lookup_insert_ne; [done|].
      intros ->. by destruct (Hno k).
Qed.

Lemma settled_run os s s' ch :
  stream_inv s -> settled ch s -> run_sops os s = (Ok tt, s') -> settled ch s' /\ rchans s' !! ch = rchans s !! ch.
Proof.
  revert s; induction os as [|o os IH]; intros s Hi Hs; [by intros [= <-]|]. cbn [run_sops].
  intros ([] & s1 & E1 & E2)%M_bind_ok_inv. destruct (settled_op o s s1 ch Hi Hs E1) as [Hs1 Hr].
  destruct (IH s1 (op_inv o s s1 Hi E1) Hs1 E2) as [? Hr2]. split; [done|]. by rewrite Hr2.
Qed.

(** A channel whose entry has just gone, or never had one, keeps what it holds. *)
Lemma settles os s s1 s' ch k c :
  stream_inv s -> stream_inv s1 -> pendingRequests s !! k = Some ch -> (next_chan s <= next_chan s1)%nat ->
  (forall k', pendingRequests s1 !! k' = Some ch -> pendingRequests s !! k' = Some ch /\ k' <> k) ->
  rchans s1 !! ch = c -> run_sops os s1 = (Ok tt, s') -> rchans s' !! ch = c.
Proof.
  intros Hi Hi1 Hp Hn Hno <- E. destruct (settled_run os s1 s' ch Hi1) as [_ Hr]; [|done|done].
  split; [pose proof (st_lt s k ch Hi Hp); lia|]. intros k' [Hk' Hne]%Hno. apply Hne. exact (st_inj s Hi _ _ _ Hk' Hp).
Qed.

(** The entry of [k], whatever is registered, given up and read. *)
Lemma pending_run os k ch s s' :
  stream_inv s -> pendingRequests s !! k = Some ch -> run_sops os s = (Ok tt, s') ->
  rchans s' !! ch = Some (mkRchan (answer_for k os) false).
Proof.
  revert s; induction os as [|o os IH]; intros s Hi Hp; [intros [= <-]; by eapply st_open|].
  cbn [run_sops]. intros ([] & s1 & E1 & E2)%M_bind_ok_inv.
  pose proof (op_inv o s s1 Hi E1) as Hi1. pose proof (st_lt s k ch Hi Hp) as Hlt. pose proof (st_open s Hi _ _ Hp) as Ho.
  destruct o as [id|id|line]; cbn [answer_for replaces].
  - cbn in E1. apply M_bind_ok_inv in E1 as (c & s2 & E1 & E3). injection E3 as <-.
    destruct (hash id) as [k'|] eqn:Hk; [|unfold register in E1; by rewrite Hk in E1].
    assert (next_chan s2 = S (next_chan s)) as En by (unfold register in E1; rewrite Hk in E1; by injection E1 as _ <-).
    destruct (register_spec id s k' Hi Hk) as (s3 & E & _ & Ep & Ec). assert (s3 = s2) as -> by congruence.
    case_bool_decide as Ek.
    + injection Ek as ->. apply (settles os s s2 s' ch k); [done|done|done|lia| |by rewrite Ec, lookup_insert_ne by lia|done].
      intros k1. rewrite Ep, lookup_insert. case_decide; [intros [= E0]; lia|done].
    + apply (IH s2); [done| |done]. rewrite Ep, lookup_insert_ne; [done|]. congruence.
  - cbn in E1. unfold unregister in E1. destruct (hash id) as [k'|] eqn:Hk; [|done]. injection E1 as <-.
    case_bool_decide as Ek.
    + injection Ek as ->. eapply (settles os s _ s' ch k); [done|done|done|done| |done|done]. cbn.
      by intros k1 [Hne Hk1]%lookup_delete_Some.
    + apply (IH _ Hi1); [|done]. cbn. rewrite lookup_delete_ne; [done|]. congruence.
  - cbn in E1. unfold read_line in E1. destruct (line_response line) as [r|] eqn:Er; [|injection E1 as <-; by apply (IH s)].
    destruct (hash (resp_ID r)) as [k'|] eqn:Hk; [|unfold deliver in E1; by rewrite Hk in E1].
    destruct (deliver_spec r s k' Hi Hk) as (s3 & E & _ & En & Ep & Ec). assert (s3 = s1) as -> by congruence.
    case_bool_decide as Ek.
    + injection Ek as ->. rewrite Hp in Ec.
      apply (settles os s s1 s' ch k); [done|done|done|lia| |by rewrite Ec, lookup_insert_eq|done].
      intros k1. rewrite Ep. by intros [Hne Hk1]%lookup_delete_Some.
    + apply (IH s1); [done| |done]. rewrite Ep, lookup_delete_ne by congruence. done.
Qed.

(** ** Bodies *)

(** The event a server sends for a message, alone in a body. *)
Definition sse_event (json : string) : string :=
  ("event: message" +:+ String newline EmptyString +:+ data_prefix +:+ json +:+ str_of [10; 10])%string.

Lemma SplitByte_cons_line c s t : str_mem c s = false ->
  SplitByte c (s +:+ String c t) = s :: SplitByte c t.
Proof.
  induction s as [|a s IH]; cbn [str_mem].
  - intros _. change (EmptyString +:+ String c t)%string with (String c t). cbn [SplitByte]. by rewrite Ascii.eqb_refl.
  - intros [Ha Hs]%orb_false_iff. change (String a s +:+ String c t)%string with (String a (s +:+ String c t)).
    cbn [SplitByte]. rewrite Ha, (IH Hs). done.
Qed.

Lemma HasPrefix_app p t : HasPrefix (p +:+ t) p = true.
Proof. apply HasPrefix_spec. by exists t. Qed.

(** A line that ends in a brace has no white space at its end. *)
Lemma trimmed_data_line t : trimmed (data_prefix +:+ String "{"%char (t +:+ "}")) = true.
Proof.
  unfold trimmed. apply andb_true_iff. split; [reflexivity|].
  rewrite str_rev_app. cbn [str_rev]. rewrite str_rev_app. reflexivity.
Qed.

(** ** Theorems *)

(** C33: a response reaches the request that registered its id: whatever is registered, given up and read
    afterwards, with the same id or others, the channel of the request holds the first response for its id that the
    stream carries before that id is registered again or given up; if there is none, it holds nothing (and in
    particular never a response for another id). *)
Theorem response_reaches_its_request (s : sseStream) (id : jvalue) (k : key) (os : list sop) (s' : sseStream) :
  stream_inv s -> hash id = Some k ->
  (_ ← register id; run_sops os) s = (Ok tt, s') ->
  receive (next_chan s) s' = match answer_for k os with Some r => GotResponse r | None => NotReady end.
Proof.
  intros Hi Hk Hr. destruct (register_spec id s k Hi Hk) as (s1 & E & Hi1 & Ep & _).
  rewrite (M_bind_ok _ _ _ _ _ E) in Hr.
  pose proof (pending_run os k (next_chan s) s1 s' Hi1) as P. rewrite Ep, lookup_insert_eq in P.
  specialize (P eq_refl Hr). unfold receive. rewrite P. by destruct (answer_for k os).
Qed.

(** Streams are shared by all sessions of an endpoint and requests are told apart
    by id only.  When a second request with the same id registers before the
    response arrives, the first never hears of it, not even when the stream ends. *)
Lemma shared_id_starves_first (s : sseStream) (id : jvalue) (k : key) (os : list sop) (s1 s' : sseStream) :
  stream_inv s -> hash id = Some k ->
  register id s = (Ok (next_chan s), s1) ->
  (_ ← register id; run_sops os) s1 = (Ok tt, s') ->
  receive (next_chan s) s' = NotReady /\ receive (next_chan s) (end_stream s') = NotReady.
Proof.
  intros Hi Hk E Hr. destruct (register_spec id s k Hi Hk) as (s2 & E2 & Hi1 & Ep & Ec).
  assert (s2 = s1) as -> by congruence.
  assert (next_chan s1 = S (next_chan s)) as En by (unfold register in E; rewrite Hk in E; by injection E as <-).
  destruct (register_spec id s1 k Hi1 Hk) as (s3 & E3 & Hi3 & Ep3 & Ec3).
  rewrite (M_bind_ok _ _ _ _ _ E3) in Hr.
  destruct (settled_run os s3 s' (next_chan s) Hi3) as [[_ Hno] Hc]; [|done|].
  - split.
    + unfold register in E3. rewrite Hk in E3. injection E3 as <-. cbn. lia.
    + intros k'. rewrite Ep3, lookup_insert. case_decide; [intros [= E0]; lia|].
      rewrite Ep, lookup_insert_ne by done. intros E0. pose proof (st_lt s k' _ Hi E0). lia.
  - rewrite Ec3, lookup_insert_ne, Ec, lookup_insert_eq in Hc by lia. unfold receive. rewrite Hc. split; [done|].
    cbn. rewrite map_lookup_imap, Hc. cbn. rewrite bool_decide_false; [done|].
    intros ((k' & ch) & E0 & Hin)%list_elem_of_fmap. cbn in E0. subst ch.
    apply elem_of_map_to_list in Hin. by destruct (Hno k').
Qed.

(** A response sent as one event comes back: the parser of whole bodies returns the
    message that was marshalled. *)
Lemma sse_body_roundtrip (r : Response) (json : string) :
  response_reads_back r = true -> Marshal_response r = Ok json -> parseSSEResponse (sse_event json) = Ok r.
Proof.
  intros Hv Hm. pose proof (marshal_one_line r json Hm) as Hl. destruct (marshal_object r json Hm) as [t Ht].
  unfold parseSSEResponse, sse_event.
  change ("event: message" +:+ String newline EmptyString +:+ data_prefix +:+ json +:+ str_of [10; 10])%string
    with ("event: message" +:+ String newline (data_prefix +:+ json +:+ str_of [10; 10]))%string.
  rewrite SplitByte_cons_line by done.
  replace (data_prefix +:+ json +:+ str_of [10; 10])%string
    with ((data_prefix +:+ json) +:+ String newline (str_of [10]))%string by by rewrite str_app_assoc.
  rewrite SplitByte_cons_line by (rewrite str_mem_app; done).
  cbn [parse_lines]. change (TrimSpace "event: message") with "event: message"%string.
  change (HasPrefix "event: message" data_prefix) with false. cbn iota.
  assert (TrimSpace (data_prefix +:+ json) = data_prefix +:+ json)%string as ->
    by (rewrite Ht; apply TrimSpace_id, trimmed_data_line).
  rewrite HasPrefix_app. change (TrimData (data_prefix +:+ json)) with json.
  by rewrite (unmarshal_marshal r json Hv Hm).
Qed.

End Sse.

(** ** A codec for one message, and examples *)

Definition pong : Response := mkResponse "2.0" (JString "pong") None (JNumber 1).

Definition one_marshal (r : Response) : result string string :=
  match Result r, RespError r, resp_ID r with
  | JString s, None, JNumber n =>
      if bool_decide (resp_JSONRPC r = "2.0"%string) && bool_decide (s = "pong"%string) && (n =? 1)
      then Ok "{pong}"%string else Err "unsupported"%string
  | _, _, _ => Err "unsupported"%string
  end.

Lemma one_marshal_ok r s : one_marshal r = Ok s -> r = pong /\ s = "{pong}"%string.
Proof.
  unfold one_marshal. destruct r as [v [| | |t| |] [] [| |n| | |]]; cbn; try done.
  repeat case_bool_decide; cbn; try done. destruct (Z.eqb_spec n 1); intros; simplify_eq; done.
Qed.

#[refine, export] Instance one_message : JSON := {|
  Marshal_request := fun _ => Ok "{}"%string;
  Marshal_response := one_marshal;
  Unmarshal_response := fun s => if bool_decide (s = "{pong}"%string) then Ok pong else Err "syntax"%string;
|}.
Proof.
  - by intros r s [-> ->]%one_marshal_ok.
  - intros r s [-> ->]%one_marshal_ok. by exists "pong"%string.
  - by intros r s _ [-> ->]%one_marshal_ok.
Defined.

Definition pong_line : string := ("data: {pong}" +:+ str_of [10])%string.

Lemma response_reaches_its_request_witness :
  exists s', (_ ← register (JNumber 1); run_sops [SRegister (JNumber 2); SLine ": ping"; SLine pong_line; SRegister (JNumber 1); SLine pong_line])
      (new_stream "sid") = (Ok tt, s') /\ receive 0 s' = GotResponse pong.
Proof.
  eexists. split; [vm_compute; reflexivity|].
  exact (@response_reaches_its_request one_message (new_stream "sid") (JNumber 1) (KNumber 1)
    [SRegister (JNumber 2); SLine ": ping"; SLine pong_line; SRegister (JNumber 1); SLine pong_line] _
    (new_stream_inv "sid") eq_refl ltac:(vm_compute; reflexivity)).
Defined.

Lemma shared_id_starves_first_witness :
  exists s1 s', register (JNumber 1) (new_stream "sid") = (Ok 0%nat, s1) /\
    (_ ← register (JNumber 1); run_sops [SLine pong_line]) s1 = (Ok tt, s') /\
    receive 0 s' = NotReady /\ receive 1 s' = GotResponse pong.
Proof.
  eexists _, _. split; [reflexivity|]. split; [vm_compute; reflexivity|]. split; [|vm_compute; reflexivity].
  apply (@shared_id_starves_first one_message (new_stream "sid") (JNumber 1) (KNumber 1) [SLine pong_line] _ _
    (new_stream_inv "sid") eq_refl eq_refl). vm_compute. reflexivity.
Defined.

Lemma sse_body_roundtrip_witness : parseSSEResponse (sse_event "{pong}") = Ok pong.
Proof. apply (sse_body_roundtrip pong "{pong}"); vm_compute; reflexivity. Defined.

(** A response whose id is an array crashes the reader. *)
Example unhashable_id_panics :
  fst (deliver (mkResponse "2.0" JNull None (JArray [])) (new_stream "sid")) = Err UnhashableKey.
Proof. reflexivity. Qed.

End Sse.
