(* ===== verification/Discovery.v ===== *)
(** * Static service discovery

    [services/gateway/internal/discovery/static.go] and the [ServiceDiscovery] interface
    of types.go.  Endpoints are values here: every implementation hands out copies
    of its slices, so what a caller does to the result stays with the caller. *)
From S2P Require Import Prelude GoStrings GoUnicode LoadBalancer Validation.
From Stdlib Require Import Strings.Ascii.
#[local] Open Scope Z_scope.

Module Discovery.

(** ** The interface *)

Class ServiceDiscovery (D : Type) := {
  GetEndpoints : D -> string -> list Endpoint;
  GetAllEndpoints : D -> list (string * list Endpoint);
  ListNamespaces : D -> list string;
}.

(** What the router relies on, of a state of the service that is [valid]: the three views
    agree. *)
Class LawfulDiscovery (D : Type) `{ServiceDiscovery D} := {
  valid : D -> Prop;
  all_endpoints_agree : forall d ns eps, valid d ->
    (ns, eps) ∈ GetAllEndpoints d <-> ns ∈ ListNamespaces d /\ eps = GetEndpoints d ns;
  unknown_empty : forall d ns, valid d -> ns ∉ ListNamespaces d -> GetEndpoints d ns = [];
}.

(** ** Static endpoints *)

(** A label: a string, or another value as fmt's %v prints it. *)
Inductive label := LString (s : string) | LOther (printed : string).
Record EndpointConfig := mkEC { cfg_URL : string; Labels : list (string * label) }.

Definition DefaultWeight : Z := 100.

(** [strconv.Atoi]: an optional sign and digits within the range of int. *)
Definition digit (a : ascii) : option Z := if in_range 48 57 (bz a) then Some (bz a - 48) else None.
Fixpoint atoi_digits (s : string) (acc : Z) : option Z :=
  match s with
  | EmptyString => Some acc
  | String a s' => d ← digit a; atoi_digits s' (acc * 10 + d)
  end.
Definition Atoi (s : string) : option Z :=
  let range z := if (min_i64 <=? z) && (z <=? max_i64) then Some z else None in
  match s with
  | EmptyString => None
  | String "-"%char (String _ _ as t) => z ← atoi_digits t 0; range (- z)
  | String "+"%char (String _ _ as t) => z ← atoi_digits t 0; range z
  | _ => z ← atoi_digits s 0; range z
  end.

Section Static.
Context `{Validate.NetParsers}.

Definition endpoint_port (u : Validate.URL) : Z :=
  if bool_decide (Validate.URLPort u = EmptyString) then
    (if bool_decide (Validate.Scheme u = "https"%string) then 443 else 80)
  else match Atoi (Validate.URLPort u) with Some p => p | None => 80 end.

Definition label_text (l : label) : string := match l with LString s => s | LOther s => s end.

Definition configToEndpoint (namespace : string) (cfg : EndpointConfig) : result string Endpoint :=
  match Validate.url_Parse (cfg_URL cfg) with
  | Err e => Err e
  | Ok u =>
      Ok (SetHealthy true
        {| Service := (namespace +:+ "-service")%string; Namespace := namespace;
           Address := Validate.Hostname u; Port := endpoint_port u; Scheme := Validate.Scheme u;
           Path := Validate.URLPath u; Weight := DefaultWeight;
           Metadata := list_to_map (prod_map id label_text <$> Labels cfg);
           Tools := []; healthy := 0 |})
  end.

(** Endpoints that do not parse are skipped. *)
Definition load_namespace (namespace : string) (cfgs : list EndpointConfig) : list Endpoint :=
  omap (fun cfg => match configToEndpoint namespace cfg with Ok e => Some e | Err _ => None end) cfgs.

(** The configured namespaces, in some order (the keys of a Go map are distinct). *)
Definition StaticDiscovery : Type := list (string * list Endpoint).

Definition loadEndpoints (cfg : list (string * list EndpointConfig)) : StaticDiscovery :=
  List.filter (fun p => 0 <? zlen (snd p)) ((fun p => (fst p, load_namespace (fst p) (snd p))) <$> cfg).

(** [CreateStaticServiceDiscovery]; [None] is the nil map. *)
Definition CreateStaticServiceDiscovery (cfg : option (list (string * list EndpointConfig))) : option StaticDiscovery :=
  loadEndpoints <$> cfg.

Definition Static_GetEndpoints (sd : StaticDiscovery) (namespace : string) : list Endpoint :=
  match List.find (fun p => bool_decide (fst p = namespace)) sd with Some p => snd p | None => [] end.
Definition Static_GetAllEndpoints (sd : StaticDiscovery) : list (string * list Endpoint) := sd.
Definition Static_ListNamespaces (sd : StaticDiscovery) : list string := sd.*1.

#[export] Instance StaticDiscovery_SD : ServiceDiscovery StaticDiscovery := {|
  GetEndpoints := Static_GetEndpoints;
  GetAllEndpoints := Static_GetAllEndpoints;
  ListNamespaces := Static_ListNamespaces;
|}.

(** ** Specification *)

(** With distinct namespaces the three views agree. *)
Lemma static_find sd ns eps : NoDup (sd.*1) -> (ns, eps) ∈ sd -> Static_GetEndpoints sd ns = eps.
Proof.
  unfold Static_GetEndpoints. induction sd as [|[n e] sd IH]; cbn; [set_solver|].
  intros [Hn Hnd]%NoDup_cons [[= -> ->]|Hin]%elem_of_cons; [by rewrite bool_decide_true|].
  rewrite bool_decide_false; [by apply IH|]. intros ->. apply Hn. apply list_elem_of_fmap. by exists (ns, eps).
Qed.

Lemma static_unknown sd ns : ns ∉ sd.*1 -> Static_GetEndpoints sd ns = [].
Proof.
  unfold Static_GetEndpoints. induction sd as [|[n e] sd IH]; cbn; [done|]. intros Hn.
  rewrite bool_decide_false by set_solver. apply IH. set_solver.
Qed.

(** The keys of the map are distinct. *)
#[export] Program Instance Static_lawful : LawfulDiscovery StaticDiscovery := {| valid := fun sd => NoDup (sd.*1) |}.
Next Obligation.
  intros sd ns eps Hnd. cbn. unfold Static_GetAllEndpoints, Static_ListNamespaces. split.
  - intros Hin. split; [by apply list_elem_of_fmap; exists (ns, eps)|]. symmetry. by apply static_find.
  - intros [((n & e) & -> & Hin)%list_elem_of_fmap ->]. cbn [fst]. by rewrite (static_find sd n e).
Qed.
Next Obligation. intros sd ns _. apply static_unknown. Qed.

(** Every endpoint loaded is healthy, has the default weight and belongs to its namespace,
    and a namespace is present exactly when one of its configurations parses. *)
Lemma loadEndpoints_spec cfg ns eps :
  (ns, eps) ∈ loadEndpoints cfg <->
  (exists cfgs, (ns, cfgs) ∈ cfg /\ eps = load_namespace ns cfgs) /\ eps <> [].
Proof.
  unfold loadEndpoints. rewrite elem_of_filter_bool, list_elem_of_fmap. split.
  - intros [Hne ((n & cfgs) & [= -> ->] & Hin)]. split; [eauto|]. intros E. cbn in Hne. by rewrite E in Hne.
  - intros [(cfgs & Hin & ->) Hne]. split; [|by exists (ns, cfgs)]. cbn.
    by destruct (load_namespace ns cfgs).
Qed.

Lemma load_namespace_healthy ns cfgs e :
  e ∈ load_namespace ns cfgs -> IsHealthy e = true /\ Namespace e = ns /\ Weight e = DefaultWeight.
Proof.
  unfold load_namespace. intros (cfg & _ & E)%list_elem_of_omap. unfold configToEndpoint in E.
  destruct (Validate.url_Parse _); simplify_eq. done.
Qed.

End Static.
End Discovery.
