(* ===== verification/GatewayRouter.v ===== *)
(** * The gateway's request router

    [services/gateway/internal/router/router.go] and router_errors.go: choosing an
    endpoint with a cached balancer per namespace, a circuit breaker per address, an HTTP
    client per endpoint, backend sessions, forwarding over WebSocket, HTTP and SSE, and
    the health checks.  It composes [Discovery], [LoadBalancer], [Breaker],
    [SseStream] and the error values of [GatewayErrors].  The network is a class:
    one exchange is one call.  Logging, metrics and tracing are left out. *)
From S2P Require Import Prelude GoStrings GoUnicode Mcp LoadBalancer Breaker GatewayErrors ErrorCatalog SseStream Discovery.
From stdpp Require Import pretty.
From Stdlib Require Import Strings.Ascii.
#[local] Open Scope Z_scope.

Module GwRouter.
Import GwErrors.

Local Infix "+s" := String.append (at level 50, left associativity).
Local Notation "m ->> f" := (mbind f m) (at level 61, left associativity).

(** ** Configuration and messages of the network *)

Record RoutingConfig := mkRC {
  Strategy : string;
  FailureThreshold : Z;
  SuccessThreshold : Z;
  TimeoutSeconds : Z;
}.

Record session := mkSess { sess_ID : string; sess_User : string }.

Record HttpRequest := mkHttpRequest { hmethod : string; hurl : string; hheaders : list (string * string); hbody : string }.
Record HttpResponse := mkHttpResponse { status : Z; rheaders : gmap string string; rbody : result string string }.

Definition get_header (k : string) (m : gmap string string) : string := default EmptyString (m !! k).

(** The network.  [http_NewRequest] is the parse of the URL in [http.NewRequestWithContext]: an error, or the text the
    parsed URL has as a string, which keeps the scheme when that is in small letters.  [http_Do] fails on schemes other
    than http and https, as net/http documents. *)
Class Network := {
  World : Type;
  http_NewRequest : string -> result string string;
  http_Do : HttpRequest -> World -> result stdError HttpResponse * World;
  ws_Dial : string -> list (string * string) -> World -> result stdError nat * World;
  ws_Configure : nat -> World -> option stdError * World;
  ws_Exchange : nat -> Request -> World -> result (string * stdError) Response * World;
  (** The lines the reader of a stream gets while a request waits, and whether the
      request's context ended first. *)
  sse_Wait : string -> World -> list string * bool * World;
  http_Do_scheme : forall r w, HasPrefix (hurl r) "http://" = false -> HasPrefix (hurl r) "https://" = false ->
    exists e w', http_Do r w = (Err e, w');
  http_NewRequest_scheme : forall url u scheme, http_NewRequest url = Ok u -> scheme ∈ ["ws:"; "wss:"; "sse:"] ->
    HasPrefix url scheme = true -> HasPrefix u scheme = true;
}.

(** ** Addresses *)

Definition schemeWSS : string := "wss".
Definition schemeHTTP : string := "http".
Definition defaultNamespace : string := "default".

Definition getEndpointKey (e : Endpoint) : string := Address e +s ":" +s pretty (Port e).

Definition getWebSocketScheme (scheme : string) : string :=
  if bool_decide (scheme = schemeWSS) then schemeWSS else "ws".
Definition getWebSocketPath (path : string) : string :=
  if bool_decide (path = EmptyString) then "/mcp" else path.
Definition buildWebSocketURL (e : Endpoint) : string :=
  getWebSocketScheme (Scheme e) +s "://" +s Address e +s ":" +s pretty (Port e) +s getWebSocketPath (Path e).

Definition buildHTTPURL (e : Endpoint) : string :=
  let httpScheme := if bool_decide (Scheme e = schemeHTTP) || bool_decide (Scheme e = "https") then Scheme e else schemeHTTP in
  let path := if bool_decide (Path e = EmptyString) then "/mcp" else Path e in
  httpScheme +s "://" +s Address e +s ":" +s pretty (Port e) +s path.

Definition buildHealthCheckURL (e : Endpoint) : string :=
  let healthPath := if bool_decide (Path e = EmptyString) then "/health" else Path e in
  let scheme := if bool_decide (Scheme e = EmptyString) then "http" else Scheme e in
  scheme +s "://" +s Address e +s ":" +s pretty (Port e) +s healthPath.

(** ** The namespace of a request *)

Definition first_part (s : string) : string :=
  match SplitByte "."%char s with w :: _ => w | [] => EmptyString end.

Definition extractNamespace (req : Request) : string :=
  if bool_decide (Method req = "initialize") || bool_decide (Method req = "shutdown") then "system"
  else if bool_decide (Method req = "tools/call") then
    match ReqParams req with
    | JObject _ =>
        match field "name" (ReqParams req) with
        | Some (JString toolName) => first_part toolName
        | _ => defaultNamespace
        end
    | _ => defaultNamespace
    end
  else if bool_decide (Method req = "tools/list") then
    match field "namespace" (ReqParams req) with
    | Some (JString ns) => ns
    | _ => "system"
    end
  else defaultNamespace.

(** ** Balancers behind the interface *)

Inductive balancer := BRoundRobin (b : RoundRobin) | BLeast (b : LeastConnections) | BWeighted (b : Weighted).

#[export] Instance balancer_LB : LoadBalancer balancer := {|
  lb_endpoints := fun b => match b with BRoundRobin b => lb_endpoints b | BLeast b => lb_endpoints b | BWeighted b => lb_endpoints b end;
  lb_Next := fun st b =>
    match b with
    | BRoundRobin b => let '(p, b) := lb_Next st b in (p, BRoundRobin b)
    | BLeast b => let '(p, b) := lb_Next st b in (p, BLeast b)
    | BWeighted b => let '(p, b) := lb_Next st b in (p, BWeighted b)
    end;
  lb_UpdateEndpoints := fun st eps b =>
    match b with
    | BRoundRobin b => BRoundRobin (lb_UpdateEndpoints st eps b)
    | BLeast b => BLeast (lb_UpdateEndpoints st eps b)
    | BWeighted b => BWeighted (lb_UpdateEndpoints st eps b)
    end;
|}.

#[export] Instance balancer_lawful : LawfulBalancer balancer.
Proof.
  constructor.
  - intros st [b|b|b] p lb'; cbn.
    + destruct (RoundRobin_Next st b) as [q b'] eqn:E. intros [= -> <-]. exact (next_healthy (LB := RoundRobin) st b p b' E).
    + destruct (LeastConnections_Next st b) as [q b'] eqn:E. intros [= -> <-]. exact (next_healthy (LB := LeastConnections) st b p b' E).
    + destruct (Weighted_Next st b) as [q b'] eqn:E. intros [= -> <-]. exact (next_healthy (LB := Weighted) st b p b' E).
  - intros st [b|b|b]; cbn.
    + pose proof (next_endpoints (LB := RoundRobin) st b) as N. cbn in N. by destruct (RoundRobin_Next st b).
    + pose proof (next_endpoints (LB := LeastConnections) st b) as N. cbn in N. by destruct (LeastConnections_Next st b).
    + pose proof (next_endpoints (LB := Weighted) st b) as N. cbn in N. by destruct (Weighted_Next st b).
  - intros st eps [b|b|b].
    + exact (update_endpoints (LB := RoundRobin) st eps b).
    + exact (update_endpoints (LB := LeastConnections) st eps b).
    + exact (update_endpoints (LB := Weighted) st eps b).
Qed.

(** ** The router *)

Section Router.
Context `{JSON} `{Network} {D : Type} `{Discovery.ServiceDiscovery D}.
Variable captureStack : Z -> list string.
Variable cfg : RoutingConfig.

Record Router := mkRouter {
  disc : D;                                        (* the discovery service *)
  balancers : gmap string balancer;
  breakers : gmap string Circuit.CircuitBreaker;
  endpointClients : gset string;                   (* keys of the HTTP clients *)
  backendSessions : gmap string (gmap string string);
  sseStreams : gmap string Sse.sseStream;
  eps : gmap nat Endpoint;                         (* endpoints the balancers point to *)
  next_ep : nat;
  world : World;
  errors : heap;
}.

Inductive rpanic := PError (p : panic) | PStream (p : Sse.panic).
Notation act A := (M Router rpanic A).

Definition get {A} (f : Router -> A) : act A := fun r => (Ok (f r), r).
Definition set_disc d (r : Router) : Router := mkRouter d (balancers r) (breakers r) (endpointClients r) (backendSessions r) (sseStreams r) (eps r) (next_ep r) (world r) (errors r).
Definition set_balancers f (r : Router) : Router := mkRouter (disc r) (f (balancers r)) (breakers r) (endpointClients r) (backendSessions r) (sseStreams r) (eps r) (next_ep r) (world r) (errors r).
Definition set_breakers f (r : Router) : Router := mkRouter (disc r) (balancers r) (f (breakers r)) (endpointClients r) (backendSessions r) (sseStreams r) (eps r) (next_ep r) (world r) (errors r).
Definition set_clients f (r : Router) : Router := mkRouter (disc r) (balancers r) (breakers r) (f (endpointClients r)) (backendSessions r) (sseStreams r) (eps r) (next_ep r) (world r) (errors r).
Definition set_sessions f (r : Router) : Router := mkRouter (disc r) (balancers r) (breakers r) (endpointClients r) (f (backendSessions r)) (sseStreams r) (eps r) (next_ep r) (world r) (errors r).
Definition set_streams f (r : Router) : Router := mkRouter (disc r) (balancers r) (breakers r) (endpointClients r) (backendSessions r) (f (sseStreams r)) (eps r) (next_ep r) (world r) (errors r).
Definition set_eps f n (r : Router) : Router := mkRouter (disc r) (balancers r) (breakers r) (endpointClients r) (backendSessions r) (sseStreams r) (f (eps r)) n (world r) (errors r).
Definition set_world w (r : Router) : Router := mkRouter (disc r) (balancers r) (breakers r) (endpointClients r) (backendSessions r) (sseStreams r) (eps r) (next_ep r) w (errors r).
Definition set_errors h (r : Router) : Router := mkRouter (disc r) (balancers r) (breakers r) (endpointClients r) (backendSessions r) (sseStreams r) (eps r) (next_ep r) (world r) h.
Definition modify (f : Router -> Router) : act unit := fun r => (Ok tt, f r).

(** A call of the error package, and a call of the network. *)
Definition lift {A} (m : op A) : act A := fun r =>
  match m (errors r) with (Ok a, h) => (Ok a, set_errors h r) | (Err p, h) => (Err (PError p), set_errors h r) end.
Definition net {A} (f : World -> A * World) : act A := fun r => let '(a, w) := f (world r) in (Ok a, set_world w r).

(** A constructor of a new error gives its pointer. *)
Definition as_value (p : option nat) : act error :=
  match p with Some l => mret (EGw l) | None => M_fail (PError NilDereference) end.
Definition raise_gw (m : op (option nat)) : act error := p ← lift m; as_value p.

(** *** Errors of the router *)

Definition endpoint_text (e : Endpoint) : string := Address e +s ":" +s pretty (Port e).

Definition NewNoEndpointsError (namespace : string) : op (option nat) :=
  New captureStack TypeUnavailable ("no endpoints available for namespace: " +s namespace)
    ->> WithComponent "router" ->> WithContext "namespace" (VStr namespace)
    ->> WithContext "code" (VStr "ROUTER_NO_ENDPOINTS") ->> WithHTTPStatus 503.
Definition NewNoHealthyEndpointsError (namespace : string) : op (option nat) :=
  New captureStack TypeUnavailable ("no healthy endpoints available for namespace: " +s namespace)
    ->> WithComponent "router" ->> WithContext "namespace" (VStr namespace)
    ->> WithContext "code" (VStr "ROUTER_NO_HEALTHY_ENDPOINTS") ->> WithHTTPStatus 503.
Definition NewUnsupportedSchemeError (scheme : string) (e : Endpoint) : op (option nat) :=
  New captureStack TypeValidation ("unsupported endpoint scheme: " +s scheme)
    ->> WithComponent "router" ->> WithContext "scheme" (VStr scheme) ->> WithContext "endpoint" (VStr (Address e))
    ->> WithContext "code" (VStr "ROUTER_UNSUPPORTED_SCHEME") ->> WithHTTPStatus 400.
Definition WrapForwardingError (ctx : gmap string value) (err : option error) (e : Endpoint) (method : string) : op (option nat) :=
  WrapContext captureStack ctx err "failed to forward request"
    ->> WithComponent "router" ->> WithOperation "forward_request"
    ->> WithContext "endpoint" (VStr (endpoint_text e)) ->> WithContext "method" (VStr method)
    ->> WithContext "protocol" (VStr (Scheme e)) ->> WithContext "code" (VStr "ROUTER_FORWARDING_FAILED").
Definition WrapWebSocketError (ctx : gmap string value) (err : option error) (operation : string) (endpoint : string) : op (option nat) :=
  ErrCatalog.WrapContextf captureStack ctx err ("WebSocket " +s operation +s " failed")
    ->> WithComponent "router" ->> WithOperation ("websocket_" +s operation)
    ->> WithContext "endpoint" (VStr endpoint) ->> WithContext "code" (VStr "ROUTER_WEBSOCKET_FAILED").
Definition WrapHTTPError (ctx : gmap string value) (err : option error) (operation : string) (endpoint : string) : op (option nat) :=
  ErrCatalog.WrapContextf captureStack ctx err ("HTTP " +s operation +s " failed")
    ->> WithComponent "router" ->> WithOperation ("http_" +s operation)
    ->> WithContext "endpoint" (VStr endpoint) ->> WithContext "code" (VStr "ROUTER_HTTP_FAILED").
Definition WrapMarshalError (err : option error) (dataType : string) : op (option nat) :=
  Wrap captureStack err ("failed to marshal " +s dataType)
    ->> WithComponent "router" ->> WithOperation "marshal"
    ->> WithContext "data_type" (VStr dataType) ->> WithContext "code" (VStr "ROUTER_MARSHAL_FAILED").

Definition NewCircuitBreakerOpenError (endpoint : string) : op (option nat) :=
  New captureStack TypeUnavailable "circuit breaker is open"
    ->> WithComponent "router" ->> WithContext "endpoint" (VStr endpoint)
    ->> WithContext "code" (VStr "ROUTER_CIRCUIT_BREAKER_OPEN") ->> WithHTTPStatus 503.
Definition WrapUnmarshalError (err : option error) (dataType : string) : op (option nat) :=
  Wrap captureStack err ("failed to unmarshal " +s dataType)
    ->> WithComponent "router" ->> WithOperation "unmarshal"
    ->> WithContext "data_type" (VStr dataType) ->> WithContext "code" (VStr "ROUTER_UNMARSHAL_FAILED").
Definition WrapTimeoutError (err : option error) (operation : string) (e : Endpoint) : op (option nat) :=
  NewTimeoutError captureStack operation err
    ->> WithComponent "router" ->> WithContext "endpoint" (VStr (endpoint_text e))
    ->> WithContext "code" (VStr "ROUTER_TIMEOUT").

(** [EnrichContextWithRequest]: a nil id hides the value the context had. *)
Definition EnrichContextWithRequest (req : Request) (namespace : string) (ctx : gmap string value) : gmap string value :=
  let ctx := EnrichWithBackend "" namespace (EnrichWithEndpoint "" (Method req) "mcp" ctx) in
  match req_ID req with
  | JString s => if bool_decide (s = EmptyString) then ctx else <["request_id" := VStr s]> ctx
  | JNumber n => <["request_id" := VInt n]> ctx
  | JNull => delete "request_id" ctx
  | _ => <["request_id" := VOther]> ctx
  end.

(** *** Endpoints and breakers *)

Definition no_endpoint : Endpoint :=
  {| Service := ""; Namespace := ""; Address := ""; Port := 0; Scheme := ""; Path := ""; Weight := 0;
     Metadata := ∅; Tools := []; healthy := 0 |}.
Definition store_of (r : Router) : store := fun p => default no_endpoint (eps r !! p).

(** The slice a discovery call returns: new cells. *)
Fixpoint alloc (l : list Endpoint) (n : nat) (m : gmap nat Endpoint) : gmap nat Endpoint :=
  match l with [] => m | e :: l => alloc l (S n) (<[n := e]> m) end.

Definition new_balancer (strategy : string) (st : store) (ps : list ptr) : balancer :=
  if bool_decide (strategy = "round_robin") then BRoundRobin (NewRoundRobin ps)
  else if bool_decide (strategy = "least_connections") then BLeast (NewLeastConnections ps)
  else if bool_decide (strategy = "weighted") then BWeighted (NewWeighted st ps)
  else BRoundRobin (NewRoundRobin ps).

Definition getLoadBalancer (namespace : string) : act (option balancer) := fun r =>
  match balancers r !! namespace with
  | Some lb => (Ok (Some lb), r)
  | None =>
      let es := Discovery.GetEndpoints (disc r) namespace in
      match es with
      | [] => (Ok None, r)
      | _ =>
          let r1 := set_eps (alloc es (next_ep r)) (next_ep r + length es)%nat r in
          let lb := new_balancer (Strategy cfg) (store_of r1) (seq (next_ep r) (length es)) in
          (Ok (Some lb), set_balancers (<[namespace := lb]>) r1)
      end
  end.

Definition selectEndpoint (namespace : string) : act (result error nat) :=
  lb ← getLoadBalancer namespace;
  match lb with
  | None => e ← raise_gw (NewNoEndpointsError namespace); mret (Err e)
  | Some lb =>
      st ← get store_of;
      let '(p, lb') := lb_Next st lb in
      _ ← modify (set_balancers (<[namespace := lb']>));
      match p with
      | None => e ← raise_gw (NewNoHealthyEndpointsError namespace); mret (Err e)
      | Some p => mret (Ok p)
      end
  end.

Definition breaker_timeout : Z :=
  let timeout := wrap_s 64 (TimeoutSeconds cfg * Second) in
  if (timeout =? 0) || (10 * Second <? timeout) then 10 * Second else timeout.

(** Breakers are keyed by address alone. *)
Definition getCircuitBreaker (address : string) (now : Z) : act Circuit.CircuitBreaker := fun r =>
  match breakers r !! address with
  | Some b => (Ok b, r)
  | None =>
      let b := Circuit.NewCircuitBreaker (FailureThreshold cfg) (SuccessThreshold cfg) breaker_timeout now in
      (Ok b, set_breakers (<[address := b]>) r)
  end.

Definition getOrCreateHTTPClient (e : Endpoint) : act unit := modify (set_clients (fun s => {[getEndpointKey e]} ∪ s)).

(** *** Backend sessions *)

Definition getBackendSessionID (frontend url : string) (m : gmap string (gmap string string)) : string :=
  match m !! frontend with Some es => default EmptyString (es !! url) | None => EmptyString end.

Definition storeBackendSessionID (frontend url backend : string) (m : gmap string (gmap string string))
    : gmap string (gmap string string) :=
  <[frontend := <[url := backend]> (default ∅ (m !! frontend))]> m.

Definition ClearBackendSessions (frontend : string) : act unit := modify (set_sessions (delete frontend)).

(** *** Forwarding over HTTP *)

Definition std_value (e : stdError) : error := EStd e.
(** [fmt.Errorf("...: %w", err)] and [fmt.Errorf] without an inner error. *)
Definition errorf_wrap (text : string) (inner : error) : error := EWrap (text +s ": " +s plain_text inner) inner.
Definition errorf (text : string) : error := EStd (TextError text).

Definition prepareHTTPRequest (e : Endpoint) (req : Request) : act (result error HttpRequest) :=
  match Marshal_request req with
  | Err m => err ← raise_gw (WrapMarshalError (Some (EStd (TextError m))) "request"); mret (Err err)
  | Ok body =>
      match http_NewRequest (buildHTTPURL e) with
      | Err m => mret (Err (errorf_wrap "failed to create request" (EStd (TextError m))))
      | Ok url =>
          mret (Ok {| hmethod := "POST"; hurl := url;
                      hheaders := [("Content-Type", "application/json"); ("Accept", "text/event-stream, application/json")];
                      hbody := body |})
      end
  end.

(** The tracing headers are left out. *)
Definition enhanceHTTPRequest (sess : option session) (h : HttpRequest) (m : gmap string (gmap string string)) : HttpRequest :=
  match sess with
  | None => h
  | Some s =>
      let backend := getBackendSessionID (sess_ID s) (hurl h) m in
      let sid := if bool_decide (backend = EmptyString) then sess_ID s else backend in
      {| hmethod := hmethod h; hurl := hurl h;
         hheaders := hheaders h ++ [("Mcp-Session-Id", sid); ("X-MCP-User", sess_User s)]; hbody := hbody h |}
  end.

Definition sse_error_value (e : Sse.sse_error) : error :=
  match e with
  | Sse.ParseError m => errorf_wrap "failed to parse SSE data as JSON" (EStd (TextError m))
  | Sse.NoData => errorf "no data line found in SSE response"
  | Sse.ReadError => errorf_wrap "failed to read initialize response from SSE stream" (EStd (TextError "EOF"))
  end.

Definition processHTTPResponse (resp : HttpResponse) : result error Response :=
  match rbody resp with
  | Err m => Err (errorf_wrap "failed to read response" (EStd (TextError m)))
  | Ok body =>
      if negb (status resp =? 200) then Err (errorf ("backend returned status " +s pretty (status resp) +s ": " +s body))
      else if Contains (get_header "Content-Type" (rheaders resp)) "text/event-stream" then
        match Sse.parseSSEResponse body with Ok r => Ok r | Err e => Err (sse_error_value e) end
      else match Unmarshal_response body with
           | Ok r => Ok r
           | Err m => Err (errorf_wrap "failed to parse response" (EStd (TextError m)))
           end
  end.

(** [forwardRequestHTTP] on an endpoint whose scheme is not "sse". *)
Definition forward_http (ctx : gmap string value) (sess : option session) (e : Endpoint) (req : Request)
    : act (result error Response) :=
  h ← prepareHTTPRequest e req;
  match h with
  | Err err => mret (Err err)
  | Ok h =>
      m ← get backendSessions;
      let h := enhanceHTTPRequest sess h m in
      _ ← getOrCreateHTTPClient e;
      r ← net (http_Do h);
      match r with
      | Err err => err ← raise_gw (WrapHTTPError ctx (Some (EStd err)) "request" (endpoint_text e)); mret (Err err)
      | Ok resp =>
          let backend := get_header "Mcp-Session-Id" (rheaders resp) in
          _ ← (match sess with
               | Some s => if bool_decide (backend = EmptyString) then mret tt
                           else modify (set_sessions (storeBackendSessionID (sess_ID s) (hurl h) backend))
               | None => mret tt
               end : act unit);
          mret (processHTTPResponse resp)
      end
  end.

(** *** Forwarding over an SSE session *)

Definition user_header (sess : option session) : list (string * string) :=
  match sess with Some s => [("X-MCP-User", sess_User s)] | None => [] end.

Definition prepareSSESessionRequest (sess : option session) (url : string) : result error HttpRequest :=
  match http_NewRequest url with
  | Err m => Err (errorf_wrap "failed to create session request" (EStd (TextError m)))
  | Ok url => Ok {| hmethod := "GET"; hurl := url;
                  hheaders := ("Accept", "application/json, text/event-stream") :: user_header sess; hbody := "" |}
  end.

Definition body_text (b : result string string) : string := match b with Ok s => s | Err _ => "" end.

(** The checks both ways of opening a session make on the response. *)
Definition session_of_response (what missing : string) (r : result stdError HttpResponse) : result error (HttpResponse * string) :=
  match r with
  | Err e => Err (errorf_wrap (what +s " failed") (EStd e))
  | Ok resp =>
      if negb (status resp =? 200)
      then Err (errorf (what +s " returned " +s pretty (status resp) +s ": " +s body_text (rbody resp)))
      else
        let sid := get_header "Mcp-Session-Id" (rheaders resp) in
        if bool_decide (sid = EmptyString) then Err (errorf missing) else Ok (resp, sid)
  end.

Definition sendSSESessionRequest (h : HttpRequest) : act (result error (HttpResponse * string)) :=
  r ← net (http_Do h);
  mret (session_of_response "session establishment" "no session ID received from backend (missing Mcp-Session-Id header)" r).

Definition establishSSESession (sess : option session) (e : Endpoint) : act (result error Sse.sseStream) :=
  match prepareSSESessionRequest sess (buildHTTPURL e) with
  | Err err => mret (Err err)
  | Ok h =>
      _ ← getOrCreateHTTPClient e;
      r ← sendSSESessionRequest h;
      mret (match r with Err err => Err err | Ok (_, sid) => Ok (Sse.new_stream sid) end)
  end.

Definition prepareInitializeHTTPRequest (sess : option session) (url : string) (req : Request) : result error HttpRequest :=
  match Marshal_request req with
  | Err m => Err (errorf_wrap "failed to marshal initialize request" (EStd (TextError m)))
  | Ok body =>
      match http_NewRequest url with
      | Err m => Err (errorf_wrap "failed to create initialize request" (EStd (TextError m)))
      | Ok url => Ok {| hmethod := "POST"; hurl := url;
                      hheaders := [("Content-Type", "application/json"); ("Accept", "application/json, text/event-stream")]
                                  ++ user_header sess; hbody := body |}
      end
  end.

Definition sendInitializeRequest (h : HttpRequest) : act (result error (HttpResponse * string)) :=
  r ← net (http_Do h);
  mret (match session_of_response "initialize request" "no session ID received from initialize response (missing Mcp-Session-Id header)" r with
        | Err err => Err err
        | Ok (resp, sid) =>
            let contentType := get_header "Content-Type" (rheaders resp) in
            if Contains contentType "text/event-stream" then Ok (resp, sid)
            else Err (errorf ("initialize response is not SSE format (Content-Type: " +s contentType +s ")"))
        end).

Definition establishSSESessionViaInitialize (sess : option session) (e : Endpoint) (req : Request)
    : act (result error (Sse.sseStream * Response)) :=
  match prepareInitializeHTTPRequest sess (buildHTTPURL e) req with
  | Err err => mret (Err err)
  | Ok h =>
      _ ← getOrCreateHTTPClient e;
      r ← sendInitializeRequest h;
      mret (match r with
            | Err err => Err err
            | Ok (resp, sid) =>
                let body := body_text (rbody resp) in
                match Sse.readInitializeResponseFromSSE (Sse.read_all (String.length body) body) with
                | Err e => Err (sse_error_value e)
                | Ok (init, _) => Ok (Sse.new_stream sid, init)
                end
            end)
  end.

(** An action of the stream of [url]. *)
Definition on_stream {A} (url : string) (m : M Sse.sseStream Sse.panic A) : act A := fun r =>
  match sseStreams r !! url with
  | None => (Err (PError NilDereference), r)
  | Some st => match m st with
               | (Ok a, st') => (Ok a, set_streams (<[url := st']>) r)
               | (Err p, st') => (Err (PStream p), set_streams (<[url := st']>) r)
               end
  end.

Fixpoint read_lines (ls : list string) : M Sse.sseStream Sse.panic unit :=
  match ls with [] => mret tt | l :: ls => _ ← Sse.read_line l; read_lines ls end.

(** Getting or opening the stream; an initialize request may be answered by the opening
    itself. *)
Definition ensure_stream (sess : option session) (e : Endpoint) (req : Request) : act (result error (option Response)) :=
  let url := buildHTTPURL e in
  known ← get (fun r => sseStreams r !! url);
  match known with
  | Some _ => mret (Ok None)
  | None =>
      init ← (if bool_decide (Method req = "initialize") then
                r ← establishSSESessionViaInitialize sess e req;
                mret (match r with Ok x => Some x | Err _ => None end)
              else mret None : act (option (Sse.sseStream * Response)));
      match init with
      | Some (st, resp) => _ ← modify (set_streams (<[url := st]>)); mret (Ok (Some resp))
      | None =>
          r ← establishSSESession sess e;
          match r with
          | Err err => mret (Err (errorf_wrap "failed to establish SSE session" err))
          | Ok st => _ ← modify (set_streams (<[url := st]>)); mret (Ok None)
          end
      end
  end.

(** Waiting: the reader handles the lines that arrive; then the response is there, the
    context has ended, or the stream has. *)
Definition sse_await (url : string) (req : Request) (ch : nat) : act (result error Response) :=
  w ← net (fun w => let '(ls, done, w) := sse_Wait url w in ((ls, done), w));
  let '(ls, ctx_done) := w in
  _ ← on_stream url (read_lines ls);
  got ← on_stream url (fun st => (Ok (Sse.receive ch st), st));
  match got with
  | Sse.GotResponse r => mret (Ok r)
  | Sse.GotNil => mret (Err (errorf "SSE stream closed while waiting for response"))
  | Sse.NotReady =>
      if (ctx_done : bool) then
        _ ← on_stream url (Sse.unregister (req_ID req));
        mret (Err (errorf_wrap "context cancelled while waiting for SSE response" (EStd Canceled)))
      else
        _ ← modify (set_streams (delete url));
        mret (Err (errorf "SSE stream closed while waiting for response"))
  end.

Definition forwardRequestViaSSE (sess : option session) (e : Endpoint) (req : Request) : act (result error Response) :=
  let url := buildHTTPURL e in
  opened ← ensure_stream sess e req;
  match opened with
  | Err err => mret (Err err)
  | Ok (Some resp) => mret (Ok resp)
  | Ok None =>
      match Marshal_request req with
      | Err m => mret (Err (errorf_wrap "failed to marshal request" (EStd (TextError m))))
      | Ok body =>
          match http_NewRequest url with
          | Err m => mret (Err (errorf_wrap "failed to create HTTP request" (EStd (TextError m))))
          | Ok parsed =>
              sid ← on_stream url (fun st => (Ok (Sse.sessionID st), st));
              ch ← on_stream url (Sse.register (req_ID req));
              _ ← getOrCreateHTTPClient e;
              r ← net (http_Do {| hmethod := "POST"; hurl := parsed;
                                  hheaders := [("Content-Type", "application/json"); ("Mcp-Session-Id", sid)]; hbody := body |});
              match r with
              | Err err =>
                  _ ← on_stream url (Sse.unregister (req_ID req));
                  mret (Err (errorf_wrap "failed to send request" (EStd err)))
              | Ok resp =>
                  if negb (status resp =? 200) && negb (status resp =? 202) then
                    _ ← on_stream url (Sse.unregister (req_ID req));
                    mret (Err (errorf ("backend returned status " +s pretty (status resp) +s ": " +s body_text (rbody resp))))
                  else sse_await url req ch
              end
          end
      end
  end.

Definition forwardRequestHTTP (ctx : gmap string value) (sess : option session) (e : Endpoint) (req : Request)
    : act (result error Response) :=
  if bool_decide (Scheme e = "sse") then forwardRequestViaSSE sess e req else forward_http ctx sess e req.

(** *** Forwarding over WebSocket *)

Definition buildWebSocketHeaders (sess : option session) : list (string * string) :=
  ("User-Agent", "mcp-gateway/1.0.0") ::
  match sess with Some s => [("X-MCP-Session-ID", sess_ID s); ("X-MCP-User", sess_User s)] | None => [] end.

Definition establishWebSocketConnection (ctx : gmap string value) (url : string) (hs : list (string * string))
    : act (result error nat) :=
  r ← net (ws_Dial url hs);
  match r with
  | Err e => err ← raise_gw (WrapWebSocketError ctx (Some (EStd e)) "dial" (url +s ":0")); mret (Err err)
  | Ok c => mret (Ok c)
  end.

Definition exchangeWebSocketMessages (ctx : gmap string value) (conn : nat) (req : Request) : act (result error Response) :=
  r ← net (ws_Exchange conn req);
  match r with
  | Err (operation, e) => err ← raise_gw (WrapWebSocketError ctx (Some (EStd e)) operation ":0"); mret (Err err)
  | Ok resp => mret (Ok resp)
  end.

Definition forwardRequestWebSocket (ctx : gmap string value) (sess : option session) (e : Endpoint) (req : Request)
    : act (result error Response) :=
  c ← establishWebSocketConnection ctx (buildWebSocketURL e) (buildWebSocketHeaders sess);
  match c with
  | Err err => err ← raise_gw (WrapWebSocketError ctx (Some err) "connect" (endpoint_text e)); mret (Err err)
  | Ok conn =>
      t ← net (ws_Configure conn);
      match t with
      | Some err => err ← raise_gw (WrapWebSocketError ctx (Some (EStd err)) "configure" (endpoint_text e)); mret (Err err)
      | None => exchangeWebSocketMessages ctx conn req
      end
  end.

(** *** Routing *)

Definition forwardRequest (ctx : gmap string value) (sess : option session) (e : Endpoint) (req : Request)
    : act (result error Response) :=
  if bool_decide (Scheme e ∈ ["ws"; schemeWSS]) then forwardRequestWebSocket ctx sess e req
  else if bool_decide (Scheme e ∈ [schemeHTTP; "https"; "sse"]) then forwardRequestHTTP ctx sess e req
  else err ← raise_gw (NewUnsupportedSchemeError (Scheme e) e); mret (Err err).

(** The error of [Call] on an open breaker. *)
Definition errCircuitOpen : error := EStd (TextError "circuit breaker is open (failing fast)").

(** [executeWithCircuitBreaker]: [now0] is read when a breaker is made, [now] after the
    request. *)
Definition executeWithCircuitBreaker (now0 now : Z) (ctx : gmap string value) (sess : option session) (e : Endpoint)
    (req : Request) : act (result error Response) :=
  b ← getCircuitBreaker (Address e) now0;
  if Circuit.IsOpen b then mret (Err errCircuitOpen)
  else
    r ← forwardRequest ctx sess e req;
    _ ← modify (set_breakers (alter (Circuit.record (is_ok r) now) (Address e)));
    mret r.

Definition RouteRequest (now0 now : Z) (ctx : gmap string value) (sess : option session) (req : Request)
    (targetNamespace : string) : act (result error Response) :=
  let ctx := EnrichContextWithRequest req targetNamespace ctx in
  let ns := if bool_decide (targetNamespace = EmptyString) then extractNamespace req else targetNamespace in
  sel ← selectEndpoint ns;
  match sel with
  | Err e => err ← raise_gw (FromContext captureStack ctx (Some e)); mret (Err err)
  | Ok p =>
      st ← get store_of;
      r ← executeWithCircuitBreaker now0 now ctx sess (st p) req;
      match r with
      | Err e => err ← raise_gw (WrapForwardingError ctx (Some e) (st p) (Method req)); mret (Err err)
      | Ok resp => mret (Ok resp)
      end
  end.

(** *** Health checks and invalidation *)

Definition handleHealthCheckError (now0 now : Z) (e : Endpoint) : act unit :=
  b ← getCircuitBreaker (Address e) now0;
  if Circuit.IsOpen b then mret tt
  else modify (set_breakers (alter (Circuit.record false now) (Address e))).

(** [checkEndpoint] on a copy of an endpoint; the result is the copy's health. *)
Definition checkEndpoint (now0 now : Z) (e : Endpoint) : act Endpoint :=
  match http_NewRequest (buildHealthCheckURL e) with
  | Err _ => mret (SetHealthy false e)
  | Ok url =>
      _ ← getOrCreateHTTPClient e;
      r ← net (http_Do {| hmethod := "GET"; hurl := url;
                          hheaders := [("Accept", "text/event-stream, application/json")]; hbody := "" |});
      match r with
      | Err _ => _ ← handleHealthCheckError now0 now e; mret (SetHealthy false e)
      | Ok resp => mret (SetHealthy (status resp =? 200) e)
      end
  end.

(** The probes of one round; the copies are dropped with the slices. *)
Fixpoint check_all (now0 now : Z) (es : list Endpoint) : act unit :=
  match es with [] => mret tt | e :: es => _ ← checkEndpoint now0 now e; check_all now0 now es end.

Definition checkEndpointHealth (now0 now : Z) : act unit :=
  d ← get disc; check_all now0 now (concat (Discovery.GetAllEndpoints d).*2).

Definition updateLoadBalancers : act unit := modify (set_balancers (fun _ => ∅)).

(** The period of [runHealthChecks], from what [time.ParseDuration] made of the setting. *)
Definition health_interval (parsed : option Z) : Z :=
  let interval := default (5 * Second) parsed in
  if (interval =? 0) || (30 * Second <? interval) then 5 * Second else interval.

(** One round of [runHealthChecks]. *)
Definition health_round (now0 now : Z) : act unit := _ ← checkEndpointHealth now0 now; updateLoadBalancers.

Definition closeEndpointClientsForNamespace : act unit := fun r =>
  let active := concat ((fun p => getEndpointKey <$> Discovery.GetEndpoints (disc r) (fst p)) <$> map_to_list (balancers r)) in
  (Ok tt, set_clients (filter (fun k => k ∈ active)) r).

Definition invalidateLoadBalancer (namespace : string) : act unit :=
  _ ← modify (set_balancers (delete namespace)); closeEndpointClientsForNamespace.

(** The state [InitializeRequestRouter] builds. *)
Definition InitializeRequestRouter (d : D) (w : World) (h : heap) : Router :=
  {| disc := d; balancers := ∅; breakers := ∅; endpointClients := ∅; backendSessions := ∅; sseStreams := ∅;
     eps := ∅; next_ep := 0; world := w; errors := h |}.

(** ** The invariant and a logic of postconditions *)

Section Invariant.

(** What discovery has been since the balancer of a namespace was last dropped. *)
Variable listed : string -> list D.

(** A cached balancer points to the endpoints discovery gives for its namespace, now or since then. *)
Definition cached (m : gmap nat Endpoint) (ns : string) (lb : balancer) : Prop :=
  exists d, d ∈ listed ns /\ Forall2 (fun p e => m !! p = Some e) (lb_endpoints lb) (Discovery.GetEndpoints d ns).

(** Errors are in a well-formed heap, unallocated endpoint cells are free, and balancers are cached ones. *)
Record rinv (r : Router) : Prop := {
  ri_heap : heap_wf (errors r);
  ri_fresh : forall p, (next_ep r <= p)%nat -> eps r !! p = None;
  ri_listed : forall ns, disc r ∈ listed ns;
  ri_balancers : forall ns lb, balancers r !! ns = Some lb -> cached (eps r) ns lb;
}.

(** From a state with the invariant and [P], [m] keeps the invariant and ends with [Q].  It
    may panic in a stream's reader, never on an error value. *)
Definition triple (P : Router -> Prop) {A} (m : act A) (Q : A -> Router -> Prop) : Prop :=
  forall r, rinv r -> P r ->
    match m r with
    | (Ok a, r') => rinv r' /\ Q a r'
    | (Err (PStream _), r') => rinv r'
    | (Err (PError _), _) => False
    end.

Definition any (r : Router) : Prop := True.

Lemma t_ret P {A} (a : A) Q : (forall r, P r -> Q a r) -> triple P (mret a) Q.
Proof. intros HQ r Hi HP. cbn. auto. Qed.

Lemma t_bind P {A B} (m : act A) (f : A -> act B) Q R :
  triple P m Q -> (forall a, triple (Q a) (f a) R) -> triple P (m ≫= f) R.
Proof.
  intros Hm Hf r Hi HP. specialize (Hm r Hi HP). unfold mbind, M_bind.
  destruct (m r) as [[a|[p|p]] r']; [|done|done]. destruct Hm. by apply Hf.
Qed.

Lemma t_conseq P P' {A} (m : act A) Q Q' :
  triple P' m Q' -> (forall r, P r -> P' r) -> (forall a r, Q' a r -> Q a r) -> triple P m Q.
Proof.
  intros Hm HP HQ r Hi H'. specialize (Hm r Hi (HP r H')). destruct (m r) as [[a|[p|p]] r']; [|done|done].
  destruct Hm. auto.
Qed.

Lemma t_get P {A} (f : Router -> A) (Q : A -> Router -> Prop) : (forall r, P r -> Q (f r) r) -> triple P (get f) Q.
Proof. intros HQ r Hi HP. cbn. auto. Qed.

Lemma t_modify P f (Q : unit -> Router -> Prop) :
  (forall r, rinv r -> P r -> rinv (f r) /\ Q tt (f r)) -> triple P (modify f) Q.
Proof. intros HQ r Hi HP. cbn. auto. Qed.

Lemma t_net P {A} (f : World -> A * World) (Q : A -> Router -> Prop) :
  (forall a w r, P r -> Q a (set_world w r)) -> triple P (net f) Q.
Proof.
  intros HQ r Hi HP. unfold net. destruct (f (world r)) as [a w]. split; [|by apply HQ]. destruct Hi. by constructor.
Qed.

(** Parts the invariant does not read. *)
Lemma rinv_breakers f r : rinv r -> rinv (set_breakers f r).
Proof. intros []. by constructor. Qed.
Lemma rinv_clients f r : rinv r -> rinv (set_clients f r).
Proof. intros []. by constructor. Qed.
Lemma rinv_sessions f r : rinv r -> rinv (set_sessions f r).
Proof. intros []. by constructor. Qed.
Lemma rinv_streams f r : rinv r -> rinv (set_streams f r).
Proof. intros []. by constructor. Qed.
#[local] Hint Resolve rinv_breakers rinv_clients rinv_sessions rinv_streams : mcp.

(** ** Error values *)

Definition is_class (c : ErrorType * Z * bool) (err : error) (r : Router) : Prop :=
  exists l e, err = EGw l /\ errs (errors r) !! l = Some e /\ ErrCatalog.class3 e = c.

(** An error a caller may wrap, with the class wrapping gives it. *)
Definition wraps_to (cs : list (ErrorType * Z * bool)) (err : error) (r : Router) : Prop :=
  ErrCatalog.valid_err (errors r) err /\ ErrCatalog.class_wrapped (errors r) err ∈ cs.

Definition internal : ErrorType * Z * bool := (TypeInternal, 0, false).

Lemma wraps_plain cs err r : As err = None -> internal ∈ cs -> wraps_to cs err r.
Proof.
  intros Ha Hc. split; [intros l; by rewrite Ha|]. unfold ErrCatalog.class_wrapped, lookup_error. by rewrite Ha.
Qed.

Lemma wraps_errorf cs text inner r : wraps_to cs inner r -> wraps_to cs (errorf_wrap text inner) r.
Proof. intros [Hv Hc]. split; [exact Hv|exact Hc]. Qed.

Lemma is_class_wraps c cs err r : is_class c err r -> c ∈ cs -> wraps_to cs err r.
Proof.
  intros (l & e & -> & He & <-) Hc. split; [intros l' [= <-]; by exists e|].
  unfold ErrCatalog.class_wrapped. cbn. by rewrite He.
Qed.

(** Raising a gateway error. *)
Lemma t_raise (P : Router -> Prop) m c :
  (forall r, rinv r -> P r -> ErrCatalog.gives c (m (errors r))) -> triple P (raise_gw m) (is_class c).
Proof.
  intros Hm r Hi HP. destruct (Hm r Hi HP) as (l & e & h & E & Hwf & He & Hc).
  unfold raise_gw, lift, mbind, M_bind. rewrite E. cbn. split; [|by exists l, e]. destruct Hi. by constructor.
Qed.

(** Wrapping one: the class is one of the list. *)
Lemma t_wrap cs err m :
  (forall r, rinv r -> wraps_to cs err r -> ErrCatalog.gives (ErrCatalog.class_wrapped (errors r) err) (m (errors r))) ->
  triple (wraps_to cs err) (raise_gw m) (fun e r => exists c, c ∈ cs /\ is_class c e r).
Proof.
  intros Hm r Hi HP. destruct (Hm r Hi HP) as (l & e & h & E & Hwf & He & Hc).
  unfold raise_gw, lift, mbind, M_bind. rewrite E. cbn. split; [destruct Hi; by constructor|].
  exists (ErrCatalog.class_wrapped (errors r) err). split; [apply HP|by exists l, e].
Qed.

#[local] Hint Resolve ErrCatalog.gives_WithComponent ErrCatalog.gives_WithOperation ErrCatalog.gives_WithHTTPStatus
  ErrCatalog.gives_WithContext ErrCatalog.gives_WrapContextf ErrCatalog.gives_Wrap ri_heap : gives.

Lemma gives_New t message h : heap_wf h -> ErrCatalog.gives (t, 0, isRetryableType t) (New captureStack t message h).
Proof. intros Hwf. by apply (ErrCatalog.gives_new {| Type_ := t |}). Qed.
#[local] Hint Resolve gives_New : gives.

Lemma t_wrap_forwarding cs ctx err e method :
  triple (wraps_to cs err) (raise_gw (WrapForwardingError ctx (Some err) e method))
    (fun x r => exists c, c ∈ cs /\ is_class c x r).
Proof.
  apply t_wrap. intros r Hi [Hv _]. unfold WrapForwardingError, WrapContext.
  repeat first [apply ErrCatalog.gives_WithContext | apply ErrCatalog.gives_WithOperation | apply ErrCatalog.gives_WithComponent].
  apply (ErrCatalog.gives_WrapContextf captureStack ctx err). eauto with gives.
Qed.

Lemma t_wrap_ws cs ctx err operation endpoint :
  triple (wraps_to cs err) (raise_gw (WrapWebSocketError ctx (Some err) operation endpoint))
    (fun x r => exists c, c ∈ cs /\ is_class c x r).
Proof. apply t_wrap. intros r Hi [Hv _]. unfold WrapWebSocketError. eauto 10 with gives. Qed.

Lemma t_wrap_http cs ctx err operation endpoint :
  triple (wraps_to cs err) (raise_gw (WrapHTTPError ctx (Some err) operation endpoint))
    (fun x r => exists c, c ∈ cs /\ is_class c x r).
Proof. apply t_wrap. intros r Hi [Hv _]. unfold WrapHTTPError. eauto 10 with gives. Qed.

Lemma t_wrap_marshal cs err dataType :
  triple (wraps_to cs err) (raise_gw (WrapMarshalError (Some err) dataType))
    (fun x r => exists c, c ∈ cs /\ is_class c x r).
Proof. apply t_wrap. intros r Hi [Hv _]. unfold WrapMarshalError. eauto 10 with gives. Qed.

(** ** Selection *)

Lemma alloc_lookup l n m p :
  alloc l n m !! p = if bool_decide (n <= p < n + length l)%nat then l !! (p - n)%nat else m !! p.
Proof.
  revert n m; induction l as [|e l IH]; intros n m; cbn [alloc length].
  { rewrite bool_decide_false; [done|lia]. }
  rewrite IH. destruct (decide (p = n)) as [->|Hne].
  - rewrite bool_decide_false by lia. rewrite bool_decide_true by lia. rewrite lookup_insert_eq.
    by rewrite Nat.sub_diag.
  - rewrite lookup_insert_ne by done. case_bool_decide as Hb; case_bool_decide as Hc; try lia; [|done].
    by replace (p - n)%nat with (S (p - S n)) by lia.
Qed.

Lemma alloc_Forall2 l n m :
  Forall2 (fun p e => alloc l n m !! p = Some e) (seq n (length l)) l.
Proof.
  apply Forall2_same_length_lookup_2; [by rewrite length_seq|]. intros i p e Hp He.
  apply lookup_seq in Hp as [-> Hi]. rewrite alloc_lookup, bool_decide_true by lia.
  by replace (n + i - n)%nat with i by lia.
Qed.

Lemma new_balancer_endpoints s st ps : lb_endpoints (new_balancer s st ps) = ps.
Proof.
  unfold new_balancer. repeat case_bool_decide; try done.
Qed.

(** Inserting the balancer of a namespace. *)
Lemma rinv_balancer ns lb r :
  rinv r -> cached (eps r) ns lb -> rinv (set_balancers (<[ns := lb]>) r).
Proof.
  intros [Hh Hn Hd Hb] Hf. constructor; try done. cbn. intros ns' lb' [[<- <-]|[_ Hl]]%lookup_insert_Some; [exact Hf|by apply Hb].
Qed.

Definition empty_ns (ns : string) (r : Router) : Prop := Discovery.GetEndpoints (disc r) ns = [].

Lemma t_getLoadBalancer ns :
  triple any (getLoadBalancer ns) (fun lb r => match lb with
    | None => empty_ns ns r
    | Some lb => balancers r !! ns = Some lb
    end).
Proof.
  intros r Hi _. unfold getLoadBalancer. destruct (balancers r !! ns) as [lb|] eqn:El; [done|].
  destruct (Discovery.GetEndpoints (disc r) ns) as [|e es] eqn:Eg; [done|].
  generalize dependent (e :: es). clear e es. intros l Eg.
  split; [|apply lookup_insert_eq]. apply rinv_balancer.
  - destruct Hi as [Hh Hn Hd Hb]. constructor; [done| |done|].
    + cbn. intros p Hp. rewrite alloc_lookup, bool_decide_false by lia. apply Hn. lia.
    + cbn. intros ns' lb' Hl. destruct (Hb ns' lb' Hl) as (d & Hdd & HF). exists d. split; [done|].
      eapply Forall2_impl; [exact HF|]. cbn. intros p e' Hp.
      rewrite alloc_lookup, bool_decide_false; [done|]. intros Hr. rewrite Hn in Hp by lia. done.
  - exists (disc r). split; [apply Hi|]. rewrite new_balancer_endpoints. cbn -[alloc seq]. rewrite Eg. apply alloc_Forall2.
Qed.

(** The endpoint a pointer of a balancer leads to. *)
Definition selected (ns : string) (p : nat) (r : Router) : Prop :=
  (exists d, d ∈ listed ns /\ store_of r p ∈ Discovery.GetEndpoints d ns) /\ IsHealthy (store_of r p) = true.

Definition unavailable : ErrorType * Z * bool := (TypeUnavailable, 503, true).
Definition invalid : ErrorType * Z * bool := (TypeValidation, 400, false).

Lemma t_no_endpoints P ns : triple P (raise_gw (NewNoEndpointsError ns)) (is_class unavailable).
Proof. apply t_raise. intros r Hi _. unfold NewNoEndpointsError.
  change unavailable with (TypeUnavailable, 503, isRetryableType TypeUnavailable). eauto 10 with gives. Qed.

Lemma t_no_healthy P ns : triple P (raise_gw (NewNoHealthyEndpointsError ns)) (is_class unavailable).
Proof. apply t_raise. intros r Hi _. unfold NewNoHealthyEndpointsError.
  change unavailable with (TypeUnavailable, 503, isRetryableType TypeUnavailable). eauto 10 with gives. Qed.

Lemma t_selectEndpoint ns :
  triple any (selectEndpoint ns) (fun res r => match res with
    | Ok p => selected ns p r
    | Err err => is_class unavailable err r
    end).
Proof.
  unfold selectEndpoint. eapply t_bind; [apply t_getLoadBalancer|]. intros [lb|].
  2:{ eapply t_bind; [apply t_no_endpoints|]. intros e. by apply t_ret. }
  intros r Hi Hl. unfold mbind, M_bind, get. destruct (lb_Next (store_of r) lb) as [p lb'] eqn:En.
  assert (rinv (set_balancers (<[ns := lb']>) r)) as Hi'.
  { apply rinv_balancer; [done|]. pose proof (next_endpoints (store_of r) lb) as N. rewrite En in N. cbn [snd] in N.
    unfold cached. rewrite N. by apply Hi. }
  destruct p as [p|]; cbn.
  - split; [done|]. destruct (next_healthy _ _ _ _ En) as [Hp Hh]. split; [|exact Hh].
    apply list_elem_of_lookup in Hp as [i Hp]. destruct (ri_balancers r Hi ns lb Hl) as (d & Hd & F).
    destruct (Forall2_lookup_l _ _ _ _ _ F Hp) as (e & He & Hpe). exists d. split; [done|].
    change (default no_endpoint (eps r !! p) ∈ Discovery.GetEndpoints d ns). rewrite Hpe.
    by apply list_elem_of_lookup_2 in He.
  - pose proof (t_no_healthy any ns _ Hi' I) as T. by destruct (raise_gw _ _) as [[err|[x|x]] r'].
Qed.

(** ** Forwarding *)

(** A response, or an error that wraps to one of [cs]. *)
Definition answer {A} (cs : list (ErrorType * Z * bool)) (res : result error A) (r : Router) : Prop :=
  match res with Ok _ => True | Err err => wraps_to cs err r end.

Lemma t_client P e : (forall f r, P r -> P (set_clients f r)) -> triple P (getOrCreateHTTPClient e) (fun _ => P).
Proof. intros HP. apply t_modify. intros r Hi Hr. split; [by apply rinv_clients|by apply HP]. Qed.

Lemma t_wrapped {A} cs P (m : act error) :
  triple P m (fun x r => exists c, c ∈ cs /\ is_class c x r) ->
  triple P (x ← m; mret (Err x)) (answer (A := A) cs).
Proof.
  intros Hm. eapply t_bind; [exact Hm|]. intros x. apply t_ret. intros r (c & Hc & Hx). by eapply is_class_wraps.
Qed.

Lemma t_err {A} cs P err : As err = None -> internal ∈ cs -> triple P (mret (Err err)) (answer (A := A) cs).
Proof. intros Ha Hc. apply t_ret. intros r _. by apply wraps_plain. Qed.

Definition pure_errors {A} (res : result error A) : Prop := match res with Ok _ => True | Err err => As err = None end.

Lemma pure_answer {A} cs (res : result error A) r : pure_errors res -> internal ∈ cs -> answer cs res r.
Proof. destruct res; [done|]. apply wraps_plain. Qed.

Lemma t_prepareHTTPRequest cs e req : internal ∈ cs -> triple any (prepareHTTPRequest e req) (answer cs).
Proof.
  intros Hc. unfold prepareHTTPRequest. destruct (Marshal_request req) as [body|m].
  - destruct (http_NewRequest _); [by apply t_ret|by apply t_err].
  - apply t_wrapped. eapply t_conseq; [apply (t_wrap_marshal cs)|intros r _; by apply wraps_plain|done].
Qed.

Lemma processHTTPResponse_pure resp : pure_errors (processHTTPResponse resp).
Proof.
  unfold processHTTPResponse. destruct (rbody resp); [|done]. destruct (negb _); [done|].
  destruct (Contains _ _).
  - by destruct (Sse.parseSSEResponse _) as [|[]].
  - by destruct (Unmarshal_response _).
Qed.

Lemma t_forward_http cs ctx sess e req : internal ∈ cs -> triple any (forward_http ctx sess e req) (answer cs).
Proof.
  intros Hc. unfold forward_http. eapply t_bind; [by apply t_prepareHTTPRequest|]. intros [h|err].
  2:{ by apply t_ret. }
  apply (t_bind _ _ _ (fun _ => any)); [by apply t_get|]. intros m.
  apply (t_bind _ _ _ (fun _ => any)); [by apply t_client|]. intros _.
  apply (t_bind _ _ _ (fun _ => any)); [by apply t_net|]. intros [resp|err].
  2:{ apply t_wrapped. eapply t_conseq; [apply (t_wrap_http cs)|intros r _; by apply wraps_plain|done]. }
  apply (t_bind _ _ _ (fun _ => any)).
  - destruct sess as [s|]; [|by apply t_ret]. case_bool_decide; [by apply t_ret|].
    apply t_modify. intros r Hi _. split; [by apply rinv_sessions|done].
  - intros _. apply t_ret. intros r _. apply pure_answer; [apply processHTTPResponse_pure|done].
Qed.

Lemma session_of_response_pure what missing r : pure_errors (session_of_response what missing r).
Proof.
  unfold session_of_response. destruct r as [resp|]; [|done]. destruct (negb _); [done|]. by case_bool_decide.
Qed.

Lemma t_establishSSESession P sess e :
  (forall f r, P r -> P (set_clients f r)) -> (forall w r, P r -> P (set_world w r)) ->
  triple P (establishSSESession sess e) (fun res r => P r /\ pure_errors res).
Proof.
  intros Hf Hw. unfold establishSSESession, prepareSSESessionRequest.
  destruct (http_NewRequest _); [|by apply t_ret].
  apply (t_bind _ _ _ (fun _ => P)); [by apply t_client|]. intros _.
  eapply (t_bind _ _ _ (fun res r => P r /\ pure_errors res)).
  - unfold sendSSESessionRequest. apply (t_bind _ _ _ (fun _ => P)); [by apply t_net; auto|]. intros x.
    apply t_ret. intros r Hr. split; [done|]. apply session_of_response_pure.
  - intros [[resp sid]|err]; apply t_ret; naive_solver.
Qed.

Lemma t_establishViaInitialize sess e req :
  triple any (establishSSESessionViaInitialize sess e req) (fun _ => any).
Proof.
  unfold establishSSESessionViaInitialize. destruct (prepareInitializeHTTPRequest _ _ _); [|by apply t_ret].
  apply (t_bind _ _ _ (fun _ => any)); [by apply t_client|]. intros _.
  apply (t_bind _ _ _ (fun _ => any)); [|by intros; apply t_ret].
  unfold sendInitializeRequest. apply (t_bind _ _ _ (fun _ => any)); [by apply t_net|]. intros; by apply t_ret.
Qed.

Definition has_stream (url : string) (r : Router) : Prop := is_Some (sseStreams r !! url).

Lemma t_stream_stored url st (Q : unit -> Router -> Prop) :
  (forall r, has_stream url r -> Q tt r) -> triple any (modify (set_streams (<[url := st]>))) Q.
Proof.
  intros HQ. apply t_modify. intros r Hi _. split; [by apply rinv_streams|]. apply HQ. unfold has_stream. cbn.
  rewrite lookup_insert_eq. eauto.
Qed.

Lemma t_ensure_stream cs sess e req :
  internal ∈ cs ->
  triple any (ensure_stream sess e req) (fun res r => match res with
    | Ok None => has_stream (buildHTTPURL e) r
    | Ok (Some _) => True
    | Err err => wraps_to cs err r
    end).
Proof.
  intros Hc. unfold ensure_stream.
  apply (t_bind _ _ _ (fun k r => k = sseStreams r !! buildHTTPURL e)); [by apply t_get|].
  intros [st|]; [by apply t_ret; intros r Hr; exists st|].
  apply (t_bind _ _ _ (fun _ => any)).
  { case_bool_decide; [|by apply t_ret]. eapply t_bind; [|by intros; apply t_ret].
    eapply t_conseq; [apply t_establishViaInitialize|done|done]. }
  intros [[st resp]|].
  - apply (t_bind _ _ _ (fun _ => any)); [by apply t_stream_stored|]. intros; by apply t_ret.
  - eapply t_bind; [by apply (t_establishSSESession any)|]. intros [st|err].
    + apply (t_bind _ _ _ (fun _ => has_stream (buildHTTPURL e))); [|by intros _; apply t_ret].
      by eapply t_conseq; [by apply (t_stream_stored _ _ (fun _ => has_stream (buildHTTPURL e)))|..].
    + apply t_ret. intros r [_ Hp]. by apply wraps_errorf, wraps_plain.
Qed.

Lemma t_on_stream {A} url (m : M Sse.sseStream Sse.panic A) :
  triple (has_stream url) (on_stream url m) (fun _ => has_stream url).
Proof.
  intros r Hi [st Hs]. unfold on_stream. rewrite Hs.
  destruct (m st) as [[a|p] st']; [split|]; try by apply rinv_streams.
  unfold has_stream. cbn. rewrite lookup_insert_eq. eauto.
Qed.

Lemma t_sse_await cs url req ch : internal ∈ cs -> triple (has_stream url) (sse_await url req ch) (answer cs).
Proof.
  intros Hc. unfold sse_await. eapply t_bind; [by apply (t_net _ _ (fun _ => has_stream url))|]. intros [ls done].
  eapply t_bind; [apply t_on_stream|]. intros []. eapply t_bind; [apply t_on_stream|]. intros [x| |].
  - by apply t_ret.
  - by apply t_err.
  - destruct done.
    + eapply t_bind; [apply t_on_stream|]. intros []. by apply t_err.
    + apply (t_bind _ _ _ (fun _ => any)); [|intros; by apply t_err].
      apply t_modify. intros r Hi _. split; [by apply rinv_streams|done].
Qed.

Lemma t_forwardRequestViaSSE cs sess e req : internal ∈ cs -> triple any (forwardRequestViaSSE sess e req) (answer cs).
Proof.
  intros Hc. unfold forwardRequestViaSSE. eapply t_bind; [by apply (t_ensure_stream cs)|].
  intros [[resp|]|err]; [by apply t_ret| |by apply t_ret].
  destruct (Marshal_request req); [|by apply t_err]. destruct (http_NewRequest _); [|by apply t_err].
  eapply t_bind; [apply t_on_stream|]. intros sid. eapply t_bind; [apply t_on_stream|]. intros ch.
  eapply t_bind; [by apply t_client|]. intros [].
  eapply t_bind; [by apply (t_net _ _ (fun _ => has_stream (buildHTTPURL e)))|]. intros [resp|err].
  - destruct (_ && _); [|by apply t_sse_await]. eapply t_bind; [apply t_on_stream|]. intros []. by apply t_err.
  - eapply t_bind; [apply t_on_stream|]. intros []. by apply t_err.
Qed.

Lemma t_forwardRequestWebSocket cs ctx sess e req :
  internal ∈ cs -> triple any (forwardRequestWebSocket ctx sess e req) (answer cs).
Proof.
  intros Hc. unfold forwardRequestWebSocket.
  assert (forall err o t, As err = None ->
    triple any (x ← raise_gw (WrapWebSocketError ctx (Some err) o t); mret (Err x)) (answer (A := Response) cs)) as Hw.
  { intros err o t Ha. apply t_wrapped. eapply t_conseq; [apply (t_wrap_ws cs)|intros r _; by apply wraps_plain|done]. }
  eapply (t_bind _ _ _ (answer cs)).
  - unfold establishWebSocketConnection. apply (t_bind _ _ _ (fun _ => any)); [by apply t_net|].
    intros [c|err]; [by apply t_ret|]. apply t_wrapped.
    eapply t_conseq; [apply (t_wrap_ws cs)|intros r _; by apply wraps_plain|done].
  - intros [c|err].
    + apply (t_bind _ _ _ (fun _ => any)); [by apply t_net|]. intros [err|]; [by apply Hw|].
      unfold exchangeWebSocketMessages. apply (t_bind _ _ _ (fun _ => any)); [by apply t_net|].
      intros [resp|[o err]]; [by apply t_ret|by apply Hw].
    + apply t_wrapped, t_wrap_ws.
Qed.

Definition forward_classes : list (ErrorType * Z * bool) := [internal; invalid].

Lemma t_unsupported e : triple any (raise_gw (NewUnsupportedSchemeError (Scheme e) e)) (is_class invalid).
Proof.
  apply t_raise. intros r Hi _. unfold NewUnsupportedSchemeError.
  change invalid with (TypeValidation, 400, isRetryableType TypeValidation). eauto 10 with gives.
Qed.

Lemma t_forwardRequest ctx sess e req : triple any (forwardRequest ctx sess e req) (answer forward_classes).
Proof.
  unfold forwardRequest. case_bool_decide; [apply t_forwardRequestWebSocket; left|]. case_bool_decide.
  - unfold forwardRequestHTTP. case_bool_decide; [apply t_forwardRequestViaSSE; left|apply t_forward_http; left].
  - eapply t_bind; [apply t_unsupported|]. intros x. apply t_ret. intros r Hx. by eapply (is_class_wraps invalid); [exact Hx|right; left].
Qed.

(** ** Routing *)

Lemma t_getCircuitBreaker address now0 : triple any (getCircuitBreaker address now0) (fun _ => any).
Proof. intros r Hi _. unfold getCircuitBreaker. destruct (breakers r !! address); [done|]. split; [by apply rinv_breakers|done]. Qed.

Lemma t_execute_from cs now0 now ctx sess e req :
  internal ∈ cs -> triple any (forwardRequest ctx sess e req) (answer cs) ->
  triple any (executeWithCircuitBreaker now0 now ctx sess e req) (answer cs).
Proof.
  intros Hcs Hf. unfold executeWithCircuitBreaker. eapply t_bind; [apply t_getCircuitBreaker|]. intros b.
  destruct (Circuit.IsOpen b); [by apply t_err|].
  eapply t_bind; [exact Hf|]. intros res.
  apply (t_bind _ _ _ (fun _ => answer cs res)); [|by intros; apply t_ret].
  apply t_modify. intros r Hi Hr. split; [by apply rinv_breakers|exact Hr].
Qed.

Lemma t_execute now0 now ctx sess e req :
  triple any (executeWithCircuitBreaker now0 now ctx sess e req) (answer forward_classes).
Proof. apply t_execute_from; [left|apply t_forwardRequest]. Qed.

Definition route_classes : list (ErrorType * Z * bool) := [unavailable; internal; invalid].

Lemma t_RouteRequest now0 now ctx sess req ns :
  triple any (RouteRequest now0 now ctx sess req ns) (fun res r => match res with
    | Ok _ => True
    | Err err => exists c, c ∈ route_classes /\ is_class c err r
    end).
Proof.
  unfold RouteRequest. eapply t_bind; [apply t_selectEndpoint|]. intros [p|err].
  - apply (t_bind _ _ _ (fun _ => any)); [by apply t_get|]. intros st.
    eapply t_bind; [apply t_execute|]. intros [resp|err]; [by apply t_ret|].
    eapply t_bind; [apply t_wrap_forwarding|]. intros x. apply t_ret. intros r (c & Hc & Hx).
    exists c. split; [by right|done].
  - eapply t_bind.
    2:{ intros x. apply t_ret. intros r Hx. exists unavailable. split; [left|exact Hx]. }
    apply t_raise. intros r Hi (l & e & -> & He & <-). apply ErrCatalog.gives_FromContext; [apply Hi|]. cbn. by rewrite He.
Qed.

(** ** Health rounds *)

Lemma t_checkEndpoint now0 now e : triple any (checkEndpoint now0 now e) (fun _ => any).
Proof.
  unfold checkEndpoint. destruct (http_NewRequest _); [|by apply t_ret].
  apply (t_bind _ _ _ (fun _ => any)); [by apply t_client|]. intros _.
  apply (t_bind _ _ _ (fun _ => any)); [by apply t_net|]. intros [resp|err]; [by apply t_ret|].
  apply (t_bind _ _ _ (fun _ => any)); [|by intros; apply t_ret].
  unfold handleHealthCheckError. eapply t_bind; [apply t_getCircuitBreaker|]. intros b.
  destruct (Circuit.IsOpen b); [by apply t_ret|]. apply t_modify. intros r Hi _. split; [by apply rinv_breakers|done].
Qed.

Lemma t_check_all now0 now es : triple any (check_all now0 now es) (fun _ => any).
Proof.
  induction es as [|e es IH]; [by apply t_ret|]. eapply t_bind; [apply t_checkEndpoint|]. by intros.
Qed.

Lemma t_health_round now0 now : triple any (health_round now0 now) (fun _ => any).
Proof.
  unfold health_round. apply (t_bind _ _ _ (fun _ => any)).
  - apply (t_bind _ _ _ (fun _ => any)); [by apply t_get|]. intros d. apply t_check_all.
  - intros []. apply t_modify. intros r [Hh Hn Hd Hb] _. split; [|done]. by constructor.
Qed.

Lemma triple_snd P {A} (m : act A) Q r : triple P m Q -> rinv r -> P r -> rinv (snd (m r)).
Proof.
  intros Hm Hi HP. specialize (Hm r Hi HP). destruct (m r) as [[a|[x|x]] r']; [by destruct Hm|done|done].
Qed.

End Invariant.

(** ** Histories *)

(** What happens to a router: requests, health rounds, ticks of the breakers' goroutines, changes of what discovery lists,
    notifications of a namespace (which may come late or, as from Consul or a resync, never), ends of frontend sessions
    and of streams. *)
Inductive event :=
| ERoute (now0 now : Z) (ctx : gmap string value) (sess : option session) (req : Request) (targetNamespace : string)
| EHealth (now0 now : Z)
| ETick (now : Z)
| EDiscovery (d : D)
| ENotify (namespace : string)
| EClear (frontend : string)
| EStreamEnd (url : string).

Definition happen (ev : event) (r : Router) : Router :=
  match ev with
  | ERoute now0 now ctx sess req ns => snd (RouteRequest now0 now ctx sess req ns r)
  | EHealth now0 now => snd (health_round now0 now r)
  | ETick now => set_breakers (fmap (Circuit.autoRecovery_tick now)) r
  | EDiscovery d => set_disc d r
  | ENotify ns => snd (invalidateLoadBalancer ns r)
  | EClear frontend => snd (ClearBackendSessions frontend r)
  | EStreamEnd url => set_streams (delete url) r
  end.

(** The discovery states since a namespace's balancer was last dropped: by a notification of it or by a health round. *)
Definition listed_after (ev : event) (r : Router) (listed : string -> list D) : string -> list D :=
  match ev with
  | EHealth _ _ => fun _ => [disc r]
  | EDiscovery d => fun ns => d :: listed ns
  | ENotify ns => fun ns' => if bool_decide (ns' = ns) then [disc r] else listed ns'
  | _ => listed
  end.

Inductive reachable : (string -> list D) -> Router -> Prop :=
| r_init d w h : heap_wf h -> reachable (fun _ => [d]) (InitializeRequestRouter d w h)
| r_event listed r ev : reachable listed r -> reachable (listed_after ev r listed) (happen ev r).

Lemma check_disc now0 now e r : disc (snd (checkEndpoint now0 now e r)) = disc r.
Proof.
  unfold checkEndpoint, handleHealthCheckError, getCircuitBreaker, getOrCreateHTTPClient, modify, net, mbind, M_bind.
  destruct (http_NewRequest _); [|done]. cbn. destruct (http_Do _ _) as [[resp|x] w]; [done|]. cbn.
  destruct (breakers r !! Address e) as [b|]; [by destruct (Circuit.IsOpen b)|]. by destruct (Circuit.IsOpen _).
Qed.

Lemma round_disc now0 now r : disc (snd (health_round now0 now r)) = disc r.
Proof.
  assert (forall es r, disc (snd (check_all now0 now es r)) = disc r) as Hall.
  { induction es as [|e es IH]; intros r0; [done|]. cbn [check_all]. pose proof (check_disc now0 now e r0) as Hd.
    destruct (checkEndpoint now0 now e r0) as [[e'|x] r1] eqn:Ec; cbn in Hd;
      [rewrite (M_bind_ok _ _ _ _ _ Ec), IH; done|by rewrite (M_bind_err _ _ _ _ _ Ec)]. }
  unfold health_round, checkEndpointHealth, updateLoadBalancers, get, modify, mbind, M_bind.
  pose proof (Hall (concat (Discovery.GetAllEndpoints (disc r)).*2) r) as Hd. by destruct (check_all now0 now _ r) as [[[]|x] r1].
Qed.

(** Probes never fail as actions. *)
Lemma check_ok now0 now e r : exists e', fst (checkEndpoint now0 now e r) = Ok e'.
Proof.
  unfold checkEndpoint. destruct (http_NewRequest _); [|eauto].
  unfold getOrCreateHTTPClient, modify, net, mbind, M_bind. destruct (http_Do _ _) as [[resp|x] w]; [eauto|].
  unfold handleHealthCheckError, getCircuitBreaker, mbind, M_bind.
  destruct (breakers _ !! _) as [b|]; [destruct (Circuit.IsOpen b)|destruct (Circuit.IsOpen _)]; eauto.
Qed.

Lemma round_drops now0 now r listed : rinv listed r -> rinv (fun _ => [disc r]) (snd (health_round now0 now r)).
Proof.
  intros Hi. pose proof (t_health_round listed now0 now r Hi I) as T. pose proof (round_disc now0 now r) as Hd.
  unfold health_round, updateLoadBalancers, modify, mbind, M_bind in *.
  destruct (checkEndpointHealth now0 now r) as [[[]|x] r1] eqn:Ec; cbn in Hd, T |- *.
  - destruct T as [[Hh Hn _ _] _]. constructor; try done. cbn. intros ns. rewrite Hd. left.
  - exfalso. clear -Ec. revert Ec. unfold checkEndpointHealth, get. unfold mbind at 1, M_bind at 1. generalize (disc r) as d. intros d.
    generalize (concat (Discovery.GetAllEndpoints d).*2) as es. intros es. revert r. induction es as [|e es IH]; intros r; [done|].
    cbn [check_all]. destruct (check_ok now0 now e r) as [e' He]. destruct (checkEndpoint now0 now e r) as [o r2] eqn:Ec. cbn in He. subst o.
    rewrite (M_bind_ok _ _ _ _ _ Ec). apply IH.
Qed.

Lemma reachable_rinv listed r : reachable listed r -> rinv listed r.
Proof.
  induction 1 as [d w h Hwf|listed r ev _ IH].
  - constructor; try done. intros ns. left.
  - destruct ev; cbn [happen listed_after].
    + by eapply triple_snd; [apply t_RouteRequest|..].
    + by eapply round_drops.
    + by apply rinv_breakers.
    + destruct IH as [Hh Hn Hd Hb]. constructor; try done; cbn; [intros ns; left|].
      intros ns lb Hl. destruct (Hb ns lb Hl) as (d' & Hd' & HF). exists d'. split; [by right|done].
    + destruct IH as [Hh Hn Hd Hb]. unfold invalidateLoadBalancer, closeEndpointClientsForNamespace, mbind, M_bind, modify.
      constructor; try done; cbn.
      * intros ns. case_bool_decide; [left|apply Hd].
      * intros ns lb [Hne Hl]%lookup_delete_Some. unfold cached. rewrite bool_decide_false by done. by apply Hb.
    + by apply rinv_sessions.
    + by apply rinv_streams.
Qed.

(** ** What selection leaves alone *)

Definition same_net (r r' : Router) : Prop :=
  world r' = world r /\ disc r' = disc r /\ breakers r' = breakers r /\ backendSessions r' = backendSessions r.

Lemma same_net_trans r r' r'' : same_net r r' -> same_net r' r'' -> same_net r r''.
Proof. unfold same_net. intuition congruence. Qed.

Lemma raise_frame m r : exists h, snd (raise_gw m r) = set_errors h r.
Proof.
  unfold raise_gw, lift, mbind, M_bind, as_value. destruct (m (errors r)) as [[[l|]|x] h]; cbn; eauto.
Qed.

Lemma raise_ret_frame {A} m (f : error -> A) r : same_net r (snd ((x ← raise_gw m; mret (f x)) r)).
Proof.
  destruct (raise_frame m r) as [h E]. unfold mbind, M_bind. destruct (raise_gw m r) as [[|] ?]; cbn in *; by subst.
Qed.

Lemma select_frame ns r : same_net r (snd (selectEndpoint ns r)).
Proof.
  unfold selectEndpoint.
  assert (same_net r (snd (getLoadBalancer ns r))) as Hg.
  { unfold getLoadBalancer. destruct (balancers r !! ns); [done|]. by destruct (Discovery.GetEndpoints _ _). }
  destruct (getLoadBalancer ns r) as [[lb|x] r1] eqn:Eg; [|by rewrite (M_bind_err _ _ _ _ _ Eg)].
  rewrite (M_bind_ok _ _ _ _ _ Eg). cbn [snd] in Hg.
  destruct lb as [lb|].
  2:{ eapply same_net_trans; [exact Hg|]. apply (raise_ret_frame (NewNoEndpointsError ns) Err). }
  unfold mbind at 1, M_bind at 1, get. destruct (lb_Next (store_of r1) lb) as [[p|] lb']; [done|].
  eapply same_net_trans; [exact Hg|].
  apply (raise_ret_frame (NewNoHealthyEndpointsError ns) Err (set_balancers (<[ns := lb']>) r1)).
Qed.

(** ** Health checks against the endpoints the balancers use *)

Fixpoint health_rounds (ts : list (Z * Z)) : act unit :=
  match ts with [] => mret tt | (now0, now) :: ts => _ ← health_round now0 now; health_rounds ts end.

(** Breakers of an address in a run of failures: at least [k] counted, or open already. *)
Definition failing (a : string) (k : Z) (r : Router) : Prop :=
  match breakers r !! a with
  | None => k = 0
  | Some b => Circuit.IsOpen b = true \/
      (k <= Circuit.failures b < Circuit.maxFailures b /\ Circuit.maxFailures b = FailureThreshold cfg)
  end.

Lemma failing_record k now b :
  Circuit.IsOpen b = true \/ (k <= Circuit.failures b < Circuit.maxFailures b /\ Circuit.maxFailures b = FailureThreshold cfg) ->
  let b' := if Circuit.IsOpen b then b else Circuit.record false now b in
  Circuit.IsOpen b' = true \/
  (k + 1 <= Circuit.failures b' < Circuit.maxFailures b' /\ Circuit.maxFailures b' = FailureThreshold cfg).
Proof.
  intros Hb. cbn zeta. destruct (Circuit.IsOpen b) eqn:Eo; [by left|]. destruct Hb as [?|[Hb Hm]]; [done|].
  unfold Circuit.record, Circuit.recordFailure. cbn. destruct (Circuit.state b) eqn:Es; cbn; [|by unfold Circuit.IsOpen in Eo; rewrite Es in Eo|by left].
  case_tests; [by left|]. right. cbn. lia.
Qed.

(** One recorded failure of a probe. *)
Lemma handle_failing now0 now e a k r :
  0 < FailureThreshold cfg -> failing a k r -> 0 <= k ->
  failing a (if bool_decide (Address e = a) then k + 1 else k) (snd (handleHealthCheckError now0 now e r)).
Proof.
  intros Hft Hf Hk. unfold handleHealthCheckError, getCircuitBreaker, mbind, M_bind.
  set (b0 := Circuit.NewCircuitBreaker _ _ _ _).
  assert (exists b r1, (match breakers r !! Address e with Some b => (Ok b, r)
            | None => (Ok b0, set_breakers (<[Address e := b0]>) r) end : result rpanic _ * Router) = (Ok b, r1) /\
          breakers r1 !! Address e = Some b /\ failing a k r1) as (b & r1 & -> & Hb & Hf1).
  { destruct (breakers r !! Address e) as [b|] eqn:Eb; [by exists b, r|]. exists b0, (set_breakers (<[Address e := b0]>) r).
    split; [done|]. cbn. rewrite lookup_insert_eq. split; [done|]. unfold failing in *. cbn.
    destruct (decide (Address e = a)) as [<-|Hne]; [|by rewrite lookup_insert_ne].
    rewrite lookup_insert_eq. rewrite Eb in Hf. right. cbn. lia. }
  assert (breakers (snd ((if Circuit.IsOpen b then mret tt
            else modify (set_breakers (alter (Circuit.record false now) (Address e))) : act unit) r1)) =
          <[Address e := if Circuit.IsOpen b then b else Circuit.record false now b]> (breakers r1)) as Hbr.
  { destruct (Circuit.IsOpen b); cbn; [by rewrite insert_id|]. apply map_eq. intros i.
    destruct (decide (i = Address e)) as [->|Hn]; [rewrite lookup_alter_eq, lookup_insert_eq, Hb; done|].
    by rewrite lookup_alter_ne, lookup_insert_ne by done. }
  unfold failing in *. rewrite Hbr. case_bool_decide as Ha.
  - subst a. rewrite lookup_insert_eq. rewrite Hb in Hf1. by apply failing_record.
  - by rewrite lookup_insert_ne.
Qed.

(** A scheme net/http has no transport for. *)
Definition unprobed (e : Endpoint) : Prop := Scheme e ∈ ["ws"; "wss"; "sse"].

Lemma unprobed_url e url : unprobed e -> http_NewRequest (buildHealthCheckURL e) = Ok url ->
  HasPrefix url "http://" = false /\ HasPrefix url "https://" = false.
Proof.
  unfold unprobed. intros Hs Hu.
  assert (exists scheme, scheme ∈ ["ws:"; "wss:"; "sse:"] /\ HasPrefix (buildHealthCheckURL e) scheme = true) as (scheme & Hin & Hp).
  { unfold buildHealthCheckURL.
    apply elem_of_cons in Hs as [->|Hs]; [exists "ws:"%string; split; [left|done]|].
    apply elem_of_cons in Hs as [->|Hs]; [exists "wss:"%string; split; [right; left|done]|].
    apply elem_of_cons in Hs as [->|Hs]; [exists "sse:"%string; split; [right; right; left|done]|]. set_solver. }
  pose proof (http_NewRequest_scheme _ _ _ Hu Hin Hp) as Hq. apply HasPrefix_spec in Hq as [rest ->].
  by repeat (apply elem_of_cons in Hin as [->|Hin]; [done|]); set_solver.
Qed.

Lemma check_failing now0 now e a k r :
  0 < FailureThreshold cfg -> failing a k r -> 0 <= k ->
  failing a k (snd (checkEndpoint now0 now e r)) /\
  (unprobed e -> Address e = a -> is_ok (http_NewRequest (buildHealthCheckURL e)) = true ->
     failing a (k + 1) (snd (checkEndpoint now0 now e r))).
Proof.
  intros Hft Hf Hk. unfold checkEndpoint. destruct (http_NewRequest _) as [url|] eqn:Hpu; [|done].
  unfold getOrCreateHTTPClient, modify, net, mbind, M_bind. cbn [fst snd].
  set (q := {| hurl := url |}). set (r1 := set_clients _ r).
  assert (unprobed e -> exists x w, http_Do q (world r1) = (Err x, w)) as Hd.
  { intros U. destruct (unprobed_url e url U Hpu). by apply http_Do_scheme. }
  destruct (http_Do q (world r1)) as [[resp|x] w].
  - cbn. split; [done|]. intros Hu. by destruct (Hd Hu) as (? & ? & ?).
  - assert (failing a k (set_world w r1)) as Hf1 by done.
    pose proof (handle_failing now0 now e a k _ Hft Hf1 Hk) as Hh.
    destruct (handleHealthCheckError now0 now e (set_world w r1)) as [[u|y] r2]; cbn in *.
    + split.
      * case_bool_decide; [|done]. unfold failing in *. destruct (breakers r2 !! a); [|lia]. intuition lia.
      * intros _ Ha _. by rewrite bool_decide_true in Hh.
    + split.
      * case_bool_decide; [|done]. unfold failing in *. destruct (breakers r2 !! a); [|lia]. intuition lia.
      * intros _ Ha _. by rewrite bool_decide_true in Hh.
Qed.

Lemma check_all_failing now0 now es a k r :
  0 < FailureThreshold cfg -> failing a k r -> 0 <= k ->
  let r' := snd (check_all now0 now es r) in
  fst (check_all now0 now es r) = Ok tt /\ disc r' = disc r /\ failing a k r' /\
  ((exists e, e ∈ es /\ unprobed e /\ Address e = a /\ is_ok (http_NewRequest (buildHealthCheckURL e)) = true) -> failing a (k + 1) r').
Proof.
  intros Hft. revert k r. induction es as [|e es IH]; intros k r Hf Hk; cbn zeta.
  { split_and!; try done. intros (e & He & _). set_solver. }
  destruct (check_failing now0 now e a k r Hft Hf Hk) as [F1 F2].
  destruct (check_ok now0 now e r) as [e' Ho]. pose proof (check_disc now0 now e r) as Hd.
  cbn [check_all]. destruct (checkEndpoint now0 now e r) as [o r1] eqn:Ec. cbn in Ho, Hd, F1, F2. subst o.
  rewrite (M_bind_ok _ _ _ _ _ Ec). destruct (IH k r1 F1 Hk) as (I1 & I2 & I3 & I4).
  split_and!; [done|congruence|done|]. intros (x & [->|Hx]%elem_of_cons & U & A & N); [|apply I4; eauto].
  by apply (IH (k + 1) r1 (F2 U A N)); lia.
Qed.

(** The endpoints of a valid discovery service are among those probed. *)
Lemma probed `{!Discovery.LawfulDiscovery D} d ns e :
  Discovery.valid d -> e ∈ Discovery.GetEndpoints d ns -> e ∈ concat (Discovery.GetAllEndpoints d).*2.
Proof.
  intros Hv He. apply list_elem_of_In, List.in_concat. exists (Discovery.GetEndpoints d ns).
  split; [|by apply list_elem_of_In]. apply list_elem_of_In.
  apply list_elem_of_fmap. exists (ns, Discovery.GetEndpoints d ns). split; [done|].
  apply Discovery.all_endpoints_agree; [done|]. split; [|done].
  destruct (decide (ns ∈ Discovery.ListNamespaces d)) as [Hin|Hn]; [done|].
  rewrite (Discovery.unknown_empty d ns Hv Hn) in He. set_solver.
Qed.

Lemma rounds_failing ts a k r :
  0 < FailureThreshold cfg -> failing a k r -> 0 <= k ->
  let r' := snd (health_rounds ts r) in
  fst (health_rounds ts r) = Ok tt /\ disc r' = disc r /\
  ((exists e, e ∈ concat (Discovery.GetAllEndpoints (disc r)).*2 /\ unprobed e /\ Address e = a /\
      is_ok (http_NewRequest (buildHealthCheckURL e)) = true) -> failing a (k + zlen ts) r') /\
  (ts <> [] -> balancers r' = ∅).
Proof.
  intros Hft. revert k r. induction ts as [|[now0 now] ts IH]; intros k r Hf Hk; cbn zeta.
  { split_and!; try done. intros _. by rewrite Z.add_0_r. }
  cbn [health_rounds].
  destruct (check_all_failing now0 now (concat (Discovery.GetAllEndpoints (disc r)).*2) a k r Hft Hf Hk) as (C1 & C2 & C3 & C4).
  assert (exists r1, health_round now0 now r = (Ok tt, r1) /\ disc r1 = disc r /\ breakers r1 =
            breakers (snd (check_all now0 now (concat (Discovery.GetAllEndpoints (disc r)).*2) r)) /\ balancers r1 = ∅) as (r1 & Er & Hd & Hb & Hbal).
  { unfold health_round, checkEndpointHealth, updateLoadBalancers, modify, get, mbind, M_bind.
    destruct (check_all now0 now _ r) as [o r2]. cbn in C1, C2. subst o. by eexists. }
  rewrite (M_bind_ok _ _ _ _ _ Er).
  assert (forall j, failing a j (snd (check_all now0 now (concat (Discovery.GetAllEndpoints (disc r)).*2) r)) -> failing a j r1) as Hj.
  { unfold failing. by rewrite Hb. }
  destruct (IH k r1 (Hj k C3) Hk) as (I1 & I2 & _ & I4). split_and!; [done|congruence| |].
  - intros Hex. replace (k + zlen ((now0, now) :: ts)) with (k + 1 + zlen ts) by (unfold zlen; cbn -[Z.of_nat]; lia).
    apply (IH (k + 1) r1 (Hj _ (C4 Hex))); [lia|]. by rewrite Hd.
  - intros _. destruct ts; [done|]. by apply I4.
Qed.

(** A namespace of one healthy endpoint and no cached balancer: that endpoint is chosen,
    whatever the strategy. *)
Lemma select_single ns e r :
  balancers r !! ns = None -> Discovery.GetEndpoints (disc r) ns = [e] -> IsHealthy e = true -> Weight e <= max_i64 ->
  exists r1, selectEndpoint ns r = (Ok (Ok (next_ep r)), r1) /\ store_of r1 (next_ep r) = e.
Proof.
  intros Hl He Hh Hw. unfold selectEndpoint.
  set (r1 := set_eps (alloc [e] (next_ep r)) (next_ep r + 1) r).
  set (lb := new_balancer (Strategy cfg) (store_of r1) [next_ep r]).
  assert (getLoadBalancer ns r = (Ok (Some lb), set_balancers (<[ns := lb]>) r1)) as Eg.
  { unfold getLoadBalancer. by rewrite Hl, He. }
  rewrite (M_bind_ok _ _ _ _ _ Eg). unfold mbind, M_bind, get.
  assert (store_of r1 (next_ep r) = e) as Hs by (unfold store_of; cbn; by rewrite lookup_insert_eq).
  change (store_of (set_balancers (<[ns := lb]>) r1)) with (store_of r1).
  assert (fst (lb_Next (store_of r1) lb) = Some (next_ep r)) as Hn.
  { subst lb. unfold new_balancer.
    assert (fst (RoundRobin_Next (store_of r1) (NewRoundRobin [next_ep r])) = Some (next_ep r)) as HR.
    { unfold RoundRobin_Next. cbn. change (u64_add (u64_add 0 1) (Z.of_nat 0) mod zlen [next_ep r]) with 0.
      change (zlen [next_ep r] =? 0) with false. change (Z.to_nat 0) with 0%nat. cbn. by rewrite Hs, Hh. }
    repeat case_bool_decide.
    - cbn. by destruct (RoundRobin_Next _ _).
    - cbn. unfold LeastConnections_Next. cbn. by rewrite Hs, Hh.
    - cbn. unfold Weighted_Next. cbn. rewrite !Hs, !Hh.
      assert (1 <= effective_weight e <= max_i64) as Hew by (unfold effective_weight, max_i64 in *; case_tests; lia).
      rewrite i64_add_small by (unfold min_i64; lia). destruct (Z.eqb_spec (0 + effective_weight e) 0); [lia|]. change (zlen [next_ep r] =? 0) with false. cbn. by destruct (_ <? _).
    - cbn. by destruct (RoundRobin_Next _ _). }
  destruct (lb_Next (store_of r1) lb) as [p lb']. cbn in Hn. subst p. eexists. split; [reflexivity|exact Hs].
Qed.

Lemma rounds_reachable ts listed r : reachable listed r -> exists listed', reachable listed' (snd (health_rounds ts r)).
Proof.
  revert listed r; induction ts as [|[t0 t] ts IH]; intros listed r Hr; [by eexists|].
  cbn [health_rounds]. unfold mbind, M_bind. pose proof (r_event listed r (EHealth t0 t) Hr) as Hr1. cbn [happen] in Hr1.
  destruct (health_round t0 t r) as [[]]; [by eapply IH|by eexists].
Qed.

(** ** What the stages of a request leave alone

    [frame m]: whatever [m] does to a router is in [I], and it panics only as [E] allows. *)
Section Frames.
Variable I : Router -> Router -> Prop.
Variable E : rpanic -> Prop.
Context `{!PreOrder I}.
Hypothesis I_errors : forall h r, I r (set_errors h r).
Hypothesis I_world : forall w r, I r (set_world w r).
Hypothesis I_clients : forall f r, I r (set_clients f r).
Hypothesis E_error : forall x, E (PError x).













Section Stream.
Hypothesis I_streams : forall f r, I r (set_streams f r).
Hypothesis E_stream : forall x, E (PStream x).



End Stream.







End Frames.

Definition unrelated (r r' : Router) : Prop := True.
#[local] Instance unrelated_preorder : PreOrder unrelated.
Proof. by split. Qed.


(** ** The stages of a request *)

(** Raising an error touches nothing but the heap. *)
Lemma raised listed P m Q r : triple listed P (raise_gw m) Q -> rinv listed r -> P r ->
  exists err h, raise_gw m r = (Ok err, set_errors h r) /\ rinv listed (set_errors h r) /\ Q err (set_errors h r).
Proof.
  intros T Hi HP. specialize (T r Hi HP). destruct (raise_frame m r) as [h Ef].
  destruct (raise_gw m r) as [[err|[x|x]] r2] eqn:Er; cbn in Ef; subst; [destruct T; by exists err, h|done|].
  exfalso. clear T. unfold raise_gw, lift, mbind, M_bind, as_value, M_fail, mret, M_ret in Er.
  destruct (m (errors r)) as [[[l|]|y] h']; cbn in Er; congruence.
Qed.

(** Selection ends with an endpoint or an error. *)
Lemma selection_ends listed ns r : rinv listed r -> exists res r', selectEndpoint ns r = (Ok res, r').
Proof.
  intros Hi. pose proof (t_selectEndpoint listed ns r Hi I) as T.
  assert (forall x, fst (selectEndpoint ns r) <> Err (PStream x)) as Hn.
  { intros x. unfold selectEndpoint, getLoadBalancer, raise_gw, lift, as_value, M_fail, mbind, M_bind, get, modify.
    unfold mret, M_ret. repeat (case_match; simplify_eq/=; try done). }
  destruct (selectEndpoint ns r) as [[res|[x|x]] r']; [by eexists _, _|done|by destruct (Hn x)].
Qed.

(** The request ends with an error of the class [c], without an exchange and without touching a breaker. *)
Definition refused (c : ErrorType * Z * bool) (r : Router) (o : result rpanic (result error Response) * Router) : Prop :=
  exists err r2, o = (Ok (Err err), r2) /\ is_class c err r2 /\ same_net r r2.

Definition route_namespace (req : Request) (target : string) : string :=
  if bool_decide (target = EmptyString) then extractNamespace req else target.

Definition breaker_open (a : string) (r : Router) : bool :=
  match breakers r !! a with Some b => Circuit.IsOpen b | None => false end.

Section Stages.
Context (listed : string -> list D) (r r1 : Router) (now0 now : Z) (ctx : gmap string value) (sess : option session).
Context (req : Request) (target : string).
Hypothesis Hi : rinv listed r.

Let ctx' := EnrichContextWithRequest req target ctx.
Notation routed := (RouteRequest now0 now ctx sess req target r).
Notation ns := (route_namespace req target).


Context (p : nat).
Hypothesis Hsel : selectEndpoint ns r = (Ok (Ok p), r1).

Lemma selected_facts : rinv listed r1 /\ same_net r r1.
Proof.
  pose proof (t_selectEndpoint listed ns r Hi I) as T. rewrite Hsel in T. split; [apply T|].
  pose proof (select_frame ns r) as F. by rewrite Hsel in F.
Qed.

(** What is left once an endpoint has been chosen. *)
Lemma route_selected :
  routed = (res ← executeWithCircuitBreaker now0 now ctx' sess (store_of r1 p) req;
            match res with
            | Err e => err ← raise_gw (WrapForwardingError ctx' (Some e) (store_of r1 p) (Method req)); mret (Err err)
            | Ok resp => mret (Ok resp)
            end) r1.
Proof. unfold RouteRequest. fold (route_namespace req target). rewrite (M_bind_ok _ _ _ _ _ Hsel). reflexivity. Qed.

(** An error of the execution is wrapped: its class stays. *)
Lemma route_failed c err r2 :
  executeWithCircuitBreaker now0 now ctx' sess (store_of r1 p) req r1 = (Ok (Err err), r2) -> rinv listed r2 -> wraps_to [c] err r2 ->
  exists err' h, routed = (Ok (Err err'), set_errors h r2) /\ is_class c err' (set_errors h r2).
Proof.
  intros He Hi2 Hw. rewrite route_selected, (M_bind_ok _ _ _ _ _ He).
  destruct (raised listed (wraps_to [c] err) _ _ r2 (t_wrap_forwarding listed [c] ctx' err (store_of r1 p) (Method req)) Hi2 Hw)
    as (err' & h & E & _ & c' & ->%list_elem_of_singleton & Hc).
  rewrite (M_bind_ok _ _ _ _ _ E). by exists err', h.
Qed.

Lemma route_open : breaker_open (Address (store_of r1 p)) r = true -> refused internal r routed.
Proof.
  intros Ho. destruct selected_facts as (Hi1 & F1 & F2 & F3 & F4).
  assert (executeWithCircuitBreaker now0 now ctx' sess (store_of r1 p) req r1 = (Ok (Err errCircuitOpen), r1)) as He.
  { unfold executeWithCircuitBreaker, getCircuitBreaker, mbind, M_bind. unfold breaker_open in Ho. rewrite F3.
    destruct (breakers r !! _) as [b|]; [|done]. by rewrite Ho. }
  destruct (route_failed internal errCircuitOpen r1 He Hi1) as (err & h & E & Hc); [by apply wraps_plain; [|left]|].
  exists err, (set_errors h r1). by split_and!.
Qed.




End Stages.

(** What the classes mean to a caller. *)
Definition seen (r : Router) (err : error) : ErrorType * Z * bool :=
  (match lookup_error (errors r) err with Some e => Type_ e | None => EmptyString end,
   GetHTTPStatus getErrorTypeStatusMap (errors r) err, IsRetryable (errors r) err).

Lemma is_class_seen t s rt err r :
  is_class (t, s, rt) err r -> seen r err = (t, if 0 <? s then s else
    match List.find (fun p => bool_decide (t = fst p)) getErrorTypeStatusMap with Some (_, st) => st | None => 500 end, rt).
Proof.
  intros (l & e & -> & He & [= Ht Hs Hr]). unfold seen, GetHTTPStatus, IsRetryable, IsType, lookup_error. cbn -[getErrorTypeStatusMap].
  rewrite He, Ht, Hs, Hr. done.
Qed.

(** ** Theorems *)

(** C4: whatever the history of requests, health rounds, changes of what discovery lists, notifications (which may be late
    or never come) and session ends, the router routes a request only to an endpoint that is marked healthy and that
    discovery lists for the namespace now or did at some time since the last notification of the namespace or the last
    health round; what discovery lists now is among those, so when it has not changed since then the endpoint is one it
    lists.  Otherwise the answer is an UNAVAILABLE error with status 503 that callers may retry. *)
Theorem routing_selects_discovered (listed : string -> list D) (r : Router) (ns : string) :
  reachable listed r ->
  disc r ∈ listed ns /\
  match selectEndpoint ns r with
  | (Ok (Ok p), r') =>
      disc r' = disc r /\ IsHealthy (store_of r' p) = true /\
      exists d, d ∈ listed ns /\ store_of r' p ∈ Discovery.GetEndpoints d ns
  | (Ok (Err err), r') => seen r' err = (TypeUnavailable, 503, true)
  | (Err _, _) => False
  end.
Proof.
  intros Hi%reachable_rinv. split; [apply Hi|].
  pose proof (t_selectEndpoint listed ns r Hi I) as T. destruct (select_frame ns r) as (_ & Fd & _).
  destruct (selection_ends listed ns r Hi) as [[p|err] [r' Hsel]]; rewrite Hsel in T, Fd |- *.
  - by destruct T as [_ [Hs Hh]].
  - destruct T as [_ Hc]. apply (is_class_seen _ _ _ _ _ Hc).
Qed.



(** Health rounds probe copies: an endpoint that is alone in its namespace and marked healthy by
    discovery is still chosen after any number of rounds, whatever its probes
    answered. *)
Lemma health_checks_do_not_unselect (r : Router) (ts : list (Z * Z)) (ns : string) (e : Endpoint) :
  0 < FailureThreshold cfg -> ts <> [] ->
  Discovery.GetEndpoints (disc r) ns = [e] -> IsHealthy e = true -> Weight e <= max_i64 ->
  exists p r1, selectEndpoint ns (snd (health_rounds ts r)) = (Ok (Ok p), r1) /\ store_of r1 p = e.
Proof.
  intros Hft Hts He Hh Hw.
  assert (exists a, breakers r !! a = None) as [a Ha].
  { exists (fresh (dom (breakers r))). apply not_elem_of_dom. apply is_fresh. }
  destruct (rounds_failing ts a 0 r Hft) as (_ & Hd & _ & Hb); [by unfold failing; rewrite Ha|done|].
  destruct (select_single ns e (snd (health_rounds ts r))) as (r1 & H2 & H3); [by rewrite Hb|by rewrite Hd|done|done|].
  eauto.
Qed.

(** An endpoint with a scheme the HTTP client does not know (ws, wss, sse) is probed with that scheme, so every
    round counts as a failure: after FailureThreshold rounds the breaker of its address is open and
    requests to it fail without an exchange although the backend was never asked. *)
Lemma websocket_endpoints_trip_breaker `{!Discovery.LawfulDiscovery D} (d : D) (w : World) (ts : list (Z * Z))
    (ns : string) (e : Endpoint) (now0 now : Z) (ctx : gmap string value) (sess : option session) (req : Request) :
  Discovery.valid d -> 0 < FailureThreshold cfg <= zlen ts -> ns <> EmptyString ->
  Discovery.GetEndpoints d ns = [e] -> Scheme e ∈ ["ws"; "wss"; "sse"] -> IsHealthy e = true -> Weight e <= max_i64 ->
  is_ok (http_NewRequest (buildHealthCheckURL e)) = true ->
  let r := snd (health_rounds ts (InitializeRequestRouter d w empty_heap)) in
  exists err r', RouteRequest now0 now ctx sess req ns r = (Ok (Err err), r') /\
    seen r' err = (TypeInternal, 500, false) /\ world r' = world r.
Proof.
  intros Hv [Hft Hlen] Hns He Hs Hh Hw Hu r.
  set (r0 := InitializeRequestRouter d w empty_heap) in *.
  destruct (rounds_failing ts (Address e) 0 r0 Hft) as (_ & Hd & Hf & Hb); [done|done|]. fold r in Hd, Hf, Hb.
  specialize (Hf ltac:(exists e; split_and!; try done; apply (probed d ns); [done|rewrite He; set_solver])).
  rewrite Z.add_0_l in Hf. assert (ts <> []) as Hts by (intros ->; unfold zlen in Hlen; cbn in Hlen; lia).
  destruct (select_single ns e r) as (r1 & S1 & S2); [by rewrite Hb|by rewrite Hd|done|done|].
  unfold failing in Hf. destruct (breakers r !! Address e) as [b|] eqn:Eb; [|lia].
  destruct (rounds_reachable ts (fun _ => [d]) r0) as [listed Hr0]; [by apply r_init; intros l|].
  assert (route_namespace req ns = ns) as Ens by (unfold route_namespace; by rewrite bool_decide_false).
  destruct (route_open listed r r1 now0 now ctx sess req ns (reachable_rinv _ _ Hr0) (next_ep r)) as (err & r2 & Hr & Hc & Hn & _).
  { by rewrite Ens. }
  { unfold breaker_open. rewrite S2, Eb. destruct Hf as [?|[? ?]]; [done|lia]. }
  exists err, r2. split_and!; try done. apply (is_class_seen _ _ _ _ _ Hc).
Qed.

(** ** Backend sessions *)

(** The value of a header, the last one set. *)
Definition header_of (k : string) (l : list (string * string)) : string :=
  match List.filter (fun p => bool_decide (fst p = k)) (List.rev l) with p :: _ => snd p | [] => EmptyString end.

(** The session id a request of [s] carries to [url]. *)
Definition sent_session (s : session) (url : string) (m : gmap string (gmap string string)) : string :=
  header_of "Mcp-Session-Id" (hheaders (enhanceHTTPRequest (Some s) (mkHttpRequest "POST" url [] "") m)).







Definition keeps (r r' : Router) : Prop := backendSessions r' = backendSessions r.
#[local] Instance keeps_preorder : PreOrder keeps.
Proof. split; [by intros r|]. unfold keeps. intros r1 r2 r3. congruence. Qed.










Fixpoint history (evs : list event) (r : Router) : Router :=
  match evs with [] => r | ev :: evs => history evs (happen ev r) end.



End Router.

(** ** Examples *)

#[local] Existing Instances Sse.one_message Discovery.StaticDiscovery_SD Discovery.Static_lawful.

(** A network whose HTTP backends answer everything with status 200 and a session id; the
    world counts the exchanges. *)
#[refine] Instance sample_net : Network := {|
  World := nat;
  http_NewRequest := fun url => Ok url;
  http_Do := fun r w =>
    if HasPrefix (hurl r) "http://" || HasPrefix (hurl r) "https://"
    then (Ok {| status := 200; rheaders := {["Mcp-Session-Id" := "backend-1"]}; rbody := Ok "pong" |}, S w)
    else (Err (TextError "unsupported protocol scheme"), w);
  ws_Dial := fun _ _ w => (Ok 0%nat, S w);
  ws_Configure := fun _ w => (None, w);
  ws_Exchange := fun _ _ w => (Err ("read", TextError "EOF"), w);
  sse_Wait := fun _ w => ([], true, w);
|}.
Proof. - intros r w H1 H2. rewrite H1, H2. cbn. eauto. - by intros url u scheme [= ->]. Defined.

Definition sample_endpoint (scheme : string) : Endpoint :=
  {| Service := "tools-service"; Namespace := "tools"; Address := "10.0.0.1"; Port := 8080; Scheme := scheme; Path := "";
     Weight := 100; Metadata := ∅; Tools := []; healthy := 1 |}.
Definition sample_disc (scheme : string) : Discovery.StaticDiscovery := [("tools", [sample_endpoint scheme])].
Definition sample_cfg : RoutingConfig := {| Strategy := "round_robin"; FailureThreshold := 2; SuccessThreshold := 1; TimeoutSeconds := 30 |}.
Definition sample_request : Request := {| req_JSONRPC := "2.0"; Method := "tools/call"; ReqParams := JNull; req_ID := JNumber 1 |}.
Definition sample_router (scheme : string) : Router := InitializeRequestRouter (sample_disc scheme) 0%nat empty_heap.
Definition no_frames (skip : Z) : list string := [].

Lemma sample_reachable scheme :
  reachable no_frames sample_cfg (fun _ => [sample_disc scheme]) (sample_router scheme).
Proof. apply r_init. by intros l. Qed.

(** A negative period is kept, and the ticker of [runHealthChecks] panics on it. *)
Example negative_period_kept : health_interval (Some (- (5 * Second))) = - (5 * Second).
Proof. reflexivity. Qed.

(** Discovery moves the endpoint of the namespace to another address and says nothing. *)
Definition moved : Endpoint :=
  {| Service := "tools-service"; Namespace := "tools"; Address := "10.0.0.2"; Port := 8080; Scheme := "http"; Path := "";
     Weight := 100; Metadata := ∅; Tools := []; healthy := 1 |}.
Definition first_request : event (D := Discovery.StaticDiscovery) := ERoute 0 1 ∅ None sample_request "tools".
Definition stale : Router := history no_frames sample_cfg [first_request; EDiscovery [("tools", [moved])]] (sample_router "http").

(** The address chosen for a namespace. *)
Definition chosen (r : Router) : option string :=
  match selectEndpoint no_frames sample_cfg "tools" r with
  | (Ok (Ok p), r') => Some (Address (store_of r' p))
  | _ => None
  end.

(** Until the next notification or health round the router goes on to the old address. *)
Example stale_endpoint_chosen :
  Discovery.GetEndpoints (disc stale) "tools" = [moved] /\ chosen stale = Some "10.0.0.1"%string /\
  chosen (happen no_frames sample_cfg (ENotify "tools") stale) = Some "10.0.0.2"%string /\
  chosen (happen no_frames sample_cfg (EHealth 2 3) stale) = Some "10.0.0.2"%string.
Proof. vm_compute. repeat split. Qed.

Lemma routing_selects_discovered_witness :
  exists p r', selectEndpoint no_frames sample_cfg "tools" stale = (Ok (Ok p), r') /\ IsHealthy (store_of r' p) = true /\
    exists d, d ∈ [[("tools", [moved])]; sample_disc "http"] /\ store_of r' p ∈ Discovery.GetEndpoints d "tools".
Proof.
  pose proof (routing_selects_discovered no_frames sample_cfg _ stale "tools"
    (r_event no_frames sample_cfg _ _ (EDiscovery [("tools", [moved])])
      (r_event no_frames sample_cfg _ _ first_request (sample_reachable "http")))) as [_ T].
  destruct (selectEndpoint no_frames sample_cfg "tools" stale) as [[[p|err]|x] r'] eqn:E.
  - exists p, r'. split; [reflexivity|]. destruct T as (_ & Hh & Hd). exact (conj Hh Hd).
  - vm_compute in E. discriminate.
  - destruct T.
Defined.


(** The router after its breaker for the endpoint has opened. *)
Definition tripped : Router :=
  snd (health_rounds sample_cfg [(0, 1); (2, 3)] (sample_router "ws")).

Lemma health_checks_do_not_unselect_witness :
  exists p r1, selectEndpoint no_frames sample_cfg "tools" tripped = (Ok (Ok p), r1) /\ store_of r1 p = sample_endpoint "ws".
Proof.
  apply (health_checks_do_not_unselect no_frames sample_cfg (sample_router "ws") [(0, 1); (2, 3)] "tools" (sample_endpoint "ws"));
    [by vm_compute|discriminate|reflexivity|reflexivity|by vm_compute].
Defined.

Lemma websocket_endpoints_trip_breaker_witness :
  exists err r', RouteRequest no_frames sample_cfg 4 5 ∅ None sample_request "tools" tripped = (Ok (Err err), r') /\
    seen r' err = (TypeInternal, 500, false) /\ world r' = world tripped.
Proof.
  apply (websocket_endpoints_trip_breaker (H0 := sample_net) no_frames sample_cfg (sample_disc "ws") 0%nat [(0, 1); (2, 3)] "tools" (sample_endpoint "ws"));
    [apply NoDup_singleton|by vm_compute|discriminate|reflexivity|apply list_elem_of_here|reflexivity|by vm_compute|reflexivity].
Defined.

Definition sample_session (i : string) : session := {| sess_ID := i; sess_User := "u" |}.

(** A session is granted an id, another one asks too, and the first is cleared. *)
Definition session_events : list (event (D := Discovery.StaticDiscovery)) :=
  [ERoute 0 1 ∅ (Some (sample_session "s1")) sample_request "tools"; EHealth 2 3;
   ERoute 4 5 ∅ (Some (sample_session "s2")) sample_request "tools"; EClear "s1"].
Example sessions_kept :
  let sent n i := sent_session (sample_session i) "http://10.0.0.1:8080/mcp"
    (backendSessions (history no_frames sample_cfg (firstn n session_events) (sample_router "http"))) in
  (sent 0%nat "s1", sent 1%nat "s1", sent 2%nat "s1", sent 2%nat "s2", sent 3%nat "s2", sent 4%nat "s1", sent 4%nat "s2")
  = ("s1", "backend-1", "backend-1", "s2", "backend-1", "s1", "backend-1")%string.
Proof. vm_compute. reflexivity. Qed.

End GwRouter.
