(* ===== verification/CommonErrors.v ===== *)
(** * The shared error codes

    [pkg/common/errors]: the table of error codes (codes.go), how an error is rendered over
    HTTP, JSON-RPC and gRPC (handler.go, interceptor.go) and the middleware that recovers panics.
    Encoding of the bodies, logging and timestamps are left out. *)
From S2P Require Import Prelude GoStrings GoUnicode.
From stdpp Require Import pretty.
#[local] Open Scope Z_scope.

Module Common.

Local Infix "+s" := String.append (at level 50, left associativity).

(** ** Codes *)

Definition ErrorCode : Type := string.

Definition ShortRetryTimeout : Z := 5.
Definition StandardRetryTimeout : Z := 10.
Definition MediumRetryTimeout : Z := 30.
Definition LongRetryTimeout : Z := 60.
Definition ExtendedRetryTimeout : Z := 300.
Definition MaxRetryTimeout : Z := 3600.

Definition CMN_INT_UNKNOWN : ErrorCode := "CMN_INT_001".
Definition CMN_INT_PANIC : ErrorCode := "CMN_INT_002".
Definition CMN_INT_TIMEOUT : ErrorCode := "CMN_INT_003".
Definition CMN_INT_CONTEXT_CANC : ErrorCode := "CMN_INT_004".
Definition CMN_INT_NOT_IMPL : ErrorCode := "CMN_INT_005".
Definition CMN_VAL_INVALID_REQ : ErrorCode := "CMN_VAL_001".
Definition CMN_VAL_MISSING_FLD : ErrorCode := "CMN_VAL_002".
Definition CMN_VAL_INVALID_TYPE : ErrorCode := "CMN_VAL_003".
Definition CMN_VAL_OUT_OF_RANGE : ErrorCode := "CMN_VAL_004".
Definition CMN_VAL_PATTERN_FAIL : ErrorCode := "CMN_VAL_005".
Definition CMN_PROTO_INVALID_VER : ErrorCode := "CMN_PROTO_001".
Definition CMN_PROTO_PARSE_ERR : ErrorCode := "CMN_PROTO_002".
Definition CMN_PROTO_MARSHAL_ERR : ErrorCode := "CMN_PROTO_003".
Definition CMN_PROTO_METHOD_UNK : ErrorCode := "CMN_PROTO_004".
Definition CMN_PROTO_BATCH_ERR : ErrorCode := "CMN_PROTO_005".
Definition GTW_AUTH_MISSING : ErrorCode := "GTW_AUTH_001".
Definition GTW_AUTH_INVALID : ErrorCode := "GTW_AUTH_002".
Definition GTW_AUTH_EXPIRED : ErrorCode := "GTW_AUTH_003".
Definition GTW_AUTH_INSUFFICIENT : ErrorCode := "GTW_AUTH_004".
Definition GTW_AUTH_REVOKED : ErrorCode := "GTW_AUTH_005".
Definition GTW_AUTH_METHOD_UNK : ErrorCode := "GTW_AUTH_006".
Definition GTW_AUTH_CERT_FAIL : ErrorCode := "GTW_AUTH_007".
Definition GTW_AUTH_OAUTH_FAIL : ErrorCode := "GTW_AUTH_008".
Definition GTW_CONN_REFUSED : ErrorCode := "GTW_CONN_001".
Definition GTW_CONN_TIMEOUT : ErrorCode := "GTW_CONN_002".
Definition GTW_CONN_CLOSED : ErrorCode := "GTW_CONN_003".
Definition GTW_CONN_LIMIT : ErrorCode := "GTW_CONN_004".
Definition GTW_CONN_TLS_FAIL : ErrorCode := "GTW_CONN_005".
Definition GTW_CONN_UPGRADE_FAIL : ErrorCode := "GTW_CONN_006".
Definition GTW_RATE_LIMIT_REQ : ErrorCode := "GTW_RATE_001".
Definition GTW_RATE_LIMIT_CONN : ErrorCode := "GTW_RATE_002".
Definition GTW_RATE_LIMIT_BURST : ErrorCode := "GTW_RATE_003".
Definition GTW_RATE_LIMIT_QUOTA : ErrorCode := "GTW_RATE_004".
Definition GTW_SEC_BLOCKED_IP : ErrorCode := "GTW_SEC_001".
Definition GTW_SEC_BLOCKED_UA : ErrorCode := "GTW_SEC_002".
Definition GTW_SEC_MALICIOUS : ErrorCode := "GTW_SEC_003".
Definition GTW_SEC_CSRF_FAIL : ErrorCode := "GTW_SEC_004".
Definition RTR_CONN_NO_BACKEND : ErrorCode := "RTR_CONN_001".
Definition RTR_CONN_BACKEND_ERR : ErrorCode := "RTR_CONN_002".
Definition RTR_CONN_POOL_FULL : ErrorCode := "RTR_CONN_003".
Definition RTR_CONN_UNHEALTHY : ErrorCode := "RTR_CONN_004".
Definition RTR_CONN_CIRCUIT_OPEN : ErrorCode := "RTR_CONN_005".
Definition RTR_ROUTE_NO_MATCH : ErrorCode := "RTR_ROUTE_001".
Definition RTR_ROUTE_CONFLICT : ErrorCode := "RTR_ROUTE_002".
Definition RTR_ROUTE_DISABLED : ErrorCode := "RTR_ROUTE_003".
Definition RTR_ROUTE_REDIRECT : ErrorCode := "RTR_ROUTE_004".
Definition RTR_PROTO_MISMATCH : ErrorCode := "RTR_PROTO_001".
Definition RTR_PROTO_TRANSFORM : ErrorCode := "RTR_PROTO_002".
Definition RTR_PROTO_SIZE_LIMIT : ErrorCode := "RTR_PROTO_003".

Definition all_codes : list ErrorCode :=
  [CMN_INT_UNKNOWN; CMN_INT_PANIC; CMN_INT_TIMEOUT; CMN_INT_CONTEXT_CANC; CMN_INT_NOT_IMPL;
   CMN_VAL_INVALID_REQ; CMN_VAL_MISSING_FLD; CMN_VAL_INVALID_TYPE; CMN_VAL_OUT_OF_RANGE;
   CMN_VAL_PATTERN_FAIL; CMN_PROTO_INVALID_VER; CMN_PROTO_PARSE_ERR; CMN_PROTO_MARSHAL_ERR;
   CMN_PROTO_METHOD_UNK; CMN_PROTO_BATCH_ERR; GTW_AUTH_MISSING; GTW_AUTH_INVALID; GTW_AUTH_EXPIRED;
   GTW_AUTH_INSUFFICIENT; GTW_AUTH_REVOKED; GTW_AUTH_METHOD_UNK; GTW_AUTH_CERT_FAIL; GTW_AUTH_OAUTH_FAIL;
   GTW_CONN_REFUSED; GTW_CONN_TIMEOUT; GTW_CONN_CLOSED; GTW_CONN_LIMIT; GTW_CONN_TLS_FAIL;
   GTW_CONN_UPGRADE_FAIL; GTW_RATE_LIMIT_REQ; GTW_RATE_LIMIT_CONN; GTW_RATE_LIMIT_BURST;
   GTW_RATE_LIMIT_QUOTA; GTW_SEC_BLOCKED_IP; GTW_SEC_BLOCKED_UA; GTW_SEC_MALICIOUS; GTW_SEC_CSRF_FAIL;
   RTR_CONN_NO_BACKEND; RTR_CONN_BACKEND_ERR; RTR_CONN_POOL_FULL; RTR_CONN_UNHEALTHY; RTR_CONN_CIRCUIT_OPEN;
   RTR_ROUTE_NO_MATCH; RTR_ROUTE_CONFLICT; RTR_ROUTE_DISABLED; RTR_ROUTE_REDIRECT; RTR_PROTO_MISMATCH;
   RTR_PROTO_TRANSFORM; RTR_PROTO_SIZE_LIMIT].

(** A detail: a string, or another value as fmt prints it. *)
Inductive detail := DString (s : string) | DOther (printed : string).
Definition detail_text (d : detail) : string := match d with DString s => s | DOther s => s end.

Record ErrorInfo := mkInfo {
  Code : ErrorCode;
  Message : string;
  Details : option detail;
  HTTPStatus : Z;
  Recoverable : bool;
  RetryAfter : Z;
}.

Definition errorDefinitions : list (ErrorCode * ErrorInfo) :=
  [(CMN_INT_UNKNOWN, {| Code := CMN_INT_UNKNOWN; Message := "An unknown internal error occurred"; Details := None; HTTPStatus := 500; Recoverable := false; RetryAfter := 0 |});
   (CMN_INT_PANIC, {| Code := CMN_INT_PANIC; Message := "A panic occurred and was recovered"; Details := None; HTTPStatus := 500; Recoverable := false; RetryAfter := 0 |});
   (CMN_INT_TIMEOUT, {| Code := CMN_INT_TIMEOUT; Message := "Operation timed out"; Details := None; HTTPStatus := 504; Recoverable := true; RetryAfter := MediumRetryTimeout |});
   (CMN_INT_CONTEXT_CANC, {| Code := CMN_INT_CONTEXT_CANC; Message := "Request was canceled"; Details := None; HTTPStatus := 408; Recoverable := true; RetryAfter := 0 |});
   (CMN_INT_NOT_IMPL, {| Code := CMN_INT_NOT_IMPL; Message := "Feature not implemented"; Details := None; HTTPStatus := 500; Recoverable := false; RetryAfter := 0 |});
   (CMN_VAL_INVALID_REQ, {| Code := CMN_VAL_INVALID_REQ; Message := "Invalid request format"; Details := None; HTTPStatus := 400; Recoverable := false; RetryAfter := 0 |});
   (CMN_VAL_MISSING_FLD, {| Code := CMN_VAL_MISSING_FLD; Message := "Required field missing"; Details := None; HTTPStatus := 500; Recoverable := false; RetryAfter := 0 |});
   (CMN_VAL_INVALID_TYPE, {| Code := CMN_VAL_INVALID_TYPE; Message := "Invalid field type"; Details := None; HTTPStatus := 500; Recoverable := false; RetryAfter := 0 |});
   (CMN_VAL_OUT_OF_RANGE, {| Code := CMN_VAL_OUT_OF_RANGE; Message := "Value out of acceptable range"; Details := None; HTTPStatus := 500; Recoverable := false; RetryAfter := 0 |});
   (CMN_VAL_PATTERN_FAIL, {| Code := CMN_VAL_PATTERN_FAIL; Message := "Pattern validation failed"; Details := None; HTTPStatus := 500; Recoverable := false; RetryAfter := 0 |});
   (CMN_PROTO_INVALID_VER, {| Code := CMN_PROTO_INVALID_VER; Message := "Invalid protocol version"; Details := None; HTTPStatus := 500; Recoverable := false; RetryAfter := 0 |});
   (CMN_PROTO_PARSE_ERR, {| Code := CMN_PROTO_PARSE_ERR; Message := "Protocol parsing error"; Details := None; HTTPStatus := 500; Recoverable := false; RetryAfter := 0 |});
   (CMN_PROTO_MARSHAL_ERR, {| Code := CMN_PROTO_MARSHAL_ERR; Message := "Protocol marshaling error"; Details := None; HTTPStatus := 500; Recoverable := false; RetryAfter := 0 |});
   (CMN_PROTO_METHOD_UNK, {| Code := CMN_PROTO_METHOD_UNK; Message := "Unknown method"; Details := None; HTTPStatus := 500; Recoverable := false; RetryAfter := 0 |});
   (CMN_PROTO_BATCH_ERR, {| Code := CMN_PROTO_BATCH_ERR; Message := "Batch request error"; Details := None; HTTPStatus := 500; Recoverable := false; RetryAfter := 0 |});
   (GTW_AUTH_MISSING, {| Code := GTW_AUTH_MISSING; Message := "Missing authentication credentials"; Details := None; HTTPStatus := 401; Recoverable := false; RetryAfter := 0 |});
   (GTW_AUTH_INVALID, {| Code := GTW_AUTH_INVALID; Message := "Invalid authentication credentials"; Details := None; HTTPStatus := 500; Recoverable := false; RetryAfter := 0 |});
   (GTW_AUTH_EXPIRED, {| Code := GTW_AUTH_EXPIRED; Message := "Authentication token has expired"; Details := None; HTTPStatus := 500; Recoverable := false; RetryAfter := 0 |});
   (GTW_AUTH_INSUFFICIENT, {| Code := GTW_AUTH_INSUFFICIENT; Message := "Insufficient permissions for this operation"; Details := None; HTTPStatus := 500; Recoverable := false; RetryAfter := 0 |});
   (GTW_AUTH_REVOKED, {| Code := GTW_AUTH_REVOKED; Message := "Authentication credentials have been revoked"; Details := None; HTTPStatus := 500; Recoverable := false; RetryAfter := 0 |});
   (GTW_AUTH_METHOD_UNK, {| Code := GTW_AUTH_METHOD_UNK; Message := "Unknown authentication method"; Details := None; HTTPStatus := 500; Recoverable := false; RetryAfter := 0 |});
   (GTW_AUTH_CERT_FAIL, {| Code := GTW_AUTH_CERT_FAIL; Message := "Certificate validation failed"; Details := None; HTTPStatus := 500; Recoverable := false; RetryAfter := 0 |});
   (GTW_AUTH_OAUTH_FAIL, {| Code := GTW_AUTH_OAUTH_FAIL; Message := "OAuth2 authentication flow failed"; Details := None; HTTPStatus := 500; Recoverable := false; RetryAfter := 0 |});
   (GTW_CONN_REFUSED, {| Code := GTW_CONN_REFUSED; Message := "Connection refused"; Details := None; HTTPStatus := 503; Recoverable := true; RetryAfter := MediumRetryTimeout |});
   (GTW_CONN_TIMEOUT, {| Code := GTW_CONN_TIMEOUT; Message := "Connection timeout"; Details := None; HTTPStatus := 504; Recoverable := true; RetryAfter := MediumRetryTimeout |});
   (GTW_CONN_CLOSED, {| Code := GTW_CONN_CLOSED; Message := "Connection closed unexpectedly"; Details := None; HTTPStatus := 503; Recoverable := true; RetryAfter := ShortRetryTimeout |});
   (GTW_CONN_LIMIT, {| Code := GTW_CONN_LIMIT; Message := "Connection limit reached"; Details := None; HTTPStatus := 503; Recoverable := true; RetryAfter := LongRetryTimeout |});
   (GTW_CONN_TLS_FAIL, {| Code := GTW_CONN_TLS_FAIL; Message := "TLS handshake failed"; Details := None; HTTPStatus := 500; Recoverable := false; RetryAfter := 0 |});
   (GTW_CONN_UPGRADE_FAIL, {| Code := GTW_CONN_UPGRADE_FAIL; Message := "WebSocket upgrade failed"; Details := None; HTTPStatus := 500; Recoverable := false; RetryAfter := 0 |});
   (GTW_RATE_LIMIT_REQ, {| Code := GTW_RATE_LIMIT_REQ; Message := "Request rate limit exceeded"; Details := None; HTTPStatus := 429; Recoverable := true; RetryAfter := LongRetryTimeout |});
   (GTW_RATE_LIMIT_CONN, {| Code := GTW_RATE_LIMIT_CONN; Message := "Connection rate limit exceeded"; Details := None; HTTPStatus := 429; Recoverable := true; RetryAfter := ExtendedRetryTimeout |});
   (GTW_RATE_LIMIT_BURST, {| Code := GTW_RATE_LIMIT_BURST; Message := "Burst limit exceeded"; Details := None; HTTPStatus := 429; Recoverable := true; RetryAfter := StandardRetryTimeout |});
   (GTW_RATE_LIMIT_QUOTA, {| Code := GTW_RATE_LIMIT_QUOTA; Message := "API quota exceeded"; Details := None; HTTPStatus := 429; Recoverable := true; RetryAfter := MaxRetryTimeout |});
   (GTW_SEC_BLOCKED_IP, {| Code := GTW_SEC_BLOCKED_IP; Message := "IP address has been blocked"; Details := None; HTTPStatus := 500; Recoverable := false; RetryAfter := 0 |});
   (GTW_SEC_BLOCKED_UA, {| Code := GTW_SEC_BLOCKED_UA; Message := "User agent has been blocked"; Details := None; HTTPStatus := 500; Recoverable := false; RetryAfter := 0 |});
   (GTW_SEC_MALICIOUS, {| Code := GTW_SEC_MALICIOUS; Message := "Malicious request pattern detected"; Details := None; HTTPStatus := 500; Recoverable := false; RetryAfter := 0 |});
   (GTW_SEC_CSRF_FAIL, {| Code := GTW_SEC_CSRF_FAIL; Message := "CSRF validation failed"; Details := None; HTTPStatus := 500; Recoverable := false; RetryAfter := 0 |});
   (RTR_CONN_NO_BACKEND, {| Code := RTR_CONN_NO_BACKEND; Message := "No backend server available"; Details := None; HTTPStatus := 503; Recoverable := true; RetryAfter := MediumRetryTimeout |});
   (RTR_CONN_BACKEND_ERR, {| Code := RTR_CONN_BACKEND_ERR; Message := "Backend server connection error"; Details := None; HTTPStatus := 502; Recoverable := true; RetryAfter := StandardRetryTimeout |});
   (RTR_CONN_POOL_FULL, {| Code := RTR_CONN_POOL_FULL; Message := "Connection pool exhausted"; Details := None; HTTPStatus := 503; Recoverable := true; RetryAfter := MediumRetryTimeout |});
   (RTR_CONN_UNHEALTHY, {| Code := RTR_CONN_UNHEALTHY; Message := "Backend server is unhealthy"; Details := None; HTTPStatus := 503; Recoverable := true; RetryAfter := LongRetryTimeout |});
   (RTR_CONN_CIRCUIT_OPEN, {| Code := RTR_CONN_CIRCUIT_OPEN; Message := "Circuit breaker is open"; Details := None; HTTPStatus := 503; Recoverable := true; RetryAfter := MediumRetryTimeout |});
   (RTR_ROUTE_NO_MATCH, {| Code := RTR_ROUTE_NO_MATCH; Message := "No matching route found"; Details := None; HTTPStatus := 500; Recoverable := false; RetryAfter := 0 |});
   (RTR_ROUTE_CONFLICT, {| Code := RTR_ROUTE_CONFLICT; Message := "Route configuration conflict"; Details := None; HTTPStatus := 500; Recoverable := false; RetryAfter := 0 |});
   (RTR_ROUTE_DISABLED, {| Code := RTR_ROUTE_DISABLED; Message := "Route has been disabled"; Details := None; HTTPStatus := 500; Recoverable := false; RetryAfter := 0 |});
   (RTR_ROUTE_REDIRECT, {| Code := RTR_ROUTE_REDIRECT; Message := "Route requires redirect"; Details := None; HTTPStatus := 500; Recoverable := false; RetryAfter := 0 |});
   (RTR_PROTO_MISMATCH, {| Code := RTR_PROTO_MISMATCH; Message := "Protocol version mismatch"; Details := None; HTTPStatus := 500; Recoverable := false; RetryAfter := 0 |});
   (RTR_PROTO_TRANSFORM, {| Code := RTR_PROTO_TRANSFORM; Message := "Protocol transformation error"; Details := None; HTTPStatus := 500; Recoverable := false; RetryAfter := 0 |});
   (RTR_PROTO_SIZE_LIMIT, {| Code := RTR_PROTO_SIZE_LIMIT; Message := "Message size limit exceeded"; Details := None; HTTPStatus := 500; Recoverable := false; RetryAfter := 0 |})].

(** [MCPError] embeds the information. *)
Definition MCPError : Type := ErrorInfo.

Definition with_details (d : option detail) (i : ErrorInfo) : ErrorInfo :=
  {| Code := Code i; Message := Message i; Details := d; HTTPStatus := HTTPStatus i;
     Recoverable := Recoverable i; RetryAfter := RetryAfter i |}.

Definition GetErrorInfo (code : ErrorCode) : option ErrorInfo :=
  snd <$> List.find (fun p => bool_decide (fst p = code)) errorDefinitions.

Definition zero_info : ErrorInfo :=
  {| Code := ""; Message := ""; Details := None; HTTPStatus := 0; Recoverable := false; RetryAfter := 0 |}.

(** [Error(code, details...)]. *)
Definition Error (code : ErrorCode) (details : list detail) : MCPError :=
  let info := match GetErrorInfo code with
              | Some info => info
              | None => default zero_info (GetErrorInfo CMN_INT_UNKNOWN)
              end in
  match details with [] => info | d :: _ => with_details (Some d) info end.

Definition MCPError_Error (e : MCPError) : string :=
  match Details e with
  | Some d => "[" +s Code e +s "] " +s Message e +s ": " +s detail_text d
  | None => "[" +s Code e +s "] " +s Message e
  end.

Definition HasCode (code : ErrorCode) (e : MCPError) : bool := bool_decide (Code e = code).
Definition WithDetails (d : option detail) (e : MCPError) : MCPError := with_details d e.

(** ** Error values *)

Inductive grpc_code :=
| OK | Canceled | Unknown | InvalidArgument | DeadlineExceeded | NotFound | AlreadyExists | PermissionDenied
| ResourceExhausted | FailedPrecondition | Unimplemented | Internal | Unavailable | Unauthenticated.

#[export] Instance grpc_code_eq_dec : EqDecision grpc_code.
Proof. solve_decision. Defined.

(** An [error]: ours, a [%w] wrapper with its text, a gRPC status, any other. *)
Inductive error :=
| EMcp (e : MCPError)
| EWrap (text : string) (inner : error)
| EStatus (c : grpc_code) (text : string)
| EOther (text : string).

Definition error_text (err : error) : string :=
  match err with EMcp e => MCPError_Error e | EWrap s _ => s | EStatus _ s => s | EOther s => s end.

(** [errors.As(err, &mcpErr)]. *)
Fixpoint As (err : error) : option MCPError :=
  match err with EMcp e => Some e | EWrap _ inner => As inner | _ => None end.

Definition IsErrorCode (err : error) (code : ErrorCode) : bool :=
  match As err with Some e => HasCode code e | None => false end.
Definition IsRetryable (err : error) : bool :=
  match As err with Some e => Recoverable e | None => false end.
Definition GetHTTPStatus (err : error) : Z :=
  match As err with Some e => HTTPStatus e | None => 500 end.
Definition GetErrorCode (err : error) : ErrorCode :=
  match As err with Some e => Code e | None => CMN_INT_UNKNOWN end.

(** ** HTTP *)

Definition ensureMCPError (err : error) : MCPError :=
  match As err with Some e => e | None => Error CMN_INT_UNKNOWN [DString (error_text err)] end.

Definition formatDetails (d : option detail) : string :=
  match d with None => EmptyString | Some d => detail_text d end.

Record ErrorDetail := mkDetail { d_Code : string; d_Message : string; d_Details : string; d_Retryable : bool }.
Record ErrorResponse := mkResp { r_Error : ErrorDetail; r_RequestID : string }.

(** A response writer: the first status wins, a later one is dropped by net/http; bodies
    are appended, and headers count only before the status. *)
Record ResponseWriter := mkRW {
  headers : list (string * string);
  sent : option (Z * list (string * string));    (* status and headers as sent *)
  bodies : list (string + ErrorResponse);
}.
Definition new_writer : ResponseWriter := {| headers := []; sent := None; bodies := [] |}.

Definition set_header (k v : string) (w : ResponseWriter) : ResponseWriter :=
  {| headers := (k, v) :: List.filter (fun p => negb (bool_decide (fst p = k))) (headers w); sent := sent w; bodies := bodies w |}.
Definition WriteHeader (status : Z) (w : ResponseWriter) : ResponseWriter :=
  match sent w with
  | Some _ => w
  | None => {| headers := headers w; sent := Some (status, headers w); bodies := bodies w |}
  end.
Definition write_body (b : string + ErrorResponse) (w : ResponseWriter) : ResponseWriter :=
  {| headers := headers w; sent := sent w; bodies := bodies w ++ [b] |}.

Definition setResponseHeaders (e : MCPError) (requestID : string) (w : ResponseWriter) : ResponseWriter :=
  let w := set_header "X-Error-Code" (Code e) (set_header "Content-Type" "application/json" w) in
  let w := if bool_decide (requestID = EmptyString) then w else set_header "X-Request-ID" requestID w in
  if Recoverable e && (0 <? RetryAfter e) then set_header "Retry-After" (pretty (RetryAfter e)) w else w.

(** [extractRequestID]: the context value when it is a string. *)
Definition extractRequestID (value : option (string + unit)) : string :=
  match value with Some (inl s) => s | _ => EmptyString end.

Definition HandleError (reqID : option (string + unit)) (err : error) (w : ResponseWriter) : ResponseWriter :=
  let requestID := extractRequestID reqID in
  let e := ensureMCPError err in
  let response := {| r_Error := {| d_Code := Code e; d_Message := Message e; d_Details := formatDetails (Details e);
                                   d_Retryable := Recoverable e |}; r_RequestID := requestID |} in
  write_body (inr response) (WriteHeader (HTTPStatus e) (setResponseHeaders e requestID w)).

(** ** JSON-RPC *)

Definition mapToJSONRPCCode (code : ErrorCode) : Z :=
  if bool_decide (code = CMN_PROTO_PARSE_ERR) then -32700
  else if bool_decide (code = CMN_PROTO_METHOD_UNK) then -32601
  else if bool_decide (code ∈ [CMN_VAL_INVALID_REQ; CMN_VAL_INVALID_TYPE; CMN_VAL_MISSING_FLD]) then -32602
  else if bool_decide (code ∈ [CMN_INT_UNKNOWN; CMN_INT_PANIC]) then -32603
  else if bool_decide (code ∈
    [CMN_INT_TIMEOUT; CMN_INT_CONTEXT_CANC; CMN_INT_NOT_IMPL; CMN_VAL_OUT_OF_RANGE; CMN_VAL_PATTERN_FAIL;
     CMN_PROTO_INVALID_VER; CMN_PROTO_MARSHAL_ERR; CMN_PROTO_BATCH_ERR; GTW_AUTH_MISSING; GTW_AUTH_INVALID;
     GTW_AUTH_EXPIRED; GTW_AUTH_INSUFFICIENT; GTW_AUTH_REVOKED; GTW_AUTH_METHOD_UNK; GTW_AUTH_CERT_FAIL; GTW_AUTH_OAUTH_FAIL;
     GTW_CONN_REFUSED; GTW_CONN_TIMEOUT; GTW_CONN_CLOSED; GTW_CONN_LIMIT; GTW_CONN_TLS_FAIL; GTW_CONN_UPGRADE_FAIL;
     GTW_RATE_LIMIT_REQ; GTW_RATE_LIMIT_CONN; GTW_RATE_LIMIT_BURST; GTW_RATE_LIMIT_QUOTA; GTW_SEC_BLOCKED_IP;
     GTW_SEC_BLOCKED_UA; GTW_SEC_MALICIOUS; GTW_SEC_CSRF_FAIL; RTR_CONN_NO_BACKEND; RTR_CONN_BACKEND_ERR; RTR_CONN_POOL_FULL;
     RTR_CONN_UNHEALTHY; RTR_CONN_CIRCUIT_OPEN; RTR_ROUTE_NO_MATCH; RTR_ROUTE_CONFLICT; RTR_ROUTE_DISABLED;
     RTR_ROUTE_REDIRECT; RTR_PROTO_MISMATCH; RTR_PROTO_TRANSFORM; RTR_PROTO_SIZE_LIMIT]) then -32000
  else -32603.

Record RpcError := mkRpc { rpc_code : Z; rpc_message : string; data_code : string; data_retryable : bool; data_details : option detail }.

Definition HandleJSONRPCError (err : error) : RpcError :=
  let e := ensureMCPError err in
  {| rpc_code := mapToJSONRPCCode (Code e); rpc_message := Message e; data_code := Code e;
     data_retryable := Recoverable e; data_details := Details e |}.

(** ** gRPC *)

Definition mapAuthErrorToGRPC (code : ErrorCode) : option grpc_code :=
  if bool_decide (code ∈ [GTW_AUTH_MISSING; GTW_AUTH_INVALID; GTW_AUTH_EXPIRED; GTW_AUTH_REVOKED; GTW_AUTH_METHOD_UNK;
                          GTW_AUTH_CERT_FAIL; GTW_AUTH_OAUTH_FAIL]) then Some Unauthenticated
  else if bool_decide (code ∈ [GTW_AUTH_INSUFFICIENT; GTW_SEC_BLOCKED_IP; GTW_SEC_BLOCKED_UA; GTW_SEC_MALICIOUS; GTW_SEC_CSRF_FAIL])
  then Some PermissionDenied
  else None.

Definition mapConnectionErrorToGRPC (code : ErrorCode) : option grpc_code :=
  if bool_decide (code ∈ [CMN_INT_TIMEOUT; GTW_CONN_TIMEOUT]) then Some DeadlineExceeded
  else if bool_decide (code ∈ [GTW_CONN_REFUSED; GTW_CONN_CLOSED; GTW_CONN_LIMIT; RTR_CONN_NO_BACKEND; RTR_CONN_BACKEND_ERR;
                               RTR_CONN_UNHEALTHY; RTR_CONN_POOL_FULL]) then Some Unavailable
  else if bool_decide (code ∈ [GTW_CONN_TLS_FAIL; GTW_CONN_UPGRADE_FAIL]) then Some FailedPrecondition
  else if bool_decide (code = RTR_CONN_CIRCUIT_OPEN) then Some Unavailable
  else None.

Definition mapValidationErrorToGRPC (code : ErrorCode) : option grpc_code :=
  if bool_decide (code ∈ [CMN_VAL_INVALID_REQ; CMN_VAL_INVALID_TYPE; CMN_VAL_MISSING_FLD; CMN_VAL_OUT_OF_RANGE; CMN_VAL_PATTERN_FAIL])
  then Some InvalidArgument
  else if bool_decide (code ∈ [CMN_PROTO_INVALID_VER; CMN_PROTO_PARSE_ERR; CMN_PROTO_MARSHAL_ERR; CMN_PROTO_BATCH_ERR])
  then Some InvalidArgument
  else if bool_decide (code ∈ [RTR_PROTO_MISMATCH; RTR_PROTO_TRANSFORM; RTR_PROTO_SIZE_LIMIT]) then Some InvalidArgument
  else None.

Definition mapRoutingErrorToGRPC (code : ErrorCode) : option grpc_code :=
  if bool_decide (code ∈ [RTR_ROUTE_NO_MATCH; CMN_PROTO_METHOD_UNK]) then Some NotFound
  else if bool_decide (code = RTR_ROUTE_CONFLICT) then Some AlreadyExists
  else if bool_decide (code ∈ [RTR_ROUTE_DISABLED; RTR_CONN_CIRCUIT_OPEN]) then Some Unavailable
  else if bool_decide (code = RTR_ROUTE_REDIRECT) then Some FailedPrecondition
  else if bool_decide (code ∈ [GTW_RATE_LIMIT_REQ; GTW_RATE_LIMIT_CONN; GTW_RATE_LIMIT_BURST; GTW_RATE_LIMIT_QUOTA])
  then Some ResourceExhausted
  else None.

Definition mapInternalErrorToGRPC (code : ErrorCode) : option grpc_code :=
  if bool_decide (code = CMN_INT_CONTEXT_CANC) then Some Canceled
  else if bool_decide (code = CMN_INT_NOT_IMPL) then Some Unimplemented
  else if bool_decide (code ∈ [CMN_INT_UNKNOWN; CMN_INT_PANIC]) then Some Internal
  else if bool_decide (code = CMN_INT_TIMEOUT) then Some DeadlineExceeded
  else None.

(** The first map of a list that handles the code. *)
Fixpoint first_map (ms : list (ErrorCode -> option grpc_code)) (code : ErrorCode) : grpc_code :=
  match ms with
  | [] => Unknown
  | m :: ms => match m code with Some c => c | None => first_map ms code end
  end.

Definition grpc_maps : list (ErrorCode -> option grpc_code) :=
  [mapAuthErrorToGRPC; mapConnectionErrorToGRPC; mapValidationErrorToGRPC; mapRoutingErrorToGRPC; mapInternalErrorToGRPC].

Definition mapToGRPCCode (code : ErrorCode) : grpc_code := first_map grpc_maps code.

Definition formatBool (b : bool) : string := if b then "true" else "false".

(** A status error with the trailer set on the way. *)
Record GrpcResult := mkGrpc { g_err : error; g_trailer : list (string * string) }.

Definition convertToGRPCError (e : MCPError) : GrpcResult :=
  {| g_err := EStatus (mapToGRPCCode (Code e)) (Message e);
     g_trailer := [("error-code", Code e); ("retryable", formatBool (Recoverable e))] |}.

(** [status.FromError]: a status, also inside wrappers. *)
Fixpoint status_of (err : error) : option grpc_code :=
  match err with EStatus c _ => Some c | EWrap _ inner => status_of inner | _ => None end.

Definition handleError (err : error) : GrpcResult :=
  match status_of err with
  | Some _ => {| g_err := err; g_trailer := [] |}
  | None => convertToGRPCError (ensureMCPError err)
  end.

(** A handler's outcome: a response or an error, or a panic. *)
Inductive outcome (A : Type) := Returned (r : option A) (err : option error) | Panicked.
Arguments Returned {A} r err.
Arguments Panicked {A}.

(** [UnaryServerInterceptor]: the deferred function recovers, and the results keep their zero
    values. *)
Definition UnaryServerInterceptor {A} (handler : outcome A) : option A * option GrpcResult :=
  match handler with
  | Returned r None => (r, None)
  | Returned _ (Some err) => (None, Some (handleError err))
  | Panicked => (None, None)
  end.

Definition StreamServerInterceptor (handler : outcome unit) : option GrpcResult :=
  snd (UnaryServerInterceptor handler).

(** ** The HTTP middleware *)

(** The wrapper keeps its own flag. *)
Record responseWriterWrapper := mkWrapper { inner : ResponseWriter; wroteHeader : bool }.

Definition wrapper_WriteHeader (status : Z) (rw : responseWriterWrapper) : responseWriterWrapper :=
  if wroteHeader rw then rw else {| inner := WriteHeader status (inner rw); wroteHeader := true |}.
Definition wrapper_Write (b : string) (rw : responseWriterWrapper) : responseWriterWrapper :=
  let rw := if wroteHeader rw then rw else wrapper_WriteHeader 200 rw in
  {| inner := write_body (inl b) (inner rw); wroteHeader := wroteHeader rw |}.

(** What a handler does with the wrapper before it returns or panics. *)
Inductive wop := OpHeader (k v : string) | OpStatus (status : Z) | OpWrite (b : string).
Definition run_wop (o : wop) (rw : responseWriterWrapper) : responseWriterWrapper :=
  match o with
  | OpHeader k v => {| inner := set_header k v (inner rw); wroteHeader := wroteHeader rw |}
  | OpStatus s => wrapper_WriteHeader s rw
  | OpWrite b => wrapper_Write b rw
  end.
Definition run_wops (os : list wop) (rw : responseWriterWrapper) : responseWriterWrapper := fold_left (fun rw o => run_wop o rw) os rw.

Definition ErrorHandlerMiddleware (reqID : option (string + unit)) (os : list wop) (panics : bool) (w : ResponseWriter) : ResponseWriter :=
  let rw := run_wops os {| inner := w; wroteHeader := false |} in
  if panics then HandleError reqID (EMcp (Error CMN_INT_PANIC [DString "An unexpected error occurred"])) (inner rw)
  else inner rw.

(** ** The documented table *)

(** docs/ERROR_HANDLING.md: status, whether recoverable, seconds to wait. *)
Definition documented : list (ErrorCode * (Z * bool * Z)) :=
  [(CMN_INT_UNKNOWN, (500, false, 0)); (CMN_INT_PANIC, (500, false, 0)); (CMN_INT_TIMEOUT, (504, true, 30));
   (CMN_INT_CONTEXT_CANC, (408, true, 0)); (CMN_INT_NOT_IMPL, (501, false, 0));
   (CMN_VAL_INVALID_REQ, (400, false, 0)); (CMN_VAL_MISSING_FLD, (400, false, 0));
   (CMN_VAL_INVALID_TYPE, (400, false, 0)); (CMN_VAL_OUT_OF_RANGE, (400, false, 0));
   (CMN_VAL_PATTERN_FAIL, (400, false, 0)); (CMN_PROTO_INVALID_VER, (400, false, 0));
   (CMN_PROTO_PARSE_ERR, (400, false, 0)); (CMN_PROTO_MARSHAL_ERR, (500, false, 0));
   (CMN_PROTO_METHOD_UNK, (404, false, 0)); (CMN_PROTO_BATCH_ERR, (400, false, 0));
   (GTW_AUTH_MISSING, (401, false, 0)); (GTW_AUTH_INVALID, (401, false, 0)); (GTW_AUTH_EXPIRED, (401, false, 0));
   (GTW_AUTH_INSUFFICIENT, (403, false, 0)); (GTW_AUTH_REVOKED, (401, false, 0));
   (GTW_AUTH_METHOD_UNK, (401, false, 0)); (GTW_AUTH_CERT_FAIL, (401, false, 0));
   (GTW_AUTH_OAUTH_FAIL, (401, false, 0)); (GTW_CONN_REFUSED, (503, true, 30));
   (GTW_CONN_TIMEOUT, (504, true, 30)); (GTW_CONN_CLOSED, (503, true, 5)); (GTW_CONN_LIMIT, (503, true, 60));
   (GTW_CONN_TLS_FAIL, (502, false, 0)); (GTW_CONN_UPGRADE_FAIL, (400, false, 0));
   (GTW_RATE_LIMIT_REQ, (429, true, 60)); (GTW_RATE_LIMIT_CONN, (429, true, 300));
   (GTW_RATE_LIMIT_BURST, (429, true, 10)); (GTW_RATE_LIMIT_QUOTA, (429, true, 3600));
   (GTW_SEC_BLOCKED_IP, (403, false, 0)); (GTW_SEC_BLOCKED_UA, (403, false, 0));
   (GTW_SEC_MALICIOUS, (403, false, 0)); (GTW_SEC_CSRF_FAIL, (403, false, 0));
   (RTR_CONN_NO_BACKEND, (503, true, 30)); (RTR_CONN_BACKEND_ERR, (502, true, 10));
   (RTR_CONN_POOL_FULL, (503, true, 30)); (RTR_CONN_UNHEALTHY, (503, true, 60));
   (RTR_CONN_CIRCUIT_OPEN, (503, true, 30)); (RTR_ROUTE_NO_MATCH, (404, false, 0));
   (RTR_ROUTE_CONFLICT, (409, false, 0)); (RTR_ROUTE_DISABLED, (503, false, 0));
   (RTR_ROUTE_REDIRECT, (308, false, 0)); (RTR_PROTO_MISMATCH, (400, false, 0));
   (RTR_PROTO_TRANSFORM, (502, false, 0)); (RTR_PROTO_SIZE_LIMIT, (413, false, 0))].

(** ** Facts about the table *)

Lemma find_entry code : GetErrorInfo code = None <-> code ∉ all_codes.
Proof.
  unfold GetErrorInfo. destruct (List.find _ errorDefinitions) as [[k i]|] eqn:E; cbn.
  - split; [done|]. intros Hn. apply List.find_some in E as [Hin Hb]. apply bool_decide_eq_true in Hb. cbn in Hb. subst k.
    exfalso. apply Hn. apply list_elem_of_In in Hin.
    assert (forall p, p ∈ errorDefinitions -> bool_decide (fst p ∈ all_codes) = true) as Hall.
    { apply Forall_forall. apply (bool_decide_unpack (Forall (fun p => bool_decide (fst p ∈ all_codes) = true) errorDefinitions)).
      vm_compute. exact I. }
    specialize (Hall _ Hin). by apply bool_decide_eq_true in Hall.
  - split; [|done]. intros _ Hc.
    assert (Forall (fun c => is_Some (GetErrorInfo c)) all_codes) as Hall.
    { apply (bool_decide_unpack (Forall (fun c => is_Some (GetErrorInfo c)) all_codes)). vm_compute. exact I. }
    rewrite Forall_forall in Hall. destruct (Hall _ Hc) as [i Hi]. unfold GetErrorInfo in Hi. by rewrite E in Hi.
Qed.

Lemma entry_code code info : GetErrorInfo code = Some info -> code ∈ all_codes.
Proof. intros E. destruct (decide (code ∈ all_codes)) as [|Hn]; [done|]. apply find_entry in Hn. congruence. Qed.

(** A property of the listed codes, by evaluation. *)
Lemma all_codes_ind (p : ErrorCode -> bool) : forallb p all_codes = true -> forall code, code ∈ all_codes -> p code = true.
Proof. intros Hp code Hc. rewrite forallb_forall in Hp. apply Hp. by apply list_elem_of_In. Qed.

(** The maps handle listed codes only. *)
Ltac listed :=
  repeat match goal with
  | H : _ ∈ _ |- _ => first [apply elem_of_cons in H as [->|H] | apply elem_of_nil in H; destruct H]
  end; apply (bool_decide_unpack _); vm_compute; exact I.

Lemma maps_listed m code c : m ∈ grpc_maps -> m code = Some c -> code ∈ all_codes.
Proof.
  intros Hm. repeat (apply elem_of_cons in Hm as [->|Hm]); [..|by apply elem_of_nil in Hm];
    unfold mapAuthErrorToGRPC, mapConnectionErrorToGRPC, mapValidationErrorToGRPC, mapRoutingErrorToGRPC, mapInternalErrorToGRPC;
    repeat case_bool_decide; intros; simplify_eq; listed.
Qed.

(** Two maps that handle the same code agree. *)
Definition agree_at (code : ErrorCode) : bool :=
  forallb (fun m1 => forallb (fun m2 => match m1 code, m2 code with
    | Some c1, Some c2 => bool_decide (c1 = c2) | _, _ => true end) grpc_maps) grpc_maps.

Lemma maps_agree m1 m2 code c1 c2 :
  m1 ∈ grpc_maps -> m2 ∈ grpc_maps -> m1 code = Some c1 -> m2 code = Some c2 -> c1 = c2.
Proof.
  intros H1 H2 E1 E2. pose proof (all_codes_ind agree_at ltac:(vm_compute; reflexivity) code (maps_listed m1 code c1 H1 E1)) as Ha.
  unfold agree_at in Ha. rewrite forallb_forall in Ha. specialize (Ha m1 ltac:(by apply list_elem_of_In)).
  cbn beta in Ha. rewrite forallb_forall in Ha. specialize (Ha m2 ltac:(by apply list_elem_of_In)).
  cbn beta in Ha. rewrite E1, E2 in Ha. by apply bool_decide_eq_true in Ha.
Qed.

Lemma first_map_spec ms code c :
  (forall m, m ∈ ms -> m ∈ grpc_maps) -> (exists m, m ∈ ms /\ m code = Some c) -> first_map ms code = c.
Proof.
  induction ms as [|m ms IH]; cbn; intros Hs (m' & Hm & E); [set_solver|].
  destruct (m code) as [c'|] eqn:E'.
  - apply (maps_agree m m' code); [apply Hs; left|by apply Hs|done|done].
  - apply IH; [intros x Hx; apply Hs; by right|]. apply elem_of_cons in Hm as [->|Hm]; [congruence|eauto].
Qed.

Lemma first_map_none ms code : (forall m, m ∈ ms -> m code = None) -> first_map ms code = Unknown.
Proof. induction ms as [|m ms IH]; cbn; intros Hn; [done|]. rewrite (Hn m) by left. apply IH. intros x Hx. apply Hn. by right. Qed.

(** The entry of a code, checked. *)
Definition entry_ok (c : ErrorCode) : bool :=
  match GetErrorInfo c with
  | Some i => bool_decide (Code i = c) && (400 <=? HTTPStatus i) && (HTTPStatus i <? 600) &&
      (negb (0 <? RetryAfter i) || Recoverable i) && negb (bool_decide (mapToGRPCCode c = OK)) &&
      negb (bool_decide (mapToGRPCCode c = Unknown)) && (-32768 <=? mapToJSONRPCCode c) && (mapToJSONRPCCode c <=? -32000)
  | None => false
  end.

(** ** Theorems *)

(** The table is complete and consistent: exactly the declared codes have an entry, stored under its own
    code, with an error status and a waiting time only when the error is recoverable; every declared code has
    a proper gRPC code and a JSON-RPC code of the reserved range; and any other code is
    treated as an unknown internal error. *)
Lemma error_table_complete (code : ErrorCode) :
  match GetErrorInfo code with
  | Some info => code ∈ all_codes /\ Code info = code /\ 400 <= HTTPStatus info < 600 /\
      (0 < RetryAfter info -> Recoverable info = true) /\
      mapToGRPCCode code <> OK /\ mapToGRPCCode code <> Unknown /\ -32768 <= mapToJSONRPCCode code <= -32000
  | None => code ∉ all_codes /\ mapToGRPCCode code = Unknown /\ mapToJSONRPCCode code = -32603 /\
      Error code [] = Error CMN_INT_UNKNOWN []
  end.
Proof.
  destruct (GetErrorInfo code) as [info|] eqn:E.
  - pose proof (entry_code code info E) as Hc. split; [done|].
    pose proof (all_codes_ind entry_ok ltac:(vm_compute; reflexivity) code Hc) as Ha.
    unfold entry_ok in Ha. rewrite E in Ha. rewrite !andb_true_iff in Ha. destruct Ha as (((((((A1 & A2) & A3) & A4) & A5) & A6) & A7) & A8).
    apply bool_decide_eq_true in A1. rewrite negb_true_iff, bool_decide_eq_false in A5, A6.
    split_and!; try done; try lia. intros Hr. destruct (Z.ltb_spec 0 (RetryAfter info)); [done|lia].
  - pose proof (proj1 (find_entry code) E) as Hn. split; [done|]. split; [|split].
    + apply first_map_none. intros m Hm. destruct (m code) as [c|] eqn:Em; [|done].
      exfalso. apply Hn. by eapply maps_listed.
    + unfold mapToJSONRPCCode. repeat (case_bool_decide; [exfalso; apply Hn; subst; listed|]). done.
    + unfold Error. by rewrite E.
Qed.

(** The gRPC code does not depend on the order in which the five partial maps are tried, although two codes
    are handled by two of them. *)
Lemma grpc_code_order (ms : list (ErrorCode -> option grpc_code)) (code : ErrorCode) :
  ms ≡ₚ grpc_maps -> first_map ms code = mapToGRPCCode code.
Proof.
  intros Hp. assert (forall m, m ∈ ms <-> m ∈ grpc_maps) as Hin by (intros m; by rewrite Hp).
  unfold mapToGRPCCode. destruct (decide (Exists (fun m => is_Some (m code)) grpc_maps)) as [He|He].
  - apply Exists_exists in He as (m & Hm & [c Hc]).
    rewrite (first_map_spec ms code c), (first_map_spec grpc_maps code c); eauto; [by intros; apply Hin|].
    exists m. by rewrite Hin.
  - assert (forall m, m ∈ grpc_maps -> m code = None) as Hn.
    { intros m Hm. apply eq_None_not_Some. intros Hs. apply He. apply Exists_exists. eauto. }
    rewrite !first_map_none; [done|done|]. intros m Hm. by apply Hn, Hin.
Qed.

Lemma grpc_code_order_witness :
  first_map [mapInternalErrorToGRPC; mapRoutingErrorToGRPC; mapValidationErrorToGRPC; mapConnectionErrorToGRPC; mapAuthErrorToGRPC]
    RTR_CONN_CIRCUIT_OPEN = Unavailable.
Proof.
  rewrite (grpc_code_order _ RTR_CONN_CIRCUIT_OPEN); [reflexivity|].
  change ([mapInternalErrorToGRPC; mapRoutingErrorToGRPC; mapValidationErrorToGRPC; mapConnectionErrorToGRPC; mapAuthErrorToGRPC])
    with (reverse grpc_maps). apply reverse_Permutation.
Defined.

(** What every rendering starts from. *)
Lemma ensure_code err : Code (ensureMCPError err) = GetErrorCode err.
Proof. unfold ensureMCPError, GetErrorCode. by destruct (As err). Qed.
Lemma ensure_retry err : Recoverable (ensureMCPError err) = IsRetryable err.
Proof. unfold ensureMCPError, IsRetryable. by destruct (As err). Qed.
Lemma ensure_status err : HTTPStatus (ensureMCPError err) = GetHTTPStatus err.
Proof. unfold ensureMCPError, GetHTTPStatus. by destruct (As err). Qed.

Definition header (k : string) (hs : list (string * string)) : option string :=
  snd <$> List.find (fun p => bool_decide (fst p = k)) hs.

Lemma header_set_eq k v w : header k (headers (set_header k v w)) = Some v.
Proof. unfold header. cbn. by rewrite bool_decide_true. Qed.

Lemma header_set_ne k k' v w : k <> k' -> header k (headers (set_header k' v w)) = header k (headers w).
Proof.
  intros Hne. unfold header. cbn. rewrite bool_decide_false by done. induction (headers w) as [|[a b] l IH]; cbn; [done|].
  destruct (decide (a = k)) as [->|Ha].
  - rewrite (bool_decide_false (k = k')) by done. cbn. by rewrite bool_decide_true.
  - rewrite (bool_decide_false (a = k)) by done. case_bool_decide; cbn; [done|]. by rewrite bool_decide_false.
Qed.

Lemma headers_of_error e requestID w :
  header "X-Error-Code" (headers (setResponseHeaders e requestID w)) = Some (Code e) /\
  header "Retry-After" (headers (setResponseHeaders e requestID w)) =
    if Recoverable e && (0 <? RetryAfter e) then Some (pretty (RetryAfter e)) else header "Retry-After" (headers w).
Proof.
  unfold setResponseHeaders. destruct (Recoverable e && (0 <? RetryAfter e)).
  - split; [|by rewrite header_set_eq]. rewrite header_set_ne by done. case_bool_decide.
    + by rewrite header_set_eq.
    + by rewrite header_set_ne, header_set_eq.
  - case_bool_decide; rewrite ?header_set_eq; split; rewrite ?header_set_ne, ?header_set_eq by done; done.
Qed.

Lemma setResponseHeaders_sent e requestID w : sent (setResponseHeaders e requestID w) = sent w /\
  bodies (setResponseHeaders e requestID w) = bodies w.
Proof. unfold setResponseHeaders. case_bool_decide; destruct (_ && _); done. Qed.

(** One error, one meaning: however an error is wrapped and over whichever protocol it is reported, the
    HTTP answer, the JSON-RPC error and the gRPC status carry the same code and the same retryability,
    the ones GetErrorCode and IsRetryable give; the HTTP status is GetHTTPStatus; and a
    Retry-After header is set only for retryable errors. *)
Lemma renderings_agree (err : error) (reqID : option (string + unit)) (w : ResponseWriter) :
  sent w = None -> header "Retry-After" (headers w) = None ->
  (exists hs details, sent (HandleError reqID err w) = Some (GetHTTPStatus err, hs) /\
     header "X-Error-Code" hs = Some (GetErrorCode err) /\
     (is_Some (header "Retry-After" hs) -> IsRetryable err = true) /\
     bodies (HandleError reqID err w) = bodies w ++ [inr {|
       r_Error := {| d_Code := GetErrorCode err; d_Message := Message (ensureMCPError err); d_Details := details;
                     d_Retryable := IsRetryable err |}; r_RequestID := extractRequestID reqID |}]) /\
  data_code (HandleJSONRPCError err) = GetErrorCode err /\
  data_retryable (HandleJSONRPCError err) = IsRetryable err /\
  (status_of err = None ->
     handleError err = {| g_err := EStatus (mapToGRPCCode (GetErrorCode err)) (Message (ensureMCPError err));
                          g_trailer := [("error-code", GetErrorCode err); ("retryable", formatBool (IsRetryable err))] |}).
Proof.
  intros Hs Hr. split; [|split; [|split]].
  - unfold HandleError. destruct (setResponseHeaders_sent (ensureMCPError err) (extractRequestID reqID) w) as [E1 E2].
    destruct (headers_of_error (ensureMCPError err) (extractRequestID reqID) w) as [H1 H2].
    unfold WriteHeader. rewrite E1, Hs. cbn. rewrite E2, ensure_status.
    eexists _, _. split; [reflexivity|]. rewrite H1, H2, ensure_code, ensure_retry, Hr. split; [done|]. split; [|reflexivity].
    destruct (IsRetryable err); [done|]. cbn. by intros [? ?].
  - apply ensure_code.
  - apply ensure_retry.
  - intros Hst. unfold handleError. rewrite Hst. unfold convertToGRPCError. by rewrite ensure_code, ensure_retry.
Qed.

Lemma renderings_agree_witness :
  data_code (HandleJSONRPCError (EWrap "call: no backend" (EMcp (Error RTR_CONN_NO_BACKEND [])))) = RTR_CONN_NO_BACKEND /\
  exists hs, sent (HandleError None (EWrap "call: no backend" (EMcp (Error RTR_CONN_NO_BACKEND []))) new_writer) = Some (503, hs).
Proof.
  destruct (renderings_agree (EWrap "call: no backend" (EMcp (Error RTR_CONN_NO_BACKEND []))) None new_writer eq_refl eq_refl)
    as [(hs & d & H1 & _) [H2 _]].
  split; [exact H2|]. exists hs. exact H1.
Defined.

(** ** Documentation and panics *)

Definition documented_at (code : ErrorCode) : option (Z * bool * Z) :=
  snd <$> List.find (fun p => bool_decide (fst p = code)) documented.

(** Codes whose status in the table is not the documented one. *)
Definition status_differs (code : ErrorCode) : bool :=
  match GetErrorInfo code, documented_at code with
  | Some i, Some (s, _, _) => negb (HTTPStatus i =? s)
  | _, _ => true
  end.

Definition documented_ok (code : ErrorCode) : bool :=
  match GetErrorInfo code, documented_at code with
  | Some i, Some (s, rec, wait) => eqb (Recoverable i) rec && (RetryAfter i =? wait) && ((HTTPStatus i =? s) || (HTTPStatus i =? 500))
  | _, _ => false
  end.

(** The table against its documentation (docs/ERROR_HANDLING.md): recoverability and waiting times are the
    documented ones for every code, but the HTTP status is 500 instead of the documented one for 29 of the 49 codes, among
    them every authentication error but a missing credential and every security error. *)
Lemma documented_statuses (code : ErrorCode) :
  code ∈ all_codes ->
  (exists i s, GetErrorInfo code = Some i /\ documented_at code = Some (s, Recoverable i, RetryAfter i) /\
     (HTTPStatus i = s \/ HTTPStatus i = 500)) /\
  length (List.filter status_differs all_codes) = 29%nat /\
  (code ∈ [GTW_AUTH_INVALID; GTW_AUTH_EXPIRED; GTW_AUTH_INSUFFICIENT; GTW_AUTH_REVOKED; GTW_SEC_BLOCKED_IP; RTR_ROUTE_NO_MATCH] ->
     status_differs code = true /\ GetHTTPStatus (EMcp (Error code [])) = 500).
Proof.
  intros Hc. split; [|split; [vm_compute; reflexivity|]].
  - pose proof (all_codes_ind documented_ok ltac:(vm_compute; reflexivity) code Hc) as Ha. unfold documented_ok in Ha.
    destruct (GetErrorInfo code) as [i|]; [|done]. destruct (documented_at code) as [[[s rec] wait]|]; [|done].
    rewrite !andb_true_iff, orb_true_iff, eqb_true_iff in Ha. destruct Ha as [[Hrec Hw] Hst]. exists i, s.
    rewrite Z.eqb_eq in Hw. rewrite !Z.eqb_eq in Hst. by rewrite Hrec, Hw.
  - intros H. repeat (apply elem_of_cons in H as [->|H]; [vm_compute; done|]). by apply elem_of_nil in H.
Qed.

Lemma documented_statuses_witness : status_differs GTW_AUTH_INVALID = true.
Proof.
  apply (documented_statuses GTW_AUTH_INVALID).
  - apply (bool_decide_unpack _). vm_compute. exact I.
  - left.
Defined.

(** The status the wrapper has sent, if the handler wrote anything. *)
Fixpoint first_status (os : list wop) : option Z :=
  match os with
  | [] => None
  | OpHeader _ _ :: os => first_status os
  | OpStatus s :: _ => Some s
  | OpWrite _ :: _ => Some 200
  end.

Definition status_sent (w : ResponseWriter) : option Z := fst <$> sent w.

Lemma run_wops_flag os rw :
  wroteHeader rw = bool_decide (is_Some (sent (inner rw))) ->
  wroteHeader (run_wops os rw) = bool_decide (is_Some (sent (inner (run_wops os rw)))) /\
  status_sent (inner (run_wops os rw)) = match status_sent (inner rw) with Some s => Some s | None => first_status os end.
Proof.
  revert rw; induction os as [|o os IH]; intros rw Hf; cbn [run_wops fold_left].
  { split; [done|]. by destruct (status_sent (inner rw)). }
  assert (wroteHeader (run_wop o rw) = bool_decide (is_Some (sent (inner (run_wop o rw)))) /\
    status_sent (inner (run_wop o rw)) = match status_sent (inner rw) with Some s => Some s
      | None => match o with OpHeader _ _ => None | OpStatus s => Some s | OpWrite _ => Some 200 end end) as [H1 H2].
  { unfold status_sent. destruct rw as [[hs [[s h]|] bs] []], o; cbn in *; try discriminate Hf; done. }
  destruct (IH _ H1) as [H3 H4]. split; [exact H3|]. unfold run_wops in H4. rewrite H4, H2.
  destruct (status_sent (inner rw)); [done|]. by destruct o.
Qed.

(** Recovered panics: over HTTP a handler that panics before it has answered gives a 500 with the panic
    code, but one that had already started its answer keeps its status and gets the error document
    appended to its body; over gRPC a panic is answered as a success with a nil response. *)
Lemma recovered_panics {A} (reqID : option (string + unit)) (os : list wop) :
  status_sent (ErrorHandlerMiddleware reqID os true new_writer) = Some (default 500 (first_status os)) /\
  (exists body, bodies (ErrorHandlerMiddleware reqID os true new_writer) =
     bodies (inner (run_wops os {| inner := new_writer; wroteHeader := false |})) ++ [inr body] /\
     d_Code (r_Error body) = CMN_INT_PANIC) /\
  UnaryServerInterceptor (Panicked (A := A)) = (None, None) /\ StreamServerInterceptor Panicked = None.
Proof.
  destruct (run_wops_flag os {| inner := new_writer; wroteHeader := false |} eq_refl) as [_ Hst]. cbn in Hst.
  unfold ErrorHandlerMiddleware. set (rw := run_wops os _) in *. unfold HandleError.
  set (e := ensureMCPError _). assert (Code e = CMN_INT_PANIC /\ HTTPStatus e = 500) as [Hc H500] by done. clearbody e rw.
  destruct (setResponseHeaders_sent e (extractRequestID reqID) (inner rw)) as [E1 E2].
  split; [|split; [|done]].
  - unfold status_sent, WriteHeader in *. cbn. rewrite E1, H500, <- Hst. destruct (sent (inner rw)); [|done]. cbn. by rewrite E1.
  - eexists (mkResp (mkDetail (Code e) _ _ _) _). split; [|exact Hc]. unfold WriteHeader. rewrite E1.
    destruct (sent (inner rw)); cbn; by rewrite E2.
Qed.

End Common.
