(* ===== verification/ConnManager.v ===== *)
(** * The router's connection manager and its metrics

    [services/router/internal/router/connection_manager.go] and metrics_collector.go: the state of the
    connection with its notification channel, and the counters.  The goroutine that maintains the
    connection is a program of [MessageRouter], which runs beside the goroutines it notifies. *)
From S2P Require Import Prelude GoFloat.
#[local] Open Scope Z_scope.

Module Conn.

(** ** Connection state *)

Inductive ConnectionState := StateInit | StateConnecting | StateConnected | StateReconnecting | StateError | StateShutdown.

#[export] Instance ConnectionState_eq_dec : EqDecision ConnectionState.
Proof. solve_decision. Defined.

Definition state_String (s : ConnectionState) : string :=
  match s with
  | StateInit => "INIT" | StateConnecting => "CONNECTING" | StateConnected => "CONNECTED"
  | StateReconnecting => "RECONNECTING" | StateError => "ERROR" | StateShutdown => "SHUTDOWN"
  end.

Definition StateChangeChannelBuffer : nat := 10.

(** The state, the notifications not yet received and whether their channel is closed. *)
Record ConnectionManager := mkCM {
  state : ConnectionState; stateChangeChan : list ConnectionState; channelClosed : bool; retries : Z; cm_cancelled : bool }.

Definition NewConnectionManager : ConnectionManager :=
  {| state := StateInit; stateChangeChan := []; channelClosed := false; retries := 0; cm_cancelled := false |}.

Definition GetState (cm : ConnectionManager) : ConnectionState := state cm.
Definition GetRetryCount (cm : ConnectionManager) : Z := retries cm.

(** A change is announced if the channel is open and has room. *)
Definition setState (s : ConnectionState) (cm : ConnectionManager) : ConnectionManager :=
  {| state := s;
     stateChangeChan :=
       if negb (bool_decide (state cm = s)) && negb (channelClosed cm) && (length (stateChangeChan cm) <? StateChangeChannelBuffer)%nat
       then stateChangeChan cm ++ [s] else stateChangeChan cm;
     channelClosed := channelClosed cm; retries := retries cm; cm_cancelled := cm_cancelled cm |}.

(** [atomic.AddUint64(cm.retries, 1)]. *)
Definition add_retry (cm : ConnectionManager) : ConnectionManager :=
  {| state := state cm; stateChangeChan := stateChangeChan cm; channelClosed := channelClosed cm;
     retries := u64_add (retries cm) 1; cm_cancelled := cm_cancelled cm |}.

(** The two steps of [Stop]: cancelling, then the shutdown under the lock. *)
Definition cancel_connection (cm : ConnectionManager) : ConnectionManager :=
  {| state := state cm; stateChangeChan := stateChangeChan cm; channelClosed := channelClosed cm;
     retries := retries cm; cm_cancelled := true |}.
Definition close_notifications (cm : ConnectionManager) : ConnectionManager :=
  if channelClosed cm then cm
  else {| state := StateShutdown; stateChangeChan := stateChangeChan cm; channelClosed := true;
          retries := retries cm; cm_cancelled := cm_cancelled cm |}.

(** ** Reconnection *)

Definition initialBackoff : Z := Second.
Definition maxBackoff : Z := 60 * Second.
Definition maxAttempts : Z := 10.

(** [backoff = time.Duration(float64(backoff) * 2.0)], capped. *)
Definition next_backoff (out_of_range : float -> Z) (backoff : Z) : Z :=
  let b := duration_of_float out_of_range (fmul (float_of_int backoff) (float_of_int 2)) in
  if maxBackoff <? b then maxBackoff else b.

(** The delays of the code are exact in float64. *)
Lemma next_backoff_doubles o n :
  (n <= 10)%nat -> next_backoff o (Z.min maxBackoff (2 ^ Z.of_nat n * Second)) = Z.min maxBackoff (2 ^ Z.of_nat (S n) * Second).
Proof. intros Hn. do 11 (destruct n as [|n]; [vm_compute; reflexivity|]). lia. Qed.

(** ** Metrics *)

Inductive metric :=
| MRequests | MResponses | MErrors | MConnectionRetries | MDirectRequests | MGatewayRequests | MFallbackSuccesses | MFallbackFailures.

#[export] Instance metric_eq_dec : EqDecision metric.
Proof. solve_decision. Defined.

Record MetricsCollector := mkMetrics {
  counter : metric -> Z; requestDuration : gmap string (list Z); responseSizes : list Z; activeConnections : Z }.

Definition NewMetricsCollector : MetricsCollector :=
  {| counter := fun _ => 0; requestDuration := ∅; responseSizes := []; activeConnections := 0 |}.

(** [atomic.AddUint64] of one counter: the Increment functions. *)
Definition Increment (m : metric) (mc : MetricsCollector) : MetricsCollector :=
  {| counter := fun m' => if bool_decide (m' = m) then u64_add (counter mc m) 1 else counter mc m';
     requestDuration := requestDuration mc; responseSizes := responseSizes mc; activeConnections := activeConnections mc |}.

Definition RecordRequestDuration (method : string) (d : Z) (mc : MetricsCollector) : MetricsCollector :=
  {| counter := counter mc; requestDuration := <[method := default [] (requestDuration mc !! method) ++ [d]]> (requestDuration mc);
     responseSizes := responseSizes mc; activeConnections := activeConnections mc |}.

Definition RecordResponseSize (n : Z) (mc : MetricsCollector) : MetricsCollector :=
  {| counter := counter mc; requestDuration := requestDuration mc; responseSizes := responseSizes mc ++ [n];
     activeConnections := activeConnections mc |}.

Definition set_active (n : Z) (mc : MetricsCollector) : MetricsCollector :=
  {| counter := counter mc; requestDuration := requestDuration mc; responseSizes := responseSizes mc; activeConnections := n |}.
Definition SetActiveConnections (n : Z) (mc : MetricsCollector) : MetricsCollector := set_active n mc.
Definition AddActiveConnection (mc : MetricsCollector) : MetricsCollector := set_active (wrap_s 32 (activeConnections mc + 1)) mc.
Definition RemoveActiveConnection (mc : MetricsCollector) : MetricsCollector := set_active (wrap_s 32 (activeConnections mc - 1)) mc.

(** [Reset]: the counters of routing are not among those it clears. *)
Definition Reset (mc : MetricsCollector) : MetricsCollector :=
  {| counter := fun m => match m with MRequests | MResponses | MErrors | MConnectionRetries => 0 | _ => counter mc m end;
     requestDuration := ∅; responseSizes := []; activeConnections := 0 |}.

End Conn.
