(* ===== verification/Retry.v ===== *)
(** * Retrying

    [pkg/common/errors/retry.go]: the retry loop and its two policies.  The loop runs over a
    schedule, what each attempt sees of the world: its context, the operation's result, the clock and
    random numbers.  Intervals are computed on float64; [math.Pow] is a parameter. *)
From S2P Require Import Prelude GoFloat CommonErrors.
#[local] Open Scope Z_scope.

Module Retry.
Import Common.

Record RetryConfig := mkRetryConfig {
  MaxAttempts : Z;
  InitialInterval : Z;
  MaxInterval : Z;
  Multiplier : float;
  RandomizeFactor : float;
}.

Definition DefaultRetryConfig : RetryConfig :=
  {| MaxAttempts := 3; InitialInterval := 1 * Second; MaxInterval := 30 * Second;
     Multiplier := float_of_int 2; RandomizeFactor := fconst 1 10 |}.

(** ** The [RetryPolicy] interface *)

(** [random] is what [secureRandom] returns. *)
Class RetryPolicy (P : Type) := {
  ShouldRetry : Z -> error -> Z -> P -> bool * P;
  NextInterval : float -> Z -> P -> Z;
}.

(** ** The retry loop *)

(** One attempt: the context's error at its start, the operation's result, the clock when the policy is asked,
    the random number, and whether the context ends during the wait. *)
Record Attempt := mkAttempt {
  ctx_Err : option string;
  result : option error;
  now : Z;
  random : float;
  done_waiting : bool;
}.

(** How a run ends, with the number of calls of the operation and the intervals waited. *)
Record Run (P : Type) := mkRun { outcome : option (option error); calls : Z; waits : list Z; policy : P }.
Arguments mkRun {P}. Arguments outcome {P}. Arguments calls {P}. Arguments waits {P}. Arguments policy {P}.

Local Infix "+s" := String.append (at level 50, left associativity).

Definition canceled (text : string) : error := EMcp (Error CMN_INT_CONTEXT_CANC [DString text]).

(** [Execute] from attempt number [attempt]; the outcome is [None] when the schedule ends first. *)
Fixpoint Execute `{RetryPolicy P} (attempt : Z) (sched : list Attempt) (p : P) : Run P :=
  match sched with
  | [] => mkRun None 0 [] p
  | a :: sched =>
      match ctx_Err a with
      | Some e => mkRun (Some (Some (canceled ("Operation canceled: " +s e)))) 0 [] p
      | None =>
          match result a with
          | None => mkRun (Some None) 1 [] p
          | Some err =>
              let '(again, p') := ShouldRetry (now a) err attempt p in
              if again : bool then
                let interval := NextInterval (random a) attempt p' in
                if done_waiting a then
                  mkRun (Some (Some (canceled ("Operation canceled during retry: " +s error_text err)))) 1 [interval] p'
                else
                  let r := Execute (attempt + 1) sched p' in
                  mkRun (outcome r) (1 + calls r) (interval :: waits r) (policy r)
              else mkRun (Some (Some err)) 1 [] p'
          end
      end
  end.

(** ** Policies *)

Section Policies.
Variable out_of_range : float -> Z.
Variable Pow : float -> float -> float.

Definition backoff (c : RetryConfig) (attempt : Z) : float :=
  fmul (float_of_int (InitialInterval c)) (Pow (Multiplier c) (float_of_int (attempt - 1))).

Definition ExponentialBackoffPolicy : Type := RetryConfig.

Definition Exponential_ShouldRetry (err : error) (attempt : Z) (c : ExponentialBackoffPolicy) : bool :=
  if MaxAttempts c <=? attempt then false else IsRetryable err.

Definition Exponential_NextInterval (rnd : float) (attempt : Z) (c : ExponentialBackoffPolicy) : Z :=
  let interval := backoff c attempt in
  let interval := if SFltb (float_of_int (MaxInterval c)) interval then float_of_int (MaxInterval c) else interval in
  let interval :=
    if SFltb fzero (RandomizeFactor c) then
      let delta := fmul interval (RandomizeFactor c) in
      let minInterval := fsub interval delta in
      let maxInterval := fadd interval delta in
      fadd minInterval (fmul rnd (fsub maxInterval minInterval))
    else interval in
  duration_of_float out_of_range interval.

#[export] Instance Exponential_policy : RetryPolicy ExponentialBackoffPolicy := {|
  ShouldRetry := fun _ err attempt c => (Exponential_ShouldRetry err attempt c, c);
  NextInterval := Exponential_NextInterval;
|}.

Inductive CircuitState := CircuitClosed | CircuitOpen | CircuitHalfOpen.
#[export] Instance CircuitState_eq_dec : EqDecision CircuitState.
Proof. solve_decision. Defined.

Record CircuitBreakerPolicy := mkCBP {
  config : RetryConfig;
  failureCount : Z;
  successCount : Z;
  lastFailureTime : Z;
  state : CircuitState;
}.

Definition NewCircuitBreakerPolicy (c : RetryConfig) : CircuitBreakerPolicy :=
  {| config := c; failureCount := 0; successCount := 0; lastFailureTime := time_zero; state := CircuitClosed |}.

Definition Circuit_ShouldRetry (now : Z) (err : error) (attempt : Z) (p : CircuitBreakerPolicy) : bool * CircuitBreakerPolicy :=
  match state p with
  | CircuitOpen =>
      if MaxInterval (config p) <? time_sub now (lastFailureTime p)
      then (true, {| config := config p; failureCount := failureCount p; successCount := successCount p;
                     lastFailureTime := lastFailureTime p; state := CircuitHalfOpen |})
      else (false, p)
  | CircuitHalfOpen => (attempt =? 1, p)
  | CircuitClosed =>
      if negb (IsRetryable err) then (false, p)
      else
        let n := failureCount p + 1 in
        if MaxAttempts (config p) <=? n
        then (false, {| config := config p; failureCount := n; successCount := successCount p;
                        lastFailureTime := now; state := CircuitOpen |})
        else (true, {| config := config p; failureCount := n; successCount := successCount p;
                       lastFailureTime := lastFailureTime p; state := CircuitClosed |})
  end.

Definition Circuit_NextInterval (attempt : Z) (p : CircuitBreakerPolicy) : Z :=
  if bool_decide (state p = CircuitHalfOpen) then InitialInterval (config p)
  else duration_of_float out_of_range (backoff (config p) attempt).

#[export] Instance Circuit_policy : RetryPolicy CircuitBreakerPolicy := {|
  ShouldRetry := Circuit_ShouldRetry;
  NextInterval := fun _ => Circuit_NextInterval;
|}.

Definition RecordSuccess (p : CircuitBreakerPolicy) : CircuitBreakerPolicy :=
  let n := successCount p + 1 in
  match state p with
  | CircuitHalfOpen => {| config := config p; failureCount := 0; successCount := n;
                          lastFailureTime := lastFailureTime p; state := CircuitClosed |}
  | CircuitClosed =>
      {| config := config p; failureCount := if MaxAttempts (config p) <? n then 0 else failureCount p;
         successCount := n; lastFailureTime := lastFailureTime p; state := CircuitClosed |}
  | CircuitOpen => {| config := config p; failureCount := failureCount p; successCount := n;
                      lastFailureTime := lastFailureTime p; state := CircuitOpen |}
  end.

Definition RecordFailure (now : Z) (p : CircuitBreakerPolicy) : CircuitBreakerPolicy :=
  match state p with
  | CircuitHalfOpen => {| config := config p; failureCount := failureCount p; successCount := 0;
                          lastFailureTime := now; state := CircuitOpen |}
  | s => {| config := config p; failureCount := failureCount p; successCount := 0;
            lastFailureTime := lastFailureTime p; state := s |}
  end.

(** ** Termination *)

(** What makes the loop end: a measure of policy and attempt that every retry decreases. *)
Class BoundedPolicy (P : Type) `{RetryPolicy P} := {
  retries_left : P -> Z -> nat;
  retry_decreases : forall now err attempt p p', 1 <= attempt ->
    ShouldRetry now err attempt p = (true, p') -> (retries_left p' (attempt + 1) < retries_left p attempt)%nat;
}.

#[export] Program Instance Exponential_bounded : BoundedPolicy ExponentialBackoffPolicy := {|
  retries_left := fun c attempt => Z.to_nat (MaxAttempts c - attempt);
|}.
Next Obligation.
  cbn. intros now err attempt c c' Ha [= Hr <-]. unfold Exponential_ShouldRetry in Hr.
  destruct (Z.leb_spec (MaxAttempts c) attempt); [done|]. lia.
Qed.

#[export] Program Instance Circuit_bounded : BoundedPolicy CircuitBreakerPolicy := {|
  retries_left := fun p attempt =>
    match state p with
    | CircuitClosed => (3 + Z.to_nat (MaxAttempts (config p) - failureCount p))%nat
    | CircuitOpen => 2%nat
    | CircuitHalfOpen => if attempt =? 1 then 1%nat else 0%nat
    end;
|}.
Next Obligation.
  cbn. intros now err attempt p p' Ha Hr. unfold Circuit_ShouldRetry in Hr.
  destruct (state p) eqn:Es.
  - destruct (IsRetryable err); [|done]. cbn in Hr. destruct (Z.leb_spec (MaxAttempts (config p)) (failureCount p + 1)); [done|].
    injection Hr as <-. cbn. lia.
  - destruct (MaxInterval (config p) <? _); [|done]. injection Hr as <-. cbn. destruct (Z.eqb_spec (attempt + 1) 1); lia.
  - injection Hr as -> <-. rewrite Es. destruct (Z.eqb_spec (attempt + 1) 1); lia.
Qed.

(** The loop with enough of a schedule. *)
Lemma Execute_ends `{BoundedPolicy P} (sched : list Attempt) : forall (p : P) (attempt : Z),
  1 <= attempt -> (retries_left p attempt < length sched)%nat ->
  is_Some (outcome (Execute attempt sched p)) /\ calls (Execute attempt sched p) <= 1 + Z.of_nat (retries_left p attempt) /\
  zlen (waits (Execute attempt sched p)) <= Z.of_nat (retries_left p attempt).
Proof.
  induction sched as [|a sched IH]; intros p attempt Ha Hl; cbn -[Z.of_nat] in *; [lia|].
  destruct (ctx_Err a); [cbn -[Z.of_nat]; split; [eauto|unfold zlen; cbn -[Z.of_nat]; lia]|].
  destruct (result a) as [err|]; [|cbn -[Z.of_nat]; split; [eauto|unfold zlen; cbn -[Z.of_nat]; lia]].
  destruct (ShouldRetry (now a) err attempt p) as [[] p'] eqn:E; cbn -[Z.of_nat].
  - pose proof (retry_decreases _ _ _ _ _ Ha E) as Hd. destruct (done_waiting a); cbn -[Z.of_nat].
    + split; [eauto|]. unfold zlen; cbn -[Z.of_nat]. lia.
    + destruct (IH p' (attempt + 1) ltac:(lia) ltac:(lia)) as (I1 & I2 & I3). unfold zlen in *. cbn -[Z.of_nat].
      split; [done|]. lia.
  - split; [eauto|]. unfold zlen; cbn -[Z.of_nat]. lia.
Qed.

(** How a finished run relates to its attempts: it succeeds exactly when the last operation called did, a
    failure is the last operation's error or the end of the context. *)
Inductive ended : list Attempt -> option error -> Z -> Prop :=
| ended_canceled a l e : ctx_Err a = Some e -> ended (a :: l) (Some (canceled ("Operation canceled: " +s e))) 0
| ended_ok a l : ctx_Err a = None -> result a = None -> ended (a :: l) None 1
| ended_err a l err : ctx_Err a = None -> result a = Some err -> ended (a :: l) (Some err) 1
| ended_wait a l err : ctx_Err a = None -> result a = Some err -> done_waiting a = true ->
    ended (a :: l) (Some (canceled ("Operation canceled during retry: " +s error_text err))) 1
| ended_again a l err o n : ctx_Err a = None -> result a = Some err -> done_waiting a = false ->
    ended l o n -> ended (a :: l) o (1 + n).

Lemma Execute_ended `{RetryPolicy P} (sched : list Attempt) : forall (p : P) attempt o,
  outcome (Execute attempt sched p) = Some o -> ended sched o (calls (Execute attempt sched p)).
Proof.
  induction sched as [|a sched IH]; intros p attempt o; cbn; [done|].
  destruct (ctx_Err a) as [e|] eqn:Ec; cbn; [intros [= <-]; by apply ended_canceled|].
  destruct (result a) as [err|] eqn:Er; cbn; [|intros [= <-]; by apply ended_ok].
  destruct (ShouldRetry (now a) err attempt p) as [[] p']; cbn; [|intros [= <-]; by apply ended_err].
  destruct (done_waiting a) eqn:Ed; cbn; [intros [= <-]; by apply ended_wait|].
  intros Ho. by eapply ended_again; [..|apply IH].
Qed.
(** ** Theorems *)

(** C26: the retry loop ends: with a policy whose retries are bounded (both policies of the package are), every run
    finishes after at most one call of the operation more than the retries left, waiting at most that many times, and
    its outcome is the success of the last call, the error of the last call, or the end
    of the context. *)
Theorem retry_terminates {P : Type} `{BoundedPolicy P} (sched : list Attempt) (p : P) :
  (retries_left p 1 < length sched)%nat ->
  exists o, outcome (Execute 1 sched p) = Some o /\
    calls (Execute 1 sched p) <= 1 + Z.of_nat (retries_left p 1) /\
    zlen (waits (Execute 1 sched p)) <= Z.of_nat (retries_left p 1) /\
    ended sched o (calls (Execute 1 sched p)).
Proof.
  intros Hl. destruct (Execute_ends sched p 1 ltac:(lia) Hl) as ([o Ho] & Hc & Hw).
  exists o. split_and!; [done|done|done|by apply Execute_ended].
Qed.

(** Runs one after the other with one policy object. *)
Fixpoint run_all (scheds : list (list Attempt)) (p : CircuitBreakerPolicy) : CircuitBreakerPolicy :=
  match scheds with [] => p | s :: scheds => run_all scheds (policy (Execute 1 s p)) end.

Lemma Execute_half_open sched : forall attempt p, state p = CircuitHalfOpen -> policy (Execute attempt sched p) = p.
Proof.
  induction sched as [|a sched IH]; intros attempt p Hs; cbn; [done|].
  destruct (ctx_Err a); [done|]. destruct (result a); [|done]. unfold Circuit_ShouldRetry. rewrite Hs.
  destruct (attempt =? 1); [|done]. destruct (done_waiting a); [done|]. by apply IH.
Qed.

Lemma Execute_not_closed sched : forall attempt p, state p <> CircuitClosed -> state (policy (Execute attempt sched p)) <> CircuitClosed.
Proof.
  induction sched as [|a sched IH]; intros attempt p Hs; [done|]. cbn.
  destruct (ctx_Err a); [done|]. destruct (result a) as [err|]; [|done].
  destruct (Circuit_ShouldRetry (now a) err attempt p) as [b p'] eqn:E.
  assert (state p' <> CircuitClosed) as Hs'.
  { unfold Circuit_ShouldRetry in E. destruct (state p) eqn:Es; [done| |by simplify_eq; rewrite Es].
    destruct (_ <? _); simplify_eq; cbn; [done|by rewrite Es]. }
  destruct b; [|done]. destruct (done_waiting a); [done|]. by apply IH.
Qed.

(** The retry loop never reports outcomes to the circuit policy: once it has opened no later run closes it
    again, however many operations succeed; and once half-open it stays exactly as it is, so every
    later run is allowed one retry, of non-retryable errors too. *)
Lemma circuit_policy_never_closes (scheds : list (list Attempt)) (p : CircuitBreakerPolicy) :
  state p <> CircuitClosed ->
  state (run_all scheds p) <> CircuitClosed /\
  (state p = CircuitHalfOpen -> run_all scheds p = p /\ forall now err, ShouldRetry now err 1 p = (true, p)).
Proof.
  intros Hs. split.
  - revert p Hs. induction scheds as [|s scheds IH]; intros p Hs; cbn; [done|]. by apply IH, Execute_not_closed.
  - intros Hh. split.
    + clear Hs. induction scheds as [|s scheds IH]; cbn; [done|]. by rewrite Execute_half_open.
    + intros now err. cbn. unfold Circuit_ShouldRetry. by rewrite Hh.
Qed.

End Policies.

(** ** Examples *)

Definition no_conversion (x : float) : Z := 0.
Definition square (x y : float) : float := fmul x x.

(** An attempt that fails with a recoverable error. *)
Definition failing_attempt (t : Z) : Attempt := mkAttempt None (Some (EMcp (Error RTR_CONN_NO_BACKEND []))) t fzero false.

Lemma retry_terminates_witness :
  let r := @Execute _ (Exponential_policy no_conversion square) 1 (failing_attempt <$> [1; 2; 3; 4]) DefaultRetryConfig in
  is_Some (outcome r) /\ calls r <= 3.
Proof.
  cbn zeta. destruct (@retry_terminates _ (Exponential_policy no_conversion square) (Exponential_bounded no_conversion square)
    (failing_attempt <$> [1; 2; 3; 4]) DefaultRetryConfig) as (o & Ho & Hc & _).
  - vm_compute. lia.
  - split; [by exists o|exact Hc].
Defined.

Definition opened : CircuitBreakerPolicy :=
  policy (@Execute _ (Circuit_policy no_conversion square) 1 (failing_attempt <$> [1; 2; 3; 4]) (NewCircuitBreakerPolicy DefaultRetryConfig)).

Lemma circuit_policy_never_closes_witness :
  state (run_all no_conversion square [[mkAttempt None None 100000000000 fzero false]] opened) <> CircuitClosed.
Proof.
  apply (circuit_policy_never_closes no_conversion square [[mkAttempt None None 100000000000 fzero false]] opened).
  vm_compute. discriminate.
Defined.

End Retry.
