(* ===== verification/Adaptive.v ===== *)
(** * Adaptive retries and timeouts of direct clients

    [services/router/internal/direct/retry.go], adaptive.go and timeout_adapter.go, and their use
    by the manager.  A retry run goes over a schedule of what each attempt sees; clock
    readings and random numbers are arguments; [math.Pow] is a parameter. *)
From S2P Require Import Prelude GoStrings GoUnicode GoFloat.
#[local] Open Scope Z_scope.

Module Adaptive.

Local Infix "+s" := String.append (at level 50, left associativity).

(** [strings.ToLower]; on ASCII text it changes the capital letters only. *)
Definition lower_ascii (a : Ascii.ascii) : Ascii.ascii :=
  if in_range 65 90 (bz a) then Ascii.ascii_of_N (Z.to_N (bz a + 32)) else a.
Fixpoint str_map (f : Ascii.ascii -> Ascii.ascii) (s : string) : string :=
  match s with EmptyString => EmptyString | String a s => String (f a) (str_map f s) end.
Class LowerCase := {
  ToLower : string -> string;
  ToLower_ascii : forall s, str_forall (fun a => bz a <? 128) s = true -> ToLower s = str_map lower_ascii s;
}.

(** ** Errors *)

Inductive error :=
| ERetryable (retryable : bool) (errorType : string) (inner : error)   (* *RetryableError *)
| EWrap (text : string) (inner : error)                                (* fmt.Errorf with %w *)
| EText (text : string).

Fixpoint error_text (err : error) : string :=
  match err with ERetryable _ _ inner => error_text inner | EWrap s _ => s | EText s => s end.

(** [errors.As(err, &retryableErr)]. *)
Fixpoint AsRetryable (err : error) : option (bool * string) :=
  match err with ERetryable r t _ => Some (r, t) | EWrap _ inner => AsRetryable inner | EText _ => None end.

Section Adaptive.
Context `{LowerCase}.

Definition containsAny (s : string) (substrings : list string) : bool :=
  existsb (fun sub => Contains (ToLower s) (ToLower sub)) substrings.

Definition IsRetryable (err : error) : bool :=
  match AsRetryable err with
  | Some (r, _) => r
  | None => containsAny (error_text err)
      ["timeout"; "connection"; "temporary"; "refused"; "reset"; "broken pipe"; "no route to host"]
  end.

Definition GetErrorType (err : error) : string :=
  match AsRetryable err with
  | Some (_, t) => t
  | None =>
      let s := error_text err in
      if containsAny s ["timeout"; "deadline"] then "timeout"
      else if containsAny s ["connection"; "refused"; "reset"] then "connection"
      else if containsAny s ["temporary"; "unavailable"] then "temporary"
      else if containsAny s ["authentication"; "unauthorized"] then "auth"
      else "unknown"
  end.

(** ** Configuration *)

Record AdaptiveRetryConfig := mkARC {
  MaxRetries : Z;
  BaseDelay : Z;
  MaxDelay : Z;
  BackoffFactor : float;
  EnableJitter : bool;
  JitterRatio : float;
  ContextualRetries : bool;
  FailureTypeWeighting : bool;
  CircuitBreakerEnabled : bool;
  FailureThreshold : Z;
  RecoveryTimeout : Z;
}.

Definition feqb (x y : float) : bool := SFeqb x y.

Definition retry_defaults (c : AdaptiveRetryConfig) : AdaptiveRetryConfig :=
  {| MaxRetries := if MaxRetries c =? 0 then 3 else MaxRetries c;
     BaseDelay := if BaseDelay c =? 0 then 100 * Millisecond else BaseDelay c;
     MaxDelay := if MaxDelay c =? 0 then 30 * Second else MaxDelay c;
     BackoffFactor := if feqb (BackoffFactor c) fzero then float_of_int 2 else BackoffFactor c;
     EnableJitter := EnableJitter c;
     JitterRatio := if feqb (JitterRatio c) fzero then fconst 1 10 else JitterRatio c;
     ContextualRetries := ContextualRetries c; FailureTypeWeighting := FailureTypeWeighting c;
     CircuitBreakerEnabled := CircuitBreakerEnabled c;
     FailureThreshold := if FailureThreshold c =? 0 then 5 else FailureThreshold c;
     RecoveryTimeout := if RecoveryTimeout c =? 0 then 60 * Second else RecoveryTimeout c |}.

(** ** The breaker around the retries *)

Inductive CircuitState := CircuitClosed | CircuitOpen | CircuitHalfOpen.
#[export] Instance CircuitState_eq_dec : EqDecision CircuitState.
Proof. solve_decision. Defined.

Record CircuitBreaker := mkCB { failureCount : Z; lastFailureTime : Z; state : CircuitState }.

Definition NewCircuitBreaker : CircuitBreaker :=
  {| failureCount := 0; lastFailureTime := time_zero; state := CircuitClosed |}.

Definition recordFailure (c : AdaptiveRetryConfig) (now : Z) (cb : CircuitBreaker) : CircuitBreaker :=
  let n := failureCount cb + 1 in
  {| failureCount := n; lastFailureTime := now; state := if FailureThreshold c <=? n then CircuitOpen else state cb |}.

Definition recordSuccess (cb : CircuitBreaker) : CircuitBreaker :=
  {| failureCount := 0; lastFailureTime := lastFailureTime cb; state := CircuitClosed |}.

Definition circuit_open : error := EText "circuit breaker is open".

(** What [Execute] does before the function: [None] when it refuses. *)
Definition admit_call (c : AdaptiveRetryConfig) (now : Z) (cb : CircuitBreaker) : option CircuitBreaker :=
  match state cb with
  | CircuitOpen =>
      if RecoveryTimeout c <? time_sub now (lastFailureTime cb)
      then Some {| failureCount := 0; lastFailureTime := lastFailureTime cb; state := CircuitHalfOpen |}
      else None
  | _ => Some cb
  end.

(** ** Statistics and delays *)

Record ErrorStats := mkES { Count : Z; SuccessAfterRetry : Z; AvgRetriesNeeded : float }.

Record AdaptiveRetry := mkAR {
  config : AdaptiveRetryConfig;
  circuitBreaker : CircuitBreaker;
  errorTypeStats : gmap string ErrorStats;
}.

Definition NewAdaptiveRetry (c : AdaptiveRetryConfig) : AdaptiveRetry :=
  {| config := retry_defaults c; circuitBreaker := NewCircuitBreaker; errorTypeStats := ∅ |}.

Definition set_stats (f : gmap string ErrorStats -> gmap string ErrorStats) (ar : AdaptiveRetry) : AdaptiveRetry :=
  {| config := config ar; circuitBreaker := circuitBreaker ar; errorTypeStats := f (errorTypeStats ar) |}.
Definition set_breaker (cb : CircuitBreaker) (ar : AdaptiveRetry) : AdaptiveRetry :=
  {| config := config ar; circuitBreaker := cb; errorTypeStats := errorTypeStats ar |}.

Definition new_stats : ErrorStats := {| Count := 0; SuccessAfterRetry := 0; AvgRetriesNeeded := fzero |}.

Definition recordRetrySuccess (errorType : string) (attempts : Z) (ar : AdaptiveRetry) : AdaptiveRetry :=
  let s := default new_stats (errorTypeStats ar !! errorType) in
  let n := i64_add (SuccessAfterRetry s) 1 in
  set_stats (<[errorType := {| Count := i64_add (Count s) 1; SuccessAfterRetry := n;
    AvgRetriesNeeded := if n =? 1 then float_of_int attempts
                        else fdiv (fadd (AvgRetriesNeeded s) (float_of_int attempts)) (float_of_int 2) |}]>) ar.

Definition recordRetryFailure (errorType : string) (ar : AdaptiveRetry) : AdaptiveRetry :=
  let s := default new_stats (errorTypeStats ar !! errorType) in
  set_stats (<[errorType := {| Count := i64_add (Count s) 1; SuccessAfterRetry := SuccessAfterRetry s;
                               AvgRetriesNeeded := AvgRetriesNeeded s |}]>) ar.

Variable out_of_range : float -> Z.
Variable Pow : float -> float -> float.
#[local] Notation duration_of_float := (duration_of_float out_of_range).

Definition scale (d : Z) (x : float) : Z := duration_of_float (fmul (float_of_int d) x).

Definition adjustDelayForErrorType (rnd : float) (baseDelay : Z) (errorType : string) (ar : AdaptiveRetry) : Z :=
  if negb (FailureTypeWeighting (config ar)) then baseDelay
  else match errorTypeStats ar !! errorType with
  | None => baseDelay
  | Some s =>
      let successRate := fdiv (float_of_int (SuccessAfterRetry s)) (float_of_int (Count s)) in
      if bool_decide (errorType = "timeout"%string) then
        if SFltb successRate (fconst 5 10) then scale baseDelay (fconst 15 10) else baseDelay
      else if bool_decide (errorType = "connection"%string) then
        if SFltb (fconst 7 10) successRate then scale baseDelay (fconst 8 10) else baseDelay
      else if bool_decide (errorType = "temporary"%string) then
        scale baseDelay (fadd fone (fmul (fsub rnd (fconst 5 10)) (fconst 4 10)))
      else if bool_decide (errorType = "auth"%string) then scale baseDelay (float_of_int 2)
      else baseDelay
  end.

Definition calculateDelay (rnd_type rnd_jitter : float) (attempt : Z) (errorType : string) (ar : AdaptiveRetry) : Z :=
  let c := config ar in
  let delay := scale (BaseDelay c) (Pow (BackoffFactor c) (float_of_int attempt)) in
  let delay := if ContextualRetries c then adjustDelayForErrorType rnd_type delay errorType ar else delay in
  let delay := if MaxDelay c <? delay then MaxDelay c else delay in
  if EnableJitter c then
    let jitter := duration_of_float (fmul (fmul (float_of_int delay) (JitterRatio c))
                                          (fsub (fmul rnd_jitter (float_of_int 2)) fone)) in
    let delay := i64_add delay jitter in
    if delay <? 0 then BaseDelay c else delay
  else delay.

(** ** The retry loop *)

(** One attempt: the context's error at its start, the function's result, the random numbers and the
    context's error during the wait. *)
Record Try := mkTry {
  done_before : option error;
  fn_result : option error;
  rnd_type : float;
  rnd_jitter : float;
  done_waiting : option error;
}.

(** A run is over, has dereferenced a nil error, or has used up the schedule. *)
Inductive ending := Finished (err : option error) | NilPanic | Pending.

Record Run := mkRun { ended : ending; calls : Z; waits : list Z; after : AdaptiveRetry }.

(** Falling out of the loop. *)
Definition exhausted (lastErr : option error) (ar : AdaptiveRetry) : ending * AdaptiveRetry :=
  match lastErr with
  | None => (NilPanic, ar)
  | Some err => (Finished (Some (EWrap ("max retries exceeded: " +s error_text err) err)), recordRetryFailure (GetErrorType err) ar)
  end.

Fixpoint executeWithRetry (attempt : Z) (lastErr : option error) (sched : list Try) (ar : AdaptiveRetry) : Run :=
  if MaxRetries (config ar) <? attempt then
    let '(e, ar) := exhausted lastErr ar in mkRun e 0 [] ar
  else
    match sched with
    | [] => mkRun Pending 0 [] ar
    | t :: sched =>
        match done_before t with
        | Some e => mkRun (Finished (Some e)) 0 [] ar
        | None =>
            match fn_result t with
            | None =>
                mkRun (Finished None) 1 []
                  (if 0 <? attempt then
                     match lastErr with Some e => recordRetrySuccess (GetErrorType e) attempt ar | None => ar end
                   else ar)
            | Some err =>
                if negb (IsRetryable err) then mkRun (Finished (Some err)) 1 [] ar
                else if attempt =? MaxRetries (config ar) then
                  let '(e, ar) := exhausted (Some err) ar in mkRun e 1 [] ar
                else
                  let delay := calculateDelay (rnd_type t) (rnd_jitter t) attempt (GetErrorType err) ar in
                  match done_waiting t with
                  | Some e => mkRun (Finished (Some e)) 1 [delay] ar
                  | None =>
                      let r := executeWithRetry (attempt + 1) (Some err) sched ar in
                      mkRun (ended r) (1 + calls r) (delay :: waits r) (after r)
                  end
            end
        end
    end.

(** [Execute]: the breaker is asked at [now0], the outcome recorded at [now]. *)
Definition Execute (now0 now : Z) (sched : list Try) (ar : AdaptiveRetry) : Run :=
  let c := config ar in
  if negb (CircuitBreakerEnabled c) then executeWithRetry 0 None sched ar
  else match admit_call c now0 (circuitBreaker ar) with
  | None => mkRun (Finished (Some circuit_open)) 0 [] ar
  | Some cb =>
      let r := executeWithRetry 0 None sched (set_breaker cb ar) in
      match ended r with
      | Finished None => mkRun (ended r) (calls r) (waits r) (set_breaker (recordSuccess cb) (after r))
      | Finished (Some _) => mkRun (ended r) (calls r) (waits r) (set_breaker (recordFailure c now cb) (after r))
      | _ => r
      end
  end.

(** ** Adaptive timeouts *)

Record AdaptiveTimeoutConfig := mkATC {
  BaseTimeout : Z; MinTimeout : Z; MaxTimeout : Z;
  WindowSize : Z; SuccessRatio : float; AdaptationRate : float;
  EnableLearning : bool; LearningPeriod : Z;
}.

Definition timeout_defaults (c : AdaptiveTimeoutConfig) : AdaptiveTimeoutConfig :=
  {| BaseTimeout := if BaseTimeout c =? 0 then 30 * Second else BaseTimeout c;
     MinTimeout := if MinTimeout c =? 0 then Second else MinTimeout c;
     MaxTimeout := if MaxTimeout c =? 0 then 300 * Second else MaxTimeout c;
     WindowSize := if WindowSize c =? 0 then 100 else WindowSize c;
     SuccessRatio := if feqb (SuccessRatio c) fzero then fconst 95 100 else SuccessRatio c;
     AdaptationRate := if feqb (AdaptationRate c) fzero then fconst 1 10 else AdaptationRate c;
     EnableLearning := EnableLearning c;
     LearningPeriod := if LearningPeriod c =? 0 then 5 * Minute else LearningPeriod c |}.

Record RequestMetrics := mkRM { StartTime : Z; Duration : Z; Success : bool; ErrorType : string; RetryAttempt : Z }.

Record AdaptiveTimeout := mkAT {
  t_config : AdaptiveTimeoutConfig;
  requestHistory : list RequestMetrics;
  currentTimeout : Z;
  totalRequests : Z;
  successfulReqs : Z;
  avgResponseTime : Z;
  lastAdaptation : Z;
}.

Definition NewAdaptiveTimeout (c : AdaptiveTimeoutConfig) (now : Z) : AdaptiveTimeout :=
  let c := timeout_defaults c in
  {| t_config := c; requestHistory := []; currentTimeout := BaseTimeout c; totalRequests := 0; successfulReqs := 0;
     avgResponseTime := 0; lastAdaptation := now |}.

(** [GetTimeout]: the timeout, and whether an adaptation is started in the background.
    [remaining] is the time until the context's deadline, if it has one. *)
Definition GetTimeout (now : Z) (remaining : option Z) (t : AdaptiveTimeout) : Z * bool :=
  let adapt := EnableLearning (t_config t) && (LearningPeriod (t_config t) <? time_sub now (lastAdaptation t)) in
  (match remaining with
   | Some rem => if rem <? currentTimeout t then rem else currentTimeout t
   | None => currentTimeout t
   end, adapt).

(** [None]: the slice of an empty history is out of range. *)
Definition RecordRequest (m : RequestMetrics) (t : AdaptiveTimeout) : option AdaptiveTimeout :=
  hist ← (if WindowSize (t_config t) <=? zlen (requestHistory t)
          then match requestHistory t with [] => None | _ :: l => Some l end
          else Some (requestHistory t));
  let total := i64_add (totalRequests t) 1 in
  Some {| t_config := t_config t; requestHistory := hist ++ [m]; currentTimeout := currentTimeout t;
          totalRequests := total;
          successfulReqs := if Success m then i64_add (successfulReqs t) 1 else successfulReqs t;
          avgResponseTime := if total =? 1 then Duration m else Z.quot (i64_add (avgResponseTime t) (Duration m)) 2;
          lastAdaptation := lastAdaptation t |}.

Definition MinSampleSize : nat := 10.

Definition hasEnoughData (t : AdaptiveTimeout) : bool := (MinSampleSize <=? length (requestHistory t))%nat.

(** The success ratio and the average duration of the history. *)
Definition calculateMetrics (t : AdaptiveTimeout) : float * Z :=
  let n := zlen (requestHistory t) in
  (fdiv (float_of_int (count Success (requestHistory t))) (float_of_int n),
   Z.quot (fold_left (fun acc m => i64_add acc (Duration m)) (requestHistory t) 0) n).

Definition enforceMaxLimit (c : AdaptiveTimeoutConfig) (d : Z) : Z := if MaxTimeout c <? d then MaxTimeout c else d.
Definition enforceMinLimit (c : AdaptiveTimeoutConfig) (d : Z) : Z := if d <? MinTimeout c then MinTimeout c else d.

Definition increased (avgDuration : Z) (t : AdaptiveTimeout) : Z :=
  let newTimeout := scale (currentTimeout t) (fadd fone (AdaptationRate (t_config t))) in
  let newTimeout := if Z.quot (currentTimeout t) 2 <? avgDuration then scale avgDuration (fconst 25 10) else newTimeout in
  enforceMaxLimit (t_config t) newTimeout.

Definition ensureReasonableTimeout (avgDuration d : Z) : Z :=
  let minReasonable := scale avgDuration (float_of_int 2) in if d <? minReasonable then minReasonable else d.

Definition decreased (avgDuration : Z) (t : AdaptiveTimeout) : Z :=
  let newTimeout := scale (currentTimeout t) (fsub fone (AdaptationRate (t_config t))) in
  enforceMinLimit (t_config t) (ensureReasonableTimeout avgDuration newTimeout).

Definition adjustTimeout (ratio : float) (avgDuration : Z) (t : AdaptiveTimeout) : Z :=
  if SFltb ratio (SuccessRatio (t_config t)) then increased avgDuration t
  else if SFleb (SuccessRatio (t_config t)) ratio && (avgDuration <? Z.quot (currentTimeout t) 3) then decreased avgDuration t
  else currentTimeout t.

Definition AdaptTimeout (now : Z) (t : AdaptiveTimeout) : AdaptiveTimeout :=
  if negb (hasEnoughData t) then t
  else
    let '(ratio, avg) := calculateMetrics t in
    {| t_config := t_config t; requestHistory := requestHistory t; currentTimeout := adjustTimeout ratio avg t;
       totalRequests := totalRequests t; successfulReqs := successfulReqs t; avgResponseTime := avgResponseTime t;
       lastAdaptation := now |}.

(** ** Both together: [ExecuteWithAdaptiveMechanisms] *)

(** The clock when the call starts, when the breaker records the outcome, and when the call is measured. *)
Definition ExecuteWithAdaptiveMechanisms (start recorded finish : Z) (sched : list Try) (ar : AdaptiveRetry) (t : AdaptiveTimeout)
    : ending * AdaptiveRetry * option AdaptiveTimeout :=
  let r := Execute start recorded sched ar in
  match ended r with
  | Finished err =>
      let m := {| StartTime := start; Duration := time_sub finish start; Success := negb (bool_decide (is_Some err));
                  ErrorType := match err with Some e => GetErrorType e | None => EmptyString end; RetryAttempt := 0 |} in
      (ended r, after r, RecordRequest m t)
  | _ => (ended r, after r, Some t)
  end.

(** ** The retry loop *)

Definition alive_failure (t : Try) : Prop :=
  done_before t = None /\ done_waiting t = None /\ exists err, fn_result t = Some err /\ IsRetryable err = true.

Lemma config_after sched : forall attempt lastErr ar, config (after (executeWithRetry attempt lastErr sched ar)) = config ar.
Proof.
  induction sched as [|t sched IH]; intros attempt lastErr ar; cbn.
  { destruct (_ <? _); [|done]. by destruct lastErr. }
  destruct (_ <? _); [by destruct lastErr|]. destruct (done_before t); [done|]. destruct (fn_result t) as [err|].
  - destruct (negb _); [done|]. destruct (attempt =? _); [done|]. destruct (done_waiting t); [done|]. cbn. apply IH.
  - cbn. destruct (0 <? attempt); [|done]. by destruct lastErr.
Qed.

(** With enough of a schedule the loop ends. *)
Lemma retry_ends sched : forall attempt lastErr ar,
  0 <= attempt <= MaxRetries (config ar) -> MaxRetries (config ar) - attempt < zlen sched ->
  exists o, ended (executeWithRetry attempt lastErr sched ar) = Finished o /\
    calls (executeWithRetry attempt lastErr sched ar) <= MaxRetries (config ar) - attempt + 1.
Proof.
  induction sched as [|t sched IH]; intros attempt lastErr ar Ha Hl; [unfold zlen in Hl; cbn in Hl; lia|].
  cbn -[Z.of_nat]. destruct (Z.ltb_spec (MaxRetries (config ar)) attempt); [lia|].
  destruct (done_before t); cbn -[Z.of_nat]; [eexists; split; [done|lia]|].
  destruct (fn_result t) as [err|]; cbn -[Z.of_nat]; [|eexists; split; [done|lia]].
  destruct (negb _); cbn -[Z.of_nat]; [eexists; split; [done|lia]|].
  destruct (Z.eqb_spec attempt (MaxRetries (config ar))); cbn -[Z.of_nat]; [eexists; split; [done|lia]|].
  destruct (done_waiting t); cbn -[Z.of_nat]; [eexists; split; [done|lia]|].
  destruct (IH (attempt + 1) (Some err) ar) as (o & Ho & Hc); [lia|unfold zlen in *; cbn -[Z.of_nat] in Hl; lia|].
  exists o. split; [done|lia].
Qed.

(** A run whose attempts all fail with retryable errors. *)
Lemma retry_exhausts sched : forall attempt lastErr ar,
  0 <= attempt <= MaxRetries (config ar) -> MaxRetries (config ar) - attempt < zlen sched ->
  Forall alive_failure sched ->
  exists t err, sched !! Z.to_nat (MaxRetries (config ar) - attempt) = Some t /\ fn_result t = Some err /\
    ended (executeWithRetry attempt lastErr sched ar) =
      Finished (Some (EWrap ("max retries exceeded: " +s error_text err) err)) /\
    calls (executeWithRetry attempt lastErr sched ar) = MaxRetries (config ar) - attempt + 1.
Proof.
  induction sched as [|t sched IH]; intros attempt lastErr ar Ha Hl Hf; [unfold zlen in Hl; cbn in Hl; lia|].
  apply Forall_cons in Hf as [(H1 & H2 & err & H3 & H4) Hf].
  cbn -[Z.of_nat]. destruct (Z.ltb_spec (MaxRetries (config ar)) attempt); [lia|]. rewrite H1, H3, H4. cbn -[Z.of_nat].
  destruct (Z.eqb_spec attempt (MaxRetries (config ar))) as [->|Hne].
  - exists t, err. rewrite Z.sub_diag. cbn -[Z.of_nat]. split_and!; try done.
  - rewrite H2. destruct (IH (attempt + 1) (Some err) ar) as (t' & err' & I1 & I2 & I3 & I4);
      [lia|unfold zlen in *; cbn -[Z.of_nat] in Hl; lia|done|].
    exists t', err'. cbn -[Z.of_nat].
    replace (Z.to_nat (MaxRetries (config ar) - attempt)) with (S (Z.to_nat (MaxRetries (config ar) - (attempt + 1)))) by lia.
    split_and!; try done. lia.
Qed.

(** A run that succeeds at its [k]-th retry. *)
Lemma retry_succeeds pre : forall attempt lastErr t rest ar,
  0 <= attempt -> attempt + zlen pre <= MaxRetries (config ar) -> Forall alive_failure pre ->
  done_before t = None -> fn_result t = None ->
  ended (executeWithRetry attempt lastErr (pre ++ t :: rest) ar) = Finished None /\
  calls (executeWithRetry attempt lastErr (pre ++ t :: rest) ar) = zlen pre + 1.
Proof.
  induction pre as [|u pre IH]; intros attempt lastErr t rest ar Ha Hl Hf Hd Hr; cbn -[Z.of_nat].
  - unfold zlen in *; cbn -[Z.of_nat] in *. destruct (Z.ltb_spec (MaxRetries (config ar)) attempt); [lia|]. by rewrite Hd, Hr.
  - apply Forall_cons in Hf as [(H1 & H2 & err & H3 & H4) Hf]. unfold zlen in *. cbn -[Z.of_nat] in Hl.
    destruct (Z.ltb_spec (MaxRetries (config ar)) attempt); [lia|]. rewrite H1, H3, H4. cbn -[Z.of_nat].
    destruct (Z.eqb_spec attempt (MaxRetries (config ar))); [lia|]. rewrite H2. cbn -[Z.of_nat].
    destruct (IH (attempt + 1) (Some err) t rest ar) as [I1 I2]; [lia|lia|done|done|done|]. rewrite I1, I2. split; [done|lia].
Qed.

(** ** Statistics *)

(** The success rate of an error type divides by a positive count and is at most one; [n] bounds the counts, which are
    int64 in the code. *)
Definition stats_ok (n : Z) (m : gmap string ErrorStats) : Prop :=
  forall k s, m !! k = Some s -> 1 <= Count s <= n /\ 0 <= SuccessAfterRetry s <= Count s.

Lemma stats_ok_le n n' m : stats_ok n m -> n <= n' -> stats_ok n' m.
Proof. intros Hs Hn k s Hk. apply Hs in Hk. lia. Qed.

Lemma stats_record n ar k f : 0 <= n < max_i64 -> stats_ok n (errorTypeStats ar) ->
  (forall s, 0 <= Count s <= n -> 0 <= SuccessAfterRetry s <= Count s ->
     Count (f s) = i64_add (Count s) 1 /\ (SuccessAfterRetry (f s) = SuccessAfterRetry s \/ SuccessAfterRetry (f s) = i64_add (SuccessAfterRetry s) 1)) ->
  stats_ok (n + 1) (errorTypeStats (set_stats (<[k := f (default new_stats (errorTypeStats ar !! k))]>) ar)).
Proof.
  intros Hn Hs Hf k' s. cbn. intros [[<- <-]|[_ Hl]]%lookup_insert_Some; [|apply Hs in Hl; lia].
  assert (0 <= Count (default new_stats (errorTypeStats ar !! k)) <= n /\
    0 <= SuccessAfterRetry (default new_stats (errorTypeStats ar !! k)) <= Count (default new_stats (errorTypeStats ar !! k))) as [H1 H2].
  { destruct (errorTypeStats ar !! k) as [s|] eqn:E; cbn; [apply Hs in E|]; lia. }
  unfold max_i64 in Hn. destruct (Hf _ H1 H2) as [-> [-> | ->]]; rewrite !i64_add_small by (unfold min_i64, max_i64; lia); lia.
Qed.

Lemma stats_success n k a ar : 0 <= n < max_i64 -> stats_ok n (errorTypeStats ar) ->
  stats_ok (n + 1) (errorTypeStats (recordRetrySuccess k a ar)).
Proof.
  intros Hn Hs. apply (stats_record n ar k (fun s => {| Count := i64_add (Count s) 1; SuccessAfterRetry := i64_add (SuccessAfterRetry s) 1;
    AvgRetriesNeeded := _ |})); [done|done|]. intros s _ _. cbn. auto.
Qed.

Lemma stats_failure n k ar : 0 <= n < max_i64 -> stats_ok n (errorTypeStats ar) ->
  stats_ok (n + 1) (errorTypeStats (recordRetryFailure k ar)).
Proof.
  intros Hn Hs. apply (stats_record n ar k (fun s => {| Count := i64_add (Count s) 1; SuccessAfterRetry := SuccessAfterRetry s;
    AvgRetriesNeeded := _ |})); [done|done|]. intros s _ _. cbn. auto.
Qed.

Lemma stats_retry n sched : 0 <= n < max_i64 -> forall attempt lastErr ar,
  stats_ok n (errorTypeStats ar) -> stats_ok (n + 1) (errorTypeStats (after (executeWithRetry attempt lastErr sched ar))).
Proof.
  intros Hn. induction sched as [|t sched IH]; intros attempt lastErr ar Hs;
    pose proof (stats_ok_le n (n + 1) _ Hs ltac:(lia)) as Hk; cbn.
  { destruct (_ <? _); [|done]. destruct lastErr; [by apply stats_failure|done]. }
  destruct (_ <? _); [destruct lastErr; [by apply stats_failure|done]|]. destruct (done_before t); [done|].
  destruct (fn_result t) as [err|].
  - destruct (negb _); [done|]. destruct (attempt =? _); [by apply stats_failure|]. destruct (done_waiting t); [done|]. by apply IH.
  - cbn. destruct (0 <? attempt); [|done]. destruct lastErr; [by apply stats_success|done].
Qed.

Lemma Execute_stats n now0 now sched ar : 0 <= n < max_i64 ->
  stats_ok n (errorTypeStats ar) -> stats_ok (n + 1) (errorTypeStats (after (Execute now0 now sched ar))).
Proof.
  intros Hn Hs. unfold Execute. destruct (negb _); [by apply stats_retry|].
  destruct (admit_call _ _ _) as [cb|]; [|apply (stats_ok_le n); [done|lia]].
  assert (stats_ok (n + 1) (errorTypeStats (after (executeWithRetry 0 None sched (set_breaker cb ar))))) as Hr by (by apply stats_retry).
  destruct (ended _) as [[err|]| |]; done.
Qed.

(** ** Theorems *)

(** C27: adaptive retries: with a non-negative MaxRetries a run always ends, after at most MaxRetries + 1 calls; it ends with
    success as soon as an attempt succeeds after retryable failures; when every attempt fails with a retryable error it makes
    exactly MaxRetries + 1 calls and reports the last error; and the per-type success rates used for
    the delays never divide by zero, the int64 counts growing by at most one each (so as long as none has reached its
    maximum). *)
Theorem adaptive_retry_outcome (n : Z) (sched : list Try) (ar : AdaptiveRetry) :
  0 <= MaxRetries (config ar) < zlen sched -> 0 <= n < max_i64 -> stats_ok n (errorTypeStats ar) ->
  let r := executeWithRetry 0 None sched ar in
  (exists o, ended r = Finished o) /\ calls r <= MaxRetries (config ar) + 1 /\
  (forall pre t rest, sched = pre ++ t :: rest -> zlen pre <= MaxRetries (config ar) -> Forall alive_failure pre ->
     done_before t = None -> fn_result t = None -> ended r = Finished None /\ calls r = zlen pre + 1) /\
  (Forall alive_failure sched -> exists t err, sched !! Z.to_nat (MaxRetries (config ar)) = Some t /\ fn_result t = Some err /\
     ended r = Finished (Some (EWrap ("max retries exceeded: " +s error_text err) err)) /\ calls r = MaxRetries (config ar) + 1) /\
  stats_ok (n + 1) (errorTypeStats (after r)).
Proof.
  intros Hm Hn Hs r. destruct (retry_ends sched 0 None ar) as (o & Ho & Hc); [lia|lia|]. rewrite Z.sub_0_r in Hc.
  split; [eauto|]. split; [done|]. split; [|split].
  - intros pre t rest -> Hl Hf Hd Hr. apply (retry_succeeds pre 0 None t rest ar); try done; lia.
  - intros Hf. destruct (retry_exhausts sched 0 None ar) as (t & err & H1 & H2 & H3 & H4); [lia|lia|done|].
    rewrite Z.sub_0_r in H1, H4. exists t, err. done.
  - by apply stats_retry.
Qed.

(** Runs one after the other, each with the two clock readings of its breaker. *)
Fixpoint run_all (runs : list (Z * Z * list Try)) (ar : AdaptiveRetry) : list Run * AdaptiveRetry :=
  match runs with
  | [] => ([], ar)
  | (now0, now, sched) :: runs =>
      let r := Execute now0 now sched ar in
      let '(rs, ar) := run_all runs (after r) in (r :: rs, ar)
  end.

(** Every run calls the function first and fails at once. *)
Definition failing_run (run : Z * Z * list Try) : Prop :=
  exists t rest err, run.2 = t :: rest /\ done_before t = None /\ fn_result t = Some err /\ IsRetryable err = false.

Lemma failing_Execute now0 now sched ar cb :
  CircuitBreakerEnabled (config ar) = true -> 0 <= MaxRetries (config ar) ->
  admit_call (config ar) now0 (circuitBreaker ar) = Some cb -> failing_run (now0, now, sched) ->
  calls (Execute now0 now sched ar) = 1 /\ config (after (Execute now0 now sched ar)) = config ar /\
  circuitBreaker (after (Execute now0 now sched ar)) = recordFailure (config ar) now cb.
Proof.
  intros He Hm Ha (t & rest & err & E & H1 & H2 & H3). cbn in E. subst sched. unfold Execute. rewrite He, Ha. cbn.
  destruct (Z.ltb_spec (MaxRetries (config ar)) 0); [lia|]. rewrite H1, H2, H3. done.
Qed.

(** The half-open state does not probe: after the recovery timeout the breaker lets FailureThreshold failing calls through
    (not one, as the comment says) before it opens again, since the failure count starts from zero and
    only the threshold opens it. *)
Lemma half_open_admits_threshold (now0 now : Z) (sched : list Try) (runs : list (Z * Z * list Try)) (ar : AdaptiveRetry) :
  CircuitBreakerEnabled (config ar) = true -> 0 <= MaxRetries (config ar) ->
  state (circuitBreaker ar) = CircuitOpen -> RecoveryTimeout (config ar) < time_sub now0 (lastFailureTime (circuitBreaker ar)) ->
  Forall failing_run ((now0, now, sched) :: runs) -> zlen runs + 1 < FailureThreshold (config ar) ->
  Forall (fun r => calls r = 1) (run_all ((now0, now, sched) :: runs) ar).1 /\
  state (circuitBreaker (run_all ((now0, now, sched) :: runs) ar).2) = CircuitHalfOpen.
Proof.
  intros He Hm Ho Ht [Hf0 Hf]%Forall_cons Hl.
  assert (forall runs ar, CircuitBreakerEnabled (config ar) = true -> 0 <= MaxRetries (config ar) ->
    state (circuitBreaker ar) = CircuitHalfOpen -> failureCount (circuitBreaker ar) + zlen runs < FailureThreshold (config ar) ->
    Forall failing_run runs -> Forall (fun r => calls r = 1) (run_all runs ar).1 /\
    state (circuitBreaker (run_all runs ar).2) = CircuitHalfOpen) as IH.
  { clear. intros runs. induction runs as [|[[n0 n] s] runs IH]; intros ar He Hm Hh Hl Hf; cbn; [done|].
    apply Forall_cons in Hf as [Hf0 Hf]. unfold zlen in Hl. cbn -[Z.of_nat] in Hl.
    destruct (failing_Execute n0 n s ar (circuitBreaker ar) He Hm) as (C & Cc & Cb); [unfold admit_call; by rewrite Hh|done|].
    destruct (IH (after (Execute n0 n s ar))) as [I1 I2]; try rewrite Cc; try rewrite Cb; cbn; try done.
    - destruct (Z.leb_spec (FailureThreshold (config ar)) (failureCount (circuitBreaker ar) + 1)); [lia|done].
    - unfold zlen. lia.
    - destruct (run_all runs _) as [rs ar']. cbn in *. split; [by constructor|done]. }
  cbn. destruct (failing_Execute now0 now sched ar {| failureCount := 0; lastFailureTime := lastFailureTime (circuitBreaker ar);
    state := CircuitHalfOpen |} He Hm) as (C & Cc & Cb); [|done|].
  { unfold admit_call. rewrite Ho. destruct (Z.ltb_spec (RecoveryTimeout (config ar)) (time_sub now0 (lastFailureTime (circuitBreaker ar)))); [done|lia]. }
  pose proof (zlen_nonneg runs) as Hn.
  destruct (IH runs (after (Execute now0 now sched ar))) as [I1 I2]; try rewrite Cc; try rewrite Cb; cbn; try done; [|lia|].
  - destruct (Z.leb_spec (FailureThreshold (config ar)) (0 + 1)); [lia|done].
  - destruct (run_all runs _) as [rs ar']. cbn in *. split; [by constructor|done].
Qed.

(** ** Timeouts *)

Definition record_all (ms : list RequestMetrics) (t : AdaptiveTimeout) : option AdaptiveTimeout :=
  fold_left (fun acc m => t ← acc; RecordRequest m t) ms (Some t).

Lemma record_window m t : 1 <= WindowSize (t_config t) -> zlen (requestHistory t) <= WindowSize (t_config t) ->
  exists t', RecordRequest m t = Some t' /\ t_config t' = t_config t /\ currentTimeout t' = currentTimeout t /\
    requestHistory t' = drop (length (requestHistory t ++ [m]) - Z.to_nat (WindowSize (t_config t))) (requestHistory t ++ [m]).
Proof.
  intros Hw Hl. unfold RecordRequest, zlen in *. rewrite length_app. cbn [length].
  destruct (Z.leb_spec (WindowSize (t_config t)) (Z.of_nat (length (requestHistory t)))) as [Hge|Hlt].
  - destruct (requestHistory t) as [|x l] eqn:E; [cbn in Hge; lia|]. cbn -[Z.of_nat] in Hge, Hl. eexists. split; [reflexivity|]. split; [done|]. split; [done|]. cbn [requestHistory].
    replace (length (x :: l) + 1 - Z.to_nat (WindowSize (t_config t)))%nat with 1%nat by (cbn -[Z.of_nat]; lia). done.
  - eexists. split; [reflexivity|]. split; [done|]. split; [done|]. cbn [requestHistory].
    by replace (length (requestHistory t) + 1 - Z.to_nat (WindowSize (t_config t)))%nat with 0%nat by lia.
Qed.

Lemma drop_window {A} (w : nat) (l k : list A) (x : A) : (1 <= w)%nat ->
  let l' := drop (length l - w) l in drop (length (l' ++ [x]) - w) (l' ++ [x]) = drop (length (l ++ [x]) - w) (l ++ [x]).
Proof.
  intros Hw l'. unfold l'. rewrite !length_app, length_drop. cbn [length].
  destruct (decide (length l <= w)%nat) as [Hle|Hgt].
  - replace (length l - w)%nat with 0%nat by lia. by rewrite Nat.sub_0_r, drop_0.
  - rewrite !drop_app, drop_drop, !length_drop. f_equal; f_equal; lia.
Qed.

(** The adaptive timeout looks at exactly the last WindowSize requests, whatever has been recorded before; an adaptation
    that raises it never exceeds MaxTimeout and one that lowers it never goes below MinTimeout; and
    without ten samples nothing changes. *)
Lemma timeout_window (ms : list RequestMetrics) (t : AdaptiveTimeout) (now : Z) :
  requestHistory t = [] -> 1 <= WindowSize (t_config t) ->
  exists t', record_all ms t = Some t' /\
    requestHistory t' = drop (length ms - Z.to_nat (WindowSize (t_config t))) ms /\
    (let '(ratio, avg) := calculateMetrics t' in
     (SFltb ratio (SuccessRatio (t_config t)) = true /\ hasEnoughData t' = true -> currentTimeout (AdaptTimeout now t') <= MaxTimeout (t_config t)) /\
     (SFltb ratio (SuccessRatio (t_config t)) = false -> currentTimeout (AdaptTimeout now t') = currentTimeout t \/
        MinTimeout (t_config t) <= currentTimeout (AdaptTimeout now t'))) /\
    ((length ms < 10)%nat -> AdaptTimeout now t' = t').
Proof.
  intros He Hw.
  assert (exists t', record_all ms t = Some t' /\ t_config t' = t_config t /\ currentTimeout t' = currentTimeout t /\
    requestHistory t' = drop (length ms - Z.to_nat (WindowSize (t_config t))) ms) as (t' & Hr & Hc & Hcur & Hh).
  { induction ms as [|m ms IH] using rev_ind; [exists t; by rewrite He|]. destruct IH as (t1 & R1 & C1 & U1 & H1).
    destruct (record_window m t1) as (t2 & R2 & C2 & U2 & H2).
    - by rewrite C1.
    - rewrite C1, H1. unfold zlen. rewrite length_drop. lia.
    - exists t2. unfold record_all in *. rewrite fold_left_app, R1. cbn. split_and!; try congruence.
      rewrite H2, C1, H1. apply (drop_window _ ms ms m). lia. }
  exists t'. split; [done|]. split; [done|]. split.
  - unfold AdaptTimeout. destruct (calculateMetrics t') as [ratio avg]. split.
    + intros [Hlt Hd]. rewrite Hd. cbn. unfold adjustTimeout. rewrite Hc, Hlt. unfold increased, enforceMaxLimit. rewrite Hc.
      destruct (Z.ltb_spec (MaxTimeout (t_config t)) (if Z.quot (currentTimeout t') 2 <? avg then scale avg (fconst 25 10)
        else scale (currentTimeout t') (fadd fone (AdaptationRate (t_config t))))); lia.
    + intros Hlt. destruct (negb (hasEnoughData t')); [by left|]. cbn. unfold adjustTimeout. rewrite Hc, Hlt.
      destruct (_ && _); [right|by left]. unfold decreased, enforceMinLimit. rewrite Hc. case_tests; lia.
  - intros Hn. unfold AdaptTimeout, hasEnoughData, MinSampleSize. rewrite Hh, length_drop.
    destruct (Nat.leb_spec 10 (length ms - (length ms - Z.to_nat (WindowSize (t_config t)))))%nat; [lia|done].
Qed.

End Adaptive.

(** ** Examples *)

#[refine] Instance ascii_lower : LowerCase := {| ToLower := str_map lower_ascii |}.
Proof. done. Defined.

Definition no_conversion (x : float) : Z := 0.
Definition times (x y : float) : float := fmul x y.

Definition sample_config (retries : Z) : AdaptiveRetryConfig :=
  {| MaxRetries := retries; BaseDelay := 0; MaxDelay := 0; BackoffFactor := fzero; EnableJitter := false; JitterRatio := fzero;
     ContextualRetries := true; FailureTypeWeighting := true; CircuitBreakerEnabled := true; FailureThreshold := 0; RecoveryTimeout := 0 |}.

Definition refused : Try := mkTry None (Some (EText "dial tcp: Connection REFUSED")) fzero fzero None.
Definition forbidden : Try := mkTry None (Some (EText "forbidden")) fzero fzero None.

Lemma adaptive_retry_outcome_witness :
  let r := executeWithRetry no_conversion times 0 None [refused; refused; refused] (NewAdaptiveRetry (sample_config 2)) in
  calls r = 3 /\ stats_ok 1 (errorTypeStats (after r)).
Proof.
  cbn zeta.
  destruct (adaptive_retry_outcome no_conversion times 0 [refused; refused; refused] (NewAdaptiveRetry (sample_config 2)))
    as (_ & _ & _ & Hx & Hs).
  - vm_compute. split; [discriminate|reflexivity].
  - vm_compute. split; [discriminate|reflexivity].
  - intros k s Hk. cbn in Hk. by rewrite lookup_empty in Hk.
  - split; [|exact Hs]. destruct Hx as (t & err & _ & _ & _ & Hc); [|exact Hc].
    repeat (constructor; [by split; [|split; [|exists (EText "dial tcp: Connection REFUSED")]]|]). constructor.
Defined.

(** The breaker opened long ago. *)
Definition broken : AdaptiveRetry :=
  set_breaker {| failureCount := 5; lastFailureTime := 0; state := CircuitOpen |} (NewAdaptiveRetry (sample_config 2)).

Lemma half_open_admits_threshold_witness :
  let runs := [(100 * Second, 101 * Second, [forbidden]); (102 * Second, 103 * Second, [forbidden]); (104 * Second, 105 * Second, [forbidden])] in
  Forall (fun r => calls r = 1) (run_all no_conversion times runs broken).1.
Proof.
  apply (half_open_admits_threshold no_conversion times (100 * Second) (101 * Second) [forbidden]
    [(102 * Second, 103 * Second, [forbidden]); (104 * Second, 105 * Second, [forbidden])] broken);
    try reflexivity; try (vm_compute; discriminate).
  repeat (constructor; [exists forbidden, [], (EText "forbidden"); vm_compute; done|]). constructor.
Defined.

Definition sample_timeouts : AdaptiveTimeout :=
  NewAdaptiveTimeout {| BaseTimeout := 0; MinTimeout := 0; MaxTimeout := 0; WindowSize := 2; SuccessRatio := fzero; AdaptationRate := fzero;
                        EnableLearning := true; LearningPeriod := 0 |} 0.
Definition sample_metrics (d : Z) : RequestMetrics := {| StartTime := 0; Duration := d; Success := true; ErrorType := ""; RetryAttempt := 0 |}.

Lemma timeout_window_witness :
  exists t', record_all (sample_metrics <$> [1; 2; 3]) sample_timeouts = Some t' /\ requestHistory t' = sample_metrics <$> [2; 3].
Proof.
  destruct (timeout_window no_conversion (sample_metrics <$> [1; 2; 3]) sample_timeouts 9) as (t' & H1 & H2 & _).
  - reflexivity.
  - vm_compute. discriminate.
  - exists t'. split; [exact H1|exact H2].
Defined.

(** A negative MaxRetries makes the loop body never run, and the type of a nil error is asked for. *)
Example negative_retries_panic :
  ended (executeWithRetry no_conversion times 0 None [refused] (NewAdaptiveRetry (sample_config (-1)))) = NilPanic.
Proof. reflexivity. Qed.

End Adaptive.
