(* ===== verification/MessageRouter.v ===== *)
(** * The router's message loop

    [services/router/internal/router/message_router.go] with the goroutines of connection_manager.go and the
    shutdown of router.go, as programs of [Goroutines] over the shared state they use: the table of
    pending requests with its response channels, the request queue, the state of the connection and
    what has been written to stdout.  The gateway client, the direct clients, the rate limiter, timers
    and stdin are the environment: their commands may give any result.  Logging is left out, and so is
    waiting for wait groups (every interleaving with the wait is one without it).  Errors are their texts. *)
From S2P Require Import Prelude GoStrings RequestQueue Mcp Goroutines ConnManager Adaptive.
From stdpp Require Import pretty.
#[local] Open Scope Z_scope.

Module MsgRouter.
Import Conn.

Local Infix "+s" := String.append (at level 50, left associativity).

(** ** Configuration *)

Record Fallback := mkFallback {
  FallbackEnabled : bool; MaxRetries : Z; GatewayOnlyMethods : list string; DirectOnlyMethods : list string }.
Record Config := mkConfig {
  RequestTimeoutMs : Z; DirectEnabled : bool; DirectMaxConnections : Z; DirectFallback : Fallback }.

Definition GetRequestTimeout (c : Config) : Z := wrap_s 64 (RequestTimeoutMs c * Millisecond).
Definition IsDirectMode (c : Config) : bool := if negb (DirectEnabled c) then false else 0 <? DirectMaxConnections c.

(** ** Shared state *)

(** A response channel of capacity one. *)
Record rchan := mkChan { buffer : list Response; closed : bool }.

Record State := mkState {
  rchans : gmap nat rchan;
  next_rchan : nat;
  pendingReqs : gmap key nat;
  requestQueue : RequestQueue;
  qchans : Channels;                 (* the channels of queued requests *)
  next_ctx : nat;
  ended : gset nat;                  (* contexts of queued requests that have been cancelled *)
  connMgr : ConnectionManager;
  metricsCol : MetricsCollector;
  received : list string;            (* what was read from stdin *)
  direct_replies : list (option Response);   (* what direct clients answered *)
  stdout : list string;              (* what was sent to the stdout channel *)
  cancelled : bool;                  (* mr.ctx *)
}.

(** ** Atomic commands *)

Inductive stdin_case := Stopped | Line (data : string).
Inductive notify_case := NotifyDone | NotifyClosed | Notified (s : ConnectionState).
Inductive queue_case := QueueResult (err : option string) | QueueTimeout.
Inductive send_case := Sent | SendCancelled | Full.
Inductive wait_case := Answered (resp : option Response) | WaitTimeout | WaitCancelled.
Inductive receive_case := Received (resp : option Response) | ReceiveError (err : string).
Inductive out_case := Written | OutTimeout | OutCancelled.
Inductive tick_case := TickDone | TickPing | TickCheck.

Inductive cmd : Type -> Type :=
(* stdin, the rate limiter, timers and contexts *)
| ReadStdin : cmd stdin_case
| RateWait : cmd (option string)
| Done : cmd bool                        (* select on mr.ctx with a default *)
| Sleep : cmd bool                       (* select on a context and a timer: the context ended *)
| Since : cmd Z
| Now : cmd Z
(* the request queue *)
| QEnqueue (data : string) (now : Z) : cmd (result Z (nat * nat))   (* the request's context and channel *)
| QWait (ctx ch : nat) : cmd queue_case
| QCancel (ctx : nat) : cmd unit
| QDequeueAll : cmd (list QueuedRequest)
| QCtxErr (ctx : nat) : cmd bool
| QSend (ch : nat) (err : option string) : cmd unit
| QTrySend (ch : nat) (err : option string) : cmd unit
| QClose (ch : nat) : cmd unit
| QClear (err : option string) : cmd unit
(* pending requests *)
| MakeChan : cmd nat
| Store (id : jvalue) (ch : nat) : cmd unit
| Load (id : jvalue) : cmd (option nat)        (* the value Range shows with a key *)
| LoadAndDelete (id : jvalue) : cmd (option nat)
| Range : cmd (list key)
| Send (ch : nat) (resp : Response) : cmd send_case
| Close (ch : nat) : cmd unit
| Wait (ch : nat) : cmd wait_case
(* the gateway and direct clients *)
| GwSend (req : Request) : cmd (option string)
| GwReceive : cmd receive_case
| GwIsConnected : cmd bool
| GetClient (url : string) : cmd (result string nat)
| ClientSend (client : nat) (req : Request) : cmd (result string (option Response))
(* stdout and metrics *)
| Out (timeout : bool) (data : string) : cmd out_case
| Metric (m : metric) : cmd unit
| Duration (method : string) (d : Z) : cmd unit
| ResponseSize (n : Z) : cmd unit
(* the connection *)
| ConnState : cmd ConnectionState
| SetState (s : ConnectionState) : cmd unit
| Notification : cmd notify_case
| Connect : cmd (option string)
| Ping : cmd (option string)
| Tick : cmd tick_case
| ConnDone : cmd bool
| AddRetry : cmd unit
(* shutdown *)
| AwaitShutdown : cmd unit
| CancelConn : cmd unit
| CloseConn : cmd unit
| CancelRouter : cmd unit.

(** ** What the commands do *)

Definition set_rchans (f : gmap nat rchan -> gmap nat rchan) (s : State) : State :=
  mkState (f (rchans s)) (next_rchan s) (pendingReqs s) (requestQueue s) (qchans s) (next_ctx s) (ended s) (connMgr s) (metricsCol s)
    (received s) (direct_replies s) (stdout s) (cancelled s).
Definition set_pending (f : gmap key nat -> gmap key nat) (s : State) : State :=
  mkState (rchans s) (next_rchan s) (f (pendingReqs s)) (requestQueue s) (qchans s) (next_ctx s) (ended s) (connMgr s) (metricsCol s)
    (received s) (direct_replies s) (stdout s) (cancelled s).
Definition set_queue (rq : RequestQueue) (w : Channels) (s : State) : State :=
  mkState (rchans s) (next_rchan s) (pendingReqs s) rq w (next_ctx s) (ended s) (connMgr s) (metricsCol s)
    (received s) (direct_replies s) (stdout s) (cancelled s).
Definition set_ctxs (n : nat) (e : gset nat) (s : State) : State :=
  mkState (rchans s) (next_rchan s) (pendingReqs s) (requestQueue s) (qchans s) n e (connMgr s) (metricsCol s)
    (received s) (direct_replies s) (stdout s) (cancelled s).
Definition set_conn (f : ConnectionManager -> ConnectionManager) (s : State) : State :=
  mkState (rchans s) (next_rchan s) (pendingReqs s) (requestQueue s) (qchans s) (next_ctx s) (ended s) (f (connMgr s)) (metricsCol s)
    (received s) (direct_replies s) (stdout s) (cancelled s).
Definition set_metrics (f : MetricsCollector -> MetricsCollector) (s : State) : State :=
  mkState (rchans s) (next_rchan s) (pendingReqs s) (requestQueue s) (qchans s) (next_ctx s) (ended s) (connMgr s) (f (metricsCol s))
    (received s) (direct_replies s) (stdout s) (cancelled s).
Definition set_io (inp : list string) (replies : list (option Response)) (out : list string) (s : State) : State :=
  mkState (rchans s) (next_rchan s) (pendingReqs s) (requestQueue s) (qchans s) (next_ctx s) (ended s) (connMgr s) (metricsCol s)
    inp replies out (cancelled s).

Definition chan_of (ch : nat) (s : State) : rchan := default {| buffer := []; closed := true |} (rchans s !! ch).
Definition qchan_of (ch : nat) (s : State) : Chan := default {| buffered := []; chan_closed := true |} (chans (qchans s) !! ch).

(** The receive from the channel of a queued request: a value, or nil once it is closed and empty. *)
Definition q_receive (ch : nat) (err : option string) (s : State) : option State :=
  match buffered (qchan_of ch s) with
  | v :: rest =>
      when (bool_decide (v = err))
        (set_queue (requestQueue s)
           {| chans := <[ch := {| buffered := rest; chan_closed := chan_closed (qchan_of ch s) |}]> (chans (qchans s));
              next_chan := next_chan (qchans s) |} s)
  | [] => when (chan_closed (qchan_of ch s) && bool_decide (err = None)) s
  end.

Definition exec (X : Type) (c : cmd X) : X -> State -> option State :=
  match c in cmd X return X -> State -> option State with
  | ReadStdin => fun x s =>
      match x with
      | Stopped => when (cancelled s) s
      | Line data => Some (set_io (received s ++ [data]) (direct_replies s) (stdout s) s)
      end
  | RateWait => fun _ s => Some s
  | Done => fun x s => when (Bool.eqb x (cancelled s)) s
  | Sleep => fun x s => when (implb x (cancelled s)) s
  | Since | Now => fun _ s => Some s
  | QEnqueue data now => fun x s =>
      match Enqueue data (next_ctx s) now (requestQueue s) (qchans s), x with
      | (Err n, rq, w), Err n' => when (n =? n') (set_queue rq w s)
      | (Ok ch, rq, w), Ok (ctx, ch') =>
          when (bool_decide (ctx = next_ctx s) && bool_decide (ch' = ch)) (set_ctxs (S (next_ctx s)) (ended s) (set_queue rq w s))
      | _, _ => None
      end
  | QWait ctx ch => fun x s => match x with QueueResult err => q_receive ch err s | QueueTimeout => Some s end
  | QCancel ctx => fun _ s => Some (set_ctxs (next_ctx s) ({[ctx]} ∪ ended s) s)
  | QDequeueAll => fun x s =>
      let '(l, rq) := DequeueAll (requestQueue s) in when (bool_decide (x = l)) (set_queue rq (qchans s) s)
  | QCtxErr ctx => fun x s => when (x || negb (bool_decide (ctx ∈ ended s) || cancelled s)) s
  | QSend ch err => fun _ s => w ← send ch err (qchans s); Some (set_queue (requestQueue s) w s)
  | QTrySend ch err => fun _ s => w ← try_send ch err (qchans s); Some (set_queue (requestQueue s) w s)
  | QClose ch => fun _ s => w ← close_chan ch (qchans s); Some (set_queue (requestQueue s) w s)
  | QClear err => fun _ s => '(rq, w) ← Clear err (requestQueue s) (qchans s); Some (set_queue rq w s)
  | MakeChan => fun x s =>
      when (bool_decide (x = next_rchan s))
        (mkState (<[next_rchan s := {| buffer := []; closed := false |}]> (rchans s)) (S (next_rchan s)) (pendingReqs s) (requestQueue s)
           (qchans s) (next_ctx s) (ended s) (connMgr s) (metricsCol s) (received s) (direct_replies s) (stdout s) (cancelled s))
  | Store id ch => fun _ s => k ← hash id; Some (set_pending (<[k := ch]>) s)
  | Load id => fun x s => when (bool_decide (x = (k ← hash id; pendingReqs s !! k))) s
  | LoadAndDelete id => fun x s => k ← hash id; when (bool_decide (x = pendingReqs s !! k)) (set_pending (delete k) s)
  | Range => fun _ s => Some s
  | Send ch resp => fun x s =>
      match x, buffer (chan_of ch s) with
      | Sent, [] => Some (set_rchans (<[ch := {| buffer := [resp]; closed := closed (chan_of ch s) |}]>) s)
      | Full, _ :: _ => Some s
      | SendCancelled, _ => when (cancelled s) s
      | _, _ => None
      end
  | Close ch => fun _ s => Some (set_rchans (<[ch := {| buffer := buffer (chan_of ch s); closed := true |}]>) s)
  | Wait ch => fun x s =>
      match x with
      | Answered resp =>
          match buffer (chan_of ch s), resp with
          | r :: rest, Some r' =>
              when (bool_decide (r = r')) (set_rchans (<[ch := {| buffer := rest; closed := closed (chan_of ch s) |}]>) s)
          | [], None => when (closed (chan_of ch s)) s
          | _, _ => None
          end
      | WaitTimeout => Some s
      | WaitCancelled => when (cancelled s) s
      end
  | GwSend _ => fun _ s => Some s
  | GwReceive => fun _ s => Some s
  | GwIsConnected => fun _ s => Some s
  | GetClient _ => fun _ s => Some s
  | ClientSend _ _ => fun x s =>
      match x with
      | Ok resp => Some (set_io (received s) (direct_replies s ++ [resp]) (stdout s) s)
      | Err _ => Some s
      end
  | Out timeout data => fun x s =>
      match x with
      | Written => Some (set_io (received s) (direct_replies s) (stdout s ++ [data]) s)
      | OutTimeout => when timeout s
      | OutCancelled => when (cancelled s) s
      end
  | Metric m => fun _ s => Some (set_metrics (Increment m) s)
  | Duration method d => fun _ s => Some (set_metrics (RecordRequestDuration method d) s)
  | ResponseSize n => fun _ s => Some (set_metrics (RecordResponseSize n) s)
  | ConnState => fun x s => when (bool_decide (x = GetState (connMgr s))) s
  | SetState st => fun _ s => Some (set_conn (setState st) s)
  | Notification => fun x s =>
      match x, stateChangeChan (connMgr s) with
      | NotifyDone, _ => when (cancelled s) s
      | NotifyClosed, [] => when (channelClosed (connMgr s)) s
      | Notified st, st' :: rest =>
          when (bool_decide (st = st'))
            (set_conn (fun cm => mkCM (state cm) rest (channelClosed cm) (retries cm) (cm_cancelled cm)) s)
      | _, _ => None
      end
  | Connect | Ping => fun _ s => Some s
  | Tick => fun x s => match x with TickDone => when (cm_cancelled (connMgr s)) s | _ => Some s end
  | ConnDone => fun x s => when (Bool.eqb x (cm_cancelled (connMgr s))) s
  | AddRetry => fun _ s => Some (set_conn add_retry s)
  | AwaitShutdown => fun _ s => Some s
  | CancelConn => fun _ s => Some (set_conn cancel_connection s)
  | CloseConn => fun _ s => Some (set_conn close_notifications s)
  | CancelRouter => fun _ s =>
      Some (mkState (rchans s) (next_rchan s) (pendingReqs s) (requestQueue s) (qchans s) (next_ctx s) (ended s) (connMgr s) (metricsCol s)
              (received s) (direct_replies s) (stdout s) true)
  end.

(** Panics: a map key without a hash, a closed channel sent on or closed again. *)
Definition panics (X : Type) (c : cmd X) (s : State) : bool :=
  match c with
  | Store id _ | LoadAndDelete id => bool_decide (hash id = None)
  | Send ch _ | Close ch => closed (chan_of ch s)
  | QSend ch _ | QTrySend ch _ | QClose ch => chan_closed (qchan_of ch s)
  | QClear err => bool_decide (Clear err (requestQueue s) (qchans s) = None)
  | _ => false
  end.

(** The loops of the goroutines. *)
Inductive label :=
| LStdin | LSocket | LState (last : ConnectionState)
| LConn (backoff attempts : Z) | LAlive | LAliveNoPing.

Local Notation P := (prog cmd label).
Local Notation next := (Goroutines.next label).

Section Router.
Context `{JSON} `{Adaptive.LowerCase}.
Variable config : Config.
Variable MaxQueuedRequests : Z.
Variable directManager : bool.                      (* not nil *)
Variable Unmarshal_request : string -> result string Request.
Variable Unmarshal_id : string -> jvalue.           (* the field id alone; nil if the text does not parse *)
Variable duration_text : Z -> string.
Variable out_of_range : GoFloat.float -> Z.

(** ** Writing to stdout *)

Definition MCPInternalErrorCode : Z := -32603.
Definition responseTimeout : Z := 5 * Second.

(** [json.Marshal] of a pointer: nil is null. *)
Definition marshal (resp : option Response) : result string string :=
  match resp with None => Ok "null"%string | Some r => Marshal_response r end.

Definition sendResponse (resp : option Response) : P (option string) :=
  match marshal resp with
  | Err err => mret (Some ("failed to marshal response: " +s err))
  | Ok data =>
      _ ← perform (ResponseSize (slen data));
      r ← perform (Out false data);
      match r with Written => mret None | _ => mret (Some "context canceled"%string) end
  end.

Definition sendResponseWithTimeout (resp : option Response) (timeout : Z) : P (option string) :=
  match marshal resp with
  | Err err => mret (Some ("failed to marshal response: " +s err))
  | Ok data =>
      _ ← perform (ResponseSize (slen data));
      r ← perform (Out true data);
      match r with
      | Written => mret None
      | OutTimeout => mret (Some ("timeout sending response to stdout after " +s duration_text timeout))
      | OutCancelled => mret (Some "context canceled"%string)
      end
  end.

Definition error_response (id : jvalue) (err : string) : Response :=
  {| resp_JSONRPC := "2.0"; Result := JNull; RespError := Some (mkMcpError MCPInternalErrorCode err JNull); resp_ID := id |}.

Definition sendErrorResponse (id : jvalue) (err : string) : P unit :=
  _ ← sendResponse (Some (error_response id err));
  perform (Metric MErrors).

(** ** Pending requests *)

(** The cleanup functions: remove the id's channel, whoever stored it, and close it. *)
Definition cleanup (id : jvalue) : P unit :=
  r ← perform (LoadAndDelete id);
  match r with None => mret tt | Some ch => perform (Close ch) end.

Definition routeResponse (resp : Response) : P unit :=
  r ← perform (LoadAndDelete (resp_ID resp));
  match r with
  | None => mret tt
  | Some ch => _ ← perform (Send ch resp); perform (Close ch)
  end.

(** ** The gateway path *)

(** The goroutine of one request. *)
Definition gateway_exchange (req : Request) (respChan : nat) : P next :=
  e ← perform (GwSend req);
  match e with
  | Some err =>
      _ ← cleanup (req_ID req);
      _ ← perform (Metric MErrors);
      _ ← sendErrorResponse (req_ID req) err;
      mret Exit
  | None =>
      w ← perform (Wait respChan);
      match w with
      | Answered resp =>
          d ← perform Since;
          _ ← perform (Duration (Method req) d);
          e ← sendResponseWithTimeout resp responseTimeout;
          match e with
          | Some err =>
              _ ← cleanup (req_ID req);
              _ ← perform (Metric MErrors);
              _ ← sendErrorResponse (req_ID req) err;
              mret Exit
          | None => _ ← perform (Metric MResponses); mret Exit
          end
      | WaitTimeout =>
          _ ← cleanup (req_ID req);
          _ ← perform (Metric MErrors);
          d ← perform Done;
          if (d : bool) then mret Exit
          else _ ← sendErrorResponse (req_ID req) ("request timeout after " +s duration_text (GetRequestTimeout config));
               mret Exit
      | WaitCancelled => _ ← cleanup (req_ID req); _ ← perform (Metric MErrors); mret Exit
      end
  end.

Definition processGatewayRequest (req : Request) : P (option string) :=
  respChan ← perform MakeChan;
  _ ← perform (Store (req_ID req) respChan);
  _ ← perform (Metric MGatewayRequests);
  _ ← go (gateway_exchange req respChan);
  mret None.

(** ** The direct path *)

Definition tryExtractURL (params : jvalue) (key : string) : string :=
  match field key params with Some (JString url) => url | _ => EmptyString end.

Definition extractURLFromParams (params : jvalue) : string :=
  let url := tryExtractURL params "server_url" in
  if negb (bool_decide (url = EmptyString)) then url else
  let url := tryExtractURL params "target_url" in
  if negb (bool_decide (url = EmptyString)) then url else
  tryExtractURL params "endpoint".

Definition getFallbackServerURL : string := "http://localhost:8080/mcp".

Definition extractServerURL (req : Request) : string :=
  match ReqParams req with
  | JObject _ =>
      let url := extractURLFromParams (ReqParams req) in
      if negb (bool_decide (url = EmptyString)) then url else getFallbackServerURL
  | _ => getFallbackServerURL
  end.

Definition handleDirectError (err msg : string) : P (option string) :=
  _ ← perform (Metric MErrors);
  mret (Some (msg +s ": " +s err)).

Definition setupDirectRequest (req : Request) : P unit :=
  respChan ← perform MakeChan;
  perform (Store (req_ID req) respChan).

(** The end of both direct paths: the answer goes to stdout. *)
Definition deliver (req : Request) (resp : option Response) : P (option string) :=
  d ← perform Since;
  _ ← perform (Duration (Method req) d);
  e ← sendResponse resp;
  match e with
  | Some err => _ ← perform (Metric MErrors); mret (Some err)
  | None => _ ← perform (Metric MResponses); mret None
  end.

(** The deferred cleanup runs when the function returns. *)
Definition processDirectRequestWithContext (req : Request) : P (option string) :=
  _ ← setupDirectRequest req;
  r ← (_ ← perform (Metric MDirectRequests);
       c ← perform (GetClient (extractServerURL req));
       match c with
       | Err err => handleDirectError err "failed to get direct client"
       | Ok client =>
           r ← perform (ClientSend client req);
           match r with
           | Err err => handleDirectError err "failed to send direct request"
           | Ok resp => deliver req resp
           end
       end);
  _ ← cleanup (req_ID req);
  mret r.

Definition processDirectRequest (req : Request) : P (option string) :=
  respChan ← perform MakeChan;
  _ ← perform (Store (req_ID req) respChan);
  c ← perform (GetClient (extractServerURL req));
  match c with
  | Err err => _ ← cleanup (req_ID req); handleDirectError err "failed to get direct client"
  | Ok client =>
      r ← perform (ClientSend client req);
      match r with
      | Err err => _ ← cleanup (req_ID req); handleDirectError err "failed to send direct request"
      | Ok resp => _ ← cleanup (req_ID req); deliver req resp
      end
  end.

Definition retryablePatterns : list string :=
  ["connection refused"; "connection timeout"; "connection reset"; "no such host"; "network unreachable"; "host unreachable";
   "timeout"; "context deadline exceeded"; "failed to detect protocol"; "failed to get direct client";
   "protocol detection failed"; "no route to host"; "connection aborted"].

Definition isRetryableDirectError (errStr : string) : bool :=
  existsb (fun pattern => Contains (Adaptive.ToLower errStr) pattern) retryablePatterns
  || (Contains errStr "direct" || Contains errStr "connect" || Contains errStr "dial").

(** The attempts left, the number of the attempt and the last error. *)
Fixpoint direct_attempts (n : nat) (attempt : Z) (req : Request) (lastErr : option string) : P (option string) :=
  match n with
  | O => mret lastErr
  | S n =>
      stop ← (if 0 <? attempt then perform Sleep else mret false);
      if (stop : bool) then mret (Some "context canceled during retry"%string)
      else
        e ← processDirectRequestWithContext req;
        match e with
        | None => mret None
        | Some err => if negb (isRetryableDirectError err) then mret (Some err) else direct_attempts n (attempt + 1) req (Some err)
        end
  end.

Definition attemptDirectWithRetries (req : Request) : P (option string) :=
  direct_attempts (Z.to_nat (MaxRetries (DirectFallback config) + 1)) 0 req None.

Definition handleFallbackToGateway (req : Request) (directErr : string) : P (option string) :=
  e ← processGatewayRequest req;
  match e with
  | Some err =>
      _ ← perform (Metric MFallbackFailures);
      mret (Some ("direct failed (" +s directErr +s "), gateway failed: " +s err))
  | None => _ ← perform (Metric MFallbackSuccesses); mret None
  end.

Definition processRequestWithFallback (req : Request) : P (option string) :=
  if negb (FallbackEnabled (DirectFallback config)) then processDirectRequest req
  else
    directErr ← attemptDirectWithRetries req;
    match directErr with None => mret None | Some err => handleFallbackToGateway req err end.

(** ** Routing *)

Definition determineRoutingTarget (req : Request) : bool :=
  if negb directManager then false
  else if bool_decide (Method req ∈ GatewayOnlyMethods (DirectFallback config)) then false
  else if bool_decide (Method req ∈ DirectOnlyMethods (DirectFallback config)) then true
  else if IsDirectMode config then
    if bool_decide (Method req ∈ ["initialize"; "initialized"]) then false
    else if bool_decide (Method req ∈ ["tools/list"; "tools/call"; "resources/list"; "resources/read"; "prompts/list"; "prompts/get"]) then true
    else FallbackEnabled (DirectFallback config)
  else false.

Definition processStdinMessageDirect (data : string) : P (option string) :=
  match Unmarshal_request data with
  | Err err => mret (Some ("invalid JSON: " +s err))
  | Ok req =>
      _ ← perform (Metric MRequests);
      if determineRoutingTarget req then processRequestWithFallback req else processGatewayRequest req
  end.

Definition processStdinMessage (data : string) : P (option string) :=
  match Unmarshal_request data with
  | Err err => mret (Some ("invalid JSON: " +s err))
  | Ok req =>
      limited ← perform RateWait;
      match limited with
      | Some err => _ ← perform (Metric MErrors); mret (Some ("rate limit exceeded: " +s err))
      | None =>
          s ← perform ConnState;
          if bool_decide (s = StateConnected) then processStdinMessageDirect data
          else
            now ← perform Now;
            q ← perform (QEnqueue data now);
            match q with
            | Err size => _ ← perform (Metric MErrors); mret (Some ("failed to queue request: request queue full (size: " +s pretty size +s ")"))
            | Ok (ctx, ch) =>
                r ← perform (QWait ctx ch);
                match r with
                | QueueResult None => _ ← perform (QCancel ctx); mret None
                | QueueResult (Some err) => _ ← perform (Metric MErrors); _ ← perform (QCancel ctx); mret (Some err)
                | QueueTimeout => _ ← perform (Metric MErrors); _ ← perform (QCancel ctx); mret (Some "request timeout while queued"%string)
                end
            end
      end
  end.

(** The initialisation message, processed as if it came from stdin. *)
Definition MCPProtocolVersion : string := "1.0".
Definition InitializationRequestID : string := "init-1".
Definition initialization : Request :=
  {| req_JSONRPC := "2.0"; Method := "initialize"; req_ID := JString InitializationRequestID;
     ReqParams := JObject [("protocolVersion", JString MCPProtocolVersion);
       ("capabilities", JObject [("tools", JBool true); ("resources", JBool true); ("prompts", JBool true)]);
       ("clientInfo", JObject [("name", JString "mcp-local-router"); ("version", JString "1.0.0")])] |}.
Definition SendInitialization : P (option string) :=
  match Marshal_request initialization with Err err => mret (Some err) | Ok data => processStdinMessage data end.

(** ** The goroutines *)

(** One turn of [handleStdinToWS]. *)
Definition handleStdinToWS : P next :=
  d ← perform ReadStdin;
  match d with
  | Stopped => mret Exit
  | Line data =>
      e ← processStdinMessage data;
      match e with
      | None => mret (Again LStdin)
      | Some err => _ ← sendErrorResponse (Unmarshal_id data) err; mret (Again LStdin)
      end
  end.

Fixpoint answer_queued (requests : list QueuedRequest) : P unit :=
  match requests with
  | [] => mret tt
  | qr :: requests =>
      ended ← perform (QCtxErr (Context qr));
      _ ← (if (ended : bool) then perform (QSend (RequestQueue.Response qr) (Some "request context canceled"%string))
           else e ← processStdinMessageDirect (RequestQueue.Data qr); perform (QTrySend (RequestQueue.Response qr) e));
      _ ← perform (QClose (RequestQueue.Response qr));
      answer_queued requests
  end.

Definition processQueuedRequests : P unit :=
  requests ← perform QDequeueAll;
  answer_queued requests.

Definition handleConnectionStateChanges (lastState : ConnectionState) : P next :=
  n ← perform Notification;
  match n with
  | NotifyDone => _ ← perform (QClear (Some "router shutting down"%string)); mret Exit
  | NotifyClosed => mret Exit
  | Notified newState =>
      _ ← (if negb (bool_decide (lastState = StateConnected)) && bool_decide (newState = StateConnected)
           then processQueuedRequests else mret tt);
      mret (Again (LState newState))
  end.

Definition handleConnectionLoss : P unit :=
  _ ← perform (SetState StateReconnecting);
  _ ← perform Sleep;
  mret tt.

Definition handleWSReceiveError : P unit :=
  d ← perform Done;
  if (d : bool) then mret tt
  else
    c ← perform GwIsConnected;
    if negb c then handleConnectionLoss else _ ← perform Sleep; mret tt.

Definition processWSMessage : P unit :=
  r ← perform GwReceive;
  match r with
  | ReceiveError _ => handleWSReceiveError
  | Received None => mret tt
  | Received (Some resp) => routeResponse resp
  end.

(** One turn of [handleWSToStdout], with [isConnectionReady]. *)
Definition handleWSToStdout : P next :=
  d ← perform Done;
  if (d : bool) then mret Exit
  else
    s ← perform ConnState;
    if bool_decide (s = StateConnected) then _ ← processWSMessage; mret (Again LSocket)
    else _ ← perform Sleep; mret (Again LSocket).

(** *** The connection manager *)

Definition keepaliveInterval : Z := 30 * Second.

Definition handleConnection : label := if keepaliveInterval <=? 0 then LAliveNoPing else LAlive.

(** One turn of [maintainConnection]. *)
Definition maintainConnection (backoff attempts : Z) : P next :=
  d ← perform ConnDone;
  if (d : bool) then _ ← perform (SetState StateShutdown); mret Exit
  else
    _ ← perform (SetState StateConnecting);
    e ← perform Connect;
    match e with
    | Some _ =>
        _ ← perform (SetState StateError);
        _ ← perform AddRetry;
        if maxAttempts <=? attempts then mret Exit
        else _ ← perform Sleep; mret (Again (LConn (next_backoff out_of_range backoff) (attempts + 1)))
    | None =>
        _ ← perform (SetState StateConnected);
        mret (Again handleConnection)
    end.

Definition shouldStopKeepalive : P bool :=
  s ← perform ConnState;
  if negb (bool_decide (s = StateConnected)) then mret true
  else
    e ← perform Ping;
    match e with
    | Some _ => _ ← perform (SetState StateReconnecting); mret true
    | None => mret false
    end.

(** The backoff and the attempts have been reset when the connection ends. *)
Definition reconnect : next := Again (LConn initialBackoff 0).

Definition handleConnectionWithKeepalive : P next :=
  t ← perform Tick;
  match t with
  | TickDone => mret reconnect
  | TickPing => stop ← shouldStopKeepalive; mret (if (stop : bool) then reconnect else Again LAlive)
  | TickCheck => s ← perform ConnState; mret (if bool_decide (s = StateReconnecting) then reconnect else Again LAlive)
  end.

Definition handleConnectionWithoutKeepalive : P next :=
  t ← perform Tick;
  match t with
  | TickDone => mret reconnect
  | _ => s ← perform ConnState; mret (if bool_decide (s = StateReconnecting) then reconnect else Again LAliveNoPing)
  end.

(** *** Shutdown *)

(** The callback of Range is given a key with the channel it has then; what is closed is that channel, also when the key
    has been given to another one before it is removed. *)
Fixpoint collect_channels (keys : list key) : P (list nat) :=
  match keys with
  | [] => mret []
  | k :: keys =>
      v ← perform (Load (unhash k));
      match v with
      | None => collect_channels keys
      | Some ch =>
          r ← perform (LoadAndDelete (unhash k));
          rest ← collect_channels keys;
          mret (if (r : option nat) then ch :: rest else rest)
      end
  end.

Fixpoint close_channels (chs : list nat) : P unit :=
  match chs with [] => mret tt | ch :: chs => _ ← perform (Close ch); close_channels chs end.

(** The stops of the two components. *)
Definition connMgr_Stop : P unit := _ ← perform CancelConn; perform CloseConn.
Definition Stop : P unit :=
  _ ← perform CancelRouter;
  keys ← perform Range;
  chs ← collect_channels keys;
  close_channels chs.

(** [LocalRouter.Run] after its start. *)
Definition run_until_shutdown : P next :=
  _ ← perform AwaitShutdown;
  _ ← connMgr_Stop;
  _ ← Stop;
  mret Exit.

Definition body (l : label) : P next :=
  match l with
  | LStdin => handleStdinToWS
  | LSocket => handleWSToStdout
  | LState last => handleConnectionStateChanges last
  | LConn backoff attempts => maintainConnection backoff attempts
  | LAlive => handleConnectionWithKeepalive
  | LAliveNoPing => handleConnectionWithoutKeepalive
  end.

(** The router when [Run] has started its goroutines. *)
Definition initial_state : State :=
  {| rchans := ∅; next_rchan := 0; pendingReqs := ∅; requestQueue := NewRequestQueue MaxQueuedRequests;
     qchans := {| chans := ∅; next_chan := 0 |}; next_ctx := 0; ended := ∅; connMgr := NewConnectionManager;
     metricsCol := NewMetricsCollector; received := []; direct_replies := []; stdout := []; cancelled := false |}.

Definition start : world cmd State label :=
  {| st := initial_state; panicked := false;
     tasks := list_to_map (zip (seq 0 5)
       [body LStdin; body LSocket; body (LState StateInit); body (LConn initialBackoff 0); run_until_shutdown]) |}.

End Router.
End MsgRouter.
