(* ===== verification/MessageRouterTheorems.v ===== *)
(** * Theorems about the message loop

    The ownership discipline of the response channels under every interleaving of the router's goroutines,
    what can appear on stdout, and what one message leads to. *)
From S2P Require Import Prelude GoStrings RequestQueue Mcp Goroutines ConnManager Adaptive MessageRouter.
#[local] Open Scope Z_scope.

Module MsgRouterTheorems.
Import Conn MsgRouter.

(** ** What a goroutine owns and knows *)

(** [own]: channels only it may use (with the key they were stored under, if any); [rd]: channels it may
    receive from; [qown]: channels of queued requests it must answer; [known]: messages read from stdin;
    [replies]: answers of direct clients; [stopping]: it has cancelled the router's context. *)
Record env := mkEnv {
  own : gmap nat (option key); rd : gmap nat key; qown : gset nat; known : list string; replies : list (option Response);
  stopping : bool }.

Definition nothing : env := mkEnv ∅ ∅ ∅ [] [] false.

Lemma hash_inj id k : hash id = Some k -> id = unhash k.
Proof. destruct id; cbn; by intros [= <-]. Qed.

Section Typing.
Context `{JSON} `{Adaptive.LowerCase}.
Variable config : Config.
Variable MaxQueuedRequests : Z.
Variable directManager : bool.
Variable Unmarshal_request : string -> result string Request.
Variable Unmarshal_id : string -> jvalue.
Variable duration_text : Z -> string.
Variable out_of_range : GoFloat.float -> Z.

(** Both decoders read the same field. *)
Hypothesis ids_agree : forall data req, Unmarshal_request data = Ok req -> Unmarshal_id data = req_ID req.

(** *** The discipline *)

Definition answers (data : string) (rs : list (option Response)) (msgs : list string) : Prop :=
  data = "null"%string \/
  exists r, Marshal_response r = Ok data /\ ((exists m, m ∈ msgs /\ Unmarshal_id m = resp_ID r) \/ Some r ∈ rs).

Definition pre (X : Type) (c : cmd X) (e : env) : Prop :=
  match c with
  | Store _ ch => own e !! ch = Some None
  | Send ch resp => exists k, own e !! ch = Some (Some k) /\ hash (resp_ID resp) = Some k
  | Close ch => is_Some (own e !! ch) \/ (stopping e = true /\ is_Some (rd e !! ch))
  | Wait ch => is_Some (rd e !! ch)
  | QSend ch _ | QTrySend ch _ | QClose ch => ch ∈ qown e
  | QEnqueue data _ => data ∈ known e
  | Out _ data => answers data (replies e) (known e)
  | _ => True
  end.

Definition valid (X : Type) (c : cmd X) : X -> env -> Prop :=
  match c in cmd X return X -> env -> Prop with
  | Store id _ => fun _ _ => is_Some (hash id)
  | LoadAndDelete id => fun x e => is_Some (hash id) /\ match x with Some ch => own e !! ch = None | None => True end
  | QDequeueAll => fun l _ => NoDup (map RequestQueue.Response l)
  | Wait ch => fun x e => match x with Answered (Some r) => hash (resp_ID r) = rd e !! ch | _ => True end
  | _ => fun _ _ => True
  end.

Definition post (X : Type) (c : cmd X) : X -> env -> env :=
  match c in cmd X return X -> env -> env with
  | ReadStdin => fun x e => match x with Line d => mkEnv (own e) (rd e) (qown e) (d :: known e) (replies e) (stopping e) | Stopped => e end
  | MakeChan => fun x e => mkEnv (<[x := None]> (own e)) (rd e) (qown e) (known e) (replies e) (stopping e)
  | Store id ch => fun _ e =>
      match hash id with
      | Some k => mkEnv (delete ch (own e)) (<[ch := k]> (rd e)) (qown e) (known e) (replies e) (stopping e)
      | None => e
      end
  | Load id => fun x e =>
      match x, hash id with
      | Some ch, Some k => mkEnv (own e) (<[ch := k]> (rd e)) (qown e) (known e) (replies e) (stopping e)
      | _, _ => e
      end
  | LoadAndDelete id => fun x e =>
      match x with Some ch => mkEnv (<[ch := hash id]> (own e)) (rd e) (qown e) (known e) (replies e) (stopping e) | None => e end
  | Close ch => fun _ e => mkEnv (delete ch (own e)) (rd e) (qown e) (known e) (replies e) (stopping e)
  | QDequeueAll => fun l e =>
      mkEnv (own e) (rd e) (list_to_set (map RequestQueue.Response l) ∪ qown e) (map RequestQueue.Data l ++ known e) (replies e) (stopping e)
  | QClose ch => fun _ e => mkEnv (own e) (rd e) (qown e ∖ {[ch]}) (known e) (replies e) (stopping e)
  | ClientSend _ _ => fun x e =>
      match x with Ok r => mkEnv (own e) (rd e) (qown e) (known e) (r :: replies e) (stopping e) | Err _ => e end
  | CancelRouter => fun _ e => mkEnv (own e) (rd e) (qown e) (known e) (replies e) true
  | _ => fun _ e => e
  end.

Definition child_env (e : env) : env := mkEnv ∅ (rd e) ∅ (known e) [] false.
(** A started goroutine gets a part of what its starter knows; the starter keeps all. *)
Definition split (e ec e1 : env) : Prop := ec = child_env e /\ e1 = e.
Definition exit_ok (e : env) : Prop := True.
Definition label_env (l : label) (e e2 : env) : Prop := e2 = nothing.

(** The panics that are not excluded: an id without a hash, and, as the invariant says when, response channels. *)
Definition crash (X : Type) (c : cmd X) : bool :=
  match c with Store id _ | LoadAndDelete id => bool_decide (hash id = None) | Send _ _ | Close _ => true | _ => false end.

(** *** The invariant *)

Definition open_empty : rchan := {| buffer := []; closed := false |}.

(** The shutdown closes channels that goroutines may still use: [stop] says that it has begun. *)
Definition live (stop : bool) (c : rchan) : Prop := stop = false -> closed c = false.

(** Response channels: the ghost [G] gives the key each was stored under. *)
Record chans_inv (stop : bool) (R : gmap nat rchan) (n : nat) (Pd : gmap key nat) (es : gmap nat env) (G : gmap nat key) : Prop := {
  ci_fresh ch : (n <= ch)%nat -> R !! ch = None /\ G !! ch = None;
  ci_pending k ch : Pd !! k = Some ch -> (exists c, R !! ch = Some c /\ buffer c = [] /\ live stop c) /\ G !! ch = Some k;
  ci_own t e ch o : es !! t = Some e -> own e !! ch = Some o ->
    (exists c, R !! ch = Some c /\ live stop c) /\ G !! ch = o /\ (forall k, Pd !! k <> Some ch) /\
    (o = None -> R !! ch = Some open_empty);
  ci_disjoint t t' e e' ch : es !! t = Some e -> es !! t' = Some e' -> is_Some (own e !! ch) -> is_Some (own e' !! ch) -> t = t';
  ci_rd t e ch k : es !! t = Some e -> rd e !! ch = Some k -> G !! ch = Some k;
  ci_buffer ch c r : R !! ch = Some c -> r ∈ buffer c -> hash (resp_ID r) = G !! ch /\ is_Some (G !! ch);
  ci_stop t e : es !! t = Some e -> stopping e = true -> stop = true;
}.

(** The queue and the channels of the requests taken from it. *)
Record queued_inv (rq : RequestQueue) (w : Channels) (inp : list string) (es : gmap nat env) : Prop := {
  qv_queue : queue_inv rq w;
  qv_own t e ch : es !! t = Some e -> ch ∈ qown e ->
    (exists c, chans w !! ch = Some c /\ chan_closed c = false) /\ ch ∉ map RequestQueue.Response (queue rq);
  qv_disjoint t t' e e' ch : es !! t = Some e -> es !! t' = Some e' -> ch ∈ qown e -> ch ∈ qown e' -> t = t';
  qv_data qr : qr ∈ queue rq -> RequestQueue.Data qr ∈ inp;
}.

(** What goroutines know, and what is on stdout. *)
Record doc_inv (inp : list string) (rs : list (option Response)) (out : list string) (es : gmap nat env) : Prop := {
  di_known t e d : es !! t = Some e -> d ∈ known e -> d ∈ inp;
  di_replies t e r : es !! t = Some e -> r ∈ replies e -> r ∈ rs;
  di_stdout d : d ∈ out -> answers d rs inp;
}.

Definition Inv (s : State) (es : gmap nat env) : Prop :=
  (exists G, chans_inv (cancelled s) (rchans s) (next_rchan s) (pendingReqs s) es G) /\
  queued_inv (requestQueue s) (qchans s) (received s) es /\
  doc_inv (received s) (direct_replies s) (stdout s) es.

(** *** Changing what one goroutine has *)

Lemma lookup_env (es : gmap nat env) t e' u e :
  <[t := e']> es !! u = Some e -> (u = t /\ e = e') \/ (u <> t /\ es !! u = Some e).
Proof. rewrite lookup_insert_Some. naive_solver. Qed.

Lemma chans_weaken stop R n Pd es G t e' :
  chans_inv stop R n Pd es G -> (stopping e' = true -> stop = true) -> (forall e, es !! t = Some e -> own e' ⊆ own e /\ rd e' ⊆ rd e) -> (is_Some (es !! t) \/ own e' = ∅ /\ (forall ch k, rd e' !! ch = Some k -> G !! ch = Some k)) ->
  chans_inv stop R n Pd (<[t := e']> es) G.
Proof.
  intros Hc Hst Hsub Hnew.
  assert (forall ch o, own e' !! ch = Some o -> exists e, es !! t = Some e /\ own e !! ch = Some o) as Hown.
  { intros ch o Ho. destruct Hnew as [[e He]|[Hn _]]; [|by rewrite Hn in Ho].
    exists e. split; [done|]. by eapply lookup_weaken; [|apply (Hsub e He)]. }
  split; try apply Hc.
  - intros u e ch o [[-> ->]|[Hu He]]%lookup_env Ho; [|by eapply ci_own].
    destruct (Hown _ _ Ho) as (e & He & Ho'). by eapply ci_own.
  - intros u u' e1 e2 ch [[-> ->]|[Hu He]]%lookup_env [[-> ->]|[Hu' He']]%lookup_env [o1 H1] [o2 H2]; try done.
    + destruct (Hown _ _ H1) as (e & He & Ho). by eapply (ci_disjoint _ _ _ _ _ _ Hc).
    + destruct (Hown _ _ H2) as (e & He' & Ho). by eapply (ci_disjoint _ _ _ _ _ _ Hc).
    + by eapply (ci_disjoint _ _ _ _ _ _ Hc).
  - intros u e ch k [[-> ->]|[Hu He]]%lookup_env Hr; [|by eapply ci_rd].
    destruct Hnew as [[e He]|[_ Hn]]; [|by apply Hn].
    eapply (ci_rd _ _ _ _ _ _ Hc t e); [done|]. by eapply lookup_weaken; [|apply (Hsub e He)].
  - intros u e [[-> ->]|[Hu He]]%lookup_env; [done|by eapply ci_stop].
Qed.

Lemma queued_weaken rq w inp es t e' :
  queued_inv rq w inp es -> (qown e' = ∅ \/ exists e, es !! t = Some e /\ qown e' ⊆ qown e) -> queued_inv rq w inp (<[t := e']> es).
Proof.
  intros Hq Hs.
  assert (forall ch, ch ∈ qown e' -> exists e, es !! t = Some e /\ ch ∈ qown e) as Hown.
  { intros ch Hch. destruct Hs as [Hs|(e & He & Hs)]; [by rewrite Hs in Hch|]. exists e. set_solver. }
  split; try apply Hq.
  - intros u e ch [[-> ->]|[Hu He]]%lookup_env Ho; [|by eapply qv_own].
    destruct (Hown _ Ho) as (e & He & Ho'). by eapply qv_own.
  - intros u u' e1 e2 ch [[-> ->]|[Hu He]]%lookup_env [[-> ->]|[Hu' He']]%lookup_env H1 H2; try done.
    + destruct (Hown _ H1) as (e & He & Ho). by eapply (qv_disjoint _ _ _ _ Hq).
    + destruct (Hown _ H2) as (e & He' & Ho). by eapply (qv_disjoint _ _ _ _ Hq).
    + by eapply (qv_disjoint _ _ _ _ Hq).
Qed.

Lemma doc_weaken inp rs out es t e' :
  doc_inv inp rs out es -> (forall d, d ∈ known e' -> d ∈ inp) -> (forall r, r ∈ replies e' -> r ∈ rs) ->
  doc_inv inp rs out (<[t := e']> es).
Proof.
  intros Hd Hk Hr. split; try apply Hd.
  - intros u e d [[-> ->]|[Hu He]]%lookup_env; [apply Hk|by eapply di_known].
  - intros u e r [[-> ->]|[Hu He]]%lookup_env; [apply Hr|by eapply di_replies].
Qed.

(** *** Response channels *)

(** Goroutine [t] has [o] on channel [ch] besides what it had. *)
Definition give (ch : nat) (o : option key) (e : env) : env := mkEnv (<[ch := o]> (own e)) (rd e) (qown e) (known e) (replies e) (stopping e).
Definition drop (ch : nat) (e : env) : env := mkEnv (delete ch (own e)) (rd e) (qown e) (known e) (replies e) (stopping e).

Lemma chans_lt stop R n Pd es G ch : chans_inv stop R n Pd es G -> is_Some (R !! ch) \/ is_Some (G !! ch) -> (ch < n)%nat.
Proof.
  intros Hc Hs. apply not_le. intros Hn. destruct (ci_fresh _ _ _ _ _ _ Hc ch Hn) as [E1 E2].
  destruct Hs as [[x Hx]|[x Hx]]; congruence.
Qed.

Lemma chans_update stop R n Pd es G ch c' :
  chans_inv stop R n Pd es G -> (ch < n)%nat -> (forall k, Pd !! k = Some ch -> buffer c' = [] /\ live stop c') ->
  (forall t e o, es !! t = Some e -> own e !! ch = Some o -> live stop c' /\ o <> None) ->
  (forall r, r ∈ buffer c' -> hash (resp_ID r) = G !! ch /\ is_Some (G !! ch)) ->
  chans_inv stop (<[ch := c']> R) n Pd es G.
Proof.
  intros Hc Hch Hp Ho Hb. split; try apply Hc.
  - intros ch' Hn. rewrite lookup_insert_ne by lia. by apply Hc.
  - intros k ch' Hk. destruct (ci_pending _ _ _ _ _ _ Hc k ch' Hk) as [He HG]. split; [|done].
    destruct (decide (ch' = ch)) as [->|Hne]; [rewrite lookup_insert_eq; eexists; split; [done|by apply (Hp k)]|].
    by rewrite lookup_insert_ne.
  - intros t e ch' o He Hoo. destruct (ci_own _ _ _ _ _ _ Hc t e ch' o He Hoo) as (H1 & H2 & H3 & H4).
    destruct (decide (ch' = ch)) as [->|Hne].
    + destruct (Ho t e o He Hoo) as [Hcl Hno]. rewrite lookup_insert_eq. split_and!; eauto. done.
    + rewrite lookup_insert_ne by done. done.
  - intros ch' c2 r Hl Hr. apply lookup_insert_Some in Hl as [[<- <-]|[Hne Hl]]; [by apply Hb|by eapply ci_buffer].
Qed.

(** An owner's channel is owned by no other goroutine. *)
Lemma sole_owner stop R n Pd es G t e ch u e' o :
  chans_inv stop R n Pd es G -> es !! t = Some e -> is_Some (own e !! ch) -> es !! u = Some e' -> own e' !! ch = Some o -> u = t /\ e' = e.
Proof.
  intros Hc He Ho Hu Ho'. assert (u = t) as -> by (eapply (ci_disjoint _ _ _ _ _ _ Hc); by eauto). split; [done|congruence].
Qed.

Lemma chans_make stop R n Pd es G t e :
  chans_inv stop R n Pd es G -> es !! t = Some e ->
  chans_inv stop (<[n := open_empty]> R) (S n) Pd (<[t := give n None e]> es) G.
Proof.
  intros Hc He. destruct (ci_fresh _ _ _ _ _ _ Hc n) as [HR HG]; [lia|].
  assert (forall u e' o, es !! u = Some e' -> own e' !! n = Some o -> False) as Hno.
  { intros u e' o Hu Ho. destruct (ci_own _ _ _ _ _ _ Hc u e' n o Hu Ho) as [[c [Hcc _]] _]. congruence. }
  split.
  - intros ch Hn. rewrite lookup_insert_ne by lia. apply Hc. lia.
  - intros k ch Hk. destruct (ci_pending _ _ _ _ _ _ Hc k ch Hk) as [H1 H2]. rewrite lookup_insert_ne; [done|]. intros <-. congruence.
  - intros u e' ch o [[-> ->]|[Hu He']]%lookup_env Ho; cbn in Ho.
    + apply lookup_insert_Some in Ho as [[<- <-]|[Hne Ho]].
      * rewrite lookup_insert_eq. split_and!; [by eexists|done| |done]. intros k Hk.
        destruct (ci_pending _ _ _ _ _ _ Hc k n Hk). congruence.
      * rewrite lookup_insert_ne by done. by eapply (ci_own _ _ _ _ _ _ Hc t e).
    + rewrite lookup_insert_ne; [by eapply (ci_own _ _ _ _ _ _ Hc u e')|]. intros <-. by eapply (Hno u e').
  - intros u u' e1 e2 ch [[-> ->]|[Hu He1]]%lookup_env [[-> ->]|[Hu' He2]]%lookup_env [o1 H1] [o2 H2]; try done; cbn in *.
    + apply lookup_insert_Some in H1 as [[<- _]|[_ H1]]; [exfalso; by eapply (Hno u' e2)|].
      by eapply (ci_disjoint _ _ _ _ _ _ Hc).
    + apply lookup_insert_Some in H2 as [[<- _]|[_ H2]]; [exfalso; by eapply (Hno u e1)|].
      by eapply (ci_disjoint _ _ _ _ _ _ Hc).
    + by eapply (ci_disjoint _ _ _ _ _ _ Hc).
  - intros u e' ch k [[-> ->]|[Hu He']]%lookup_env Hr; by eapply (ci_rd _ _ _ _ _ _ Hc).
  - intros ch c r Hl Hr. apply lookup_insert_Some in Hl as [[<- <-]|[Hne Hl]]; [set_solver|by eapply ci_buffer].
  - intros u e' [[-> ->]|[Hu He']]%lookup_env Hst; by eapply (ci_stop _ _ _ _ _ _ Hc).
Qed.

Lemma chans_store stop R n Pd es G t e ch k :
  chans_inv stop R n Pd es G -> es !! t = Some e -> own e !! ch = Some None ->
  chans_inv stop R n (<[k := ch]> Pd)
    (<[t := mkEnv (delete ch (own e)) (<[ch := k]> (rd e)) (qown e) (known e) (replies e) (stopping e)]> es) (<[ch := k]> G).
Proof.
  intros Hc He Ho. destruct (ci_own _ _ _ _ _ _ Hc t e ch None He Ho) as (_ & HG & Hnp & Hoe). specialize (Hoe eq_refl).
  assert (ch < n)%nat as Hlt.
  { apply not_le. intros Hn. destruct (ci_fresh _ _ _ _ _ _ Hc ch Hn). unfold open_empty in *. congruence. }
  assert (forall u e' ch' o, <[t := mkEnv (delete ch (own e)) (<[ch := k]> (rd e)) (qown e) (known e) (replies e) (stopping e)]> es !! u = Some e' ->
    own e' !! ch' = Some o -> ch' <> ch /\ exists e2, es !! u = Some e2 /\ own e2 !! ch' = Some o) as Hown.
  { intros u e' ch' o [[-> ->]|[Hu He']]%lookup_env Ho'; cbn in Ho'.
    - apply lookup_delete_Some in Ho' as [Hne Ho']. eauto.
    - split; [|eauto]. intros ->. apply Hu. by eapply (ci_disjoint _ _ _ _ _ _ Hc). }
  split.
  - intros ch' Hn. rewrite lookup_insert_ne by lia. by apply Hc.
  - intros k' ch' [[-> ->]|[Hne Hk]]%lookup_insert_Some; [rewrite lookup_insert_eq; split; [by exists open_empty|done]|].
    rewrite lookup_insert_ne by (intros ->; by apply (Hnp k')). by apply Hc.
  - intros u e' ch' o Hu Ho'. destruct (Hown u e' ch' o Hu Ho') as (Hne & e2 & He2 & Ho2).
    destruct (ci_own _ _ _ _ _ _ Hc u e2 ch' o He2 Ho2) as (H1 & H2 & H3 & H4). rewrite lookup_insert_ne by done.
    split_and!; try done. intros k' [[-> ->]|[_ Hk]]%lookup_insert_Some; [done|by eapply H3].
  - intros u u' e1 e2 ch' Hu Hu' [o1 H1] [o2 H2].
    destruct (Hown u e1 ch' o1 Hu H1) as (_ & e1' & He1 & Ho1), (Hown u' e2 ch' o2 Hu' H2) as (_ & e2' & He2 & Ho2).
    by eapply (ci_disjoint _ _ _ _ _ _ Hc).
  - intros u e' ch' k' [[-> ->]|[Hu He']]%lookup_env Hr; cbn in Hr.
    + apply lookup_insert_Some in Hr as [[<- <-]|[Hne Hr]]; [by rewrite lookup_insert_eq|].
      rewrite lookup_insert_ne by done. by eapply (ci_rd _ _ _ _ _ _ Hc).
    + pose proof (ci_rd _ _ _ _ _ _ Hc u e' ch' k' He' Hr) as Hg. rewrite lookup_insert_ne; [done|]. intros ->. congruence.
  - intros ch' c r Hl Hr. destruct (decide (ch' = ch)) as [->|Hne].
    + rewrite Hoe in Hl. injection Hl as <-. by apply not_elem_of_nil in Hr.
    + rewrite lookup_insert_ne by done. by eapply (ci_buffer _ _ _ _ _ _ Hc).
  - intros u e' [[-> ->]|[Hu He']]%lookup_env Hst; by eapply (ci_stop _ _ _ _ _ _ Hc).
Qed.

Lemma chans_load stop R n Pd es G t e ch k :
  chans_inv stop R n Pd es G -> es !! t = Some e -> Pd !! k = Some ch ->
  chans_inv stop R n (delete k Pd) (<[t := give ch (Some k) e]> es) G.
Proof.
  intros Hc He Hk. destruct (ci_pending _ _ _ _ _ _ Hc k ch Hk) as [(c & HR & HB & HL) HG].
  assert (forall u e' o, es !! u = Some e' -> own e' !! ch = Some o -> False) as Hno.
  { intros u e' o Hu Ho. destruct (ci_own _ _ _ _ _ _ Hc u e' ch o Hu Ho) as (_ & _ & Hp & _). by apply (Hp k). }
  split; try apply Hc.
  - intros k' ch' [_ Hk']%lookup_delete_Some. by apply Hc.
  - intros u e' ch' o [[-> ->]|[Hu He']]%lookup_env Ho; cbn in Ho.
    + apply lookup_insert_Some in Ho as [[<- <-]|[Hne Ho]].
      * split_and!; [by eauto|done| |done]. intros k' [Hne Hk']%lookup_delete_Some.
        destruct (ci_pending _ _ _ _ _ _ Hc k' ch Hk'). congruence.
      * destruct (ci_own _ _ _ _ _ _ Hc t e ch' o He Ho) as (H1 & H2 & H3 & H4). split_and!; try done.
        intros k' [_ Hk']%lookup_delete_Some. by eapply H3.
    + destruct (ci_own _ _ _ _ _ _ Hc u e' ch' o He' Ho) as (H1 & H2 & H3 & H4). split_and!; try done.
      intros k' [_ Hk']%lookup_delete_Some. by eapply H3.
  - intros u u' e1 e2 ch' [[-> ->]|[Hu He1]]%lookup_env [[-> ->]|[Hu' He2]]%lookup_env [o1 H1] [o2 H2]; try done; cbn in *.
    + apply lookup_insert_Some in H1 as [[<- _]|[_ H1]]; [exfalso; by eapply (Hno u' e2)|].
      by eapply (ci_disjoint _ _ _ _ _ _ Hc).
    + apply lookup_insert_Some in H2 as [[<- _]|[_ H2]]; [exfalso; by eapply (Hno u e1)|].
      by eapply (ci_disjoint _ _ _ _ _ _ Hc).
    + by eapply (ci_disjoint _ _ _ _ _ _ Hc).
  - intros u e' ch' k' [[-> ->]|[Hu He']]%lookup_env Hr; by eapply (ci_rd _ _ _ _ _ _ Hc).
  - intros u e' [[-> ->]|[Hu He']]%lookup_env Hst; by eapply (ci_stop _ _ _ _ _ _ Hc).
Qed.

(** The shutdown learns the channel of a key. *)
Definition learn (ch : nat) (k : key) (e : env) : env :=
  mkEnv (own e) (<[ch := k]> (rd e)) (qown e) (known e) (replies e) (stopping e).

Lemma chans_learn stop R n Pd es G t e ch k :
  chans_inv stop R n Pd es G -> es !! t = Some e -> Pd !! k = Some ch -> chans_inv stop R n Pd (<[t := learn ch k e]> es) G.
Proof.
  intros Hc He Hk. destruct (ci_pending _ _ _ _ _ _ Hc k ch Hk) as [_ HG]. split; try apply Hc.
  - intros u e' ch' o [[-> ->]|[Hu He']]%lookup_env Ho; by eapply (ci_own _ _ _ _ _ _ Hc).
  - intros u u' e1 e2 ch' [[-> ->]|[Hu He1]]%lookup_env [[-> ->]|[Hu' He2]]%lookup_env H1 H2; by eapply (ci_disjoint _ _ _ _ _ _ Hc).
  - intros u e' ch' k' [[-> ->]|[Hu He']]%lookup_env Hr; [|by eapply (ci_rd _ _ _ _ _ _ Hc)].
    cbn in Hr; apply lookup_insert_Some in Hr as [[<- <-]|[_ Hr]]; [done|by eapply (ci_rd _ _ _ _ _ _ Hc)].
  - intros u e' [[-> ->]|[Hu He']]%lookup_env Hst; by eapply (ci_stop _ _ _ _ _ _ Hc).
Qed.

Lemma chans_stop stop R n Pd es G t e :
  chans_inv stop R n Pd es G -> es !! t = Some e ->
  chans_inv true R n Pd (<[t := mkEnv (own e) (rd e) (qown e) (known e) (replies e) true]> es) G.
Proof.
  intros Hc He. apply chans_weaken; [|done| |left; by eexists].
  - split; try apply Hc.
    + intros k ch Hk. destruct (ci_pending _ _ _ _ _ _ Hc k ch Hk) as [(c & H1 & H2 & _) H3]. split; [by exists c|done].
    + intros u e' ch o Hu Ho. destruct (ci_own _ _ _ _ _ _ Hc u e' ch o Hu Ho) as ((c & H1 & _) & H2). split; [by exists c|done].
    + done.
  - intros e' He'. by replace e' with e by congruence.
Qed.

(** An owner closes its channel, or the shutdown one that it has read. *)
Lemma chans_close stop R n Pd es G t e ch :
  chans_inv stop R n Pd es G -> es !! t = Some e -> is_Some (own e !! ch) \/ (stop = true /\ is_Some (rd e !! ch)) ->
  chans_inv stop (<[ch := {| buffer := buffer (default {| buffer := []; closed := true |} (R !! ch)); closed := true |}]> R) n Pd
    (<[t := drop ch e]> es) G.
Proof.
  intros Hc He Ho.
  assert (chans_inv stop R n Pd (<[t := drop ch e]> es) G) as Hd.
  { apply chans_weaken; [done|by apply (ci_stop _ _ _ _ _ _ Hc t e)| |left; by eexists]. intros e' He'. replace e' with e by congruence.
    split; [apply delete_subseteq|done]. }
  apply chans_update; [done| | | |].
  - destruct Ho as [[o Ho]|[_ [k Hr]]]; eapply chans_lt; try done.
    + left. destruct (ci_own _ _ _ _ _ _ Hc t e ch o He Ho) as ((c & Hcc & _) & _). by eexists.
    + right. exists k. by apply (ci_rd _ _ _ _ _ _ Hc t e).
  - intros k Hk. destruct (ci_pending _ _ _ _ _ _ Hc k ch Hk) as [(c & -> & Hb & _) _]. cbn. split; [done|].
    destruct Ho as [[o Ho]|[-> _]]; [|done]. destruct (ci_own _ _ _ _ _ _ Hc t e ch o He Ho) as (_ & _ & Hnp & _). by destruct (Hnp k).
  - intros u e' o' [[-> ->]|[Hu He']]%lookup_env Ho'; cbn in Ho'; [by rewrite lookup_delete_eq in Ho'|].
    destruct Ho as [Ho|[-> [k Hr]]].
    + exfalso. apply Hu. by eapply (ci_disjoint _ _ _ _ _ _ Hc); eauto.
    + split; [done|]. intros ->. destruct (ci_own _ _ _ _ _ _ Hc u e' ch None He' Ho') as (_ & HG & _).
      rewrite (ci_rd _ _ _ _ _ _ Hc t e ch k He Hr) in HG. done.
  - destruct (R !! ch) as [c|] eqn:HR; cbn; [|by intros r ?%not_elem_of_nil]. intros r Hr. by eapply ci_buffer.
Qed.

Lemma chans_send stop R n Pd es G t e ch c k resp :
  chans_inv stop R n Pd es G -> es !! t = Some e -> own e !! ch = Some (Some k) -> hash (resp_ID resp) = Some k -> R !! ch = Some c ->
  closed c = false -> chans_inv stop (<[ch := {| buffer := [resp]; closed := false |}]> R) n Pd es G.
Proof.
  intros Hc He Ho Hh HR Hcl. destruct (ci_own _ _ _ _ _ _ Hc t e ch _ He Ho) as (_ & HG & Hnp & _).
  apply chans_update; try done.
  - eapply chans_lt; [done|]. left. by eexists.
  - intros k' Hk'. by destruct (Hnp k').
  - intros u e' o' Hu Ho'. destruct (sole_owner _ _ _ _ _ _ t e ch u e' o' Hc He) as [-> ->]; [by eexists|done|done|].
    split; [done|]. congruence.
  - intros r ->%list_elem_of_singleton. rewrite HG, Hh. by eauto.
Qed.

Lemma chans_receive stop R n Pd es G ch c r rest :
  chans_inv stop R n Pd es G -> R !! ch = Some c -> buffer c = r :: rest ->
  chans_inv stop (<[ch := {| buffer := rest; closed := closed c |}]> R) n Pd es G.
Proof.
  intros Hc HR Hb. apply chans_update; try done.
  - eapply chans_lt; [done|]. left. by eexists.
  - intros k Hk. destruct (ci_pending _ _ _ _ _ _ Hc k ch Hk) as [(c2 & Hc2 & Hb2 & _) _]. congruence.
  - intros u e o Hu Ho. destruct (ci_own _ _ _ _ _ _ Hc u e ch o Hu Ho) as ((c2 & Hc2 & Hcl) & _ & _ & Hn).
    assert (c2 = c) as -> by congruence. split; [done|]. intros ->. rewrite (Hn eq_refl) in HR. injection HR as <-. done.
  - cbn. intros r' Hr'. eapply (ci_buffer _ _ _ _ _ _ Hc); [done|]. rewrite Hb. by right.
Qed.

(** *** Channels of queued requests *)

Lemma queued_update rq w inp es ch c c' :
  queued_inv rq w inp es -> chans w !! ch = Some c -> ch ∉ map RequestQueue.Response (queue rq) ->
  (forall t e, es !! t = Some e -> ch ∈ qown e -> chan_closed c' = false) ->
  queued_inv rq {| chans := <[ch := c']> (chans w); next_chan := next_chan w |} inp es.
Proof.
  intros Hq Hch Hn Ho. destruct (qv_queue _ _ _ _ Hq) as [Hs Hp Hnd Hop Hfr]. split; try apply Hq.
  - split; try done; cbn.
    + intros qr Hqr. rewrite lookup_insert_ne; [by apply Hop|]. intros ->. apply Hn. by apply elem_of_responses.
    + intros c2 cc [[<- _]|[_ Hl]]%lookup_insert_Some; by eapply Hfr.
  - intros t e ch' He Hch'. destruct (qv_own _ _ _ _ Hq t e ch' He Hch') as [(c2 & Hc2 & Hcl) Hnin]. split; [|done]. cbn.
    destruct (decide (ch' = ch)) as [->|Hne]; [rewrite lookup_insert_eq; eexists; split; [done|by eapply Ho]|].
    rewrite lookup_insert_ne by done. eauto.
Qed.

Lemma queued_enqueue rq w inp es data ctx now :
  queued_inv rq w inp es -> data ∈ inp ->
  queued_inv (snd (fst (Enqueue data ctx now rq w))) (snd (Enqueue data ctx now rq w)) inp es.
Proof.
  intros Hq Hd. pose proof (Enqueue_inv data ctx now rq w (qv_queue _ _ _ _ Hq)) as Hi.
  unfold Enqueue in *. destruct (maxSize rq <=? zlen (queue rq)); cbn in *; [split; try apply Hq; done|].
  split; [done| |apply Hq|].
  - intros t e ch He Hch. destruct (qv_own _ _ _ _ Hq t e ch He Hch) as [(c & Hc & Hcl) Hn].
    pose proof (qi_fresh _ _ (qv_queue _ _ _ _ Hq) ch c Hc). cbn. rewrite lookup_insert_ne by lia. split; [eauto|].
    rewrite map_app. cbn. intros [?|Hin]%elem_of_app; [done|]. apply list_elem_of_singleton in Hin. lia.
  - cbn. intros qr [Hin| ->%list_elem_of_singleton]%elem_of_app; [by apply Hq|done].
Qed.

Lemma queued_dequeue rq w inp es t e :
  queued_inv rq w inp es -> es !! t = Some e ->
  queued_inv (snd (DequeueAll rq)) w inp
    (<[t := mkEnv (own e) (rd e) (list_to_set (map RequestQueue.Response (fst (DequeueAll rq))) ∪ qown e)
              (map RequestQueue.Data (fst (DequeueAll rq)) ++ known e) (replies e) (stopping e)]> es).
Proof.
  intros Hq He. unfold DequeueAll. destruct (Z.eqb_spec (zlen (queue rq)) 0) as [Hz|Hz].
  - cbn. apply queued_weaken; [done|]. right. exists e. split; [done|]. cbn. set_solver.
  - pose proof (qv_queue _ _ _ _ Hq) as Hi. cbn [fst snd].
    assert (forall ch, ch ∈ map RequestQueue.Response (queue rq) -> chans w !! ch = Some {| buffered := []; chan_closed := false |}) as Hop.
    { intros ch (qr & -> & Hqr)%list_elem_of_fmap_1. by apply Hi. }
    assert (forall u e' ch, es !! u = Some e' -> ch ∈ qown e' -> ch ∉ map RequestQueue.Response (queue rq)) as Hno.
    { intros u e' ch Hu Hch. apply (qv_own _ _ _ _ Hq u e' ch Hu Hch). }
    split; cbn.
    + by eapply drained_inv.
    + intros u e' ch [[-> ->]|[Hu He']]%lookup_env Hch; cbn in Hch; split; try (by apply not_elem_of_nil).
      * apply elem_of_union in Hch as [Hch|Hch]; [|by apply (qv_own _ _ _ _ Hq t e ch)].
        apply elem_of_list_to_set, Hop in Hch. eauto.
      * by apply (qv_own _ _ _ _ Hq u e' ch).
    + intros u u' e1 e2 ch [[-> ->]|[Hu He1]]%lookup_env [[-> ->]|[Hu' He2]]%lookup_env H1 H2; try done; cbn in *.
      * apply elem_of_union in H1 as [H1%elem_of_list_to_set|H1]; [exfalso; by eapply (Hno u')|by eapply (qv_disjoint _ _ _ _ Hq)].
      * apply elem_of_union in H2 as [H2%elem_of_list_to_set|H2]; [exfalso; by eapply (Hno u)|by eapply (qv_disjoint _ _ _ _ Hq)].
      * by eapply (qv_disjoint _ _ _ _ Hq).
    + intros qr Hqr. by apply not_elem_of_nil in Hqr.
Qed.

(** A send on an owned channel does not panic and leaves it open. *)
Lemma queued_try_send rq w inp es t e ch err w' :
  queued_inv rq w inp es -> es !! t = Some e -> ch ∈ qown e -> try_send ch err w = Some w' -> queued_inv rq w' inp es.
Proof.
  intros Hq He Hch. destruct (qv_own _ _ _ _ Hq t e ch He Hch) as [(c & Hc & Hcl) Hn]. unfold try_send. rewrite Hc, Hcl.
  destruct (_ <? _)%nat; intros [= <-]; [|done]. by apply queued_update with c.
Qed.

Lemma queued_close rq w inp es t e ch w' :
  queued_inv rq w inp es -> es !! t = Some e -> ch ∈ qown e -> close_chan ch w = Some w' ->
  queued_inv rq w' inp (<[t := mkEnv (own e) (rd e) (qown e ∖ {[ch]}) (known e) (replies e) (stopping e)]> es).
Proof.
  intros Hq He Hch. destruct (qv_own _ _ _ _ Hq t e ch He Hch) as [(c & Hc & Hcl) Hn]. unfold close_chan. rewrite Hc, Hcl.
  intros [= <-]. apply queued_update with c; [|done|done|].
  - apply queued_weaken; [done|]. right. exists e. split; [done|]. cbn. set_solver.
  - intros u e' [[-> ->]|[Hu He']]%lookup_env Hch'; cbn in *; [set_solver|].
    exfalso. apply Hu. by eapply (qv_disjoint _ _ _ _ Hq).
Qed.

Lemma queued_clear rq w inp es err rq' w' :
  queued_inv rq w inp es -> Clear err rq w = Some (rq', w') -> queued_inv rq' w' inp es.
Proof.
  intros Hq. pose proof (qv_queue _ _ _ _ Hq) as Hi. unfold Clear. destruct (zlen (queue rq) =? 0); [by intros [= <- <-]|].
  destruct (notify_all_ok err (queue rq) w) as (w2 & -> & Hn & Ha & Ho); [apply Hi..|]. cbn. intros [= <- <-]. split.
  - by eapply drained_inv.
  - intros t e ch He Hch. destruct (qv_own _ _ _ _ Hq t e ch He Hch) as [Hc Hnin]. rewrite (Ho ch Hnin). split; [done|].
    by apply not_elem_of_nil.
  - apply Hq.
  - cbn. intros qr Hqr. by apply not_elem_of_nil in Hqr.
Qed.

Lemma queued_receive rq w inp es ch c v rest :
  queued_inv rq w inp es -> chans w !! ch = Some c -> buffered c = v :: rest ->
  queued_inv rq {| chans := <[ch := {| buffered := rest; chan_closed := chan_closed c |}]> (chans w); next_chan := next_chan w |} inp es.
Proof.
  intros Hq Hc Hb. apply queued_update with c; try done.
  - intros (qr & -> & Hqr)%list_elem_of_fmap_1. rewrite (qi_open _ _ (qv_queue _ _ _ _ Hq) qr Hqr) in Hc. by injection Hc as <-.
  - cbn. intros t e He Hch. destruct (qv_own _ _ _ _ Hq t e ch He Hch) as [(c2 & Hc2 & Hcl) _]. congruence.
Qed.

(** *** Documents *)

Lemma answers_mono d rs rs' inp inp' :
  answers d rs inp -> (forall r, r ∈ rs -> r ∈ rs') -> (forall m, m ∈ inp -> m ∈ inp') -> answers d rs' inp'.
Proof. intros [?|(r & Hr & [(m & Hm & Hi)|Hin])] Hrs Hinp; [by left| |]; right; exists r; (split; [done|]); eauto. Qed.

Lemma doc_more inp rs out es inp' rs' :
  doc_inv inp rs out es -> (forall r, r ∈ rs -> r ∈ rs') -> (forall m, m ∈ inp -> m ∈ inp') -> doc_inv inp' rs' out es.
Proof.
  intros Hd Hrs Hinp. split.
  - intros t e d He Hk. by eapply Hinp, di_known.
  - intros t e r He Hk. by eapply Hrs, di_replies.
  - intros d Ho. eapply answers_mono; [by apply Hd|done|done].
Qed.

Lemma queued_more rq w inp inp' es : queued_inv rq w inp es -> (forall m, m ∈ inp -> m ∈ inp') -> queued_inv rq w inp' es.
Proof. intros Hq Hi. split; try apply Hq. intros qr Hqr. apply Hi. by apply Hq. Qed.

(** *** The rules *)

Lemma inv_same s s' es t e :
  Inv s es -> es !! t = Some e ->
  rchans s' = rchans s -> next_rchan s' = next_rchan s -> pendingReqs s' = pendingReqs s -> requestQueue s' = requestQueue s ->
  qchans s' = qchans s -> received s' = received s -> direct_replies s' = direct_replies s -> stdout s' = stdout s ->
  cancelled s' = cancelled s ->
  Inv s' (<[t := e]> es).
Proof. unfold Inv. intros Hi He -> -> -> -> -> -> -> -> ->. by rewrite (insert_id es t e). Qed.

(** The three parts for a command that touches only some of them. *)
Lemma inv_chans s s' es t e e' :
  Inv s es -> es !! t = Some e -> qown e' = qown e -> known e' = known e -> replies e' = replies e ->
  requestQueue s' = requestQueue s -> qchans s' = qchans s -> received s' = received s ->
  direct_replies s' = direct_replies s -> stdout s' = stdout s ->
  (forall G, chans_inv (cancelled s) (rchans s) (next_rchan s) (pendingReqs s) es G ->
     exists G', chans_inv (cancelled s') (rchans s') (next_rchan s') (pendingReqs s') (<[t := e']> es) G') ->
  Inv s' (<[t := e']> es).
Proof.
  intros ([G Hc] & Hq & Hd) He E1 E2 E3 E4 E5 E6 E7 E8 HG. unfold Inv. rewrite E4, E5, E6, E7, E8. split_and!.
  - by apply (HG G).
  - apply queued_weaken; [done|]. right. exists e. by rewrite E1.
  - apply doc_weaken; [done| |]; rewrite ?E2, ?E3; intros; by eapply Hd.
Qed.

Lemma inv_queue s s' es t e e' :
  Inv s es -> es !! t = Some e -> own e' = own e -> rd e' = rd e -> replies e' = replies e ->
  stopping e' = stopping e -> cancelled s' = cancelled s ->
  (forall d, d ∈ known e' -> d ∈ received s) ->
  rchans s' = rchans s -> next_rchan s' = next_rchan s -> pendingReqs s' = pendingReqs s ->
  received s' = received s -> direct_replies s' = direct_replies s -> stdout s' = stdout s ->
  queued_inv (requestQueue s') (qchans s') (received s) (<[t := e']> es) ->
  Inv s' (<[t := e']> es).
Proof.
  intros ([G Hc] & Hq & Hd) He E1 E2 E3 F1 F2 Hk E4 E5 E6 E7 E8 E9 HQ. unfold Inv. rewrite F2, E4, E5, E6, E7, E8, E9. split_and!; [|done|].
  - exists G. apply chans_weaken; [done|rewrite F1; by apply (ci_stop _ _ _ _ _ _ Hc t e)| |left; by eexists]. intros e2 He2. replace e2 with e by congruence. by rewrite E1, E2.
  - apply doc_weaken; [done|done|]. rewrite E3. intros; by eapply Hd.
Qed.

Lemma inv_docs s s' es t e e' :
  Inv s es -> es !! t = Some e -> own e' = own e -> rd e' = rd e -> qown e' = qown e ->
  stopping e' = stopping e -> cancelled s' = cancelled s ->
  rchans s' = rchans s -> next_rchan s' = next_rchan s -> pendingReqs s' = pendingReqs s ->
  requestQueue s' = requestQueue s -> qchans s' = qchans s ->
  (forall m, m ∈ received s -> m ∈ received s') ->
  doc_inv (received s') (direct_replies s') (stdout s') (<[t := e']> es) ->
  Inv s' (<[t := e']> es).
Proof.
  intros ([G Hc] & Hq & Hd) He E1 E2 E3 F1 F2 E4 E5 E6 E7 E8 Hm HD. unfold Inv. rewrite F2, E4, E5, E6, E7, E8. split_and!; [| |done].
  - exists G. apply chans_weaken; [done|rewrite F1; by apply (ci_stop _ _ _ _ _ _ Hc t e)| |left; by eexists]. intros e2 He2. replace e2 with e by congruence. by rewrite E1, E2.
  - eapply queued_more; [|done]. apply queued_weaken; [done|]. right. exists e. by rewrite E3.
Qed.

Lemma chan_of_Some ch s c : rchans s !! ch = Some c -> chan_of ch s = c.
Proof. unfold chan_of. by intros ->. Qed.
Lemma qchan_of_Some ch s c : chans (qchans s) !! ch = Some c -> qchan_of ch s = c.
Proof. unfold qchan_of. by intros ->. Qed.

Lemma owned_open s es t e ch :
  Inv s es -> es !! t = Some e -> is_Some (own e !! ch) -> exists c, rchans s !! ch = Some c /\ live (cancelled s) c.
Proof. intros ([G Hc] & _) He [o Ho]. by destruct (ci_own _ _ _ _ _ _ Hc t e ch o He Ho). Qed.

Lemma q_owned_open s es t e ch :
  Inv s es -> es !! t = Some e -> ch ∈ qown e -> exists c, chans (qchans s) !! ch = Some c /\ chan_closed c = false.
Proof. intros (_ & Hq & _) He Ho. by destruct (qv_own _ _ _ _ Hq t e ch He Ho). Qed.

Lemma clear_ok s es err : Inv s es -> is_Some (Clear err (requestQueue s) (qchans s)).
Proof.
  intros (_ & Hq & _). unfold Clear. destruct (_ =? 0); [by eexists|].
  destruct (notify_all_ok err (queue (requestQueue s)) (qchans s)) as (w & -> & _); [apply (qv_queue _ _ _ _ Hq)..|]. by eexists.
Qed.

Lemma no_panic s es t e X (c : cmd X) : Inv s es -> es !! t = Some e -> pre X c e -> panics X c s = true -> crash X c = true.
Proof.
  intros Hi He Hp. destruct c; cbn in *; try done.
  - destruct (q_owned_open _ _ _ _ _ Hi He Hp) as (c & Hc & Hcl). rewrite (qchan_of_Some _ _ _ Hc). congruence.
  - destruct (q_owned_open _ _ _ _ _ Hi He Hp) as (c & Hc & Hcl). rewrite (qchan_of_Some _ _ _ Hc). congruence.
  - destruct (q_owned_open _ _ _ _ _ Hi He Hp) as (c & Hc & Hcl). rewrite (qchan_of_Some _ _ _ Hc). congruence.
  - destruct (clear_ok s es err Hi) as [x ->]. by rewrite bool_decide_false.
Qed.

(** A response channel that its owner or the shutdown uses is closed only when the shutdown has begun. *)
Lemma closed_stopping s es t e ch :
  Inv s es -> es !! t = Some e -> is_Some (own e !! ch) \/ stopping e = true -> closed (chan_of ch s) = true -> cancelled s = true.
Proof.
  intros Hi He Ho Hcl. destruct Ho as [Ho|Hs]; [|destruct Hi as ([G Hc] & _); by eapply ci_stop].
  destruct (owned_open _ _ _ _ ch Hi He Ho) as (c & Hc & Hl). rewrite (chan_of_Some _ _ _ Hc) in Hcl.
  destruct (cancelled s) eqn:Es; [done|]. unfold live in Hl. rewrite Hl in Hcl; done.
Qed.

(** Commands on response channels. *)
Lemma exec_store s es t e id ch s' :
  Inv s es -> es !! t = Some e -> own e !! ch = Some None -> exec _ (Store id ch) tt s = Some s' ->
  is_Some (hash id) /\ Inv s' (<[t := post _ (Store id ch) tt e]> es).
Proof.
  intros Hi He Ho Hx. cbn in *. destruct (hash id) as [k|] eqn:Eh; [|done]. cbn in Hx. injection Hx as <-. split; [by eexists|].
  eapply inv_chans; try done. intros G HG. eexists. by eapply chans_store.
Qed.

Lemma exec_load s es t e id x s' :
  Inv s es -> es !! t = Some e -> exec _ (LoadAndDelete id) x s = Some s' ->
  valid _ (LoadAndDelete id) x e /\ Inv s' (<[t := post _ (LoadAndDelete id) x e]> es).
Proof.
  intros Hi He Hx. cbn in *. destruct (hash id) as [k|] eqn:Eh; [|done]. cbn in Hx.
  apply when_Some in Hx as [Hx ->]. apply bool_decide_eq_true in Hx as ->.
  destruct (pendingReqs s !! k) as [ch|] eqn:Ek; (split; [split; [by eexists|]|]); try done.
  - destruct Hi as ([G Hc] & _). destruct (own e !! ch) eqn:Eo; [|done].
    destruct (ci_own _ _ _ _ _ _ Hc t e ch _ He Eo) as (_ & _ & Hp & _). by destruct (Hp k).
  - eapply inv_chans; try done. intros G HG. exists G. by apply chans_load.
  - eapply inv_chans; try done. intros G HG. exists G. cbn. rewrite delete_id by done. by rewrite (insert_id es t e).
Qed.

Lemma exec_send s es t e ch resp x s' :
  Inv s es -> es !! t = Some e -> pre _ (Send ch resp) e -> panics _ (Send ch resp) s = false ->
  exec _ (Send ch resp) x s = Some s' -> Inv s' (<[t := e]> es).
Proof.
  intros Hi He (k & Ho & Hh) Hcl Hx. destruct (owned_open _ _ _ _ ch Hi He) as (c & Hc & _); [by eexists|].
  cbn in Hx, Hcl. rewrite (chan_of_Some _ _ _ Hc) in Hx, Hcl. rewrite Hcl in Hx. destruct x, (buffer c) eqn:Eb; try done.
  - injection Hx as <-. eapply inv_chans; try done. intros G HG. exists G. rewrite (insert_id es t e) by done. by eapply chans_send.
  - apply when_Some in Hx as [_ ->]. by eapply inv_same.
  - apply when_Some in Hx as [_ ->]. by eapply inv_same.
  - injection Hx as <-. by eapply inv_same.
Qed.

Lemma exec_close s es t e ch s' :
  Inv s es -> es !! t = Some e -> pre _ (Close ch) e -> exec _ (Close ch) tt s = Some s' ->
  Inv s' (<[t := post _ (Close ch) tt e]> es).
Proof.
  intros Hi He Ho Hx. cbn in Hx. injection Hx as <-.
  eapply inv_chans; try done. intros G HG. exists G. cbn. eapply chans_close; [done|done|].
  destruct Ho as [Ho|[Hs Hr]]; [by left|right]. split; [by eapply ci_stop|done].
Qed.

Lemma exec_read s es t e id x s' :
  Inv s es -> es !! t = Some e -> exec _ (Load id) x s = Some s' -> Inv s' (<[t := post _ (Load id) x e]> es).
Proof.
  intros Hi He Hx. cbn in *. apply when_Some in Hx as [Hx ->]. apply bool_decide_eq_true in Hx as ->.
  destruct (hash id) as [k|]; cbn; [|by eapply inv_same]. destruct (pendingReqs s !! k) as [ch|] eqn:Ek; [|by eapply inv_same].
  eapply inv_chans; try done. intros G HG. exists G. by apply chans_learn.
Qed.

Lemma exec_cancel s es t e s' :
  Inv s es -> es !! t = Some e -> exec _ CancelRouter tt s = Some s' -> Inv s' (<[t := post _ CancelRouter tt e]> es).
Proof.
  intros Hi He Hx. cbn in *. injection Hx as <-.
  eapply inv_chans; try done. intros G HG. exists G. cbn. by eapply chans_stop.
Qed.

Lemma exec_wait s es t e ch x s' :
  Inv s es -> es !! t = Some e -> is_Some (rd e !! ch) -> exec _ (Wait ch) x s = Some s' ->
  valid _ (Wait ch) x e /\ Inv s' (<[t := e]> es).
Proof.
  intros Hi He [k Hr] Hx. cbn in *. destruct x as [resp| |].
  - unfold chan_of in Hx. destruct (rchans s !! ch) as [c|] eqn:Ec; cbn in Hx.
    + destruct (buffer c) as [|r rest] eqn:Eb, resp as [r'|]; try done.
      * apply when_Some in Hx as [_ ->]. split; [done|by eapply inv_same].
      * apply when_Some in Hx as [Hx ->]. apply bool_decide_eq_true in Hx as <-. split.
        -- destruct Hi as ([G Hc] & _). rewrite Hr, <- (ci_rd _ _ _ _ _ _ Hc t e ch k He Hr).
           eapply (ci_buffer _ _ _ _ _ _ Hc); [done|]. rewrite Eb. left.
        -- eapply inv_chans; try done. intros G HG. exists G. rewrite (insert_id es t e) by done. by eapply chans_receive.
    + destruct resp; [done|]. injection Hx as <-. split; [done|by eapply inv_same].
  - injection Hx as <-. split; [done|by eapply inv_same].
  - apply when_Some in Hx as [_ ->]. split; [done|by eapply inv_same].
Qed.

(** Commands on the queue. *)
Lemma exec_enqueue s es t e data now x s' :
  Inv s es -> es !! t = Some e -> data ∈ known e -> exec _ (QEnqueue data now) x s = Some s' -> Inv s' (<[t := e]> es).
Proof.
  intros Hi He Hd Hx. assert (data ∈ received s) as Hr by (destruct Hi as (_ & _ & Hk); by eapply Hk).
  pose proof (queued_enqueue _ _ _ _ data (next_ctx s) now (proj1 (proj2 Hi)) Hr) as HQ. cbn in Hx.
  assert (forall d, d ∈ known e -> d ∈ received s) as Hk by (intros; destruct Hi as (_ & _ & Hk); by eapply Hk).
  destruct (Enqueue data (next_ctx s) now (requestQueue s) (qchans s)) as [[[c|m] rq] w], x as [[ctx ch]|m']; try done.
  - apply when_Some in Hx as [_ ->]. eapply inv_queue; try done. by rewrite (insert_id es t e).
  - apply when_Some in Hx as [_ ->]. eapply inv_queue; try done. by rewrite (insert_id es t e).
Qed.

Lemma exec_q_receive s es t e ch err s' :
  Inv s es -> es !! t = Some e -> q_receive ch err s = Some s' -> Inv s' (<[t := e]> es).
Proof.
  intros Hi He. unfold q_receive, qchan_of. destruct (chans (qchans s) !! ch) as [c|] eqn:Ec; cbn.
  - destruct (buffered c) as [|v rest] eqn:Eb; intros [_ ->]%when_Some; [by eapply inv_same|].
    eapply inv_queue; try done.
    + intros; destruct Hi as (_ & _ & Hk); by eapply Hk.
    + rewrite (insert_id es t e) by done. by eapply queued_receive; [apply Hi|..].
  - intros [_ ->]%when_Some. by eapply inv_same.
Qed.

Lemma exec_dequeue s es t e x s' :
  Inv s es -> es !! t = Some e -> exec _ QDequeueAll x s = Some s' ->
  NoDup (map RequestQueue.Response x) /\ Inv s' (<[t := post _ QDequeueAll x e]> es).
Proof.
  intros Hi He Hx. cbn in *. pose proof (queued_dequeue _ _ _ _ t e (proj1 (proj2 Hi)) He) as HQ.
  assert (forall qr, qr ∈ fst (DequeueAll (requestQueue s)) -> RequestQueue.Data qr ∈ received s) as Hin.
  { intros qr Hq. destruct Hi as (_ & Hv & _). apply (qv_data _ _ _ _ Hv). revert Hq. unfold DequeueAll.
    destruct (_ =? 0); cbn; [by intros ?%not_elem_of_nil|done]. }
  assert (NoDup (map RequestQueue.Response (fst (DequeueAll (requestQueue s))))) as Hnd.
  { unfold DequeueAll. destruct (_ =? 0); cbn; [constructor|]. apply (qi_nodup _ _ (qv_queue _ _ _ _ (proj1 (proj2 Hi)))). }
  destruct (DequeueAll (requestQueue s)) as [l rq]. cbn in *. apply when_Some in Hx as [Hx ->].
  apply bool_decide_eq_true in Hx as ->. split; [done|]. eapply inv_queue; try done. cbn.
  intros d [(qr & -> & Hq)%list_elem_of_fmap_1|Hd]%elem_of_app; [by apply Hin|]. destruct Hi as (_ & _ & Hk). by eapply Hk.
Qed.

(** One step of a goroutine keeps the invariant. *)
Lemma exec_rule s es t e X (c : cmd X) x s' :
  Inv s es -> es !! t = Some e -> pre X c e -> panics X c s = false -> exec X c x s = Some s' ->
  valid X c x e /\ Inv s' (<[t := post X c x e]> es).
Proof.
  intros Hi He Hp Hn Hx.
  assert (forall d, d ∈ known e -> d ∈ received s) as Hk by (intros; destruct Hi as (_ & _ & Hk); by eapply Hk).
  assert (forall d, d ∈ replies e -> d ∈ direct_replies s) as Hr by (intros; destruct Hi as (_ & _ & Hd); by eapply Hd).
  destruct c; try (split; [done|]);
    try solve [cbn in *; first [injection Hx as <-|apply when_Some in Hx as [_ ->]]; by eapply inv_same].
  - (* ReadStdin *) cbn in *. destruct x as [|d]; [apply when_Some in Hx as [_ ->]; by eapply inv_same|]. injection Hx as <-.
    eapply inv_docs; try done; cbn; [set_solver|]. destruct Hi as (_ & _ & Hd). apply doc_weaken; cbn.
    + eapply doc_more; [done|done|set_solver].
    + intros d' [->|?]%elem_of_cons; [set_solver|]. apply elem_of_app. left. by apply Hk.
    + done.
  - by eapply exec_enqueue.
  - cbn in Hx. destruct x; [by eapply exec_q_receive|]. injection Hx as <-. by eapply inv_same.
  - by eapply exec_dequeue.
  - (* QSend *) cbn in *. unfold send in Hx. destruct (chans (qchans s) !! ch) eqn:Ec; [|done].
    destruct (_ <? _)%nat; [|done]. destruct (try_send ch err (qchans s)) as [w|] eqn:Ew; [|done]. cbn in Hx. injection Hx as <-.
    eapply inv_queue; try done. rewrite (insert_id es t e) by done. by eapply queued_try_send; [apply Hi|..].
  - (* QTrySend *) cbn in *. destruct (try_send ch err (qchans s)) as [w|] eqn:Ew; [|done]. cbn in Hx. injection Hx as <-.
    eapply inv_queue; try done. rewrite (insert_id es t e) by done. by eapply queued_try_send; [apply Hi|..].
  - (* QClose *) cbn in *. destruct (close_chan ch (qchans s)) as [w|] eqn:Ew; [|done]. cbn in Hx. injection Hx as <-.
    eapply inv_queue; try done. by eapply queued_close; [apply Hi|..].
  - (* QClear *) cbn in *. destruct (Clear err (requestQueue s) (qchans s)) as [[rq w]|] eqn:Ew; [|done]. cbn in Hx. injection Hx as <-.
    eapply inv_queue; try done. rewrite (insert_id es t e) by done. by eapply queued_clear; [apply Hi|..].
  - (* MakeChan *) cbn in *. apply when_Some in Hx as [Hx ->]. apply bool_decide_eq_true in Hx as ->.
    eapply inv_chans; try done. intros G HG. exists G. by apply chans_make.
  - destruct x. by eapply exec_store.
  - by eapply exec_read.
  - by eapply exec_load.
  - by eapply exec_send.
  - destruct x. by eapply exec_close.
  - by eapply exec_wait.
  - (* ClientSend *) cbn in *. destruct x as [r|]; injection Hx as <-; [|by eapply inv_same].
    eapply inv_docs; try done; cbn. destruct Hi as (_ & _ & Hd). apply doc_weaken; cbn.
    + eapply doc_more; [done|set_solver|done].
    + done.
    + intros d' [->|?]%elem_of_cons; [set_solver|]. apply elem_of_app. left. by apply Hr.
  - (* Out *) cbn in *. destruct x; [injection Hx as <-|apply when_Some in Hx as [_ ->]; by eapply inv_same..].
    eapply inv_docs; try done; cbn. rewrite (insert_id es t e) by done. destruct Hi as (_ & _ & Hd). split; try apply Hd.
    intros d [Hin| ->%list_elem_of_singleton]%elem_of_app; [by apply Hd|]. by eapply answers_mono.
  - (* Notification *) cbn in *. destruct x, (stateChangeChan (connMgr s)); try done; apply when_Some in Hx as [_ ->]; by eapply inv_same.
  - (* Tick *) cbn in *. destruct x; first [injection Hx as <-|apply when_Some in Hx as [_ ->]]; by eapply inv_same.
  - destruct x. by eapply exec_cancel.
Qed.

(** *** The programs follow the discipline *)

Local Notation WP p e Q := (wp pre valid post split exit_ok label_env p e Q).

(** What a program may change in the environment of its caller. *)
Record ext (e e' : env) : Prop := {
  ext_qown : qown e' = qown e;
  ext_known d : d ∈ known e -> d ∈ known e'; ext_replies r : r ∈ replies e -> r ∈ replies e' }.

#[local] Instance ext_preorder : PreOrder ext.
Proof.
  split; [intros e; by split|]. intros e1 e2 e3 [H1 H2 H3] [H4 H5 H6]. split; [congruence|auto|auto].
Qed.

(** The message the goroutine works on was read from stdin. *)
Definition asked (id : jvalue) (e : env) : Prop := exists m, m ∈ known e /\ Unmarshal_id m = id.

Lemma asked_ext id e e' : asked id e -> ext e e' -> asked id e'.
Proof. intros (m & Hm & Hi) He. exists m. split; [by apply He|done]. Qed.

Lemma answers_asked r e data : Marshal_response r = Ok data -> asked (resp_ID r) e -> answers data (replies e) (known e).
Proof. intros Hm Ha. right. exists r. split; [done|by left]. Qed.

Ltac then_ L := apply wp_bind; eapply wp_mono; [eapply L; try done|cbn beta; intros ? ? ?].
Ltac do_ := apply wp_bind, wp_perform; [cbn [pre]; try done|cbn [valid post]; intros ? ?].

Lemma t_sendResponse resp e :
  (forall data, marshal resp = Ok data -> answers data (replies e) (known e)) -> WP (sendResponse resp) e (fun _ e' => e' = e).
Proof.
  intros Ha. unfold sendResponse. destruct (marshal resp) as [data|] eqn:Em; [|done]. do_. do_; [by apply Ha|]. by destruct x0.
Qed.

Lemma t_sendResponseWithTimeout resp timeout e :
  (forall data, marshal resp = Ok data -> answers data (replies e) (known e)) ->
  WP (sendResponseWithTimeout duration_text resp timeout) e (fun _ e' => e' = e).
Proof.
  intros Ha. unfold sendResponseWithTimeout. destruct (marshal resp) as [data|] eqn:Em; [|done]. do_. do_; [by apply Ha|]. by destruct x0.
Qed.

Lemma t_sendErrorResponse id err e : asked id e -> WP (sendErrorResponse id err) e (fun _ e' => e' = e).
Proof.
  intros Ha. unfold sendErrorResponse. then_ t_sendResponse.
  - intros data Hm. by eapply answers_asked.
  - subst. apply wp_perform; done.
Qed.

Lemma t_cleanup id e : WP (cleanup id) e (fun _ e' => ext e e').
Proof.
  unfold cleanup. do_. destruct x as [ch|]; [|by apply wp_ret].
  apply wp_perform; cbn; [left; rewrite lookup_insert_eq; by eexists|]. intros _ _. by split.
Qed.

Lemma t_routeResponse resp e : WP (routeResponse resp) e (fun _ e' => ext e e').
Proof.
  unfold routeResponse. do_. destruct x as [ch|]; [|by apply wp_ret]. destruct H1 as [[k Hk] _].
  do_; [cbn; exists k; by rewrite lookup_insert_eq, Hk|]. apply wp_perform; cbn; [left; rewrite lookup_insert_eq; by eexists|].
  intros _ _. by split.
Qed.

(** The goroutine of a gateway request. *)
Lemma t_gateway_exchange req ch k e :
  rd e !! ch = Some k -> hash (req_ID req) = Some k -> asked (req_ID req) e ->
  goroutine_ok pre valid post split exit_ok label_env (gateway_exchange config duration_text req ch) e.
Proof.
  intros Hr Hh Ha. unfold goroutine_ok, gateway_exchange.
  assert (forall (err : string) e', ext e e' ->
    WP (_ ← cleanup (req_ID req); _ ← perform (Metric MErrors); _ ← sendErrorResponse (req_ID req) err; mret Exit) e'
       (fun n e2 => match n with Exit => True | Again l => exists e3, label_env l e2 e3 end)) as Hfail.
  { intros err e' He'. then_ t_cleanup. do_. then_ t_sendErrorResponse; [|done].
    eapply asked_ext; [exact Ha|]. by etrans. }
  do_. destruct x as [err|]; [by apply Hfail|].
  do_. destruct x as [resp| |].
  - do_. do_. then_ t_sendResponseWithTimeout.
    + intros data Hm. destruct resp as [r|]; [|left; by injection Hm as <-].
      eapply answers_asked; [exact Hm|]. cbn in H2. rewrite Hr in H2. by rewrite (hash_inj _ _ H2), <- (hash_inj _ _ Hh).
    + subst. destruct a as [err|]; [by apply Hfail|]. by do_.
  - then_ t_cleanup. do_. do_. destruct x0; [done|]. then_ t_sendErrorResponse; [by eapply asked_ext|done].
  - then_ t_cleanup. by do_.
Qed.

Lemma t_processGatewayRequest req e :
  asked (req_ID req) e -> WP (processGatewayRequest config duration_text req) e (fun _ e' => ext e e').
Proof.
  intros Ha. unfold processGatewayRequest. do_. do_; [cbn; by rewrite lookup_insert_eq|]. destruct H2 as [k Hk]. rewrite Hk. do_.
  apply wp_bind. eapply wp_go; [done| |]; cbn.
  - apply t_gateway_exchange with k; cbn; [by rewrite lookup_insert_eq|done|exact Ha].
  - split; cbn; try done.
Qed.

Lemma t_handleDirectError err msg e : WP (handleDirectError err msg) e (fun _ e' => ext e e').
Proof. unfold handleDirectError. do_. by apply wp_ret. Qed.

Lemma t_setupDirectRequest req e : WP (setupDirectRequest req) e (fun _ e' => ext e e').
Proof.
  unfold setupDirectRequest. do_. apply wp_perform; cbn; [by rewrite lookup_insert_eq|]. intros _ [k ->]. by split.
Qed.

Lemma t_deliver req resp e : resp ∈ replies e -> WP (deliver req resp) e (fun _ e' => ext e e').
Proof.
  intros Hr. unfold deliver. do_. do_. then_ t_sendResponse.
  - intros data Hm. destruct resp as [r|]; [right; exists r; split; [done|by right]|left; by injection Hm as <-].
  - subst. destruct a; do_; by apply wp_ret.
Qed.

Lemma t_processDirectRequestWithContext req e : WP (processDirectRequestWithContext req) e (fun _ e' => ext e e').
Proof.
  unfold processDirectRequestWithContext. then_ t_setupDirectRequest. apply wp_bind.
  apply wp_mono with (Q := fun _ e2 => ext e e2).
  - do_. do_. destruct x0 as [client|err]; [|eapply wp_mono; [apply t_handleDirectError|intros; by etrans]].
    do_. destruct x0 as [resp|err]; [|eapply wp_mono; [apply t_handleDirectError|intros; by etrans]].
    eapply wp_mono; [apply t_deliver; left|]. cbn. intros r e2 He2. etrans; [done|]. etrans; [|exact He2]. split; cbn; set_solver.
  - intros r e2 He2. then_ t_cleanup. apply wp_ret. by etrans.
Qed.

Lemma t_processDirectRequest req e : WP (processDirectRequest req) e (fun _ e' => ext e e').
Proof.
  unfold processDirectRequest. do_. do_; [cbn; by rewrite lookup_insert_eq|]. destruct H2 as [k ->]. do_.
  set (e1 := mkEnv _ _ _ _ _ _). assert (ext e e1) as He1 by by split.
  destruct x1 as [client|err].
  - do_. destruct x1 as [resp|err].
    + then_ t_cleanup. eapply wp_mono; [apply t_deliver|].
      * apply H4. left.
      * intros r e2 He2. etrans; [|exact He2]. etrans; [|exact H4]. split; cbn; set_solver.
    + then_ t_cleanup. eapply wp_mono; [apply t_handleDirectError|]. intros. by do 2 (etrans; [eassumption|]).
  - then_ t_cleanup. eapply wp_mono; [apply t_handleDirectError|]. intros. by do 2 (etrans; [eassumption|]).
Qed.

Lemma t_direct_attempts n attempt req last e : WP (direct_attempts n attempt req last) e (fun _ e' => ext e e').
Proof.
  revert attempt last e. induction n as [|n IH]; intros attempt last e; cbn [direct_attempts]; [by apply wp_ret|].
  apply wp_bind. apply wp_mono with (Q := fun _ e' => e' = e).
  - destruct (0 <? attempt); [by apply wp_perform|by apply wp_ret].
  - intros stop e' ->. destruct stop; [by apply wp_ret|]. then_ t_processDirectRequestWithContext.
    destruct a as [err|]; [|by apply wp_ret]. destruct (isRetryableDirectError err); cbn; [|done].
    eapply wp_mono; [apply IH|]. intros. by etrans.
Qed.

Lemma t_handleFallbackToGateway req err e :
  asked (req_ID req) e -> WP (handleFallbackToGateway config duration_text req err) e (fun _ e' => ext e e').
Proof.
  intros Ha. unfold handleFallbackToGateway. then_ t_processGatewayRequest. destruct a; do_; by apply wp_ret.
Qed.

Lemma t_processStdinMessageDirect data e :
  data ∈ known e -> WP (processStdinMessageDirect config directManager Unmarshal_request duration_text data) e (fun _ e' => ext e e').
Proof.
  intros Hd. unfold processStdinMessageDirect. destruct (Unmarshal_request data) as [req|err] eqn:Eu; [|by apply wp_ret].
  assert (asked (req_ID req) e) as Ha by (exists data; split; [done|by apply ids_agree]).
  do_. destruct (determineRoutingTarget _ _ _); [|by apply t_processGatewayRequest]. unfold processRequestWithFallback.
  destruct (FallbackEnabled _); [|apply t_processDirectRequest]. cbn [negb]. unfold attemptDirectWithRetries.
  then_ t_direct_attempts. destruct a as [err|]; [|by apply wp_ret].
  eapply wp_mono; [apply t_handleFallbackToGateway; by eapply asked_ext|]. intros. by etrans.
Qed.

Lemma t_processStdinMessage data e :
  data ∈ known e -> WP (processStdinMessage config directManager Unmarshal_request duration_text data) e (fun _ e' => ext e e').
Proof.
  intros Hd. unfold processStdinMessage. destruct (Unmarshal_request data) as [req|err] eqn:Eu; [|by apply wp_ret].
  do_. destruct x as [err|]; [do_; by apply wp_ret|]. do_. case_bool_decide; [by apply t_processStdinMessageDirect|].
  do_. do_. destruct x1 as [[ctx ch]|n]; [|do_; by apply wp_ret]. do_.
  destruct x1 as [[err|]|]; repeat do_; by apply wp_ret.
Qed.

Lemma t_answer_queued l e :
  NoDup (map RequestQueue.Response l) ->
  (forall qr, qr ∈ l -> RequestQueue.Data qr ∈ known e /\ RequestQueue.Response qr ∈ qown e) ->
  WP (answer_queued config directManager Unmarshal_request duration_text l) e (fun _ _ => True).
Proof.
  revert e. induction l as [|qr l IH]; intros e Hnd Hl; cbn [answer_queued]; [by apply wp_ret|].
  apply NoDup_cons in Hnd as [Hn Hnd]. destruct (Hl qr) as [Hd Hq]; [left|]. do_.
  apply wp_bind, wp_mono with (Q := fun _ e' => ext e e').
  - destruct x; [by apply wp_perform|]. then_ t_processStdinMessageDirect.
    apply wp_perform; [cbn; by rewrite (ext_qown _ _ H2)|done].
  - intros _ e1 He1. do_; [by rewrite (ext_qown _ _ He1)|]. apply IH; [done|]. intros qr' Hqr'. cbn. split.
    + apply He1. apply Hl. by right.
    + rewrite (ext_qown _ _ He1). apply elem_of_difference. split; [apply Hl; by right|].
      intros E%elem_of_singleton. apply Hn. rewrite <- E. by apply elem_of_responses.
Qed.

Lemma t_processQueuedRequests e : WP (processQueuedRequests config directManager Unmarshal_request duration_text) e (fun _ _ => True).
Proof.
  unfold processQueuedRequests. do_. apply t_answer_queued; [done|]. intros qr Hqr. cbn. split.
  - apply elem_of_app. left. by apply list_elem_of_fmap_2.
  - apply elem_of_union. left. apply elem_of_list_to_set. by apply elem_of_responses.
Qed.

(** The shutdown may close what it has read from the table. *)
Definition shuts (e e' : env) : Prop :=
  (stopping e = true -> stopping e' = true) /\ forall ch, is_Some (rd e !! ch) -> is_Some (rd e' !! ch).

#[local] Instance shuts_preorder : PreOrder shuts.
Proof. split; [by split|]. intros e1 e2 e3 [H1 H2] [H3 H4]. split; auto. Qed.

Lemma t_collect_channels ks e :
  WP (collect_channels ks) e (fun chs e' => shuts e e' /\ forall ch, ch ∈ chs -> is_Some (rd e' !! ch)).
Proof.
  revert e. induction ks as [|k ks IH]; intros e; cbn [collect_channels]; [apply wp_ret; split; [done|set_solver]|].
  do_. destruct x as [ch|]; [|apply IH]. rewrite hash_unhash. do_. apply wp_bind. eapply wp_mono; [apply IH|]. cbn beta.
  intros chs e' [H3 H4]. apply wp_ret. split.
  - etrans; [|exact H3]. destruct x; split; cbn; try done; intros ch'; rewrite lookup_insert_is_Some; by destruct (decide (ch = ch')); auto.
  - assert (is_Some (rd e' !! ch)) as Hch.
    { apply H3. destruct x; cbn; rewrite lookup_insert_eq; by eexists. }
    destruct x; [|done]. intros ch' [->|Hin]%elem_of_cons; [done|by apply H4].
Qed.

Lemma t_close_channels chs e :
  stopping e = true -> (forall ch, ch ∈ chs -> is_Some (rd e !! ch)) -> WP (close_channels chs) e (fun _ _ => True).
Proof.
  revert e. induction chs as [|ch chs IH]; intros e Hs Ho; cbn [close_channels]; [by apply wp_ret|].
  do_; [right; split; [done|]; apply Ho; left|]. apply IH; [done|]. intros ch' Hin. apply Ho. by right.
Qed.

Lemma t_stop e : goroutine_ok pre valid post split exit_ok label_env run_until_shutdown e.
Proof.
  unfold goroutine_ok, run_until_shutdown, connMgr_Stop, Stop. do_. apply wp_bind. do_. apply wp_perform; [done|]. intros ? ?.
  apply wp_bind. do_. do_. apply wp_bind. eapply wp_mono; [apply t_collect_channels|]. cbn beta. intros chs e' [[Hs _] Hr].
  eapply wp_mono; [apply t_close_channels; [by apply Hs|done]|]. intros _ e2 _. by apply wp_ret.
Qed.

Lemma t_handleWSReceiveError e : WP handleWSReceiveError e (fun _ _ => True).
Proof.
  unfold handleWSReceiveError, handleConnectionLoss. do_. destruct x; [by apply wp_ret|]. do_.
  destruct x; cbn [negb]; repeat do_; by apply wp_ret.
Qed.

Lemma t_shouldStopKeepalive e : WP shouldStopKeepalive e (fun _ _ => True).
Proof.
  unfold shouldStopKeepalive. do_. destruct (negb _); [by apply wp_ret|]. do_. destruct x0; repeat do_; by apply wp_ret.
Qed.

Ltac again_ := apply wp_ret; try (case_bool_decide); try done; by eexists.

Lemma t_body l e :
  goroutine_ok pre valid post split exit_ok label_env
    (body config directManager Unmarshal_request Unmarshal_id duration_text out_of_range l) e.
Proof.
  unfold goroutine_ok. destruct l as [| |last|backoff attempts| |]; cbn [body].
  - unfold handleStdinToWS. do_. destruct x as [|data]; [by apply wp_ret|]. then_ t_processStdinMessage; [left|].
    destruct a as [err|]; [|again_]. then_ t_sendErrorResponse; [|again_].
    exists data. split; [|done]. apply H2. left.
  - unfold handleWSToStdout. do_. destruct x; [by apply wp_ret|]. do_. case_bool_decide; [|do_; again_].
    apply wp_bind, wp_mono with (Q := fun _ _ => True); [|intros; again_]. unfold processWSMessage. do_.
    destruct x0 as [[resp|]|err]; [|by apply wp_ret|apply t_handleWSReceiveError].
    eapply wp_mono; [apply t_routeResponse|done].
  - unfold handleConnectionStateChanges. do_. destruct x as [| |s]; [do_; by apply wp_ret|by apply wp_ret|].
    apply wp_bind, wp_mono with (Q := fun _ _ => True); [|intros; again_].
    destruct (_ && _); [apply t_processQueuedRequests|by apply wp_ret].
  - unfold maintainConnection. do_. destruct x; [do_; by apply wp_ret|]. do_. do_. destruct x0; repeat do_.
    + destruct (_ <=? _); [by apply wp_ret|]. do_. again_.
    + again_.
  - unfold handleConnectionWithKeepalive. do_. destruct x; [again_| |do_; again_].
    then_ t_shouldStopKeepalive. apply wp_ret. destruct a; by eexists.
  - unfold handleConnectionWithoutKeepalive. do_. destruct x; [again_|do_; again_..].
Qed.

Lemma router_rules :
  rules exec panics (body config directManager Unmarshal_request Unmarshal_id duration_text out_of_range) (fun _ _ => False)
    Inv pre valid post split exit_ok label_env crash.
Proof.
  split.
  - apply no_panic.
  - apply exec_rule.
  - intros s es t e ([G Hc] & Hq & Hd) He _.
    assert (forall u e', delete t es !! u = Some e' -> es !! u = Some e') as Hdel by (by intros u e' [_ ?]%lookup_delete_Some).
    split_and!; [exists G|..]; split; try apply Hc; try apply Hq; try apply Hd; eauto using ci_own, ci_disjoint, ci_rd, ci_stop, qv_own, qv_disjoint, di_known, di_replies.
  - intros s es t e l e2 ([G Hc] & Hq & Hd) He ->. split_and!; [exists G|..].
    + apply chans_weaken; [done|done| |left; by eexists]. intros e' _. split; apply map_empty_subseteq.
    + apply queued_weaken; [done|by left].
    + apply doc_weaken; [done| |]; intros x Hx; by apply not_elem_of_nil in Hx.
  - intros s es t e t' ec e1 ([G Hc] & Hq & Hd) He Hn [-> ->]. rewrite (insert_id es t e) by done. split_and!; [exists G|..].
    + apply chans_weaken; [done|done|intros e' He'; congruence|]. right. split; [done|]. intros ch k Hr. by eapply ci_rd.
    + apply queued_weaken; [done|by left].
    + apply doc_weaken; [done| |]; intros x Hx; [by eapply di_known|by apply not_elem_of_nil in Hx].
  - done.
  - intros l e e2 _. apply t_body.
Qed.

(** ** Every interleaving *)

Local Notation bodies := (body config directManager Unmarshal_request Unmarshal_id duration_text out_of_range).
Local Notation router_start := (start config MaxQueuedRequests directManager Unmarshal_request Unmarshal_id duration_text out_of_range).
Local Notation router_reachable w := (reachable exec panics bodies (fun _ _ => False) router_start w).

Lemma start_typed : typed panics Inv pre valid post split exit_ok label_env crash router_start.
Proof.
  split; [done|]. exists (const nothing <$> tasks router_start). split_and!.
  - split_and!; [exists ∅|..].
    + split; cbn -[start].
      * intros ch _. by rewrite !lookup_empty.
      * intros k ch. by rewrite lookup_empty.
      * intros t e ch o (p & <- & _)%lookup_fmap_Some. cbn. by rewrite lookup_empty.
      * intros t t' e e' ch (p & <- & _)%lookup_fmap_Some _ [o Ho]. cbn in Ho. by rewrite lookup_empty in Ho.
      * intros t e ch k (p & <- & _)%lookup_fmap_Some. cbn. by rewrite lookup_empty.
      * intros ch c r. by rewrite lookup_empty.
      * by intros t e (p & <- & _)%lookup_fmap_Some.
    + split; cbn -[start].
      * apply empty_queue_inv.
      * intros t e ch (p & <- & _)%lookup_fmap_Some. cbn. set_solver.
      * intros t t' e e' ch (p & <- & _)%lookup_fmap_Some. cbn. set_solver.
      * intros qr. by intros ?%not_elem_of_nil.
    + split; cbn -[start].
      * intros t e d (p & <- & _)%lookup_fmap_Some. cbn. by intros ?%not_elem_of_nil.
      * intros t e d (p & <- & _)%lookup_fmap_Some. cbn. by intros ?%not_elem_of_nil.
      * intros d. by intros ?%not_elem_of_nil.
  - apply dom_fmap_L.
  - intros t p e Ht (p' & <- & Ht')%lookup_fmap_Some. apply elem_of_list_to_map_2 in Ht. cbn [zip seq zip_with] in Ht.
    rewrite !elem_of_cons, elem_of_nil in Ht. destruct Ht as [E|[E|[E|[E|[E|[]]]]]]; injection E as _ ->.
    + apply (t_body LStdin).
    + apply (t_body LSocket).
    + apply (t_body (LState StateInit)).
    + apply (t_body (LConn initialBackoff 0)).
    + apply t_stop.
Qed.

Lemma router_typed w : router_reachable w -> typed panics Inv pre valid post split exit_ok label_env crash w.
Proof. apply (sound _ _ _ _ _ _ _ _ _ _ _ _ _ _ router_rules start_typed). Qed.

(** A goroutine that is about to use a request id as a map key. *)
Definition keyed_by (id : jvalue) (p : prog cmd label (Goroutines.next label)) : Prop :=
  (exists ch k, p = Do (Store id ch) k) \/ (exists k, p = Do (LoadAndDelete id) k).

(** A goroutine that is about to send on a response channel or to close it. *)
Definition uses (ch : nat) (p : prog cmd label (Goroutines.next label)) : Prop :=
  (exists resp k, p = Do (Send ch resp) k) \/ (exists k, p = Do (Close ch) k).

(** C1: Under every interleaving of the router's goroutines (stdin, socket, state changes, reconnection, one per request,
    shutdown) and whatever the environment answers, the router panics in two ways only.  One is the use of an id that is
    a JSON array or object as a key of the table of pending requests.  The other needs the shutdown to have begun: a
    response channel that is already closed is closed again or sent on (Stop closes the channels it read from the table,
    also those another goroutine took in between).  So before a shutdown no response channel is closed twice or sent on
    after it was closed, also when ids repeat, and the channels of queued requests never are.  The request queue stays
    within its size. *)
Theorem channels_never_misused w :
  router_reachable w ->
  (panicked w = true -> exists t p, tasks w !! t = Some p /\
    ((exists id, keyed_by id p /\ hash id = None) \/
     (cancelled (st w) = true /\ exists ch, uses ch p /\ closed (chan_of ch (st w)) = true))) /\
  Size (requestQueue (st w)) <= maxSize (requestQueue (st w)).
Proof.
  intros Hr. destruct (router_typed w Hr) as (Hc & es & Hi & Hd & Ht).
  split; [|apply (qi_size _ _ (qv_queue _ _ _ _ (proj1 (proj2 Hi))))].
  intros Hp. destruct (Hc Hp) as (t & X & c & k & Etask & Hpan & Hcr). exists t, (Do c k). split; [done|].
  assert (exists e, es !! t = Some e) as [e He] by (apply elem_of_dom; rewrite Hd; apply elem_of_dom; by eexists).
  destruct (Ht t _ e Etask He) as [Hpre _]. destruct c; try done; cbn in Hpan, Hpre.
  - left. exists id. split; [left; by eexists _, _|by apply bool_decide_eq_true in Hpan].
  - left. exists id. split; [right; by eexists|by apply bool_decide_eq_true in Hpan].
  - right. destruct Hpre as (k' & Ho & _). split; [eapply closed_stopping; eauto|]. exists ch. split; [left; by eexists _, _|done].
  - right. split; [eapply closed_stopping; [done|done| |done]; destruct Hpre as [?|[? _]]; auto|].
    exists ch. split; [right; by eexists|done].
Qed.

(** C28: What reaches stdout was asked for: in every reachable state each document on stdout is the encoding of a response whose id
    is the id of a message that was read from stdin, or of an answer of a direct client, or the literal null.  A response
    of the gateway with an id nobody asked for is never written. *)
Theorem stdout_solicited w data :
  router_reachable w -> data ∈ stdout (st w) ->
  data = "null"%string \/
  exists r, Marshal_response r = Ok data /\
    ((exists m, m ∈ received (st w) /\ Unmarshal_id m = resp_ID r) \/ Some r ∈ direct_replies (st w)).
Proof. intros Hr Hd. destruct (router_typed w Hr) as (_ & es & (_ & _ & Hdoc) & _). by apply (di_stdout _ _ _ _ Hdoc). Qed.

(** ** What one message leads to *)

(** The router is connected and does not shut down. *)
Definition up (X : Type) (c : cmd X) : X -> Prop :=
  match c in cmd X return X -> Prop with
  | ReadStdin => fun x => x <> Stopped
  | ConnState => fun x => x = StateConnected
  | Done | Sleep => fun x => x = false
  | Wait _ => fun x => x <> WaitCancelled
  | Out timeout _ => fun x => x = Written \/ (timeout = true /\ x = OutTimeout)
  | _ => fun _ => True
  end.

(** Documents written. *)
Definition written (X : Type) (c : cmd X) : X -> Z :=
  match c in cmd X return X -> Z with
  | Out _ _ => fun x => match x with Written => 1 | _ => 0 end
  | _ => fun _ => 0
  end.

Local Notation docs p n Q := (counts up written p n Q).

Ltac cdo := apply counts_bind, counts_perform; cbn [up written]; intros ? ?; rewrite ?Z.add_0_r.
Ltac cthen L := apply counts_bind; eapply counts_mono; [eapply L; try done|cbn beta; intros ? ? ?].

(** A document, or an error that says there was none. *)
Definition delivered (n m : Z) (r : option string) : Prop := (r = None /\ m = n + 1) \/ (is_Some r /\ m = n).

Section Once.
Hypothesis error_encodes : forall id err, exists s, Marshal_response (error_response id err) = Ok s.

Lemma d_sendResponse resp n :
  docs (sendResponse resp) n (fun m r => delivered n m r /\ (forall s, marshal resp = Ok s -> r = None)).
Proof.
  unfold sendResponse. destruct (marshal resp); [|apply counts_ret; split; [right; split; [by eexists|done]|done]].
  cdo. cdo. destruct H2 as [->|[? _]]; [|done]. apply counts_ret. split; [by left|done].
Qed.

Lemma d_sendResponseWithTimeout resp timeout n :
  docs (sendResponseWithTimeout duration_text resp timeout) n (fun m r => delivered n m r).
Proof.
  unfold sendResponseWithTimeout. destruct (marshal resp); [|apply counts_ret; right; split; [by eexists|done]].
  cdo. cdo. destruct H2 as [->|[_ ->]]; apply counts_ret; [by left|right; split; [by eexists|lia]].
Qed.

Lemma d_sendErrorResponse id err n : docs (sendErrorResponse id err) n (fun m _ => m = n + 1).
Proof.
  unfold sendErrorResponse. cthen d_sendResponse. destruct H1 as [Hd Hs]. apply counts_perform. cbn. intros _ _.
  destruct (error_encodes id err) as [s Es]. specialize (Hs s Es). subst. destruct Hd as [[_ ->]|[[? ?] _]]; [lia|done].
Qed.

Lemma d_cleanup id n : docs (cleanup id) n (fun m _ => m = n).
Proof.
  unfold cleanup. cdo. destruct x; [|by apply counts_ret]. apply counts_perform. cbn. lia.
Qed.

Lemma d_gateway_exchange req ch : docs (gateway_exchange config duration_text req ch) 0 (fun m _ => m = 1).
Proof.
  unfold gateway_exchange.
  assert (forall err, docs (_ ← cleanup (req_ID req); _ ← perform (Metric MErrors); _ ← sendErrorResponse (req_ID req) err; mret Exit)
            0 (fun m (_ : Goroutines.next label) => m = 1)) as Hfail.
  { intros err. cthen d_cleanup. cdo. cthen d_sendErrorResponse. apply counts_ret. lia. }
  cdo. destruct x as [err|]; [apply Hfail|]. cdo. destruct x as [resp| |]; [| |done].
  - cdo. cdo. cthen d_sendResponseWithTimeout. destruct H5 as [[-> ->]|[[err ->] ->]]; [|apply Hfail]. cdo. by apply counts_ret.
  - cthen d_cleanup. cdo. cdo. subst. cthen d_sendErrorResponse. apply counts_ret. lia.
Qed.

Lemma d_processGatewayRequest req n :
  docs (processGatewayRequest config duration_text req) n (fun m r => r = None /\ m = n + 1).
Proof.
  unfold processGatewayRequest. cdo. cdo. cdo. apply counts_bind, counts_go with 1; [apply d_gateway_exchange|]. by apply counts_ret.
Qed.

Lemma d_handleDirectError err msg n : docs (handleDirectError err msg) n (fun m r => is_Some r /\ m = n).
Proof. unfold handleDirectError. cdo. apply counts_ret. split; [by eexists|done]. Qed.

Lemma d_deliver req resp n : docs (deliver req resp) n (delivered n).
Proof.
  unfold deliver. cdo. cdo. cthen d_sendResponse. destruct H3 as [[[-> ->]|[[err ->] ->]] _]; cdo; apply counts_ret.
  - by left.
  - right. split; [by eexists|done].
Qed.

Lemma d_processDirectRequestWithContext req n : docs (processDirectRequestWithContext req) n (delivered n).
Proof.
  unfold processDirectRequestWithContext. apply counts_bind. unfold setupDirectRequest. cdo. apply counts_perform. cbn [up written]. intros ? ?.
  rewrite !Z.add_0_r. apply counts_bind, counts_mono with (Q := delivered n).
  - cdo. cdo. destruct x2 as [client|err]; [|eapply counts_mono; [apply d_handleDirectError|by right]].
    cdo. destruct x2 as [resp|err]; [apply d_deliver|eapply counts_mono; [apply d_handleDirectError|by right]].
  - intros m r Hd. cthen d_cleanup. subst. by apply counts_ret.
Qed.

Lemma d_processDirectRequest req n : docs (processDirectRequest req) n (delivered n).
Proof.
  unfold processDirectRequest. cdo. cdo. cdo.
  destruct x1 as [client|err]; [|cthen d_cleanup; subst; eapply counts_mono; [apply d_handleDirectError|by right]].
  cdo. destruct x1 as [resp|err]; cthen d_cleanup; subst; [apply d_deliver|eapply counts_mono; [apply d_handleDirectError|by right]].
Qed.

Lemma d_direct_attempt k attempt req last n :
  (forall err, docs (direct_attempts k (attempt + 1) req (Some err)) n (delivered n)) ->
  docs (direct_attempts (S k) attempt req last) n (delivered n).
Proof.
  intros Hk. cbn [direct_attempts]. apply counts_bind, counts_mono with (Q := fun m stop => m = n /\ stop = false).
  - destruct (0 <? attempt); [|by apply counts_ret]. apply counts_perform. cbn. intros. split; [lia|done].
  - intros m stop [-> ->]. cthen d_processDirectRequestWithContext. destruct H1 as [[-> ->]|[[err ->] ->]]; [by left|].
    destruct (isRetryableDirectError err); cbn [negb]; [apply Hk|right; split; [by eexists|done]].
Qed.

Lemma d_direct_attempts k attempt req last n : docs (direct_attempts (S k) attempt req last) n (delivered n).
Proof.
  revert attempt last. induction k as [|k IH]; intros attempt last; apply d_direct_attempt; [|intros; apply IH].
  intros err. right. split; [by eexists|done].
Qed.

Lemma d_processStdinMessageDirect data n :
  (FallbackEnabled (DirectFallback config) = true -> 0 <= MaxRetries (DirectFallback config)) ->
  docs (processStdinMessageDirect config directManager Unmarshal_request duration_text data) n (delivered n).
Proof.
  intros Hr. unfold processStdinMessageDirect.
  destruct (Unmarshal_request data) as [req|]; [|right; split; [by eexists|done]]. cdo.
  destruct (determineRoutingTarget _ _ _); [|eapply counts_mono; [apply d_processGatewayRequest|by left]].
  unfold processRequestWithFallback. destruct (FallbackEnabled _); cbn [negb]; [|apply d_processDirectRequest].
  specialize (Hr eq_refl). unfold attemptDirectWithRetries.
  replace (Z.to_nat (MaxRetries (DirectFallback config) + 1)) with (S (Z.to_nat (MaxRetries (DirectFallback config)))) by lia.
  cthen d_direct_attempts. destruct H2 as [[-> ->]|[[err ->] ->]]; [by left|]. unfold handleFallbackToGateway.
  cthen d_processGatewayRequest. destruct H2 as [-> ->]. cdo. by left.
Qed.

Lemma d_processStdinMessage data n :
  (FallbackEnabled (DirectFallback config) = true -> 0 <= MaxRetries (DirectFallback config)) ->
  docs (processStdinMessage config directManager Unmarshal_request duration_text data) n (delivered n).
Proof.
  intros Hr. unfold processStdinMessage. destruct (Unmarshal_request data) as [req|]; [|right; split; [by eexists|done]].
  cdo. destruct x as [err|]; [cdo; right; split; [by eexists|done]|]. cdo. subst. by apply d_processStdinMessageDirect.
Qed.

Lemma d_handleStdinToWS n :
  (FallbackEnabled (DirectFallback config) = true -> 0 <= MaxRetries (DirectFallback config)) ->
  docs (handleStdinToWS config directManager Unmarshal_request Unmarshal_id duration_text) n (fun m r => m = n + 1 /\ r = Again LStdin).
Proof.
  intros Hr. unfold handleStdinToWS. cdo. destruct x as [|data]; [done|]. cthen d_processStdinMessage.
  destruct H2 as [[-> ->]|[[err ->] ->]]; [by apply counts_ret|]. cthen d_sendErrorResponse. apply counts_ret. by subst.
Qed.

End Once.

(** With a negative number of retries the direct attempts are never made, and not making them counts as success. *)
Lemma negative_retries_drop req :
  FallbackEnabled (DirectFallback config) = true -> MaxRetries (DirectFallback config) < 0 ->
  processRequestWithFallback config duration_text req = mret None.
Proof.
  intros He Hr. unfold processRequestWithFallback, attemptDirectWithRetries. rewrite He. cbn [negb].
  by replace (Z.to_nat (MaxRetries (DirectFallback config) + 1)) with 0%nat by lia.
Qed.

(** *** Fallback and retries *)

(** Weights that ignore everything but requests to clients, fallback failures and the table of pending requests under
    another id than that of the request. *)
Definition noted (id : jvalue) (X : Type) (c : cmd X) : bool :=
  match c with
  | ClientSend _ _ | GwSend _ | Metric MFallbackFailures => true
  | Store i _ | LoadAndDelete i => negb (bool_decide (i = id))
  | _ => false
  end.

Section Quiet.
Variable adm : forall X, cmd X -> X -> Prop.
Variable wt : forall X, cmd X -> X -> Z.
Variable req : Request.
Hypothesis quiet : forall X (c : cmd X) x, noted (req_ID req) X c = false -> wt X c x = 0.

Ltac unnoted := first [done | cbn; by rewrite bool_decide_true].
Ltac silent := repeat first
  [ apply counts_ret
  | apply counts_bind, counts_perform; intros ? ?; rewrite quiet, Z.add_0_r by unnoted
  | apply counts_perform; intros ? ?; rewrite quiet, Z.add_0_r by unnoted
  | case_match ].

Lemma q_sendResponse resp n : counts adm wt (sendResponse resp) n (fun m _ => m = n).
Proof. unfold sendResponse. by silent. Qed.
Lemma q_sendResponseWithTimeout resp t n : counts adm wt (sendResponseWithTimeout duration_text resp t) n (fun m _ => m = n).
Proof. unfold sendResponseWithTimeout. by silent. Qed.
Lemma q_sendErrorResponse id err n : counts adm wt (sendErrorResponse id err) n (fun m _ => m = n).
Proof. unfold sendErrorResponse. cthen q_sendResponse. subst. by silent. Qed.
Lemma q_cleanup n : counts adm wt (cleanup (req_ID req)) n (fun m _ => m = n).
Proof. unfold cleanup. by silent. Qed.
Lemma q_deliver resp n : counts adm wt (deliver req resp) n (fun m _ => m = n).
Proof. unfold deliver. silent. cthen q_sendResponse. subst. by silent. Qed.

Lemma q_gateway_exchange ch g n :
  (forall x, wt _ (GwSend req) x = g) -> counts adm wt (gateway_exchange config duration_text req ch) n (fun m _ => m = n + g).
Proof.
  intros Hg.
  assert (forall err k, counts adm wt (_ ← cleanup (req_ID req); _ ← perform (Metric MErrors);
      _ ← sendErrorResponse (req_ID req) err; mret Exit) k (fun m (_ : Goroutines.next label) => m = k)) as Hfail.
  { intros err k. cthen q_cleanup. subst. silent. cthen q_sendErrorResponse. by subst. }
  unfold gateway_exchange. apply counts_bind, counts_perform. intros x _. rewrite Hg. silent; [apply Hfail| | |].
  - cthen q_sendResponseWithTimeout. subst. silent; [apply Hfail|done].
  - cthen q_cleanup. subst. silent; [done|]. cthen q_sendErrorResponse. by subst.
  - cthen q_cleanup. subst. by silent.
Qed.

Lemma q_processGatewayRequest g n :
  (forall x, wt _ (GwSend req) x = g) ->
  counts adm wt (processGatewayRequest config duration_text req) n (fun m r => m = n + g /\ r = None).
Proof.
  intros Hg. unfold processGatewayRequest. silent. apply counts_bind, counts_go with g.
  - eapply counts_mono; [by apply q_gateway_exchange|]. cbn. lia.
  - by apply counts_ret.
Qed.

Lemma q_fallback err g n :
  (forall x, wt _ (GwSend req) x = g) ->
  counts adm wt (handleFallbackToGateway config duration_text req err) n (fun m r => m = n + g /\ r = None).
Proof.
  intros Hg. unfold handleFallbackToGateway. cthen (q_processGatewayRequest g). destruct H1 as [-> ->]. by silent.
Qed.

(** A direct attempt costs the call; [R] is what it may return. *)
Lemma q_processDirectRequestWithContext g n (R : option string -> Prop) :
  (forall client x, adm _ (ClientSend client req) x -> wt _ (ClientSend client req) x = g) ->
  (forall url x, adm _ (GetClient url) x -> (is_ok x = true \/ g = 0)) ->
  (forall err, R (Some (("failed to get direct client" +:+ ": ") +:+ err)%string)) ->
  (forall err, R (Some (("failed to send direct request" +:+ ": ") +:+ err)%string)) ->
  (forall client resp, adm _ (ClientSend client req) (Ok resp) -> forall r, R r) ->
  counts adm wt (processDirectRequestWithContext req) n (fun m r => m = n + g /\ R r).
Proof.
  intros Hg Hc R1 R2 R3. unfold processDirectRequestWithContext. apply counts_bind. unfold setupDirectRequest. silent.
  apply counts_bind, counts_mono with (Q := fun m r => m = n + g /\ R r).
  - silent.
    + apply counts_bind, counts_perform. intros y Hy. rewrite (Hg _ _ Hy). destruct y as [resp|err].
      * eapply counts_mono; [apply q_deliver|]. cbn. intros m r ->. split; [done|]. by eapply R3.
      * unfold handleDirectError. silent. by split.
    + unfold handleDirectError. silent. split; [|apply R1]. destruct (Hc _ _ H4) as [?|Hz]; [done|]. lia.
  - intros m r [-> Hr]. cthen q_cleanup. subst. by apply counts_ret.
Qed.

(** When the calls cost nothing, nothing does. *)
Section Free.
Hypothesis client_free : forall client x, wt _ (ClientSend client req) x = 0.
Hypothesis gateway_free : forall x, wt _ (GwSend req) x = 0.

Local Notation free p n := (counts adm wt p n (fun m _ => m = n)).

Lemma q_direct_attempts k attempt last n : free (direct_attempts k attempt req last) n.
Proof.
  revert attempt last. induction k as [|k IH]; intros attempt last; cbn [direct_attempts]; [by apply counts_ret|].
  apply counts_bind, counts_mono with (Q := fun m _ => m = n); [destruct (0 <? attempt); by silent|].
  intros m [] ->; [by apply counts_ret|].
  cthen (q_processDirectRequestWithContext 0 n (fun _ => True)); [by right|].
  destruct H1 as [-> _]. rewrite Z.add_0_r. destruct a as [err|]; [|by apply counts_ret].
  destruct (isRetryableDirectError err); cbn [negb]; [apply IH|by apply counts_ret].
Qed.

Lemma q_processDirectRequest n : free (processDirectRequest req) n.
Proof.
  unfold processDirectRequest, handleDirectError. silent.
  - apply counts_bind, counts_perform. intros r _. rewrite client_free, Z.add_0_r. destruct r as [resp|err]; cthen q_cleanup; subst.
    + by apply q_deliver.
    + by silent.
  - cthen q_cleanup. subst. by silent.
Qed.

Lemma q_processRequestWithFallback n : free (processRequestWithFallback config duration_text req) n.
Proof.
  unfold processRequestWithFallback, attemptDirectWithRetries. destruct (FallbackEnabled _); cbn [negb]; [|apply q_processDirectRequest].
  cthen q_direct_attempts. subst. destruct a as [err|]; [|by apply counts_ret].
  eapply counts_mono; [by apply (q_fallback err 0)|]. cbn. lia.
Qed.

Lemma q_processStdinMessageDirect data n :
  Unmarshal_request data = Ok req -> free (processStdinMessageDirect config directManager Unmarshal_request duration_text data) n.
Proof.
  intros Hu. unfold processStdinMessageDirect. rewrite Hu. apply counts_bind, counts_perform. intros ? _. rewrite quiet, Z.add_0_r by done.
  destruct (determineRoutingTarget _ _ _); [apply q_processRequestWithFallback|].
  eapply counts_mono; [by apply (q_processGatewayRequest 0)|]. cbn. lia.
Qed.

Lemma q_processStdinMessage data n :
  Unmarshal_request data = Ok req -> free (processStdinMessage config directManager Unmarshal_request duration_text data) n.
Proof.
  intros Hu. unfold processStdinMessage. rewrite Hu. silent; try done; by apply q_processStdinMessageDirect.
Qed.

End Free.
End Quiet.

Definition anything (X : Type) (c : cmd X) (x : X) : Prop := True.
Definition failures_reported (X : Type) (c : cmd X) (x : X) : Z :=
  match c with Metric MFallbackFailures => 1 | _ => 0 end.

Lemma f_quiet id X (c : cmd X) x : noted id X c = false -> failures_reported X c x = 0.
Proof. destruct c; try done. by destruct m. Qed.

(** The fallback to the gateway cannot fail.  The gateway path hands the request to a goroutine and returns at once, so with
    fallback enabled the processing of a request never returns an error, and on no path, that of the goroutine and
    those of a shutdown included, is a fallback failure counted: a gateway that refuses the request counts as a success. *)
Lemma fallback_never_fails req :
  FallbackEnabled (DirectFallback config) = true ->
  counts anything failures_reported (processRequestWithFallback config duration_text req) 0 (fun n r => n = 0 /\ r = None).
Proof.
  intros He. unfold processRequestWithFallback, attemptDirectWithRetries. rewrite He. cbn [negb].
  cthen (q_direct_attempts anything _ req (f_quiet _)). subst. destruct a as [err|]; [|by apply counts_ret].
  by apply (q_fallback _ _ req (f_quiet _) err 0 0).
Qed.

(** *** One answer per message *)

Lemma counts_fewer {A} adm adm' wt (p : prog cmd label A) n Q :
  (forall X (c : cmd X) x, adm' X c x -> adm X c x) -> counts adm wt p n Q -> counts adm' wt p n Q.
Proof.
  intros Ha. revert n Q. induction p as [A a|A X c k IH|A ch IHch k IH]; cbn; intros n Q Hp; [done| |].
  - intros x Hx. by apply IH, Hp, Ha.
  - destruct Hp as (m & Hm & Hk). exists m. split; [by apply IHch|by apply IH].
Qed.

(** The router is connected, does not shut down and reads [data] next. *)
Definition reads (data : string) (X : Type) (c : cmd X) : X -> Prop :=
  match c in cmd X return X -> Prop with ReadStdin => fun x => x = Line data | c => up _ c end.

(** The uses of an id that is not a possible key as a key of the table: each of them panics. *)
Definition unkeyed (X : Type) (c : cmd X) (x : X) : Z :=
  match c with Store id _ | LoadAndDelete id => if bool_decide (hash id = None) then 1 else 0 | _ => 0 end.

Lemma unkeyed_quiet id X (c : cmd X) x : is_Some (hash id) -> noted id X c = false -> unkeyed X c x = 0.
Proof.
  intros [k Hk]. destruct c; cbn; try done; intros ->%negb_false_iff%bool_decide_eq_true; by rewrite bool_decide_false by congruence.
Qed.

(** C2: One answer per message.  Let the router be connected and not shutting down, and the next message on stdin be one whose
    id, if the message is a request at all, is a possible key of the table (not an array or object: such an id stops
    the router).  Then whichever way the message goes (refused, rate limited, gateway, direct, direct with retries and
    fallback) and whatever the clients answer or fail with, the turn of the stdin loop and the goroutine it starts
    never use an id without a hash as a key, so this message cannot panic the router that way, and they write exactly one
    document to stdout; the turn ends and starts the next one.  (Assumed: error responses can be encoded, and with
    fallback enabled the number of retries is not negative.) *)
Theorem one_answer_per_message data :
  (forall id err, exists s, Marshal_response (error_response id err) = Ok s) ->
  (forall req, Unmarshal_request data = Ok req -> is_Some (hash (req_ID req))) ->
  (FallbackEnabled (DirectFallback config) = true -> 0 <= MaxRetries (DirectFallback config)) ->
  counts (reads data) unkeyed (handleStdinToWS config directManager Unmarshal_request Unmarshal_id duration_text) 0
    (fun n _ => n = 0) /\
  counts (reads data) written (handleStdinToWS config directManager Unmarshal_request Unmarshal_id duration_text) 0
    (fun n r => n = 1 /\ r = Again LStdin).
Proof.
  intros He Hk Hr. split.
  - unfold handleStdinToWS. apply counts_bind, counts_perform. cbn [reads]. intros ? ->. cbn [unkeyed]. rewrite Z.add_0_r.
    apply counts_bind. eapply counts_mono with (Q := fun m _ => m = 0).
    + destruct (Unmarshal_request data) as [req|err] eqn:Eu.
      * apply (q_processStdinMessage _ _ req); [|done..]. intros X c x. by apply unkeyed_quiet, Hk.
      * unfold processStdinMessage. rewrite Eu. by apply counts_ret.
    + intros m [err|] ->; [|by apply counts_ret].
      cthen (q_sendErrorResponse (reads data) unkeyed initialization); [intros X c x; apply unkeyed_quiet; by eexists|].
      by apply counts_ret.
  - eapply counts_fewer; [|by apply (d_handleStdinToWS He 0)]. intros X c x. destruct c; try done. by intros ->.
Qed.

(** A direct client is found and refuses every request, and the router does not shut down. *)
Definition refusing (X : Type) (c : cmd X) : X -> Prop :=
  match c in cmd X return X -> Prop with
  | GetClient _ => fun x => is_ok x = true
  | ClientSend _ _ => fun x => is_ok x = false
  | Sleep => fun x => x = false
  | _ => fun _ => True
  end.

(** The requests given to a direct client or to the gateway client. *)
Definition calls (req : Request) (X : Type) (c : cmd X) (x : X) : Z :=
  match c with ClientSend _ r | GwSend r => if bool_decide (r = req) then 1 else 0 | _ => 0 end.

Lemma calls_quiet req id X (c : cmd X) x : noted id X c = false -> calls req X c x = 0.
Proof. by destruct c. Qed.

(** The message of every error of a direct client contains the word the test looks for. *)
Lemma direct_errors_retryable msg err :
  msg ∈ ["failed to get direct client: "; "failed to send direct request: "] -> isRetryableDirectError (msg +:+ err)%string = true.
Proof.
  intros Hm. unfold isRetryableDirectError. apply orb_true_iff. right. apply orb_true_iff. left. apply orb_true_iff. left.
  apply Contains_spec. rewrite !elem_of_cons, elem_of_nil in Hm. destruct Hm as [->|[->|[]]].
  - by exists "failed to get "%string, (" client: " +:+ err)%string.
  - by exists "failed to send "%string, (" request: " +:+ err)%string.
Qed.

Lemma c_direct_attempts k attempt req last n :
  counts refusing (calls req) (direct_attempts k attempt req last) n
    (fun m r => m = n + Z.of_nat k /\ (k <> O -> is_Some r) /\ (k = O -> r = last)).
Proof.
  revert attempt last n. induction k as [|k IH]; intros attempt last n; cbn [direct_attempts].
  { apply counts_ret. split_and!; [lia|done|done]. }
  apply counts_bind, counts_mono with (Q := fun m stop => m = n /\ stop = false).
  - destruct (0 <? attempt); [apply counts_perform; cbn; intros ? ->; split; [lia|done]|by apply counts_ret].
  - intros m stop [-> ->].
    cthen (q_processDirectRequestWithContext refusing _ req (calls_quiet req _) 1 n
             (fun r => exists err, r = Some err /\ isRetryableDirectError err = true)).
    + intros client x _. cbn. by rewrite bool_decide_true.
    + intros url x Hx. by left.
    + intros err. eexists. split; [done|]. by apply (direct_errors_retryable "failed to get direct client: "); left.
    + intros err. eexists. split; [done|]. by apply (direct_errors_retryable "failed to send direct request: "); right; left.
    + destruct H1 as [-> (err & -> & Hretry)]. rewrite Hretry. cbn [negb]. eapply counts_mono; [apply IH|]. cbn beta.
      intros m r (-> & Hs & Hl). split_and!; [lia| |done]. intros _. destruct k; [rewrite Hl by done; by eexists|by apply Hs].
Qed.

(** A failing call is repeated.  Every error of a direct client is classified as retryable (its own message contains the
    word the classification looks for), so with fallback enabled a request that the client refuses is given to it
    MaxRetries + 1 times and then to the gateway once more, whatever the error was and whether or not the call may be
    repeated: MaxRetries + 2 calls in all. *)
Lemma refused_calls_repeated req :
  FallbackEnabled (DirectFallback config) = true -> 0 <= MaxRetries (DirectFallback config) ->
  counts refusing (calls req) (processRequestWithFallback config duration_text req) 0
    (fun n r => n = MaxRetries (DirectFallback config) + 2 /\ r = None).
Proof.
  intros He Hr. unfold processRequestWithFallback, attemptDirectWithRetries. rewrite He. cbn [negb].
  cthen c_direct_attempts. destruct H1 as (-> & Hs & _). destruct Hs as [err ->]; [lia|].
  eapply counts_mono; [apply (q_fallback _ _ req (calls_quiet req _) err 1)|].
  - intros x. cbn. by rewrite bool_decide_true.
  - cbn beta. intros m r [-> ->]. split; [lia|done].
Qed.

(** ** Reconnection *)

(** The gateway refuses every connection and the manager is not stopped. *)
Definition unreachable_gateway (X : Type) (c : cmd X) : X -> Prop :=
  match c in cmd X return X -> Prop with
  | Connect => fun x => is_Some x
  | ConnDone => fun x => x = false
  | _ => fun _ => True
  end.
Definition connects (X : Type) (c : cmd X) (x : X) : Z := match c with Connect => 1 | _ => 0 end.

(** The goroutine makes one attempt in each of [n] more turns and then ends; turn [i] is entered with the delay
    2{^i} seconds, at most a minute. *)
Fixpoint attempts_left (n i : nat) (l : label) : Prop :=
  match n with
  | O => False
  | S n =>
      l = LConn (Z.min maxBackoff (2 ^ Z.of_nat i * Second)) (Z.of_nat i) /\
      counts unreachable_gateway connects (bodies l) 0
        (fun k r => k = 1 /\ match r with Exit => n = O | Again l' => attempts_left n (S i) l' end)
  end.

Lemma attempts_left_from n i :
  (n + i = 11)%nat -> (i <= 10)%nat -> attempts_left n i (LConn (Z.min maxBackoff (2 ^ Z.of_nat i * Second)) (Z.of_nat i)).
Proof.
  revert i. induction n as [|n IH]; intros i Hn Hi; [lia|]. split; [done|]. cbn [body]. unfold maintainConnection.
  apply counts_bind, counts_perform. cbn [unreachable_gateway connects]. intros ? ->. rewrite Z.add_0_r.
  apply counts_bind, counts_perform. intros ? _. apply counts_bind, counts_perform. cbn [unreachable_gateway connects]. intros ? [err ->].
  do 2 (apply counts_bind, counts_perform; intros ? _). unfold maxAttempts. destruct (Z.leb_spec 10 (Z.of_nat i)).
  - apply counts_ret. split; [done|]. lia.
  - apply counts_bind, counts_perform. intros ? _. apply counts_ret. split; [done|].
    rewrite next_backoff_doubles by lia. replace (Z.of_nat i + 1) with (Z.of_nat (S i)) by lia. apply IH; lia.
Qed.

(** Reconnection gives up: against a gateway that refuses every connection, the connection manager makes exactly eleven
    attempts, with delays of 1, 2, 4, ... seconds and at most a minute between them (the float64 doubling is exact), and
    then its goroutine ends, so the router stays in the error state. *)
Lemma reconnection_bounded : attempts_left 11 0 (LConn initialBackoff 0).
Proof. apply (attempts_left_from 11 0); lia. Qed.

End Typing.

(** ** Runs *)

Existing Instances Codec.codec Adaptive.ascii_lower.

(** Messages of the examples: the id of the text array is an empty array, that of any other the number 1. *)
Definition sample_id (data : string) : jvalue := if bool_decide (data = "array"%string) then JArray [] else JNumber 1.
Definition sample_request (data : string) : result string Request :=
  Ok {| req_JSONRPC := "2.0"; Method := "tools/call"; ReqParams := JNull; req_ID := sample_id data |}.
Definition sample_fallback : Fallback :=
  {| FallbackEnabled := true; MaxRetries := 2; GatewayOnlyMethods := []; DirectOnlyMethods := [] |}.
Definition sample_config : Config :=
  {| RequestTimeoutMs := 30000; DirectEnabled := false; DirectMaxConnections := 0; DirectFallback := sample_fallback |}.
Definition no_text (d : Z) : string := "30s".
Definition no_conversion (x : GoFloat.float) : Z := 0.

(** What the environment answers: the next line, the next response of the gateway, whether a wait times out. *)
Definition respond (line : string) (resp : option Response) (timeout : bool) (s : State) (X : Type) (c : cmd X) : X :=
  match c in cmd X return X with
  | ReadStdin => Line line
  | RateWait | GwSend _ | Connect | Ping => None
  | Done => cancelled s
  | Sleep => false
  | Since | Now => 0
  | QEnqueue data now =>
      match Enqueue data (next_ctx s) now (requestQueue s) (qchans s) with
      | (Ok ch, _, _) => Ok (next_ctx s, ch) | (Err n, _, _) => Err n
      end
  | QWait _ ch => if timeout then QueueTimeout else QueueResult (default None (head (buffered (qchan_of ch s))))
  | QDequeueAll => fst (DequeueAll (requestQueue s))
  | QCtxErr ctx => bool_decide (ctx ∈ ended s) || cancelled s
  | QCancel _ | QSend _ _ | QTrySend _ _ | QClose _ | QClear _ => tt
  | MakeChan => next_rchan s
  | Load id | LoadAndDelete id => k ← hash id; pendingReqs s !! k
  | Range => map fst (map_to_list (pendingReqs s))
  | Send ch _ => match buffer (chan_of ch s) with [] => Sent | _ => Full end
  | Wait ch => if timeout then WaitTimeout else Answered (head (buffer (chan_of ch s)))
  | GwReceive => Received resp
  | GwIsConnected => true
  | GetClient _ => Err "connection refused"%string
  | ClientSend _ _ => Err "connection refused"%string
  | Out _ _ => Written
  | ConnState => GetState (connMgr s)
  | Notification => match stateChangeChan (connMgr s) with st :: _ => Notified st | [] => NotifyDone end
  | Tick => TickCheck
  | ConnDone => cm_cancelled (connMgr s)
  | Store _ _ | Close _ | Metric _ | Duration _ _ | ResponseSize _ | SetState _ | AddRetry
  | AwaitShutdown | CancelConn | CloseConn | CancelRouter => tt
  end.

Notation sample_start := (start sample_config 100 false sample_request sample_id no_text no_conversion).
Notation sample_bodies := (body sample_config false sample_request sample_id no_text no_conversion).
Definition moves (n t : nat) (line : string) (resp : option Response) (timeout : bool) : list (nat * (State -> forall X, cmd X -> X)) :=
  replicate n (t, respond line resp timeout).
Definition play (sched : list (nat * (State -> forall X, cmd X -> X))) : option (world cmd State label) :=
  run exec panics sample_bodies sched sample_start.

Lemma play_reachable sched w : play sched = Some w -> reachable exec panics sample_bodies (fun _ _ => False) sample_start w.
Proof. apply run_reachable, reach_init. Qed.

(** The goroutines: 0 stdin, 1 socket, 2 state changes, 3 connection, 4 shutdown, then one per request. *)
Definition connecting := moves 5 3 "" None false.
Definition pong : Response := {| resp_JSONRPC := "2.0"; Result := JBool true; RespError := None; resp_ID := JNumber 1 |}.
Definition final {A} (f : world cmd State label -> A) (sched : list (nat * (State -> forall X, cmd X -> X))) : option A := f <$> play sched.

(** A request and its answer. *)
Definition exchange := connecting ++ moves 8 0 "a" None false ++ moves 1 5 "" None false
  ++ moves 6 1 "" (Some pong) false ++ moves 5 5 "" None false.
Example exchange_answered : final (fun w => (stdout (st w), panicked w)) exchange = Some ([Codec.encode_response pong], false).
Proof. vm_compute. reflexivity. Qed.

(** An id that is an array stops the router. *)
Definition array_id := connecting ++ moves 6 0 "array" None false.
Example array_id_panics : final (fun w => (panicked w, cancelled (st w))) array_id = Some (true, false).
Proof. vm_compute. reflexivity. Qed.

(** Two requests with one id: the first one's timeout closes the channel of the second, which is answered with null. *)
Definition same_id := connecting ++ moves 8 0 "a" None false ++ moves 1 0 "" None false ++ moves 8 0 "b" None false
  ++ moves 1 5 "" None false ++ moves 1 6 "" None false ++ moves 8 5 "" None true ++ moves 5 6 "" None false.
Example same_id_null :
  final (fun w => stdout (st w)) same_id
  = Some [Codec.encode_response (error_response (JNumber 1) "request timeout after 30s"); "null"%string].
Proof. vm_compute. reflexivity. Qed.

(** At the shutdown the channel of one request is closed twice: Stop (4) reads the channel of the first request, whose goroutine
    (5) times out and closes it, a second request with the id is stored, and Stop removes that one and closes the first. *)
Definition double_close := connecting ++ moves 8 0 "a" None false ++ moves 5 0 "b" None false ++ moves 1 5 "" None false
  ++ moves 6 4 "" None false ++ moves 3 5 "" None true ++ moves 2 0 "" None false ++ moves 2 4 "" None false.
Example shutdown_double_close : final (fun w => (panicked w, cancelled (st w), pendingReqs (st w))) double_close = Some (true, true, ∅).
Proof. vm_compute. reflexivity. Qed.

(** The state is read before the request is queued: a connection made in between drains an empty queue, and the request
    waits in the queue of a connected router with no notification to come. *)
Definition lost_wakeup := moves 3 0 "a" None false ++ connecting ++ moves 5 2 "" None false ++ moves 2 0 "" None false.
Example queued_while_connected :
  final (fun w => (state (connMgr (st w)), stateChangeChan (connMgr (st w)), Size (requestQueue (st w)), stdout (st w))) lost_wakeup
  = Some (StateConnected, [], 1, []).
Proof. vm_compute. reflexivity. Qed.

(** ** Witnesses *)

Lemma sample_ids data req : sample_request data = Ok req -> sample_id data = req_ID req.
Proof. by intros [= <-]. Qed.

Lemma channels_never_misused_witness :
  exists w t p id, play array_id = Some w /\ panicked w = true /\ tasks w !! t = Some p /\ keyed_by id p /\ hash id = None.
Proof.
  destruct (fmap_Some_1 _ _ _ array_id_panics) as (w & E & Hp). injection Hp as Hp Hs.
  destruct (channels_never_misused sample_config 100 false sample_request sample_id no_text no_conversion sample_ids w
    (play_reachable _ _ E)) as [Hc _].
  destruct (Hc (eq_sym Hp)) as (t & p & H1 & [(i & H2 & H3)|(H2 & _)]).
  - exists w, t, p, i. exact (conj E (conj (eq_sym Hp) (conj H1 (conj H2 H3)))).
  - rewrite <- Hs in H2. discriminate H2.
Defined.

Lemma stdout_solicited_witness :
  exists w r, play exchange = Some w /\ Marshal_response r = Ok (Codec.encode_response pong) /\
    ((exists m, m ∈ received (st w) /\ sample_id m = resp_ID r) \/ Some r ∈ direct_replies (st w)).
Proof.
  destruct (fmap_Some_1 _ _ _ exchange_answered) as (w & E & Hs). injection Hs as Hs _.
  destruct (stdout_solicited sample_config 100 false sample_request sample_id no_text no_conversion sample_ids w
    (Codec.encode_response pong) (play_reachable _ _ E)) as [Hn|(r & Hr & Ho)].
  - rewrite <- Hs. left.
  - discriminate Hn.
  - exists w, r. exact (conj E (conj Hr Ho)).
Defined.


Lemma one_answer_per_message_witness :
  counts (reads "a") unkeyed (handleStdinToWS sample_config true sample_request sample_id no_text) 0 (fun n _ => n = 0) /\
  counts (reads "a") written (handleStdinToWS sample_config true sample_request sample_id no_text) 0
    (fun n r => n = 1 /\ r = Again LStdin).
Proof. apply one_answer_per_message; [by eexists|intros req [= <-]; by eexists|intros _; cbn; lia]. Defined.

Definition ping : Request := {| req_JSONRPC := "2.0"; Method := "tools/call"; ReqParams := JNull; req_ID := JNumber 1 |}.

Lemma fallback_never_fails_witness :
  counts anything failures_reported (processRequestWithFallback sample_config no_text ping) 0 (fun n r => n = 0 /\ r = None).
Proof. apply fallback_never_fails. reflexivity. Defined.

Lemma refused_calls_repeated_witness :
  counts refusing (calls ping) (processRequestWithFallback sample_config no_text ping) 0 (fun n r => n = 4 /\ r = None).
Proof. apply (refused_calls_repeated sample_config no_text ping); [reflexivity|cbn; lia]. Defined.

End MsgRouterTheorems.
