(* ===== verification/ConfigValidation.v ===== *)
(** * Validation of the gateway's configuration

    [services/gateway/internal/config/validation.go] on the structures of types.go (without the fields no
    validator reads; a nested structure with one such field is that field).  Validators run in the heap of gateway errors; nil is [None].  [url.Parse] is
    the class of [Validation], [time.ParseDuration] and the text of a float are parameters. *)
From S2P Require Import Prelude GoStrings GoUnicode GoFloat GatewayErrors ErrorCatalog Validation Discovery LoadBalancer Breaker GatewayRouter.
From stdpp Require Import pretty.
#[local] Open Scope Z_scope.

Module GwConfig.
Import GwErrors.

Local Infix "+s" := String.append (at level 50, left associativity).
Local Notation "m ->> f" := (mbind f m) (at level 61, left associativity).

(** ** Configuration *)

Record TLSConfig := mkTLS { tls_Enabled : bool; CertFile : string; KeyFile : string; ClientAuth : string; MinVersion : string }.
Record StdioFrontendModeConfig := mkMode { mode_Type : string; mode_Path : string }.
Record StdioFrontendConfig := mkStdioFrontend {
  stdio_Enabled : bool; Modes : list StdioFrontendModeConfig; MaxConcurrentClients : Z; ClientTimeout : Z }.
Record ServerConfig := mkServer {
  srv_Host : string; srv_Port : Z; TCPPort : Z; MetricsPort : Z; HealthPort : Z;
  MaxConnections : Z; MaxConnectionsPerIP : Z; ConnectionBufferSize : Z;
  ReadTimeout : Z; WriteTimeout : Z; IdleTimeout : Z; srv_Protocol : string; TLS : TLSConfig; StdioFrontend : StdioFrontendConfig }.
Record JWTConfig := mkJWT { jwt_Issuer : string; jwt_Audience : string; SecretKeyEnv : string; PublicKeyPath : string }.
Record OAuth2Config := mkOAuth2 { ClientID : string; TokenEndpoint : string; IntrospectEndpoint : string; JWKSEndpoint : string }.
Record AuthConfig := mkAuth { auth_Provider : string; JWT : JWTConfig; OAuth2 : OAuth2Config }.
Record SessionConfig := mkSessions { sess_Provider : string; TTL : Z; sess_CleanupInterval : Z }.
Record CircuitBreakerConfig := mkBreakerConfig {
  cb_Enabled : bool; FailureThreshold : Z; SuccessThreshold : Z; TimeoutSeconds : Z; MaxRequests : Z; IntervalSeconds : Z }.
Record RoutingConfig := mkRouting { Strategy : string; HealthCheckInterval : string; rt_CircuitBreaker : CircuitBreakerConfig }.
Record KubernetesDiscoveryConfig := mkK8s { InCluster : bool; ConfigPath : string }.
Record StdioServiceConfig := mkStdioService { ss_Name : string; Command : list string; ss_Weight : Z }.
Record WebSocketServiceConfig := mkWsService { ws_Name : string; ws_Endpoints : list string; ws_Weight : Z }.
Record SSEServiceConfig := mkSseService { sse_Name : string; BaseURL : string; sse_Weight : Z; sse_Timeout : Z }.
Record ServiceDiscoveryConfig := mkDiscovery {
  disc_Provider : string; disc_Mode : string; Kubernetes : KubernetesDiscoveryConfig;
  Static : list (string * list Discovery.EndpointConfig);       (* in the order of the range loop *)
  Stdio : list StdioServiceConfig; WebSocket : list WebSocketServiceConfig; SSE : list SSEServiceConfig; RefreshRate : Z }.
Record RateLimitConfig := mkRateLimit { rl_Enabled : bool; rl_Provider : string; RequestsPerSec : Z; Burst : Z; rl_CleanupInterval : Z }.
Record MetricsConfig := mkMetrics { met_Enabled : bool; met_Endpoint : string; met_Path : string }.
Record LoggingConfig := mkLogging { Level : string; Format : string }.
Record TracingConfig := mkTracing {
  tr_Enabled : bool; ServiceName : string; SamplerType : string; SamplerParam : float; ExporterType : string; OTLPEndpoint : string }.
Record Config := mkConfig {
  Version : Z; Server : ServerConfig; Auth : AuthConfig; Sessions : SessionConfig; Routing : RoutingConfig;
  SDiscovery : ServiceDiscoveryConfig; RateLimit : RateLimitConfig; CircuitBreaker : CircuitBreakerConfig;
  Metrics : MetricsConfig; Logging : LoggingConfig; Tracing : TracingConfig }.

Section Validators.
Context `{Validate.NetParsers}.
Variable captureStack : Z -> list string.
Variable ParseDuration : string -> result string Z.
Variable float_text : float -> string.    (* the %f verb *)

Local Notation NewValidationError := (NewValidationError captureStack).
Local Notation NewEmptyFieldError := (NewEmptyFieldError captureStack).

(** ** Checks *)

(** A validator: nil, or an error value. *)
Notation check := (op (option error)).
Definition ok : check := mret None.
Definition raise (m : op (option nat)) : check := p ← m; mret (as_error p).
Definition refuse (b : bool) (m : op (option nat)) : check := if b then raise m else ok.

(** [if err := c; err != nil { return err }], one after the other. *)
Fixpoint all_of (cs : list check) : check :=
  match cs with
  | [] => ok
  | c :: cs => e ← c; match e with None => all_of cs | Some _ => mret e end
  end.

(** [return customerrors.Wrap(err, message).WithComponent("config")]. *)
Definition wrap_err (message : string) (err : error) : check :=
  raise (Wrap captureStack (Some err) message ->> WithComponent "config").
Definition wrapped (message : string) (c : check) : check :=
  e ← c; match e with None => ok | Some err => wrap_err message err end.

Definition contains (slice : list string) (item : string) : bool := existsb (fun s => bool_decide (s = item)) slice.

(** The %v verb on a slice of strings. *)
Definition list_text (l : list string) : string := "[" +s String.concat " " l +s "]".

(** A setting that must be one of a list. *)
Definition one_of (what setting : string) (valid : list string) : check :=
  refuse (negb (contains valid setting))
    (NewValidationError ("invalid " +s what +s ": " +s setting +s ", must be one of " +s list_text valid)).
Definition one_of_or_empty (what setting : string) (valid : list string) : check :=
  if bool_decide (setting = EmptyString) then ok else one_of what setting valid.

Definition non_negative (what : string) (z : Z) : check :=
  refuse (z <? 0) (NewValidationError (what +s " cannot be negative, got " +s pretty z)).

(** ** Server *)

Definition validatePort (name : string) (port : Z) (allowZero : bool) : check :=
  if (port =? 0) && allowZero then ok
  else refuse ((port <? 1) || (65535 <? port))
         (NewValidationError (name +s " must be between 1 and 65535, got " +s pretty port)).

Definition validateServerPorts (c : ServerConfig) : check :=
  all_of [validatePort "port" (srv_Port c) false; validatePort "TCP port" (TCPPort c) true;
          validatePort "metrics port" (MetricsPort c) true; validatePort "health port" (HealthPort c) true].

Definition validateServerProtocol (protocol : string) : check :=
  one_of_or_empty "protocol" protocol ["websocket"; "tcp"; "both"; "stdio"].

Definition validateServerTimeouts (c : ServerConfig) : check :=
  all_of [non_negative "read timeout" (ReadTimeout c); non_negative "write timeout" (WriteTimeout c);
          non_negative "idle timeout" (IdleTimeout c)].

Definition validateConnectionLimits (c : ServerConfig) : check :=
  all_of [non_negative "max connections" (MaxConnections c); non_negative "max connections per IP" (MaxConnectionsPerIP c);
          non_negative "connection buffer size" (ConnectionBufferSize c)].

Definition ValidateTLSConfig (c : TLSConfig) : check :=
  if negb (tls_Enabled c) then ok
  else all_of
    [refuse (bool_decide (CertFile c = EmptyString)) (NewValidationError "cert file required when TLS is enabled" ->> WithComponent "config");
     refuse (bool_decide (KeyFile c = EmptyString)) (NewValidationError "key file required when TLS is enabled" ->> WithComponent "config");
     one_of_or_empty "client auth mode" (ClientAuth c) ["none"; "request"; "require"];
     if bool_decide (MinVersion c = EmptyString) then ok
     else refuse (negb (contains ["TLS1.2"; "TLS1.3"] (MinVersion c)))
            (NewValidationError ("TLS version too old or invalid: " +s MinVersion c +s ", must be one of " +s list_text ["TLS1.2"; "TLS1.3"]))].

Definition ValidateStdioFrontendModeConfig (c : StdioFrontendModeConfig) : check :=
  all_of
    [one_of "stdio mode type" (mode_Type c) ["unix_socket"; "stdin_stdout"; "named_pipes"];
     refuse (bool_decide (mode_Type c = "unix_socket") && bool_decide (mode_Path c = EmptyString))
       (NewEmptyFieldError "path" ->> WithComponent "config");
     refuse (bool_decide (mode_Type c = "named_pipes") && bool_decide (mode_Path c = EmptyString))
       (NewEmptyFieldError "path" ->> WithComponent "config")].

(** A loop over a slice: each element with the message that names its index. *)
Definition each {A} (message : Z -> string) (f : A -> check) (l : list A) : check :=
  all_of (imap (fun i x => wrapped (message (Z.of_nat i)) (f x)) l).

Definition ValidateStdioFrontendConfig (c : StdioFrontendConfig) : check :=
  if negb (stdio_Enabled c) then ok
  else all_of
    [each (fun i => "invalid stdio mode config at index " +s pretty i) ValidateStdioFrontendModeConfig (Modes c);
     refuse (MaxConcurrentClients c <? 0) (NewValidationError "max concurrent clients cannot be negative" ->> WithComponent "config");
     refuse (ClientTimeout c <? 0) (NewValidationError "client timeout cannot be negative" ->> WithComponent "config")].

Definition ValidateServerConfig (c : ServerConfig) : check :=
  all_of
    [refuse (bool_decide (srv_Host c = EmptyString)) (NewEmptyFieldError "host");
     validateServerPorts c; validateServerProtocol (srv_Protocol c); validateServerTimeouts c; validateConnectionLimits c;
     wrapped "invalid TLS configuration" (ValidateTLSConfig (TLS c));
     wrapped "invalid stdio frontend configuration" (ValidateStdioFrontendConfig (StdioFrontend c))].

(** ** Authentication and sessions *)

Definition ValidateJWTConfig (c : JWTConfig) : check :=
  all_of
    [refuse (bool_decide (jwt_Issuer c = EmptyString)) (NewEmptyFieldError "issuer" ->> WithComponent "config");
     refuse (bool_decide (jwt_Audience c = EmptyString)) (NewValidationError "JWT audience required");
     refuse (bool_decide (PublicKeyPath c = EmptyString) && bool_decide (SecretKeyEnv c = EmptyString))
       (NewValidationError "either public key path or secret key env variable required")].

(** [if _, err := url.Parse(u); err != nil { return Wrap(err, message)... }]. *)
Definition parses_url (message u : string) : check :=
  match Validate.url_Parse u with Ok _ => ok | Err reason => wrap_err message (EStd (TextError reason)) end.
Definition url_or_empty (message u : string) : check :=
  if bool_decide (u = EmptyString) then ok else parses_url message u.

Definition ValidateOAuth2Config (c : OAuth2Config) : check :=
  all_of
    [refuse (bool_decide (ClientID c = EmptyString)) (NewValidationError "OAuth2 client ID required");
     url_or_empty "invalid token endpoint URL" (TokenEndpoint c);
     url_or_empty "invalid introspect endpoint URL" (IntrospectEndpoint c);
     url_or_empty "invalid JWKS endpoint URL" (JWKSEndpoint c)].

Definition ValidateAuthConfig (c : AuthConfig) : check :=
  all_of
    [one_of "auth provider" (auth_Provider c) ["none"; "jwt"; "oauth2"];
     if bool_decide (auth_Provider c = "jwt") then ValidateJWTConfig (JWT c)
     else if bool_decide (auth_Provider c = "oauth2") then ValidateOAuth2Config (OAuth2 c)
     else ok].

Definition ValidateSessionConfig (c : SessionConfig) : check :=
  all_of
    [one_of_or_empty "session provider" (sess_Provider c) ["redis"; "memory"];
     refuse (TTL c <? 0) (NewValidationError "session TTL cannot be negative");
     refuse (sess_CleanupInterval c <? 0) (NewValidationError "cleanup interval cannot be negative")].

(** ** Routing, limits, reporting *)

Definition ValidateCircuitBreakerConfig (c : CircuitBreakerConfig) : check :=
  if negb (cb_Enabled c) then ok
  else all_of
    [refuse (FailureThreshold c <=? 0) (NewValidationError ("failure threshold must be positive, got " +s pretty (FailureThreshold c)));
     refuse (SuccessThreshold c <=? 0) (NewValidationError ("success threshold must be positive, got " +s pretty (SuccessThreshold c)));
     non_negative "timeout" (TimeoutSeconds c); non_negative "max requests" (MaxRequests c); non_negative "interval" (IntervalSeconds c)].

Definition strategies : list string := ["round_robin"; "least_connections"; "weighted"; "random"; "hash"].

Definition ValidateRoutingConfig (c : RoutingConfig) : check :=
  all_of
    [one_of_or_empty "routing strategy" (Strategy c) strategies;
     if bool_decide (HealthCheckInterval c = EmptyString) then ok
     else match ParseDuration (HealthCheckInterval c) with
          | Ok _ => ok
          | Err reason => wrap_err "invalid health check interval" (EStd (TextError reason))
          end;
     ValidateCircuitBreakerConfig (rt_CircuitBreaker c)].

Definition ValidateRateLimitConfig (c : RateLimitConfig) : check :=
  if negb (rl_Enabled c) then ok
  else all_of
    [one_of "rate limit provider" (rl_Provider c) ["redis"; "memory"];
     refuse (RequestsPerSec c <=? 0) (NewValidationError ("requests per second must be positive, got " +s pretty (RequestsPerSec c)));
     non_negative "burst" (Burst c);
     refuse (Burst c <? RequestsPerSec c)
       (NewValidationError ("burst should be at least equal to requests per second, got burst=" +s pretty (Burst c) +s " rps=" +s pretty (RequestsPerSec c)));
     non_negative "cleanup interval" (rl_CleanupInterval c)].

Definition ValidateMetricsConfig (c : MetricsConfig) : check :=
  if negb (met_Enabled c) then ok
  else all_of
    [refuse (bool_decide (met_Endpoint c = EmptyString)) (NewValidationError "endpoint required when metrics enabled");
     refuse (bool_decide (met_Path c = EmptyString)) (NewValidationError "path required when metrics enabled");
     refuse (negb (HasPrefix (met_Path c) "/")) (NewValidationError ("path must start with /, got: " +s met_Path c))].

Definition ValidateLoggingConfig (c : LoggingConfig) : check :=
  all_of
    [one_of_or_empty "log level" (Level c) ["debug"; "info"; "warn"; "error"; "fatal"; "panic"];
     one_of_or_empty "log format" (Format c) ["json"; "text"; "console"]].

Definition validateOTLPEndpoint (endpoint : string) : check :=
  match Validate.url_Parse endpoint with
  | Err reason => wrap_err "invalid OTLP endpoint URL" (EStd (TextError reason))
  | Ok u => refuse (bool_decide (Validate.Scheme u = EmptyString) || bool_decide (Validate.Host u = EmptyString))
              (NewValidationError "OTLP endpoint must be a complete URL with scheme and host")
  end.

Definition validateTracingExporter (c : TracingConfig) : check :=
  if bool_decide (ExporterType c = EmptyString) then ok
  else all_of
    [one_of "exporter type" (ExporterType c) ["otlp"; "jaeger"; "zipkin"; "stdout"];
     if bool_decide (ExporterType c = "otlp") && negb (bool_decide (OTLPEndpoint c = EmptyString))
     then validateOTLPEndpoint (OTLPEndpoint c) else ok].

Definition validateTracingSampler (c : TracingConfig) : check :=
  all_of
    [refuse (SFltb (SamplerParam c) fzero || SFltb fone (SamplerParam c))
       (NewValidationError ("sampler param must be between 0 and 1, got " +s float_text (SamplerParam c)));
     one_of_or_empty "sampler type" (SamplerType c) ["const"; "probabilistic"; "rateLimiting"; "remote"]].

Definition ValidateTracingConfig (c : TracingConfig) : check :=
  if negb (tr_Enabled c) then ok
  else all_of
    [refuse (bool_decide (ServiceName c = EmptyString)) (NewValidationError "service name required when tracing enabled");
     validateTracingExporter c; validateTracingSampler c].

(** ** Discovery *)

Definition isDiscoveryConfigured (c : ServiceDiscoveryConfig) : bool :=
  negb (bool_decide (disc_Provider c = EmptyString)) || negb (bool_decide (disc_Mode c = EmptyString)).

Definition discovery_providers : list string := ["static"; "kubernetes"; "consul"; "stdio"; "websocket"; "sse"].

(** The provider, or a plain error. *)
Definition validateDiscoveryProvider (c : ServiceDiscoveryConfig) : result error string :=
  let provider := if bool_decide (disc_Provider c = EmptyString) then disc_Mode c else disc_Provider c in
  if contains discovery_providers provider then Ok provider
  else Err (EStd (TextError ("invalid discovery provider: " +s provider +s ", must be one of " +s list_text discovery_providers))).

Definition validateRefreshRate (d : Z) : check := refuse (d <? 0) (NewValidationError "refresh rate cannot be negative").

Definition static_endpoint (service : string) (i : nat) (e : Discovery.EndpointConfig) : check :=
  all_of
    [refuse (bool_decide (Discovery.cfg_URL e = EmptyString))
       (NewValidationError ("endpoint URL cannot be empty for service " +s service +s " at index " +s pretty (Z.of_nat i)));
     parses_url ("invalid endpoint URL for service " +s service +s " at index " +s pretty (Z.of_nat i)) (Discovery.cfg_URL e)].

Definition ValidateStaticDiscoveryConfig (endpoints : list (string * list Discovery.EndpointConfig)) : check :=
  all_of
    (refuse (zlen endpoints =? 0) (NewValidationError "static discovery requires at least one endpoint")
     :: map (fun p => all_of (refuse (bool_decide (fst p = EmptyString)) (NewValidationError "service name cannot be empty")
                              :: imap (static_endpoint (fst p)) (snd p))) endpoints).

Definition ValidateKubernetesDiscoveryConfig (c : KubernetesDiscoveryConfig) : check :=
  refuse (negb (InCluster c) && bool_decide (ConfigPath c = EmptyString))
    (NewValidationError "either in-cluster mode must be enabled or config path must be provided").

Definition ValidateStdioServiceConfig (c : StdioServiceConfig) : check :=
  all_of
    [refuse (bool_decide (ss_Name c = EmptyString)) (NewValidationError "service name cannot be empty");
     refuse (zlen (Command c) =? 0) (NewValidationError "command cannot be empty");
     refuse (ss_Weight c <? 0) (NewValidationError "weight cannot be negative")].
Definition ValidateStdioDiscoveryConfig (l : list StdioServiceConfig) : check :=
  each (fun i => "invalid stdio service config at index " +s pretty i) ValidateStdioServiceConfig l.

Definition ValidateWebSocketServiceConfig (c : WebSocketServiceConfig) : check :=
  all_of
    [refuse (bool_decide (ws_Name c = EmptyString)) (NewValidationError "service name cannot be empty");
     refuse (zlen (ws_Endpoints c) =? 0) (NewValidationError "at least one endpoint required");
     all_of (imap (fun i u => parses_url ("invalid endpoint URL at index " +s pretty (Z.of_nat i)) u) (ws_Endpoints c));
     refuse (ws_Weight c <? 0) (NewValidationError "weight cannot be negative")].
Definition ValidateWebSocketDiscoveryConfig (l : list WebSocketServiceConfig) : check :=
  each (fun i => "invalid WebSocket service config at index " +s pretty i) ValidateWebSocketServiceConfig l.

Definition ValidateSSEServiceConfig (c : SSEServiceConfig) : check :=
  all_of
    [refuse (bool_decide (sse_Name c = EmptyString)) (NewValidationError "service name cannot be empty");
     refuse (bool_decide (BaseURL c = EmptyString)) (NewValidationError "base URL cannot be empty");
     parses_url "invalid base URL" (BaseURL c);
     refuse (sse_Weight c <? 0) (NewValidationError "weight cannot be negative");
     refuse (sse_Timeout c <? 0) (NewValidationError "timeout cannot be negative")].
Definition ValidateSSEDiscoveryConfig (l : list SSEServiceConfig) : check :=
  each (fun i => "invalid SSE service config at index " +s pretty i) ValidateSSEServiceConfig l.

Definition validateProviderConfig (provider : string) (c : ServiceDiscoveryConfig) : check :=
  if bool_decide (provider = "static") then ValidateStaticDiscoveryConfig (Static c)
  else if bool_decide (provider = "kubernetes") then ValidateKubernetesDiscoveryConfig (Kubernetes c)
  else if bool_decide (provider = "stdio") then ValidateStdioDiscoveryConfig (Stdio c)
  else if bool_decide (provider = "websocket") then ValidateWebSocketDiscoveryConfig (WebSocket c)
  else if bool_decide (provider = "sse") then ValidateSSEDiscoveryConfig (SSE c)
  else ok.

Definition ValidateServiceDiscoveryConfig (c : ServiceDiscoveryConfig) : check :=
  if negb (isDiscoveryConfigured c) then ok
  else match validateDiscoveryProvider c with
       | Err err => mret (Some err)
       | Ok provider => all_of [validateRefreshRate (RefreshRate c); validateProviderConfig provider c]
       end.

(** ** The whole configuration *)

(** A nil configuration is [None]. *)
Definition validateBasicConfig (c : option Config) : check :=
  match c with
  | None => raise (NewValidationError "config cannot be nil" ->> WithComponent "config")
  | Some c => refuse ((Version c <? 1) || (1 <? Version c))
                (NewValidationError ("unsupported config version: " +s pretty (Version c)) ->> WithComponent "config"
                 ->> WithContext "version" (VInt (Version c)))
  end.

Definition validateCoreConfig (c : Config) : check :=
  all_of
    [wrapped "invalid server configuration" (ValidateServerConfig (Server c));
     wrapped "invalid auth configuration" (ValidateAuthConfig (Auth c));
     wrapped "invalid session configuration" (ValidateSessionConfig (Sessions c));
     wrapped "invalid routing configuration" (ValidateRoutingConfig (Routing c));
     wrapped "invalid discovery configuration" (ValidateServiceDiscoveryConfig (SDiscovery c))].

Definition validateOperationalConfig (c : Config) : check :=
  all_of
    [wrapped "invalid rate limit configuration" (ValidateRateLimitConfig (RateLimit c));
     wrapped "invalid circuit breaker configuration" (ValidateCircuitBreakerConfig (CircuitBreaker c));
     wrapped "invalid metrics configuration" (ValidateMetricsConfig (Metrics c));
     wrapped "invalid logging configuration" (ValidateLoggingConfig (Logging c));
     wrapped "invalid tracing configuration" (ValidateTracingConfig (Tracing c))].

Definition ValidateConfig (c : option Config) : check :=
  e ← validateBasicConfig c;
  match e, c with
  | None, Some c => all_of [validateCoreConfig c; validateOperationalConfig c]
  | _, _ => mret e
  end.

(** ** What a check decides *)

Definition invalid : ErrorType * Z * bool := (TypeValidation, 400, false).
Definition internal : ErrorType * Z * bool := (TypeInternal, 0, false).

(** [c] accepts exactly when its values are acceptable ([V]) and what it refers to can be read ([F]: the texts parse, the
    provider is known).  Otherwise it gives an error that wraps to the class of what was wrong: a validation error only
    where [V] fails, an internal one only where [F] does. *)
Definition decides (c : check) (V F : Prop) : Prop :=
  forall h, heap_wf h -> exists e h', c h = (Ok e, h') /\ heap_wf h' /\ (e = None <-> V /\ F) /\
    forall err, e = Some err -> ErrCatalog.valid_err h' err /\
      ((ErrCatalog.class_wrapped h' err = invalid /\ ~ V) \/ (ErrCatalog.class_wrapped h' err = internal /\ ~ F)).

Lemma d_iff c V V' F F' : decides c V F -> (V <-> V') -> (F <-> F') -> decides c V' F'.
Proof.
  intros Hc Hv Hf h Hwf. destruct (Hc h Hwf) as (e & h' & ? & ? & ? & Hk). exists e, h'. split_and!; [done|done|tauto|].
  intros err Ee. destruct (Hk err Ee) as [? [[? ?]|[? ?]]]; split; [done|left; tauto|done|right; tauto].
Qed.

Lemma d_ok : decides ok True True.
Proof. intros h Hwf. exists None, h. done. Qed.

(** An error of a known class. *)
Lemma d_raise m k : (forall h, heap_wf h -> ErrCatalog.gives k (m h)) ->
  (k = invalid -> decides (raise m) False True) /\ (k = internal -> decides (raise m) True False).
Proof.
  intros Hm. split; intros ->; intros h Hwf; destruct (Hm h Hwf) as (l & e & h' & E & Hwf' & He & Hc);
    exists (Some (EGw l)), h'; unfold raise; rewrite (M_bind_ok _ _ _ _ _ E); (split_and!; [done|done|split; [done|tauto]|]);
    intros err [= <-]; (split; [intros l' [= <-]; by exists e|]); unfold ErrCatalog.class_wrapped; cbn; rewrite He, Hc; tauto.
Qed.

Lemma d_refuse b m : (forall h, heap_wf h -> ErrCatalog.gives invalid (m h)) -> decides (refuse b m) (b = false) True.
Proof.
  intros Hm. destruct b; [|by apply (d_iff ok True _ True); [apply d_ok|..]].
  by apply (d_iff (raise m) False _ True); [apply (proj1 (d_raise m invalid Hm))|..].
Qed.

Lemma d_all_nil : decides (all_of []) True True.
Proof. apply d_ok. Qed.

Lemma d_all_cons c cs V F W G : decides c V F -> decides (all_of cs) W G -> decides (all_of (c :: cs)) (V /\ W) (F /\ G).
Proof.
  intros Hc Hcs h Hwf. destruct (Hc h Hwf) as (e & h1 & E & Hwf1 & He & Herr). cbn [all_of].
  rewrite (M_bind_ok _ _ _ _ _ E). destruct e as [err|].
  - exists (Some err), h1. split_and!; try done.
    + split; [done|]. intros [[HV _] [HF _]]. by apply He.
    + intros err' Ee. destruct (Herr err' Ee) as [? [[? ?]|[? ?]]]; split; [done|left; tauto|done|right; tauto].
  - destruct (Hcs h1 Hwf1) as (e2 & h2 & E2 & Hwf2 & He2 & Herr2). exists e2, h2. split_and!; [done|done|tauto|].
    intros err' Ee. destruct (Herr2 err' Ee) as [? [[? ?]|[? ?]]]; split; [done|left; tauto|done|right; tauto].
Qed.

Lemma d_if (b : bool) c c' V W F G :
  decides c V F -> decides c' W G -> decides (if b then c else c') (if b then V else W) (if b then F else G).
Proof. by destruct b. Qed.

Lemma gives_component m s k h : ErrCatalog.gives k (m h) -> ErrCatalog.gives k ((m ->> WithComponent s) h).
Proof. apply ErrCatalog.gives_WithComponent. Qed.

Lemma gives_validation msg h : heap_wf h -> ErrCatalog.gives invalid (NewValidationError msg h).
Proof.
  intros Hwf. apply (ErrCatalog.gives_WithHTTPStatus TypeValidation 0 false).
  by apply (ErrCatalog.gives_new {| Type_ := TypeValidation |}).
Qed.

Lemma gives_empty_field f h : heap_wf h -> ErrCatalog.gives invalid (NewEmptyFieldError f h).
Proof.
  intros Hwf. apply (ErrCatalog.gives_WithHTTPStatus TypeValidation 0 false).
  repeat first [apply ErrCatalog.gives_WithContext|apply ErrCatalog.gives_WithComponent].
  by apply (ErrCatalog.gives_new {| Type_ := TypeValidation |}).
Qed.

Lemma d_wrap_err message err :
  (forall h, ErrCatalog.valid_err h err) -> As err = None -> decides (wrap_err message err) True False.
Proof.
  intros Hv Ha. apply (proj2 (d_raise (Wrap captureStack (Some err) message ->> WithComponent "config") internal
    (fun h Hwf => gives_component _ _ _ _ (ErrCatalog.gives_Wrap_foreign captureStack err message h Hwf Ha)))). done.
Qed.

Lemma d_wrapped message c V F : decides c V F -> decides (wrapped message c) V F.
Proof.
  intros Hc h Hwf. destruct (Hc h Hwf) as (e & h1 & E & Hwf1 & He & Herr). unfold wrapped.
  rewrite (M_bind_ok _ _ _ _ _ E). destruct e as [err|]; [|by exists None, h1].
  destruct (Herr err eq_refl) as [Hv Hk].
  destruct (gives_component _ "config" _ h1 (ErrCatalog.gives_Wrap captureStack err message h1 Hwf1 Hv))
    as (l & g & h2 & E2 & Hwf2 & Hg & Hcl).
  exists (Some (EGw l)), h2. unfold wrap_err, raise. rewrite (M_bind_ok _ _ _ _ _ E2). split_and!; try done.
  - split; [done|]. intros HP. by apply He in HP.
  - intros err' [= <-]. split; [intros l' [= <-]; by exists g|]. assert (ErrCatalog.class_wrapped h2 (EGw l) = ErrCatalog.class_wrapped h1 err) as -> by
      (unfold ErrCatalog.class_wrapped at 1; cbn; by rewrite Hg, Hcl). done.
Qed.

Lemma contains_spec l s : contains l s = true <-> s ∈ l.
Proof.
  unfold contains. rewrite existsb_exists. split.
  - intros (x & Hx & Hb). apply bool_decide_eq_true in Hb as ->. by apply list_elem_of_In.
  - intros Hs. exists s. split; [by apply list_elem_of_In|by apply bool_decide_eq_true].
Qed.

Lemma d_one_of what s l : decides (one_of what s l) (s ∈ l) True.
Proof.
  eapply d_iff; [apply d_refuse; intros; by apply gives_validation| |done].
  rewrite negb_false_iff. apply contains_spec.
Qed.

Lemma d_one_of_or_empty what s l : decides (one_of_or_empty what s l) (s = EmptyString \/ s ∈ l) True.
Proof.
  unfold one_of_or_empty. case_bool_decide; [eapply d_iff; [apply d_ok|tauto..]|eapply d_iff; [apply d_one_of|tauto..]].
Qed.

Lemma d_non_negative what z : decides (non_negative what z) (0 <= z) True.
Proof. eapply d_iff; [apply d_refuse; intros; by apply gives_validation|lia|done]. Qed.

Lemma d_parses_url message u : decides (parses_url message u) True (is_ok (Validate.url_Parse u) = true).
Proof.
  unfold parses_url. destruct (Validate.url_Parse u); [by eapply d_iff; [apply d_ok|..]|].
  by eapply d_iff; [apply d_wrap_err; [intros h l|]|..].
Qed.

Lemma d_url_or_empty message u : decides (url_or_empty message u) True (u = EmptyString \/ is_ok (Validate.url_Parse u) = true).
Proof.
  unfold url_or_empty. case_bool_decide; [eapply d_iff; [apply d_ok|tauto..]|eapply d_iff; [apply d_parses_url|tauto..]].
Qed.

(** Loops over indexed elements. *)
Lemma d_imap {A} (f : nat -> A -> check) (V F : A -> Prop) (l : list A) :
  (forall i x, decides (f i x) (V x) (F x)) -> decides (all_of (imap f l)) (Forall V l) (Forall F l).
Proof.
  revert f; induction l as [|x l IH]; intros f Hf.
  - by eapply d_iff; [apply d_all_nil|..].
  - rewrite imap_cons. eapply d_iff; [apply d_all_cons; [apply Hf|apply IH; intros; apply Hf]|..]; by rewrite Forall_cons.
Qed.

Lemma d_each {A} message (f : A -> check) (V F : A -> Prop) l :
  (forall x, decides (f x) (V x) (F x)) -> decides (each message f l) (Forall V l) (Forall F l).
Proof. intros Hf. apply d_imap. intros. by apply d_wrapped. Qed.

Lemma d_map {A} (f : A -> check) (V F : A -> Prop) l :
  (forall x, decides (f x) (V x) (F x)) -> decides (all_of (map f l)) (Forall V l) (Forall F l).
Proof.
  intros Hf. induction l as [|x l IH]; cbn [map].
  - by eapply d_iff; [apply d_all_nil|..].
  - eapply d_iff; [apply d_all_cons; [apply Hf|exact IH]|..]; by rewrite Forall_cons.
Qed.

(** Every element passes where the condition is trivial. *)
Lemma Forall_trivial {A} (l : list A) : Forall (fun _ => True) l <-> True.
Proof. split; [done|]. intros _. by apply Forall_true. Qed.

Create HintDb decides.
#[local] Hint Resolve d_ok d_refuse d_all_nil d_all_cons d_if d_wrapped d_one_of d_one_of_or_empty d_non_negative d_parses_url d_url_or_empty
  gives_component gives_validation gives_empty_field : decides.

(** A validator against its specification: the rules give a condition, the rest is propositional. *)
Ltac decide_checks := eapply d_iff; [eauto 30 with decides|..].

(** ** The specification *)

Definition given (s : string) : Prop := s <> EmptyString.
Definition optional (s : string) (valid : list string) : Prop := s = EmptyString \/ s ∈ valid.
Definition is_url (u : string) : Prop := is_ok (Validate.url_Parse u) = true.
Definition optional_url (u : string) : Prop := u = EmptyString \/ is_url u.
Definition port (p : Z) : Prop := 1 <= p <= 65535.

Definition tls_spec (c : TLSConfig) : Prop :=
  tls_Enabled c = true -> given (CertFile c) /\ given (KeyFile c) /\ optional (ClientAuth c) ["none"; "request"; "require"] /\
    optional (MinVersion c) ["TLS1.2"; "TLS1.3"].
Definition mode_spec (c : StdioFrontendModeConfig) : Prop :=
  mode_Type c = "stdin_stdout"%string \/ (mode_Type c ∈ ["unix_socket"; "named_pipes"] /\ given (mode_Path c)).
Definition stdio_spec (c : StdioFrontendConfig) : Prop :=
  stdio_Enabled c = true -> Forall mode_spec (Modes c) /\ 0 <= MaxConcurrentClients c /\ 0 <= ClientTimeout c.
Definition server_spec (c : ServerConfig) : Prop :=
  given (srv_Host c) /\ port (srv_Port c) /\
  Forall (fun p => p = 0 \/ port p) [TCPPort c; MetricsPort c; HealthPort c] /\
  optional (srv_Protocol c) ["websocket"; "tcp"; "both"; "stdio"] /\
  Forall (Z.le 0) [ReadTimeout c; WriteTimeout c; IdleTimeout c; MaxConnections c; MaxConnectionsPerIP c; ConnectionBufferSize c] /\
  tls_spec (TLS c) /\ stdio_spec (StdioFrontend c).
Definition auth_spec (c : AuthConfig) : Prop :=
  auth_Provider c = "none"%string \/
  (auth_Provider c = "jwt"%string /\ given (jwt_Issuer (JWT c)) /\ given (jwt_Audience (JWT c)) /\
     (given (PublicKeyPath (JWT c)) \/ given (SecretKeyEnv (JWT c)))) \/
  (auth_Provider c = "oauth2"%string /\ given (ClientID (OAuth2 c))).
Definition auth_reads (c : AuthConfig) : Prop :=
  auth_Provider c = "oauth2"%string ->
  Forall optional_url [TokenEndpoint (OAuth2 c); IntrospectEndpoint (OAuth2 c); JWKSEndpoint (OAuth2 c)].
Definition session_spec (c : SessionConfig) : Prop :=
  optional (sess_Provider c) ["redis"; "memory"] /\ 0 <= TTL c /\ 0 <= sess_CleanupInterval c.
Definition breaker_spec (c : CircuitBreakerConfig) : Prop :=
  cb_Enabled c = true -> 0 < FailureThreshold c /\ 0 < SuccessThreshold c /\
    Forall (Z.le 0) [TimeoutSeconds c; MaxRequests c; IntervalSeconds c].
Definition routing_spec (c : RoutingConfig) : Prop :=
  optional (Strategy c) strategies /\ breaker_spec (rt_CircuitBreaker c).
Definition routing_reads (c : RoutingConfig) : Prop :=
  HealthCheckInterval c = EmptyString \/ is_ok (ParseDuration (HealthCheckInterval c)) = true.
Definition rate_limit_spec (c : RateLimitConfig) : Prop :=
  rl_Enabled c = true -> rl_Provider c ∈ ["redis"; "memory"] /\ 0 < RequestsPerSec c <= Burst c /\ 0 <= rl_CleanupInterval c.
Definition metrics_spec (c : MetricsConfig) : Prop :=
  met_Enabled c = true -> given (met_Endpoint c) /\ HasPrefix (met_Path c) "/" = true.
Definition logging_spec (c : LoggingConfig) : Prop :=
  optional (Level c) ["debug"; "info"; "warn"; "error"; "fatal"; "panic"] /\ optional (Format c) ["json"; "text"; "console"].
Definition otlp_spec (u : string) : Prop :=
  match Validate.url_Parse u with Ok p => given (Validate.Scheme p) /\ given (Validate.Host p) | Err _ => True end.
Definition tracing_spec (c : TracingConfig) : Prop :=
  tr_Enabled c = true -> given (ServiceName c) /\ optional (ExporterType c) ["otlp"; "jaeger"; "zipkin"; "stdout"] /\
    (ExporterType c = "otlp"%string -> OTLPEndpoint c = EmptyString \/ otlp_spec (OTLPEndpoint c)) /\
    SFltb (SamplerParam c) fzero = false /\ SFltb fone (SamplerParam c) = false /\
    optional (SamplerType c) ["const"; "probabilistic"; "rateLimiting"; "remote"].
Definition tracing_reads (c : TracingConfig) : Prop :=
  tr_Enabled c = true -> ExporterType c = "otlp"%string -> optional_url (OTLPEndpoint c).
Definition static_spec (l : list (string * list Discovery.EndpointConfig)) : Prop :=
  l <> [] /\ Forall (fun p => given (fst p) /\ Forall (fun e => given (Discovery.cfg_URL e)) (snd p)) l.
Definition static_reads (l : list (string * list Discovery.EndpointConfig)) : Prop :=
  Forall (fun p => Forall (fun e => is_url (Discovery.cfg_URL e)) (snd p)) l.
Definition stdio_service_spec (c : StdioServiceConfig) : Prop := given (ss_Name c) /\ Command c <> [] /\ 0 <= ss_Weight c.
Definition ws_service_spec (c : WebSocketServiceConfig) : Prop :=
  given (ws_Name c) /\ ws_Endpoints c <> [] /\ 0 <= ws_Weight c.
Definition ws_service_reads (c : WebSocketServiceConfig) : Prop := Forall is_url (ws_Endpoints c).
Definition sse_service_spec (c : SSEServiceConfig) : Prop :=
  given (sse_Name c) /\ given (BaseURL c) /\ 0 <= sse_Weight c /\ 0 <= sse_Timeout c.
Definition sse_service_reads (c : SSEServiceConfig) : Prop := is_url (BaseURL c).

(** The provider a discovery configuration names: the mode is an alias. *)
Definition provider_of (c : ServiceDiscoveryConfig) : string :=
  if bool_decide (disc_Provider c = EmptyString) then disc_Mode c else disc_Provider c.
Definition provider_spec (provider : string) (c : ServiceDiscoveryConfig) : Prop :=
  (provider = "static"%string -> static_spec (Static c)) /\
  (provider = "kubernetes"%string -> InCluster (Kubernetes c) = true \/ given (ConfigPath (Kubernetes c))) /\
  (provider = "stdio"%string -> Forall stdio_service_spec (Stdio c)) /\
  (provider = "websocket"%string -> Forall ws_service_spec (WebSocket c)) /\
  (provider = "sse"%string -> Forall sse_service_spec (SSE c)).
Definition provider_reads (provider : string) (c : ServiceDiscoveryConfig) : Prop :=
  (provider = "static"%string -> static_reads (Static c)) /\
  (provider = "websocket"%string -> Forall ws_service_reads (WebSocket c)) /\
  (provider = "sse"%string -> Forall sse_service_reads (SSE c)).
Definition discovery_spec (c : ServiceDiscoveryConfig) : Prop :=
  provider_of c ∈ discovery_providers -> 0 <= RefreshRate c /\ provider_spec (provider_of c) c.
Definition discovery_reads (c : ServiceDiscoveryConfig) : Prop :=
  provider_of c = EmptyString \/ (provider_of c ∈ discovery_providers /\ provider_reads (provider_of c) c).

(** What every section promises of its values, and of what it refers to: the URLs and the duration parse, and the
    discovery provider is known. *)
Definition config_spec (c : Config) : Prop :=
  Version c = 1 /\ server_spec (Server c) /\ auth_spec (Auth c) /\ session_spec (Sessions c) /\ routing_spec (Routing c) /\
  discovery_spec (SDiscovery c) /\ rate_limit_spec (RateLimit c) /\ breaker_spec (CircuitBreaker c) /\
  metrics_spec (Metrics c) /\ logging_spec (Logging c) /\ tracing_spec (Tracing c).
Definition config_reads (c : Config) : Prop :=
  auth_reads (Auth c) /\ routing_reads (Routing c) /\ discovery_reads (SDiscovery c) /\ tracing_reads (Tracing c).

(** ** The validators meet it *)

Lemma given_iff s : bool_decide (s = EmptyString) = false <-> given s.
Proof. apply bool_decide_eq_false. Qed.

Ltac to_spec :=
  rewrite ?given_iff, ?negb_false_iff, ?Forall_cons, ?Forall_nil; unfold optional, optional_url, is_url, port; try tauto; try lia.

Lemma d_tls c : decides (ValidateTLSConfig c) (tls_spec c) True.
Proof.
  unfold ValidateTLSConfig, tls_spec. destruct (tls_Enabled c); cbn [negb]; [|by eapply d_iff; [apply d_ok|..]].
  decide_checks; to_spec; case_bool_decide as Hm; rewrite ?negb_false_iff, ?contains_spec; tauto.
Qed.

Lemma d_mode c : decides (ValidateStdioFrontendModeConfig c) (mode_spec c) True.
Proof.
  unfold ValidateStdioFrontendModeConfig, mode_spec. decide_checks; [|tauto]. unfold given.
  rewrite !elem_of_cons, !elem_of_nil, !andb_false_iff, !bool_decide_eq_false. intuition congruence.
Qed.

Lemma d_stdio_frontend c : decides (ValidateStdioFrontendConfig c) (stdio_spec c) True.
Proof.
  unfold ValidateStdioFrontendConfig, stdio_spec. destruct (stdio_Enabled c); cbn [negb]; [|by eapply d_iff; [apply d_ok|..]].
  eapply d_iff; [apply d_all_cons; [apply d_each, d_mode|eauto 20 with decides]|..].
  - to_spec. rewrite !Z.ltb_ge. tauto.
  - rewrite Forall_trivial. tauto.
Qed.

Lemma d_port name p z : decides (validatePort name p z) ((z = true /\ p = 0) \/ port p) True.
Proof.
  unfold validatePort. decide_checks; [|by destruct (_ && _)]. unfold port.
  destruct (Z.eqb_spec p 0), z; cbn [andb]; rewrite ?orb_false_iff, ?Z.ltb_ge; intuition (congruence || lia).
Qed.

Lemma d_server c : decides (ValidateServerConfig c) (server_spec c) True.
Proof.
  unfold ValidateServerConfig, server_spec, validateServerPorts, validateServerProtocol, validateServerTimeouts, validateConnectionLimits.
  eapply d_iff; [repeat (apply d_all_cons; [eauto using d_port, d_tls, d_stdio_frontend with decides|])|..].
  - apply d_all_nil.
  - to_spec. intuition congruence.
  - tauto.
Qed.

Lemma d_auth c : decides (ValidateAuthConfig c) (auth_spec c) (auth_reads c).
Proof.
  unfold ValidateAuthConfig, auth_spec, auth_reads, ValidateJWTConfig, ValidateOAuth2Config.
  destruct (decide (auth_Provider c = "jwt"%string)) as [->|Hj]; [|destruct (decide (auth_Provider c = "oauth2"%string)) as [->|Ho]].
  - rewrite bool_decide_true by done. decide_checks; [rewrite !elem_of_cons, andb_false_iff; to_spec|]; intuition congruence.
  - rewrite bool_decide_false, bool_decide_true by done. decide_checks; [rewrite !elem_of_cons|]; to_spec; intuition congruence.
  - rewrite !bool_decide_false by done. decide_checks; [rewrite !elem_of_cons, elem_of_nil|]; intuition congruence.
Qed.

Lemma d_session c : decides (ValidateSessionConfig c) (session_spec c) True.
Proof. unfold ValidateSessionConfig, session_spec. decide_checks; [to_spec; rewrite !Z.ltb_ge|]; tauto. Qed.

Lemma d_breaker c : decides (ValidateCircuitBreakerConfig c) (breaker_spec c) True.
Proof.
  unfold ValidateCircuitBreakerConfig, breaker_spec. destruct (cb_Enabled c); cbn [negb]; [|by eapply d_iff; [apply d_ok|..]].
  decide_checks; to_spec.
Qed.

Lemma d_routing c : decides (ValidateRoutingConfig c) (routing_spec c) (routing_reads c).
Proof.
  unfold ValidateRoutingConfig, routing_spec, routing_reads.
  eapply d_iff; [apply d_all_cons; [apply d_one_of_or_empty|apply (d_all_cons _ _ True (HealthCheckInterval c = EmptyString \/
    is_ok (ParseDuration (HealthCheckInterval c)) = true)); [|apply d_all_cons; [apply d_breaker|apply d_all_nil]]]|..].
  - case_bool_decide; [eapply d_iff; [apply d_ok|tauto..]|]. destruct (ParseDuration _); [eapply d_iff; [apply d_ok|cbn; tauto..]|].
    eapply d_iff; [by apply d_wrap_err; [intros h l|]|..]; cbn; intuition done.
  - unfold optional. tauto.
  - tauto.
Qed.

Lemma d_rate_limit c : decides (ValidateRateLimitConfig c) (rate_limit_spec c) True.
Proof.
  unfold ValidateRateLimitConfig, rate_limit_spec. destruct (rl_Enabled c); cbn [negb]; [|by eapply d_iff; [apply d_ok|..]].
  decide_checks; [|tauto]. rewrite Z.leb_gt, Z.ltb_ge. intuition lia.
Qed.

Lemma d_metrics c : decides (ValidateMetricsConfig c) (metrics_spec c) True.
Proof.
  unfold ValidateMetricsConfig, metrics_spec. destruct (met_Enabled c); cbn [negb]; [|by eapply d_iff; [apply d_ok|..]].
  decide_checks; [|tauto]. to_spec. enough (HasPrefix (met_Path c) "/" = true -> given (met_Path c)) by tauto.
  intros Hp E. by rewrite E in Hp.
Qed.

Lemma d_logging c : decides (ValidateLoggingConfig c) (logging_spec c) True.
Proof. unfold ValidateLoggingConfig, logging_spec. decide_checks; to_spec. Qed.

Lemma d_otlp u : decides (validateOTLPEndpoint u) (otlp_spec u) (is_url u).
Proof.
  unfold validateOTLPEndpoint, otlp_spec, is_url. destruct (Validate.url_Parse u) as [p|r].
  - decide_checks; [by rewrite orb_false_iff, !given_iff|done].
  - by eapply d_iff; [apply d_wrap_err; [intros h l|]|..].
Qed.

Lemma d_tracing c : decides (ValidateTracingConfig c) (tracing_spec c) (tracing_reads c).
Proof.
  unfold ValidateTracingConfig, tracing_spec, tracing_reads, validateTracingSampler, validateTracingExporter.
  destruct (tr_Enabled c); cbn [negb]; [|by eapply d_iff; [apply d_ok|..]].
  eapply d_iff; [eauto 30 using d_otlp with decides|..]; rewrite ?orb_false_iff; to_spec;
    repeat case_bool_decide; cbn [andb negb]; intuition congruence.
Qed.

Lemma d_service_name s m : decides (refuse (bool_decide (s = EmptyString)) (NewValidationError m)) (given s) True.
Proof. decide_checks; [apply given_iff|done]. Qed.

Lemma zlen_nonempty {A} (l : list A) : (zlen l =? 0) = false <-> l <> [].
Proof. destruct l; cbn; [done|]. split; [done|]. intros _. apply Z.eqb_neq. unfold zlen. cbn. lia. Qed.

Lemma d_static l : decides (ValidateStaticDiscoveryConfig l) (static_spec l) (static_reads l).
Proof.
  unfold ValidateStaticDiscoveryConfig, static_spec, static_reads. eapply d_iff; [apply d_all_cons; [eauto with decides|]|..].
  - apply (d_map _ (fun p => given (fst p) /\ Forall (fun e => given (Discovery.cfg_URL e)) (snd p))
                   (fun p => True /\ Forall (fun e => is_url (Discovery.cfg_URL e)) (snd p))).
    intros [s es]. apply d_all_cons; [apply d_service_name|]. apply d_imap. intros i e. unfold static_endpoint. decide_checks; to_spec.
  - by rewrite zlen_nonempty.
  - split; [intros [_ Hf]|intros Hf; split; [done|]]; (eapply Forall_impl; [exact Hf|]); by cbn; tauto.
Qed.

Lemma d_kubernetes c : decides (ValidateKubernetesDiscoveryConfig c) (InCluster c = true \/ given (ConfigPath c)) True.
Proof. unfold ValidateKubernetesDiscoveryConfig. decide_checks; [rewrite andb_false_iff|]; to_spec. Qed.

Lemma d_stdio_service c : decides (ValidateStdioServiceConfig c) (stdio_service_spec c) True.
Proof. unfold ValidateStdioServiceConfig, stdio_service_spec. decide_checks; [rewrite zlen_nonempty, Z.ltb_ge|]; to_spec. Qed.

Lemma d_ws_service c : decides (ValidateWebSocketServiceConfig c) (ws_service_spec c) (ws_service_reads c).
Proof.
  unfold ValidateWebSocketServiceConfig, ws_service_spec, ws_service_reads.
  eapply d_iff; [do 2 (apply d_all_cons; [eauto with decides|]); apply d_all_cons; [|eauto with decides]|..].
  - apply (d_imap _ (fun _ => True) is_url). intros. apply d_parses_url.
  - rewrite zlen_nonempty, Z.ltb_ge, Forall_trivial. to_spec.
  - tauto.
Qed.

Lemma d_sse_service c : decides (ValidateSSEServiceConfig c) (sse_service_spec c) (sse_service_reads c).
Proof. unfold ValidateSSEServiceConfig, sse_service_spec, sse_service_reads. decide_checks; [rewrite !Z.ltb_ge|]; to_spec. Qed.

Lemma d_provider provider c : decides (validateProviderConfig provider c) (provider_spec provider c) (provider_reads provider c).
Proof.
  unfold validateProviderConfig, provider_spec, provider_reads.
  repeat (case_bool_decide; [subst provider; eapply d_iff;
    [first [apply d_static|apply d_kubernetes|apply d_each, d_stdio_service|apply d_each, d_ws_service|apply d_each, d_sse_service]|
     intuition congruence|rewrite ?Forall_trivial; intuition congruence]|]).
  eapply d_iff; [apply d_ok|..]; intuition congruence.
Qed.

Lemma d_discovery c : decides (ValidateServiceDiscoveryConfig c) (discovery_spec c) (discovery_reads c).
Proof.
  unfold ValidateServiceDiscoveryConfig, discovery_spec, discovery_reads, isDiscoveryConfigured, validateDiscoveryProvider.
  fold (provider_of c). destruct (decide (provider_of c = EmptyString)) as [Ep|Ep].
  - assert (disc_Provider c = EmptyString /\ disc_Mode c = EmptyString) as [-> ->].
    { unfold provider_of in Ep. by case_bool_decide. }
    eapply d_iff; [apply d_ok| |tauto]. split; [|done]. intros _ Hin. rewrite Ep in Hin. by apply contains_spec in Hin.
  - assert (negb (bool_decide (disc_Provider c = EmptyString)) || negb (bool_decide (disc_Mode c = EmptyString)) = true) as ->.
    { unfold provider_of in Ep. destruct (bool_decide_reflect (disc_Provider c = EmptyString)); [|done].
      by rewrite bool_decide_false. }
    cbn [negb]. destruct (contains discovery_providers (provider_of c)) eqn:Ec.
    + apply contains_spec in Ec. eapply d_iff; [apply d_all_cons; [unfold validateRefreshRate; eauto with decides|
        apply d_all_cons; [apply d_provider|apply d_all_nil]]|..]; rewrite ?Z.ltb_ge; tauto.
    + assert (provider_of c ∉ discovery_providers) as Hn by (intros Hin%contains_spec; congruence).
      intros h Hwf. eexists _, h. split; [reflexivity|]. split_and!; [done|split; [done|tauto]|].
      intros err [= <-]. split; [by intros l|]. right. split; [done|tauto].
Qed.

Lemma d_core c :
  decides (validateCoreConfig c)
    (server_spec (Server c) /\ auth_spec (Auth c) /\ session_spec (Sessions c) /\ routing_spec (Routing c) /\ discovery_spec (SDiscovery c))
    (auth_reads (Auth c) /\ routing_reads (Routing c) /\ discovery_reads (SDiscovery c)).
Proof.
  unfold validateCoreConfig.
  eapply d_iff; [eauto 20 using d_server, d_auth, d_session, d_routing, d_discovery with decides|tauto..].
Qed.

Lemma d_operational c :
  decides (validateOperationalConfig c)
    (rate_limit_spec (RateLimit c) /\ breaker_spec (CircuitBreaker c) /\ metrics_spec (Metrics c) /\ logging_spec (Logging c) /\
     tracing_spec (Tracing c)) (tracing_reads (Tracing c)).
Proof.
  unfold validateOperationalConfig.
  eapply d_iff; [eauto 20 using d_rate_limit, d_breaker, d_metrics, d_logging, d_tracing with decides|tauto..].
Qed.

Lemma d_version c : decides (validateBasicConfig (Some c)) (Version c = 1) True.
Proof.
  unfold validateBasicConfig. eapply d_iff; [apply d_refuse| |done].
  - intros h Hwf. apply ErrCatalog.gives_WithContext, gives_component. by apply gives_validation.
  - rewrite orb_false_iff, !Z.ltb_ge. lia.
Qed.

Lemma d_nil : decides (validateBasicConfig None) False True.
Proof. apply (proj1 (d_raise _ invalid (fun h Hwf => gives_component _ _ _ _ (gives_validation _ h Hwf)))). done. Qed.

Lemma d_config c :
  decides (ValidateConfig c) (exists c', c = Some c' /\ config_spec c') (forall c', c = Some c' -> config_reads c').
Proof.
  destruct c as [c|].
  - eapply d_iff; [apply (d_all_cons _ [_; _]); [apply d_version|]; eauto using d_core, d_operational with decides|..].
    + unfold config_spec. split; [intros; exists c; tauto|]. intros (c' & [= <-] & ?). tauto.
    + unfold config_reads. split; [intros ? c' [= <-]; tauto|]. intros Hr. specialize (Hr c eq_refl). tauto.
  - intros h Hwf. destruct (d_nil h Hwf) as (e & h' & E & Hwf' & He & Hk).
    exists e, h'. unfold ValidateConfig. rewrite (M_bind_ok _ _ _ _ _ E). split_and!; try done.
    + by destruct e.
    + split; [tauto|]. by intros [(c' & ? & _) _].
    + intros err Ee. destruct (Hk err Ee) as [? [[? ?]|[? ?]]]; [|tauto]. split; [done|left]. split; [done|]. by intros (c' & ? & _).
Qed.

(** ** The configuration at work *)

Lemma load_namespace_all ns cfgs :
  Forall (fun e => given (Discovery.cfg_URL e) /\ is_url (Discovery.cfg_URL e)) cfgs ->
  length (Discovery.load_namespace ns cfgs) = length cfgs.
Proof.
  induction 1 as [|e cfgs [_ Hu] _ IH]; [done|]. unfold Discovery.load_namespace in *. cbn [omap list_omap].
  unfold Discovery.configToEndpoint at 1. unfold is_url in Hu. destruct (Validate.url_Parse _); [|done]. cbn. by rewrite <- IH.
Qed.

Lemma loaded_namespaces_distinct cfg : NoDup (cfg.*1) -> NoDup ((Discovery.loadEndpoints cfg).*1).
Proof.
  intros Hnd. unfold Discovery.loadEndpoints. induction cfg as [|[n cfgs] cfg IH]; cbn; [constructor|].
  apply NoDup_cons in Hnd as [Hn Hnd]. specialize (IH Hnd). destruct (0 <? _); [|exact IH]. cbn. constructor; [|exact IH].
  intros ((n' & eps) & -> & Hin)%list_elem_of_fmap. apply Hn. apply elem_of_filter_bool in Hin as [_ Hin].
  apply list_elem_of_fmap in Hin as ((n2 & cs) & [= -> ->] & Hin). apply list_elem_of_fmap. by exists (n2, cs).
Qed.

Lemma keys_unique {A} (l : list (string * A)) k a b : NoDup (l.*1) -> (k, a) ∈ l -> (k, b) ∈ l -> a = b.
Proof.
  induction l as [|[k' c] l IH]; cbn; [set_solver|]. intros [Hn Hnd]%NoDup_cons Ha Hb.
  assert (forall x, (k', x) ∉ l) as Hx by (intros x Hx; apply Hn, list_elem_of_fmap; by exists (k', x)).
  apply elem_of_cons in Ha as [Ea|Ha], Hb as [Eb|Hb]; simplify_eq; [done| | |by apply IH]; by edestruct Hx.
Qed.

(** A registry loaded from parseable endpoints has them all. *)
Lemma loaded_endpoints cfg ns cfgs :
  NoDup (cfg.*1) -> (ns, cfgs) ∈ cfg -> Forall (fun e => given (Discovery.cfg_URL e) /\ is_url (Discovery.cfg_URL e)) cfgs ->
  Discovery.Static_GetEndpoints (Discovery.loadEndpoints cfg) ns = Discovery.load_namespace ns cfgs.
Proof.
  intros Hnd Hin Hf. destruct cfgs as [|e cfgs].
  - apply Discovery.static_unknown. intros ((n & eps) & -> & Hl)%list_elem_of_fmap.
    apply Discovery.loadEndpoints_spec in Hl as [(cfgs & Hc & ->) Hne]. cbn in Hin.
    by rewrite (keys_unique _ _ _ _ Hnd Hc Hin) in Hne.
  - apply Discovery.static_find; [by apply loaded_namespaces_distinct|]. apply Discovery.loadEndpoints_spec. split; [eauto|].
    intros E. apply load_namespace_all with (ns := ns) in Hf. by rewrite E in Hf.
Qed.

(** C25: Validation of a gateway configuration is exact.  [ValidateConfig] always ends; it returns nil exactly when a
    configuration is given, the values of every section meet their specification ([config_spec]: ports, timeouts, the
    settings of enabled features, the provider's own section) and what the sections refer to can be read
    ([config_reads]: the URLs and the health check interval parse, the discovery provider is known).  Otherwise it
    returns an error whose class says which of the two is broken: a validation error with status 400 only where there is
    no configuration or one of its values is wrong, an internal error only where a text does not parse or the
    discovery provider is unknown. *)
Theorem config_validation_exact c h :
  heap_wf h ->
  exists e h', ValidateConfig c h = (Ok e, h') /\ heap_wf h' /\
    (e = None <-> exists c', c = Some c' /\ config_spec c' /\ config_reads c') /\
    (forall err, e = Some err ->
       (ErrCatalog.class_wrapped h' err = invalid /\ ~ (exists c', c = Some c' /\ config_spec c')) \/
       (ErrCatalog.class_wrapped h' err = internal /\ exists c', c = Some c' /\ ~ config_reads c')).
Proof.
  intros Hwf. destruct (d_config c h Hwf) as (e & h' & E & Hwf' & He & Hk). exists e, h'. split_and!; [done|done| |].
  - rewrite He. split; [intros [(c' & -> & ?) Hr]; exists c'; auto|].
    intros (c' & -> & ? & ?). split; [by exists c'|by intros ? [= <-]].
  - intros err Ee. destruct (Hk err Ee) as [_ [?|[? Hn]]]; [by left|right]. split; [done|].
    destruct c as [c|]; [exists c; split; [done|]; intros Hr; apply Hn; by intros ? [= <-]|]. destruct Hn. by intros ? [=].
Qed.

(** A configuration with static discovery that validation accepts is loaded whole: static discovery then has, for
    each configured namespace, one healthy endpoint per configured URL (a URL that does not parse would be skipped
    silently), so a namespace has no endpoint only if none was configured. *)
Lemma validated_static_discovery c h h' ns cfgs :
  heap_wf h -> ValidateConfig (Some c) h = (Ok None, h') -> provider_of (SDiscovery c) = "static"%string ->
  NoDup ((Static (SDiscovery c)).*1) -> (ns, cfgs) ∈ Static (SDiscovery c) ->
  let eps := Discovery.Static_GetEndpoints (Discovery.loadEndpoints (Static (SDiscovery c))) ns in
  length eps = length cfgs /\ Forall (fun e => IsHealthy e = true /\ Namespace e = ns) eps.
Proof.
  intros Hwf Hv Hp Hnd Hin eps. destruct (d_config (Some c) h Hwf) as (e & h2 & E & _ & He & _).
  rewrite Hv in E. injection E as <- <-. destruct (proj1 He eq_refl) as [(c' & [= <-] & Hc) Hr].
  assert (Forall (fun e => given (Discovery.cfg_URL e) /\ is_url (Discovery.cfg_URL e)) cfgs) as Hf.
  { destruct Hc as (_ & _ & _ & _ & _ & Hd & _), (Hr c eq_refl) as (_ & _ & [Ht|[Hk (Hrs & _)]] & _); [congruence|].
    destruct (Hd Hk) as [_ [Hs _]]. destruct (Hs Hp) as [_ Hall]. specialize (Hrs Hp). unfold static_reads in Hrs.
    rewrite Forall_forall in Hall, Hrs. apply Forall_and. split; [apply (Hall _ Hin)|apply (Hrs _ Hin)]. }
  subst eps. rewrite (loaded_endpoints _ _ _ Hnd Hin Hf). split; [by apply load_namespace_all|].
  apply Forall_forall. intros e' He'. apply Discovery.load_namespace_healthy in He'. tauto.
Qed.

(** Strategies that validation accepts and the router does not have: the namespace gets round robin. *)
Lemma accepted_strategies_fall_back c st ps :
  Strategy c ∈ ["random"; "hash"] -> HealthCheckInterval c = EmptyString -> breaker_spec (rt_CircuitBreaker c) ->
  decides (ValidateRoutingConfig c) True True /\
  GwRouter.new_balancer (Strategy c) st ps = GwRouter.new_balancer "round_robin" st ps.
Proof.
  intros Hs Hi Hb. split.
  - eapply d_iff; [apply d_routing|split; [done|]; intros _|split; [done|by left]]. split; [right|done].
    unfold strategies. rewrite !elem_of_cons, elem_of_nil in *. tauto.
  - rewrite !elem_of_cons, elem_of_nil in Hs. unfold GwRouter.new_balancer. by destruct Hs as [->|[->|[]]].
Qed.

End Validators.

(** ** Witnesses *)

(** A parser of the class's shape: a URL is a text with "://" after its scheme. *)
#[local] Instance sample_parsers : Validate.NetParsers := {|
  Validate.url_Parse := fun s =>
    if HasPrefix s "http://" then Ok (Validate.mkURL "http" "10.0.0.1:8080" "10.0.0.1" "8080" "") else Err "missing protocol scheme"%string;
  Validate.net_ParseIP := fun _ => false;
|}.

Definition sample_config (url : string) : Config := {|
  Version := 1;
  Server := mkServer "0.0.0.0" 8443 0 9090 8080 1000 10 4096 0 0 0 "websocket" (mkTLS true "cert.pem" "key.pem" "" "TLS1.3")
              (mkStdioFrontend false [] 0 0);
  Auth := mkAuth "jwt" (mkJWT "issuer" "gateway" "JWT_SECRET" "") (mkOAuth2 "" "" "" "");
  Sessions := mkSessions "memory" 3600 60; Routing := mkRouting "hash" "" (mkBreakerConfig false 0 0 0 0 0);
  SDiscovery := mkDiscovery "static" "" (mkK8s false "") [("tools", [Discovery.mkEC url []])] [] [] [] 0;
  RateLimit := mkRateLimit true "memory" 100 200 0; CircuitBreaker := mkBreakerConfig true 5 2 30 0 0;
  Metrics := mkMetrics true "0.0.0.0:9090" "/metrics"; Logging := mkLogging "info" "json";
  Tracing := mkTracing false "" "" fzero "" "" |}.

Definition no_frames (skip : Z) : list string := [].
Definition no_duration (s : string) : result string Z := Err "invalid duration"%string.
Definition no_text (x : float) : string := "0".

Lemma sample_accepted :
  ValidateConfig no_frames no_duration no_text (Some (sample_config "http://10.0.0.1:8080")) empty_heap = (Ok None, empty_heap).
Proof. vm_compute. reflexivity. Qed.

Lemma config_validation_exact_witness :
  (config_spec (sample_config "http://10.0.0.1:8080") /\ config_reads no_duration (sample_config "http://10.0.0.1:8080")) /\
  exists err h', ValidateConfig no_frames no_duration no_text None empty_heap = (Ok (Some err), h') /\
    ErrCatalog.class_wrapped h' err = invalid.
Proof.
  assert (heap_wf empty_heap) as Hwf by by intros l.
  split.
  - destruct (config_validation_exact no_frames no_duration no_text (Some (sample_config "http://10.0.0.1:8080")) empty_heap Hwf)
      as (e & h' & E & _ & He & _).
    rewrite sample_accepted in E. injection E as <- <-. by destruct (proj1 He eq_refl) as (c' & [= <-] & Hc & Hr).
  - destruct (config_validation_exact no_frames no_duration no_text None empty_heap Hwf) as (e & h' & E & _ & He & Hk).
    destruct e as [err|]; [|by destruct (proj1 He eq_refl) as (c' & ? & _)].
    exists err, h'. split; [done|]. destruct (Hk err eq_refl) as [[Hc _]|[_ (c' & ? & _)]]; done.
Defined.

Lemma validated_static_discovery_witness :
  length (Discovery.Static_GetEndpoints (Discovery.loadEndpoints (Static (SDiscovery (sample_config "http://10.0.0.1:8080")))) "tools") = 1%nat.
Proof.
  apply (validated_static_discovery no_frames no_duration no_text (sample_config "http://10.0.0.1:8080") empty_heap empty_heap "tools"
    [Discovery.mkEC "http://10.0.0.1:8080" []]).
  - by intros l.
  - apply sample_accepted.
  - reflexivity.
  - cbn. constructor; [set_solver|constructor].
  - left.
Defined.

(** The class an error of validation answers with. *)
Definition verdict (c : Config) : option (ErrorType * Z * bool) :=
  match ValidateConfig no_frames no_duration no_text (Some c) empty_heap with
  | (Ok (Some err), h) => Some (ErrCatalog.class_wrapped h err)
  | _ => None
  end.

(** A port out of range is a validation error; a URL that does not parse and an unknown discovery provider are internal ones. *)
Definition with_port (p : Z) (c : Config) : Config :=
  let s := Server c in
  mkConfig (Version c) (mkServer (srv_Host s) p (TCPPort s) (MetricsPort s) (HealthPort s) (MaxConnections s) (MaxConnectionsPerIP s)
    (ConnectionBufferSize s) (ReadTimeout s) (WriteTimeout s) (IdleTimeout s) (srv_Protocol s) (TLS s) (StdioFrontend s))
    (Auth c) (Sessions c) (Routing c) (SDiscovery c) (RateLimit c) (CircuitBreaker c) (Metrics c) (Logging c) (Tracing c).
Definition with_provider (provider : string) (c : Config) : Config :=
  let d := SDiscovery c in
  mkConfig (Version c) (Server c) (Auth c) (Sessions c) (Routing c)
    (mkDiscovery provider (disc_Mode d) (Kubernetes d) (Static d) (Stdio d) (WebSocket d) (SSE d) (RefreshRate d))
    (RateLimit c) (CircuitBreaker c) (Metrics c) (Logging c) (Tracing c).

Example refusals :
  verdict (with_port 70000 (sample_config "http://10.0.0.1:8080")) = Some invalid /\
  verdict (sample_config "10.0.0.1:8080") = Some internal /\
  verdict (with_provider "etcd" (sample_config "http://10.0.0.1:8080")) = Some internal.
Proof. split_and!; vm_compute; reflexivity. Qed.

End GwConfig.
