(* ===== verification/Auth.v ===== *)
(** * Authentication

    [services/gateway/internal/auth/]: provider.go (the no-op and the JWT provider, scopes), oauth2.go
    (token introspection with a cache) and message_auth.go (tokens of single messages with a cache).  The JWT
    library, the introspection endpoint and the environment are classes or arguments.  Every call gets its
    readings of the clock as [t 0], [t 1], ... in the order in which the code takes them. *)
From S2P Require Import Prelude GoStrings GoUnicode RateLimit Session.
From Stdlib Require Import Strings.Ascii.
From stdpp Require Import pretty.
#[local] Open Scope Z_scope.

Module Auth.

Definition readings := nat -> Z.

(** ** Claims *)

Record Claims := mkClaims {
  Subject : string;
  Issuer : string;
  Audience : list string;
  ExpiresAt : option Z;          (* the three dates are pointers *)
  NotBefore : option Z;
  IssuedAt : option Z;
  ClaimsID : string;
  Scopes : list string;
  RateLimit : GwLimit.RateLimitConfig;
}.

Definition no_claims : Claims :=
  {| Subject := ""; Issuer := ""; Audience := []; ExpiresAt := None; NotBefore := None; IssuedAt := None; ClaimsID := "";
     Scopes := []; RateLimit := GwLimit.mkRateLimitConfig 0 0 |}.

(** What a session takes from the claims. *)
Definition session_claims (c : Claims) : Sessions.Claims :=
  {| Sessions.Subject := Subject c; Sessions.ClaimsExpiresAt := ExpiresAt c; Sessions.ClaimsScopes := Scopes c;
     Sessions.ClaimsRateLimit := RateLimit c |}.

Definition HasScope (scope : string) (c : Claims) : bool := existsb (fun s => bool_decide (s = scope)) (Scopes c).

Definition CanAccessNamespace (namespace : string) (c : Claims) : bool :=
  HasScope "mcp:*" c || HasScope ("mcp:" +:+ namespace +:+ ":*") c || HasScope ("mcp:" +:+ namespace +:+ ":read") c.

Definition with_rate_limit (l : GwLimit.RateLimitConfig) (c : Claims) : Claims :=
  {| Subject := Subject c; Issuer := Issuer c; Audience := Audience c; ExpiresAt := ExpiresAt c; NotBefore := NotBefore c;
     IssuedAt := IssuedAt c; ClaimsID := ClaimsID c; Scopes := Scopes c; RateLimit := l |}.

(** Errors, by the text or the constructor that builds them; a nil dereference panics. *)
Inductive AuthError :=
| MissingHeader | InvalidHeader
| ParseFailed (e : string) | NotValid
| KeyNotConfigured (family : string) | UnexpectedMethod (alg : string)
| TokenExpired | NotYetValid | InvalidIssuer (iss : string) | InvalidAudience
| MissingToken | InvalidToken (reason : AuthError) | MessageTokenExpired | SessionMismatch
| IntrospectionFailed (e : string) | NotActive | JWKSNotImplemented
| EnvNotSet (name : string) | KeyUnreadable (e : string) | UnsupportedProvider (name : string)
| Panicked.

#[export] Instance AuthError_eq_dec : EqDecision AuthError.
Proof. solve_decision. Defined.

(** ** The interface of providers *)

Class Provider (P : Type) := {
  ValidateToken : string -> readings -> M P AuthError Claims;
  (** the argument is the Authorization header, empty when it is absent *)
  Authenticate : string -> readings -> M P AuthError Claims;
}.

(** [strings.SplitN(header, " ", 2)] with the tests of both parts. *)
Fixpoint cut_space (s : string) : option (string * string) :=
  match s with
  | EmptyString => None
  | String a s' =>
      if Ascii.eqb a " "%char then Some (EmptyString, s')
      else '(u, v) ← cut_space s'; Some (String a u, v)
  end.

Definition bearer_token (header : string) : option string :=
  match cut_space header with
  | Some (scheme, token) => if bool_decide (scheme = "Bearer"%string) then Some token else None
  | None => None
  end.

(** ** No authentication *)

Definition noOpSessionDuration : Z := 24 * 60 * Minute.

Record NoOpProvider := mkNoOp {}.

(** [jwt.NewNumericDate] truncates to seconds. *)
Definition truncate_second (t : Z) : Z := t - t mod Second.

Definition noop_claims (t : readings) : Claims :=
  {| Subject := "anonymous"; Issuer := ""; Audience := [];
     ExpiresAt := Some (truncate_second (time_add (t 0%nat) noOpSessionDuration));
     NotBefore := None; IssuedAt := Some (truncate_second (t 1%nat)); ClaimsID := ""; Scopes := [];
     RateLimit := GwLimit.mkRateLimitConfig 10000 100 |}.

#[export] Instance NoOpProvider_provider : Provider NoOpProvider := {
  ValidateToken := fun _ t => mret (noop_claims t);
  Authenticate := fun _ t => mret (noop_claims t);
}.

(** ** JSON web tokens *)

Inductive SigningMethod := HMAC | RSA | OtherMethod (alg : string).
Inductive SigningKey := SecretKey (k : string) | PublicKey (k : string).

(** The library parses a token, asks the caller for the key of its signing method, and checks the signature with
    it.  [signed s m k c]: the token [s] carries the claims [c] and a signature of method [m] that the key
    verifies. *)
Class JWT := {
  Token : Type;
  Valid : Token -> bool;
  TokenClaims : Token -> Claims;
  ParseWithClaims : string -> (SigningMethod -> result AuthError SigningKey) -> Z -> result string Token;
  signed : string -> SigningMethod -> SigningKey -> Claims -> Prop;
  ParseRSAPublicKey : string -> result string string;
  parse_signed : forall s key now tok, ParseWithClaims s key now = Ok tok -> Valid tok = true ->
    exists m k, key m = Ok k /\ signed s m k (TokenClaims tok);
}.

Record JWTConfig := mkJWTConfig { cfg_Issuer : string; cfg_Audience : string; SecretKeyEnv : string; PublicKeyPath : string }.

Record JWTProvider := mkJWTProvider { config : JWTConfig; secretKey : option string; publicKey : option string }.

Section Jwt.
Context `{JWT}.

(** [os.Getenv] and [os.ReadFile]. *)
Variable Getenv : string -> string.
Variable ReadFile : string -> result string string.

Definition createJWTAuthProvider (cfg : JWTConfig) : result AuthError JWTProvider :=
  let load_public (secret : option string) : result AuthError JWTProvider :=
    if bool_decide (PublicKeyPath cfg = EmptyString) then Ok {| config := cfg; secretKey := secret; publicKey := None |}
    else match ReadFile (PublicKeyPath cfg) with
         | Err e => Err (KeyUnreadable e)
         | Ok keyData =>
             match ParseRSAPublicKey keyData with
             | Err e => Err (KeyUnreadable e)
             | Ok key => Ok {| config := cfg; secretKey := secret; publicKey := Some key |}
             end
         end in
  if bool_decide (SecretKeyEnv cfg = EmptyString) then load_public None
  else if bool_decide (Getenv (SecretKeyEnv cfg) = EmptyString) then Err (EnvNotSet (SecretKeyEnv cfg))
  else load_public (Some (Getenv (SecretKeyEnv cfg))).

Definition getSigningKey (p : JWTProvider) (m : SigningMethod) : result AuthError SigningKey :=
  match m with
  | HMAC => match secretKey p with Some k => Ok (SecretKey k) | None => Err (KeyNotConfigured "HMAC") end
  | RSA => match publicKey p with Some k => Ok (PublicKey k) | None => Err (KeyNotConfigured "RSA") end
  | OtherMethod alg => Err (UnexpectedMethod alg)
  end.

Definition parseToken (p : JWTProvider) (s : string) (now : Z) : result AuthError Token :=
  match ParseWithClaims s (getSigningKey p) now with
  | Err e => Err (ParseFailed e)
  | Ok tok => if Valid tok then Ok tok else Err NotValid
  end.

Definition validateTimeBasedClaims (c : Claims) (now : Z) : result AuthError unit :=
  first_error
    [(match ExpiresAt c with Some e => time_after now e | None => false end, TokenExpired);
     (match NotBefore c with Some n => time_after n now | None => false end, NotYetValid)].

Definition validateIssuer (p : JWTProvider) (c : Claims) : result AuthError unit :=
  first_error
    [(negb (bool_decide (cfg_Issuer (config p) = EmptyString)) && negb (bool_decide (Issuer c = cfg_Issuer (config p))),
      InvalidIssuer (Issuer c))].

Definition validateAudience (p : JWTProvider) (c : Claims) : result AuthError unit :=
  if bool_decide (cfg_Audience (config p) = EmptyString) then Ok tt
  else if existsb (fun aud => bool_decide (aud = cfg_Audience (config p))) (Audience c) then Ok tt
  else Err InvalidAudience.

Definition validateClaims (p : JWTProvider) (c : Claims) (now : Z) : result AuthError unit :=
  _ ← validateTimeBasedClaims c now; _ ← validateIssuer p c; validateAudience p c.

Definition setDefaultRateLimit (c : Claims) : Claims :=
  if GwLimit.RequestsPerMinute (RateLimit c) =? 0 then with_rate_limit (GwLimit.mkRateLimitConfig 1000 50) c else c.

(** [logTokenValidation] reads [claims.ExpiresAt.Time], whatever the level of the log. *)
Definition logTokenValidation (c : Claims) : result AuthError unit :=
  match ExpiresAt c with Some _ => Ok tt | None => Err Panicked end.

Definition jwt_ValidateToken (p : JWTProvider) (s : string) (t : readings) : result AuthError Claims :=
  tok ← parseToken p s (t 0%nat);
  let c := TokenClaims tok in
  _ ← validateClaims p c (t 1%nat);
  let c := setDefaultRateLimit c in
  _ ← logTokenValidation c;
  Ok c.

Definition jwt_Authenticate (p : JWTProvider) (header : string) (t : readings) : result AuthError Claims :=
  if bool_decide (header = EmptyString) then Err MissingHeader
  else match bearer_token header with
       | None => Err InvalidHeader
       | Some token => jwt_ValidateToken p token t
       end.

#[export] Instance JWTProvider_provider : Provider JWTProvider := {
  ValidateToken := fun s t p => (jwt_ValidateToken p s t, p);
  Authenticate := fun header t p => (jwt_Authenticate p header t, p);
}.

(** Every access to the environment is an argument, so is the choice of the provider. *)
Inductive AnyProvider := PNoOp | PJwt (p : JWTProvider) | POAuth2.

Definition InitializeAuthenticationProvider (provider : string) (jwt : JWTConfig) (oauth2 : result AuthError unit) : result AuthError AnyProvider :=
  if bool_decide (provider = EmptyString) then Ok PNoOp
  else if bool_decide (provider = "jwt"%string) then p ← createJWTAuthProvider jwt; Ok (PJwt p)
  else if bool_decide (provider = "oauth2"%string) then _ ← oauth2; Ok POAuth2
  else Err (UnsupportedProvider provider).

End Jwt.

(** ** OAuth2 *)

Record introspectionResponse := mkIntrospection {
  Active : bool; Scope : string; Exp : Z; Iat : Z; Sub : string; Aud : list string; Iss : string; Jti : string }.

Record OAuth2Config := mkOAuth2Config { ClientSecretEnv : string; JWKSEndpoint : string }.

(** Cached claims and the instant until which they are used. *)
Notation token_cache := (gmap string (Claims * Z)).

Record OAuth2Provider := mkOAuth2 { o_config : OAuth2Config; o_cache : token_cache }.

Definition cacheExpiration : Z := 5 * Minute.

(** Scanning an integer with the verb %d: a sign, digits, anything after them; an int64. *)
Fixpoint scan_digits (s : string) (n : Z) (some : bool) : option Z :=
  match s with
  | String a s' => if in_range 48 57 (bz a) then scan_digits s' (10 * n + (bz a - 48)) true else if some then Some n else None
  | EmptyString => if some then Some n else None
  end.

Definition Sscanf_d (s : string) : option Z :=
  z ← match s with
      | String "-"%char s' => Z.opp <$> scan_digits s' 0 false
      | String "+"%char s' => scan_digits s' 0 false
      | _ => scan_digits s 0 false
      end;
  if in_range min_i64 max_i64 z then Some z else None.

(** [strings.Fields]: the words between white space, which takes several bytes outside ASCII. *)
Fixpoint fields_from (skip : nat) (word : string) (s : string) : list string :=
  let flush := if bool_decide (word = EmptyString) then [] else [word] in
  match s with
  | EmptyString => flush
  | String a s' =>
      match skip with
      | S k => fields_from k EmptyString s'
      | O => match List.find (HasPrefix s) spaces with
             | Some w => flush ++ fields_from (String.length w - 1) EmptyString s'
             | None => fields_from 0 (word +:+ String a EmptyString) s'
             end
      end
  end.
Definition Fields (s : string) : list string := fields_from 0 EmptyString s.

(** A scope [rate_limit:rpm:burst] sets the limits it can parse. *)
Definition scope_limit (l : GwLimit.RateLimitConfig) (scope : string) : GwLimit.RateLimitConfig :=
  if negb (HasPrefix scope "rate_limit:") then l
  else match SplitByte ":"%char scope with
       | [_; rpm; burst] =>
           {| GwLimit.RequestsPerMinute := default (GwLimit.RequestsPerMinute l) (Sscanf_d rpm);
              GwLimit.Burst := default (GwLimit.Burst l) (Sscanf_d burst) |}
       | _ => l
       end.

Definition introspectionToClaims (r : introspectionResponse) : Claims :=
  {| Subject := Sub r; Issuer := Iss r; Audience := Aud r; ExpiresAt := Some (Exp r * Second); NotBefore := None;
     IssuedAt := Some (Iat r * Second); ClaimsID := Jti r; Scopes := Fields (Scope r);
     RateLimit := foldl scope_limit (GwLimit.mkRateLimitConfig 1000 50) (Fields (Scope r)) |}.

(** Caches use an entry only until its instant: the end of the cache period or of the token. *)
Definition cache_until (c : Claims) (until : Z) : Z :=
  match ExpiresAt c with Some e => if time_after until e then e else until | None => until end.

Definition getCachedClaims (now : Z) (token : string) (cache : token_cache) : option Claims :=
  '(c, until) ← cache !! token; if time_after now until then None else Some c.

Definition cacheIntrospection (now : Z) (token : string) (c : Claims) (cache : token_cache) : token_cache :=
  <[token := (c, cache_until c (time_add now cacheExpiration))]> cache.

Definition o_cleanup (now : Z) (cache : token_cache) : token_cache :=
  filter (fun '(_, (_, until)) => time_after now until = false) cache.

Definition validateJWT (token : string) : result AuthError Claims := Err JWKSNotImplemented.

(** The endpoint: the decoded answer of a request with status 200, or what failed. *)
Class Introspection := introspectToken : string -> Z -> result string introspectionResponse.

Definition with_o_cache (cache : token_cache) (p : OAuth2Provider) : OAuth2Provider := {| o_config := o_config p; o_cache := cache |}.

Section OAuth2.
Context `{Introspection}.

Definition createOAuth2AuthProvider (Getenv : string -> string) (cfg : OAuth2Config) : result AuthError OAuth2Provider :=
  if negb (bool_decide (ClientSecretEnv cfg = EmptyString)) && bool_decide (Getenv (ClientSecretEnv cfg) = EmptyString)
  then Err (EnvNotSet (ClientSecretEnv cfg))
  else Ok {| o_config := cfg; o_cache := ∅ |}.

(** The readings: the cache, the request, the entry. *)
Definition o_ValidateToken (token : string) (t : readings) : M OAuth2Provider AuthError Claims := fun p =>
  match getCachedClaims (t 0%nat) token (o_cache p) with
  | Some c => (Ok c, p)
  | None =>
      let by_jwt := if bool_decide (JWKSEndpoint (o_config p) = EmptyString) then Err JWKSNotImplemented else validateJWT token in
      match by_jwt with
      | Ok c => (Ok c, with_o_cache (cacheIntrospection (t 2%nat) token c (o_cache p)) p)
      | Err _ =>
          match introspectToken token (t 1%nat) with
          | Err e => (Err (IntrospectionFailed e), p)
          | Ok r =>
              if negb (Active r) then (Err NotActive, p)
              else let c := introspectionToClaims r in
                   (Ok c, with_o_cache (cacheIntrospection (t 2%nat) token c (o_cache p)) p)
          end
      end
  end.

Definition o_Authenticate (header : string) (t : readings) : M OAuth2Provider AuthError Claims := fun p =>
  if bool_decide (header = EmptyString) then (Err MissingToken, p)
  else match bearer_token header with
       | None => (Err (InvalidToken InvalidHeader), p)
       | Some token => o_ValidateToken token t p
       end.

#[export] Instance OAuth2Provider_provider : Provider OAuth2Provider := {
  ValidateToken := o_ValidateToken; Authenticate := o_Authenticate }.

End OAuth2.

(** ** Tokens of single messages *)

Record MessageAuthenticator (P : Type) := mkMA { provider : P; cacheExpiry : Z; entries : token_cache }.
Arguments mkMA {P}.
Arguments provider {P}.
Arguments cacheExpiry {P}.
Arguments entries {P}.

Definition with_entries {P} (es : token_cache) (ma : MessageAuthenticator P) : MessageAuthenticator P :=
  {| provider := provider ma; cacheExpiry := cacheExpiry ma; entries := es |}.

(** [time.Duration(cacheSeconds) * time.Second] wraps. *)
Definition CreateMessageLevelAuthenticator {P} (p : P) (cacheSeconds : Z) : MessageAuthenticator P :=
  {| provider := p; cacheExpiry := wrap_s 64 (cacheSeconds * Second); entries := ∅ |}.

Definition getFromCache (now : Z) (token : string) (es : token_cache) : option Claims :=
  '(c, until) ← es !! token; if time_after until now then Some c else None.

Definition tryGetFromCache {P} (now : Z) (token : string) (ma : MessageAuthenticator P) : bool :=
  if cacheExpiry ma <=? 0 then false
  else match getFromCache now token (entries ma) with Some _ => true | None => false end.

Definition verifyClaims (c : Claims) (sessionID : string) (now : Z) : result AuthError unit :=
  first_error
    [(match ExpiresAt c with Some e => time_after now e | None => false end, MessageTokenExpired);
     (negb (bool_decide (sessionID = EmptyString)) && negb (bool_decide (Subject c = EmptyString))
        && negb (bool_decide (Subject c = sessionID)), SessionMismatch)].

Definition addToCache {P} (now : Z) (token : string) (c : Claims) (ma : MessageAuthenticator P) : MessageAuthenticator P :=
  with_entries (<[token := (c, cache_until c (time_add now (cacheExpiry ma)))]> (entries ma)) ma.

Definition tryAddToCache {P} (now : Z) (token : string) (c : Claims) (ma : MessageAuthenticator P) : MessageAuthenticator P :=
  if 0 <? cacheExpiry ma then addToCache now token c ma else ma.

Definition with_provider {P} (p : P) (ma : MessageAuthenticator P) : MessageAuthenticator P :=
  {| provider := p; cacheExpiry := cacheExpiry ma; entries := entries ma |}.

(** [ValidateMessageToken]; the readings: the cache, the check of the claims, the entry; the provider has its own. *)
Definition ValidateMessageToken `{Provider P} (token sessionID : string) (t tp : readings) : M (MessageAuthenticator P) AuthError unit := fun ma =>
  if bool_decide (token = EmptyString) then (Err MissingToken, ma)
  else if tryGetFromCache (t 0%nat) token ma then (Ok tt, ma)
  else match ValidateToken token tp (provider ma) with
       | (Err e, p) => (Err (match e with Panicked => Panicked | _ => InvalidToken e end), with_provider p ma)
       | (Ok c, p) =>
           let ma := with_provider p ma in
           match verifyClaims c sessionID (t 1%nat) with
           | Err e => (Err e, ma)
           | Ok _ => (Ok tt, tryAddToCache (t 2%nat) token c ma)
           end
       end.

(** One tick of [cleanupCache]. *)
Definition cleanupCache {P} (now : Z) (ma : MessageAuthenticator P) : MessageAuthenticator P :=
  with_entries (filter (fun '(_, (_, until)) => time_after now until = false) (entries ma)) ma.

(** The claims that [GenerateMessageToken] signs. *)
Definition message_claims (sessionID : string) (duration : Z) (t : readings) : Claims :=
  {| Subject := sessionID; Issuer := ""; Audience := []; ExpiresAt := Some (truncate_second (time_add (t 0%nat) duration));
     NotBefore := None; IssuedAt := Some (truncate_second (t 1%nat)); ClaimsID := ""; Scopes := [];
     RateLimit := GwLimit.mkRateLimitConfig 0 0 |}.

(** ** Header and claims *)

Lemma cut_space_sound s u v : cut_space s = Some (u, v) -> s = (u +:+ String " " v)%string.
Proof.
  revert u v; induction s as [|a s IH]; intros u v; cbn; [done|].
  destruct (Ascii.eqb_spec a " "%char) as [->|Ha]; [by intros [= <- <-]|].
  destruct (cut_space s) as [[u' v']|] eqn:E; [|done]. intros [= <- <-]. by rewrite (IH _ _ eq_refl).
Qed.

Lemma cut_space_first u v : str_mem " "%char u = false -> cut_space (u +:+ String " " v) = Some (u, v).
Proof.
  induction u as [|a u IH]; [done|]. intros [Ha Hu]%orb_false_iff.
  change (String a u +:+ String " " v)%string with (String a (u +:+ String " " v)). cbn [cut_space].
  rewrite IH by done. by rewrite Ha.
Qed.

(** The header is the scheme, one space and the token, which may contain more spaces. *)
Lemma bearer_token_spec header token : bearer_token header = Some token <-> header = ("Bearer " +:+ token)%string.
Proof.
  unfold bearer_token. split.
  - destruct (cut_space header) as [[u v]|] eqn:E; [|done]. apply cut_space_sound in E as ->.
    case_bool_decide as Hs; [|done]. by intros [= <-]; subst.
  - intros ->. change ("Bearer " +:+ token)%string with ("Bearer" +:+ String " " token)%string.
    by rewrite (cut_space_first "Bearer" token).
Qed.

Section JwtTheorems.
Context `{JWT}.

(** The claims are in force at [now] for this provider. *)
Definition in_force (p : JWTProvider) (c : Claims) (now : Z) : Prop :=
  (forall e, ExpiresAt c = Some e -> now <= e) /\ (forall n, NotBefore c = Some n -> n <= now) /\
  (cfg_Issuer (config p) = EmptyString \/ Issuer c = cfg_Issuer (config p)) /\
  (cfg_Audience (config p) = EmptyString \/ cfg_Audience (config p) ∈ Audience c).

Lemma expiry_ok c now : (match ExpiresAt c with Some e => time_after now e | None => false end = false) <-> (forall e, ExpiresAt c = Some e -> now <= e).
Proof.
  unfold time_after. destruct (ExpiresAt c) as [e|]; [|done]. rewrite Z.ltb_ge. split; [by intros H0 ? [= <-]|by intros H0; apply H0].
Qed.

Lemma validateTimeBasedClaims_spec c now :
  validateTimeBasedClaims c now = Ok tt <-> (forall e, ExpiresAt c = Some e -> now <= e) /\ (forall n, NotBefore c = Some n -> n <= now).
Proof.
  unfold validateTimeBasedClaims. rewrite first_error_ok, !Forall_cons, Forall_nil. cbn [fst]. rewrite expiry_ok.
  assert (match NotBefore c with Some n => time_after n now | None => false end = false <-> forall n, NotBefore c = Some n -> n <= now) as ->.
  { unfold time_after. destruct (NotBefore c) as [n|]; [|done]. rewrite Z.ltb_ge. split; [by intros H0 ? [= <-]|by intros H0; apply H0]. }
  tauto.
Qed.

Lemma validateIssuer_spec p c :
  validateIssuer p c = Ok tt <-> cfg_Issuer (config p) = EmptyString \/ Issuer c = cfg_Issuer (config p).
Proof.
  unfold validateIssuer. rewrite first_error_ok, !Forall_cons, Forall_nil. cbn [fst].
  rewrite andb_false_iff, !negb_false_iff, !bool_decide_eq_true. tauto.
Qed.

Lemma validateAudience_spec p c :
  validateAudience p c = Ok tt <-> cfg_Audience (config p) = EmptyString \/ cfg_Audience (config p) ∈ Audience c.
Proof.
  unfold validateAudience. case_bool_decide as Hn; [tauto|].
  assert (existsb (λ aud, bool_decide (aud = cfg_Audience (config p))) (Audience c) = true <-> cfg_Audience (config p) ∈ Audience c) as He.
  { rewrite existsb_exists. split.
    - intros (a & Ha & ->%bool_decide_eq_true). by apply list_elem_of_In.
    - intros Ha. exists (cfg_Audience (config p)). split; [by apply list_elem_of_In|by apply bool_decide_eq_true]. }
  destruct (existsb _ _); [tauto|]. rewrite <- He. intuition congruence.
Qed.

Lemma validateClaims_spec p c now : validateClaims p c now = Ok tt <-> in_force p c now.
Proof.
  unfold validateClaims, in_force, mbind, result_bind. split.
  - destruct (validateTimeBasedClaims c now) as [[]|] eqn:E1; [|done].
    destruct (validateIssuer p c) as [[]|] eqn:E2; [|done]. intros E3.
    apply validateTimeBasedClaims_spec in E1. apply validateIssuer_spec in E2. apply validateAudience_spec in E3. tauto.
  - intros (H1 & H2 & H3 & H4). rewrite (proj2 (validateTimeBasedClaims_spec c now)) by done.
    rewrite (proj2 (validateIssuer_spec p c)) by done. by apply validateAudience_spec.
Qed.

(** The token the library accepted, with its claims in force. *)
Definition accepted (p : JWTProvider) (s : string) (t : readings) (c : Claims) : Prop :=
  exists tok, ParseWithClaims s (getSigningKey p) (t 0%nat) = Ok tok /\ Valid tok = true /\ TokenClaims tok = c /\ in_force p c (t 1%nat).

Lemma jwt_ValidateToken_cases p s t :
  (exists c, accepted p s t c /\
     jwt_ValidateToken p s t = match ExpiresAt c with Some _ => Ok (setDefaultRateLimit c) | None => Err Panicked end) \/
  ((forall c, ~ accepted p s t c) /\ exists e, jwt_ValidateToken p s t = Err e /\ e <> Panicked).
Proof.
  unfold jwt_ValidateToken, parseToken, mbind, result_bind.
  destruct (ParseWithClaims s (getSigningKey p) (t 0%nat)) as [tok|e] eqn:Ep.
  2:{ right. split; [|by eexists]. intros c (tok & Htok & _). congruence. }
  destruct (Valid tok) eqn:Ev.
  2:{ right. split; [|by eexists]. intros c (tok' & Htok & Hv & _). congruence. }
  destruct (validateClaims p (TokenClaims tok) (t 1%nat)) as [[]|e] eqn:Ec.
  - left. exists (TokenClaims tok). split; [exists tok; by rewrite <- validateClaims_spec|].
    unfold setDefaultRateLimit, logTokenValidation. destruct (ExpiresAt (TokenClaims tok)) eqn:Ee; destruct (_ =? 0); cbn; by rewrite Ee.
  - right. split.
    + intros c (tok' & Htok & _ & <- & Hf%validateClaims_spec). congruence.
    + exists e. split; [done|]. intros ->. revert Ec.
      unfold validateClaims, validateTimeBasedClaims, validateIssuer, validateAudience, first_error, mbind, result_bind.
      repeat case_match; congruence.
Qed.

(** C29: The JWT provider accepts a token exactly when the library verified it with the configured key of its
    signing method and its claims are in force (not expired, already valid, of the configured issuer and
    audience); the caller gets these claims, with the default limit if they have none.  A verified token
    without an expiry does not get an answer: the call panics. *)
Theorem jwt_accepts_exactly (p : JWTProvider) (s : string) (t : readings) :
  (forall c, jwt_ValidateToken p s t = Ok c <->
     exists c0, accepted p s t c0 /\ is_Some (ExpiresAt c0) /\ c = setDefaultRateLimit c0) /\
  (jwt_ValidateToken p s t = Err Panicked <-> exists c0, accepted p s t c0 /\ ExpiresAt c0 = None) /\
  (forall c0, accepted p s t c0 -> exists m k, getSigningKey p m = Ok k /\ signed s m k c0).
Proof.
  assert (forall c c', accepted p s t c -> accepted p s t c' -> c = c') as Hu.
  { intros c c' (tok & H1 & _ & <- & _) (tok' & H2 & _ & <- & _). congruence. }
  split_and!.
  - intros c. destruct (jwt_ValidateToken_cases p s t) as [(c0 & Ha & ->)|(Hn & e & -> & _)].
    + destruct (ExpiresAt c0) eqn:Ee; split; try done.
      * intros [= <-]. exists c0. by rewrite Ee.
      * intros (c1 & Hc1 & _ & ->). by rewrite (Hu _ _ Ha Hc1).
      * intros (c1 & Hc1 & [x Hx] & ->). rewrite <- (Hu _ _ Ha Hc1) in Hx. congruence.
    + split; [done|]. intros (c0 & Hc & _). by destruct (Hn c0).
  - destruct (jwt_ValidateToken_cases p s t) as [(c0 & Ha & ->)|(Hn & e & -> & He)].
    + destruct (ExpiresAt c0) eqn:Ee; split; try done; [|by exists c0].
      intros (c1 & Hc1 & Hx). rewrite <- (Hu _ _ Ha Hc1) in Hx. congruence.
    + split; [by intros [= ->]|]. intros (c0 & Hc & _). by destruct (Hn c0).
  - intros c0 (tok & Hp & Hv & <- & _). by eapply parse_signed.
Qed.

End JwtTheorems.

(** A library whose tokens are the HMAC key itself, for executable examples. *)
Definition toy_claims (exp : option Z) : Claims :=
  {| Subject := "alice"; Issuer := "iss"; Audience := ["mcp"]; ExpiresAt := exp; NotBefore := None; IssuedAt := None; ClaimsID := "";
     Scopes := ["mcp:k8s:*"]; RateLimit := GwLimit.mkRateLimitConfig 0 0 |}.

Definition toy_parse (exp : option Z) (s : string) (key : SigningMethod -> result AuthError SigningKey) (now : Z) : result string Claims :=
  match key HMAC with
  | Ok (SecretKey k) => if bool_decide (s = k) then Ok (toy_claims exp) else Err "signature is invalid"%string
  | _ => Err "token is unverifiable"%string
  end.

Definition ToyJWT (exp : option Z) : JWT.
Proof.
  refine {| Token := Claims; Valid := fun _ => true; TokenClaims := fun c => c; ParseWithClaims := toy_parse exp;
            signed := fun s m k c => m = HMAC /\ k = SecretKey s; ParseRSAPublicKey := fun k => Ok k |}.
  intros s key now tok. unfold toy_parse. destruct (key HMAC) as [[k|k]|] eqn:E; try done.
  case_bool_decide; [|done]. intros _ _. subst. by exists HMAC, (SecretKey k).
Defined.

Definition toy_provider (audience : string) : JWTProvider :=
  {| config := mkJWTConfig "iss" audience "KEY" ""; secretKey := Some "s3cret"%string; publicKey := None |}.

Definition at_once (now : Z) : readings := fun _ => now.

Lemma jwt_accepts_exactly_witness :
  (jwt_Authenticate (H := ToyJWT (Some 50)) (toy_provider "mcp") "Bearer s3cret" (at_once 20)
     = Ok (with_rate_limit (GwLimit.mkRateLimitConfig 1000 50) (toy_claims (Some 50)))) /\
  jwt_ValidateToken (H := ToyJWT (Some 10)) (toy_provider "mcp") "s3cret" (at_once 20) = Err TokenExpired /\
  jwt_ValidateToken (H := ToyJWT None) (toy_provider "other") "s3cret" (at_once 20) = Err InvalidAudience /\
  jwt_ValidateToken (H := ToyJWT None) (toy_provider "mcp") "s3cret" (at_once 20) = Err Panicked /\
  exists c0, accepted (H := ToyJWT None) (toy_provider "mcp") "s3cret" (at_once 20) c0 /\ ExpiresAt c0 = None.
Proof.
  split_and!; try by vm_compute.
  apply (proj1 (proj1 (proj2 (@jwt_accepts_exactly (ToyJWT None) (toy_provider "mcp") "s3cret" (at_once 20))))). by vm_compute.
Defined.

(** ** Caches of tokens *)

(** Every entry goes back to a grant: claims found valid for the token at some instant.  It is used for at
    most [period] after that instant and not past the expiry of the claims. *)
Definition cache_inv (period : Z) (granted : string -> Claims -> Z -> Prop) (cache : token_cache) : Prop :=
  forall token c until, cache !! token = Some (c, until) ->
    (forall e, ExpiresAt c = Some e -> until <= e) /\ exists since, granted token c since /\ until <= since + period.

Lemma cache_inv_empty period g : cache_inv period g ∅.
Proof. by intros ? ? ?. Qed.

Lemma cache_inv_mono period (g g' : string -> Claims -> Z -> Prop) cache :
  cache_inv period g cache -> (forall tok c at_, g tok c at_ -> g' tok c at_) -> cache_inv period g' cache.
Proof. intros Hc Hg tok c u Hu. destruct (Hc tok c u Hu) as (He & at_ & Ha & Hl). split; [done|]. exists at_. eauto. Qed.

Lemma cache_inv_insert period g cache token c since :
  cache_inv period g cache -> g token c since -> cache_inv period g (<[token := (c, cache_until c (time_add since period))]> cache).
Proof.
  intros Hc Hg tok c' u [[<- [= <- <-]]|[_ Hl]]%lookup_insert_Some; [|by apply Hc].
  unfold cache_until, time_after, time_add. split.
  - intros e ->. destruct (Z.ltb_spec e (since + period)); lia.
  - exists since. split; [done|]. destruct (ExpiresAt c) as [e|]; [|lia]. destruct (Z.ltb_spec e (since + period)); lia.
Qed.

Lemma cache_inv_filter period g cache now :
  cache_inv period g cache -> cache_inv period g (filter (fun '(_, (_, until)) => time_after now until = false) cache).
Proof. intros Hc tok c u [Hl _]%map_lookup_filter_Some. by apply Hc. Qed.

(** *** Message tokens *)

Section MessageTokens.
Context `{Provider P}.

Inductive MOp := MValidate (token session : string) (t tp : readings) | MCleanup (now : Z).

(** A token that the provider accepted and whose claims passed for a session. *)
Record grant := mkGrant { g_token : string; g_session : string; g_claims : Claims; g_checked : Z; g_stored : Z }.

Definition granted_by (token session : string) (t tp : readings) (ma : MessageAuthenticator P) : list grant :=
  if bool_decide (token = EmptyString) || tryGetFromCache (t 0%nat) token ma then []
  else match fst (ValidateToken token tp (provider ma)) with
       | Ok c => if is_ok (verifyClaims c session (t 1%nat)) then [mkGrant token session c (t 1%nat) (t 2%nat)] else []
       | Err _ => []
       end.

(** The answers, the grants and the final state of a history. *)
Fixpoint ma_run (ops : list MOp) (ma : MessageAuthenticator P) : list (result AuthError unit) * list grant * MessageAuthenticator P :=
  match ops with
  | [] => ([], [], ma)
  | MValidate token session t tp :: ops =>
      let '(r, ma1) := ValidateMessageToken token session t tp ma in
      let '(rs, gs, ma2) := ma_run ops ma1 in
      (r :: rs, granted_by token session t tp ma ++ gs, ma2)
  | MCleanup now :: ops => ma_run ops (cleanupCache now ma)
  end.

Definition grants_of (gs : list grant) (token : string) (c : Claims) (since : Z) : Prop :=
  exists g, g ∈ gs /\ g_token g = token /\ g_claims g = c /\ g_stored g = since /\ verifyClaims c (g_session g) (g_checked g) = Ok tt.

Definition ma_inv (gs : list grant) (ma : MessageAuthenticator P) : Prop := cache_inv (cacheExpiry ma) (grants_of gs) (entries ma).

(** One call: its answer is backed by a grant of its own or by a cached one that is still usable. *)
Lemma message_step gs token session t tp ma :
  ma_inv gs ma ->
  let '(r, ma1) := ValidateMessageToken token session t tp ma in
  cacheExpiry ma1 = cacheExpiry ma /\ ma_inv (gs ++ granted_by token session t tp ma) ma1 /\
  (r = Ok tt -> exists c since, grants_of (gs ++ granted_by token session t tp ma) token c since /\
     (granted_by token session t tp ma <> [] \/ t 0%nat < since + cacheExpiry ma /\ forall e, ExpiresAt c = Some e -> t 0%nat < e)).
Proof.
  intros Hi. unfold ValidateMessageToken, granted_by.
  case_bool_decide as Ht; [cbn; split_and!; [done|by rewrite app_nil_r|done]|]. cbn [orb].
  destruct (tryGetFromCache (t 0%nat) token ma) eqn:Eh.
  - split_and!; [done|by rewrite app_nil_r|]. intros _. rewrite app_nil_r.
    unfold tryGetFromCache in Eh. destruct (cacheExpiry ma <=? 0); [done|].
    destruct (getFromCache (t 0%nat) token (entries ma)) as [c|] eqn:Eg; [|done].
    unfold getFromCache in Eg. apply bind_Some in Eg as ([c' u] & El & Ec). unfold time_after in Ec.
    destruct (Z.ltb_spec (t 0%nat) u) as [Hu|]; [|done]. injection Ec as ->.
    destruct (Hi token c u El) as (He & since & Hg & Hl). exists c, since. split; [done|]. right. split; [lia|].
    intros e Hx. specialize (He e Hx). lia.
  - destruct (ValidateToken token tp (provider ma)) as [[c|e] p] eqn:Ev; cbn [fst].
    2:{ split_and!; [done|by rewrite app_nil_r|done]. }
    cbn zeta. destruct (verifyClaims c session (t 1%nat)) as [[]|e] eqn:Ec; cbn [is_ok].
    2:{ split_and!; [done|by rewrite app_nil_r|done]. }
    assert (grants_of (gs ++ [mkGrant token session c (t 1%nat) (t 2%nat)]) token c (t 2%nat)) as Hg.
    { exists (mkGrant token session c (t 1%nat) (t 2%nat)). split; [|done]. set_solver. }
    assert (ma_inv (gs ++ [mkGrant token session c (t 1%nat) (t 2%nat)]) ma) as Hi'.
    { eapply cache_inv_mono; [exact Hi|]. intros tok c' s (g & Hin & Hrest). exists g. set_solver. }
    split_and!.
    + unfold tryAddToCache. by destruct (0 <? _).
    + unfold tryAddToCache. cbn [with_provider cacheExpiry]. destruct (0 <? cacheExpiry ma); [|exact Hi'].
      by apply cache_inv_insert.
    + intros _. exists c, (t 2%nat). split; [done|]. by left.
Qed.

Lemma ma_run_app ops ops' ma :
  ma_run (ops ++ ops') ma =
    let '(rs, gs, ma1) := ma_run ops ma in let '(rs', gs', ma2) := ma_run ops' ma1 in (rs ++ rs', gs ++ gs', ma2).
Proof.
  revert ma; induction ops as [|[token session t tp|now] ops IH]; intros ma; cbn.
  - by destruct (ma_run ops' ma) as [[? ?] ?].
  - destruct (ValidateMessageToken token session t tp ma) as [r ma1]. rewrite IH.
    destruct (ma_run ops ma1) as [[rs gs] ma2]. destruct (ma_run ops' ma2) as [[rs' gs'] ma3]. by rewrite <- app_assoc.
  - apply IH.
Qed.

Lemma ma_run_inv ops gs0 ma :
  ma_inv gs0 ma -> let '(_, gs, ma') := ma_run ops ma in cacheExpiry ma' = cacheExpiry ma /\ ma_inv (gs0 ++ gs) ma'.
Proof.
  revert gs0 ma; induction ops as [|[token session t tp|now] ops IH]; intros gs0 ma Hi; cbn.
  - by rewrite app_nil_r.
  - pose proof (message_step gs0 token session t tp ma Hi) as Hs.
    destruct (ValidateMessageToken token session t tp ma) as [r ma1]. destruct Hs as (He & Hi1 & _).
    specialize (IH _ _ Hi1). destruct (ma_run ops ma1) as [[rs gs] ma2]. rewrite app_assoc. destruct IH. split; [congruence|done].
  - specialize (IH gs0 (cleanupCache now ma)). destruct (ma_run ops (cleanupCache now ma)) as [[rs gs] ma2].
    apply IH. by apply cache_inv_filter.
Qed.

(** C30: In every history of calls and clean-ups, a message token that is accepted was accepted by the provider,
    with claims that passed for a session: in this very call, or in an earlier one at most the cache period ago
    and before the claims expire. *)
Theorem message_token_backed (p : P) (seconds : Z) (ops : list MOp) (token session : string) (t tp : readings) :
  let '(rs, gs, ma) := ma_run (ops ++ [MValidate token session t tp]) (CreateMessageLevelAuthenticator p seconds) in
  last rs = Some (Ok tt) ->
  exists g, g ∈ gs /\ g_token g = token /\ verifyClaims (g_claims g) (g_session g) (g_checked g) = Ok tt /\
    (last gs = Some g /\ g_session g = session /\ g_stored g = t 2%nat \/
     t 0%nat < g_stored g + cacheExpiry ma /\ forall e, ExpiresAt (g_claims g) = Some e -> t 0%nat < e).
Proof.
  rewrite ma_run_app.
  assert (ma_inv [] (CreateMessageLevelAuthenticator p seconds)) as H0 by apply cache_inv_empty.
  pose proof (ma_run_inv ops [] _ H0) as Hi. destruct (ma_run ops _) as [[rs gs] ma]. destruct Hi as [_ Hi]. cbn [app] in Hi.
  pose proof (message_step gs token session t tp ma Hi) as Hs. cbn [ma_run].
  destruct (ValidateMessageToken token session t tp ma) as [r ma1]. destruct Hs as (He & _ & Hs).
  rewrite last_app, app_nil_r. cbn [last]. intros [= ->].
  destruct (granted_by token session t tp ma) as [|g gs'] eqn:Eg.
  - destruct (Hs eq_refl) as (c & since & (g & Hin & <- & <- & <- & Hv) & [Hn|Hc]); [done|].
    exists g. split_and!; [done..|]. right. by rewrite He.
  - assert (gs' = [] /\ g_token g = token /\ g_session g = session /\ g_stored g = t 2%nat /\
            verifyClaims (g_claims g) (g_session g) (g_checked g) = Ok tt) as (-> & <- & <- & Hst & Hv).
    { revert Eg. unfold granted_by. destruct (_ || _); [done|]. destruct (fst _) as [c|]; [|done].
      destruct (verifyClaims c session (t 1%nat)) as [[]|] eqn:Ev; cbn; [|done]. intros [= <- <-]. by cbn. }
    exists g. split_and!; [set_solver|done|done|]. left. by rewrite last_app.
Qed.

(** *** The clean-up of message tokens *)

Definition op_starts (o : MOp) : Z := match o with MValidate _ _ t _ => t 0%nat | MCleanup now => now end.

Definition ma_chronological (ops : list MOp) : Prop := StronglySorted (fun o o' => op_starts o <= op_starts o') ops.

Definition without_cleanup (ops : list MOp) : list MOp :=
  List.filter (fun o => match o with MCleanup _ => false | _ => true end) ops.

(** The cleaned cache [c] lacks only entries that were unusable by [now]. *)
Definition lacks_stale (now : Z) (c a : token_cache) : Prop :=
  c ⊆ a /\ forall token x until, a !! token = Some (x, until) -> c !! token = None -> until < now.

Definition ma_sim (now : Z) (c a : MessageAuthenticator P) : Prop :=
  provider c = provider a /\ cacheExpiry c = cacheExpiry a /\ lacks_stale now (entries c) (entries a).

Lemma stale_lookup now c a token t :
  lacks_stale now c a -> now <= t -> getFromCache t token c = getFromCache t token a.
Proof.
  intros [Hsub Hst] Ht. unfold getFromCache. destruct (a !! token) as [[x u]|] eqn:Ea.
  - destruct (c !! token) as [[y v]|] eqn:Ec.
    + pose proof (lookup_weaken _ _ _ _ Ec Hsub). by simplify_eq.
    + specialize (Hst token x u Ea Ec). cbn. unfold time_after. destruct (Z.ltb_spec t u); [lia|done].
  - by rewrite (lookup_weaken_None _ _ _ Ea Hsub).
Qed.

Lemma stale_insert now c a token x : lacks_stale now c a -> lacks_stale now (<[token := x]> c) (<[token := x]> a).
Proof.
  intros [Hsub Hst]. split; [by apply insert_mono|]. intros tok y u Ha Hc.
  apply lookup_insert_None in Hc as [Hc Hne]. rewrite lookup_insert_ne in Ha by done. by eapply Hst.
Qed.

Lemma stale_filter now t c a :
  lacks_stale now c a -> now <= t -> lacks_stale t (filter (fun '(_, (_, until)) => time_after t until = false) c) a.
Proof.
  intros [Hsub Hst] Ht. split; [transitivity c; [apply map_filter_subseteq|done]|].
  intros tok x u Ha Hc. apply map_lookup_filter_None in Hc as [Hc|Hc]; [specialize (Hst tok x u Ha Hc); lia|].
  destruct (c !! tok) as [[y v]|] eqn:Ec.
  - pose proof (lookup_weaken _ _ _ _ Ec Hsub). simplify_eq. specialize (Hc _ eq_refl). cbn in Hc. unfold time_after in Hc.
    destruct (Z.ltb_spec u t); [done|congruence].
  - specialize (Hst tok x u Ha Ec). lia.
Qed.

Lemma ma_sim_later now t c a : now <= t -> ma_sim now c a -> ma_sim t c a.
Proof.
  intros Ht (H1 & H2 & H3 & H4). split_and!; [done..|]. split; [done|]. intros tok x u Ha Hc. specialize (H4 tok x u Ha Hc). lia.
Qed.

Lemma ma_sim_provider now p c a : ma_sim now c a -> ma_sim now (with_provider p c) (with_provider p a).
Proof. by intros (H1 & H2 & H3). Qed.

Lemma ma_sim_call now token session t tp c a :
  ma_sim now c a -> now <= t 0%nat ->
  fst (ValidateMessageToken token session t tp c) = fst (ValidateMessageToken token session t tp a) /\
  ma_sim now (snd (ValidateMessageToken token session t tp c)) (snd (ValidateMessageToken token session t tp a)).
Proof.
  intros Hs Ht. pose proof Hs as (Hp & He & Hl). unfold ValidateMessageToken.
  case_bool_decide; [done|].
  assert (tryGetFromCache (t 0%nat) token c = tryGetFromCache (t 0%nat) token a) as ->.
  { unfold tryGetFromCache. by rewrite He, (stale_lookup _ _ _ token _ Hl Ht). }
  destruct (tryGetFromCache _ _ a); [done|]. rewrite Hp.
  destruct (ValidateToken token tp (provider a)) as [[cl|e] p']; cbn [fst snd]; [|by split; [|apply ma_sim_provider]].
  destruct (verifyClaims cl session (t 1%nat)) as [[]|e]; cbn [fst snd]; [|by split; [|apply ma_sim_provider]]. split; [done|].
  unfold tryAddToCache. cbn [with_provider cacheExpiry]. rewrite He. destruct (0 <? cacheExpiry a); [|by apply ma_sim_provider].
  split_and!; [done..|]. cbn. rewrite He. by apply stale_insert.
Qed.

(** The clean-up ticks of the token cache are invisible: in clock order, every call gets the answer it gets
    without them. *)
Lemma message_cleanup_transparent (p : P) (seconds : Z) (ops : list MOp) :
  ma_chronological ops ->
  fst (fst (ma_run ops (CreateMessageLevelAuthenticator p seconds)))
  = fst (fst (ma_run (without_cleanup ops) (CreateMessageLevelAuthenticator p seconds))).
Proof.
  intros Hs.
  assert (exists now, Forall (fun o => now <= op_starts o) ops) as [now Hn].
  { destruct ops as [|o ops]; [by exists 0|]. inversion Hs; subst. exists (op_starts o). by constructor. }
  assert (forall c a, ma_sim now c a -> fst (fst (ma_run ops c)) = fst (fst (ma_run (without_cleanup ops) a))) as Hgo; [|by apply Hgo].
  revert now Hn Hs. induction ops as [|o ops IH]; intros now Hn Hs c a Hsim; [done|].
  apply Forall_cons in Hn as [Hno Hn]. inversion Hs as [|? ? Hs' Hq]; subst.
  specialize (IH (op_starts o) Hq Hs'). destruct o as [token session t tp|t]; cbn [op_starts] in *.
  - change (without_cleanup (MValidate token session t tp :: ops)) with (MValidate token session t tp :: without_cleanup ops).
    cbn [ma_run]. destruct (ma_sim_call now token session t tp c a Hsim Hno) as [Hr Hsim'].
    destruct (ValidateMessageToken token session t tp c) as [r c1], (ValidateMessageToken token session t tp a) as [r' a1].
    cbn [fst snd] in Hr, Hsim'. specialize (IH c1 a1 (ma_sim_later _ _ _ _ Hno Hsim')). subst r'.
    destruct (ma_run ops c1) as [[rs gs] c2], (ma_run (without_cleanup ops) a1) as [[rs' gs'] a2]. cbn in *. congruence.
  - change (without_cleanup (MCleanup t :: ops)) with (without_cleanup ops). cbn [ma_run]. apply IH.
    destruct Hsim as (H1 & H2 & H3). split_and!; [done..|]. by apply (stale_filter now).
Qed.

End MessageTokens.

(** A provider that accepts every token, for executable examples. *)
Record Lenient := mkLenient { lenient_claims : Claims }.
#[export] Instance Lenient_provider : Provider Lenient := {
  ValidateToken := fun _ _ p => (Ok (lenient_claims p), p); Authenticate := fun _ _ p => (Ok (lenient_claims p), p) }.

Definition session_token (session : string) (exp : Z) : Lenient :=
  mkLenient (mkClaims session "" [] (Some exp) None None "" [] (GwLimit.mkRateLimitConfig 0 0)).

Definition sample_calls : list MOp :=
  [MValidate "t" "A" (at_once 1) (at_once 1); MValidate "t" "B" (at_once 2) (at_once 2); MCleanup (100 * Second);
   MValidate "t" "B" (at_once (101 * Second)) (at_once (101 * Second)); MValidate "t" "A" (at_once (102 * Second)) (at_once (102 * Second))].

(** The cache knows the token and not the session: a token of session A passes for session B while it is cached. *)
Lemma cached_token_other_session :
  fst (fst (ma_run sample_calls (CreateMessageLevelAuthenticator (session_token "A" (1000 * Second)) 60)))
  = [Ok tt; Ok tt; Err SessionMismatch; Ok tt].
Proof. vm_compute. reflexivity. Qed.

Lemma message_cleanup_transparent_witness :
  fst (fst (ma_run sample_calls (CreateMessageLevelAuthenticator (session_token "A" (1000 * Second)) 60)))
  = fst (fst (ma_run (without_cleanup sample_calls) (CreateMessageLevelAuthenticator (session_token "A" (1000 * Second)) 60))).
Proof. apply message_cleanup_transparent. unfold ma_chronological, sample_calls, at_once, op_starts. repeat constructor; cbn; unfold Second; lia. Defined.

Lemma message_token_backed_witness :
  exists g, g_token g = "t"%string /\ g_session g = "A"%string /\ 2 < g_stored g + 60 * Second.
Proof.
  assert (let '(rs, gs, ma) := ma_run ([MValidate "t" "A" (at_once 1) (at_once 1)] ++ [MValidate "t" "B" (at_once 2) (at_once 2)])
            (CreateMessageLevelAuthenticator (session_token "A" (1000 * Second)) 60) in
          last rs = Some (Ok tt) /\ length gs = 1%nat /\ cacheExpiry ma = 60 * Second) as Hrun by by vm_compute.
  pose proof (message_token_backed (session_token "A" (1000 * Second)) 60 [MValidate "t" "A" (at_once 1) (at_once 1)] "t" "B" (at_once 2) (at_once 2)) as H.
  destruct (ma_run _ _) as [[rs gs] ma] eqn:E. destruct Hrun as (Hl & Hlen & Hc). destruct (H Hl) as (g & Hin & Ht & Hv & Hcase).
  exists g. vm_compute in E. injection E as <- <- <-. apply list_elem_of_singleton in Hin as ->. split_and!; reflexivity.
Defined.

(** *** Introspected tokens *)

Section OAuth2Theorems.
Context `{Introspection}.

Inductive OOp := OValidate (token : string) (t : readings) | OCleanup (now : Z).

(** An answer of the endpoint: the token, when it was asked and when it was stored. *)
Definition introspected_by (token : string) (t : readings) (p : OAuth2Provider) : list (string * readings) :=
  match getCachedClaims (t 0%nat) token (o_cache p) with
  | Some _ => []
  | None => match introspectToken token (t 1%nat) with Ok r => if Active r then [(token, t)] else [] | Err _ => [] end
  end.

Fixpoint o_run (ops : list OOp) (p : OAuth2Provider) : list (result AuthError Claims) * list (string * readings) * OAuth2Provider :=
  match ops with
  | [] => ([], [], p)
  | OValidate token t :: ops =>
      let '(r, p1) := o_ValidateToken token t p in
      let '(rs, ans, p2) := o_run ops p1 in (r :: rs, introspected_by token t p ++ ans, p2)
  | OCleanup now :: ops => o_run ops (with_o_cache (o_cleanup now (o_cache p)) p)
  end.

(** The endpoint called the token active, with these claims. *)
Definition answered (ans : list (string * readings)) (token : string) (c : Claims) (since : Z) : Prop :=
  exists t r, (token, t) ∈ ans /\ introspectToken token (t 1%nat) = Ok r /\ Active r = true /\ c = introspectionToClaims r /\ since = t 2%nat.

Definition o_inv (ans : list (string * readings)) (p : OAuth2Provider) : Prop := cache_inv cacheExpiration (answered ans) (o_cache p).

Lemma answered_more ans ans' token c since : answered ans token c since -> answered (ans ++ ans') token c since.
Proof. intros (t & r & Hin & Hr). exists t, r. set_solver. Qed.

Lemma o_step ans token t p :
  o_inv ans p ->
  let '(r, p1) := o_ValidateToken token t p in
  let ans' := introspected_by token t p in
  o_inv (ans ++ ans') p1 /\
  (forall c, r = Ok c -> exists t' r, (token, t') ∈ ans ++ ans' /\ introspectToken token (t' 1%nat) = Ok r /\ Active r = true /\
     c = introspectionToClaims r /\
     (ans' = [(token, t)] /\ t' = t \/
      ans' = [] /\ t 0%nat <= t' 2%nat + cacheExpiration /\ forall e, ExpiresAt c = Some e -> t 0%nat <= e)).
Proof.
  intros Hi. unfold o_ValidateToken, introspected_by, validateJWT. cbn zeta.
  destruct (getCachedClaims (t 0%nat) token (o_cache p)) as [c|] eqn:Ec.
  - rewrite app_nil_r. split; [done|]. intros c' [= <-]. unfold getCachedClaims in Ec.
    apply bind_Some in Ec as ([c' u] & El & Eu). unfold time_after in Eu. destruct (Z.ltb_spec u (t 0%nat)) as [|Hu]; [done|].
    injection Eu as ->. destruct (Hi token c u El) as (He & since & (t' & r & Hin & Hr & Ha & Hcl & ->) & Hl).
    exists t', r. split_and!; [done..|]. right. split_and!; [done|lia|]. intros e Hx. specialize (He e Hx). lia.
  - assert ((if bool_decide (JWKSEndpoint (o_config p) = "") then Err JWKSNotImplemented else Err JWKSNotImplemented)
            = (Err JWKSNotImplemented : result AuthError Claims)) as -> by by case_bool_decide.
    destruct (introspectToken token (t 1%nat)) as [r|e] eqn:Er; [|rewrite app_nil_r; by split].
    destruct (Active r) eqn:Ea; cbn [negb]; [|rewrite app_nil_r; by split].
    assert (answered (ans ++ [(token, t)]) token (introspectionToClaims r) (t 2%nat)) as Hans.
    { exists t, r. split_and!; [set_solver|done..]. }
    split.
    + unfold o_inv, with_o_cache, cacheIntrospection. cbn [o_cache]. apply cache_inv_insert; [|done].
      eapply cache_inv_mono; [exact Hi|]. intros. by apply answered_more.
    + intros c [= <-]. exists t, r. split_and!; [set_solver|done..|]. by left.
Qed.

Lemma o_run_app ops ops' p :
  o_run (ops ++ ops') p =
    let '(rs, ans, p1) := o_run ops p in let '(rs', ans', p2) := o_run ops' p1 in (rs ++ rs', ans ++ ans', p2).
Proof.
  revert p; induction ops as [|[token t|now] ops IH]; intros p; cbn.
  - by destruct (o_run ops' p) as [[? ?] ?].
  - destruct (o_ValidateToken token t p) as [r p1]. rewrite IH.
    destruct (o_run ops p1) as [[rs ans] p2]. destruct (o_run ops' p2) as [[rs' ans'] p3]. by rewrite <- app_assoc.
  - apply IH.
Qed.

Lemma o_run_inv ops is0 p : o_inv is0 p -> let '(_, ans, p') := o_run ops p in o_inv (is0 ++ ans) p'.
Proof.
  revert is0 p; induction ops as [|[token t|now] ops IH]; intros is0 p Hi; cbn; [by rewrite app_nil_r| |].
  - pose proof (o_step is0 token t p Hi) as Hs. destruct (o_ValidateToken token t p) as [r p1]. destruct Hs as [Hi1 _].
    specialize (IH _ _ Hi1). destruct (o_run ops p1) as [[rs ans] p2]. by rewrite app_assoc.
  - specialize (IH is0 (with_o_cache (o_cleanup now (o_cache p)) p)).
    destruct (o_run ops _) as [[rs ans] p2]. apply IH. by apply cache_inv_filter.
Qed.

(** Whatever the OAuth2 provider answers for a token, the introspection endpoint called the token active with
    these claims: during this call, or at most five minutes ago and not past the expiry it named. *)
Lemma oauth2_claims_introspected (config : OAuth2Config) (ops : list OOp) (token : string) (t : readings) :
  let '(rs, ans, _) := o_run (ops ++ [OValidate token t]) {| o_config := config; o_cache := ∅ |} in
  forall c, last rs = Some (Ok c) ->
  exists t' r, (token, t') ∈ ans /\ introspectToken token (t' 1%nat) = Ok r /\ Active r = true /\ c = introspectionToClaims r /\
    (last ans = Some (token, t') /\ t' = t \/ t 0%nat <= t' 2%nat + 5 * Minute /\ t 0%nat <= Exp r * Second).
Proof.
  rewrite o_run_app. cbn zeta. assert (o_inv [] {| o_config := config; o_cache := ∅ |}) as H0 by apply cache_inv_empty.
  pose proof (o_run_inv ops [] _ H0) as Hi. destruct (o_run ops _) as [[rs ans] p]. cbn [app] in Hi.
  pose proof (o_step ans token t p Hi) as Hs. cbn [o_run]. destruct (o_ValidateToken token t p) as [r p1]. destruct Hs as [_ Hs].
  intros c. rewrite last_app, app_nil_r. cbn [last]. intros [= ->].
  destruct (Hs c eq_refl) as (t' & r & Hin & Hr & Ha & -> & Hc). exists t', r. split_and!; [done..|].
  destruct Hc as [[-> ->]|(-> & Hl & He)]; [left; by rewrite last_app|]. right. split; [done|]. by apply He.
Qed.

(** RFC 7662 makes exp optional: a token the endpoint calls active without it gets a session that is expired
    from the start. *)
Lemma active_without_expiry p r token t id now :
  getCachedClaims (t 0%nat) token (o_cache p) = None -> introspectToken token (t 1%nat) = Ok r -> Active r = true -> Exp r = 0 -> 0 < now ->
  exists c m, fst (o_ValidateToken token t p) = Ok c /\
    Sessions.CreateSession (session_claims c) id now now Sessions.CreateInMemorySessionStore = (Ok 0%nat, m) /\
    fst (Sessions.GetSession id now m) = Err (Sessions.SessionExpired id 0).
Proof.
  intros Hc Hr Ha He Hn. exists (introspectionToClaims r). eexists. split_and!.
  - unfold o_ValidateToken, validateJWT. rewrite Hc. cbn zeta. case_bool_decide; by rewrite Hr, Ha.
  - unfold Sessions.CreateSession. reflexivity.
  - unfold Sessions.GetSession, Sessions.find. cbn. rewrite lookup_insert_eq. cbn. rewrite lookup_insert_eq. cbn. rewrite He.
    unfold time_after. by destruct (Z.ltb_spec (0 * Second) now); [|lia].
Qed.

End OAuth2Theorems.

(** An endpoint that knows one token. *)
Definition toy_introspect : Introspection := fun token now =>
  if bool_decide (token = "opaque"%string)
  then Ok (mkIntrospection true "mcp:k8s:read rate_limit:20:-5 rate_limit:x:7" 2000 0 "bob" [] "https://idp" "j1")
  else Err "status 401"%string.

Lemma oauth2_claims_introspected_witness :
  exists t' r, @introspectToken toy_introspect "opaque" (t' 1%nat) = Ok r /\
    introspectionToClaims r = mkClaims "bob" "https://idp" [] (Some (2000 * Second)) None (Some 0) "j1"
      ["mcp:k8s:read"; "rate_limit:20:-5"; "rate_limit:x:7"] (GwLimit.mkRateLimitConfig 20 7) /\ 3 <= t' 2%nat + 5 * Minute.
Proof.
  pose proof (@oauth2_claims_introspected toy_introspect (mkOAuth2Config "" "") [OValidate "opaque" (at_once 1); OCleanup 2] "opaque" (at_once 3)) as H.
  destruct (o_run _ _) as [[rs ans] p] eqn:E. vm_compute in E. injection E as <- <- <-.
  destruct (H _ eq_refl) as (t' & r & Hin & Hr & _ & _ & _). apply list_elem_of_singleton in Hin as [= ->].
  exists (at_once 1), r. split_and!; [done| |done]. vm_compute in Hr. injection Hr as <-. by vm_compute.
Defined.

End Auth.
