(* ===== verification/Server.v ===== *)
(** * The gateway server

    [services/gateway/internal/server/server.go]: frontends that listen on one address share an HTTP server, whose
    handler asks the handlers of the frontends one after the other.  What net/http guarantees of a response
    writer is the record [response]; handlers are programs over the class of response writers, so the wrapper
    of the code and the writer of the server run the same handlers. *)
From S2P Require Import Prelude GoStrings.
From Stdlib Require Import Strings.Ascii.
#[local] Open Scope Z_scope.

Module Server.

(** ** Response writers *)

Class ResponseWriter (W : Type) := {
  SetHeader : string -> string -> W -> W;
  ClearHeaders : W -> W;
  WriteHeader : Z -> W -> W;
  Write : string -> W -> bool * W;       (* false: an error *)
  Hijack : W -> bool * W;
}.

(** The writer of net/http: the first status is sent, with the headers of that moment; a write without status
    sends 200; after a hijack nothing is sent. *)
Record response := mkResponse {
  headers : gmap string string; status : option Z; sent : gmap string string; body : string; hijacked : bool }.

Definition fresh_response : response := {| headers := ∅; status := None; sent := ∅; body := ""; hijacked := false |}.

Definition set_headers (h : gmap string string) (w : response) : response :=
  {| headers := h; status := status w; sent := sent w; body := body w; hijacked := hijacked w |}.

Definition send_header (s : Z) (w : response) : response :=
  if hijacked w then w
  else match status w with
       | Some _ => w
       | None => {| headers := headers w; status := Some s; sent := headers w; body := body w; hijacked := false |}
       end.

Definition send_body (b : string) (w : response) : bool * response :=
  if hijacked w then (false, w)
  else let w := send_header 200 w in
       (true, {| headers := headers w; status := status w; sent := sent w; body := body w +:+ b; hijacked := false |}).

Definition take_connection (w : response) : bool * response :=
  if hijacked w then (false, w)
  else (true, {| headers := headers w; status := status w; sent := sent w; body := body w; hijacked := true |}).

#[export] Instance response_writer : ResponseWriter response := {
  SetHeader := fun k v w => set_headers (<[k := v]> (headers w)) w;
  ClearHeaders := set_headers ∅;
  WriteHeader := send_header; Write := send_body; Hijack := take_connection }.

(** ** Handlers *)

Inductive handler :=
| HDone
| HSetHeader (k v : string) (next : handler)
| HWriteHeader (s : Z) (next : handler)
| HWrite (b : string) (next : bool -> handler)
| HHijack (next : bool -> handler).

Fixpoint serve `{ResponseWriter W} (h : handler) (w : W) : W :=
  match h with
  | HDone => w
  | HSetHeader k v next => serve next (SetHeader k v w)
  | HWriteHeader s next => serve next (WriteHeader s w)
  | HWrite b next => let '(ok, w) := Write b w in serve (next ok) w
  | HHijack next => let '(ok, w) := Hijack w in serve (next ok) w
  end.

(** ** The wrapper that watches the status *)

Record statusTracker (W : Type) := mkTracker { under : W; t_status : Z; t_written : bool }.
Arguments mkTracker {W}.
Arguments under {W}.
Arguments t_status {W}.
Arguments t_written {W}.

Section Tracker.
Context `{ResponseWriter W}.

Definition track (w : W) : statusTracker W := {| under := w; t_status := 200; t_written := false |}.

Definition tracker_WriteHeader (s : Z) (t : statusTracker W) : statusTracker W :=
  if t_written t then t else {| under := WriteHeader s (under t); t_status := s; t_written := true |}.

Definition tracker_Write (b : string) (t : statusTracker W) : bool * statusTracker W :=
  let t := if t_written t then t else tracker_WriteHeader 200 t in
  let '(ok, w) := Write b (under t) in (ok, {| under := w; t_status := t_status t; t_written := t_written t |}).

Definition tracker_Hijack (t : statusTracker W) : bool * statusTracker W :=
  let '(ok, w) := Hijack (under t) in (ok, {| under := w; t_status := t_status t; t_written := t_written t |}).

#[export] Instance statusTracker_writer : ResponseWriter (statusTracker W) := {
  SetHeader := fun k v t => {| under := SetHeader k v (under t); t_status := t_status t; t_written := t_written t |};
  ClearHeaders := fun t => {| under := ClearHeaders (under t); t_status := t_status t; t_written := t_written t |};
  WriteHeader := tracker_WriteHeader; Write := tracker_Write; Hijack := tracker_Hijack }.

(** ** One handler after the other *)

(** [multiHandler.ServeHTTP] for the handlers of one request. *)
Fixpoint multi_ServeHTTP (handlers : list handler) (w : W) : W :=
  match handlers with
  | [] => w
  | h :: rest =>
      let t := serve h (track w) in
      if t_written t && negb (t_status t =? 404) then under t
      else match rest with
           | [] => under t
           | _ => multi_ServeHTTP rest (ClearHeaders (under t))
           end
  end.

End Tracker.

(** ** The multiplexer of a frontend *)

(** [http.ServeMux]: a pattern that ends in a slash stands for its subtree, the longest pattern wins, and a path
    without pattern is answered by [http.NotFound]. *)
Definition NotFound : handler :=
  HSetHeader "Content-Type" "text/plain; charset=utf-8" (HSetHeader "X-Content-Type-Options" "nosniff"
    (HWriteHeader 404 (HWrite ("404 page not found" +:+ String "010"%char EmptyString) (fun _ => HDone)))).

Definition pattern_matches (path pattern : string) : bool :=
  bool_decide (path = pattern) ||
  match String.get (String.length pattern - 1) pattern with
  | Some "/"%char => HasPrefix path pattern
  | _ => false
  end.

Definition longer {H} (best : option (string * H)) (e : string * H) : option (string * H) :=
  match best with
  | Some (p, _) => if (String.length p <? String.length (fst e))%nat then Some e else best
  | None => Some e
  end.

Definition mux_lookup {H} (mux : list (string * H)) (path : string) : option H :=
  snd <$> foldl longer None (List.filter (fun e => pattern_matches path (fst e)) mux).

Lemma mux_lookup_elem {H} (mux : list (string * H)) path h : mux_lookup mux path = Some h -> exists p, In (p, h) mux.
Proof.
  unfold mux_lookup. intros ([p h'] & E & ->)%fmap_Some. exists p. cbn.
  apply (proj1 (List.filter_In (fun e => pattern_matches path (fst e)) (p, h') mux)).
  revert E. generalize (List.filter (fun e => pattern_matches path (fst e)) mux). intros l.
  assert (forall best, foldl longer best l = Some (p, h') -> best = Some (p, h') \/ In (p, h') l) as Hf.
  { induction l as [|e l IH]; intros best E; [by left|]. destruct (IH _ E) as [Hb|Hb]; [|by right; right].
    revert Hb. unfold longer. destruct best as [[q g]|]; [destruct (_ <? _)%nat|]; intros [= Hb]; subst; auto; right; left; congruence. }
  intros E. by destruct (Hf _ E).
Qed.

Definition mux_handler (mux : list (string * handler)) (path : string) : handler := default NotFound (mux_lookup mux path).

(** ** Shared servers *)

(** What the server reads of a frontend; [fe_mux] is nil for frontends without HTTP. *)
Record Frontend := mkFrontend {
  fe_name : string; fe_address : string; fe_tls : bool * string * string; fe_mux : option (list (string * handler)) }.

Record httpServer := mkServer { s_frontends : list Frontend; s_tls : option (string * string) }.

Definition add_group (groups : gmap string (list Frontend)) (fe : Frontend) : gmap string (list Frontend) :=
  <[fe_address fe := default [] (groups !! fe_address fe) ++ [fe]]> groups.

Definition addressGroups (frontends : list Frontend) : gmap string (list Frontend) := foldl add_group ∅ frontends.

(** The first frontend with TLS gives the certificate. *)
Definition group_tls (fes : list Frontend) : option (string * string) :=
  match List.find (fun fe => fst (fst (fe_tls fe))) fes with
  | Some fe => Some (snd (fst (fe_tls fe)), snd (fe_tls fe))
  | None => None
  end.

Definition startSharedServers (frontends : list Frontend) : gmap string httpServer :=
  (fun fes => {| s_frontends := fes; s_tls := group_tls fes |}) <$> addressGroups frontends.

(** What a request to a shared server gets; a nil handler is the default multiplexer for a single frontend and a
    panic among several. *)
Definition server_ServeHTTP `{ResponseWriter W} (default_mux : string -> handler) (s : httpServer) (path : string) (w : W) : option W :=
  match s_frontends s with
  | [fe] => Some (serve (match fe_mux fe with Some mux => mux_handler mux path | None => default_mux path end) w)
  | fes =>
      hs ← mapM (fun fe => (fun mux => mux_handler mux path) <$> fe_mux fe) fes;
      Some (multi_ServeHTTP hs w)
  end.

(** ** Starting *)

Record GatewayServer := mkGateway {
  frontends : list Frontend; running : list string; healthRunning : bool; shared : gmap string httpServer }.

(** The frontends are started in order until one refuses. *)
Fixpoint start_frontends (starts : Frontend -> bool) (fes : list Frontend) (started : list string) : bool * list string :=
  match fes with
  | [] => (true, started)
  | fe :: fes => if starts fe then start_frontends starts fes (started ++ [fe_name fe]) else (false, started)
  end.

Definition Start (health : option bool) (starts : Frontend -> bool) (s : GatewayServer) : bool * GatewayServer :=
  match health with
  | Some false => (false, s)
  | _ =>
      let up := match health with Some _ => true | None => healthRunning s end in
      match start_frontends starts (frontends s) (running s) with
      | (false, run) => (false, {| frontends := frontends s; running := run; healthRunning := false; shared := shared s |})
      | (true, run) =>
          (true, {| frontends := frontends s; running := run; healthRunning := up; shared := startSharedServers (frontends s) |})
      end
  end.

(** [Shutdown] stops every frontend and every shared server. *)
Definition Shutdown (s : GatewayServer) : GatewayServer :=
  {| frontends := frontends s; running := []; healthRunning := false; shared := ∅ |}.

(** ** Responses only grow *)

Definition grows (w w' : response) : Prop :=
  (forall s, status w = Some s -> status w' = Some s) /\ (exists b, body w' = (body w +:+ b)%string) /\
  (hijacked w = true -> hijacked w' = true /\ status w' = status w).

Lemma same_body (a : string) : exists b, a = (a +:+ b)%string.
Proof. exists EmptyString. induction a as [|x a IH]; [done|]. exact (f_equal (String x) IH). Qed.
#[local] Hint Resolve same_body : core.

Lemma grows_refl w : grows w w.
Proof. by split_and!. Qed.

Lemma grows_trans w1 w2 w3 : grows w1 w2 -> grows w2 w3 -> grows w1 w3.
Proof.
  intros (H1 & [b1 E1] & H2) (H3 & [b2 E2] & H4). split_and!; [eauto| |].
  - exists (b1 +:+ b2)%string. by rewrite E2, E1, <- string_app_assoc.
  - intros Hh. destruct (H2 Hh) as [Hh' Hs]. destruct (H4 Hh') as [Hh'' Hs']. split; congruence.
Qed.

Lemma grows_header s w : grows w (send_header s w).
Proof.
  unfold send_header. destruct (hijacked w) eqn:Eh; [apply grows_refl|]. destruct (status w) eqn:Es; [apply grows_refl|].
  split_and!; cbn; [congruence|done|congruence].
Qed.

Lemma grows_body b w : grows w (snd (send_body b w)).
Proof.
  unfold send_body. destruct (hijacked w) eqn:Eh; [apply grows_refl|]. cbn [snd].
  apply (grows_trans _ (send_header 200 w)); [apply grows_header|]. split_and!; cbn; [done|by exists b|].
  unfold send_header. rewrite Eh. by destruct (status w); cbn; [rewrite Eh|].
Qed.

Lemma grows_hijack w : grows w (snd (take_connection w)).
Proof. unfold take_connection. destruct (hijacked w) eqn:Eh; [apply grows_refl|]. split_and!; cbn; [done..|by rewrite Eh]. Qed.

Lemma grows_set_headers h w : grows w (set_headers h w).
Proof. by split_and!. Qed.

Lemma serve_grows h w : grows w (serve h w).
Proof.
  revert w; induction h as [|k v h IH|s h IH|b h IH|h IH]; intros w; cbn; [apply grows_refl|..].
  - eapply grows_trans; [|apply IH]. apply grows_set_headers.
  - eapply grows_trans; [|apply IH]. apply grows_header.
  - destruct (send_body b w) as [ok w'] eqn:E. eapply grows_trans; [|apply IH]. pose proof (grows_body b w) as H. by rewrite E in H.
  - destruct (take_connection w) as [ok w'] eqn:E. eapply grows_trans; [|apply IH]. pose proof (grows_hijack w) as H. by rewrite E in H.
Qed.

(** ** The wrapper is transparent *)

(** Once the wrapper has seen a status, the writer below ignores further ones. *)
Definition settled (t : statusTracker response) : Prop :=
  t_written t = true -> hijacked (under t) = true \/ is_Some (status (under t)).

Lemma settled_header t s : settled t -> under (tracker_WriteHeader s t) = send_header s (under t) /\ settled (tracker_WriteHeader s t).
Proof.
  unfold tracker_WriteHeader, settled. intros Hs. destruct (t_written t) eqn:Ew.
  - split; [|by rewrite Ew]. unfold send_header. destruct (Hs eq_refl) as [->|[x Hx]]; [done|]. rewrite Hx. by destruct (hijacked _).
  - split; [done|]. intros _. cbn. unfold send_header. destruct (hijacked (under t)) eqn:Eh; [by left|].
    right. destruct (status (under t)) eqn:E; cbn; [rewrite E|]; by eexists.
Qed.

Lemma send_body_header b w : send_body b (send_header 200 w) = send_body b w.
Proof.
  unfold send_body, send_header. destruct (hijacked w) eqn:Eh; [by rewrite Eh|].
  destruct (status w) eqn:Es; cbn; [by rewrite ?Eh, ?Es|done].
Qed.

Lemma settled_grows t w : settled t -> grows (under t) w -> settled {| under := w; t_status := t_status t; t_written := t_written t |}.
Proof.
  intros Hs (H1 & _ & H2) Hw. cbn in *. destruct (Hs Hw) as [Hh|[x Hx]]; [left; by apply H2|right]. exists x. by apply H1.
Qed.

Lemma tracked_write b t :
  settled t ->
  exists ok t', tracker_Write b t = (ok, t') /\ send_body b (under t) = (ok, under t') /\ settled t'.
Proof.
  intros Hs. unfold tracker_Write.
  assert (exists t0, (if t_written t then t else tracker_WriteHeader 200 t) = t0 /\ settled t0 /\ send_body b (under t0) = send_body b (under t)) as (t0 & -> & Hs0 & E).
  { destruct (t_written t); [by exists t|]. destruct (settled_header t 200 Hs) as [Hu Hs']. eexists. split_and!; [done|done|].
    by rewrite Hu, send_body_header. }
  cbn [Write response_writer]. pose proof (grows_body b (under t0)) as Hg. destruct (send_body b (under t0)) as [ok w] eqn:Eb.
  exists ok. eexists. split_and!; [reflexivity|by rewrite <- E|]. by apply settled_grows.
Qed.

Lemma tracked_hijack t :
  settled t ->
  exists ok t', tracker_Hijack t = (ok, t') /\ take_connection (under t) = (ok, under t') /\ settled t'.
Proof.
  intros Hs. unfold tracker_Hijack. cbn [Hijack response_writer]. pose proof (grows_hijack (under t)) as Hg.
  destruct (take_connection (under t)) as [ok w]. exists ok. eexists. split_and!; [done|done|]. by apply settled_grows.
Qed.

Lemma tracker_transparent h t : settled t -> under (serve h t) = serve h (under t) /\ settled (serve h t).
Proof.
  revert t; induction h as [|k v h IH|s h IH|b h IH|h IH]; intros t Hs; cbn [serve]; [done|..].
  - apply (IH {| under := SetHeader k v (under t); t_status := t_status t; t_written := t_written t |}).
    apply settled_grows; [done|apply grows_set_headers].
  - destruct (settled_header t s Hs) as [Hu Hs']. cbn [WriteHeader statusTracker_writer response_writer].
    destruct (IH _ Hs') as [-> ?]. by rewrite Hu.
  - cbn [Write statusTracker_writer response_writer]. destruct (tracked_write b t Hs) as (ok & t' & -> & -> & Hs'). by apply IH.
  - cbn [Hijack statusTracker_writer response_writer]. destruct (tracked_hijack t Hs) as (ok & t' & -> & -> & Hs'). by apply IH.
Qed.

Lemma under_track h w : under (serve h (track w)) = serve h w.
Proof. apply tracker_transparent. by intros ?. Qed.

(** On a response without status, the wrapper knows the status that is sent. *)
Definition sees (t : statusTracker response) : Prop :=
  settled t /\ forall s, status (under t) = Some s -> t_written t = true /\ t_status t = s.

Lemma sees_header t s : sees t -> sees (tracker_WriteHeader s t).
Proof.
  intros [Hs Hj]. split; [by apply settled_header|]. unfold tracker_WriteHeader. destruct (t_written t) eqn:Ew.
  { intros s' E. destruct (Hj s' E). split; congruence. }
  cbn. intros s'. unfold send_header. destruct (hijacked (under t)).
  - intros E. destruct (Hj s' E). split; congruence.
  - destruct (status (under t)) as [x|] eqn:E; cbn; [|by intros [= ->]]. destruct (Hj x eq_refl). congruence.
Qed.

Lemma sees_below t w :
  sees t -> grows (under t) w -> (t_written t = true \/ status w = status (under t)) ->
  sees {| under := w; t_status := t_status t; t_written := t_written t |}.
Proof.
  intros [Hs Hj] Hg Hw. split; [by apply settled_grows|]. cbn. intros s E.
  destruct Hw as [Hw|Hw]; [|apply Hj; congruence]. split; [done|].
  destruct (Hs Hw) as [Hh|[x Hx]].
  - destruct Hg as (_ & _ & H3). destruct (H3 Hh) as [_ E2]. rewrite E2 in E. by apply Hj.
  - destruct Hg as (H1 & _). rewrite (H1 _ Hx) in E. injection E as ->. by apply Hj.
Qed.

Lemma serve_sees h t : sees t -> sees (serve h t).
Proof.
  revert t; induction h as [|k v h IH|s h IH|b h IH|h IH]; intros t Hs; cbn [serve]; [done|..].
  - apply IH. apply sees_below; [done|apply grows_set_headers|by right].
  - apply IH. by apply sees_header.
  - cbn [Write statusTracker_writer response_writer]. unfold tracker_Write.
    set (t0 := if t_written t then t else tracker_WriteHeader 200 t).
    assert (sees t0 /\ t_written t0 = true) as [Hs0 Hw0].
    { unfold t0. destruct (t_written t) eqn:Ew; [by split|]. split; [by apply sees_header|]. unfold tracker_WriteHeader. by rewrite Ew. }
    cbn [Write response_writer]. pose proof (grows_body b (under t0)) as Hg. destruct (send_body b (under t0)) as [ok w].
    apply IH. apply sees_below; [done|done|by left].
  - cbn [Hijack statusTracker_writer response_writer]. unfold tracker_Hijack. cbn [Hijack response_writer].
    pose proof (grows_hijack (under t)) as Hg. assert (status (snd (take_connection (under t))) = status (under t)) as E.
    { unfold take_connection. by destruct (hijacked (under t)). }
    destruct (take_connection (under t)) as [ok w]. apply IH. apply sees_below; [done|done|by right].
Qed.

Lemma multi_grows handlers w : grows w (multi_ServeHTTP handlers w).
Proof.
  revert w; induction handlers as [|h rest IH]; intros w; cbn [multi_ServeHTTP]; [apply grows_refl|].
  rewrite under_track. pose proof (serve_grows h w) as Hg. cbn zeta. destruct (_ && _); [done|].
  destruct rest as [|h' rest]; [done|]. eapply grows_trans; [exact Hg|]. eapply grows_trans; [|apply IH]. apply grows_set_headers.
Qed.

(** ** Shared addresses *)

(** On a shared address, the first handler that answers decides the status the client receives: an answer other
    than 404 is exactly what that handler sends alone, and after a 404, which the multiplexer of a frontend sends for
    the paths of the other frontends, no later handler can change the status or replace the text. *)
Lemma first_answer_is_final (h : handler) (rest : list handler) (s : Z) :
  status (serve h fresh_response) = Some s ->
  let w := multi_ServeHTTP (h :: rest) fresh_response in
  status w = Some s /\ (exists b, body w = (body (serve h fresh_response) +:+ b)%string) /\
  (s <> 404 \/ rest = [] -> w = serve h fresh_response).
Proof.
  intros Es. cbn zeta. cbn [multi_ServeHTTP]. rewrite under_track.
  assert (sees (serve h (track fresh_response))) as [_ Hj] by (apply serve_sees; by split).
  rewrite under_track in Hj. destruct (Hj s Es) as [-> ->]. cbn [andb].
  destruct (Z.eqb_spec s 404) as [->|Hne]; cbn [negb].
  - destruct rest as [|h' rest]; [done|].
    assert (grows (serve h fresh_response) (multi_ServeHTTP (h' :: rest) (ClearHeaders (serve h fresh_response)))) as (H1 & H2 & _).
    { eapply grows_trans; [apply (grows_set_headers ∅)|]. apply multi_grows. }
    split_and!; [by apply H1|done|]. by intros [?|?].
  - done.
Qed.

(** The frontends are grouped by address, in their order: the group of an address holds exactly the frontends
    that listen there. *)
Lemma address_groups_exact (fes : list Frontend) (addr : string) :
  default [] (addressGroups fes !! addr) = List.filter (fun fe => bool_decide (fe_address fe = addr)) fes /\
  (addressGroups fes !! addr = None <-> Forall (fun fe => fe_address fe <> addr) fes).
Proof.
  assert (forall g, default [] (foldl add_group g fes !! addr)
            = default [] (g !! addr) ++ List.filter (fun fe => bool_decide (fe_address fe = addr)) fes /\
          (foldl add_group g fes !! addr = None <-> g !! addr = None /\ Forall (fun fe => fe_address fe <> addr) fes)) as Hgo.
  { induction fes as [|fe fes IH]; intros g; cbn [foldl List.filter].
    - rewrite app_nil_r, Forall_nil. tauto.
    - destruct (IH (add_group g fe)) as [IH1 IH2]. rewrite IH1, IH2, Forall_cons. unfold add_group.
      case_bool_decide as Ha; subst; [rewrite lookup_insert_eq|rewrite lookup_insert_ne by done].
      + cbn. rewrite <- app_assoc. split; [done|]. intuition congruence.
      + split; [done|]. tauto. }
  unfold addressGroups. destruct (Hgo ∅) as [-> ->]. rewrite lookup_empty. cbn. intuition.
Qed.

(** A refused start of a frontend ends [Start] with the frontends before it still running. *)
Lemma failed_start_leaves_running starts s pre fe post health :
  frontends s = pre ++ fe :: post -> Forall (fun f => starts f = true) pre -> starts fe = false -> health <> Some false ->
  Start health starts s = (false, {| frontends := frontends s; running := running s ++ (fe_name <$> pre); healthRunning := false; shared := shared s |}).
Proof.
  intros Hf Hp Hfe Hh. unfold Start. rewrite Hf.
  assert (start_frontends starts (pre ++ fe :: post) (running s) = (false, running s ++ (fe_name <$> pre))) as ->.
  { generalize (running s). clear Hf. induction pre as [|f pre IH]; intros r; cbn; [by rewrite Hfe, app_nil_r|].
    apply Forall_cons in Hp as [-> Hp]. rewrite IH by done. by rewrite <- app_assoc. }
  by destruct health as [[]|].
Qed.

(** *** Two frontends on one address *)

Definition upgrade : handler := HHijack (fun ok => if ok then HDone else HWriteHeader 500 HDone).
Definition events : handler := HSetHeader "Content-Type" "text/event-stream" (HWriteHeader 200 (HWrite "data: {}" (fun _ => HDone))).

Definition ws_frontend : Frontend := mkFrontend "ws" "0.0.0.0:8443" (false, "", "")%string (Some [("/ws", upgrade)]%string).
Definition sse_frontend : Frontend := mkFrontend "sse" "0.0.0.0:8443" (true, "c", "k")%string (Some [("/events", events)]%string).
Definition shared_server : option httpServer := startSharedServers [ws_frontend; sse_frontend] !! "0.0.0.0:8443"%string.

Definition ask (path : string) : option (option Z * bool * string) :=
  srv ← shared_server; w ← server_ServeHTTP (fun _ => NotFound) srv path fresh_response; Some (status w, hijacked w, body w).

Lemma first_answer_is_final_witness :
  status (multi_ServeHTTP [NotFound; events] fresh_response) = Some 404 /\
  ask "/events" = Some (Some 404, false, ("404 page not found" +:+ String "010"%char "data: {}")%string) /\
  ask "/ws" = Some (None, true, ""%string).
Proof.
  split_and!; [|by vm_compute..]. by apply (first_answer_is_final NotFound [events] 404).
Defined.

(** After a hijack the remaining handlers still run, on a connection that is no longer theirs. *)
Example hijacked_then_next :
  server_ServeHTTP (fun _ => NotFound) (mkServer [ws_frontend; sse_frontend] None) "/ws" fresh_response
  = Some {| headers := headers (serve NotFound (set_headers ∅ (serve upgrade fresh_response))); status := None; sent := ∅; body := ""; hijacked := true |}.
Proof. vm_compute. reflexivity. Qed.

End Server.
