(* ===== verification/Transport.v ===== *)
(** * Messages over frames

    [services/gateway/pkg/wire/transport.go] and auth_message.go: messages are JSON documents in the payloads of the
    frames of [Wire].  Reading and printing the text of a document is a class; how encoding/json fills the
    structs of the protocol from a document is written out. *)
From S2P Require Import Prelude GoIO GoStrings GoUnicode Wire Mcp.
From Stdlib Require Import Strings.Ascii.
#[local] Open Scope Z_scope.

Module Transport.

(** ** encoding/json *)

(** A document keeps the order and the repetitions of its keys; a Go map keeps the last value of a key. *)
Fixpoint last_of_key {A} (l : list (string * A)) : list (string * A) :=
  match l with
  | [] => []
  | (k, v) :: l => if existsb (fun kv => bool_decide (fst kv = k)) l then last_of_key l else (k, v) :: last_of_key l
  end.

(** Decoding into interface{}. *)
Fixpoint any (v : jvalue) : jvalue :=
  match v with
  | JArray l => JArray (map any l)
  | JObject l => JObject (last_of_key (map (fun kv => (fst kv, any (snd kv))) l))
  | _ => v
  end.

Fixpoint valid_text (v : jvalue) : bool :=
  match v with
  | JString s => ValidString s
  | JArray l => forallb valid_text l
  | JObject l => forallb (fun kv => ValidString (fst kv) && valid_text (snd kv)) l
  | _ => true
  end.

(** Field names are compared up to case: ASCII letters, the Kelvin sign and the long s. *)
Definition lower (a : ascii) : ascii := if in_range 65 90 (bz a) then ascii_of_N (Z.to_N (bz a + 32)) else a.
Fixpoint str_map (f : ascii -> ascii) (s : string) : string :=
  match s with EmptyString => EmptyString | String a s => String (f a) (str_map f s) end.
Definition fold_name (s : string) : string :=
  str_map lower (ReplaceAll (ReplaceAll s (str_of [226; 132; 170]) "k") (str_of [197; 191]) "s").
Definition is_field (name key : string) : bool := bool_decide (fold_name key = fold_name name).

(** A string field takes a string, ignores null, and refuses any other value; decoding goes on after a refusal. *)
Definition set_string (v : jvalue) (old : string) : string * bool :=
  match v with JString s => (s, true) | JNull => (old, true) | _ => (old, false) end.

Definition type_error : string := "json: cannot unmarshal".

(** [Message]: a decoded value (nil is null), or the pointer it was built with. *)
Inductive body := BAny (v : jvalue) | BRequest (r : Request) | BResponse (r : Response).
Record AuthMessage := mkAuth { AuthToken : string; am_Message : body }.

Definition empty_request : Request := {| req_JSONRPC := ""; Method := ""; ReqParams := JNull; req_ID := JNull |}.
Definition empty_auth : AuthMessage := {| AuthToken := ""; am_Message := BAny JNull |}.

Definition request_field (st : Request * bool) (kv : string * jvalue) : Request * bool :=
  let '(r, ok) := st in
  let '(k, v) := kv in
  if is_field "jsonrpc" k then
    let '(s, o) := set_string v (req_JSONRPC r) in
    ({| req_JSONRPC := s; Method := Method r; ReqParams := ReqParams r; req_ID := req_ID r |}, ok && o)
  else if is_field "method" k then
    let '(s, o) := set_string v (Method r) in
    ({| req_JSONRPC := req_JSONRPC r; Method := s; ReqParams := ReqParams r; req_ID := req_ID r |}, ok && o)
  else if is_field "params" k then
    ({| req_JSONRPC := req_JSONRPC r; Method := Method r; ReqParams := any v; req_ID := req_ID r |}, ok)
  else if is_field "id" k then
    ({| req_JSONRPC := req_JSONRPC r; Method := Method r; ReqParams := ReqParams r; req_ID := any v |}, ok)
  else (r, ok).

Definition auth_field (st : AuthMessage * bool) (kv : string * jvalue) : AuthMessage * bool :=
  let '(m, ok) := st in
  let '(k, v) := kv in
  if is_field "auth_token" k then
    let '(s, o) := set_string v (AuthToken m) in ({| AuthToken := s; am_Message := am_Message m |}, ok && o)
  else if is_field "message" k then ({| AuthToken := AuthToken m; am_Message := BAny (any v) |}, ok)
  else (m, ok).

(** Decoding a document into a struct. *)
Definition decode_struct {A} (empty : A) (step : A * bool -> string * jvalue -> A * bool) (v : jvalue) : result string A :=
  match v with
  | JNull => Ok empty
  | JObject l => let '(a, ok) := foldl step (empty, true) l in if ok then Ok a else Err type_error
  | _ => Err type_error
  end.
Definition decode_Request : jvalue -> result string Request := decode_struct empty_request request_field.
Definition decode_AuthMessage : jvalue -> result string AuthMessage := decode_struct empty_auth auth_field.

(** The documents of the structs, with the fields that omitempty leaves out. *)
Definition omit_nil (k : string) (v : jvalue) : list (string * jvalue) := match v with JNull => [] | _ => [(k, v)] end.
Definition request_doc (r : Request) : jvalue :=
  JObject ([("jsonrpc"%string, JString (req_JSONRPC r)); ("method"%string, JString (Method r))]
           ++ omit_nil "params" (ReqParams r) ++ [("id"%string, req_ID r)]).
Definition error_doc (e : mcpError) : jvalue :=
  JObject ([("code"%string, JNumber (Code e)); ("message"%string, JString (Message e))] ++ omit_nil "data" (Data e)).
Definition response_doc (r : Response) : jvalue :=
  JObject ([("jsonrpc"%string, JString (resp_JSONRPC r))] ++ omit_nil "result" (Result r)
           ++ match RespError r with Some e => [("error"%string, error_doc e)] | None => [] end ++ [("id"%string, resp_ID r)]).
Definition body_doc (b : body) : jvalue :=
  match b with BAny v => v | BRequest r => request_doc r | BResponse r => response_doc r end.
Definition auth_doc (m : AuthMessage) : jvalue :=
  JObject ((if bool_decide (AuthToken m = EmptyString) then [] else [("auth_token"%string, JString (AuthToken m))])
           ++ [("message"%string, body_doc (am_Message m))]).

(** A value without repeated keys, as a Go value is. *)
Definition plain (v : jvalue) : Prop := any v = v.
Definition plain_request (r : Request) : Prop := plain (ReqParams r) /\ plain (req_ID r).
Definition plain_response (r : Response) : Prop :=
  plain (Result r) /\ plain (resp_ID r) /\ match RespError r with Some e => plain (Data e) | None => True end.

Record VersionNegotiationPayload := mkNegotiation { neg_Min : Z; neg_Max : Z; neg_Preferred : Z; neg_Supported : list Z }.
Record VersionAckPayload := mkAck { AgreedVersion : Z }.

(** Texts.  Invalid UTF-8 is replaced when a text is read or printed, so only valid texts read back; payloads with
    numeric fields are decoded from the digits, which a document does not keep. *)
Class WireJSON := {
  Parse : list byte -> result string jvalue;
  Print : jvalue -> result string (list byte);
  Unmarshal_response : list byte -> result string Response;
  Unmarshal_negotiation : list byte -> result string VersionNegotiationPayload;
  Marshal_negotiation : VersionNegotiationPayload -> list byte;
  Unmarshal_ack : list byte -> result string VersionAckPayload;
  Marshal_ack : VersionAckPayload -> list byte;
  parse_print : forall v s, valid_text v = true -> Print v = Ok s -> Parse s = Ok v;
  unmarshal_response : forall r s, plain_response r -> valid_text (response_doc r) = true -> Print (response_doc r) = Ok s -> Unmarshal_response s = Ok r;
  unmarshal_ack : forall a, 0 <= AgreedVersion a < 2 ^ 16 -> Unmarshal_ack (Marshal_ack a) = Ok a;
}.

(** ** Authenticated messages *)

Definition NewAuthRequest (req : Request) (authToken : string) : AuthMessage := {| AuthToken := authToken; am_Message := BRequest req |}.
Definition NewAuthResponse (resp : Response) (authToken : string) : AuthMessage := {| AuthToken := authToken; am_Message := BResponse resp |}.

Section Messages.
Context `{WireJSON}.

Definition UnmarshalAuthMessage (data : list byte) : result string AuthMessage := v ← Parse data; decode_AuthMessage v.

Definition ExtractRequest (am : AuthMessage) : result string Request :=
  msgData ← Print (body_doc (am_Message am)); v ← Parse msgData; decode_Request v.

Definition ExtractResponse (am : AuthMessage) : result string Response :=
  msgData ← Print (body_doc (am_Message am)); Unmarshal_response msgData.

(** ** The transport *)

Inductive TransportError :=
| MarshalFailed (what e : string) | EncodeFailed (what : string) (e : WireError) | FlushFailed (e : io_error)
| DecodeFailed (e : WireError) | UnmarshalFailed (what e : string) | UnknownType (t : Z).

(** What [ReceiveMessage] returns beside the type: the dynamic value of an interface. *)
Inductive message :=
| MNil | MNegotiation (n : VersionNegotiationPayload) | MAck (a : VersionAckPayload) | MRequest (r : Request) | MResponse (r : Response)
| MAuth (m : AuthMessage) | MMap (v : jvalue) | MText (s : list byte).

Definition to_map (payload : list byte) : result string jvalue :=
  v ← Parse payload; match v with JObject _ | JNull => Ok (any v) | _ => Err type_error end.

(** The frame as an authenticated message, if it is one. *)
Definition as_auth (payload : list byte) : option AuthMessage :=
  match UnmarshalAuthMessage payload with
  | Ok m => match am_Message m with BAny JNull => None | _ => Some m end
  | Err _ => None
  end.

Definition unmarshalled {A} (what : string) (t : Z) (f : A -> message) (r : result string A) : result TransportError (Z * message) :=
  match r with Ok a => Ok (t, f a) | Err e => Err (UnmarshalFailed what e) end.

Definition handleVersionNegotiation (f : Frame) := unmarshalled "version negotiation" (MessageType f) MNegotiation (Unmarshal_negotiation (Payload f)).
Definition handleVersionAck (f : Frame) := unmarshalled "version ack" (MessageType f) MAck (Unmarshal_ack (Payload f)).
Definition handleRequest (f : Frame) : result TransportError (Z * message) :=
  match as_auth (Payload f) with
  | Some m => Ok (MessageType f, MAuth m)
  | None => unmarshalled "request" (MessageType f) MRequest (v ← Parse (Payload f); decode_Request v)
  end.
Definition handleResponse (f : Frame) : result TransportError (Z * message) :=
  match as_auth (Payload f) with
  | Some m => Ok (MessageType f, MAuth m)
  | None => unmarshalled "response" (MessageType f) MResponse (Unmarshal_response (Payload f))
  end.
Definition handleHealthCheck (f : Frame) : result TransportError (Z * message) :=
  match Payload f with
  | [] => Ok (MessageType f, MNil)
  | _ => unmarshalled "health check" (MessageType f) MMap (to_map (Payload f))
  end.
Definition handleError (f : Frame) : result TransportError (Z * message) := Ok (MessageType f, MText (Payload f)).
Definition handleControl (f : Frame) : result TransportError (Z * message) :=
  match Payload f with
  | [] => Ok (MessageType f, MMap JNull)
  | _ => unmarshalled "control message" (MessageType f) MMap (to_map (Payload f))
  end.

Definition handleReceivedFrame (f : Frame) : result TransportError (Z * message) :=
  let t := MessageType f in
  if t =? MessageTypeVersionNegotiation then handleVersionNegotiation f
  else if t =? MessageTypeVersionAck then handleVersionAck f
  else if t =? MessageTypeRequest then handleRequest f
  else if t =? MessageTypeResponse then handleResponse f
  else if t =? MessageTypeHealthCheck then handleHealthCheck f
  else if t =? MessageTypeError then handleError f
  else if t =? MessageTypeControl then handleControl f
  else Err (UnknownType t).

Definition of_result {S E A} (r : result E A) : M S E A := fun s => (r, s).

(** [ReceiveMessage] on the bytes of the connection. *)
Definition ReceiveMessage : M (list byte) TransportError (Z * message) :=
  frame ← M_wrap DecodeFailed Decode; of_result (handleReceivedFrame frame).

(** A buffered writer. *)
Class BufWriter (W : Type) := { bufwriter_writer :: Writer W; Flush : M W io_error unit }.

Definition send `{BufWriter W} (what : string) (t : Z) (payload : list byte) : M W TransportError unit :=
  _ ← M_wrap (EncodeFailed what) (Encode {| Version := CurrentVersion; MessageType := t; Payload := payload |});
  M_wrap FlushFailed Flush.

Definition send_doc `{BufWriter W} (what : string) (t : Z) (doc : jvalue) : M W TransportError unit :=
  match Print doc with Err e => M_fail (MarshalFailed what e) | Ok payload => send what t payload end.

Definition SendRequest `{BufWriter W} (req : Request) : M W TransportError unit := send_doc "request" MessageTypeRequest (request_doc req).
Definition SendResponse `{BufWriter W} (resp : Response) : M W TransportError unit := send_doc "response" MessageTypeResponse (response_doc resp).
Definition SendError `{BufWriter W} (errMsg : list byte) : M W TransportError unit := send "error" MessageTypeError errMsg.
Definition SendHealthCheck `{BufWriter W} : M W TransportError unit := send "health check" MessageTypeHealthCheck [].
Definition SendControl `{BufWriter W} (control : jvalue) : M W TransportError unit := send_doc "control message" MessageTypeControl control.
Definition SendVersionNegotiation `{BufWriter W} (n : VersionNegotiationPayload) : M W TransportError unit :=
  send "version negotiation" MessageTypeVersionNegotiation (Marshal_negotiation n).
Definition SendVersionAck `{BufWriter W} (a : VersionAckPayload) : M W TransportError unit :=
  send "version ack" MessageTypeVersionAck (Marshal_ack a).

End Messages.

(** A buffer without limit. *)
#[export] Instance Buffer_flush : BufWriter (list byte) := { Flush := mret tt }.

(** ** Messages read back *)

Definition valid_request (r : Request) : bool :=
  ValidString (req_JSONRPC r) && ValidString (Method r) && valid_text (ReqParams r) && valid_text (req_ID r).

Lemma decode_request_doc r : plain_request r -> decode_Request (request_doc r) = Ok r.
Proof.
  intros [Hp Hi]. unfold plain in *. destruct r as [j m ps i]. cbn [ReqParams req_ID] in Hp, Hi. unfold decode_Request, decode_struct, request_doc.
  cbn [req_JSONRPC Method ReqParams req_ID].
  assert (forall k f, In (k, f) [("jsonrpc", "jsonrpc"); ("method", "method"); ("params", "params"); ("id", "id")]%string -> is_field f k = true) as Hf.
  { intros k f Hin. cbn in Hin. destruct Hin as [E|[E|[E|[E|[]]]]]; injection E as <- <-; by vm_compute. }
  assert (request_field (empty_request, true) ("jsonrpc"%string, JString j) = ({| req_JSONRPC := j; Method := ""; ReqParams := JNull; req_ID := JNull |}, true)) as E1 by reflexivity.
  assert (forall r, request_field (r, true) ("method"%string, JString m) = ({| req_JSONRPC := req_JSONRPC r; Method := m; ReqParams := ReqParams r; req_ID := req_ID r |}, true)) as E2 by reflexivity.
  assert (forall r v, request_field (r, true) ("params"%string, v) = ({| req_JSONRPC := req_JSONRPC r; Method := Method r; ReqParams := any v; req_ID := req_ID r |}, true)) as E3 by reflexivity.
  assert (forall r v, request_field (r, true) ("id"%string, v) = ({| req_JSONRPC := req_JSONRPC r; Method := Method r; ReqParams := ReqParams r; req_ID := any v |}, true)) as E4 by reflexivity.
  assert (foldl request_field (empty_request, true)
    ([("jsonrpc"%string, JString j); ("method"%string, JString m)] ++ omit_nil "params" ps ++ [("id"%string, i)]) = (mkRequest j m ps i, true)) as ->; [|done].
  destruct ps; cbn [omit_nil app foldl]; rewrite ?E1, ?E2, ?E3, ?E4; cbn [req_JSONRPC Method ReqParams req_ID]; by rewrite ?Hp, Hi.
Qed.

Lemma valid_request_doc r : valid_request r = true -> valid_text (request_doc r) = true.
Proof.
  unfold valid_request, request_doc. intros [[[H1 H2]%andb_prop H3]%andb_prop H4]%andb_prop.
  cbn [valid_text]. rewrite !forallb_app. cbn. rewrite H1, H2, H4. by destruct (ReqParams r); cbn in *; rewrite ?H3.
Qed.

(** Documents of requests and responses are not authenticated messages. *)
Lemma not_auth v l :
  v = JObject l -> Forall (fun kv => is_field "auth_token" (fst kv) = false /\ is_field "message" (fst kv) = false) l ->
  decode_AuthMessage v = Ok empty_auth.
Proof.
  intros -> Hl. unfold decode_AuthMessage, decode_struct.
  assert (foldl auth_field (empty_auth, true) l = (empty_auth, true)) as ->; [|done].
  induction Hl as [|[k v] l [H1 H2] _ IH]; [done|]. cbn [foldl]. cbn [fst] in H1, H2.
  unfold auth_field at 2. by rewrite H1, H2.
Qed.

Lemma request_not_auth r : decode_AuthMessage (request_doc r) = Ok empty_auth.
Proof. eapply not_auth; [reflexivity|]. destruct (ReqParams r); repeat constructor. Qed.

Lemma response_not_auth r : decode_AuthMessage (response_doc r) = Ok empty_auth.
Proof. eapply not_auth; [reflexivity|]. destruct (Result r), (RespError r); repeat constructor. Qed.

Lemma decode_auth_doc tok v : decode_AuthMessage (auth_doc {| AuthToken := tok; am_Message := BAny v |}) = Ok {| AuthToken := tok; am_Message := BAny (any v) |}.
Proof.
  unfold decode_AuthMessage, decode_struct, auth_doc. cbn [AuthToken am_Message body_doc].
  assert (auth_field (empty_auth, true) ("auth_token"%string, JString tok) = ({| AuthToken := tok; am_Message := BAny JNull |}, true)) as E1 by reflexivity.
  assert (forall m, auth_field (m, true) ("message"%string, v) = ({| AuthToken := AuthToken m; am_Message := BAny (any v) |}, true)) as E2 by reflexivity.
  case_bool_decide as Ht; cbn [app foldl]; rewrite ?E1, E2; [by subst|done].
Qed.

Section RoundTrips.
Context `{WireJSON}.

Lemma send_Buffer what t payload buf :
  zlen payload <= maxPayload ->
  send what t payload buf = (Ok tt, buf ++ frame_bytes {| Version := CurrentVersion; MessageType := t; Payload := payload |}).
Proof.
  intros Hp. unfold send. rewrite (M_bind_ok _ _ _ tt (buf ++ frame_bytes {| Version := CurrentVersion; MessageType := t; Payload := payload |})); [done|].
  unfold M_wrap. change (@bufwriter_writer _ Buffer_flush) with Buffer. rewrite Encode_frame_bytes; [done|]. cbn. unfold maxPayload in Hp. lia.
Qed.

Lemma receive_frame t payload rest :
  zlen payload <= maxPayload -> 0 <= t < 2 ^ 16 ->
  ReceiveMessage (frame_bytes {| Version := CurrentVersion; MessageType := t; Payload := payload |} ++ rest)
  = (handleReceivedFrame {| Version := CurrentVersion; MessageType := t; Payload := payload |}, rest).
Proof.
  intros Hp Ht. unfold ReceiveMessage.
  rewrite (M_bind_ok _ _ _ {| Version := CurrentVersion; MessageType := t; Payload := payload |} rest); [done|].
  unfold M_wrap. by rewrite Decode_frame_bytes.
Qed.

Lemma any_request_doc r : plain_request r -> any (request_doc r) = request_doc r.
Proof. unfold plain_request, plain. intros [Hp Hi]. unfold request_doc. destruct (ReqParams r); cbn in *; by rewrite ?Hp, ?Hi. Qed.

Lemma as_auth_none payload doc : Parse payload = Ok doc -> decode_AuthMessage doc = Ok empty_auth -> as_auth payload = None.
Proof. intros Hp Hd. unfold as_auth, UnmarshalAuthMessage. rewrite Hp. unfold mbind, result_bind. by rewrite Hd. Qed.

Lemma valid_auth_doc token req : ValidString token = true -> valid_text (request_doc req) = true -> valid_text (auth_doc (NewAuthRequest req token)) = true.
Proof.
  intros Ht Hr. unfold auth_doc, NewAuthRequest. cbn [AuthToken am_Message body_doc valid_text]. rewrite forallb_app. cbn [forallb fst snd valid_text].
  rewrite Hr. case_bool_decide; cbn [forallb fst snd valid_text]; rewrite ?Ht; reflexivity.
Qed.

(** What a message becomes on the other side. *)
Definition arrives (t : Z) (doc : jvalue) (m : message) : Prop :=
  forall payload rest, Print doc = Ok payload -> zlen payload <= maxPayload ->
    ReceiveMessage (frame_bytes {| Version := CurrentVersion; MessageType := t; Payload := payload |} ++ rest) = (Ok (t, m), rest).

(** C32: A message sent over the transport is received as it was: a plain request and a plain response are not taken for
    authenticated messages although these are tried first; a request wrapped with a token arrives with its token, and
    the request extracted from it is the one that was wrapped. *)
Theorem messages_round_trip (req : Request) (resp : Response) (token : string) :
  plain_request req -> valid_request req = true -> plain_response resp -> valid_text (response_doc resp) = true -> ValidString token = true ->
  (forall payload buf, Print (request_doc req) = Ok payload -> zlen payload <= maxPayload ->
     exists out, SendRequest req buf = (Ok tt, buf ++ out) /\ forall rest, ReceiveMessage (out ++ rest) = (Ok (MessageTypeRequest, MRequest req), rest)) /\
  (forall payload buf, Print (response_doc resp) = Ok payload -> zlen payload <= maxPayload ->
     exists out, SendResponse resp buf = (Ok tt, buf ++ out) /\ forall rest, ReceiveMessage (out ++ rest) = (Ok (MessageTypeResponse, MResponse resp), rest)) /\
  exists am, arrives MessageTypeRequest (auth_doc (NewAuthRequest req token)) (MAuth am) /\ AuthToken am = token /\
    forall inner, Print (request_doc req) = Ok inner -> ExtractRequest am = Ok req.
Proof.
  intros Hpr Hvr Hps Hvs Ht. apply valid_request_doc in Hvr. split_and!.
  - intros payload buf E Hl. eexists. split; [unfold SendRequest, send_doc; rewrite E; by apply send_Buffer|].
    intros rest. rewrite receive_frame by done. pose proof (parse_print _ _ Hvr E) as Ep.
    unfold handleReceivedFrame. cbn [MessageType Payload]. unfold handleRequest. cbn [MessageType Payload].
    rewrite (as_auth_none _ _ Ep (request_not_auth req)), Ep. unfold mbind, result_bind. by rewrite decode_request_doc.
  - intros payload buf E Hl. eexists. split; [unfold SendResponse, send_doc; rewrite E; by apply send_Buffer|].
    intros rest. rewrite receive_frame by done. pose proof (parse_print _ _ Hvs E) as Ep.
    unfold handleReceivedFrame. cbn [MessageType Payload]. unfold handleResponse. cbn [MessageType Payload].
    by rewrite (as_auth_none _ _ Ep (response_not_auth resp)), (unmarshal_response resp).
  - exists {| AuthToken := token; am_Message := BAny (request_doc req) |}. split_and!; [|done|].
    + intros payload rest E Hl. rewrite receive_frame by done. pose proof (parse_print _ _ (valid_auth_doc token req Ht Hvr) E) as Ep.
      unfold handleReceivedFrame. cbn [MessageType Payload]. unfold handleRequest, as_auth, UnmarshalAuthMessage. cbn [MessageType Payload].
      rewrite Ep. unfold mbind, result_bind. pose proof (decode_auth_doc token (request_doc req)) as Hd.
      rewrite any_request_doc in Hd by done. change (decode_AuthMessage (auth_doc (NewAuthRequest req token)) = Ok {| AuthToken := token; am_Message := BAny (request_doc req) |}) in Hd.
      by rewrite Hd.
    + intros inner E. unfold ExtractRequest. cbn [am_Message body_doc]. rewrite E. unfold mbind, result_bind.
      rewrite (parse_print _ _ Hvr E). by apply decode_request_doc.
Qed.

(** The message has the type of its frame: only requests and responses can be authenticated messages, and the
    payloads of the other types are what their handlers expect. *)
Lemma message_of_type s t m s' :
  ReceiveMessage s = (Ok (t, m), s') ->
  match m with
  | MNegotiation _ => t = MessageTypeVersionNegotiation
  | MAck _ => t = MessageTypeVersionAck
  | MRequest _ => t = MessageTypeRequest
  | MResponse _ => t = MessageTypeResponse
  | MAuth am => (t = MessageTypeRequest \/ t = MessageTypeResponse) /\ am_Message am <> BAny JNull
  | MNil => t = MessageTypeHealthCheck
  | MMap _ => t = MessageTypeHealthCheck \/ t = MessageTypeControl
  | MText _ => t = MessageTypeError
  end.
Proof.
  unfold ReceiveMessage. intros (f & s1 & _ & Ht)%M_bind_ok_inv. unfold of_result in Ht. injection Ht as Ht _. revert Ht.
  assert (forall A what (k : A -> message) r, unmarshalled what (MessageType f) k r = Ok (t, m) -> exists a, m = k a /\ t = MessageType f) as Hu.
  { intros A what k [a|e]; cbn; [|done]. intros [= -> <-]. eauto. }
  unfold handleReceivedFrame.
  repeat match goal with |- context [MessageType f =? ?x] => destruct (Z.eqb_spec (MessageType f) x) end.
  - intros (a & -> & ->)%Hu. done.
  - intros (a & -> & ->)%Hu. done.
  - unfold handleRequest, as_auth. destruct (UnmarshalAuthMessage (Payload f)) as [am|]; [|intros (a & -> & ->)%Hu; done].
    destruct (am_Message am) as [[]| |] eqn:Em; try (intros [= <- <-]; split; [by left|congruence]). intros (a & -> & ->)%Hu. done.
  - unfold handleResponse, as_auth. destruct (UnmarshalAuthMessage (Payload f)) as [am|]; [|intros (a & -> & ->)%Hu; done].
    destruct (am_Message am) as [[]| |] eqn:Em; try (intros [= <- <-]; split; [by right|congruence]). intros (a & -> & ->)%Hu. done.
  - unfold handleHealthCheck. destruct (Payload f); [by intros [= <- <-]|]. intros (a & -> & ->)%Hu. by left.
  - by intros [= <- <-].
  - unfold handleControl. destruct (Payload f); [intros [= <- <-]; by right|]. intros (a & -> & ->)%Hu. by right.
  - done.
Qed.

End RoundTrips.

(** ** A codec

    Documents are written as the digits of their numbers. *)
Module Toy.

#[local] Existing Instance Codec.jvalue_countable.

Definition print (v : jvalue) : list byte := String.list_byte_of_string (Codec.digits (encode v)).
Definition parse (s : list byte) : result string jvalue :=
  match Codec.number (String.string_of_list_byte s) ≫= decode with Some v => Ok v | None => Err "syntax error"%string end.

Lemma parse_print v : parse (print v) = Ok v.
Proof.
  unfold parse, print. rewrite String.string_of_list_byte_of_string, Codec.number_digits. cbn [mbind option_bind]. by rewrite decode_encode.
Qed.

Definition or_null (v : option jvalue) : jvalue := default JNull v.
Definition text (v : option jvalue) : string := match v with Some (JString s) => s | _ => "" end.
Definition number (v : option jvalue) : Z := match v with Some (JNumber n) => n | _ => 0 end.

Definition error_of_doc (v : jvalue) : mcpError :=
  {| Code := number (field "code" v); Message := text (field "message" v); Data := or_null (field "data" v) |}.
Definition response_of_doc (v : jvalue) : Response :=
  {| resp_JSONRPC := text (field "jsonrpc" v); Result := or_null (field "result" v);
     RespError := error_of_doc <$> field "error" v; resp_ID := or_null (field "id" v) |}.

Lemma error_of_error_doc e : error_of_doc (error_doc e) = e.
Proof. by destruct e as [c m []]. Qed.
Lemma response_of_response_doc r : response_of_doc (response_doc r) = r.
Proof.
  destruct r as [j res [e|] i]; unfold response_of_doc; [|by destruct res].
  assert (field "error" (response_doc (mkResponse j res (Some e) i)) = Some (error_doc e)) as -> by by destruct res.
  cbn [fmap option_fmap option_map]. rewrite error_of_error_doc. by destruct res.
Qed.

Definition negotiation_doc (n : VersionNegotiationPayload) : jvalue :=
  JArray [JNumber (neg_Min n); JNumber (neg_Max n); JNumber (neg_Preferred n); JArray (map JNumber (neg_Supported n))].
Definition negotiation_of_doc (v : jvalue) : result string VersionNegotiationPayload :=
  match v with
  | JArray [JNumber a; JNumber b; JNumber c; JArray l] => Ok (mkNegotiation a b c (map (fun v => number (Some v)) l))
  | _ => Err type_error
  end.

#[refine] Instance json : WireJSON := {|
  Parse := parse; Print := fun v => Ok (print v);
  Unmarshal_response := fun s => v ← parse s; Ok (response_of_doc v);
  Unmarshal_negotiation := fun s => v ← parse s; negotiation_of_doc v; Marshal_negotiation := fun n => print (negotiation_doc n);
  Unmarshal_ack := fun s => v ← parse s; match v with JNumber n => Ok (mkAck n) | _ => Err type_error end;
  Marshal_ack := fun a => print (JNumber (AgreedVersion a)) |}.
Proof.
  - intros v s _ [= <-]. apply parse_print.
  - intros r s _ _ [= <-]. rewrite parse_print. unfold mbind, result_bind. by rewrite response_of_response_doc.
  - intros [a] _. by rewrite parse_print.
Defined.

Definition call : Request := mkRequest "2.0" "tools/call" (JObject [("namespace"%string, JString "k8s")]) (JString "r1").
Definition reply : Response := mkResponse "2.0" (JObject [("ok"%string, JBool true)]) None (JString "r1").

Lemma messages_round_trip_witness :
  exists out am rest, SendRequest call [] = (Ok tt, out) /\ ReceiveMessage out = (Ok (MessageTypeRequest, MRequest call), rest) /\
    ReceiveMessage (frame_bytes {| Version := 1; MessageType := MessageTypeRequest; Payload := print (auth_doc (NewAuthRequest call "tok")) |})
      = (Ok (MessageTypeRequest, MAuth am), rest) /\ AuthToken am = "tok"%string /\ ExtractRequest am = Ok call.
Proof.
  destruct (messages_round_trip call reply "tok") as (H1 & _ & am & Ha & Ht & Hx); [done|done|done|done|done|].
  destruct (H1 (print (request_doc call)) []) as (out & Hs & Hr); [done|by vm_compute|].
  exists out, am, []. split_and!; [done| | |done|by eapply Hx].
  - rewrite <- (app_nil_r out). apply Hr.
  - rewrite <- (app_nil_r (frame_bytes _)). apply Ha; [done|by vm_compute].
Defined.

(** A plain request with one more field, whatever its case, is read as an authenticated message, and its own method
    and id are lost. *)
Example extra_field_shadows :
  handleReceivedFrame {| Version := 1; MessageType := MessageTypeRequest;
    Payload := print (JObject [("method"%string, JString "tools/list"); ("id"%string, JNumber 1); ("Message"%string, JString "hi")]) |}
  = Ok (MessageTypeRequest, MAuth {| AuthToken := ""; am_Message := BAny (JString "hi") |}) /\
  ExtractRequest {| AuthToken := ""; am_Message := BAny (JString "hi") |} = Err type_error.
Proof. split; vm_compute; reflexivity. Qed.

End Toy.

End Transport.
