(* ===== verification/Frontends.v ===== *)
(** * The gateway's frontends

    What the frontends of [services/gateway/internal/frontends/] share (the wire message around a request, metrics, the
    context in which the router finds the session, defaults of their configurations, the factory) and the HTTP
    frontend.  The router is the class of its interface; the provider is that of [Auth], the session manager that
    of [Session]. *)
From S2P Require Import Prelude GoIO GoStrings Wire Mcp RateLimit Session Auth Server Transport.
From Stdlib Require Import Strings.Ascii.
#[local] Open Scope Z_scope.

Module Frontends.
Import Transport.

(** ** Wire messages *)

Record WireMessage := mkWireMessage {
  wm_ID : jvalue; Timestamp : string; Source : string; TargetNamespace : string; MCPPayload : jvalue; wm_AuthToken : string }.

Definition empty_wire : WireMessage := mkWireMessage JNull "" "" "" JNull "".

Definition wire_field (st : WireMessage * bool) (kv : string * jvalue) : WireMessage * bool :=
  let '(m, ok) := st in
  let '(k, v) := kv in
  if is_field "id" k then (mkWireMessage (any v) (Timestamp m) (Source m) (TargetNamespace m) (MCPPayload m) (wm_AuthToken m), ok)
  else if is_field "timestamp" k then
    let '(s, o) := set_string v (Timestamp m) in (mkWireMessage (wm_ID m) s (Source m) (TargetNamespace m) (MCPPayload m) (wm_AuthToken m), ok && o)
  else if is_field "source" k then
    let '(s, o) := set_string v (Source m) in (mkWireMessage (wm_ID m) (Timestamp m) s (TargetNamespace m) (MCPPayload m) (wm_AuthToken m), ok && o)
  else if is_field "target_namespace" k then
    let '(s, o) := set_string v (TargetNamespace m) in (mkWireMessage (wm_ID m) (Timestamp m) (Source m) s (MCPPayload m) (wm_AuthToken m), ok && o)
  else if is_field "mcp_payload" k then (mkWireMessage (wm_ID m) (Timestamp m) (Source m) (TargetNamespace m) (any v) (wm_AuthToken m), ok)
  else if is_field "auth_token" k then
    let '(s, o) := set_string v (wm_AuthToken m) in (mkWireMessage (wm_ID m) (Timestamp m) (Source m) (TargetNamespace m) (MCPPayload m) s, ok && o)
  else (m, ok).

Definition decode_WireMessage : jvalue -> result string WireMessage := decode_struct empty_wire wire_field.

(** The document of a wire message. *)
Definition omit_empty (k s : string) : list (string * jvalue) := if bool_decide (s = EmptyString) then [] else [(k, JString s)].
Definition wire_doc (m : WireMessage) (payload : jvalue) : jvalue :=
  JObject ([("id"%string, wm_ID m); ("timestamp"%string, JString (Timestamp m)); ("source"%string, JString (Source m))]
           ++ omit_empty "target_namespace" (TargetNamespace m) ++ [("mcp_payload"%string, payload)] ++ omit_empty "auth_token" (wm_AuthToken m)).

(** The texts of the errors the frontends make themselves. *)
Definition validation_text (msg : string) : string := "VALIDATION: " +:+ msg.

(** The request in the payload of a wire message, with its namespace. *)
Definition unwrap `{WireJSON} (data : list byte) : result string (Request * string) :=
  match (v ← Parse data; decode_WireMessage v) with
  | Err e => Err (validation_text ("invalid wire message: " +:+ e))
  | Ok m =>
      match MCPPayload m with
      | JNull => Err (validation_text "missing MCP payload")
      | payload =>
          match Print payload with
          | Err e => Err ("INTERNAL: failed to marshal MCP payload: " +:+ e)
          | Ok mcpData =>
              match (v ← Parse mcpData; decode_Request v) with
              | Err e => Err (validation_text ("invalid MCP request: " +:+ e))
              | Ok req => Ok (req, TargetNamespace m)
              end
          end
      end
  end%string.

(** ** Contexts

    A value is stored under a key of a Go type; keys of the same text and different types are different keys.  The
    router looks for the session under the key of package common. *)
Inductive context_key := CommonKey | ServerKey | SseKey | TcpKey.
#[export] Instance context_key_eq_dec : EqDecision context_key.
Proof. solve_decision. Defined.

Definition context := list (context_key * Sessions.Session).
Definition WithValue (k : context_key) (s : Sessions.Session) (ctx : context) : context := (k, s) :: ctx.
Definition Value (k : context_key) (ctx : context) : option Sessions.Session :=
  snd <$> List.find (fun kv => bool_decide (fst kv = k)) ctx.

(** The interface of the router: an error is known by its text. *)
Class RequestRouter (R : Type) := RouteRequest : context -> Request -> string -> M R string Response.

(** ** Metrics *)

Record FrontendMetrics := mkFrontendMetrics {
  ActiveConnections : Z; TotalConnections : Z; RequestCount : Z; ErrorCount : Z; IsRunning : bool }.
Definition no_metrics : FrontendMetrics := mkFrontendMetrics 0 0 0 0 false.

Definition inc_active (m : FrontendMetrics) := mkFrontendMetrics (u64_add (ActiveConnections m) 1) (TotalConnections m) (RequestCount m) (ErrorCount m) (IsRunning m).
Definition dec_active (m : FrontendMetrics) := mkFrontendMetrics (wrap_u 64 (ActiveConnections m - 1)) (TotalConnections m) (RequestCount m) (ErrorCount m) (IsRunning m).
Definition inc_total (m : FrontendMetrics) := mkFrontendMetrics (ActiveConnections m) (u64_add (TotalConnections m) 1) (RequestCount m) (ErrorCount m) (IsRunning m).
Definition inc_requests (m : FrontendMetrics) := mkFrontendMetrics (ActiveConnections m) (TotalConnections m) (u64_add (RequestCount m) 1) (ErrorCount m) (IsRunning m).
Definition inc_errors (m : FrontendMetrics) := mkFrontendMetrics (ActiveConnections m) (TotalConnections m) (RequestCount m) (u64_add (ErrorCount m) 1) (IsRunning m).
Definition set_running (b : bool) (m : FrontendMetrics) := mkFrontendMetrics (ActiveConnections m) (TotalConnections m) (RequestCount m) (ErrorCount m) b.

(** ** Configurations *)

Definition default_str (d s : string) : string := if bool_decide (s = EmptyString) then d else s.
Definition default_int (d z : Z) : Z := if z =? 0 then d else z.

Record HttpConfig := mkHttpConfig {
  hc_Host : string; hc_Port : Z; RequestPath : string; MaxRequestSize : Z;
  hc_ReadTimeout : Z; hc_WriteTimeout : Z; IdleTimeout : Z; MaxHeaderBytes : Z }.
Definition http_ApplyDefaults (c : HttpConfig) : HttpConfig :=
  mkHttpConfig (default_str "0.0.0.0" (hc_Host c)) (default_int 8080 (hc_Port c)) (default_str "/api/v1/mcp" (RequestPath c))
    (default_int (1024 * 1024) (MaxRequestSize c)) (default_int (30 * Second) (hc_ReadTimeout c)) (default_int (30 * Second) (hc_WriteTimeout c))
    (default_int (120 * Second) (IdleTimeout c)) (default_int (2 ^ 20) (MaxHeaderBytes c)).

Record SseConfig := mkSseConfig {
  sc_Host : string; sc_Port : Z; StreamEndpoint : string; RequestEndpoint : string; KeepAlive : Z; sc_MaxConnections : Z;
  BufferSize : Z; sc_ReadTimeout : Z; sc_WriteTimeout : Z }.
Definition sse_ApplyDefaults (c : SseConfig) : SseConfig :=
  mkSseConfig (default_str "0.0.0.0" (sc_Host c)) (default_int 8081 (sc_Port c)) (default_str "/events" (StreamEndpoint c))
    (default_str "/api/v1/request" (RequestEndpoint c)) (default_int (30 * Second) (KeepAlive c)) (default_int 10000 (sc_MaxConnections c))
    (default_int 256 (BufferSize c)) (default_int (30 * Second) (sc_ReadTimeout c)) (default_int (30 * Second) (sc_WriteTimeout c)).

Record WsConfig := mkWsConfig {
  wc_Host : string; wc_Port : Z; wc_Path : string; wc_MaxConnections : Z; wc_ReadTimeout : Z; wc_WriteTimeout : Z;
  PingInterval : Z; PongTimeout : Z; wc_MaxMessageSize : Z; AllowedOrigins : list string }.
Definition ws_ApplyDefaults (c : WsConfig) : WsConfig :=
  mkWsConfig (default_str "0.0.0.0" (wc_Host c)) (default_int 8443 (wc_Port c)) (default_str "/" (wc_Path c))
    (default_int 10000 (wc_MaxConnections c)) (default_int (60 * Second) (wc_ReadTimeout c)) (default_int (60 * Second) (wc_WriteTimeout c))
    (default_int (30 * Second) (PingInterval c)) (default_int (60 * Second) (PongTimeout c)) (default_int (1024 * 1024) (wc_MaxMessageSize c))
    (AllowedOrigins c).

Record TcpConfig := mkTcpConfig {
  tc_Host : string; tc_Port : Z; tc_MaxConnections : Z; tc_ReadTimeout : Z; tc_WriteTimeout : Z; tc_MaxMessageSize : Z; HealthPort : Z }.
Definition tcp_ApplyDefaults (c : TcpConfig) : TcpConfig :=
  mkTcpConfig (default_str "0.0.0.0" (tc_Host c)) (default_int 8444 (tc_Port c)) (default_int 10000 (tc_MaxConnections c))
    (default_int (60 * Second) (tc_ReadTimeout c)) (default_int (60 * Second) (tc_WriteTimeout c))
    (default_int (10 * 1024 * 1024) (tc_MaxMessageSize c)) (default_int 9002 (HealthPort c)).

(** The factory: which frontend a protocol names. *)
Inductive frontend_kind := KStdio | KWebSocket | KHttp | KSse | KTcp.
Definition CreateFrontend (protocol : string) : result string frontend_kind :=
  if bool_decide (protocol = "stdio")%string then Ok KStdio
  else if bool_decide (protocol = "websocket")%string then Ok KWebSocket
  else if bool_decide (protocol = "http")%string then Ok KHttp
  else if bool_decide (protocol = "sse")%string then Ok KSse
  else if bool_decide (protocol ∈ ["tcp_binary"; "tcp"]%string) then Ok KTcp
  else Err (validation_text ("unsupported frontend protocol: " +:+ protocol)).

(** *** Origins *)

(** [makeOriginChecker] on the Origin header, empty when it is absent. *)
Definition makeOriginChecker (allowed : list string) (origin : string) : bool :=
  match allowed with
  | [] => true
  | _ => bool_decide (origin = EmptyString) || bool_decide (origin ∈ allowed)
  end.

(** [getIPFromAddr]; [SplitHostPort] is the function of package net. *)
Definition getIPFromAddr (SplitHostPort : string -> option (string * string)) (addr : string) : string :=
  match SplitHostPort addr with Some (host, _) => host | None => addr end.

(** *** A wrapped request is unwrapped *)

Lemma decode_wire_doc m doc :
  plain (wm_ID m) -> plain doc ->
  decode_WireMessage (wire_doc m doc) = Ok (mkWireMessage (wm_ID m) (Timestamp m) (Source m) (TargetNamespace m) doc (wm_AuthToken m)).
Proof.
  intros Hi Hp. destruct m as [i ts src ns pl tok]. cbn [wm_ID] in Hi. unfold plain in *. unfold decode_WireMessage, decode_struct, wire_doc, omit_empty.
  cbn [wm_ID Timestamp Source TargetNamespace MCPPayload wm_AuthToken].
  assert (forall m v, wire_field (m, true) ("id"%string, v) = (mkWireMessage (any v) (Timestamp m) (Source m) (TargetNamespace m) (MCPPayload m) (wm_AuthToken m), true)) as E1 by reflexivity.
  assert (forall m x, wire_field (m, true) ("timestamp"%string, JString x) = (mkWireMessage (wm_ID m) x (Source m) (TargetNamespace m) (MCPPayload m) (wm_AuthToken m), true)) as E2 by reflexivity.
  assert (forall m x, wire_field (m, true) ("source"%string, JString x) = (mkWireMessage (wm_ID m) (Timestamp m) x (TargetNamespace m) (MCPPayload m) (wm_AuthToken m), true)) as E3 by reflexivity.
  assert (forall m x, wire_field (m, true) ("target_namespace"%string, JString x) = (mkWireMessage (wm_ID m) (Timestamp m) (Source m) x (MCPPayload m) (wm_AuthToken m), true)) as E4 by reflexivity.
  assert (forall m v, wire_field (m, true) ("mcp_payload"%string, v) = (mkWireMessage (wm_ID m) (Timestamp m) (Source m) (TargetNamespace m) (any v) (wm_AuthToken m), true)) as E5 by reflexivity.
  assert (forall m x, wire_field (m, true) ("auth_token"%string, JString x) = (mkWireMessage (wm_ID m) (Timestamp m) (Source m) (TargetNamespace m) (MCPPayload m) x, true)) as E6 by reflexivity.
  case_bool_decide as H1; case_bool_decide as H2; cbn [app foldl]; rewrite E1, E2, E3, ?E4, E5, ?E6; cbn; rewrite Hi, Hp; by subst.
Qed.

(** A request that a client wraps in a wire message, with its namespace, is what the frontends extract from it. *)
Lemma unwrap_wrapped `{WireJSON} (m : WireMessage) (req : Request) (data inner : list byte) :
  plain (wm_ID m) -> plain_request req -> valid_text (wire_doc m (request_doc req)) = true -> valid_request req = true ->
  Print (wire_doc m (request_doc req)) = Ok data -> Print (request_doc req) = Ok inner ->
  unwrap data = Ok (req, TargetNamespace m).
Proof.
  intros Hi Hr Hv Hv' Hd Hin. unfold unwrap. rewrite (parse_print _ _ Hv Hd). unfold mbind, result_bind.
  rewrite decode_wire_doc by (done || by apply any_request_doc). cbn [MCPPayload TargetNamespace].
  assert (exists l, request_doc req = JObject l) as [l El] by by eexists.
  pose proof (parse_print _ _ (valid_request_doc _ Hv') Hin) as Hp. rewrite El in Hin |- *. rewrite Hin, Hp. by rewrite decode_request_doc.
Qed.

#[local] Existing Instance Toy.json.

Lemma unwrap_wrapped_witness :
  unwrap (Toy.print (wire_doc (mkWireMessage (JString "r1") "2024" "client" "k8s" JNull "") (request_doc Toy.call))) = Ok (Toy.call, "k8s"%string).
Proof.
  apply (unwrap_wrapped (mkWireMessage (JString "r1") "2024" "client" "k8s" JNull "") Toy.call _ (Toy.print (request_doc Toy.call)));
    try done; by vm_compute.
Defined.

(** A router that answers every request and notes the sessions it saw, for executable examples. *)
Record EchoRouter := mkEcho { seen : list (option string * string) }.
#[export] Instance Echo_router : RequestRouter EchoRouter := fun ctx req ns r =>
  (Ok {| resp_JSONRPC := "2.0"; Result := JString (Method req); RespError := None; resp_ID := req_ID req |},
   {| seen := seen r ++ [(Sessions.User <$> Value CommonKey ctx, ns)] |}).

End Frontends.

(** ** The HTTP frontend *)

Module HttpFrontend.
Import Transport Frontends.

(** What a handler reads of a request; [q_complete] tells whether the body can be read to its end. *)
Record httpRequest := mkHttpReq { q_method : string; q_Authorization : string; q_body : list byte; q_complete : bool }.

Section Http.
Context `{WireJSON} `{Auth.Provider P} `{RequestRouter R}.

Record Frontend := mkFrontend {
  config : HttpConfig; auth : P; sessions : Sessions.MemoryManager; router : R; running : bool; metrics : FrontendMetrics }.

Definition CreateHTTPFrontend (c : HttpConfig) (a : P) (ss : Sessions.MemoryManager) (r : R) : Frontend :=
  {| config := http_ApplyDefaults c; auth := a; sessions := ss; router := r; running := false; metrics := no_metrics |}.

Definition updateMetrics (fn : FrontendMetrics -> FrontendMetrics) (f : Frontend) : Frontend :=
  {| config := config f; auth := auth f; sessions := sessions f; router := router f; running := running f; metrics := fn (metrics f) |}.
Definition set_state (a : P) (ss : Sessions.MemoryManager) (r : R) (f : Frontend) : Frontend :=
  {| config := config f; auth := a; sessions := ss; router := r; running := running f; metrics := metrics f |}.

(** A frontend starts once. *)
Definition Start (f : Frontend) : result string Frontend :=
  if running f then Err "http frontend already running"%string
  else Ok {| config := config f; auth := auth f; sessions := sessions f; router := router f; running := true;
             metrics := set_running true (metrics f) |}.
Definition Stop (f : Frontend) : Frontend :=
  if running f then {| config := config f; auth := auth f; sessions := sessions f; router := router f; running := false;
                       metrics := set_running false (metrics f) |}
  else f.

(** The encoder writes the document and a line feed; a document it cannot encode leaves the body empty. *)
Definition encoded (doc : jvalue) : Server.handler :=
  match Print doc with
  | Ok s => Server.HWrite (String.string_of_list_byte s +:+ String "010"%char EmptyString) (fun _ => Server.HDone)
  | Err _ => Server.HDone
  end.

Definition json_answer (statusCode : Z) (doc : jvalue) : Server.handler :=
  Server.HSetHeader "Content-Type" "application/json" (Server.HWriteHeader statusCode (encoded doc)).

Definition sendHTTPError (statusCode : Z) (message : string) : Server.handler :=
  json_answer statusCode (JObject [("error"%string, JString message)]).
Definition sendJSONResponse (statusCode : Z) (resp : Response) : Server.handler := json_answer statusCode (response_doc resp).

(** [processRequest]: the second component tells what the handler panics with or returns. *)
Inductive outcome := Answered (r : result string Response) | Panic.

Definition processRequest (data : list byte) (claims : Auth.Claims) (id : string) (now : Z) (f : Frontend) : outcome * Frontend :=
  match unwrap data with
  | Err e => (Answered (Err e), f)
  | Ok (req, ns) =>
      match Sessions.CreateSession (Auth.session_claims claims) id now now (sessions f) with
      | (Err Sessions.Panicked, _) => (Panic, f)
      | (Err _, ss) => (Answered (Err "INTERNAL: failed to create session"%string), set_state (auth f) ss (router f) f)
      | (Ok p, ss) =>
          match Sessions.heap ss !! p with
          | None => (Panic, f)
          | Some sess =>
              let '(r, rt) := RouteRequest (WithValue CommonKey sess []) req ns (router f) in
              (Answered r, set_state (auth f) ss rt f)
          end
      end
  end.

(** The answer to a failure has no request id. *)
Definition handleProcessingError (e : string) : Response :=
  {| resp_JSONRPC := "2.0"; Result := JNull; RespError := Some {| Code := ErrorCodeInternalError; Message := e; Data := JNull |}; resp_ID := JNull |}.

(** [handleRequest]: what is written, or nothing when the handler panics (net/http then drops the connection). *)
Definition handleRequest (q : httpRequest) (t : Auth.readings) (id : string) (now : Z) (f : Frontend) : option Server.handler * Frontend :=
  if negb (bool_decide (q_method q = "POST"%string)) then
    (Some (sendHTTPError 405 "method not allowed"), updateMetrics inc_errors f)
  else
    let '(claims, a) := Auth.Authenticate (q_Authorization q) t (auth f) in
    let f := set_state a (sessions f) (router f) f in
    match claims with
    | Err Auth.Panicked => (None, f)
    | Err _ => (Some (sendHTTPError 401 "unauthorized"), updateMetrics inc_errors f)
    | Ok c =>
        if (MaxRequestSize (config f) <? zlen (q_body q)) || negb (q_complete q) then
          (Some (sendHTTPError 400 "invalid request body"), updateMetrics inc_errors f)
        else
          match processRequest (q_body q) c id now f with
          | (Panic, f) => (None, f)
          | (Answered (Err e), f) => (Some (sendJSONResponse 200 (handleProcessingError e)), updateMetrics inc_errors f)
          | (Answered (Ok resp), f) =>
              (Some (sendJSONResponse 200 resp), updateMetrics (fun m => inc_requests (inc_total m)) f)
          end
    end.

(** [handleHealth]. *)
Definition handleHealth (f : Frontend) : Server.handler :=
  if running f then Server.HWriteHeader 200 (Server.HWrite "OK" (fun _ => Server.HDone)) else Server.HWriteHeader 503 Server.HDone.

(** ** What one request does *)

(** The router is called once, in the session of the caller, and the session stays behind. *)
Definition routed (q : httpRequest) (t : Auth.readings) (id : string) (now : Z) (f f' : Frontend) (r : result string Response) : Prop :=
  exists c a req ns sess,
    Auth.Authenticate (q_Authorization q) t (auth f) = (Ok c, a) /\ unwrap (q_body q) = Ok (req, ns) /\
    Sessions.ID sess = id /\ Sessions.User sess = Auth.Subject c /\ Some (Sessions.ExpiresAt sess) = Auth.ExpiresAt c /\
    RouteRequest (WithValue CommonKey sess []) req ns (router f) = (r, router f') /\
    sessions f' = snd (Sessions.CreateSession (Auth.session_claims c) id now now (sessions f)) /\
    Sessions.heap (sessions f') !! Sessions.next (sessions f) = Some sess.

Lemma created claims id now ss p ss' :
  Sessions.CreateSession claims id now now ss = (Ok p, ss') ->
  p = Sessions.next ss /\ exists s, Sessions.heap ss' !! p = Some s /\ Sessions.ID s = id /\ Sessions.User s = Sessions.Subject claims /\
    Some (Sessions.ExpiresAt s) = Sessions.ClaimsExpiresAt claims.
Proof.
  unfold Sessions.CreateSession. destruct (Sessions.ClaimsExpiresAt claims) as [e|] eqn:Ee, (Sessions.sessions ss) as [tab|]; intros [= <- <-].
  split; [done|]. eexists. cbn. rewrite lookup_insert_eq. done.
Qed.

(** The written status, and the document that follows it. *)
Definition answers (h : Server.handler) (statusCode : Z) (doc : jvalue) : Prop := h = json_answer statusCode doc.

(** C31: An HTTP request is routed only if it is a POST whose token the provider accepts and whose body, within the size
    limit, holds a wire message with a request; it is then routed once, with a new session of the caller's subject and
    expiry in the router's context, and the answer is the router's.  Every other request leaves router and sessions
    untouched and is answered with 405, 401, 400 or a JSON-RPC error without id, or drops the connection. *)
Theorem http_routes_authenticated (q : httpRequest) (t : Auth.readings) (id : string) (now : Z) (f : Frontend) :
  let '(h, f') := handleRequest q t id now f in
  (exists r, routed q t id now f f' r /\ q_method q = "POST"%string /\ q_complete q = true /\ zlen (q_body q) <= MaxRequestSize (config f) /\
     h = Some (json_answer 200 (response_doc (match r with Ok resp => resp | Err e => handleProcessingError e end)))) \/
  (router f' = router f /\ sessions f' = sessions f /\
   (h = Some (sendHTTPError 405 "method not allowed") /\ q_method q <> "POST"%string \/
    h = Some (sendHTTPError 401 "unauthorized") /\ is_ok (fst (Auth.Authenticate (q_Authorization q) t (auth f))) = false \/
    h = Some (sendHTTPError 400 "invalid request body") /\ (q_complete q = false \/ MaxRequestSize (config f) < zlen (q_body q)) \/
    (exists e, unwrap (q_body q) = Err e /\ h = Some (sendJSONResponse 200 (handleProcessingError e))) \/
    h = None /\ (fst (Auth.Authenticate (q_Authorization q) t (auth f)) = Err Auth.Panicked \/
                 exists c, fst (Auth.Authenticate (q_Authorization q) t (auth f)) = Ok c /\
                   (Auth.ExpiresAt c = None \/ Sessions.sessions (sessions f) = None)))).
Proof.
  unfold handleRequest. case_bool_decide as Hm; cbn [negb]; [|right; split_and!; [done..|by left]].
  destruct (Auth.Authenticate (q_Authorization q) t (auth f)) as [[c|e] a] eqn:Ea.
  2:{ destruct e; right; split_and!; try done; try (by right; left). do 4 right. split; [done|by left]. }
  cbn [set_state config]. destruct (Z.ltb_spec (MaxRequestSize (config f)) (zlen (q_body q))) as [Hl|Hl]; cbn [orb].
  { right. split_and!; [done..|]. right; right; left. split; [done|by right]. }
  destruct (q_complete q) eqn:Eq; cbn [negb]; [|right; split_and!; [done..|]; right; right; left; split; [done|by left]].
  unfold processRequest. destruct (unwrap (q_body q)) as [[req ns]|e] eqn:Eu.
  2:{ right. split_and!; [done..|]. right; right; right; left. eauto. }
  cbn [set_state sessions auth router].
  destruct (Sessions.CreateSession (Auth.session_claims c) id now now (sessions f)) as [[p|e] ss] eqn:Es.
  - destruct (created _ _ _ _ _ _ Es) as (-> & s & Hs & Hid & Hu & He). rewrite Hs.
    destruct (RouteRequest (WithValue CommonKey s []) req ns (router f)) as [[resp|e] rt] eqn:Er; left; [exists (Ok resp)|exists (Err e)];
      (split_and!; [|done..]); exists c, a, req, ns, s; by rewrite Es.
  - assert (e = Sessions.Panicked) as ->.
    { revert Es. unfold Sessions.CreateSession. repeat case_match; congruence. }
    right. split_and!; [done..|]. do 4 right. split; [done|]. right. exists c. split; [done|].
    revert Es. unfold Sessions.CreateSession. cbn. destruct (Auth.ExpiresAt c); [|by left].
    destruct (Sessions.sessions (sessions f)); [done|by right].
Qed.

End Http.

(** *** A POST *)

#[local] Existing Instance Toy.json.
#[local] Existing Instance Auth.Lenient_provider.

Definition sample_frontend : Frontend (P := Auth.Lenient) (R := EchoRouter) :=
  CreateHTTPFrontend (mkHttpConfig "" 0 "" 0 0 0 0 0) (Auth.session_token "alice" (100 * Second)) Sessions.CreateInMemorySessionStore (mkEcho []).
Definition sample_post : httpRequest :=
  mkHttpReq "POST" "Bearer x"
    (Toy.print (wire_doc (mkWireMessage (JString "r1") "2024" "client" "k8s" JNull "") (request_doc Toy.call))) true.

Lemma http_routes_authenticated_witness :
  exists h f', handleRequest sample_post (Auth.at_once 1) "s1" 1 sample_frontend = (h, f') /\
    seen (router f') = [(Some "alice"%string, "k8s"%string)] /\
    h = Some (json_answer 200 (response_doc (mkResponse "2.0" (JString "tools/call") None (JString "r1")))) /\
    exists r, routed sample_post (Auth.at_once 1) "s1" 1 sample_frontend f' r.
Proof.
  pose proof (http_routes_authenticated sample_post (Auth.at_once 1) "s1" 1 sample_frontend) as H.
  assert (seen (router (snd (handleRequest sample_post (Auth.at_once 1) "s1" 1 sample_frontend))) = [(Some "alice"%string, "k8s"%string)] /\
          fst (handleRequest sample_post (Auth.at_once 1) "s1" 1 sample_frontend)
          = Some (json_answer 200 (response_doc (mkResponse "2.0" (JString "tools/call") None (JString "r1"))))) as Hc by (split; vm_compute; reflexivity).
  destruct (handleRequest sample_post (Auth.at_once 1) "s1" 1 sample_frontend) as [h f'] eqn:E. exists h, f'. cbn [fst snd] in Hc.
  destruct Hc as [Hs Hh].
  split_and!; [done|done|done|]. destruct H as [(r & Hr & _)|(Hr & _)]; [by exists r|].
  exfalso. rewrite Hr in Hs. by vm_compute in Hs.
Defined.

(** The error to a failed request does not carry its id, so the client cannot match it. *)
Example error_without_id :
  fst (handleRequest (mkHttpReq "POST" "Bearer x"
    (Toy.print (wire_doc (mkWireMessage (JString "r1") "" "" "" JNull "") JNull)) true) (Auth.at_once 1) "s1" 1 sample_frontend)
  = Some (json_answer 200 (response_doc (mkResponse "2.0" JNull (Some (mkMcpError (-32603) "VALIDATION: missing MCP payload" JNull)) JNull))).
Proof. vm_compute. reflexivity. Qed.

(** Nothing removes the session of a request: a client that repeats it leaves one session each time. *)
Example sessions_accumulate :
  let f1 := snd (handleRequest sample_post (Auth.at_once 1) "s1" 1 sample_frontend) in
  let f2 := snd (handleRequest sample_post (Auth.at_once 2) "s2" 2 f1) in
  let f3 := snd (handleRequest sample_post (Auth.at_once 3) "s3" 3 f2) in
  Sessions.GetStats 4 (sessions f3) = (3, 3, 0).
Proof. vm_compute. reflexivity. Qed.

End HttpFrontend.
