(* ===== verification/Streams.v ===== *)
(** * Connections of the gateway's frontends

    The state that the SSE and the WebSocket frontend keep in the same way
    ([services/gateway/internal/frontends/sse/frontend.go] and websocket/frontend.go): connections with a buffered
    channel, the registry of connections by session id, their number, the shutdown.  Here are the atomic
    commands of their goroutines and the discipline that both follow; the goroutines are the programs of
    [SseFrontend] and [WsFrontend]. *)
From S2P Require Import Prelude GoIO GoStrings Wire Mcp RateLimit Session Auth Server Transport Frontends Goroutines.
#[local] Open Scope Z_scope.

Module Streams.
Import Frontends.

#[export] Instance RateLimitConfig_eq_dec : EqDecision GwLimit.RateLimitConfig.
Proof. solve_decision. Defined.
#[export] Instance Session_eq_dec : EqDecision Sessions.Session.
Proof. solve_decision. Defined.

(** ** State *)

(** A connection; [c_closed] is set by the first Close, which cancels its context and closes its channel. *)
Record conn := mkConn { c_session : Sessions.Session; c_ip : string; c_closed : bool }.

(** Connections, the registry, the readers' side of its lock, and whether Stop has begun to close connections. *)
Record Table := mkTable {
  conns : gmap nat conn; next_conn : nat; registry : gmap string nat; rlocks : gset nat; closing : bool }.

(** What the connections hold and have written, on whose behalf the router answered, what clients sent. *)
Record Log := mkLog {
  bufs : gmap nat (list string); outs : gmap nat (list string);
  identities : list string; granted : list (string * Response); received : list (nat * string) }.

(** The counters by IP address: a map of pointers. *)
Record IpCounts := mkIps { ip_map : gmap string nat; ip_counts : gmap nat Z; next_ip : nat }.

Record State := mkState {
  table : Table; log : Log; connCount : Z; metrics : FrontendMetrics; running : bool; shutdown : bool;
  sessions : Sessions.MemoryManager; used : gset string; ips : IpCounts }.

Definition set_table (T : Table) (s : State) : State :=
  mkState T (log s) (connCount s) (metrics s) (running s) (shutdown s) (sessions s) (used s) (ips s).
Definition set_log (L : Log) (s : State) : State :=
  mkState (table s) L (connCount s) (metrics s) (running s) (shutdown s) (sessions s) (used s) (ips s).
Definition set_count (n : Z) (s : State) : State :=
  mkState (table s) (log s) n (metrics s) (running s) (shutdown s) (sessions s) (used s) (ips s).
Definition set_metrics (m : FrontendMetrics) (s : State) : State :=
  mkState (table s) (log s) (connCount s) m (running s) (shutdown s) (sessions s) (used s) (ips s).
Definition set_flags (r d : bool) (s : State) : State :=
  mkState (table s) (log s) (connCount s) (metrics s) r d (sessions s) (used s) (ips s).
Definition set_sessions (ss : Sessions.MemoryManager) (u : gset string) (s : State) : State :=
  mkState (table s) (log s) (connCount s) (metrics s) (running s) (shutdown s) ss u (ips s).
Definition set_ips (i : IpCounts) (s : State) : State :=
  mkState (table s) (log s) (connCount s) (metrics s) (running s) (shutdown s) (sessions s) (used s) i.

(** ** Commands *)

Inductive sendres := Sent | SawDone | TimedOut | ClosedPanic.
Inductive recvres := RMsg (d : string) | RClosed | RDone | RShutdown | RTick.
Inductive netres := NText (data : string) | NOther | NErr.
Inductive created := Created (s : Sessions.Session) | NotCreated | CreatePanic.
#[export] Instance sendres_eq_dec : EqDecision sendres.
Proof. solve_decision. Defined.
#[export] Instance netres_eq_dec : EqDecision netres.
Proof. solve_decision. Defined.

(** A request that reaches the frontend. *)
Record hreq := mkHreq { h_path : string; h_method : string; h_auth : string; h_body : string; h_complete : bool; h_ip : string }.

Inductive cmd : Type -> Type :=
(* the HTTP server around the handlers *)
| Accept : cmd hreq
| Reply (code : Z) : cmd unit
| Authenticate (header : string) : cmd (result Auth.AuthError Auth.Claims)
| CreateSession (claims : Auth.Claims) : cmd created
| Upgrade : cmd bool
(* connections and their registry *)
| LoadCount : cmd Z
| AddCount (d : Z) : cmd unit
| Metric (fn : FrontendMetrics -> FrontendMetrics) : cmd unit
| NewConn (sess : Sessions.Session) (ip : string) : cmd nat
| Register (id : string) (c : nat) : cmd unit
| Remove (id : string) : cmd (option nat)
| FindUser (user : string) : cmd (option (nat * Sessions.Session))
| RLock : cmd nat
| RUnlock (ticket : nat) : cmd unit
| Entries : cmd (list nat)
| TakeAll : cmd (list nat)
| CloseConn (c : nat) : cmd unit
(* channels and the network *)
| SendSel (watch : bool) (c : nat) (d : string) : cmd sendres
| TrySend (c : nat) (d : string) : cmd bool
| Recv (ticks : bool) (c : nat) : cmd recvres
| Output (c : nat) (d : string) : cmd bool
| Ping (c : nat) : cmd bool
| Poll (c : nat) : cmd bool
| ReadNet (c : nat) : cmd netres
| SessionOf (c : nat) : cmd Sessions.Session
(* the router, the clock, the shutdown *)
| Route (who : string) (ctx : context) (req : Request) (ns : string) : cmd (result string Response)
| ClearBackendSessions (id : string) : cmd unit
| Now : cmd string
| KeepTick : cmd bool
| Running : cmd bool
| BeginStop : cmd bool
| CloseShutdown : cmd unit
| Crash : cmd unit
(* counters by address *)
| IpLoadOrStore (ip : string) : cmd nat
| IpLoad (ip : string) : cmd (option nat)
| IpAdd (counter : nat) (d : Z) : cmd Z
| IpDelete (ip : string) : cmd unit.

(** *** The table *)

Definition values (T : Table) : list nat := map snd (map_to_list (registry T)).

Definition t_new (sess : Sessions.Session) (ip : string) (T : Table) : Table :=
  mkTable (<[next_conn T := mkConn sess ip false]> (conns T)) (S (next_conn T)) (registry T) (rlocks T) (closing T).
Definition t_register (id : string) (c : nat) (T : Table) : Table :=
  mkTable (conns T) (next_conn T) (<[id := c]> (registry T)) (rlocks T) (closing T).
Definition t_remove (id : string) (T : Table) : Table :=
  mkTable (conns T) (next_conn T) (delete id (registry T)) (rlocks T) (closing T).
Definition t_rlocks (r : gset nat) (T : Table) : Table := mkTable (conns T) (next_conn T) (registry T) r (closing T).
Definition t_closing (T : Table) : Table := mkTable (conns T) (next_conn T) (registry T) (rlocks T) true.
Definition t_close (c : nat) (T : Table) : Table :=
  mkTable (alter (fun k => mkConn (c_session k) (c_ip k) true) c (conns T)) (next_conn T) (registry T) (rlocks T) (closing T).

Definition is_closed (c : nat) (T : Table) : bool := match conns T !! c with Some k => c_closed k | None => false end.

(** *** The log *)

Definition buf (c : nat) (L : Log) : list string := default [] (bufs L !! c).
Definition out (c : nat) (L : Log) : list string := default [] (outs L !! c).
Definition l_buf (c : nat) (b : list string) (L : Log) : Log := mkLog (<[c := b]> (bufs L)) (outs L) (identities L) (granted L) (received L).
Definition l_out (c : nat) (d : string) (L : Log) : Log := mkLog (bufs L) (<[c := out c L ++ [d]]> (outs L)) (identities L) (granted L) (received L).
Definition l_identity (who : string) (L : Log) : Log := mkLog (bufs L) (outs L) (identities L ++ [who]) (granted L) (received L).
Definition l_grant (who : string) (r : Response) (L : Log) : Log := mkLog (bufs L) (outs L) (identities L) (granted L ++ [(who, r)]) (received L).
Definition l_receive (c : nat) (d : string) (L : Log) : Log := mkLog (bufs L) (outs L) (identities L) (granted L) (received L ++ [(c, d)]).

Section Commands.

(** The capacity of the channels. *)
Variable cap : nat.

Definition room (c : nat) (s : State) : bool := (length (buf c (log s)) <? cap)%nat.

Definition exec (X : Type) (c : cmd X) : X -> State -> option State :=
  match c in cmd X return X -> State -> option State with
  | Accept | Reply _ | Ping _ | Now | ClearBackendSessions _ | Upgrade => fun _ s => Some s
  | Authenticate _ => fun x s =>
      match x with Ok claims => Some (set_log (l_identity (Auth.Subject claims) (log s)) s) | Err _ => Some s end
  | CreateSession claims => fun x s =>
      match x with
      | Created sess =>
          match Sessions.CreateSession (Auth.session_claims claims) (Sessions.ID sess) (Sessions.CreatedAt sess) (Sessions.UpdatedAt sess) (sessions s) with
          | (Ok p, ss) =>
              if bool_decide (Sessions.heap ss !! p = Some sess) && negb (bool_decide (Sessions.ID sess ∈ used s))
              then Some (set_sessions ss ({[Sessions.ID sess]} ∪ used s) (set_log (l_identity (Sessions.ID sess) (log s)) s)) else None
          | _ => None
          end
      | NotCreated => None
      | CreatePanic => when (negb (is_ok (fst (Sessions.CreateSession (Auth.session_claims claims) "" 0 0 (sessions s))))) s
      end
  | LoadCount => fun x s => when (x =? connCount s) s
  | AddCount d => fun _ s => Some (set_count (i64_add (connCount s) d) s)
  | Metric fn => fun _ s => Some (set_metrics (fn (metrics s)) s)
  | NewConn sess ip => fun x s => if bool_decide (x = next_conn (table s)) then Some (set_table (t_new sess ip (table s)) s) else None
  | Register id c => fun _ s => if bool_decide (rlocks (table s) = ∅) then Some (set_table (t_register id c (table s)) s) else None
  | Remove id => fun x s =>
      if bool_decide (rlocks (table s) = ∅) && bool_decide (x = registry (table s) !! id) then Some (set_table (t_remove id (table s)) s) else None
  | FindUser user => fun x s =>
      match x with
      | Some (c, sess) =>
          match conns (table s) !! c with
          | Some k => when (bool_decide (c ∈ values (table s)) && bool_decide (c_session k = sess) && bool_decide (Sessions.User sess = user)) s
          | None => None
          end
      | None => when (forallb (fun c => match conns (table s) !! c with Some k => negb (bool_decide (Sessions.User (c_session k) = user)) | None => false end)
                        (values (table s))) s
      end
  | RLock => fun x s =>
      if bool_decide (x ∈ rlocks (table s)) then None else Some (set_table (t_rlocks ({[x]} ∪ rlocks (table s)) (table s)) s)
  | RUnlock x => fun _ s => Some (set_table (t_rlocks (rlocks (table s) ∖ {[x]}) (table s)) s)
  | Entries => fun x s => when (bool_decide (x ≡ₚ values (table s))) s
  | TakeAll => fun x s =>
      if bool_decide (rlocks (table s) = ∅) && bool_decide (x ≡ₚ values (table s)) then Some (set_table (t_closing (table s)) s) else None
  | CloseConn c => fun _ s => Some (set_table (t_close c (table s)) s)
  | SendSel watch c d => fun x s =>
      match x with
      | Sent => if negb (is_closed c (table s)) && room c s then Some (set_log (l_buf c (buf c (log s) ++ [d]) (log s)) s) else None
      | SawDone => when (watch && (is_closed c (table s) || shutdown s)) s
      | TimedOut => Some s
      | ClosedPanic => when (is_closed c (table s)) s
      end
  | TrySend c d => fun x s =>
      if x then (if room c s then Some (set_log (l_buf c (buf c (log s) ++ [d]) (log s)) s) else None) else when (negb (room c s)) s
  | Recv ticks c => fun x s =>
      match x, buf c (log s) with
      | RMsg d, d' :: rest => if bool_decide (d = d') then Some (set_log (l_buf c rest (log s)) s) else None
      | RMsg _, [] => None
      | RClosed, [] => when (is_closed c (table s)) s
      | RClosed, _ :: _ => None
      | RDone, _ => when (is_closed c (table s) || shutdown s) s
      | RShutdown, _ => when (shutdown s) s
      | RTick, _ => when ticks s
      end
  | Output c d => fun x s => if x then Some (set_log (l_out c d (log s)) s) else Some s
  | Poll c => fun x s => when (Bool.eqb x (is_closed c (table s) || shutdown s)) s
  | ReadNet c => fun x s =>
      match x with
      | NText data => if is_closed c (table s) then None else Some (set_log (l_receive c data (log s)) s)
      | NOther => when (negb (is_closed c (table s))) s
      | NErr => Some s
      end
  | SessionOf c => fun x s => when (bool_decide (c_session <$> conns (table s) !! c = Some x)) s
  | Route who _ _ _ => fun x s =>
      match x with Ok r => Some (set_log (l_grant who r (log s)) s) | Err _ => Some s end
  | KeepTick => fun x s => when (x || shutdown s) s
  | Running => fun x s => when (Bool.eqb x (running s)) s
  | BeginStop => fun x s => if Bool.eqb x (running s) then Some (set_flags false (shutdown s) s) else None
  | CloseShutdown => fun _ s => Some (set_flags (running s) true s)
  | Crash => fun _ _ => None
  | IpLoadOrStore ip => fun x s =>
      match ip_map (ips s) !! ip with
      | Some p => when (bool_decide (x = p)) s
      | None =>
          if bool_decide (x = next_ip (ips s))
          then Some (set_ips (mkIps (<[ip := x]> (ip_map (ips s))) (<[x := 0]> (ip_counts (ips s))) (S x)) s) else None
      end
  | IpLoad ip => fun x s => when (bool_decide (x = ip_map (ips s) !! ip)) s
  | IpAdd p d => fun x s =>
      let n := i64_add (default 0 (ip_counts (ips s) !! p)) d in
      if x =? n then Some (set_ips (mkIps (ip_map (ips s)) (<[p := n]> (ip_counts (ips s))) (next_ip (ips s))) s) else None
  | IpDelete ip => fun _ s => Some (set_ips (mkIps (delete ip (ip_map (ips s))) (ip_counts (ips s)) (next_ip (ips s))) s)
  end.

(** A send on a closed channel panics; in a select with other cases the choice is [ClosedPanic]. *)
Definition panics (X : Type) (c : cmd X) (s : State) : bool :=
  match c with
  | TrySend c _ => is_closed c (table s)
  | Crash => true
  | _ => false
  end.

End Commands.

Definition fresh_state : State :=
  mkState (mkTable ∅ 0 ∅ ∅ false) (mkLog ∅ ∅ [] [] []) 0 (set_running true no_metrics) true false
    Sessions.CreateInMemorySessionStore ∅ (mkIps ∅ ∅ 0).

(** ** Executable runs

    What the environment answers in a run: the request, its user and the next session id, what a client sends, the
    router's answer, whether a write fails.  Maps are read in the order of their keys. *)
Record script := mkScript { a_req : hreq; a_user : string; a_id : string; a_found : nat; a_data : string; a_reply : Response; a_fail : bool }.

Definition script_claims (user : string) : Auth.Claims :=
  Auth.mkClaims user "" [] (Some (1000 * Second)) None None "" [] (GwLimit.mkRateLimitConfig 0 0).

Definition answer (cap : nat) (a : script) (s : State) (X : Type) (c : cmd X) : X :=
  match c in cmd X return X with
  | Accept => a_req a
  | Authenticate _ => Ok (script_claims (a_user a))
  | CreateSession claims =>
      let '(_, ss) := Sessions.CreateSession (Auth.session_claims claims) (a_id a) 1 1 (sessions s) in
      match Sessions.heap ss !! Sessions.next (sessions s) with Some sess => Created sess | None => NotCreated end
  | Upgrade | KeepTick => true
  | LoadCount => connCount s
  | NewConn _ _ => next_conn (table s)
  | Remove id => registry (table s) !! id
  | FindUser _ => (fun k => (a_found a, c_session k)) <$> conns (table s) !! a_found a
  | RLock => 0%nat
  | Entries | TakeAll => values (table s)
  | SendSel _ c _ => if is_closed c (table s) then ClosedPanic else if room cap c s then Sent else TimedOut
  | TrySend c _ => room cap c s
  | Recv _ c => match buf c (log s) with d :: _ => RMsg d | [] => if is_closed c (table s) then RClosed else RDone end
  | Output _ _ | Ping _ => negb (a_fail a)
  | Poll c => is_closed c (table s) || shutdown s
  | ReadNet _ => if a_fail a then NErr else NText (a_data a)
  | SessionOf c => default (Sessions.new_session (Auth.session_claims (script_claims "")) 0 "" 0 0) (c_session <$> conns (table s) !! c)
  | Route _ _ _ _ => Ok (a_reply a)
  | Now => EmptyString
  | Running | BeginStop => running s
  | IpLoadOrStore ip => default (next_ip (ips s)) (ip_map (ips s) !! ip)
  | IpLoad ip => ip_map (ips s) !! ip
  | IpAdd p d => i64_add (default 0 (ip_counts (ips s) !! p)) d
  | Reply _ | AddCount _ | Metric _ | Register _ _ | RUnlock _ | CloseConn _ | ClearBackendSessions _ | CloseShutdown | Crash | IpDelete _ => tt
  end.

(** [n] steps of one goroutine. *)
Definition moves (cap n t : nat) (a : script) : list (nat * (State -> forall X, cmd X -> X)) := replicate n (t, answer cap a).

End Streams.
