(* ===== verification/StreamsTheorems.v ===== *)
(** * The discipline of the frontends' goroutines

    What the goroutines of [SseFrontend] and [WsFrontend] own and know, the invariant of the state they share, and
    that every command of [Streams] preserves it: the proof rule of [Goroutines] for both frontends. *)
From S2P Require Import Prelude GoIO GoStrings Wire Mcp RateLimit Session Auth Server Transport Frontends Goroutines Streams.
#[local] Open Scope Z_scope.

Module StreamsTheorems.
Import Frontends Streams.

(** ** What a goroutine owns and knows

    [own]: the connection it serves, which only it removes, with its session id and whether it is registered;
    [sess]: a session without connection; [holds]: its ticket of the registry's lock and connections that are
    registered while it holds it; [stop]: it runs Stop, and whether it closes connections; [saw]: connections are
    being closed; then the sessions of connections and the parts of the logs it knows; [owes]: what it must
    still add to the number of connections. *)
Record env := mkEnv {
  own : option (nat * string * bool); sess : option string; holds : option (nat * list nat); stop : option bool; saw : bool;
  knows : list (nat * Sessions.Session); who : list string; answered : list (string * Response); read : list (nat * string);
  got : list (nat * string); owes : Z }.

Definition nothing : env := mkEnv None None None None false [] [] [] [] [] 0.

Definition set_own o e := mkEnv o (sess e) (holds e) (stop e) (saw e) (knows e) (who e) (answered e) (read e) (got e) (owes e).
Definition set_sess o e := mkEnv (own e) o (holds e) (stop e) (saw e) (knows e) (who e) (answered e) (read e) (got e) (owes e).
Definition set_holds o e := mkEnv (own e) (sess e) o (stop e) (saw e) (knows e) (who e) (answered e) (read e) (got e) (owes e).
Definition set_stop o e := mkEnv (own e) (sess e) (holds e) o (saw e) (knows e) (who e) (answered e) (read e) (got e) (owes e).
Definition set_saw e := mkEnv (own e) (sess e) (holds e) (stop e) true (knows e) (who e) (answered e) (read e) (got e) (owes e).
Definition add_knows k e := mkEnv (own e) (sess e) (holds e) (stop e) (saw e) (k :: knows e) (who e) (answered e) (read e) (got e) (owes e).
Definition add_who w e := mkEnv (own e) (sess e) (holds e) (stop e) (saw e) (knows e) (w :: who e) (answered e) (read e) (got e) (owes e).
Definition add_answered a e := mkEnv (own e) (sess e) (holds e) (stop e) (saw e) (knows e) (who e) (a :: answered e) (read e) (got e) (owes e).
Definition add_read a e := mkEnv (own e) (sess e) (holds e) (stop e) (saw e) (knows e) (who e) (answered e) (a :: read e) (got e) (owes e).
Definition add_got a e := mkEnv (own e) (sess e) (holds e) (stop e) (saw e) (knows e) (who e) (answered e) (read e) (a :: got e) (owes e).
Definition add_owes d e := mkEnv (own e) (sess e) (holds e) (stop e) (saw e) (knows e) (who e) (answered e) (read e) (got e) (owes e + d).

Section Discipline.
Variable cap : nat.

(** [early]: connections are closed before they are removed, as the SSE frontend does; [key]: for whom the answers on
    a connection are; which texts may be sent, and how a text is written. *)
Variable early : bool.
Variable key : Sessions.Session -> string.
Variable notice : string -> Prop.
Variable renders : Response -> string -> Prop.
Variable complains : string -> string -> Prop.
Variable frame : string -> string.

(** *** Commands *)

Definition may_send (c : nat) (d : string) (e : env) : Prop :=
  notice d \/ (exists s r, (c, s) ∈ knows e /\ (key s, r) ∈ answered e /\ renders r d) \/
  (exists id reg data, own e = Some (c, id, reg) /\ (c, data) ∈ read e /\ complains data d).

Definition pre (X : Type) (c : cmd X) (e : env) : Prop :=
  match c with
  | NewConn s _ => sess e = Some (Sessions.ID s) /\ own e = None
  | Register id c => own e = Some (c, id, false)
  | Remove id => exists c, own e = Some (c, id, true)
  | RLock => holds e = None
  | RUnlock tk => exists l, holds e = Some (tk, l)
  | Entries => is_Some (holds e)
  | TakeAll => stop e = Some false
  | CloseConn c => stop e = Some true \/ exists id reg, own e = Some (c, id, reg) /\ (early = true \/ reg = false)
  | SendSel _ c d => may_send c d e /\
      (early = true \/ (exists id, own e = Some (c, id, true)) \/ (stop e = Some false /\ exists tk l, holds e = Some (tk, l) /\ c ∈ l))
  | TrySend _ d => early = true /\ notice d
  | Output c d => exists ev, (c, ev) ∈ got e /\ d = frame ev
  | Route w _ _ _ => w ∈ who e
  | Crash => early = false /\ saw e = true
  | _ => True
  end.

Definition valid (X : Type) (c : cmd X) : X -> env -> Prop :=
  match c in cmd X return X -> env -> Prop with
  | Remove id => fun x e => exists c, own e = Some (c, id, true) /\ x = Some c
  | SendSel _ c _ => fun x e => x = ClosedPanic -> early = true \/ stop e <> Some false
  | FindUser user => fun x _ => forall c s, x = Some (c, s) -> Sessions.User s = user
  | SessionOf c => fun x e => forall id reg, own e = Some (c, id, reg) -> Sessions.ID x = id
  | _ => fun _ _ => True
  end.

Definition post (X : Type) (c : cmd X) : X -> env -> env :=
  match c in cmd X return X -> env -> env with
  | Authenticate _ => fun x e => match x with Ok claims => add_who (Auth.Subject claims) e | Err _ => e end
  | CreateSession _ => fun x e => match x with Created s => add_who (Sessions.ID s) (set_sess (Some (Sessions.ID s)) e) | _ => e end
  | AddCount d => fun _ e => add_owes (- d) e
  | NewConn s _ => fun x e => add_knows (x, s) (set_own (Some (x, Sessions.ID s, false)) (set_sess None e))
  | Register id c => fun _ e => add_owes 1 (set_own (Some (c, id, true)) e)
  | Remove id => fun x e => match x with Some c => add_owes (-1) (set_own (Some (c, id, false)) e) | None => e end
  | FindUser _ => fun x e => match x with Some k => add_knows k e | None => e end
  | SessionOf c => fun x e => add_knows (c, x) e
  | RLock => fun x e => set_holds (Some (x, [])) e
  | RUnlock _ => fun _ e => set_holds None e
  | Entries => fun x e => match holds e with Some (tk, _) => set_holds (Some (tk, x)) e | None => e end
  | TakeAll => fun _ e => set_stop (Some true) e
  | CloseConn c => fun _ e =>
      if early then e
      else match own e with Some (c', _, _) => if bool_decide (c' = c) then set_own None e else e | None => e end
  | SendSel _ _ _ => fun x e => match x with ClosedPanic => if early then e else set_saw e | _ => e end
  | Recv _ c => fun x e => match x with RMsg d => add_got (c, d) e | _ => e end
  | ReadNet c => fun x e => match x with NText d => add_read (c, d) e | _ => e end
  | Route w _ _ _ => fun x e => match x with Ok r => add_answered (w, r) e | Err _ => e end
  | BeginStop => fun x e => if x then set_stop (Some false) e else e
  | _ => fun _ e => e
  end.

(** What a started goroutine gets: at most the connection, which its starter then gives up. *)
Record split (e ec e1 : env) : Prop := {
  sp_child : ec = mkEnv (own ec) None None None (saw e) (knows e) (who e) (answered e) (read e) (got e) 0;
  sp_rest : e1 = set_own (own e1) e;
  sp_own : (own ec = None /\ own e1 = own e) \/ (own ec = own e /\ own e1 = None);
}.

Definition exit_ok (e : env) : Prop := owes e = 0.

Definition crash (X : Type) (c : cmd X) : bool := match c with Crash => negb early | TrySend _ _ => early | _ => false end.

(** *** The invariant *)

Definition permitted (T : Table) (L : Log) (c : nat) (d : string) : Prop :=
  notice d \/ exists k, conns T !! c = Some k /\
    ((exists r, (key (c_session k), r) ∈ granted L /\ renders r d) \/ (exists data, (c, data) ∈ received L /\ complains data d)).

Record global (s : State) : Prop := {
  g_fresh c : (next_conn (table s) <= c)%nat -> conns (table s) !! c = None;
  g_registry id c : registry (table s) !! id = Some c -> exists k, conns (table s) !! c = Some k /\ Sessions.ID (c_session k) = id /\
    (early = false -> c_closed k = true -> closing (table s) = true);
  g_used c k : conns (table s) !! c = Some k -> Sessions.ID (c_session k) ∈ used s;
  g_unique c c' k k' : conns (table s) !! c = Some k -> conns (table s) !! c' = Some k' -> Sessions.ID (c_session k) = Sessions.ID (c_session k') -> c = c';
  g_running : running s = true -> closing (table s) = false;
  g_buf c d : d ∈ buf c (log s) -> permitted (table s) (log s) c d;
  g_out c d : d ∈ out c (log s) -> exists ev, d = frame ev /\ permitted (table s) (log s) c ev;
  g_granted w r : (w, r) ∈ granted (log s) -> w ∈ identities (log s);
}.

Record task_ok (s : State) (e : env) : Prop := {
  t_own c id reg : own e = Some (c, id, reg) -> exists k, conns (table s) !! c = Some k /\ Sessions.ID (c_session k) = id /\
    registry (table s) !! id = (if reg then Some c else None) /\ (early = false -> c_closed k = true -> closing (table s) = true);
  t_sess id : sess e = Some id -> id ∈ used s /\ forall c k, conns (table s) !! c = Some k -> Sessions.ID (c_session k) <> id;
  t_holds tk l : holds e = Some (tk, l) -> tk ∈ rlocks (table s) /\ forall c, c ∈ l -> exists id, registry (table s) !! id = Some c;
  t_stop b : stop e = Some b -> running s = false /\ closing (table s) = b;
  t_saw : saw e = true -> closing (table s) = true;
  t_knows c x : (c, x) ∈ knows e -> c_session <$> conns (table s) !! c = Some x;
  t_who w : w ∈ who e -> w ∈ identities (log s);
  t_answered a : a ∈ answered e -> a ∈ granted (log s);
  t_read a : a ∈ read e -> a ∈ received (log s);
  t_got c d : (c, d) ∈ got e -> permitted (table s) (log s) c d;
}.

(** What two goroutines cannot both have. *)
Record compat (e f : env) : Prop := {
  c_own c id r id' r' : own e = Some (c, id, r) -> own f = Some (c, id', r') -> False;
  c_sess id : sess e = Some id -> sess f = Some id -> False;
  c_holds tk l l' : holds e = Some (tk, l) -> holds f = Some (tk, l') -> False;
  c_stop : is_Some (stop e) -> is_Some (stop f) -> False;
}.

#[local] Notation total := (total_of owes).

Record Inv (s : State) (es : gmap nat env) : Prop := {
  i_global : global s;
  i_task t e : es !! t = Some e -> task_ok s e;
  i_compat t t' e f : es !! t = Some e -> es !! t' = Some f -> t <> t' -> compat e f;
  i_count : connCount s = wrap_s 64 (Z.of_nat (size (registry (table s))) - total es);
}.

Lemma compat_sym e f : compat e f -> compat f e.
Proof. intros [H1 H2 H3 H4]. split; eauto. Qed.

(** A command changes the shared state, and what its goroutine has; the others keep theirs. *)
Lemma inv_step s es t e s' e' :
  Inv s es -> es !! t = Some e -> global s' -> task_ok s' e' ->
  (forall f, task_ok s f -> compat e f -> task_ok s' f) -> (forall f, task_ok s f -> compat e f -> compat e' f) ->
  connCount s' = wrap_s 64 (Z.of_nat (size (registry (table s'))) - (total es - owes e + owes e')) ->
  Inv s' (<[t := e']> es).
Proof.
  intros Hi He Hg Ht Hf Hc Hn. split; [done| | |by rewrite (total_of_update owes es t e e' He)].
  - intros u f Hu. apply lookup_insert_Some in Hu as [[<- <-]|[Hne Hu]]; [done|]. apply Hf; [by eapply i_task|by eapply (i_compat s es)].
  - intros u u' f f' Hu Hu' Hne. apply lookup_insert_Some in Hu as [[<- <-]|[Hn1 Hu]]; apply lookup_insert_Some in Hu' as [[<- <-]|[Hn2 Hu']]; try done.
    + apply Hc; [by eapply i_task|by eapply (i_compat s es)].
    + apply compat_sym, Hc; [by eapply i_task|by eapply (i_compat s es)].
    + by eapply (i_compat s es Hi u u').
Qed.

(** *** Commands that leave the registry alone *)

(** The logs grow, the table stays. *)
Record grows (s s' : State) : Prop := {
  gr_table : table s' = table s;
  gr_running : running s' = running s;
  gr_used : used s ⊆ used s';
  gr_identities w : w ∈ identities (log s) -> w ∈ identities (log s');
  gr_granted a : a ∈ granted (log s) -> a ∈ granted (log s');
  gr_received a : a ∈ received (log s) -> a ∈ received (log s');
}.

Lemma permitted_grows s s' c d : grows s s' -> permitted (table s) (log s) c d -> permitted (table s') (log s') c d.
Proof.
  intros Hg [Hn|(k & Hk & Hd)]; [by left|right]. exists k. rewrite (gr_table _ _ Hg). split; [done|].
  destruct Hd as [(r & Hr & Hx)|(data & Hr & Hx)]; [left; exists r|right; exists data]; split; try done; by apply Hg.
Qed.

Lemma task_grows s s' e : grows s s' -> task_ok s e -> task_ok s' e.
Proof.
  intros Hg Ht. split; rewrite ?(gr_table _ _ Hg), ?(gr_running _ _ Hg); try apply Ht.
  - intros id Hid. destruct (t_sess _ _ Ht id Hid) as [H1 H2]. split; [by apply Hg|done].
  - intros w Hw. by apply Hg, Ht.
  - intros a Ha. by apply Hg, Ht.
  - intros a Ha. by apply Hg, Ht.
  - intros c d Hd. rewrite <- (gr_table _ _ Hg). apply (permitted_grows s); [done|by apply Ht].
Qed.

(** Global facts when only the logs change. *)
Lemma global_grows s s' :
  global s -> grows s s' -> 
  (forall c d, d ∈ buf c (log s') -> permitted (table s') (log s') c d) ->
  (forall c d, d ∈ out c (log s') -> exists ev, d = frame ev /\ permitted (table s') (log s') c ev) ->
  (forall w r, (w, r) ∈ granted (log s') -> w ∈ identities (log s')) -> global s'.
Proof.
  intros Hg Hgr Hb Ho Hr. split; try done; rewrite ?(gr_table _ _ Hgr), ?(gr_running _ _ Hgr); try apply Hg.
  intros c k Hk. by apply Hgr, (g_used _ Hg c).
Qed.

Definition same_logs (L L' : Log) : Prop := bufs L' = bufs L /\ outs L' = outs L /\ granted L' = granted L.

Lemma global_same_logs s s' : global s -> grows s s' -> same_logs (log s) (log s') -> global s'.
Proof.
  intros Hg Hgr (Hb & Ho & Hgn). apply (global_grows s); [done|done|..].
  - intros c d. unfold buf. rewrite Hb. intros Hd. apply (permitted_grows s); [done|by apply Hg].
  - intros c d. unfold out. rewrite Ho. intros Hd. destruct (g_out _ Hg c d Hd) as (ev & -> & Hp). exists ev. split; [done|]. by apply (permitted_grows s).
  - intros w r. rewrite Hgn. intros Hw. by apply Hgr, (g_granted _ Hg w r).
Qed.

(** What a goroutine holds is the same. *)
Definition same_holdings (e e' : env) : Prop := own e' = own e /\ sess e' = sess e /\ holds e' = holds e /\ stop e' = stop e.

Lemma compat_same e e' f : same_holdings e e' -> compat e f -> compat e' f.
Proof. intros (H1 & H2 & H3 & H4) [C1 C2 C3 C4]. split; rewrite ?H1, ?H2, ?H3, ?H4; done. Qed.

Lemma inv_grows s es t e s' e' :
  Inv s es -> es !! t = Some e -> grows s s' -> global s' -> task_ok s' e' -> same_holdings e e' -> connCount s' = connCount s -> owes e' = owes e ->
  Inv s' (<[t := e']> es).
Proof.
  intros Hi He Hgr Hg Ht Hh Hc Ho. apply (inv_step s es t e); try done.
  - intros f Hf _. by apply (task_grows s).
  - intros f _ Hf. by apply (compat_same e).
  - rewrite Hc, Ho, (gr_table _ _ Hgr), (i_count _ _ Hi). f_equal. lia.
Qed.

Lemma grows_keep s s' : table s' = table s -> running s' = running s -> used s' = used s -> log s' = log s -> grows s s'.
Proof. intros H1 H2 H3 H4. split; rewrite ?H1, ?H2, ?H3, ?H4; done. Qed.

(** A command without effect on what the discipline speaks of. *)
Lemma inv_keep s es t e s' :
  Inv s es -> es !! t = Some e -> table s' = table s -> running s' = running s -> used s' = used s -> log s' = log s -> connCount s' = connCount s ->
  Inv s' (<[t := e]> es).
Proof.
  intros Hi He H1 H2 H3 H4 H5. apply (inv_grows s es t e); try done.
  - by apply grows_keep.
  - apply (global_same_logs s); [apply Hi|by apply grows_keep|by rewrite H4].
  - apply (task_grows s); [by apply grows_keep|by eapply i_task].
Qed.

(** *** The log *)

Lemma may_send_permitted s e c d : task_ok s e -> may_send c d e -> permitted (table s) (log s) c d.
Proof.
  intros Ht [Hn|[(x & r & Hx & Hr & Hd)|(id & reg & data & Ho & Hr & Hd)]]; [by left|right..].
  - apply (t_knows _ _ Ht), fmap_Some_1 in Hx as (k & Hk & ->). exists k. split; [done|]. left. exists r. split; [by apply Ht|done].
  - destruct (t_own _ _ Ht _ _ _ Ho) as (k & Hk & _). exists k. split; [done|]. right. exists data. split; [by apply Ht|done].
Qed.

Lemma buf_l_buf c c' b L : buf c' (l_buf c b L) = if bool_decide (c' = c) then b else buf c' L.
Proof. unfold buf, l_buf. cbn. case_bool_decide; subst; [by rewrite lookup_insert_eq|by rewrite lookup_insert_ne]. Qed.

Lemma out_l_out c c' d L : out c' (l_out c d L) = if bool_decide (c' = c) then out c L ++ [d] else out c' L.
Proof. unfold out, l_out. cbn. case_bool_decide; subst; [by rewrite lookup_insert_eq|by rewrite lookup_insert_ne]. Qed.

Lemma grows_buf s c b : grows s (set_log (l_buf c b (log s)) s).
Proof. by split. Qed.
Lemma grows_out s c d : grows s (set_log (l_out c d (log s)) s).
Proof. by split. Qed.

Lemma global_buf s c b : global s -> (forall d, d ∈ b -> permitted (table s) (log s) c d) -> global (set_log (l_buf c b (log s)) s).
Proof.
  intros Hg Hb. apply (global_grows s); [done|by split|..].
  - intros c' d. cbn [set_log log]. rewrite buf_l_buf. case_bool_decide; subst; [apply Hb|apply Hg].
  - apply Hg.
  - apply Hg.
Qed.

Lemma inv_buf s es t e c b e' :
  Inv s es -> es !! t = Some e -> (forall d, d ∈ b -> permitted (table s) (log s) c d) ->
  same_holdings e e' -> owes e' = owes e -> task_ok s e' -> Inv (set_log (l_buf c b (log s)) s) (<[t := e']> es).
Proof.
  intros Hi He Hb Hh Ho Ht. apply (inv_grows s es t e); [done|done|apply grows_buf| | |done|done|done].
  - apply global_buf; [apply Hi|done].
  - by apply (task_grows s); [apply grows_buf|].
Qed.

Lemma inv_push s es t e c d :
  Inv s es -> es !! t = Some e -> permitted (table s) (log s) c d -> Inv (set_log (l_buf c (buf c (log s) ++ [d]) (log s)) s) (<[t := e]> es).
Proof.
  intros Hi He Hp. apply (inv_buf s es t e); try done; [|by eapply i_task].
  intros d' [Hd| ->%list_elem_of_singleton]%elem_of_app; [by apply Hi|done].
Qed.

(** The knowledge of a goroutine grows with the log. *)
Lemma task_add_who s e w : task_ok s e -> w ∈ identities (log s) -> task_ok s (add_who w e).
Proof. intros Ht Hw. split; try apply Ht. intros x [->|Hx]%elem_of_cons; [done|by apply Ht]. Qed.
Lemma task_add_answered s e a : task_ok s e -> a ∈ granted (log s) -> task_ok s (add_answered a e).
Proof. intros Ht Hw. split; try apply Ht. intros x [->|Hx]%elem_of_cons; [done|by apply Ht]. Qed.
Lemma task_add_read s e a : task_ok s e -> a ∈ received (log s) -> task_ok s (add_read a e).
Proof. intros Ht Hw. split; try apply Ht. intros x [->|Hx]%elem_of_cons; [done|by apply Ht]. Qed.
Lemma task_add_got s e c d : task_ok s e -> permitted (table s) (log s) c d -> task_ok s (add_got (c, d) e).
Proof. intros Ht Hw. split; try apply Ht. intros c' d' [[= -> ->]|Hx]%elem_of_cons; [done|by apply Ht]. Qed.
Lemma task_add_knows s e c x : task_ok s e -> c_session <$> conns (table s) !! c = Some x -> task_ok s (add_knows (c, x) e).
Proof. intros Ht Hw. split; try apply Ht. intros c' x' [[= -> ->]|Hx]%elem_of_cons; [done|by apply Ht]. Qed.
Lemma task_set_saw s e : task_ok s e -> closing (table s) = true -> task_ok s (set_saw e).
Proof. intros Ht Hc. split; try apply Ht. done. Qed.

(** *** The registry *)

(** Nobody else has what the goroutine has. *)
Lemma other_own e f c id r c' id' r' : compat e f -> own e = Some (c, id, r) -> own f = Some (c', id', r') -> c' <> c.
Proof. intros Hc He Hf ->. by eapply (c_own _ _ Hc). Qed.

Lemma inv_new s es t e x ip :
  Inv s es -> es !! t = Some e -> sess e = Some (Sessions.ID x) -> own e = None ->
  Inv (set_table (t_new x ip (table s)) s)
    (<[t := add_knows (next_conn (table s), x) (set_own (Some (next_conn (table s), Sessions.ID x, false)) (set_sess None e))]> es).
Proof.
  intros Hi He Hs Ho. pose proof (i_global _ _ Hi) as Hg. pose proof (i_task _ _ Hi t e He) as Ht.
  destruct (t_sess _ _ Ht _ Hs) as [Hu Hfr]. set (n := next_conn (table s)).
  assert (conns (table s) !! n = None) as Hn by (apply (g_fresh _ Hg); lia).
  assert (forall c k, conns (table s) !! c = Some k -> c <> n) as Hne by (intros c k Hk ->; congruence).
  assert (registry (table s) !! Sessions.ID x = None) as Hr.
  { destruct (registry (table s) !! Sessions.ID x) as [c|] eqn:E; [|done]. destruct (g_registry _ Hg _ _ E) as (k & Hk & Hid & _). by destruct (Hfr c k Hk). }
  assert (forall c d, permitted (table s) (log s) c d -> permitted (t_new x ip (table s)) (log s) c d) as Hper.
  { intros c d [Hd|(k & Hk & Hd)]; [by left|right; exists k]. cbn. rewrite lookup_insert_ne by (by apply not_eq_sym, (Hne c k)). done. }
  apply (inv_step s es t e); try done.
  - split; cbn.
    + intros c Hc. rewrite lookup_insert_ne by lia. apply Hg. lia.
    + intros id c Hc. destruct (g_registry _ Hg id c Hc) as (k & Hk & Hx). exists k. rewrite lookup_insert_ne; [done|]. by apply not_eq_sym, (Hne c k).
    + intros c k [[<- <-]|[_ Hk]]%lookup_insert_Some; [done|by apply (g_used _ Hg c)].
    + intros c c' k k' Hk Hk' E. apply lookup_insert_Some in Hk as [[<- <-]|[_ Hk]]; apply lookup_insert_Some in Hk' as [[<- <-]|[_ Hk']]; cbn in E; try done.
      * by destruct (Hfr c' k' Hk').
      * by destruct (Hfr c k Hk).
      * by apply (g_unique _ Hg c c' k k').
    + apply Hg.
    + intros c d Hd. by apply Hper, Hg.
    + intros c d Hd. destruct (g_out _ Hg c d Hd) as (ev & -> & Hp). exists ev. split; [done|by apply Hper].
    + apply Hg.
  - split; cbn; try apply Ht; try done.
    + intros c id reg [= <- <- <-]. exists (mkConn x ip false). rewrite lookup_insert_eq. done.
    + intros c y [[= -> ->]|Hk]%elem_of_cons; [by rewrite lookup_insert_eq|]. pose proof (t_knows _ _ Ht c y Hk) as (k & Hk' & ->)%fmap_Some_1.
      rewrite lookup_insert_ne by (by apply not_eq_sym, (Hne c k)). by rewrite Hk'.
    + intros c d Hd. by apply Hper, Ht.
  - intros f Hf Hc. split; cbn; try apply Hf.
    + intros c id reg Hof. destruct (t_own _ _ Hf c id reg Hof) as (k & Hk & Hx). exists k. rewrite lookup_insert_ne; [done|]. by apply not_eq_sym, (Hne c k).
    + intros id Hid. destruct (t_sess _ _ Hf id Hid) as [H1 H2]. split; [done|].
      intros c k [[<- <-]|[_ Hk]]%lookup_insert_Some; [|by apply (H2 c)]. cbn. intros E. subst id. by apply (c_sess _ _ Hc _ Hs).
    + intros c y Hk. pose proof (t_knows _ _ Hf c y Hk) as (k & Hk' & ->)%fmap_Some_1. rewrite lookup_insert_ne by (by apply not_eq_sym, (Hne c k)). by rewrite Hk'.
    + intros c d Hd. by apply Hper, Hf.
  - intros f Hf [C1 C2 C3 C4]. split; cbn; try done.
    intros c id r id' r' [= <- <- <-] Hof. destruct (t_own _ _ Hf _ _ _ Hof) as (k & Hk & _). by apply (Hne _ k Hk).
  - cbn. rewrite (i_count _ _ Hi). f_equal. lia.
Qed.

Lemma inv_register s es t e c id :
  Inv s es -> es !! t = Some e -> own e = Some (c, id, false) -> rlocks (table s) = ∅ ->
  Inv (set_table (t_register id c (table s)) s) (<[t := add_owes 1 (set_own (Some (c, id, true)) e)]> es).
Proof.
  intros Hi He Ho Hl. pose proof (i_global _ _ Hi) as Hg. pose proof (i_task _ _ Hi t e He) as Ht.
  destruct (t_own _ _ Ht _ _ _ Ho) as (k & Hk & Hid & Hr & Hcl).
  assert (forall f, task_ok s f -> forall tk l, holds f = Some (tk, l) -> False) as Hnl.
  { intros f Hf tk l Hh. destruct (t_holds _ _ Hf tk l Hh) as [Hin _]. rewrite Hl in Hin. set_solver. }
  apply (inv_step s es t e); try done.
  - split; cbn; try apply Hg. intros id' c' [[<- <-]|[_ Hc']]%lookup_insert_Some; [by exists k|by apply Hg].
  - split; cbn; try apply Ht.
    + intros c' id' reg [= <- <- <-]. exists k. by rewrite lookup_insert_eq.
    + intros tk l Hh. by destruct (Hnl e Ht tk l Hh).
  - intros f Hf Hc. split; cbn; try apply Hf.
    + intros c' id' reg Hof. destruct (t_own _ _ Hf _ _ _ Hof) as (k' & Hk' & Hid' & Hr' & Hcl'). exists k'.
      rewrite lookup_insert_ne; [done|]. intros E. subst id'. apply (c_own _ _ Hc c id false id reg Ho).
      rewrite (g_unique _ Hg c c' k k'); [by rewrite E|done|done|congruence].
    + intros tk l Hh. by destruct (Hnl f Hf tk l Hh).
  - intros f Hf [C1 C2 C3 C4]. split; cbn; try done. intros c' id' r id'' r' [= <- <- <-]. by apply (C1 c id false).
  - cbn. rewrite map_size_insert_None by done. rewrite (i_count _ _ Hi). f_equal. lia.
Qed.

Lemma inv_remove s es t e c id :
  Inv s es -> es !! t = Some e -> own e = Some (c, id, true) -> rlocks (table s) = ∅ ->
  Inv (set_table (t_remove id (table s)) s) (<[t := add_owes (-1) (set_own (Some (c, id, false)) e)]> es).
Proof.
  intros Hi He Ho Hl. pose proof (i_global _ _ Hi) as Hg. pose proof (i_task _ _ Hi t e He) as Ht.
  destruct (t_own _ _ Ht _ _ _ Ho) as (k & Hk & Hid & Hr & Hcl).
  assert (forall f, task_ok s f -> forall tk l, holds f = Some (tk, l) -> False) as Hnl.
  { intros f Hf tk l Hh. destruct (t_holds _ _ Hf tk l Hh) as [Hin _]. rewrite Hl in Hin. set_solver. }
  apply (inv_step s es t e); try done.
  - split; cbn; try apply Hg. intros id' c' [_ Hc']%lookup_delete_Some. by apply Hg.
  - split; cbn; try apply Ht.
    + intros c' id' reg [= <- <- <-]. exists k. by rewrite lookup_delete_eq.
    + intros tk l Hh. by destruct (Hnl e Ht tk l Hh).
  - intros f Hf Hc. split; cbn; try apply Hf.
    + intros c' id' reg Hof. destruct (t_own _ _ Hf _ _ _ Hof) as (k' & Hk' & Hid' & Hr' & Hcl'). exists k'.
      rewrite lookup_delete_ne; [done|]. intros E. subst id'. apply (c_own _ _ Hc c id true id reg Ho).
      rewrite (g_unique _ Hg c c' k k'); [by rewrite E|done|done|congruence].
    + intros tk l Hh. by destruct (Hnl f Hf tk l Hh).
  - intros f Hf [C1 C2 C3 C4]. split; cbn; try done. intros c' id' r id'' r' [= <- <- <-]. by apply (C1 c id true).
  - cbn. rewrite map_size_delete_Some by (by eexists). rewrite (i_count _ _ Hi). f_equal.
    assert (size (registry (table s)) <> 0%nat) by (intros E%map_size_empty_inv; rewrite E in Hr; done). lia.
Qed.

(** Closing a connection keeps its session. *)
Lemma closed_lookup T c c' k' :
  conns (t_close c T) !! c' = Some k' ->
  exists k, conns T !! c' = Some k /\ c_session k' = c_session k /\ (c' <> c -> k' = k) /\ (c_closed k = true -> c_closed k' = true).
Proof.
  cbn. destruct (decide (c' = c)) as [->|Hne].
  - rewrite lookup_alter_eq. intros (k & Hk & ->)%fmap_Some_1. by exists k.
  - rewrite lookup_alter_ne by done. intros Hk. by exists k'.
Qed.

Lemma lookup_closed T c c' k : conns T !! c' = Some k ->
  exists k', conns (t_close c T) !! c' = Some k' /\ c_session k' = c_session k /\ (c' <> c -> k' = k).
Proof.
  intros Hk. cbn. destruct (decide (c' = c)) as [->|Hne].
  - rewrite lookup_alter_eq, Hk. cbn. by eexists.
  - rewrite lookup_alter_ne by done. by exists k.
Qed.

(** Who may close: Stop, or the owner; only the SSE frontend's owner does so while the connection is registered. *)
Definition closes (e : env) (c : nat) : Prop := stop e = Some true \/ exists id reg, own e = Some (c, id, reg) /\ (early = true \/ reg = false).

Lemma inv_close s es t e c :
  Inv s es -> es !! t = Some e -> closes e c -> Inv (set_table (t_close c (table s)) s) (<[t := post unit (CloseConn c) tt e]> es).
Proof.
  intros Hi He Hcl. pose proof (i_global _ _ Hi) as Hg. pose proof (i_task _ _ Hi t e He) as Ht.
  assert (closing (table s) = true \/ exists id reg, own e = Some (c, id, reg) /\ (early = true \/ reg = false)) as Hcl'.
  { destruct Hcl as [Hs|Ho]; [left; by apply (t_stop _ _ Ht)|by right]. }
  assert (own (post unit (CloseConn c) tt e) = own e \/ own (post unit (CloseConn c) tt e) = None) as Hown.
  { cbn. destruct early; [by left|]. destruct (own e) as [[[c' id] reg]|] eqn:E; [|by left]. case_bool_decide; [by right|by left]. }
  assert (forall c0 d, permitted (table s) (log s) c0 d -> permitted (t_close c (table s)) (log s) c0 d) as Hper.
  { intros c0 d [Hd|(k & Hk & Hd)]; [by left|right]. destruct (lookup_closed _ c _ _ Hk) as (k' & Hk' & Hs & _). exists k'. by rewrite Hs. }
  assert (forall f, (own f = own e \/ compat e f) -> own f <> None -> task_ok s f -> early = false -> closing (table s) = false ->
          forall c0 id reg, own f = Some (c0, id, reg) -> own f <> own e \/ own (post unit (CloseConn c) tt e) = own e -> c0 <> c) as Hnc.
  { intros f Hf _ Htf Hea Hc0 c0 id reg Hof Hpost ->. destruct Hcl' as [Hx|(id' & reg' & Ho & Hx)]; [congruence|].
    destruct Hf as [Hf|Hf]; [|by eapply (c_own _ _ Hf)]. destruct Hpost as [Hp|Hp]; [done|].
    cbn in Hp. rewrite Hea, Ho in Hp. rewrite bool_decide_eq_true_2 in Hp by done. cbn in Hp. done. }
  apply (inv_step s es t e); try done.
  - split; cbn [set_table table log running used]; try apply Hg.
    + intros c0 Hc0. cbn. destruct (decide (c0 = c)) as [->|Hne]; [rewrite lookup_alter_eq|rewrite lookup_alter_ne by done; by apply Hg].
      cbn in Hc0. by rewrite (g_fresh _ Hg c Hc0).
    + intros id c0 Hr. cbn in Hr. destruct (g_registry _ Hg id c0 Hr) as (k & Hk & Hid & Hcc).
      destruct (lookup_closed _ c _ _ Hk) as (k' & Hk' & Hs & Hsame). exists k'. split_and!; [done|by rewrite Hs|].
      intros Hea Hcx. cbn. destruct (closing (table s)) eqn:Ec; [done|]. destruct Hcl' as [Hx|(id' & reg & Ho & [Hx|Hx])]; [congruence..|].
      destruct (decide (c0 = c)) as [->|Hne]; [|rewrite (Hsame Hne) in Hcx; by apply Hcc].
      subst reg. destruct (t_own _ _ Ht _ _ _ Ho) as (k2 & Hk2 & Hid2 & Hr2 & _). rewrite Hk in Hk2. injection Hk2 as <-. rewrite Hid in Hid2. subst id'. congruence.
    + intros c0 k' Hk'. destruct (closed_lookup _ _ _ _ Hk') as (k & Hk & -> & _). by apply (g_used _ Hg c0).
    + intros c1 c2 k1 k2 H1 H2. destruct (closed_lookup _ _ _ _ H1) as (k1' & H1' & -> & _), (closed_lookup _ _ _ _ H2) as (k2' & H2' & -> & _).
      by apply (g_unique _ Hg).
    + intros c0 d Hd. by apply Hper, Hg.
    + intros c0 d Hd. destruct (g_out _ Hg c0 d Hd) as (ev & -> & Hp). exists ev. split; [done|by apply Hper].
  - assert (task_ok (set_table (t_close c (table s)) s) (set_own (own (post unit (CloseConn c) tt e)) e)) as Hx.
    { split; cbn [own sess holds stop saw knows who answered read got owes set_own set_table table log running used]; try apply Ht.
      - intros c0 id reg Ho'. assert (own e = Some (c0, id, reg)) as Ho by (destruct Hown as [E|E]; congruence).
        destruct (t_own _ _ Ht _ _ _ Ho) as (k & Hk & Hid & Hr & Hcc). destruct (lookup_closed _ c _ _ Hk) as (k' & Hk' & Hs & Hsame).
        exists k'. split_and!; [done|by rewrite Hs|done|]. intros Hea Hcx. cbn. destruct (closing (table s)) eqn:Ec; [done|].
        assert (c0 <> c) as Hne.
        { apply (Hnc e (or_introl eq_refl)) with id reg; try done; [congruence|]. right. destruct Hown as [E|E]; congruence. }
        rewrite (Hsame Hne) in Hcx. by apply Hcc.
      - intros id Hid. destruct (t_sess _ _ Ht id Hid) as [H1 H2]. split; [done|]. intros c0 k' Hk'.
        destruct (closed_lookup _ _ _ _ Hk') as (k & Hk & -> & _). by apply (H2 c0).
      - intros c0 y Hy. pose proof (t_knows _ _ Ht c0 y Hy) as (k & Hk & ->)%fmap_Some_1. destruct (lookup_closed _ c _ _ Hk) as (k' & -> & <- & _). done.
      - intros c0 d Hd. by apply Hper, Ht. }
    revert Hx. cbn. destruct early; [by destruct e|]. destruct (own e) as [[[c' id] reg]|] eqn:E; [case_bool_decide; [done|rewrite E]|rewrite E]; destruct e; cbn in *; by subst.
  - intros f Hf Hc. split; cbn [set_table table log running used]; try apply Hf.
    + intros c0 id reg Ho. destruct (t_own _ _ Hf _ _ _ Ho) as (k & Hk & Hid & Hr & Hcc). destruct (lookup_closed _ c _ _ Hk) as (k' & Hk' & Hs & Hsame).
      exists k'. split_and!; [done|by rewrite Hs|done|]. intros Hea Hcx. cbn. destruct (closing (table s)) eqn:Ec; [done|].
      assert (c0 <> c) as Hne.
      { apply (Hnc f (or_intror Hc)) with id reg; try done; [congruence|]. left. intros E. rewrite Ho in E. by eapply (c_own _ _ Hc). }
      rewrite (Hsame Hne) in Hcx. by apply Hcc.
    + intros id Hid. destruct (t_sess _ _ Hf id Hid) as [H1 H2]. split; [done|]. intros c0 k' Hk'.
      destruct (closed_lookup _ _ _ _ Hk') as (k & Hk & -> & _). by apply (H2 c0).
    + intros c0 y Hy. pose proof (t_knows _ _ Hf c0 y Hy) as (k & Hk & ->)%fmap_Some_1. destruct (lookup_closed _ c _ _ Hk) as (k' & -> & <- & _). done.
    + intros c0 d Hd. by apply Hper, Hf.
  - intros f Hf [C1 C2 C3 C4]. split.
    + intros c0 id r id' r' Ho. destruct Hown as [E|E]; rewrite E in Ho; [by eauto|done].
    + cbn. destruct early; [done|]. destruct (own e) as [[[c' id] reg]|]; [case_bool_decide|]; done.
    + cbn. destruct early; [done|]. destruct (own e) as [[[c' id] reg]|]; [case_bool_decide|]; done.
    + cbn. destruct early; [done|]. destruct (own e) as [[[c' id] reg]|]; [case_bool_decide|]; done.
  - cbn [set_table connCount table registry t_close]. rewrite (i_count _ _ Hi). f_equal.
    assert (owes (post unit (CloseConn c) tt e) = owes e) as ->; [|lia].
    cbn. destruct early; [done|]. destruct (own e) as [[[c' id] reg]|]; [case_bool_decide|]; done.
Qed.

(** *** The lock of the registry *)

Lemma inv_rlock s es t e x :
  Inv s es -> es !! t = Some e -> holds e = None -> x ∉ rlocks (table s) ->
  Inv (set_table (t_rlocks ({[x]} ∪ rlocks (table s)) (table s)) s) (<[t := set_holds (Some (x, [])) e]> es).
Proof.
  intros Hi He Hh Hx. pose proof (i_global _ _ Hi) as Hg. pose proof (i_task _ _ Hi t e He) as Ht.
  apply (inv_step s es t e); try done.
  - split; apply Hg.
  - split; cbn; try apply Ht. intros tk l [= <- <-]. split; [set_solver|]. by intros c Hc%elem_of_nil.
  - intros f Hf _. split; cbn; try apply Hf. intros tk l Hl. destruct (t_holds _ _ Hf tk l Hl). split; [set_solver|done].
  - intros f Hf [C1 C2 C3 C4]. split; cbn; try done. intros tk l l' [= <- <-] Hl. by destruct (t_holds _ _ Hf x l' Hl).
  - cbn. rewrite (i_count _ _ Hi). f_equal. lia.
Qed.

Lemma inv_runlock s es t e x l :
  Inv s es -> es !! t = Some e -> holds e = Some (x, l) ->
  Inv (set_table (t_rlocks (rlocks (table s) ∖ {[x]}) (table s)) s) (<[t := set_holds None e]> es).
Proof.
  intros Hi He Hh. pose proof (i_global _ _ Hi) as Hg. pose proof (i_task _ _ Hi t e He) as Ht.
  apply (inv_step s es t e); try done.
  - split; apply Hg.
  - split; cbn; try apply Ht. done.
  - intros f Hf Hc. split; cbn; try apply Hf. intros tk l' Hl. destruct (t_holds _ _ Hf tk l' Hl) as [Hin Hr]. split; [|done].
    apply elem_of_difference. split; [done|]. intros E%elem_of_singleton. subst tk. by apply (c_holds _ _ Hc x l l').
  - intros f Hf [C1 C2 C3 C4]. by split.
  - cbn. rewrite (i_count _ _ Hi). f_equal. lia.
Qed.

Lemma values_registered T c : c ∈ values T -> exists id, registry T !! id = Some c.
Proof. intros ((id & c') & -> & Hin)%list_elem_of_fmap. exists id. by apply elem_of_map_to_list. Qed.

Lemma inv_entries s es t e tk l x :
  Inv s es -> es !! t = Some e -> holds e = Some (tk, l) -> x ≡ₚ values (table s) -> Inv s (<[t := set_holds (Some (tk, x)) e]> es).
Proof.
  intros Hi He Hh Hx. pose proof (i_task _ _ Hi t e He) as Ht. destruct (t_holds _ _ Ht _ _ Hh) as [Hin _].
  apply (inv_step s es t e); try done.
  - apply Hi.
  - split; cbn; try apply Ht. intros tk' l' [= <- <-]. split; [done|]. intros c Hc. apply values_registered. by rewrite <- Hx.
  - intros f Hf [C1 C2 C3 C4]. split; cbn; try done. intros tk' l' l'' [= <- <-]. by apply (C3 tk l).
  - cbn. rewrite (i_count _ _ Hi). f_equal. lia.
Qed.

(** *** The shutdown *)

Lemma inv_begin_stop s es t e :
  Inv s es -> es !! t = Some e -> running s = true -> Inv (set_flags false (shutdown s) s) (<[t := set_stop (Some false) e]> es).
Proof.
  intros Hi He Hr. pose proof (i_global _ _ Hi) as Hg. pose proof (i_task _ _ Hi t e He) as Ht.
  assert (forall f b, task_ok s f -> stop f = Some b -> False) as Hns by (intros f b Hf Hb; destruct (t_stop _ _ Hf b Hb); congruence).
  apply (inv_step s es t e); try done.
  - split; cbn; try apply Hg. done.
  - split; cbn; try apply Ht. intros b [= <-]. split; [done|by apply Hg].
  - intros f Hf _. split; cbn; try apply Hf. intros b Hb. by destruct (Hns f b Hf).
  - intros f Hf [C1 C2 C3 C4]. split; cbn; try done. intros _ [b Hb]. by destruct (Hns f b Hf).
  - cbn. rewrite (i_count _ _ Hi). f_equal. lia.
Qed.

Lemma inv_take_all s es t e :
  Inv s es -> es !! t = Some e -> stop e = Some false -> Inv (set_table (t_closing (table s)) s) (<[t := set_stop (Some true) e]> es).
Proof.
  intros Hi He Hs. pose proof (i_global _ _ Hi) as Hg. pose proof (i_task _ _ Hi t e He) as Ht. destruct (t_stop _ _ Ht _ Hs) as [Hr _].
  apply (inv_step s es t e); try done.
  - split; cbn; try apply Hg; [|congruence]. intros id c Hc. destruct (g_registry _ Hg id c Hc) as (k & Hk & Hid & _). by exists k.
  - split; cbn; try apply Ht.
    + intros c id reg Ho. destruct (t_own _ _ Ht _ _ _ Ho) as (k & Hk & Hid & Hreg & _). by exists k.
    + intros b [= <-]. done.
    + done.
  - intros f Hf Hc. split; cbn; try apply Hf.
    + intros c id reg Ho. destruct (t_own _ _ Hf _ _ _ Ho) as (k & Hk & Hid & Hreg & _). by exists k.
    + intros b Hb. exfalso. by apply (c_stop _ _ Hc); eexists.
    + done.
  - intros f Hf [C1 C2 C3 C4]. split; cbn; try done. intros _ Hb. by apply C4.
  - cbn. rewrite (i_count _ _ Hi). f_equal. lia.
Qed.

(** *** Sessions and counts *)

Lemma inv_session s es t e id ss :
  Inv s es -> es !! t = Some e -> id ∉ used s ->
  Inv (set_sessions ss ({[id]} ∪ used s) (set_log (l_identity id (log s)) s)) (<[t := add_who id (set_sess (Some id) e)]> es).
Proof.
  intros Hi He Hn. pose proof (i_global _ _ Hi) as Hg. pose proof (i_task _ _ Hi t e He) as Ht.
  set (s' := set_sessions _ _ _). assert (grows s s') as Hgr.
  { split; cbn; try done; [set_solver|]. intros w Hw. apply elem_of_app. by left. }
  pose proof (task_grows _ _ _ Hgr Ht) as Ht'.
  apply (inv_step s es t e); try done.
  - by apply (global_same_logs s).
  - split; try apply Ht'.
    + cbn. intros i [= <-]. split; [set_solver|]. intros c k Hk Hid. apply Hn. rewrite <- Hid. by apply (g_used _ Hg c).
    + intros w [->|Hw]%elem_of_cons; [|by apply Ht']. cbn. apply elem_of_app. right. by apply list_elem_of_singleton.
  - intros f Hf _. by apply (task_grows s).
  - intros f Hf [C1 C2 C3 C4]. split; cbn; try done. intros i [= <-] Hs. by destruct (t_sess _ _ Hf id Hs).
  - cbn. rewrite (i_count _ _ Hi). f_equal. lia.
Qed.

Lemma inv_count s es t e d :
  Inv s es -> es !! t = Some e -> Inv (set_count (i64_add (connCount s) d) s) (<[t := add_owes (- d) e]> es).
Proof.
  intros Hi He. apply (inv_step s es t e); try done.
  - split; apply Hi.
  - pose proof (i_task _ _ Hi t e He) as Ht. split; apply Ht.
  - intros f Hf _. split; apply Hf.
  - intros f _ [C1 C2 C3 C4]. by split.
  - cbn [set_count connCount table add_owes owes]. unfold i64_add. rewrite (i_count _ _ Hi), wrap_s_add_l by lia. f_equal. lia.
Qed.

(** What the clients and the router say is added to the log, and the goroutine that hears it knows it. *)
Lemma inv_log s es t e e' L :
  Inv s es -> es !! t = Some e -> same_holdings e e' -> owes e' = owes e ->
  grows s (set_log L s) -> bufs L = bufs (log s) -> outs L = outs (log s) ->
  (forall w r, (w, r) ∈ granted L -> w ∈ identities L) -> task_ok (set_log L s) e' -> Inv (set_log L s) (<[t := e']> es).
Proof.
  intros Hi He Hh Ho Hgr Hb Hou Hgn Ht. pose proof (i_global _ _ Hi) as Hg.
  apply (inv_grows s es t e); try done. apply (global_grows s); try done; cbn [set_log log table].
  - intros c d. unfold buf. rewrite Hb. intros Hd. apply (permitted_grows s (set_log L s)); [done|by apply Hg].
  - intros c d. unfold out. rewrite Hou. intros Hd. destruct (g_out _ Hg c d Hd) as (ev & -> & Hp). exists ev. split; [done|]. by apply (permitted_grows s (set_log L s)).
Qed.

(** *** The rules *)

Lemma exec_grow s es t e X (c : cmd X) x s' :
  Inv s es -> es !! t = Some e -> pre X c e -> exec cap X c x s = Some s' ->
  match c with Authenticate _ | CreateSession _ | ReadNet _ | Route _ _ _ _ | Recv _ _ | Output _ _ => True | _ => False end ->
  Inv s' (<[t := post X c x e]> es).
Proof.
  intros Hi He Hp Hx Hc. pose proof (i_global _ _ Hi) as Hg. pose proof (i_task _ _ Hi t e He) as Ht.
  destruct c; try done; cbn in Hx, Hp |- *.
  - (* Authenticate *) destruct x as [claims|err]; injection Hx as <-; [|by eapply inv_keep].
    assert (grows s (set_log (l_identity (Auth.Subject claims) (log s)) s)) as Hgr by (split; cbn; try done; set_solver).
    apply (inv_log s es t e); try done.
    + intros w r Hw. cbn. apply elem_of_app. left. by apply (g_granted _ Hg w r).
    + apply task_add_who; [by apply (task_grows s)|]. cbn. set_solver.
  - (* CreateSession *) destruct x as [sess| |]; [|done|apply when_Some in Hx as [_ ->]; by eapply inv_keep].
    destruct (Sessions.CreateSession _ _ _ _ _) as [[p|] ss]; [|done]. case_bool_decide; [|done]. case_bool_decide; [done|]. injection Hx as <-.
    by apply inv_session.
  - (* Recv *) destruct x as [d| | | |]; destruct (buf c (log s)) as [|d' rest] eqn:Eb; try done;
      try (apply when_Some in Hx as [_ ->]; by eapply inv_keep).
    case_bool_decide; [|done]. injection Hx as <-. subst d'.
    assert (forall d0, d0 ∈ d :: rest -> permitted (table s) (log s) c d0) as Hb by (intros d0 Hd; apply (g_buf _ Hg); by rewrite Eb).
    apply (inv_buf s es t e); try done; [intros d0 Hd; apply Hb; by right|]. apply task_add_got; [done|apply Hb; by left].
  - (* Output *) destruct x; injection Hx as <-; [|by eapply inv_keep]. destruct Hp as (ev & Hev & ->).
    apply (inv_grows s es t e); [done|done|apply grows_out| |by apply (task_grows s); [apply grows_out|]|done..].
    apply (global_grows s); [done|apply grows_out|apply Hg| |apply Hg]. intros c' d'. cbn [set_log log table]. rewrite out_l_out.
    case_bool_decide; [subst|apply Hg]. intros [Hd| ->%list_elem_of_singleton]%elem_of_app; [by apply Hg|]. exists ev. split; [done|]. by apply Ht.
  - (* ReadNet *) destruct x as [data| |]; [|apply when_Some in Hx as [_ ->]; by eapply inv_keep|injection Hx as <-; by eapply inv_keep].
    destruct (is_closed c (table s)); [done|]. injection Hx as <-.
    assert (grows s (set_log (l_receive c data (log s)) s)) as Hgr by (split; cbn; try done; set_solver).
    apply (inv_log s es t e); try done; [apply Hg|]. apply task_add_read; [by apply (task_grows s)|]. cbn. set_solver.
  - (* Route *) destruct x as [r|err]; injection Hx as <-; [|by eapply inv_keep].
    assert (grows s (set_log (l_grant who0 r (log s)) s)) as Hgr by (split; cbn; try done; set_solver).
    apply (inv_log s es t e); try done.
    + intros w r' [Hw|[= -> ->]%list_elem_of_singleton]%elem_of_app; [by apply (g_granted _ Hg w r')|]. by apply Ht.
    + apply task_add_answered; [by apply (task_grows s)|]. cbn. set_solver.
Qed.

(** A goroutine that goes on with less. *)
Record weaker (e e2 : env) : Prop := {
  w_own : own e2 = own e \/ own e2 = None; w_sess : sess e2 = sess e \/ sess e2 = None;
  w_holds : holds e2 = holds e \/ holds e2 = None; w_stop : stop e2 = stop e \/ stop e2 = None; w_saw : saw e2 = true -> saw e = true;
  w_knows : knows e2 ⊆ knows e; w_who : who e2 ⊆ who e; w_answered : answered e2 ⊆ answered e; w_read : read e2 ⊆ read e; w_got : got e2 ⊆ got e }.

Lemma weaker_nothing e : weaker e nothing.
Proof. split; cbn; try (by right); try done; apply list_subseteq_nil. Qed.

Lemma task_weaker s e e2 : weaker e e2 -> task_ok s e -> task_ok s e2.
Proof.
  intros [W1 W2 W3 W4 W5 W6 W7 W8 W9 W10] Ht. split.
  - intros c id reg Ho. apply (t_own _ _ Ht). destruct W1; congruence.
  - intros id Ho. apply (t_sess _ _ Ht). destruct W2; congruence.
  - intros tk l Ho. apply (t_holds _ _ Ht). destruct W3; congruence.
  - intros b Ho. apply (t_stop _ _ Ht). destruct W4; congruence.
  - intros Ho. by apply (t_saw _ _ Ht), W5.
  - intros c x Hx. by apply Ht, W6.
  - intros w Hx. by apply Ht, W7.
  - intros a Hx. by apply Ht, W8.
  - intros a Hx. by apply Ht, W9.
  - intros c d Hx. by apply Ht, W10.
Qed.

Lemma compat_weaker e e2 f : weaker e e2 -> compat e f -> compat e2 f.
Proof.
  intros [W1 W2 W3 W4 _ _ _ _ _ _] [C1 C2 C3 C4]. split.
  - intros c id r id' r' Ho. apply (C1 c id r). destruct W1; congruence.
  - intros id Ho. apply (C2 id). destruct W2; congruence.
  - intros tk l l' Ho. apply (C3 tk l). destruct W3; congruence.
  - intros [b Ho]. apply C4. exists b. destruct W4; congruence.
Qed.

Lemma inv_weaker s es t e e2 : Inv s es -> es !! t = Some e -> weaker e e2 -> owes e2 = owes e -> Inv s (<[t := e2]> es).
Proof.
  intros Hi He Hw Ho. apply (inv_step s es t e); try done.
  - apply Hi.
  - apply (task_weaker s e); [done|by eapply i_task].
  - intros f _. by apply compat_weaker.
  - rewrite (i_count _ _ Hi), Ho. f_equal. lia.
Qed.

Lemma inv_exit s es t e : Inv s es -> es !! t = Some e -> exit_ok e -> Inv s (delete t es).
Proof.
  intros Hi He Ho. split; [apply Hi|..].
  - intros u f [_ Hu]%lookup_delete_Some. by eapply i_task.
  - intros u u' f f' [_ Hu]%lookup_delete_Some [_ Hu']%lookup_delete_Some. by eapply i_compat.
  - rewrite (i_count _ _ Hi), (total_of_delete owes es t e He), Ho. f_equal.
Qed.

Lemma inv_start s es t e t' ec e1 :
  Inv s es -> es !! t = Some e -> es !! t' = None -> split e ec e1 -> Inv s (<[t' := ec]> (<[t := e1]> es)).
Proof.
  intros Hi He Hn [Hc He1 Ho]. pose proof (i_task _ _ Hi t e He) as Ht.
  assert (weaker e ec) as Wc by (rewrite Hc; split; cbn; try (by right); try done; destruct Ho as [[-> _]|[-> _]]; [by right|by left]).
  assert (weaker e e1) as W1 by (rewrite He1; split; cbn; try (by left); try done; destruct Ho as [[_ ->]|[_ ->]]; [by left|by right]).
  assert (Inv s (<[t := e1]> es)) as Hi1 by (apply (inv_weaker s es t e); [done..|by rewrite He1]).
  assert (forall u f, <[t := e1]> es !! u = Some f -> compat ec f) as Hcc.
  { intros u f [[<- <-]|[Hne Hu]]%lookup_insert_Some; [|apply (compat_weaker e); [done|by eapply (i_compat s es)]].
    split; rewrite Hc; cbn; [|done| |by intros [? ?]]; [|done]. intros c id r id' r'. destruct Ho as [[-> _]|[_ ->]]; done. }
  split; [apply Hi|..].
  - intros u f [[<- <-]|[_ Hu]]%lookup_insert_Some; [by apply (task_weaker s e)|by eapply (i_task s _ Hi1)].
  - intros u u' f f' [[<- <-]|[H1 Hu]]%lookup_insert_Some [[<- <-]|[H2 Hu']]%lookup_insert_Some Hne; [done|by eapply Hcc|by eapply compat_sym, Hcc|].
    by eapply (i_compat s _ Hi1 u u').
  - rewrite total_of_insert; [|rewrite lookup_insert_ne; [done|intros ->; congruence]]. rewrite Hc. cbn [owes]. by rewrite (i_count _ _ Hi1).
Qed.

(** A panic happens only where the discipline leaves it open. *)
Lemma stream_no_panic s X (c : cmd X) e : pre X c e -> panics X c s = true -> crash X c = true.
Proof. destruct c; try done; intros [Hc _] _; cbn; by rewrite Hc. Qed.

Lemma closed_here s es t e c :
  Inv s es -> es !! t = Some e -> early = false -> is_closed c (table s) = true ->
  ((exists id, own e = Some (c, id, true)) \/ (stop e = Some false /\ exists tk l, holds e = Some (tk, l) /\ c ∈ l)) ->
  closing (table s) = true /\ stop e <> Some false.
Proof.
  intros Hi He Hea Hc Hw. pose proof (i_task _ _ Hi t e He) as Ht. unfold is_closed in Hc.
  assert (closing (table s) = true) as Hcl.
  { destruct Hw as [(id & Ho)|(Hs & tk & l & Hh & Hl)].
    - destruct (t_own _ _ Ht _ _ _ Ho) as (k & Hk & _ & _ & Hcc). rewrite Hk in Hc. by apply Hcc.
    - destruct (t_holds _ _ Ht _ _ Hh) as [_ Hr]. destruct (Hr c Hl) as [id Hid].
      destruct (g_registry _ (i_global _ _ Hi) _ _ Hid) as (k & Hk & _ & Hcc). rewrite Hk in Hc. by apply Hcc. }
  split; [done|]. intros Hs. destruct (t_stop _ _ Ht _ Hs). congruence.
Qed.

Lemma stream_exec_send s es t e w c d x s' :
  Inv s es -> es !! t = Some e -> pre _ (SendSel w c d) e -> exec cap _ (SendSel w c d) x s = Some s' ->
  valid _ (SendSel w c d) x e /\ Inv s' (<[t := post _ (SendSel w c d) x e]> es).
Proof.
  intros Hi He [Hm Hw] Hx. destruct x; cbn in Hx |- *.
  - split; [done|]. destruct (_ && _); [|done]. injection Hx as <-. apply inv_push; [done|done|].
    apply (may_send_permitted s e); [by eapply i_task|done].
  - apply when_Some in Hx as [_ ->]. split; [done|]. by eapply inv_keep.
  - injection Hx as <-. split; [done|]. by eapply inv_keep.
  - apply when_Some in Hx as [Hc ->]. destruct early eqn:Ea; [split; [by left|by eapply inv_keep]|]. destruct Hw as [Hw|Hw]; [done|].
    destruct (closed_here s es t e c) as [Hcl Hns]; [done..|]. split; [by right|].
    apply (inv_grows s es t e); try done; [apply Hi|]. apply task_set_saw; [by eapply i_task|done].
Qed.

(** One step of a goroutine keeps the invariant. *)
Lemma stream_exec_rule s es t e X (c : cmd X) x s' :
  Inv s es -> es !! t = Some e -> pre X c e -> panics X c s = false -> exec cap X c x s = Some s' ->
  valid X c x e /\ Inv s' (<[t := post X c x e]> es).
Proof.
  intros Hi He Hp Hnp Hx. pose proof (i_task _ _ Hi t e He) as Ht.
  destruct c; try (split; [done|]); try (by eapply exec_grow);
    try solve [cbn in *; first [injection Hx as <-|apply when_Some in Hx as [_ ->]]; by eapply inv_keep].
  - (* AddCount *) injection Hx as <-. by apply inv_count.
  - (* NewConn *) cbn in Hx. case_bool_decide; [|done]. injection Hx as <-. subst x. destruct Hp. by apply inv_new.
  - (* Register *) cbn in Hx. case_bool_decide; [|done]. injection Hx as <-. by apply inv_register.
  - (* Remove *) cbn in Hx. destruct Hp as [c Ho]. destruct (t_own _ _ Ht _ _ _ Ho) as (_ & _ & _ & Hr & _).
    case_bool_decide as Hl; [|done]. case_bool_decide as E; [|done]. injection Hx as <-. rewrite Hr in E. subst x.
    split; [by exists c|]. by apply inv_remove.
  - (* FindUser *) cbn in Hx. destruct x as [[c sess0]|]; [|apply when_Some in Hx as [_ ->]; split; [done|by eapply inv_keep]].
    destruct (conns (table s) !! c) as [k|] eqn:Ek; [|done]. apply when_Some in Hx as [Hx ->]. cbn.
    apply andb_prop in Hx as [[_ Hs%bool_decide_eq_true]%andb_prop Hu%bool_decide_eq_true]. split; [by intros c' s' [= <- <-]|].
    apply (inv_grows s es t e); try done; [apply Hi|]. apply task_add_knows; [done|]. by rewrite Ek, <- Hs.
  - (* RLock *) cbn in Hx. case_bool_decide; [done|]. injection Hx as <-. by apply inv_rlock.
  - (* RUnlock *) injection Hx as <-. destruct Hp as [l Hl]. by eapply inv_runlock.
  - (* Entries *) apply when_Some in Hx as [Hx%bool_decide_eq_true ->]. destruct Hp as [[tk l] Hh]. cbn. rewrite Hh. by eapply inv_entries.
  - (* TakeAll *) cbn in Hx. destruct (_ && _); [|done]. injection Hx as <-. by apply inv_take_all.
  - (* CloseConn *) injection Hx as <-. by apply inv_close.
  - (* SendSel *) by eapply stream_exec_send.
  - (* TrySend *) cbn -[room] in Hx. destruct x; [|apply when_Some in Hx as [_ ->]; by eapply inv_keep]. destruct (room cap c s); [|done]. injection Hx as <-.
    apply inv_push; [done|done|]. left. apply Hp.
  - (* SessionOf *) apply when_Some in Hx as [Hx%bool_decide_eq_true ->]. split.
    { intros id reg Ho. destruct (t_own _ _ Ht _ _ _ Ho) as (k & Hk & Hid & _). rewrite Hk in Hx. by injection Hx as <-. }
    apply (inv_grows s es t e); try done; [apply Hi|]. by apply task_add_knows.
  - (* BeginStop *) cbn in Hx. destruct (Bool.eqb x (running s)) eqn:Eb; [|done]. injection Hx as <-. apply Bool.eqb_prop in Eb. subst x. cbn.
    destruct (running s) eqn:Er; [by apply inv_begin_stop|]. by apply (inv_keep s).
  - (* IpLoadOrStore *) cbn in Hx. destruct (ip_map (ips s) !! ip); [apply when_Some in Hx as [_ ->]; by eapply inv_keep|].
    case_bool_decide; [|done]. injection Hx as <-. by eapply inv_keep.
Qed.

(** The rules, for any goroutines that follow the discipline. *)
Lemma stream_rules {label} (body : label -> prog cmd label (next label)) (label_env : label -> env -> env -> Prop) :
  (forall l e e2, label_env l e e2 -> weaker e e2 /\ owes e2 = owes e /\ goroutine_ok pre valid post split exit_ok label_env (body l) e2) ->
  rules (exec cap) panics body (fun _ _ => False) Inv pre valid post split exit_ok label_env crash.
Proof.
  intros Hl. split.
  - intros s es t e X c _ _. apply stream_no_panic.
  - intros s es t e X c x s'. apply stream_exec_rule.
  - intros s es t e. apply inv_exit.
  - intros s es t e l e2 Hi He Hle. destruct (Hl l e e2 Hle) as (Hw & Ho & _). by eapply inv_weaker.
  - intros s es t e t' ec e1. apply inv_start.
  - done.
  - intros l e e2 Hle. by apply (Hl l e e2).
Qed.

Lemma fresh_inv : Inv fresh_state ∅.
Proof.
  split; [|done..|reflexivity].
  split; try done; cbn; intros; exfalso; match goal with H : _ ∈ _ |- _ => exact (not_elem_of_nil _ H) end.
Qed.

(** Goroutines that own nothing yet. *)
Lemma typed_start {label} (label_env : label -> env -> env -> Prop) (ts : gmap nat (prog cmd label (next label))) :
  (forall t p, ts !! t = Some p -> goroutine_ok pre valid post split exit_ok label_env p nothing) ->
  typed panics Inv pre valid post split exit_ok label_env crash {| st := fresh_state; tasks := ts; panicked := false |}.
Proof.
  intros Hts. split; [done|]. exists (const nothing <$> ts). destruct fresh_inv as [Hg _ _ _]. split_and!.
  - split; [done|..].
    + intros t e (p & <- & _)%lookup_fmap_Some. split; try done; cbn; intros; exfalso; by eapply not_elem_of_nil.
    + intros t t' e f (p & <- & _)%lookup_fmap_Some (p' & <- & _)%lookup_fmap_Some _. split; cbn; try done; by intros [].
    + cbn. rewrite total_of_zero; [done|]. by intros t e (p & <- & _)%lookup_fmap_Some.
  - cbn. by rewrite dom_fmap_L.
  - cbn. intros t p e Hp (q & <- & _)%lookup_fmap_Some. by apply (Hts t).
Qed.

(** What the invariant says when goroutines rest: everything written was allowed, and the number of connections
    is that of the registry, up to what the goroutines have still to count. *)
Lemma typed_out {label} (label_env : label -> env -> env -> Prop) (w : world cmd State label) c d :
  typed panics Inv pre valid post split exit_ok label_env crash w -> d ∈ out c (log (st w)) ->
  exists ev, d = frame ev /\ permitted (table (st w)) (log (st w)) c ev.
Proof. intros (_ & es & Hi & _) Hd. by apply (g_out _ (i_global _ _ Hi)). Qed.

Lemma typed_count {label} (label_env : label -> env -> env -> Prop) (w : world cmd State label) :
  (forall l e e2, label_env l e e2 -> owes e = 0) -> typed panics Inv pre valid post split exit_ok label_env crash w ->
  (forall t p, tasks w !! t = Some p -> exists n, p = Ret n) ->
  connCount (st w) = wrap_s 64 (Z.of_nat (size (registry (table (st w))))).
Proof.
  intros Hl (_ & es & Hi & Hd & Ht) Hr. rewrite (i_count _ _ Hi). f_equal. enough (total es = 0) by lia.
  assert (forall t e, es !! t = Some e -> owes e = 0) as Ho.
  { intros t e He. assert (exists p, tasks w !! t = Some p) as [p Hp] by (apply elem_of_dom; rewrite <- Hd; by apply elem_of_dom_2 in He).
    destruct (Hr t p Hp) as [n ->]. pose proof (Ht t _ e Hp He) as Hok. destruct n; [done|]. destruct Hok as [e2 He2]. by eapply Hl. }
  by apply total_of_zero.
Qed.

End Discipline.

End StreamsTheorems.
