(* ===== verification/SseFrontend.v ===== *)
(** * The SSE frontend

    [services/gateway/internal/frontends/sse/frontend.go]: streams, requests that are answered on the caller's stream,
    keepalives, and the shutdown, as programs of [Goroutines] over the commands of [Streams]; what any interleaving
    of them writes on a stream, what can stop the gateway, and when the count of streams is right. *)
From S2P Require Import Prelude GoIO GoStrings Wire Mcp RateLimit Session Auth Server Transport Frontends Goroutines Streams StreamsTheorems.
From Stdlib Require Import Strings.Ascii.
#[local] Open Scope Z_scope.

Module SseFrontend.
Import Transport Frontends Streams StreamsTheorems.

(** The goroutines between their steps: the HTTP server's, a stream's, the keepalives', a call of Stop. *)
Inductive label := Serve | StreamLoop (c : nat) (id : string) | Keep | Stopping.

Local Notation P := (prog cmd label).
Local Notation next := (Goroutines.next label).

(** The texts on a stream's channel. *)
Definition keepalive : string := ":keepalive".
Definition data_event (event : string) : string := "data: " +:+ event +:+ String "010"%char (String "010"%char EmptyString).
Definition marshal `{WireJSON} (resp : Response) : result string string := 
  match Print (response_doc resp) with Ok data => Ok (String.string_of_list_byte data) | Err e => Err e end.

Section Sse.
Context `{WireJSON}.
Variable config : SseConfig.
Variable flushes : bool.             (* the response writer can flush *)

Definition sendHTTPError (code : Z) : P unit := perform (Reply code).
Definition fail (code : Z) : P next := _ ← sendHTTPError code; _ ← perform (Metric inc_errors); mret Exit.

(** A panic in a handler ends its goroutine: net/http recovers it. *)
Definition handler_panic : P next := mret Exit.

(** ** Streams *)

Definition checkConnectionLimit : P bool := n ← perform LoadCount; mret (n <? sc_MaxConnections config).

Definition createAndRegisterStream (sess : Sessions.Session) (ip : string) : P nat :=
  c ← perform (NewConn sess ip);
  _ ← perform (Register (Sessions.ID sess) c);
  _ ← perform (AddCount 1);
  _ ← perform (Metric (fun m => inc_total (inc_active m)));
  mret c.

Definition dec_active_pos (m : FrontendMetrics) : FrontendMetrics := if 0 <? ActiveConnections m then dec_active m else m.

Definition removeStream (id : string) : P unit :=
  o ← perform (Remove id);
  match o with
  | Some _ => _ ← perform (AddCount (-1)); perform (Metric dec_active_pos)
  | None => mret tt
  end.

Definition handleSSEStream (q : hreq) : P next :=
  if negb (bool_decide (h_method q = "GET"%string)) then fail 405
  else if negb flushes then _ ← perform (Reply 500); mret Exit
  else
    ok ← checkConnectionLimit;
    if negb ok then fail 503
    else
      a ← perform (Authenticate (h_auth q));
      match a with
      | Err Auth.Panicked => handler_panic
      | Err _ => fail 401
      | Ok claims =>
          s ← perform (CreateSession claims);
          match s with
          | CreatePanic => handler_panic
          | NotCreated => fail 500
          | Created sess =>
              c ← createAndRegisterStream sess (h_ip q);
              _ ← perform (Reply 200);
              mret (Again (StreamLoop c (Sessions.ID sess)))
          end
      end.

(** The end of [handleStreamLoop], then [removeStream]. *)
Definition leave (c : nat) (id : string) : P next := _ ← perform (CloseConn c); _ ← removeStream id; mret Exit.

(** One round of [handleStreamLoop]. *)
Definition handleStreamLoop (c : nat) (id : string) : P next :=
  x ← perform (Recv false c);
  match x with
  | RMsg event => ok ← perform (Output c (data_event event)); if ok : bool then mret (Again (StreamLoop c id)) else leave c id
  | RClosed | RDone | RShutdown | RTick => leave c id
  end.

(** ** Requests *)

Definition sendEventToStream (c : nat) (resp : Response) : P (option bool) :=
  match marshal resp with
  | Err _ => mret (Some false)
  | Ok data =>
      x ← perform (SendSel false c data);
      match x with Sent => mret (Some true) | ClosedPanic => mret None | _ => mret (Some false) end
  end.

(** [processRequest]: the caller's session is stored under a key of this package. *)
Definition processRequest (who : string) (data : string) (sess : Sessions.Session) : P (result string Response) :=
  match unwrap (String.list_byte_of_string data) with
  | Err e => mret (Err e)
  | Ok (req, ns) => perform (Route who (WithValue SseKey sess []) req ns)
  end.

Definition handleRequest (q : hreq) : P next :=
  if negb (bool_decide (h_method q = "POST"%string)) then fail 405
  else
    a ← perform (Authenticate (h_auth q));
    match a with
    | Err Auth.Panicked => handler_panic
    | Err _ => fail 401
    | Ok claims =>
        if negb (h_complete q) then fail 400
        else
          o ← perform (FindUser (Auth.Subject claims));
          match o with
          | None => fail 404
          | Some (c, sess) =>
              r ← processRequest (Auth.Subject claims) (h_body q) sess;
              match r with
              | Err _ => fail 500
              | Ok resp =>
                  ok ← sendEventToStream c resp;
                  match ok with
                  | None => handler_panic
                  | Some false => fail 500
                  | Some true => _ ← perform (Reply 202); _ ← perform (Metric inc_requests); mret Exit
                  end
              end
          end
    end.

Definition handleHealth : P next :=
  up ← perform Running;
  _ ← perform (Reply (if up : bool then 200 else 503));
  mret Exit.

Definition not_found : P next := _ ← perform (Reply 404); mret Exit.

(** The routes that Start registers. *)
Definition mux (q : hreq) : list (string * P next) :=
  [(StreamEndpoint config, handleSSEStream q); (RequestEndpoint config, handleRequest q); ("/health"%string, handleHealth)].
Definition dispatch (q : hreq) : P next := default not_found (Server.mux_lookup (mux q) (h_path q)).

(** ** Keepalives and the shutdown *)

Fixpoint keepalives (streams : list nat) : P unit :=
  match streams with
  | [] => mret tt
  | c :: streams => _ ← perform (TrySend c keepalive); keepalives streams
  end.

Definition sendKeepAlive : P unit :=
  tk ← perform RLock;
  streams ← perform Entries;
  _ ← keepalives streams;
  perform (RUnlock tk).

Definition keepAliveLoop : P next :=
  tick ← perform KeepTick;
  if tick : bool then _ ← sendKeepAlive; mret (Again Keep) else mret Exit.

Fixpoint close_streams (streams : list nat) : P unit :=
  match streams with
  | [] => mret tt
  | c :: streams => _ ← perform (CloseConn c); close_streams streams
  end.
Definition closeAllStreams : P unit := streams ← perform TakeAll; close_streams streams.

Definition no_connections (m : FrontendMetrics) : FrontendMetrics :=
  mkFrontendMetrics 0 (TotalConnections m) (RequestCount m) (ErrorCount m) false.

Definition Stop : P next :=
  was ← perform BeginStop;
  if was : bool then
    _ ← perform CloseShutdown;
    _ ← closeAllStreams;
    _ ← perform (Metric no_connections);
    mret Exit
  else mret Exit.

(** The HTTP server answers each request in a goroutine of its own. *)
Definition serve : P next := q ← perform Accept; _ ← go (dispatch q); mret (Again Serve).

Definition body (l : label) : P next :=
  match l with Serve => serve | StreamLoop c id => handleStreamLoop c id | Keep => keepAliveLoop | Stopping => Stop end.

(** The channels of streams. *)
Definition capacity : nat := Z.to_nat (BufferSize config).

(** A running frontend: the server, the keepalives (whose ticker is made: with a KeepAlive that is not positive the start stops
    the gateway), and calls of Stop. *)
Definition running_frontend (w : world cmd State label) : Prop :=
  st w = fresh_state /\ panicked w = false /\ forall t p, tasks w !! t = Some p -> p ∈ [Ret (Again Serve); Ret (Again Keep); Ret (Again Stopping)].

Local Notation sse_reachable w0 w := (reachable (exec capacity) panics body (fun _ _ => False) w0 w).

(** ** The discipline *)

Definition notice (d : string) : Prop := d = keepalive.
Definition renders (r : Response) (d : string) : Prop := marshal r = Ok d.
Definition label_env (l : label) (e e2 : env) : Prop :=
  weaker e e2 /\ owes e = 0 /\ e2 = match l with StreamLoop c id => set_own (Some (c, id, true)) nothing | _ => nothing end.

Local Notation Pre := (pre true Sessions.User notice renders (fun _ _ => False) data_event).
Local Notation Valid := (valid true).
Local Notation Post := (post true).
Local Notation WP p e Q := (wp Pre Valid Post split exit_ok label_env p e Q).
Local Notation OK p e := (goroutine_ok Pre Valid Post split exit_ok label_env p e).

Ltac then_ L := apply wp_bind; eapply wp_mono; [eapply L; try done|cbn beta; intros ? ? ?].
Ltac do_ := apply wp_bind, wp_perform; [cbn [pre]; try done|cbn [valid post]; intros ? ?].

Tactic Notation "do_as" simple_intropattern(x) ident(Hx) := apply wp_bind, wp_perform; [cbn [pre]; try done|cbn [valid post]; intros x Hx].

Lemma t_fail code e : owes e = 0 -> OK (fail code) e.
Proof. intros Ho. unfold fail, sendHTTPError. do_. do_. done. Qed.

(** A stream's goroutine leaves: it closes the stream, removes it, and counts it off. *)
Lemma sse_t_leave c id e : own e = Some (c, id, true) -> owes e = 0 -> OK (leave c id) e.
Proof.
  intros Ho He. unfold leave, removeStream. do_; [right; exists id, true; by split; [|left]|]. apply wp_bind. do_as o Hx; [by exists c|].
  destruct o as [c'|]; [|by destruct Hx as (? & _ & ?)]. do_. apply wp_perform; [done|]. intros ? ?. apply wp_ret. unfold exit_ok. cbn. lia.
Qed.

Lemma t_handleSSEStream q : OK (handleSSEStream q) nothing.
Proof.
  unfold handleSSEStream, checkConnectionLimit. case_bool_decide; cbn [negb]; [|by apply t_fail].
  destruct flushes; cbn [negb]; [|by do_]. apply wp_bind. do_. apply wp_ret.
  destruct (_ <? _); cbn [negb]; [|by apply t_fail]. do_.
  destruct x0 as [claims|[]]; try (by apply t_fail); [|done]. do_.
  destruct x0 as [sess| |]; [|by apply t_fail|done]. unfold createAndRegisterStream. apply wp_bind. do_. do_. do_. do_. apply wp_ret. do_.
  apply wp_ret. eexists. split; [|by split]. split; cbn; try (by left); try (by right); try done; apply list_subseteq_nil.
Qed.

Lemma t_handleStreamLoop c id : OK (handleStreamLoop c id) (set_own (Some (c, id, true)) nothing).
Proof.
  unfold handleStreamLoop. do_. destruct x as [event| | | |]; try (by apply sse_t_leave). do_; [exists event; split; [left|done]|].
  destruct x; [|by apply sse_t_leave].
  apply wp_ret. eexists. split; [|by split]. split; cbn; try (by left); try done; apply list_subseteq_nil.
Qed.

Lemma t_handleRequest q : OK (handleRequest q) nothing.
Proof.
  unfold handleRequest. case_bool_decide; cbn [negb]; [|by apply t_fail]. do_.
  destruct x as [claims|[]]; try (by apply t_fail); [|done]. destruct (h_complete q); cbn [negb]; [|by apply t_fail]. do_as o Hu.
  destruct o as [[c sess0]|]; [|by apply t_fail]. unfold processRequest. destruct (unwrap _) as [[req ns]|err]; [|by apply wp_bind, wp_ret, t_fail].
  do_; [left|]. destruct x as [resp|err]; [|by apply t_fail]. unfold sendEventToStream. destruct (marshal resp) as [data|err] eqn:Em; [|by apply wp_bind, wp_ret, t_fail].
  apply wp_bind. do_.
  - split; [|by left]. right; left. exists sess0, resp. split; [left|]. split; [|done]. rewrite (Hu c sess0) by done. left.
  - by destruct x; apply wp_ret; first [apply t_fail|done].
Qed.

Lemma t_keepalives streams e : WP (keepalives streams) e (fun _ e' => e' = e).
Proof. induction streams as [|c streams IH]; [done|]. cbn [keepalives]. by do_. Qed.

Lemma t_keepAliveLoop : OK keepAliveLoop nothing.
Proof.
  unfold keepAliveLoop, sendKeepAlive. do_. destruct x; [|done]. apply wp_bind. do_. do_.
  then_ t_keepalives. subst. apply wp_perform; [cbn; eauto|]. intros ? ?. apply wp_ret. exists nothing. split; [apply weaker_nothing|done].
Qed.

Lemma t_close_streams streams e : stop e = Some true -> WP (close_streams streams) e (fun _ e' => e' = e).
Proof. intros Hs. induction streams as [|c streams IH]; [done|]. cbn [close_streams]. do_; [by left|done]. Qed.

Lemma sse_t_Stop : OK Stop nothing.
Proof.
  unfold Stop, closeAllStreams. do_. destruct x; [|done]. do_. apply wp_bind. do_. eapply wp_mono; [by apply t_close_streams|].
  intros _ e' ->. do_. done.
Qed.

Lemma sse_t_serve : OK serve nothing.
Proof.
  unfold serve. do_. apply wp_bind. apply wp_go with (ec := nothing) (e1 := nothing); [|unfold dispatch|].
  - split; [reflexivity|reflexivity|by left].
  - unfold default, id. destruct (Server.mux_lookup _ _) as [h|] eqn:E; [|unfold not_found; by do_].
    destruct (Server.mux_lookup_elem _ _ _ E) as (p & [[= <- <-]|[[= <- <-]|[[= <- <-]|[]]]]);
      [apply t_handleSSEStream|apply t_handleRequest|unfold handleHealth; by do_; do_].
  - apply wp_ret. exists nothing. split; [apply weaker_nothing|done].
Qed.

Lemma sse_t_body l e e2 : label_env l e e2 -> weaker e e2 /\ owes e2 = owes e /\ OK (body l) e2.
Proof.
  intros (Hw & Ho & ->). split_and!; [done|by rewrite Ho; destruct l|].
  destruct l; [apply sse_t_serve|apply t_handleStreamLoop|apply t_keepAliveLoop|apply sse_t_Stop].
Qed.

Lemma sse_typed w0 w : running_frontend w0 -> sse_reachable w0 w ->
  typed panics (Inv true Sessions.User notice renders (fun _ _ => False) data_event) Pre Valid Post split exit_ok label_env (crash true) w.
Proof.
  intros (Hs & Hp & Ht) Hr. eapply sound; [|..|exact Hr]; [eapply stream_rules, sse_t_body|]. destruct w0 as [s ts pn]. cbn in *. subst.
  apply typed_start. intros t p Hin. specialize (Ht t p Hin).
  assert (forall l, OK (Ret (Again l)) nothing <-> exists e2, label_env l nothing e2) as Hl by done.
  repeat (apply elem_of_cons in Ht as [->|Ht]); [| | |by apply not_elem_of_nil in Ht]; exists nothing; (split; [apply weaker_nothing|done]).
Qed.

(** ** Every interleaving *)

(** C6: Whatever the interleaving, every event the SSE frontend writes on a stream is a keepalive or the encoding of a
    response that the router gave to a request of the stream's own user, who was authenticated. *)
Theorem sse_streams_isolated w0 w c d :
  running_frontend w0 -> sse_reachable w0 w -> d ∈ out c (log (st w)) ->
  exists event, d = data_event event /\
    (event = keepalive \/ exists k resp, conns (table (st w)) !! c = Some k /\ marshal resp = Ok event /\
       (Sessions.User (c_session k), resp) ∈ granted (log (st w)) /\ Sessions.User (c_session k) ∈ identities (log (st w))).
Proof.
  intros H0 Hr Hd. pose proof (sse_typed _ _ H0 Hr) as Ht. destruct (typed_out _ _ _ _ _ _ _ _ _ _ Ht Hd) as (event & -> & Hp).
  exists event. split; [done|]. destruct Hp as [Hp|(k & Hk & [(r & Hg & Hm)|(? & _ & [])])]; [by left|right].
  exists k, r. split_and!; [done..|]. destruct Ht as (_ & es & Hi & _). by eapply (g_granted _ _ _ _ _ _ _ (i_global _ _ _ _ _ _ _ _ Hi)).
Qed.

(** Whatever the interleaving, the only command of the SSE frontend that can stop the gateway is the keepalive to a
    stream that is closed but still registered. *)
Lemma sse_panics_only_keepalive w0 w :
  running_frontend w0 -> sse_reachable w0 w -> panicked w = true ->
  exists t c d k, tasks w !! t = Some (Do (TrySend c d) k) /\ is_closed c (table (st w)) = true.
Proof.
  intros H0 Hr Hp. destruct (sse_typed _ _ H0 Hr) as [Hc _]. destruct (Hc Hp) as (t & X & c & k & Ht & Hs & Hx).
  destruct c; try done. by exists t, c, d, k.
Qed.

(** Whenever all goroutines of the SSE frontend rest between two steps, its count of streams is the number of
    registered streams. *)
Lemma sse_count_exact w0 w :
  running_frontend w0 -> sse_reachable w0 w -> (forall t p, tasks w !! t = Some p -> exists n, p = Ret n) ->
  connCount (st w) = wrap_s 64 (Z.of_nat (size (registry (table (st w))))).
Proof. intros H0 Hr Hq. eapply typed_count; [|by eapply sse_typed|done]. by intros l e e2 (_ & Ho & _). Qed.

End Sse.

(** ** Runs *)

#[local] Existing Instance Toy.json.

Definition sample_config : SseConfig := sse_ApplyDefaults (mkSseConfig "" 0 "" "" 0 1 0 0 0).
Definition sample_start : world cmd State label :=
  {| st := fresh_state; panicked := false; tasks := <[0%nat := Ret (Again Serve)]> (<[1%nat := Ret (Again Keep)]> {[2%nat := Ret (Again Stopping)]}) |}.
Definition play (sched : list (nat * (State -> forall X, cmd X -> X))) : option (world cmd State label) :=
  run (exec (capacity sample_config)) panics (body sample_config true) sched sample_start.
Definition final {A} (f : world cmd State label -> A) (sched : list (nat * (State -> forall X, cmd X -> X))) : option A := f <$> play sched.

Lemma sse_play_reachable sched w :
  play sched = Some w -> reachable (exec (capacity sample_config)) panics (body sample_config true) (fun _ _ => False) sample_start w.
Proof. apply run_reachable, reach_init. Qed.

Lemma sse_final_played {A} (f : world cmd State label -> A) sched a : final f sched = Some a -> exists w, play sched = Some w /\ f w = a.
Proof. unfold final. destruct (play sched) as [w|]; [|done]. intros [= <-]. by exists w. Qed.

Lemma sse_sample_running : running_frontend sample_start.
Proof.
  split_and!; [done|done|]. intros t p Hp. cbn in Hp.
  apply lookup_insert_Some in Hp as [[_ <-]|[_ Hp]]; [left|]. apply lookup_insert_Some in Hp as [[_ <-]|[_ Hp]]; [right; left|].
  apply lookup_singleton_Some in Hp as [_ <-]. right; right; left.
Qed.

Definition get (user id : string) (fails : bool) : script :=
  mkScript (mkHreq "/events" "GET" "Bearer t" "" true "1.2.3.4") user id 0 "" Toy.reply fails.
Definition post_text : string :=
  String.string_of_list_byte (Toy.print (wire_doc (mkWireMessage (JString "r1") "2024" "client" "k8s" JNull "") (request_doc Toy.call))).
Definition post_to (user : string) (c : nat) : script :=
  mkScript (mkHreq "/api/v1/request" "POST" "Bearer t" post_text true "1.2.3.4") user "" c "" Toy.reply false.
Definition go_on (n t : nat) (a : script) := moves (capacity sample_config) n t a.

(** The goroutines: 0 the server, 1 the keepalives, 2 Stop, then one per request. *)
Definition connect (t : nat) (a : script) := go_on 3 0 a ++ go_on 9 t a.

(** A request is answered on the stream of its user. *)
Definition exchange := connect 3 (get "alice" "s1" false) ++ go_on 3 0 (post_to "alice" 0) ++ go_on 7 4 (post_to "alice" 0) ++ go_on 2 3 (get "alice" "s1" false).
Example sse_exchange_answered :
  final (fun w => (out 0 (log (st w)), connCount (st w), panicked w)) exchange
  = Some ([data_event (String.string_of_list_byte (Toy.print (response_doc Toy.reply)))], 1, false).
Proof. vm_compute. reflexivity. Qed.

(** A failed write closes the stream before it is removed; a keepalive in between stops the gateway. *)
Definition failed_write :=
  connect 3 (get "alice" "s1" true) ++ go_on 6 1 (get "" "" false) ++ go_on 3 3 (get "alice" "s1" true) ++ go_on 5 1 (get "" "" false).
Example keepalive_stops_gateway : final panicked failed_write = Some true.
Proof. vm_compute. reflexivity. Qed.

(** The limit is checked before the stream is counted: two streams at once pass a limit of one. *)
Definition two_streams :=
  go_on 3 0 (get "alice" "s1" false) ++ go_on 3 0 (get "alice" "s2" false) ++
  go_on 1 3 (get "alice" "s1" false) ++ go_on 1 4 (get "alice" "s2" false) ++
  go_on 8 3 (get "alice" "s1" false) ++ go_on 8 4 (get "alice" "s2" false).
Example sse_limit_exceeded : final (fun w => (sc_MaxConnections sample_config, connCount (st w))) two_streams = Some (1, 2).
Proof. vm_compute. reflexivity. Qed.

(** A response goes to any stream of its user: with two clients of one user, to either, whoever asked. *)
Example answered_on_other_stream :
  forall c, c = 0%nat \/ c = 1%nat ->
  final (fun w => (length (buf 0 (log (st w))), length (buf 1 (log (st w)))))
    (two_streams ++ go_on 3 0 (post_to "alice" c) ++ go_on 7 5 (post_to "alice" c))
  = Some (if bool_decide (c = 0%nat) then (1, 0) else (0, 1))%nat.
Proof. intros c [->| ->]; vm_compute; reflexivity. Qed.

(** Behind a response writer that cannot flush, as behind a shared address, no stream opens. *)
Example no_stream_without_flusher q : handleSSEStream sample_config false q = if bool_decide (h_method q = "GET"%string) then (_ ← perform (Reply 500); mret Exit) else fail 405.
Proof. unfold handleSSEStream. by case_bool_decide. Qed.

(** *** Witnesses *)

Lemma sse_streams_isolated_witness :
  exists w event, play exchange = Some w /\ out 0 (log (st w)) = [data_event event] /\
    (event = keepalive \/ exists k resp, conns (table (st w)) !! 0%nat = Some k /\ marshal resp = Ok event /\
       (Sessions.User (c_session k), resp) ∈ granted (log (st w)) /\ Sessions.User (c_session k) ∈ identities (log (st w))).
Proof.
  destruct (sse_final_played (fun w => out 0 (log (st w))) exchange [data_event (String.string_of_list_byte (Toy.print (response_doc Toy.reply)))])
    as (w & E & Ho); [vm_compute; reflexivity|].
  destruct (sse_streams_isolated sample_config true sample_start w 0 (data_event (String.string_of_list_byte (Toy.print (response_doc Toy.reply))))
              sse_sample_running (sse_play_reachable _ _ E)) as (event & He & Hx); [rewrite Ho; left|].
  exists w, event. split; [exact E|split; [|exact Hx]]. rewrite Ho. f_equal. exact He.
Defined.

Lemma sse_panics_only_keepalive_witness :
  exists w, play failed_write = Some w /\ exists t c d k, tasks w !! t = Some (Do (TrySend c d) k) /\ is_closed c (table (st w)) = true.
Proof.
  destruct (sse_final_played panicked failed_write true) as (w & E & Hp); [vm_compute; reflexivity|]. exists w. split; [exact E|].
  exact (sse_panics_only_keepalive sample_config true sample_start w sse_sample_running (sse_play_reachable _ _ E) Hp).
Defined.

Lemma sse_count_exact_witness :
  exists w, play exchange = Some w /\ connCount (st w) = wrap_s 64 (Z.of_nat (size (registry (table (st w))))).
Proof.
  destruct (sse_final_played (fun w => forallb (fun tp => match snd tp with Ret _ => true | _ => false end) (map_to_list (tasks w))) exchange true)
    as (w & E & Hq); [vm_compute; reflexivity|]. exists w. split; [exact E|].
  apply (sse_count_exact sample_config true sample_start w sse_sample_running (sse_play_reachable _ _ E)).
  intros t p Hp%elem_of_map_to_list%list_elem_of_In. rewrite forallb_forall in Hq. specialize (Hq (t, p) Hp). destruct p as [n| |]; [by exists n|discriminate..].
Defined.

End SseFrontend.
