(* ===== verification/WsFrontend.v ===== *)
(** * The WebSocket frontend

    [services/gateway/internal/frontends/websocket/frontend.go]: the upgrade, a reader and a writer for each
    connection, counters by address, and the shutdown, as programs of [Goroutines] over the commands of [Streams];
    what any interleaving of them writes on a connection, when the gateway can panic, when the count of connections
    is right, and how many replies a message gets. *)
From S2P Require Import Prelude GoIO GoStrings Wire Mcp RateLimit Session Auth Server Transport Frontends Goroutines Streams StreamsTheorems.
#[local] Open Scope Z_scope.

Module WsFrontend.
Import Transport Frontends Streams StreamsTheorems.

(** The goroutines between their steps: the HTTP server's, a connection's reader and writer, a call of Stop. *)
Inductive label := Serve | Reader (c : nat) (id ip : string) | Writer (c : nat) | Stopping.

Local Notation P := (prog cmd label).
Local Notation next := (Goroutines.next label).

Definition print `{WireJSON} (v : jvalue) : result string string :=
  match Print v with Ok data => Ok (String.string_of_list_byte data) | Err e => Err e end.

(** A response on the wire, and the notice of the shutdown, which is not wrapped. *)
Definition response_text `{WireJSON} (timestamp : string) (resp : Response) : result string string :=
  print (wire_doc (mkWireMessage (resp_ID resp) timestamp "gateway" "" JNull "") (response_doc resp)).
Definition shutting_down : Response :=
  mkResponse "2.0" JNull (Some (mkMcpError ErrorCodeInternalError "Server shutting down" JNull)) JNull.

(** [extractRequestID]: the last field of that name. *)
Definition extractRequestID `{WireJSON} (data : string) : jvalue :=
  match Parse (String.list_byte_of_string data) with
  | Ok (JObject fields) =>
      match List.find (fun kv => bool_decide (fst kv = "id"%string)) (rev fields) with Some (_, v) => any v | None => JNull end
  | _ => JNull
  end.

Definition error_reply (requestID : jvalue) (err : string) : Response :=
  mkResponse "2.0" JNull (Some (mkMcpError ErrorCodeInternalError err JNull)) requestID.

Section Ws.
Context `{WireJSON}.
Variable config : WsConfig.

(** ** Replies *)

(** [sendResponse]: the error it returns. *)
Definition sendResponse (c : nat) (resp : Response) : P (option string) :=
  t ← perform Now;
  match response_text t resp with
  | Err e => mret (Some ("failed to marshal response: " +:+ e)%string)
  | Ok data =>
      x ← perform (SendSel true c data);
      match x with
      | Sent => mret None
      | SawDone => mret (Some "connection closed"%string)
      | TimedOut => mret (Some "write timeout"%string)
      | ClosedPanic => _ ← perform Crash; mret None
      end
  end.

Definition sendErrorResponse (c : nat) (requestID : jvalue) (err : string) : P unit :=
  _ ← sendResponse c (error_reply requestID err);
  perform (Metric inc_errors).

Definition processClientMessage (c : nat) (data : string) : P (option string) :=
  _ ← perform (Metric inc_requests);
  match unwrap (String.list_byte_of_string data) with
  | Err e => mret (Some e)
  | Ok (req, ns) =>
      sess ← perform (SessionOf c);
      r ← perform (Route (Sessions.ID sess) (WithValue CommonKey sess []) req ns);
      match r with
      | Err e => mret (Some e)
      | Ok resp => sendResponse c resp
      end
  end.

(** ** Connections *)

Definition incrementIPConnCount (ip : string) : P unit :=
  counter ← perform (IpLoadOrStore ip); _ ← perform (IpAdd counter 1); mret tt.
Definition decrementIPConnCount (ip : string) : P unit :=
  o ← perform (IpLoad ip);
  match o with
  | Some counter => n ← perform (IpAdd counter (-1)); if n <=? 0 then perform (IpDelete ip) else mret tt
  | None => mret tt
  end.

Definition dec_active_pos (m : FrontendMetrics) : FrontendMetrics := if 0 <? ActiveConnections m then dec_active m else m.

Definition removeConnection (id ip : string) : P unit :=
  o ← perform (Remove id);
  match o with
  | Some _ =>
      _ ← perform (AddCount (-1));
      _ ← decrementIPConnCount ip;
      _ ← perform (Metric dec_active_pos);
      perform (ClearBackendSessions id)
  | None => mret tt
  end.

(** The deferred calls of the reader. *)
Definition leave (c : nat) (id ip : string) : P next := _ ← removeConnection id ip; _ ← perform (CloseConn c); mret Exit.

(** One round of [handleClientRead]. *)
Definition handleClientRead (c : nat) (id ip : string) : P next :=
  done ← perform (Poll c);
  if done : bool then leave c id ip
  else
    x ← perform (ReadNet c);
    match x with
    | NErr => leave c id ip
    | NOther => mret (Again (Reader c id ip))
    | NText data =>
        o ← processClientMessage c data;
        _ ← match o with None => mret tt | Some e => sendErrorResponse c (extractRequestID data) e end;
        mret (Again (Reader c id ip))
    end.

(** One round of [handleClientWrite]. *)
Definition handleClientWrite (c : nat) : P next :=
  x ← perform (Recv true c);
  match x with
  | RMsg msg => ok ← perform (Output c msg); if ok : bool then mret (Again (Writer c)) else mret Exit
  | RTick => ok ← perform (Ping c); if ok : bool then mret (Again (Writer c)) else mret Exit
  | RClosed | RDone | RShutdown => mret Exit
  end.

Definition setupAndRegisterConnection (sess : Sessions.Session) (ip : string) : P unit :=
  c ← perform (NewConn sess ip);
  _ ← perform (Register (Sessions.ID sess) c);
  _ ← perform (AddCount 1);
  _ ← incrementIPConnCount ip;
  _ ← perform (Metric (fun m => inc_total (inc_active m)));
  _ ← go (mret (Again (Reader c (Sessions.ID sess) ip)));
  go (mret (Again (Writer c))).

(** A panic in the handler is recovered by net/http. *)
Definition handler_panic : P next := mret Exit.
Definition refuse (code : option Z) : P next :=
  _ ← match code with Some code => perform (Reply code) | None => mret tt end;
  _ ← perform (Metric inc_errors);
  mret Exit.

Definition checkConnectionLimits : P bool := n ← perform LoadCount; mret (n <? wc_MaxConnections config).

(** [handleWebSocketUpgrade]; [Upgrade] answers a request that it refuses itself. *)
Definition handleWebSocketUpgrade (q : hreq) : P next :=
  ok ← checkConnectionLimits;
  if negb ok then refuse (Some 503)
  else
    a ← perform (Authenticate (h_auth q));
    match a with
    | Err Auth.Panicked => handler_panic
    | Err _ => refuse (Some 401)
    | Ok claims =>
        up ← perform Upgrade;
        if negb up then refuse None
        else
          s ← perform (CreateSession claims);
          match s with
          | CreatePanic => handler_panic
          | NotCreated => refuse None
          | Created sess => _ ← setupAndRegisterConnection sess (h_ip q); mret Exit
          end
    end.

Definition dispatch (q : hreq) : P next :=
  default (_ ← perform (Reply 404); mret Exit) (Server.mux_lookup [(wc_Path config, handleWebSocketUpgrade q)] (h_path q)).

(** ** The shutdown *)

Fixpoint notify (connections : list nat) (data : string) : P unit :=
  match connections with
  | [] => mret tt
  | c :: connections =>
      x ← perform (SendSel false c data);
      _ ← match x with ClosedPanic => perform Crash | _ => mret tt end;
      notify connections data
  end.

Definition notifyConnectionsOfShutdown : P unit :=
  tk ← perform RLock;
  connections ← perform Entries;
  _ ← match print (response_doc shutting_down) with Ok data => notify connections data | Err _ => mret tt end;
  perform (RUnlock tk).

Fixpoint close_connections (connections : list nat) : P unit :=
  match connections with
  | [] => mret tt
  | c :: connections => _ ← perform (CloseConn c); close_connections connections
  end.
Definition closeAllConnections : P unit := connections ← perform TakeAll; close_connections connections.

Definition no_connections (m : FrontendMetrics) : FrontendMetrics :=
  mkFrontendMetrics 0 (TotalConnections m) (RequestCount m) (ErrorCount m) false.

Definition Stop : P next :=
  was ← perform BeginStop;
  if was : bool then
    _ ← perform CloseShutdown;
    _ ← notifyConnectionsOfShutdown;
    _ ← closeAllConnections;
    _ ← perform (Metric no_connections);
    mret Exit
  else mret Exit.

Definition serve : P next := q ← perform Accept; _ ← go (dispatch q); mret (Again Serve).

Definition body (l : label) : P next :=
  match l with Serve => serve | Reader c id ip => handleClientRead c id ip | Writer c => handleClientWrite c | Stopping => Stop end.

(** [defaultWriteChSize]. *)
Definition capacity : nat := 256.

Definition running_frontend (w : world cmd State label) : Prop :=
  st w = fresh_state /\ panicked w = false /\ forall t p, tasks w !! t = Some p -> p ∈ [Ret (Again Serve); Ret (Again Stopping)].

Local Notation ws_reachable w0 w := (reachable (exec capacity) panics body (fun _ _ => False) w0 w).

(** ** The discipline *)

Definition notice (d : string) : Prop := print (response_doc shutting_down) = Ok d.
Definition renders (r : Response) (d : string) : Prop := exists t, response_text t r = Ok d.
Definition complains (data d : string) : Prop := exists t err, response_text t (error_reply (extractRequestID data) err) = Ok d.
Definition reader_env (c : nat) (id : string) : env := add_who id (set_own (Some (c, id, true)) nothing).
Definition label_env (l : label) (e e2 : env) : Prop :=
  weaker e e2 /\ owes e = 0 /\ e2 = match l with Reader c id _ => reader_env c id | _ => nothing end.

Local Notation Pre := (pre false Sessions.ID notice renders complains (fun d => d)).
Local Notation Valid := (valid false).
Local Notation Post := (post false).
Local Notation WP p e Q := (wp Pre Valid Post split exit_ok label_env p e Q).
Local Notation OK p e := (goroutine_ok Pre Valid Post split exit_ok label_env p e).

Ltac then_ L := apply wp_bind; eapply wp_mono; [eapply L; try done|cbn beta; intros ? ? ?].
Ltac do_ := apply wp_bind, wp_perform; [cbn [pre]; try done|cbn [valid post]; intros ? ?].
Tactic Notation "do_as" simple_intropattern(x) ident(Hx) := apply wp_bind, wp_perform; [cbn [pre]; try done|cbn [valid post]; intros x Hx].

(** What a reader keeps through a message: its connection, and what it learns. *)
Record ext (e e' : env) : Prop := {
  ext_own : own e' = own e; ext_owes : owes e' = owes e; ext_who w : w ∈ who e -> w ∈ who e'; ext_read a : a ∈ read e -> a ∈ read e' }.

#[local] Instance ext_preorder : PreOrder ext.
Proof. split; [intros e; by split|]. intros e1 e2 e3 [H1 H2 H3 H4] [H5 H6 H7 H8]. split; [congruence..|auto|auto]. Qed.

Lemma ws_t_sendResponse c resp id e :
  own e = Some (c, id, true) -> (forall d, renders resp d -> may_send Sessions.ID notice renders complains c d e) ->
  WP (sendResponse c resp) e (fun _ e' => ext e e').
Proof.
  intros Ho Hm. unfold sendResponse. do_as t Ht. destruct (response_text t resp) as [data|err] eqn:Et; [|by apply wp_ret].
  do_as x Hx; [split; [apply Hm; by exists t|right; left; by exists id]|]. destruct x; try by apply wp_ret.
  do_. by apply wp_ret.
Qed.

Lemma ws_t_sendErrorResponse c id data err e :
  own e = Some (c, id, true) -> (c, data) ∈ read e -> WP (sendErrorResponse c (extractRequestID data) err) e (fun _ e' => ext e e').
Proof.
  intros Ho Hr. unfold sendErrorResponse. then_ ws_t_sendResponse; [|by apply wp_perform].
  intros d [t Hd]. right; right. exists id, true, data. split_and!; [done|done|by exists t, err].
Qed.

Lemma t_processClientMessage c id data e :
  own e = Some (c, id, true) -> id ∈ who e -> WP (processClientMessage c data) e (fun _ e' => ext e e').
Proof.
  intros Ho Hw. unfold processClientMessage. do_. destruct (unwrap _) as [[req ns]|err]; [|by apply wp_ret].
  do_as sess0 Hs. specialize (Hs id true Ho). do_as r Hr; [cbn; by rewrite Hs|]. destruct r as [resp|err]; [|by apply wp_ret].
  eapply wp_mono; [eapply ws_t_sendResponse; [exact Ho|]|].
  - intros d Hd. right; left. exists sess0, resp. split_and!; [left|left|done].
  - intros ? e' He. etrans; [|exact He]. by split.
Qed.

Lemma t_decrementIPConnCount ip e : WP (decrementIPConnCount ip) e (fun _ e' => e' = e).
Proof. unfold decrementIPConnCount. do_as o Ho. destruct o as [p|]; [|done]. do_as n Hn. by destruct (n <=? 0). Qed.

Lemma ws_t_leave c id ip e : own e = Some (c, id, true) -> owes e = 0 -> OK (leave c id ip) e.
Proof.
  intros Ho He. unfold leave, removeConnection. apply wp_bind. do_as o Hx; [by exists c|]. destruct o as [c'|]; [|by destruct Hx as (? & _ & ?)].
  assert (c' = c) as -> by (destruct Hx as (? & ? & [= ->]); congruence). do_. then_ t_decrementIPConnCount. subst. do_. apply wp_perform; [done|]. intros ? ?.
  do_; [right; exists id, false; split; [done|by right]|]. apply wp_ret. unfold exit_ok. cbn. rewrite bool_decide_eq_true_2 by done. cbn. lia.
Qed.

Lemma weaker_reader e c id : own e = Some (c, id, true) -> id ∈ who e -> weaker e (reader_env c id).
Proof.
  intros Ho Hw. split; cbn; try (by right); try done; try apply list_subseteq_nil; [by left|]. by intros w ->%list_elem_of_singleton.
Qed.

Lemma t_handleClientRead c id ip : OK (handleClientRead c id ip) (reader_env c id).
Proof.
  unfold handleClientRead. do_. destruct x; [by apply ws_t_leave|]. do_as x Hx. destruct x as [data| |]; [|by apply wp_ret; eexists; split; [by apply weaker_reader; [|left]|]|by apply ws_t_leave].
  then_ t_processClientMessage; [left|].
  assert (forall e', ext (add_read (c, data) (reader_env c id)) e' -> WP (mret (Again (Reader c id ip))) e'
    (fun n e' => match n with Exit => exit_ok e' | Again l => exists e2, label_env l e' e2 end)) as Hag.
  { intros e3 He. apply wp_ret. eexists. split; [apply weaker_reader; [by rewrite (ext_own _ _ He)|apply He; left]|]. by rewrite (ext_owes _ _ He). }
  match goal with He : ext _ _ |- _ => rename He into He1 end. destruct a as [err|]; [|by apply Hag].
  then_ ws_t_sendErrorResponse; [by rewrite (ext_own _ _ He1)|apply He1; left|]. apply Hag. by etrans.
Qed.

Lemma t_handleClientWrite c : OK (handleClientWrite c) nothing.
Proof.
  assert (forall e, owes e = 0 -> WP (mret (Again (Writer c))) e
    (fun n e' => match n with Exit => exit_ok e' | Again l => exists e2, label_env l e' e2 end)) as Hag.
  { intros e He. apply wp_ret. eexists. split; [apply weaker_nothing|done]. }
  unfold handleClientWrite. do_as x Hx. destruct x as [msg| | | |]; try done.
  - do_as ok Hok; [exists msg; split; [left|done]|]. destruct ok; [by apply Hag|done].
  - do_as ok Hok. destruct ok; [by apply Hag|done].
Qed.

(** The two goroutines of a connection: the reader gets it. *)
Lemma t_start_handlers c id ip e :
  own e = Some (c, id, true) -> id ∈ who e -> owes e = 0 ->
  WP (_ ← go (mret (Again (Reader c id ip))); go (mret (Again (Writer c)))) e (fun _ e' => owes e' = 0).
Proof.
  intros Ho Hw He. apply wp_bind.
  apply wp_go with (ec := mkEnv (own e) None None None (saw e) (knows e) (who e) (answered e) (read e) (got e) 0) (e1 := set_own None e).
  - split; [done|done|by right].
  - eexists. split; [by apply weaker_reader|done].
  - apply wp_go with (ec := mkEnv None None None None (saw e) (knows e) (who e) (answered e) (read e) (got e) 0) (e1 := set_own None e).
    + split; [done|done|by left].
    + eexists. split; [apply weaker_nothing|done].
    + done.
Qed.

Lemma t_handleWebSocketUpgrade q : OK (handleWebSocketUpgrade q) nothing.
Proof.
  assert (forall code e, owes e = 0 -> OK (refuse code) e) as Href.
  { intros [code|] e He; unfold refuse; [do_|apply wp_bind, wp_ret]; by do_. }
  unfold handleWebSocketUpgrade, checkConnectionLimits. apply wp_bind. do_. apply wp_ret. destruct (_ <? _); cbn [negb]; [|by apply Href].
  do_as a Ha. destruct a as [claims|[]]; try (by apply Href); [|done]. do_as up Hup. destruct up; cbn [negb]; [|by apply Href].
  do_as s Hs. destruct s as [sess| |]; [|by apply Href|done]. unfold setupAndRegisterConnection, incrementIPConnCount.
  apply wp_bind. do_as c Hc. do_. do_. apply wp_bind. do_. do_. apply wp_ret. do_.
  eapply wp_mono; [apply t_start_handlers; [reflexivity|left|reflexivity]|]. done.
Qed.

Lemma t_notify connections data tk l e :
  holds e = Some (tk, l) -> stop e = Some false -> (forall c, c ∈ connections -> c ∈ l) -> notice data ->
  WP (notify connections data) e (fun _ e' => e' = e).
Proof.
  intros Hh Hs Hl Hn. induction connections as [|c connections IH]; [done|]. cbn [notify].
  do_as x Hx; [split; [by left|]; do 2 right; split; [done|]; exists tk, l; split; [done|apply Hl; left]|].
  assert (WP (notify connections data) e (fun _ e' => e' = e)) as Hr by (apply IH; intros c' Hc'; apply Hl; by right).
  destruct x; try (by apply wp_bind, wp_ret). by destruct (Hx eq_refl) as [?|[]].
Qed.

Lemma t_close_connections connections e : owes e = 0 -> stop e = Some true -> WP (close_connections connections) e (fun _ e' => owes e' = 0).
Proof.
  revert e. induction connections as [|c connections IH]; intros e Ho Hs; [done|]. cbn [close_connections]. do_; [by left|].
  apply IH; destruct (own e) as [[[c' id] r]|]; [case_bool_decide| |case_bool_decide|]; done.
Qed.

Lemma ws_t_Stop : OK Stop nothing.
Proof.
  unfold Stop, notifyConnectionsOfShutdown, closeAllConnections. do_as was Hw. destruct was; [|done]. do_. apply wp_bind. do_as tk Ht. do_as l Hl.
  apply wp_bind, wp_mono with (Q := fun _ e' => e' = set_holds (Some (tk, l)) (set_holds (Some (tk, [])) (set_stop (Some false) nothing))).
  - destruct (print _) as [data|] eqn:Ep; [|done]. by apply (t_notify l data tk l).
  - intros ? ? ->. apply wp_perform; [cbn; eauto|]. intros ? ?. apply wp_bind. do_. eapply wp_mono; [by apply t_close_connections|].
    intros ? ? ?. by do_.
Qed.

Lemma ws_t_serve : OK serve nothing.
Proof.
  unfold serve. do_as q Hq. apply wp_bind. apply wp_go with (ec := nothing) (e1 := nothing); [|unfold dispatch|].
  - split; [reflexivity|reflexivity|by left].
  - unfold default, id. destruct (Server.mux_lookup _ _) as [h|] eqn:E; [|by do_].
    destruct (Server.mux_lookup_elem _ _ _ E) as (p & [[= <- <-]|[]]). apply t_handleWebSocketUpgrade.
  - apply wp_ret. exists nothing. split; [apply weaker_nothing|done].
Qed.

Lemma ws_t_body l e e2 : label_env l e e2 -> weaker e e2 /\ owes e2 = owes e /\ OK (body l) e2.
Proof.
  intros (Hw & Ho & ->). split_and!; [done|by rewrite Ho; destruct l|].
  destruct l; [apply ws_t_serve|apply t_handleClientRead|apply t_handleClientWrite|apply ws_t_Stop].
Qed.

Local Notation WsInv := (Inv false Sessions.ID notice renders complains (fun d => d)).

Lemma ws_typed w0 w :
  running_frontend w0 -> ws_reachable w0 w -> typed panics WsInv Pre Valid Post split exit_ok label_env (crash false) w.
Proof.
  intros (Hs & Hp & Ht) Hr. eapply sound; [|..|exact Hr]; [eapply stream_rules, ws_t_body|]. destruct w0 as [s ts pn]. cbn in *. subst.
  apply typed_start. intros t p Hin. specialize (Ht t p Hin).
  repeat (apply elem_of_cons in Ht as [->|Ht]); [| |by apply not_elem_of_nil in Ht]; exists nothing; (split; [apply weaker_nothing|done]).
Qed.

(** ** Every interleaving *)

(** C5: Whatever the interleaving, every message the WebSocket frontend writes on a connection is the notice of the
    shutdown, the wrapped response of the router to a request made in the connection's own session, or a wrapped
    error that carries the id of a message received on that connection. *)
Theorem ws_connections_isolated w0 w c d :
  running_frontend w0 -> ws_reachable w0 w -> d ∈ out c (log (st w)) ->
  print (response_doc shutting_down) = Ok d \/
  exists k, conns (table (st w)) !! c = Some k /\
    ((exists t resp, (Sessions.ID (c_session k), resp) ∈ granted (log (st w)) /\ response_text t resp = Ok d) \/
     (exists t data err, (c, data) ∈ received (log (st w)) /\ response_text t (error_reply (extractRequestID data) err) = Ok d)).
Proof.
  intros H0 Hr Hd. destruct (typed_out _ _ _ _ _ _ _ _ _ _ (ws_typed _ _ H0 Hr) Hd) as (ev & -> & [Hp|(k & Hk & Hp)]); [by left|right].
  exists k. split; [done|]. destruct Hp as [(r & Hg & t & Ht)|(data & Hg & t & err & Ht)]; [left; by exists t, r|right; by exists t, data, err].
Qed.

(** Whatever the interleaving, the WebSocket frontend can stop the gateway only after Stop has sent its notices and
    begun to close connections. *)
Lemma ws_panics_only_closing w0 w :
  running_frontend w0 -> ws_reachable w0 w -> panicked w = true -> running (st w) = false /\ closing (table (st w)) = true.
Proof.
  intros H0 Hr Hp. destruct (ws_typed _ _ H0 Hr) as [Hc (es & Hi & Hd & Ht)]. destruct (Hc Hp) as (t & X & c & k & Hk & Hs & Hx).
  destruct c; try done. assert (exists e, es !! t = Some e) as [e He] by (apply elem_of_dom; rewrite Hd; by apply elem_of_dom_2 in Hk).
  destruct (Ht t _ e Hk He) as [[_ Hsaw] _]. assert (closing (table (st w)) = true) as Hcl by (by eapply t_saw; [eapply i_task|]).
  split; [|done]. destruct (running (st w)) eqn:Er; [|done]. by rewrite (g_running _ _ _ _ _ _ _ (i_global _ _ _ _ _ _ _ _ Hi) Er) in Hcl.
Qed.

(** Whenever all goroutines of the WebSocket frontend rest between two steps, its count of connections is the number
    of registered connections. *)
Lemma ws_count_exact w0 w :
  running_frontend w0 -> ws_reachable w0 w -> (forall t p, tasks w !! t = Some p -> exists n, p = Ret n) ->
  connCount (st w) = wrap_s 64 (Z.of_nat (size (registry (table (st w))))).
Proof. intros H0 Hr Hq. eapply typed_count; [|by eapply ws_typed|done]. by intros l e e2 (_ & Ho & _). Qed.

(** ** Replies to a message *)

(** Sent replies, and what is owed for the texts that were read. *)
Definition sent (X : Type) (c : cmd X) : X -> Z :=
  match c in cmd X return X -> Z with SendSel _ _ _ => fun x => if decide (x = Sent) then 1 else 0 | _ => fun _ => 0 end.
Definition owed (X : Type) (c : cmd X) : X -> Z :=
  match c in cmd X return X -> Z with ReadNet _ => fun x => match x with NText _ => -1 | _ => 0 end | c => sent _ c end.

(** Sends that succeed at once. *)
Definition sends_succeed (X : Type) (c : cmd X) : X -> Prop :=
  match c in cmd X return X -> Prop with SendSel _ _ _ => fun x => x = Sent | _ => fun _ => True end.

Local Notation any_result := (fun X (_ : cmd X) (_ : X) => True).

Lemma sendResponse_once c resp n (Q : Z -> option string -> Prop) :
  (forall o, Q n o) -> Q (n + 1) None -> counts any_result sent (sendResponse c resp) n Q.
Proof.
  intros H0 H1. unfold sendResponse. apply counts_bind, counts_perform. intros t _. cbn [sent]. rewrite Z.add_0_r.
  destruct (response_text t resp) as [data|e]; [|apply counts_ret, H0]. apply counts_bind, counts_perform. intros x _.
  destruct x; cbn [sent decide]; try (apply counts_ret; rewrite ?Z.add_0_r; by apply H0); [by apply counts_ret|].
  apply counts_bind, counts_perform. intros ? _. apply counts_ret. rewrite !Z.add_0_r. apply H0.
Qed.

Lemma leave_sends_nothing c id ip n (adm : forall X, cmd X -> X -> Prop) (w : forall X, cmd X -> X -> Z) (Q : Z -> next -> Prop) :
  (forall X (k : cmd X) x, match k with SendSel _ _ _ | ReadNet _ => False | _ => True end -> w X k x = 0) ->
  (forall a, Q n a) -> counts adm w (leave c id ip) n Q.
Proof.
  intros Hw HQ. unfold leave, removeConnection, decrementIPConnCount.
  apply counts_bind, counts_bind, counts_perform. intros o _. rewrite Hw, Z.add_0_r by done.
  assert (counts (label := label) adm w (_ ← perform (CloseConn c); mret Exit) n Q) as Hend.
  { apply counts_bind, counts_perform. intros ? _. rewrite Hw, Z.add_0_r by done. apply counts_ret, HQ. }
  destruct o; [|by apply counts_ret].
  apply counts_bind, counts_perform. intros ? _. rewrite Hw, Z.add_0_r by done.
  assert (counts (label := label) adm w (_ ← perform (Metric dec_active_pos); perform (ClearBackendSessions id)) n
            (fun m _ => counts (label := label) adm w (_ ← perform (CloseConn c); mret Exit) m Q)) as Hm.
  { apply counts_bind, counts_perform. intros ? _. rewrite Hw, Z.add_0_r by done. apply counts_perform. intros ? _. by rewrite Hw, Z.add_0_r by done. }
  apply counts_bind, counts_bind, counts_perform. intros p _. rewrite Hw, Z.add_0_r by done. destruct p; [|by apply counts_ret].
  apply counts_bind, counts_perform. intros left_over _. rewrite Hw, Z.add_0_r by done.
  destruct (left_over <=? 0); [apply counts_perform; intros ? _; by rewrite Hw, Z.add_0_r by done|by apply counts_ret].
Qed.

(** In a round of a connection's reader at most one reply is sent, also when sends fail and an error is tried after
    the response; and when responses can be encoded and sends succeed, every text the client sent is answered by
    exactly one reply, and nothing else sends one. *)
Lemma ws_one_reply (Hprint : forall t r, is_ok (response_text t r) = true) c id ip :
  counts any_result sent (handleClientRead c id ip) 0 (fun n _ => 0 <= n <= 1) /\
  counts sends_succeed owed (handleClientRead c id ip) 0 (fun n _ => n = 0).
Proof.
  split; unfold handleClientRead.
  - apply counts_bind, counts_perform. intros [] _; [apply leave_sends_nothing; [by intros X []|done]|].
    apply counts_bind, counts_perform. intros [data| |] _; cbn [sent]; [|by apply counts_ret|apply leave_sends_nothing; [by intros X []|done]].
    assert (forall o n, (o = None -> 0 <= n <= 1) -> (o <> None -> n = 0) ->
      counts (label := label) any_result sent (_ ← match o with None => mret tt | Some e => sendErrorResponse c (extractRequestID data) e end; mret (Again (Reader c id ip)))
        n (fun n _ => 0 <= n <= 1)) as Hrest.
    { intros [e|] n Hn Hs; [rewrite (Hs ltac:(done))|by apply counts_ret, Hn]. apply counts_bind. unfold sendErrorResponse.
      apply counts_bind, sendResponse_once; [intros o|]; apply counts_perform; intros ? _; by apply counts_ret. }
    apply counts_bind. unfold processClientMessage. apply counts_bind, counts_perform. intros ? _. cbn [sent].
    destruct (unwrap _) as [[req ns]|e]; [|by apply counts_ret, (Hrest (Some e))].
    apply counts_bind, counts_perform. intros sess _. apply counts_bind, counts_perform. intros r _. cbn [sent].
    destruct r as [resp|e]; [|by apply counts_ret, (Hrest (Some e))]. apply sendResponse_once; [intros o; by apply (Hrest o)|by apply (Hrest None)].
  - assert (forall resp n (Q : Z -> option string -> Prop), Q (n + 1) None -> counts sends_succeed owed (sendResponse c resp) n Q) as Hsend.
    { intros resp n Q HQ. unfold sendResponse. apply counts_bind, counts_perform. intros t _. cbn [owed sent]. rewrite Z.add_0_r.
      specialize (Hprint t resp). destruct (response_text t resp) as [d|e]; [|done]. apply counts_bind, counts_perform. intros x ->. by apply counts_ret. }
    apply counts_bind, counts_perform. intros [] _; [apply leave_sends_nothing; [by intros X []|done]|].
    apply counts_bind, counts_perform. intros [data| |] _; cbn [owed sent]; [|by apply counts_ret|apply leave_sends_nothing; [by intros X []|done]].
    assert (forall e, counts (label := label) sends_succeed owed (_ ← sendErrorResponse c (extractRequestID data) e; mret (Again (Reader c id ip))) (-1) (fun n _ => n = 0)) as Herr.
    { intros e. apply counts_bind. unfold sendErrorResponse. apply counts_bind, Hsend, counts_perform. intros ? _. by apply counts_ret. }
    apply counts_bind. unfold processClientMessage. apply counts_bind, counts_perform. intros ? _. cbn [owed sent].
    destruct (unwrap _) as [[req ns]|e]; [|apply counts_ret, Herr].
    apply counts_bind, counts_perform. intros sess _. apply counts_bind, counts_perform. intros r _. cbn [owed sent].
    destruct r as [resp|e]; [|apply counts_ret, Herr]. apply Hsend. by apply counts_ret.
Qed.

End Ws.
(** ** Runs *)

#[local] Existing Instance Toy.json.

Definition sample_config : WsConfig := ws_ApplyDefaults (mkWsConfig "" 0 "/" 1 0 0 0 0 0 []).
Definition sample_start : world cmd State label :=
  {| st := fresh_state; panicked := false; tasks := <[0%nat := Ret (Again Serve)]> {[1%nat := Ret (Again Stopping)]} |}.
Definition play (sched : list (nat * (State -> forall X, cmd X -> X))) : option (world cmd State label) :=
  run (exec capacity) panics (body sample_config) sched sample_start.
Definition final {A} (f : world cmd State label -> A) (sched : list (nat * (State -> forall X, cmd X -> X))) : option A := f <$> play sched.

Lemma ws_play_reachable sched w : play sched = Some w -> reachable (exec capacity) panics (body sample_config) (fun _ _ => False) sample_start w.
Proof. apply run_reachable, reach_init. Qed.

Lemma ws_final_played {A} (f : world cmd State label -> A) sched a : final f sched = Some a -> exists w, play sched = Some w /\ f w = a.
Proof. unfold final. destruct (play sched) as [w|]; [|done]. intros [= <-]. by exists w. Qed.

Lemma ws_sample_running : running_frontend sample_start.
Proof.
  split_and!; [done|done|]. intros t p Hp. cbn in Hp. apply lookup_insert_Some in Hp as [[_ <-]|[_ Hp]]; [left|].
  apply lookup_singleton_Some in Hp as [_ <-]. right; left.
Qed.

Definition client (user id text : string) (fails : bool) : script :=
  mkScript (mkHreq "/" "GET" "Bearer t" "" true "1.2.3.4") user id 0 text Toy.reply fails.
Definition call_text : string :=
  String.string_of_list_byte (Toy.print (wire_doc (mkWireMessage (JString "r1") "2024" "client" "k8s" JNull "") (request_doc Toy.call))).
Definition go_on (n t : nat) (a : script) := moves capacity n t a.
Definition alice := client "alice" "s1" call_text false.
Definition bob := client "bob" "s2" "" false.

(** The goroutines: 0 the server, 1 Stop, 2 the upgrade, then the reader and the writer of its connection. *)
Definition connect := go_on 3 0 alice ++ go_on 13 2 alice.

Definition exchange := connect ++ go_on 8 3 alice ++ go_on 3 4 alice.
Example ws_exchange_answered :
  final (fun w => (out 0 (log (st w)), connCount (st w), panicked w)) exchange
  = Some ([match response_text "" Toy.reply with Ok d => d | Err e => e end], 1, false).
Proof. vm_compute. reflexivity. Qed.

(** Stop closes a connection while its request is at the router: the reply stops the gateway. *)
Definition reply_after_close := connect ++ go_on 6 3 alice ++ go_on 9 1 alice ++ go_on 3 3 alice.
Example reply_stops_gateway : final panicked reply_after_close = Some true.
Proof. vm_compute. reflexivity. Qed.

(** The notice of the shutdown waits for a writer that the same shutdown has ended. *)
Definition unwritten_notice := connect ++ go_on 1 4 alice ++ go_on 3 1 alice ++ go_on 2 4 alice ++ go_on 7 1 alice.
Example notice_not_written :
  final (fun w => (length (buf 0 (log (st w))), out 0 (log (st w)), shutdown (st w))) unwritten_notice = Some (1%nat, [], true).
Proof. vm_compute. reflexivity. Qed.

(** The limit is checked before the connection is counted. *)
Definition two_connections := go_on 3 0 alice ++ go_on 3 0 bob ++ go_on 1 2 alice ++ go_on 1 3 bob ++ go_on 12 2 alice ++ go_on 12 3 bob.
Example ws_limit_exceeded : final (fun w => (wc_MaxConnections sample_config, connCount (st w))) two_connections = Some (1, 2).
Proof. vm_compute. reflexivity. Qed.

(** A connection that ends while another of its address is counted takes the counter away. *)
Definition lost_counter :=
  go_on 3 0 alice ++ go_on 3 0 bob ++ go_on 1 2 alice ++ go_on 1 3 bob ++ go_on 12 2 alice ++ go_on 7 3 bob ++
  go_on 2 4 (client "alice" "s1" "" true) ++ go_on 5 4 (client "alice" "s1" "" true) ++ go_on 1 3 bob ++ go_on 1 4 (client "alice" "s1" "" true).
Example address_uncounted :
  final (fun w => (connCount (st w), ip_map (ips (st w)) !! "1.2.3.4"%string, ip_counts (ips (st w)) !! 0%nat)) lost_counter = Some (1, None, Some 1).
Proof. vm_compute. reflexivity. Qed.

(** *** Witnesses *)

Definition expected : string := match response_text "" Toy.reply with Ok d => d | Err e => e end.

Lemma ws_connections_isolated_witness :
  exists w, play exchange = Some w /\ out 0 (log (st w)) = [expected] /\
    (print (response_doc shutting_down) = Ok expected \/
     exists k, conns (table (st w)) !! 0%nat = Some k /\
       ((exists t resp, (Sessions.ID (c_session k), resp) ∈ granted (log (st w)) /\ response_text t resp = Ok expected) \/
        (exists t data err, (0%nat, data) ∈ received (log (st w)) /\ response_text t (error_reply (extractRequestID data) err) = Ok expected))).
Proof.
  destruct (ws_final_played (fun w => out 0 (log (st w))) exchange [expected]) as (w & E & Ho); [vm_compute; reflexivity|].
  exists w. split; [exact E|split; [exact Ho|]].
  apply (ws_connections_isolated sample_config sample_start w 0 expected ws_sample_running (ws_play_reachable _ _ E)). rewrite Ho. left.
Defined.

Lemma ws_panics_only_closing_witness :
  exists w, play reply_after_close = Some w /\ running (st w) = false /\ closing (table (st w)) = true.
Proof.
  destruct (ws_final_played panicked reply_after_close true) as (w & E & Hp); [vm_compute; reflexivity|]. exists w. split; [exact E|].
  exact (ws_panics_only_closing sample_config sample_start w ws_sample_running (ws_play_reachable _ _ E) Hp).
Defined.

Lemma ws_count_exact_witness :
  exists w, play exchange = Some w /\ connCount (st w) = wrap_s 64 (Z.of_nat (size (registry (table (st w))))).
Proof.
  destruct (ws_final_played (fun w => forallb (fun tp => match snd tp with Ret _ => true | _ => false end) (map_to_list (tasks w))) exchange true)
    as (w & E & Hq); [vm_compute; reflexivity|]. exists w. split; [exact E|].
  apply (ws_count_exact sample_config sample_start w ws_sample_running (ws_play_reachable _ _ E)).
  intros t p Hp%elem_of_map_to_list%list_elem_of_In. rewrite forallb_forall in Hq. specialize (Hq (t, p) Hp). destruct p as [n| |]; [by exists n|discriminate..].
Defined.

Lemma ws_one_reply_witness :
  counts (label := label) sends_succeed owed (handleClientRead 0 "s1" "1.2.3.4") 0 (fun n _ => n = 0).
Proof. apply ws_one_reply. intros t r. reflexivity. Defined.

End WsFrontend.
