(* ===== verification/DirectClient.v ===== *)
(** * Direct clients of the router

    What the stdio, WebSocket and SSE clients of [services/router/internal/direct/] share: the connection states and
    errors of types.go, the metrics, and the state of a client (its connection state under a mutex that some operations
    hold for long, the channels by which answers reach their callers, the channels of its shutdown) with the atomic
    commands of its goroutines.  The clients are the programs of [DirectStdio], [DirectWs] and [DirectSse]. *)
From S2P Require Import Prelude GoStrings GoUnicode Mcp Goroutines.
From stdpp Require Import pretty.
From Stdlib Require Import Strings.Ascii.
#[local] Open Scope Z_scope.

Module Direct.

(** ** States, metrics, errors *)

Inductive ConnectionState :=
| StateDisconnected | StateConnecting | StateConnected | StateHealthy | StateUnhealthy | StateClosing | StateClosed | StateError.
#[export] Instance ConnectionState_eq_dec : EqDecision ConnectionState.
Proof. solve_decision. Defined.

Definition state_String (s : ConnectionState) : string :=
  match s with
  | StateDisconnected => "disconnected" | StateConnecting => "connecting" | StateConnected => "connected" | StateHealthy => "healthy"
  | StateUnhealthy => "unhealthy" | StateClosing => "closing" | StateClosed => "closed" | StateError => "error"
  end.

(** [state == StateConnected || state == StateHealthy], and its like for the end of a client. *)
Definition is_up (s : ConnectionState) : bool := match s with StateConnected | StateHealthy => true | _ => false end.
Definition is_down (s : ConnectionState) : bool := match s with StateClosed | StateClosing => true | _ => false end.

Record ClientMetrics := mkMetrics {
  RequestCount : Z; ErrorCount : Z; AverageLatency : Z; LastHealthCheck : Z; IsHealthy : bool; ConnectionTime : Z; LastUsed : Z }.
Definition no_metrics : ClientMetrics := mkMetrics 0 0 0 time_zero false time_zero time_zero.

Definition inc_errors (m : ClientMetrics) : ClientMetrics :=
  mkMetrics (RequestCount m) (u64_add (ErrorCount m) 1) (AverageLatency m) (LastHealthCheck m) (IsHealthy m) (ConnectionTime m) (LastUsed m).
Definition healthy (b : bool) (m : ClientMetrics) : ClientMetrics :=
  mkMetrics (RequestCount m) (ErrorCount m) (AverageLatency m) (LastHealthCheck m) b (ConnectionTime m) (LastUsed m).
Definition checked (b : bool) (now : Z) (m : ClientMetrics) : ClientMetrics :=
  mkMetrics (RequestCount m) (ErrorCount m) (AverageLatency m) now b (ConnectionTime m) (LastUsed m).
Definition connected (now : Z) (m : ClientMetrics) : ClientMetrics :=
  mkMetrics (RequestCount m) (ErrorCount m) (AverageLatency m) (LastHealthCheck m) true now (LastUsed m).

(** The moving average of the latencies: the first one, then half of the sum, in int64. *)
Definition record_latency (d : Z) (m : ClientMetrics) : ClientMetrics :=
  let n := u64_add (RequestCount m) 1 in
  mkMetrics n (ErrorCount m) (if n =? 1 then d else Z.quot (i64_add (AverageLatency m) d) 2)
    (LastHealthCheck m) (IsHealthy m) (ConnectionTime m) (LastUsed m).
Definition used_at (now : Z) (m : ClientMetrics) : ClientMetrics :=
  mkMetrics (RequestCount m) (ErrorCount m) (AverageLatency m) (LastHealthCheck m) (IsHealthy m) (ConnectionTime m) now.

Inductive sentinel :=
| ErrClientNotConnected | ErrClientAlreadyConnected | ErrProtocolNotSupported | ErrConnectionFailed | ErrRequestTimeout
| ErrInvalidServerURL | ErrHealthCheckFailed | ErrClientClosed.
#[export] Instance sentinel_eq_dec : EqDecision sentinel.
Proof. solve_decision. Defined.
Definition sentinel_text (e : sentinel) : string :=
  match e with
  | ErrClientNotConnected => "client not connected" | ErrClientAlreadyConnected => "client already connected"
  | ErrProtocolNotSupported => "protocol not supported" | ErrConnectionFailed => "connection failed"
  | ErrRequestTimeout => "request timeout" | ErrInvalidServerURL => "invalid server URL"
  | ErrHealthCheckFailed => "health check failed" | ErrClientClosed => "client closed"
  end.

(** An error value: one of the sentinels, an error of another package (what its Temporary method says, false without
    one), or a DirectClientError with its cause. *)
Inductive goerr :=
| Sentinel (e : sentinel)
| Foreign (temporary : bool) (text : string)
| DirectClientError (Type_ Message_ ClientURL Protocol : string) (Cause : option goerr) (Retryable : bool).

Fixpoint Error_text (e : goerr) : string :=
  match e with
  | Sentinel s => sentinel_text s
  | Foreign _ t => t
  | DirectClientError _ m _ _ (Some c) _ => m +:+ ": " +:+ Error_text c
  | DirectClientError _ m _ _ None _ => m
  end%string.

(** [errors.Is], by way of Unwrap. *)
Fixpoint Is (s : sentinel) (e : goerr) : bool :=
  match e with
  | Sentinel s' => bool_decide (s' = s)
  | Foreign _ _ => false
  | DirectClientError _ _ _ _ (Some c) _ => Is s c
  | DirectClientError _ _ _ _ None _ => false
  end.

Definition isRetryableError (err : option goerr) : bool :=
  match err with
  | None => false
  | Some e =>
      if Is ErrConnectionFailed e || Is ErrRequestTimeout e || Is ErrHealthCheckFailed e then true
      else match e with Foreign temporary _ => temporary | _ => false end
  end.

Definition NewDirectClientError (errorType message clientURL protocol : string) (cause : option goerr) : goerr :=
  DirectClientError errorType message clientURL protocol cause (isRetryableError cause).
Definition WithRetryable (retryable : bool) (e : goerr) : goerr :=
  match e with DirectClientError t m u p c _ => DirectClientError t m u p c retryable | _ => e end.

Definition NewConnectionError (url protocol message : string) (cause : option goerr) : goerr :=
  WithRetryable true (NewDirectClientError "CONNECTION_ERROR" message url protocol cause).
Definition NewProcessError (url protocol message : string) (cause : option goerr) : goerr :=
  WithRetryable false (NewDirectClientError "PROCESS_ERROR" message url protocol cause).
Definition NewConfigError (url protocol message : string) (cause : option goerr) : goerr :=
  WithRetryable false (NewDirectClientError "CONFIG_ERROR" message url protocol cause).
Definition NewHealthError (url protocol message : string) (cause : option goerr) : goerr :=
  WithRetryable true (NewDirectClientError "HEALTH_ERROR" message url protocol cause).
Definition NewRequestError (url protocol message : string) (cause : option goerr) : goerr :=
  WithRetryable true (NewDirectClientError "REQUEST_ERROR" message url protocol cause).
Definition NewShutdownError (url protocol message : string) (cause : option goerr) : goerr :=
  WithRetryable false (NewDirectClientError "SHUTDOWN_ERROR" message url protocol cause).

(** [time.Duration.String]: the digits of a fraction, without its trailing zeros, then the units. *)
Fixpoint fraction (prec : nat) (v : Z) (print : bool) (acc : string) : string :=
  match prec with
  | O => if print then String "."%char acc else acc
  | S prec =>
      let print := print || negb (v mod 10 =? 0)%Z in
      fraction prec (v / 10)%Z print (if print then pretty (v mod 10)%Z +:+ acc else acc)
  end%string.
Definition with_fraction (prec : nat) (v : Z) (unit : string) : string :=
  (pretty (v / 10 ^ Z.of_nat prec)%Z +:+ fraction prec v false unit)%string.
Definition micro : string := String "194"%char (String "181"%char "s").
Definition Duration_String (d : Z) : string :=
  let u := Z.abs d in
  let seconds := u / Second in
  let minutes := seconds / 60 in
  let text :=
    if u =? 0 then "0s"%string else if u <? 1000 then with_fraction 0 u "ns" else if u <? Millisecond then with_fraction 3 u micro
    else if u <? Second then with_fraction 6 u "ms"
    else (if minutes =? 0 then EmptyString
          else ((if minutes / 60 =? 0 then EmptyString else pretty (minutes / 60)%Z +:+ "h") +:+ pretty (minutes mod 60)%Z +:+ "m"))
         +:+ pretty (seconds mod 60)%Z +:+ fraction 9 u false "s" in
  if d <? 0 then "-" +:+ text else text.

Example durations :
  map Duration_String [0; 1500000000; 90 * Second; 250 * Millisecond; 1500; 2 * 3600 * Second] =
    ["0s"; "1.5s"; "1m30s"; "250ms"; (with_fraction 3 1500 micro); "2h0m0s"]%string.
Proof. reflexivity. Qed.

Definition NewTimeoutError (url protocol : string) (timeout : Z) (cause : option goerr) : goerr :=
  let message := if 0 <? timeout then ("operation timed out after " +:+ Duration_String timeout)%string else "operation timed out"%string in
  WithRetryable true (NewDirectClientError "TIMEOUT_ERROR" message url protocol cause).

(** ** Requests *)

(** fmt's [%v] of a decoded JSON value that is not a string. *)
Class Sprintf := Sprintf_v : jvalue -> string.

(** The key under which a caller waits, for the id of its request. *)
Definition id_text `{Sprintf} (id : jvalue) : string := match id with JString s => s | _ => Sprintf_v id end.

Definition with_id (id : jvalue) (q : Request) : Request := mkRequest (req_JSONRPC q) (Method q) (ReqParams q) id.

(** [req.ID == nil || req.ID == ""]. *)
Definition no_id (q : Request) : bool := match req_ID q with JNull | JString EmptyString => true | _ => false end.
Definition generated_id (name : string) (n : Z) : string := (name +:+ "-" +:+ pretty n)%string.

(** The time a caller waits: the client's, or what is left to its context. *)
Definition shorter (timeout : Z) (remaining : option Z) : Z :=
  match remaining with Some r => if r <? timeout then r else timeout | None => timeout end.

(** ** A client *)

(** A channel for the answers to a request. *)
Record chan := mkChan { c_id : string; c_cap : nat; c_buf : list Response; c_open : bool }.

(** What reached the client: what the router asked and got, what the server sent, the bodies posted to the server. *)
Record Log := mkLog { heard : list string; answers : list (Request * result goerr (option Response)); posted : list string }.

(** A [bytes.Buffer] that is reset before each use: its arrays, the last of them in use.  An array has room for 64 bytes
    and for what it held; what does not fit goes to a new one. *)
Fixpoint str_drop (n : nat) (s : string) : string := match n, s with S n, String _ s' => str_drop n s' | _, _ => s end.
Definition overwrite (d old : string) : string := (d +:+ str_drop (String.length d) old)%string.
Definition fill (d : string) (arrays : list string) : nat * list string :=
  match last arrays with
  | Some a =>
      if (String.length d <=? Nat.max 64 (String.length a))%nat
      then ((length arrays - 1)%nat, take (length arrays - 1) arrays ++ [overwrite d a]) else (length arrays, arrays ++ [d])
  | None => (length arrays, arrays ++ [d])
  end.

(** [locked]: an operation holds the state's mutex; [writing]: the writer's mutex is held; [wg]: the count of the wait
    group; [signals]: channels local to a closing operation that have been closed or sent to. *)
Record State := mkState {
  state : ConnectionState; attempts : Z; locked : bool;
  requestMap : gmap string nat; chans : gmap nat chan; next_chan : nat; requestID : Z;
  conn : bool; writing : bool; metrics : ClientMetrics; shutdownCh : bool; doneCh : bool; wg : Z;
  signals : gset nat; next_signal : nat; cleared : bool; buffers : list string; log : Log }.

Definition fresh_client : State :=
  mkState StateDisconnected 0 false ∅ ∅ 0 0 false false no_metrics false false 0 ∅ 0 false [] (mkLog [] [] []).

Definition set_state (x : ConnectionState * Z) (s : State) : State :=
  mkState (fst x) (snd x) (locked s) (requestMap s) (chans s) (next_chan s) (requestID s) (conn s) (writing s) (metrics s)
    (shutdownCh s) (doneCh s) (wg s) (signals s) (next_signal s) (cleared s) (buffers s) (log s).
Definition set_locked (b : bool) (s : State) : State :=
  mkState (state s) (attempts s) b (requestMap s) (chans s) (next_chan s) (requestID s) (conn s) (writing s) (metrics s)
    (shutdownCh s) (doneCh s) (wg s) (signals s) (next_signal s) (cleared s) (buffers s) (log s).
Definition set_chans (m : gmap string nat) (c : gmap nat chan) (n : nat) (s : State) : State :=
  mkState (state s) (attempts s) (locked s) m c n (requestID s) (conn s) (writing s) (metrics s)
    (shutdownCh s) (doneCh s) (wg s) (signals s) (next_signal s) (cleared s) (buffers s) (log s).
Definition set_requestID (n : Z) (s : State) : State :=
  mkState (state s) (attempts s) (locked s) (requestMap s) (chans s) (next_chan s) n (conn s) (writing s) (metrics s)
    (shutdownCh s) (doneCh s) (wg s) (signals s) (next_signal s) (cleared s) (buffers s) (log s).
Definition set_conn (b w : bool) (s : State) : State :=
  mkState (state s) (attempts s) (locked s) (requestMap s) (chans s) (next_chan s) (requestID s) b w (metrics s)
    (shutdownCh s) (doneCh s) (wg s) (signals s) (next_signal s) (cleared s) (buffers s) (log s).
Definition set_metrics (m : ClientMetrics) (s : State) : State :=
  mkState (state s) (attempts s) (locked s) (requestMap s) (chans s) (next_chan s) (requestID s) (conn s) (writing s) m
    (shutdownCh s) (doneCh s) (wg s) (signals s) (next_signal s) (cleared s) (buffers s) (log s).
Definition set_shutdown (sd dn : bool) (s : State) : State :=
  mkState (state s) (attempts s) (locked s) (requestMap s) (chans s) (next_chan s) (requestID s) (conn s) (writing s) (metrics s)
    sd dn (wg s) (signals s) (next_signal s) (cleared s) (buffers s) (log s).
Definition set_wg (n : Z) (s : State) : State :=
  mkState (state s) (attempts s) (locked s) (requestMap s) (chans s) (next_chan s) (requestID s) (conn s) (writing s) (metrics s)
    (shutdownCh s) (doneCh s) n (signals s) (next_signal s) (cleared s) (buffers s) (log s).
Definition set_signals (g : gset nat) (n : nat) (s : State) : State :=
  mkState (state s) (attempts s) (locked s) (requestMap s) (chans s) (next_chan s) (requestID s) (conn s) (writing s) (metrics s)
    (shutdownCh s) (doneCh s) (wg s) g n (cleared s) (buffers s) (log s).
Definition set_cleared (s : State) : State :=
  mkState (state s) (attempts s) (locked s) (requestMap s) (chans s) (next_chan s) (requestID s) (conn s) (writing s) (metrics s)
    (shutdownCh s) (doneCh s) (wg s) (signals s) (next_signal s) true (buffers s) (log s).
Definition set_buffers (b : list string) (s : State) : State :=
  mkState (state s) (attempts s) (locked s) (requestMap s) (chans s) (next_chan s) (requestID s) (conn s) (writing s) (metrics s)
    (shutdownCh s) (doneCh s) (wg s) (signals s) (next_signal s) (cleared s) b (log s).
Definition set_log (L : Log) (s : State) : State :=
  mkState (state s) (attempts s) (locked s) (requestMap s) (chans s) (next_chan s) (requestID s) (conn s) (writing s) (metrics s)
    (shutdownCh s) (doneCh s) (wg s) (signals s) (next_signal s) (cleared s) (buffers s) L.

(** ** Commands *)

(** What the router calls, with its request. *)
Inductive call := CSend (q : Request) | CConnect | CClose | CHealth.

Inductive wait_res := Got (r : Response) | GotNil | TimedOut | Cancelled (err : goerr) | ShuttingDown.
(** What a read brings: a message (a JSON value, or the data of an event), a read deadline, the end of the stream, a close
    frame, another error, a panic of the library. *)
Inductive recv_res :=
| RText (d : string) | RTimeout | REof | RCloseFrame (unexpected : bool) | RError (unexpected : bool) | RPanic.
Inductive post_res := PostUnmade (err : goerr) | PostFailed (err : goerr) | PostStatus (code : Z) (body : string).
Inductive tick_res := Ticked | TickShutdown | TickCancelled.
Inductive await_res := Raised | AwaitTimeout | AwaitCancelled (err : goerr).
Inductive line_res := Line | LineTimeout | LineEnd | LineError.

Inductive cmd : Type -> Type :=
| Call : cmd call
| Return (q : Request) (r : result goerr (option Response)) : cmd unit
| Now : cmd Z
(* the state, under its mutex: one critical section, or several operations while it is held *)
| Update (f : ConnectionState * Z -> ConnectionState * Z) : cmd (ConnectionState * Z)
| Lock : cmd unit
| Held (f : ConnectionState * Z -> ConnectionState * Z) : cmd (ConnectionState * Z)
| Unlock : cmd unit
| Metric (f : ClientMetrics -> ClientMetrics) : cmd unit
(* correlation of answers *)
| NextID : cmd Z
| Register (id : string) (cap : nat) : cmd nat
| Cleanup (id : string) (ch : nat) : cmd unit
| ClearPending : cmd unit
| Wait (ch : nat) : cmd wait_res
| Deliver (id : string) (r : Response) : cmd unit
(* the connection *)
| WriteLock : cmd unit
| WriteUnlock : cmd unit
| Write (q : Request) : cmd (option goerr)
| Flush : cmd (option goerr)
| SetBuffer (d : string) : cmd nat
| Post (array n : nat) : cmd post_res
| Remaining : cmd (option Z)
| Receive : cmd recv_res
| HasConn : cmd bool
| SetConn (b : bool) : cmd unit
| Dial : cmd (option goerr)
| Alive : cmd (option goerr)
| Kill : cmd unit
| WriteControl : cmd bool
| CloseConn : cmd unit
| ReadStderr : cmd line_res
(* time, shutdown, the wait group *)
| NewTicker (d : Z) : cmd unit
| Tick : cmd tick_res
| Sleep (d : Z) : cmd unit
| ShutdownSeen : cmd bool
| CloseShutdown : cmd unit
| DoneSeen : cmd bool
| CloseDone : cmd unit
| WgAdd : cmd unit
| WgDone : cmd unit
| NewSignal : cmd nat
| WgWait : cmd unit
| ProcessWait : cmd unit
| Raise (n : nat) : cmd unit
| Await (n : nat) : cmd await_res
| Join (n : nat) : cmd unit.

Definition hear (d : string) (L : Log) : Log := mkLog (heard L ++ [d]) (answers L) (posted L).
Definition answered (q : Request) (r : result goerr (option Response)) (L : Log) : Log := mkLog (heard L) (answers L ++ [(q, r)]) (posted L).
Definition note_post (d : string) (L : Log) : Log := mkLog (heard L) (answers L) (posted L ++ [d]).

Definition close_chan (k : chan) : chan := mkChan (c_id k) (c_cap k) (c_buf k) false.
Definition is_open (ch : nat) (s : State) : bool := match chans s !! ch with Some k => c_open k | None => false end.

(** The channels of the pending requests, closed. *)
Definition close_pending (s : State) : gmap nat chan :=
  map_imap (fun ch k => Some (if bool_decide (map_Exists (fun _ ch' => ch' = ch) (requestMap s)) then close_chan k else k)) (chans s).

Definition exec (X : Type) (c : cmd X) : X -> State -> option State :=
  match c in cmd X return X -> State -> option State with
  | Call | Now | Flush | Write _ | Remaining | Dial | Alive | Kill | WriteControl | CloseConn | ReadStderr | Sleep _ | NewTicker _ | ProcessWait =>
      fun _ s => Some s
  | Return q r => fun _ s => Some (set_log (answered q r (log s)) s)
  | Update f => fun x s =>
      if negb (locked s) && bool_decide (x = (state s, attempts s)) then Some (set_state (f (state s, attempts s)) s) else None
  | Lock => fun _ s => if locked s then None else Some (set_locked true s)
  | Held f => fun x s => if bool_decide (x = (state s, attempts s)) then Some (set_state (f (state s, attempts s)) s) else None
  | Unlock => fun _ s => Some (set_locked false s)
  | Metric f => fun _ s => Some (set_metrics (f (metrics s)) s)
  | NextID => fun x s => let n := u64_add (requestID s) 1 in if x =? n then Some (set_requestID n s) else None
  | Register id cap => fun x s =>
      if bool_decide (x = next_chan s)
      then Some (set_chans (<[id := x]> (requestMap s)) (<[x := mkChan id cap [] true]> (chans s)) (S x) s) else None
  | Cleanup id ch => fun _ s => Some (set_chans (delete id (requestMap s)) (alter close_chan ch (chans s)) (next_chan s) s)
  | ClearPending => fun _ s => Some (set_cleared (set_chans ∅ (close_pending s) (next_chan s) s))
  | Wait ch => fun x s =>
      match chans s !! ch with
      | None => None
      | Some k =>
          match x with
          | Got r =>
              match c_buf k with
              | r' :: rest =>
                  if bool_decide (r = r') then Some (set_chans (requestMap s) (<[ch := mkChan (c_id k) (c_cap k) rest (c_open k)]> (chans s)) (next_chan s) s)
                  else None
              | [] => None
              end
          | GotNil => when (negb (c_open k) && bool_decide (c_buf k = [])) s
          | ShuttingDown => when (shutdownCh s) s
          | TimedOut | Cancelled _ => Some s
          end
      end
  | Deliver id r => fun _ s =>
      match requestMap s !! id with
      | None => Some s
      | Some ch =>
          match chans s !! ch with
          | None => None
          | Some k =>
              if (length (c_buf k) <? c_cap k)%nat
              then Some (set_chans (requestMap s) (<[ch := mkChan (c_id k) (c_cap k) (c_buf k ++ [r]) (c_open k)]> (chans s)) (next_chan s) s)
              else Some s
          end
      end
  | WriteLock => fun _ s => if writing s then None else Some (set_conn (conn s) true s)
  | WriteUnlock => fun _ s => Some (set_conn (conn s) false s)
  | SetBuffer d => fun x s => if bool_decide (x = fst (fill d (buffers s))) then Some (set_buffers (snd (fill d (buffers s))) s) else None
  | Post a n => fun _ s => Some (set_log (note_post (str_take n (nth a (buffers s) EmptyString)) (log s)) s)
  | Receive => fun x s => match x with RText d => Some (set_log (hear d (log s)) s) | _ => Some s end
  | HasConn => fun x s => when (Bool.eqb x (conn s)) s
  | SetConn b => fun _ s => Some (set_conn b (writing s) s)
  | Tick => fun x s => match x with TickShutdown => when (shutdownCh s) s | _ => Some s end
  | ShutdownSeen => fun x s => when (Bool.eqb x (shutdownCh s)) s
  | CloseShutdown => fun _ s => Some (set_shutdown true (doneCh s) s)
  | DoneSeen => fun x s => when (Bool.eqb x (doneCh s)) s
  | CloseDone => fun _ s => Some (set_shutdown (shutdownCh s) true s)
  | WgAdd => fun _ s => Some (set_wg (wg s + 1) s)
  | WgDone => fun _ s => Some (set_wg (wg s - 1) s)
  | NewSignal => fun x s => if bool_decide (x = next_signal s) then Some (set_signals (signals s) (S x) s) else None
  | WgWait => fun _ s => when (wg s =? 0) s
  | Raise n => fun _ s => Some (set_signals ({[n]} ∪ signals s) (next_signal s) s)
  | Await n => fun x s => match x with Raised => when (bool_decide (n ∈ signals s)) s | _ => Some s end
  | Join n => fun _ s => when (bool_decide (n ∈ signals s)) s
  end.

(** Closing a closed channel, sending on one, taking the wait group below zero, a ticker whose interval is not positive,
    and the process of a client that never started one. *)
Definition panics (X : Type) (c : cmd X) (s : State) : bool :=
  match c with
  | Cleanup _ ch => negb (is_open ch s)
  | Deliver id _ => match requestMap s !! id with Some ch => negb (is_open ch s) | None => false end
  | CloseShutdown => shutdownCh s
  | CloseDone => doneCh s
  | WgDone => wg s <=? 0
  | ClearPending => bool_decide (map_Exists (fun _ ch => is_open ch s = false) (requestMap s))
  | Alive => negb (conn s)
  | NewTicker d => d <=? 0
  | _ => false
  end.

(** A loop that begins by making its ticker. *)
Definition ticking {label} (interval : Z) (l : label) : prog cmd label (next label) := _ ← perform (NewTicker interval); mret (Again l).

(** ** Executable runs

    What happens in a run: the call that comes, what a read brings, what a tick is, whether the environment fails. *)
Record script := mkScript { a_call : call; a_recv : recv_res; a_tick : tick_res; a_fail : bool }.

Definition failure (a : script) : option goerr := if a_fail a then Some (Foreign false "failed") else None.
Definition answer (a : script) (s : State) (X : Type) (c : cmd X) : X :=
  match c in cmd X return X with
  | Call => a_call a
  | Now => 0
  | Update _ | Held _ => (state s, attempts s)
  | NextID => u64_add (requestID s) 1
  | Register _ _ => next_chan s
  | Wait ch =>
      match chans s !! ch with
      | Some (mkChan _ _ (r :: _) _) => Got r
      | Some (mkChan _ _ [] false) => GotNil
      | _ => if shutdownCh s then ShuttingDown else TimedOut
      end
  | Write _ | Flush | Dial | Alive => failure a
  | SetBuffer d => fst (fill d (buffers s))
  | Post _ _ => match failure a with Some err => PostFailed err | None => PostStatus 202 "" end
  | Remaining => None
  | Receive => a_recv a
  | HasConn => conn s
  | WriteControl => negb (a_fail a)
  | ReadStderr => Line
  | Tick => a_tick a
  | ShutdownSeen => shutdownCh s
  | DoneSeen => doneCh s
  | NewSignal => next_signal s
  | Await n => if bool_decide (n ∈ signals s) then Raised else AwaitTimeout
  | Return _ _ | Lock | Unlock | Metric _ | Cleanup _ _ | ClearPending | Deliver _ _ | WriteLock | WriteUnlock | SetConn _ | Kill | CloseConn
  | Sleep _ | NewTicker _ | CloseShutdown | CloseDone | WgAdd | WgDone | WgWait | ProcessWait | Raise _ | Join _ => tt
  end.

(** [n] steps of one goroutine. *)
Definition moves (n t : nat) (a : script) : list (nat * (State -> forall X, cmd X -> X)) := replicate n (t, answer a).

Definition on_call (c : call) : script := mkScript c RTimeout Ticked false.
Definition on_read (r : recv_res) : script := mkScript CHealth r Ticked false.
Definition on_failure : script := mkScript CHealth RTimeout Ticked true.

End Direct.
