(* ===== verification/DirectClientTheorems.v ===== *)
(** * The discipline of direct clients

    What the goroutines of a direct client own and know between two commands, the invariant of the client's state, and
    that every command keeps it: an answer on a channel was sent by the server under the id of the channel's request,
    channels of pending requests are open, and the count of the wait group is that of its goroutines. *)
From S2P Require Import Prelude GoStrings GoUnicode Mcp Goroutines DirectClient.
#[local] Open Scope Z_scope.

Module DirectDiscipline.
Import Direct.

Section Discipline.
Context `{JSON} `{Sprintf}.

(** Whether closing the client clears its pending requests, whether its shutdown is signalled without the mutex, and
    whether its connection is never given up. *)
Variables clears races sticky : bool.

(** The text of a message of the server holds an answer to the request. *)
Definition carries (id : string) (r : Response) (d : string) : Prop := Unmarshal_response d = Ok r /\ resp_ID r = JString id.
Definition heard_from (L : Log) (id : string) (r : Response) : Prop := exists d, d ∈ heard L /\ carries id r d.

(** ** What a goroutine owns and knows

    The channel of its request, its shares of the wait group, whether it holds the mutex, whether under it the client was
    not shut down, whether the client has a connection, messages it read, answers it got. *)
Record env := mkEnv { own : option (string * nat); owed : Z; mu : bool; unshut : bool; up : bool; texts : list string; got : list (string * Response) }.

Definition nothing : env := mkEnv None 0 false false false [] [].
Definition member : env := mkEnv None 1 false false false [] [].
Definition set_own o e := mkEnv o (owed e) (mu e) (unshut e) (up e) (texts e) (got e).
Definition set_owed n e := mkEnv (own e) n (mu e) (unshut e) (up e) (texts e) (got e).
Definition set_mu b e := mkEnv (own e) (owed e) b false (up e) (texts e) (got e).
Definition set_unshut b e := mkEnv (own e) (owed e) (mu e) b (up e) (texts e) (got e).
Definition set_up b e := mkEnv (own e) (owed e) (mu e) (unshut e) (b || up e) (texts e) (got e).
Definition add_text d e := mkEnv (own e) (owed e) (mu e) (unshut e) (up e) (d :: texts e) (got e).
Definition add_got x e := mkEnv (own e) (owed e) (mu e) (unshut e) (up e) (texts e) (x :: got e).

(** A change of the state makes the client ready only if it has a connection. *)
Definition keeps_up (f : ConnectionState * Z -> ConnectionState * Z) (e : env) : Prop :=
  sticky = true -> forall x, is_up (fst (f x)) = true -> is_up (fst x) = true \/ up e = true.

Definition pre (X : Type) (c : cmd X) (e : env) : Prop :=
  match c with
  | Return q (Ok (Some r)) => (id_text (req_ID q), r) ∈ got e
  | Return _ (Ok None) => False
  | Update f => mu e = false /\ keeps_up f e
  | Lock => mu e = false
  | Held f => mu e = true /\ keeps_up f e
  | Unlock => mu e = true
  | Register _ _ => own e = None
  | Cleanup id ch => own e = Some (id, ch)
  | ClearPending => clears = true
  | Wait ch => exists id, own e = Some (id, ch)
  | Deliver id r => exists d, d ∈ texts e /\ carries id r d
  | SetConn b => sticky = true -> b = true
  | Alive => sticky = true /\ up e = true
  | CloseShutdown => races = true \/ unshut e = true
  | WgDone => 1 <= owed e
  | _ => True
  end.

Definition valid (X : Type) (c : cmd X) : X -> env -> Prop :=
  match c in cmd X return X -> env -> Prop with
  | Wait _ => fun x _ => x = GotNil -> clears = true
  | _ => fun _ _ => True
  end.

Definition post (X : Type) (c : cmd X) : X -> env -> env :=
  match c in cmd X return X -> env -> env with
  | Update _ | Held _ => fun x e => set_up (is_up (fst x)) e
  | Lock => fun _ e => set_mu true e
  | Unlock => fun _ e => set_mu false e
  | Register id _ => fun x e => set_own (Some (id, x)) e
  | Cleanup _ _ => fun _ e => set_own None e
  | Wait _ => fun x e => match x, own e with Got r, Some (id, _) => add_got (id, r) e | _, _ => e end
  | Receive => fun x e => match x with RText d => add_text d e | _ => e end
  | SetConn b => fun _ e => set_up b e
  | ShutdownSeen => fun x e => if negb x && mu e && negb races then set_unshut true e else e
  | CloseShutdown => fun _ e => set_unshut false e
  | WgAdd => fun _ e => set_owed (owed e + 1) e
  | WgDone => fun _ e => set_owed (owed e - 1) e
  | _ => fun _ e => e
  end.

(** A started goroutine gets shares of the wait group, nothing else. *)
Definition split (e ec e1 : env) : Prop :=
  exists n, 0 <= n <= owed e /\ ec = set_owed n nothing /\ e1 = set_owed (owed e - n) e.
Definition exit_ok (e : env) : Prop := own e = None /\ owed e = 0 /\ mu e = false.

(** The end of a request: its channel is closed. *)
Definition cleans {X} (c : cmd X) : bool := match c with Cleanup _ _ => true | _ => false end.

Definition crash (X : Type) (c : cmd X) : bool := match c with Cleanup _ _ => clears | CloseShutdown => races | CloseDone | NewTicker _ => true | _ => false end.

(** ** The invariant *)

Record global (s : State) : Prop := {
  g_pending id ch : requestMap s !! id = Some ch -> exists k, chans s !! ch = Some k /\ c_id k = id /\ c_open k = true;
  g_buf ch k r : chans s !! ch = Some k -> r ∈ c_buf k -> heard_from (log s) (c_id k) r;
  g_fresh ch : (next_chan s <= ch)%nat -> chans s !! ch = None;
  g_answers q r : (q, Ok (Some r)) ∈ answers (log s) -> heard_from (log s) (id_text (req_ID q)) r;
  g_nil q : (q, Ok None) ∉ answers (log s);
  g_cleared : cleared s = true -> clears = true;
  g_up : sticky = true -> is_up (state s) = true -> conn s = true;
}.

Record task_ok (s : State) (e : env) : Prop := {
  t_own id ch : own e = Some (id, ch) -> exists k, chans s !! ch = Some k /\ c_id k = id /\ (c_open k = false -> cleared s = true);
  t_owed : 0 <= owed e;
  t_mu : mu e = true -> locked s = true;
  t_unshut : unshut e = true -> mu e = true /\ races = false /\ shutdownCh s = false;
  t_up : sticky = true -> up e = true -> conn s = true;
  t_texts d : d ∈ texts e -> d ∈ heard (log s);
  t_got id r : (id, r) ∈ got e -> heard_from (log s) id r;
}.

Record compat (e f : env) : Prop := {
  c_own id id' ch : own e = Some (id, ch) -> own f = Some (id', ch) -> False;
  c_mu : mu e = true -> mu f = true -> False;
}.

#[local] Notation total := (total_of owed).

Record Inv (s : State) (es : gmap nat env) : Prop := {
  i_global : global s;
  i_task t e : es !! t = Some e -> task_ok s e;
  i_compat t t' e f : es !! t = Some e -> es !! t' = Some f -> t <> t' -> compat e f;
  i_wg : wg s = total es;
}.

Lemma d_compat_sym e f : compat e f -> compat f e.
Proof. intros [H1 H2]. split; eauto. Qed.

Lemma d_inv_step s es t e s' e' :
  Inv s es -> es !! t = Some e -> global s' -> task_ok s' e' ->
  (forall f, task_ok s f -> compat e f -> task_ok s' f) -> (forall f, task_ok s f -> compat e f -> compat e' f) ->
  wg s' = wg s - owed e + owed e' -> Inv s' (<[t := e']> es).
Proof.
  intros Hi He Hg Ht Hf Hc Hn. split; [done| | |by rewrite (total_of_update owed es t e e' He), Hn, (i_wg _ _ Hi)].
  - intros u f [[<- <-]|[Hne Hu]]%lookup_insert_Some; [done|]. apply Hf; [by eapply i_task|by eapply (i_compat s es)].
  - intros u u' f f' [[<- <-]|[Hn1 Hu]]%lookup_insert_Some [[<- <-]|[Hn2 Hu']]%lookup_insert_Some Hne; try done.
    + apply Hc; [by eapply i_task|by eapply (i_compat s es)].
    + apply d_compat_sym, Hc; [by eapply i_task|by eapply (i_compat s es)].
    + by eapply (i_compat s es Hi u u').
Qed.

(** ** Changes that goroutines do not notice *)

Record grows (s s' : State) : Prop := {
  gr_chans ch k : chans s !! ch = Some k -> exists k', chans s' !! ch = Some k' /\ c_id k' = c_id k /\ (c_open k' = c_open k \/ cleared s' = true);
  gr_cleared : cleared s = true -> cleared s' = true;
  gr_locked : locked s = true -> locked s' = true;
  gr_shutdown : shutdownCh s' = shutdownCh s;
  gr_conn : sticky = true -> conn s = true -> conn s' = true;
  gr_heard d : d ∈ heard (log s) -> d ∈ heard (log s');
}.

Lemma heard_grows s s' id r : grows s s' -> heard_from (log s) id r -> heard_from (log s') id r.
Proof. intros Hg (d & Hd & Hc). exists d. split; [by apply Hg|done]. Qed.

Lemma d_task_grows s s' e : grows s s' -> task_ok s e -> task_ok s' e.
Proof.
  intros Hg Ht. split.
  - intros id ch Ho. destruct (t_own _ _ Ht id ch Ho) as (k & Hk & Hid & Hc). destruct (gr_chans _ _ Hg ch k Hk) as (k' & Hk' & Hid' & Hop).
    exists k'. rewrite Hid'. split_and!; [done..|]. destruct Hop as [->|Hcl]; [|done]. intros Hf. by apply Hg, Hc.
  - apply Ht.
  - intros Hm. by apply Hg, Ht.
  - intros Hu. rewrite (gr_shutdown _ _ Hg). by apply Ht.
  - intros Hs Hu. apply (gr_conn _ _ Hg Hs). by apply Ht.
  - intros d Hd. by apply Hg, Ht.
  - intros id r Hr. apply (heard_grows s); [done|]. by apply Ht.
Qed.

Definition same_holdings (e e' : env) : Prop := own e' = own e /\ mu e' = mu e.

Lemma d_inv_grows s es t e s' e' :
  Inv s es -> es !! t = Some e -> grows s s' -> global s' -> task_ok s' e' -> same_holdings e e' -> wg s' = wg s - owed e + owed e' ->
  Inv s' (<[t := e']> es).
Proof.
  intros Hi He Hgr Hg Ht [H1 H2] Hn. apply (d_inv_step s es t e); try done.
  - intros f Hf _. by apply (d_task_grows s).
  - intros f _ [C1 C2]. split; rewrite ?H1, ?H2; done.
Qed.

Lemma d_grows_refl s : grows s s.
Proof. split; try done. intros ch k Hk. exists k. by split_and!; [..|left]. Qed.

(** The state of the correlation is the same. *)
Definition same_core (s s' : State) : Prop :=
  requestMap s' = requestMap s /\ chans s' = chans s /\ next_chan s' = next_chan s /\ log s' = log s /\ cleared s' = cleared s.

Lemma global_same s s' : global s -> same_core s s' -> (sticky = true -> is_up (state s') = true -> conn s' = true) -> global s'.
Proof. intros Hg (Hm & Hc & Hn & Hl & Hcl) Hu. split; rewrite ?Hm, ?Hc, ?Hn, ?Hl, ?Hcl; try apply Hg. done. Qed.

(** A command that changes neither correlation nor shutdown, lock or connection, and whose goroutine learns nothing. *)
Lemma inv_quiet s es t e s' :
  Inv s es -> es !! t = Some e -> same_core s s' -> state s' = state s -> locked s' = locked s -> shutdownCh s' = shutdownCh s ->
  conn s' = conn s -> wg s' = wg s -> Inv s' (<[t := e]> es).
Proof.
  intros Hi He Hs H1 H2 H3 H4 H5. assert (grows s s') as Hgr.
  { destruct Hs as (_ & Hc & _ & Hl & Hcl). split; rewrite ?Hc, ?Hl, ?Hcl, ?H2, ?H4; try done. intros ch k Hk. exists k. by split_and!; [..|left]. }
  apply (d_inv_grows s es t e); try done; [|by eapply d_task_grows, i_task|lia].
  apply (global_same s); [apply Hi|done|]. rewrite H1, H4. apply Hi.
Qed.

Lemma d_inv_same s es t e : Inv s es -> es !! t = Some e -> Inv s (<[t := e]> es).
Proof. intros Hi He. by apply (inv_quiet s es t e). Qed.

(** A goroutine that only learns. *)
Lemma inv_learn s es t e e' :
  Inv s es -> es !! t = Some e -> task_ok s e' -> same_holdings e e' -> owed e' = owed e -> Inv s (<[t := e']> es).
Proof. intros Hi He Ht Hh Ho. apply (d_inv_grows s es t e); try done; [apply d_grows_refl|apply Hi|lia]. Qed.

(** ** The commands *)

Lemma inv_Return s es t e q r : Inv s es -> es !! t = Some e -> pre _ (Return q r) e -> Inv (set_log (answered q r (log s)) s) (<[t := e]> es).
Proof.
  intros Hi He Hp. assert (grows s (set_log (answered q r (log s)) s)) as Hgr.
  { split; try done. intros ch k Hk. exists k. by split_and!; [..|left]. }
  pose proof (i_task _ _ Hi t e He) as Ht. destruct (i_global _ _ Hi).
  apply (d_inv_grows s es t e); try done; [|by eapply d_task_grows|cbn; lia]. split; cbn; try done.
  - intros q' r' [Ha|[= -> <-]%list_elem_of_singleton]%elem_of_app; [by apply g_answers0|]. by apply Ht.
  - intros q' [Ha|[= -> <-]%list_elem_of_singleton]%elem_of_app; [by eapply g_nil0|done].
Qed.

Lemma inv_Post s es t e d : Inv s es -> es !! t = Some e -> Inv (set_log (note_post d (log s)) s) (<[t := e]> es).
Proof.
  intros Hi He. assert (grows s (set_log (note_post d (log s)) s)) as Hgr by (split; try done; intros ch k Hk; exists k; by split_and!; [..|left]).
  apply (d_inv_grows s es t e); try done; [|by eapply d_task_grows, i_task|cbn; lia]. destruct (i_global _ _ Hi). by split.
Qed.

Lemma inv_state s es t e f :
  Inv s es -> es !! t = Some e -> keeps_up f e ->
  Inv (set_state (f (state s, attempts s)) s) (<[t := set_up (is_up (state s)) e]> es).
Proof.
  intros Hi He Hf. pose proof (i_task _ _ Hi t e He) as Ht. pose proof (i_global _ _ Hi) as Hg.
  assert (grows s (set_state (f (state s, attempts s)) s)) as Hgr by (split; try done; intros ch k Hk; exists k; by split_and!; [..|left]).
  apply (d_inv_grows s es t e); try done; [| |cbn; lia].
  - apply (global_same s); [done|done|]. cbn. intros Hs Hu. destruct (Hf Hs _ Hu) as [Hx|Hx]; [by apply Hg|by apply Ht].
  - apply (d_task_grows s); [done|]. destruct Ht. split; try done. cbn. intros Hs [Hx|Hx]%orb_prop; [by apply Hg|by apply t_up0].
Qed.

Lemma inv_Lock s es t e : Inv s es -> es !! t = Some e -> locked s = false -> Inv (set_locked true s) (<[t := set_mu true e]> es).
Proof.
  intros Hi He Hl. pose proof (i_task _ _ Hi t e He) as Ht.
  assert (grows s (set_locked true s)) as Hgr by (split; try done; intros ch k Hk; exists k; by split_and!; [..|left]).
  apply (d_inv_step s es t e); try done; [by apply (global_same s); [apply Hi|..|apply Hi]| | | |cbn; lia].
  - destruct (d_task_grows _ _ _ Hgr Ht). by split.
  - intros f Hf _. by apply (d_task_grows s).
  - intros f Hf [C1 C2]. split; [done|]. cbn. intros _ Hm. pose proof (t_mu _ _ Hf Hm). congruence.
Qed.

Lemma inv_Unlock s es t e : Inv s es -> es !! t = Some e -> mu e = true -> Inv (set_locked false s) (<[t := set_mu false e]> es).
Proof.
  intros Hi He Hl. pose proof (i_task _ _ Hi t e He) as Ht.
  apply (d_inv_step s es t e); try done; [by apply (global_same s); [apply Hi|..|apply Hi]| | | |cbn; lia].
  - destruct Ht. by split.
  - intros f Hf [_ C2]. destruct (mu f) eqn:Em; [by destruct C2|]. destruct Hf. split; try done. cbn. congruence.
  - intros f Hf [C1 C2]. by split.
Qed.

Lemma inv_Register s es t e id cap :
  Inv s es -> es !! t = Some e -> own e = None ->
  Inv (set_chans (<[id := next_chan s]> (requestMap s)) (<[next_chan s := mkChan id cap [] true]> (chans s)) (S (next_chan s)) s)
    (<[t := set_own (Some (id, next_chan s)) e]> es).
Proof.
  intros Hi He Ho. pose proof (i_task _ _ Hi t e He) as Ht. pose proof (i_global _ _ Hi) as Hg.
  pose proof (g_fresh _ Hg (next_chan s) (le_n _)) as Hn.
  match goal with |- Inv ?s' _ => assert (grows s s') as Hgr end.
  { split; try done. cbn. intros ch k Hk. exists k. rewrite lookup_insert_ne by congruence. by split_and!; [..|left]. }
  apply (d_inv_step s es t e); try done; [| | | |cbn; lia].
  - split; cbn; try apply Hg.
    + intros id' ch [[<- <-]|[Hne Hk]]%lookup_insert_Some; [rewrite lookup_insert_eq; by eexists|].
      destruct (g_pending _ Hg _ _ Hk) as (k & Hc & Hk'). exists k. rewrite lookup_insert_ne by congruence. done.
    + intros ch k r [[<- <-]|[Hne Hk]]%lookup_insert_Some Hr; [by apply not_elem_of_nil in Hr|]. by eapply g_buf.
    + intros ch Hch. rewrite lookup_insert_ne by lia. apply Hg. lia.
  - destruct (d_task_grows _ _ _ Hgr Ht). split; try done. cbn. intros id' ch [= <- <-]. rewrite lookup_insert_eq. by eexists.
  - intros f Hf _. by apply (d_task_grows s).
  - intros f Hf [C1 C2]. split; [|done]. cbn. intros id1 id2 ch [= <- <-] Hof. destruct (t_own _ _ Hf _ _ Hof) as (k & Hk & _). congruence.
Qed.

Lemma inv_Cleanup s es t e id ch :
  Inv s es -> es !! t = Some e -> own e = Some (id, ch) ->
  Inv (set_chans (delete id (requestMap s)) (alter close_chan ch (chans s)) (next_chan s) s) (<[t := set_own None e]> es).
Proof.
  intros Hi He Ho. pose proof (i_task _ _ Hi t e He) as Ht. pose proof (i_global _ _ Hi) as Hg.
  destruct (t_own _ _ Ht id ch Ho) as (k0 & Hk0 & Hid0 & _).
  assert (forall f, task_ok s f -> (forall id', own f <> Some (id', ch)) ->
    task_ok (set_chans (delete id (requestMap s)) (alter close_chan ch (chans s)) (next_chan s) s) f) as Hrest.
  { intros f Hf Hne. destruct Hf. split; try done. cbn. intros id' ch' Ho'. rewrite lookup_alter_ne by (intros ->; by eapply Hne). by apply t_own0. }
  apply (d_inv_step s es t e); try done; [| | | |cbn; lia].
  - split; cbn; try apply Hg.
    + intros id' ch' [Hne Hk]%lookup_delete_Some. destruct (g_pending _ Hg _ _ Hk) as (k & Hc & Hid & Hop). exists k.
      rewrite lookup_alter_ne by congruence. done.
    + intros ch' k r. destruct (decide (ch' = ch)) as [->|Hne]; [rewrite lookup_alter_eq, Hk0|rewrite lookup_alter_ne by done].
      * intros [= <-] Hr. by eapply (g_buf _ Hg ch k0).
      * intros Hk Hr. by eapply g_buf.
    + intros ch' Hch. rewrite lookup_alter_None. by apply Hg.
  - apply Hrest; [|done]. destruct Ht. by split.
  - intros f Hf [C1 C2]. apply Hrest; [done|]. intros id' Ho'. by eapply C1.
  - intros f Hf [C1 C2]. by split.
Qed.

Lemma close_pending_lookup s ch k :
  chans s !! ch = Some k -> exists k', close_pending s !! ch = Some k' /\ c_id k' = c_id k /\ c_buf k' = c_buf k.
Proof. intros Hk. unfold close_pending. rewrite map_lookup_imap, Hk. cbn. case_bool_decide; by eexists. Qed.

Lemma close_pending_inv s ch k' : close_pending s !! ch = Some k' -> exists k, chans s !! ch = Some k /\ c_id k' = c_id k /\ c_buf k' = c_buf k.
Proof.
  unfold close_pending. rewrite map_lookup_imap. destruct (chans s !! ch) as [k|]; [|done]. cbn. intros [= <-]. exists k. by case_bool_decide.
Qed.

Lemma inv_ClearPending s es t e :
  Inv s es -> es !! t = Some e -> clears = true ->
  Inv (set_cleared (set_chans ∅ (close_pending s) (next_chan s) s)) (<[t := e]> es).
Proof.
  intros Hi He Hc. pose proof (i_task _ _ Hi t e He) as Ht. pose proof (i_global _ _ Hi) as Hg.
  match goal with |- Inv ?s' _ => assert (grows s s') as Hgr end.
  { split; try done. cbn. intros ch k Hk. destruct (close_pending_lookup s ch k Hk) as (k' & Hk' & Hid & _). exists k'. by split_and!; [..|right]. }
  apply (d_inv_grows s es t e); try done; [|by apply (d_task_grows s)|cbn; lia]. split; cbn; try apply Hg; try done.
  - intros ch k' r (k & Hk & -> & ->)%close_pending_inv Hr. by eapply g_buf.
  - intros ch Hch. unfold close_pending. by rewrite map_lookup_imap, (g_fresh _ Hg).
Qed.

(** The buffer of a channel changes. *)
Lemma inv_buffer s es t e e' ch k b :
  Inv s es -> es !! t = Some e -> chans s !! ch = Some k -> (forall r, r ∈ b -> heard_from (log s) (c_id k) r) ->
  task_ok s e' -> same_holdings e e' -> owed e' = owed e ->
  Inv (set_chans (requestMap s) (<[ch := mkChan (c_id k) (c_cap k) b (c_open k)]> (chans s)) (next_chan s) s) (<[t := e']> es).
Proof.
  intros Hi He Hk Hb Ht Hh Ho. pose proof (i_global _ _ Hi) as Hg.
  match goal with |- Inv ?s' _ => assert (grows s s') as Hgr end.
  { split; try done. cbn. intros ch' k' Hk'. destruct (decide (ch' = ch)) as [->|Hne].
    - rewrite lookup_insert_eq. eexists. replace k' with k by congruence. by split_and!; [..|left].
    - rewrite lookup_insert_ne by done. exists k'. by split_and!; [..|left]. }
  apply (d_inv_grows s es t e); try done; [|by apply (d_task_grows s)|cbn; lia]. split; cbn; try apply Hg.
  - intros id ch' Hm. destruct (g_pending _ Hg _ _ Hm) as (k' & Hk' & Hid & Hop). destruct (decide (ch' = ch)) as [->|Hne].
    + rewrite lookup_insert_eq. eexists. replace k' with k in * by congruence. by split_and!.
    + rewrite lookup_insert_ne by done. by exists k'.
  - intros ch' k' r [[<- <-]|[Hne Hk']]%lookup_insert_Some Hr; [by apply Hb|]. by eapply g_buf.
  - intros ch' Hch. rewrite lookup_insert_ne; [by apply Hg|]. intros <-. rewrite (g_fresh _ Hg) in Hk by done. done.
Qed.

Lemma inv_Deliver s es t e id r s' :
  Inv s es -> es !! t = Some e -> (exists d, d ∈ texts e /\ carries id r d) -> exec _ (Deliver id r) tt s = Some s' -> Inv s' (<[t := e]> es).
Proof.
  intros Hi He (d & Hd & Hc). pose proof (i_task _ _ Hi t e He) as Ht. pose proof (i_global _ _ Hi) as Hg. cbn [exec].
  destruct (requestMap s !! id) as [ch|] eqn:Em; [|intros [= <-]; by apply d_inv_same].
  destruct (g_pending _ Hg _ _ Em) as (k & Hk & Hid & _). rewrite Hk.
  destruct (_ <? _)%nat; intros [= <-]; [|by apply d_inv_same].
  apply (inv_buffer s es t e); try done. intros r' [Hr| ->%list_elem_of_singleton]%elem_of_app; [by eapply g_buf|].
  exists d. rewrite Hid. split; [by apply Ht|done].
Qed.

Lemma inv_Wait s es t e ch x s' :
  Inv s es -> es !! t = Some e -> pre _ (Wait ch) e -> exec _ (Wait ch) x s = Some s' ->
  valid _ (Wait ch) x e /\ Inv s' (<[t := post _ (Wait ch) x e]> es).
Proof.
  intros Hi He [id Ho]. pose proof (i_task _ _ Hi t e He) as Ht. pose proof (i_global _ _ Hi) as Hg. cbn.
  destruct (t_own _ _ Ht id ch Ho) as (k & Hk & Hid & Hop). rewrite Hk, Ho. destruct x as [r| | |err|].
  - destruct (c_buf k) as [|r' rest] eqn:Eb; [done|]. case_bool_decide; [|done]. intros [= <-]. subst r'. split; [done|].
    assert (forall r', r' ∈ r :: rest -> heard_from (log s) (c_id k) r') as Hb by (rewrite <- Eb; intros; by eapply g_buf).
    apply (inv_buffer s es t e); try done; [intros r' Hr'; apply Hb; by right|].
    destruct Ht. split; try done. cbn. intros id' r' [[= -> ->]|Hr]%elem_of_cons; [|by apply t_got0]. rewrite <- Hid. apply Hb. left.
  - intros [Hx%andb_prop ->]%when_Some. destruct Hx as [Hx _]. split; [|by apply d_inv_same]. intros _. apply Hg, Hop. by destruct (c_open k).
  - intros [= <-]. split; [done|by apply d_inv_same].
  - intros [= <-]. split; [done|by apply d_inv_same].
  - intros [_ ->]%when_Some. split; [done|by apply d_inv_same].
Qed.

Lemma inv_Receive s es t e d : Inv s es -> es !! t = Some e -> Inv (set_log (hear d (log s)) s) (<[t := add_text d e]> es).
Proof.
  intros Hi He. pose proof (i_task _ _ Hi t e He) as Ht. pose proof (i_global _ _ Hi) as Hg.
  assert (grows s (set_log (hear d (log s)) s)) as Hgr.
  { split; try done; [intros ch k Hk; exists k; by split_and!; [..|left]|]. cbn. intros d' Hd. apply elem_of_app. by left. }
  apply (d_inv_grows s es t e); try done; [| |cbn; lia].
  - split; cbn; try apply Hg.
    + intros ch k r Hk Hr. apply (heard_grows _ _ _ _ Hgr). by eapply g_buf.
    + intros q r Ha. apply (heard_grows _ _ _ _ Hgr). by apply Hg.
  - destruct (d_task_grows _ _ _ Hgr Ht). split; try done. cbn. intros d' [ ->|Hd]%elem_of_cons; [apply elem_of_app; right; left|].
    apply elem_of_app. left. by apply Ht.
Qed.

Lemma inv_SetConn s es t e b : Inv s es -> es !! t = Some e -> (sticky = true -> b = true) -> Inv (set_conn b (writing s) s) (<[t := set_up b e]> es).
Proof.
  intros Hi He Hb. pose proof (i_task _ _ Hi t e He) as Ht. pose proof (i_global _ _ Hi) as Hg.
  assert (grows s (set_conn b (writing s) s)) as Hgr by (split; try done; [intros ch k Hk; exists k; by split_and!; [..|left]|cbn; auto]).
  apply (d_inv_grows s es t e); try done; [| |cbn; lia].
  - apply (global_same s); [done|done|]. cbn. auto.
  - destruct (d_task_grows _ _ _ Hgr Ht). split; try done. cbn. auto.
Qed.

Lemma inv_CloseShutdown s es t e :
  Inv s es -> es !! t = Some e -> races = true \/ unshut e = true -> Inv (set_shutdown true (doneCh s) s) (<[t := set_unshut false e]> es).
Proof.
  intros Hi He Hp. pose proof (i_task _ _ Hi t e He) as Ht. pose proof (i_global _ _ Hi) as Hg.
  apply (d_inv_step s es t e); try done; [apply (global_same s); [done|done|apply Hg]| | | |cbn; lia].
  - destruct Ht. by split.
  - intros f Hf [_ C2]. destruct (unshut f) eqn:Eu.
    + destruct (t_unshut _ _ Hf Eu) as (Hm & Hr & _). destruct Hp as [Hp|Hp]; [congruence|]. destruct (t_unshut _ _ Ht Hp) as (Hm' & _). by destruct C2.
    + destruct Hf. split; try done. congruence.
  - intros f Hf [C1 C2]. by split.
Qed.

Lemma inv_owed s es t e n : Inv s es -> es !! t = Some e -> 0 <= owed e + n -> Inv (set_wg (wg s + n) s) (<[t := set_owed (owed e + n) e]> es).
Proof.
  intros Hi He Hn. pose proof (i_task _ _ Hi t e He) as Ht.
  assert (grows s (set_wg (wg s + n) s)) as Hgr by (split; try done; intros ch k Hk; exists k; by split_and!; [..|left]).
  apply (d_inv_grows s es t e); try done; [apply (global_same s); [apply Hi|done|apply Hi]| |cbn; lia].
  destruct (d_task_grows _ _ _ Hgr Ht). by split.
Qed.

(** One step of a goroutine keeps the invariant. *)
Lemma direct_exec_rule s es t e X (c : cmd X) x s' :
  Inv s es -> es !! t = Some e -> pre X c e -> panics X c s = false -> exec X c x s = Some s' ->
  valid X c x e /\ Inv s' (<[t := post X c x e]> es).
Proof.
  intros Hi He Hp Hnp Hx.
  destruct c; try (by eapply inv_Wait); (split; [done|]); cbn [post];
    try solve [cbn [exec] in *; first [injection Hx as <-|apply when_Some in Hx as [_ ->]]; by eapply d_inv_same];
    try solve [cbn [exec] in *; injection Hx as <-; by apply (inv_quiet s es t e)].
  - (* Return *) injection Hx as <-. by apply inv_Return.
  - (* Update *) cbn in Hx. destruct Hp as [_ Hk]. destruct (negb (locked s)); [|done]. cbn in Hx. case_bool_decide; [|done]. injection Hx as <-. subst x. by apply inv_state.
  - (* Lock *) cbn in Hx. destruct (locked s) eqn:El; [done|]. injection Hx as <-. by apply inv_Lock.
  - (* Held *) cbn in Hx. destruct Hp as [_ Hk]. case_bool_decide; [|done]. injection Hx as <-. subst x. by apply inv_state.
  - (* Unlock *) injection Hx as <-. by apply inv_Unlock.
  - (* NextID *) cbn in Hx. destruct (_ =? _); [|done]. injection Hx as <-. by apply (inv_quiet s es t e).
  - (* Register *) cbn in Hx. case_bool_decide; [|done]. injection Hx as <-. subst x. by apply inv_Register.
  - (* Cleanup *) injection Hx as <-. by apply inv_Cleanup.
  - (* ClearPending *) injection Hx as <-. by apply inv_ClearPending.
  - (* Deliver *) destruct x. by eapply inv_Deliver.
  - (* WriteLock *) cbn in Hx. destruct (writing s); [done|]. injection Hx as <-. by apply (inv_quiet s es t e).
  - (* SetBuffer *) cbn in Hx. case_bool_decide; [|done]. injection Hx as <-. by apply (inv_quiet s es t e).
  - (* Post *) injection Hx as <-. by apply inv_Post.
  - (* Receive *) cbn in Hx. destruct x; injection Hx as <-; try (by apply d_inv_same). by apply inv_Receive.
  - (* SetConn *) injection Hx as <-. by apply inv_SetConn.
  - (* Tick *) cbn in Hx. destruct x; [injection Hx as <-|apply when_Some in Hx as [_ ->]|injection Hx as <-]; by apply d_inv_same.
  - (* ShutdownSeen *) cbn in Hx. apply when_Some in Hx as [Hx%Bool.eqb_prop ->]. subst x. destruct (_ && _) eqn:Eb; [|by apply d_inv_same].
    apply andb_prop in Eb as [[Es Em]%andb_prop Er]. pose proof (i_task _ _ Hi t e He) as Ht.
    apply (inv_learn s es t e); try done. destruct Ht. split; try done. cbn. intros _. by destruct races, (shutdownCh s).
  - (* CloseShutdown *) injection Hx as <-. by apply inv_CloseShutdown.
  - (* WgAdd *) injection Hx as <-. apply inv_owed; [done|done|]. pose proof (t_owed _ _ (i_task _ _ Hi t e He)). lia.
  - (* WgDone *) injection Hx as <-. cbn in Hp. apply (inv_owed s es t e (-1)); [done|done|lia].
  - (* NewSignal *) cbn in Hx. case_bool_decide; [|done]. injection Hx as <-. by apply (inv_quiet s es t e).
  - (* Await *) cbn in Hx. destruct x; [apply when_Some in Hx as [_ ->]|injection Hx as <-|injection Hx as <-]; by apply d_inv_same.
Qed.

(** A panic happens only where the discipline leaves it open. *)
Lemma direct_no_panic s es t e X (c : cmd X) : Inv s es -> es !! t = Some e -> pre X c e -> panics X c s = true -> crash X c = true.
Proof.
  intros Hi He Hp. pose proof (i_task _ _ Hi t e He) as Ht. pose proof (i_global _ _ Hi) as Hg. destruct c; try done; cbn.
  - intros Ho. unfold is_open in Ho. destruct (t_own _ _ Ht _ _ Hp) as (k & Hk & _ & Hc). rewrite Hk in Ho. apply Hg, Hc. by destruct (c_open k).
  - intros (id & ch & Hm & Ho)%bool_decide_eq_true. destruct (g_pending _ Hg _ _ Hm) as (k & Hk & _ & Hop). unfold is_open in Ho. rewrite Hk in Ho. congruence.
  - destruct (requestMap s !! id) as [ch|] eqn:Em; [|done]. destruct (g_pending _ Hg _ _ Em) as (k & Hk & _ & Hop). unfold is_open. by rewrite Hk, Hop.
  - destruct Hp as [Hs Hu]. by rewrite (t_up _ _ Ht Hs Hu).
  - intros Hs. destruct Hp as [Hp|Hp]; [done|]. destruct (t_unshut _ _ Ht Hp) as (_ & _ & Hn). congruence.
  - cbn in Hp. rewrite (i_wg _ _ Hi), (total_of_delete owed es t e He). intros Hw.
    assert (0 <= total (delete t es)); [|lia]. apply total_of_nonneg. intros u f [_ Hu]%lookup_delete_Some. by apply (t_owed s), (i_task _ _ Hi u).
Qed.

Lemma d_inv_exit s es t e : Inv s es -> es !! t = Some e -> exit_ok e -> Inv s (delete t es).
Proof.
  intros Hi He (_ & Ho & _). split; [apply Hi|..].
  - intros u f [_ Hu]%lookup_delete_Some. by eapply i_task.
  - intros u u' f f' [_ Hu]%lookup_delete_Some [_ Hu']%lookup_delete_Some. by eapply i_compat.
  - rewrite (i_wg _ _ Hi), (total_of_delete owed es t e He), Ho. lia.
Qed.

(** A goroutine goes on with its shares alone. *)
Definition rests (n : Z) (e e2 : env) : Prop := own e = None /\ mu e = false /\ owed e = n /\ e2 = set_owed n nothing.

Lemma shares_ok s n : 0 <= n -> task_ok s (set_owed n nothing).
Proof. intros Hn. split; cbn; try done; intros; exfalso; by eapply not_elem_of_nil. Qed.

Lemma inv_again s es t e n e2 : Inv s es -> es !! t = Some e -> rests n e e2 -> Inv s (<[t := e2]> es).
Proof.
  intros Hi He (Ho & Hm & Hn & ->). pose proof (t_owed _ _ (i_task _ _ Hi t e He)) as Hp.
  apply (d_inv_step s es t e); try done; [apply Hi|apply shares_ok; lia|cbn; lia].
Qed.

Lemma d_inv_start s es t e t' ec e1 :
  Inv s es -> es !! t = Some e -> es !! t' = None -> split e ec e1 -> Inv s (<[t' := ec]> (<[t := e1]> es)).
Proof.
  intros Hi He Hn (n & Hle & -> & ->). pose proof (i_task _ _ Hi t e He) as Ht.
  assert (task_ok s (set_owed (owed e - n) e)) as Ht1 by (destruct Ht; split; try done; cbn; lia).
  assert (t' <> t) as Hne by congruence. split; [apply Hi|..].
  - intros u f [[<- <-]|[_ [[<- <-]|[_ Hu]]%lookup_insert_Some]]%lookup_insert_Some; [apply shares_ok; lia|done|by eapply i_task].
  - assert (forall f, compat (set_owed n nothing) f) as Hc by by split.
    assert (forall u f, es !! u = Some f -> t <> u -> compat (set_owed (owed e - n) e) f) as Hc1.
    { intros u f Hu Hu'. destruct (i_compat _ _ Hi t u e f He Hu Hu'). by split. }
    intros u u' f f' [[<- <-]|[H1 [[<- <-]|[H3 Hu]]%lookup_insert_Some]]%lookup_insert_Some
      [[<- <-]|[H2 [[<- <-]|[H4 Hu']]%lookup_insert_Some]]%lookup_insert_Some Hd; try done; try (by apply Hc); try (by apply d_compat_sym, Hc).
    + by eapply Hc1.
    + apply d_compat_sym. by eapply Hc1.
    + by eapply (i_compat _ _ Hi u u').
  - rewrite total_of_insert by (rewrite lookup_insert_ne; done). rewrite (total_of_update owed es t e _ He), (i_wg _ _ Hi). cbn. lia.
Qed.

(** ** The rules, for the goroutines of a client

    [shares l]: the shares of the wait group with which an iteration of the loop [l] starts. *)
Section Client.
Context {label : Type}.
Variable body : label -> prog cmd label (next label).
Variable shares : label -> Z.

Definition label_env (l : label) (e e2 : env) : Prop := rests (shares l) e e2.

#[local] Notation OK p e := (goroutine_ok pre valid post split exit_ok label_env p e).

Lemma direct_rules :
  (forall l, OK (body l) (set_owed (shares l) nothing)) ->
  rules exec panics body (fun _ _ => False) Inv pre valid post split exit_ok label_env crash.
Proof.
  intros Hl. split.
  - intros s es t e X c. apply direct_no_panic.
  - intros s es t e X c x s'. apply direct_exec_rule.
  - intros s es t e. apply d_inv_exit.
  - intros s es t e l e2 Hi He Hle. by eapply inv_again.
  - intros s es t e t' ec e1. apply d_inv_start.
  - done.
  - intros l e e2 (_ & _ & _ & ->). apply Hl.
Qed.

(** Goroutines that own nothing, around a fresh client. *)
Lemma direct_typed_start (ts : gmap nat (prog cmd label (next label))) :
  (forall t p, ts !! t = Some p -> OK p nothing) ->
  typed panics Inv pre valid post split exit_ok label_env crash {| st := fresh_client; tasks := ts; panicked := false |}.
Proof.
  intros Hts. split; [done|]. exists (const nothing <$> ts). split_and!.
  - split.
    + split; try done; cbn; [intros q r Hq; by apply not_elem_of_nil in Hq|intros q; apply not_elem_of_nil].
    + intros t e (p & <- & _)%lookup_fmap_Some. apply (shares_ok _ 0). lia.
    + intros t t' e f (p & <- & _)%lookup_fmap_Some (p' & <- & _)%lookup_fmap_Some _. by split.
    + cbn. rewrite total_of_zero; [done|]. by intros t e (p & <- & _)%lookup_fmap_Some.
  - cbn. by rewrite dom_fmap_L.
  - cbn. intros t p e Hp (q & <- & _)%lookup_fmap_Some. by apply (Hts t).
Qed.

(** What the invariant says of answers, of panics, and of the wait group between iterations. *)
Lemma typed_answer (w : world cmd State label) q r :
  typed panics Inv pre valid post split exit_ok label_env crash w -> (q, Ok r) ∈ answers (log (st w)) ->
  exists a, r = Some a /\ heard_from (log (st w)) (id_text (req_ID q)) a.
Proof.
  intros (_ & es & Hi & _) Ha. destruct r as [a|]; [|by destruct (g_nil _ (i_global _ _ Hi) q)]. exists a. split; [done|]. by apply (g_answers _ (i_global _ _ Hi)).
Qed.

Lemma typed_panic (w : world cmd State label) :
  typed panics Inv pre valid post split exit_ok label_env crash w -> panicked w = true ->
  exists t X (c : cmd X) k, tasks w !! t = Some (Do c k) /\ panics X c (st w) = true /\ crash X c = true /\ (cleans c = true -> cleared (st w) = true).
Proof.
  intros (Hc & es & Hi & Hd & Ht) Hp. destruct (Hc Hp) as (t & X & c & k & Htk & Hpn & Hcr). exists t, X, c, k. split_and!; [done..|].
  assert (exists e, es !! t = Some e) as [e He] by (apply elem_of_dom; rewrite Hd; apply elem_of_dom; by eexists).
  destruct (Ht t _ e Htk He) as [Hpre _]. destruct c; try done. intros _. cbn in Hpn, Hpre. unfold is_open in Hpn.
  destruct (t_own _ _ (i_task _ _ Hi t e He) _ _ Hpre) as (k' & Hk & _ & Hop). rewrite Hk in Hpn. apply Hop. by destruct (c_open k').
Qed.

Lemma typed_wg (w : world cmd State label) :
  (forall t p, tasks w !! t = Some p -> exists n, p = Ret n) ->
  typed panics Inv pre valid post split exit_ok label_env crash w ->
  exists es : gmap nat env, dom es = dom (tasks w) /\ wg (st w) = total_of owed es /\
    forall t e, es !! t = Some e -> match tasks w !! t with Some (Ret (Again l)) => owed e = shares l | _ => owed e = 0 end.
Proof.
  intros Hr (_ & es & Hi & Hd & Ht). exists es. split_and!; [done|apply Hi|]. intros t e He.
  assert (exists p, tasks w !! t = Some p) as [p Hp] by (apply elem_of_dom; rewrite <- Hd; apply elem_of_dom; by eexists).
  rewrite Hp. destruct (Hr t p Hp) as [n ->]. pose proof (Ht t _ e Hp He) as Hok. destruct n as [|l]; [by apply Hok|]. by destruct Hok as (e2 & _ & _ & Hn & _).
Qed.

(** ** Typing, command by command

    [stands b n e]: between the commands of a program with no request of its own; it holds the mutex when [b], and [n]
    shares. *)
Record stands (b : bool) (n : Z) (e : env) : Prop := { st_own : own e = None; st_mu : mu e = b; st_owed : owed e = n }.

Notation WP p e Q := (wp pre valid post split exit_ok label_env p e Q).

(** Commands of which a goroutine learns nothing. *)
Definition quiet {X} (c : cmd X) : bool :=
  match c with
  | Call | Now | Metric _ | NextID | WriteLock | WriteUnlock | Write _ | Flush | SetBuffer _ | Post _ _ | Remaining | HasConn | Dial | Kill | WriteControl | CloseConn
  | ReadStderr | Tick | NewTicker _ | Sleep _ | DoneSeen | CloseDone | NewSignal | WgWait | ProcessWait | Raise _ | Await _ | Join _ => true
  | _ => false
  end.

Lemma d_quiet {X} (c : cmd X) e Q : quiet c = true -> (forall x, Q x e) -> WP (perform c) e Q.
Proof. intros Hq Hk. apply wp_perform; [by destruct c|]. intros x _. specialize (Hk x). by destruct c. Qed.

Lemma d_seen e Q : mu e = false -> (forall x, Q x e) -> WP (perform ShutdownSeen) e Q.
Proof. intros Hm Hk. apply wp_perform; [done|]. intros x _. cbn. rewrite Hm, andb_false_r. apply Hk. Qed.

(** Under the mutex, where the shutdown is signalled only under it. *)
Lemma d_seen_held e n Q :
  races = false -> stands true n e -> (forall x e', stands true n e' -> (x = false -> unshut e' = true) -> Q x e') -> WP (perform ShutdownSeen) e Q.
Proof.
  intros Hr [H1 H2 H3] Hk. apply wp_perform; [done|]. intros x _. cbn. rewrite H2, Hr. destruct x; cbn; apply Hk; done.
Qed.

(** Waiting for the answer to one's request. *)
Lemma d_Wait ch id e Q :
  own e = Some (id, ch) ->
  (forall x e', own e' = own e -> mu e' = mu e -> owed e' = owed e -> (x = GotNil -> clears = true) -> (forall r, x = Got r -> (id, r) ∈ got e') -> Q x e') ->
  WP (perform (Wait ch)) e Q.
Proof.
  intros Ho Hk. apply wp_perform; [by exists id|]. intros x Hv. cbn. rewrite Ho. destruct x; apply Hk; try done. intros r' [= ->]. left.
Qed.

Lemma d_Update f e n Q :
  stands false n e -> keeps_up f e ->
  (forall x e', stands false n e' -> up e' = is_up (fst x) || up e -> texts e' = texts e -> Q x e') -> WP (perform (Update f)) e Q.
Proof. intros [H1 H2 H3] Hf Hk. apply wp_perform; [done|]. intros x _. by apply Hk. Qed.

Lemma d_Held f e n Q :
  stands true n e -> keeps_up f e ->
  (forall x e', stands true n e' -> up e' = is_up (fst x) || up e -> unshut e' = unshut e -> Q x e') -> WP (perform (Held f)) e Q.
Proof. intros [H1 H2 H3] Hf Hk. apply wp_perform; [done|]. intros x _. by apply Hk. Qed.

Lemma d_Lock e n Q : stands false n e -> (forall e', stands true n e' -> up e' = up e -> Q tt e') -> WP (perform Lock) e Q.
Proof. intros [H1 H2 H3] Hk. apply wp_perform; [done|]. intros [] _. by apply Hk. Qed.

Lemma d_Unlock e n Q : stands true n e -> (forall e', stands false n e' -> Q tt e') -> WP (perform Unlock) e Q.
Proof. intros [H1 H2 H3] Hk. apply wp_perform; [done|]. intros [] _. by apply Hk. Qed.

Lemma d_SetConn c e b n Q :
  stands b n e -> (sticky = true -> c = true) -> (forall e', stands b n e' -> up e' = c || up e -> Q tt e') -> WP (perform (SetConn c)) e Q.
Proof. intros [H1 H2 H3] Hc Hk. apply wp_perform; [done|]. intros [] _. by apply Hk. Qed.

Lemma d_WgAdd e b n Q : stands b n e -> (forall e', stands b (n + 1) e' -> up e' = up e -> Q tt e') -> WP (perform WgAdd) e Q.
Proof. intros [H1 H2 H3] Hk. apply wp_perform; [done|]. intros [] _. apply Hk; [split; cbn; congruence|done]. Qed.

Lemma d_WgDone e b n Q : stands b n e -> 1 <= n -> (forall e', stands b (n - 1) e' -> Q tt e') -> WP (perform WgDone) e Q.
Proof. intros [H1 H2 H3] Hn Hk. apply wp_perform; [cbn; lia|]. intros [] _. apply Hk. split; cbn; congruence. Qed.

(** A goroutine is started with [m] of the shares. *)
Lemma d_go ch e b n m Q :
  stands b n e -> 0 <= m <= n -> OK ch (set_owed m nothing) -> (forall e', stands b (n - m) e' -> up e' = up e -> Q tt e') -> WP (go ch) e Q.
Proof.
  intros [H1 H2 H3] Hm Hc Hk. apply wp_go with (ec := set_owed m nothing) (e1 := set_owed (owed e - m) e); [|done|].
  - exists m. split_and!; [lia|lia|done|done].
  - apply Hk; [split; cbn; congruence|done].
Qed.

(** A message that was read. *)
Lemma d_Receive e n Q :
  stands false n e -> (forall x e', stands false n e' -> (forall d, x = RText d -> d ∈ texts e') -> Q x e') -> WP (perform Receive) e Q.
Proof.
  intros [H1 H2 H3] Hk. apply wp_perform; [done|]. intros x _. apply Hk; [by destruct x|]. intros d ->. cbn. left.
Qed.

Lemma d_Deliver id r d e Q : d ∈ texts e -> Unmarshal_response d = Ok r -> resp_ID r = JString id -> Q tt e -> WP (perform (Deliver id r)) e Q.
Proof. intros Hd Hu Hr Hq. apply wp_perform; [by exists d|]. by intros [] _. Qed.

Lemma d_exit e : stands false 0 e -> exit_ok e.
Proof. by intros [H1 H2 H3]. Qed.

Lemma d_again l e : stands false (shares l) e -> exists e2, label_env l e e2.
Proof. intros [H1 H2 H3]. by eexists. Qed.

Lemma d_loop l n : n = shares l -> OK (Ret (Again l)) (set_owed n nothing).
Proof. intros ->. apply d_again. by split. Qed.

Lemma d_ticking d l n : n = shares l -> OK (ticking d l) (set_owed n nothing).
Proof. intros ->. apply wp_bind, d_quiet; [done|]. intros []. apply d_again. by split. Qed.

Lemma stands_shares n : stands false n (set_owed n nothing).
Proof. done. Qed.

Lemma set_keeps_up s e : is_up s = false -> keeps_up (fun x => (s, snd x)) e.
Proof. intros Hs _ x. cbn. congruence. Qed.

Lemma free_keeps_up f e : sticky = false -> keeps_up f e.
Proof. unfold keeps_up. by intros ->. Qed.

(** With a request of its own, a goroutine changes the state as without one. *)
Lemma d_Update_own f e Q :
  sticky = false -> mu e = false -> (forall x e', own e' = own e -> mu e' = false -> owed e' = owed e -> Q x e') -> WP (perform (Update f)) e Q.
Proof. intros Hs Hm Hk. apply wp_perform; [split; [done|by apply free_keeps_up]|]. intros x _. by apply Hk. Qed.

Lemma id_keeps_up e : keeps_up (fun x => x) e.
Proof. intros _ x. by left. Qed.

Lemma keeps_down s e : is_up s = false -> keeps_up (fun x => if is_down (fst x) then x else (s, snd x)) e.
Proof. intros Hs _ x. destruct (is_down (fst x)); [by left|]. cbn. congruence. Qed.

Lemma d_CloseShutdown b n e Q :
  stands b n e -> races = true \/ unshut e = true -> (forall e', stands b n e' -> up e' = up e -> Q tt e') -> WP (perform CloseShutdown) e Q.
Proof. intros [H1 H2 H3] Hr Hk. apply wp_perform; [done|]. intros [] _. by apply Hk. Qed.

Lemma up_keeps_up f e : up e = true -> keeps_up f e.
Proof. intros Hu _ x _. by right. Qed.

End Client.
End Discipline.

(** *** Automation

    [walk] takes a typing goal through the commands of a program up to a branch or a program with a lemma of its own. *)
Ltac state_ok := first [apply id_keeps_up | by apply free_keeps_up | by apply set_keeps_up | by apply keeps_down | by apply up_keeps_up].
Ltac walk_step :=
  cbn [negb]; cbn beta;
  lazymatch goal with
  | |- wp _ _ _ _ _ _ (mret _) _ _ => apply wp_ret
  | |- wp _ _ _ _ _ _ (mbind _ _) _ _ => apply wp_bind
  | |- wp _ _ _ _ _ _ (perform (Update _)) _ _ => eapply d_Update; [eassumption|state_ok|intros ? ? ? ? ?]
  | |- wp _ _ _ _ _ _ (perform (Held _)) _ _ => eapply d_Held; [eassumption|state_ok|intros ? ? ? ? ?]
  | |- wp _ _ _ _ _ _ (perform Lock) _ _ => eapply d_Lock; [eassumption|intros ? ? ?]
  | |- wp _ _ _ _ _ _ (perform Unlock) _ _ => eapply d_Unlock; [eassumption|intros ? ?]
  | |- wp _ _ _ _ _ _ (perform (SetConn _)) _ _ => eapply d_SetConn; [eassumption|done|intros ? ? ?]
  | |- wp _ _ _ _ _ _ (perform WgAdd) _ _ => eapply d_WgAdd; [eassumption|intros ? ? ?]
  | |- wp _ _ _ _ _ _ (perform WgDone) _ _ => eapply d_WgDone; [eassumption|lia|intros ? ?]
  | |- wp _ _ _ _ _ _ (perform ShutdownSeen) _ _ => eapply d_seen; [first [done|by eapply st_mu]|intros ?]
  | |- wp _ _ _ _ _ _ (perform _) _ _ => apply d_quiet; [reflexivity|intros ?]
  end.
Ltac walk := repeat walk_step.
(** Whether the client has a connection, from what happened since that was known. *)
Ltac ups := repeat match goal with H : up ?e = _ |- context [up ?e] => rewrite H end; by rewrite ?orb_true_r.
Ltac branch :=
  lazymatch goal with |- wp _ _ _ _ _ _ (match ?x with _ => _ end) _ _ => let E := fresh "E" in destruct x eqn:E end.
Ltac walk_all := repeat first [walk_step|branch].

(** The end of a goroutine's step. *)
Ltac ends := cbn beta iota; first [by apply d_exit|by apply d_again].

End DirectDiscipline.
