(* ===== verification/DirectStdio.v ===== *)
(** * The stdio client

    [services/router/internal/direct/stdio_client.go] with its request handler, response reader, closer and builder: a
    server that runs as a process of the router's, as programs of [Goroutines] over the commands of [DirectClient]. *)
From S2P Require Import Prelude GoStrings GoUnicode Mcp Goroutines DirectClient DirectClientTheorems.
From stdpp Require Import pretty.
From Stdlib Require Import Strings.Ascii.
#[local] Open Scope Z_scope.

Module StdioClient.
Import Direct DirectDiscipline.

(** ** Configuration *)

Record HealthCheckConfig := mkHealthCheck { hc_Enabled : bool; hc_Interval : Z; hc_Timeout : Z }.
Record ProcessConfig := mkProcess { MaxRestarts : Z; RestartDelay : Z; KillTimeout : Z }.
Record StdioPerformanceConfig := mkPerformance {
  StdinBufferSize : Z; StdoutBufferSize : Z; EnableBufferedIO : bool; ReuseEncoders : bool; ProcessPriority : Z }.
Record StdioClientConfig := mkConfig {
  Command : list string; WorkingDir : string; Env_ : list (string * string); Timeout : Z; MaxBufferSize : Z;
  HealthCheck : HealthCheckConfig; Process : ProcessConfig; Performance : StdioPerformanceConfig }.

Definition or_default (d v : Z) : Z := if v =? 0 then d else v.

Definition applyTimeoutDefaults (c : StdioClientConfig) : StdioClientConfig :=
  mkConfig (Command c) (WorkingDir c) (Env_ c) (or_default (30 * Second) (Timeout c)) (or_default (1024 * 1024) (MaxBufferSize c))
    (mkHealthCheck (hc_Enabled (HealthCheck c)) (or_default (30 * Second) (hc_Interval (HealthCheck c))) (or_default (5 * Second) (hc_Timeout (HealthCheck c))))
    (Process c) (Performance c).
Definition applyProcessDefaults (c : StdioClientConfig) : StdioClientConfig :=
  mkConfig (Command c) (WorkingDir c) (Env_ c) (Timeout c) (MaxBufferSize c) (HealthCheck c)
    (mkProcess (or_default 3 (MaxRestarts (Process c))) (or_default (5 * Second) (RestartDelay (Process c))) (or_default (10 * Second) (KillTimeout (Process c))))
    (Performance c).
(** The two flags become true whatever they were. *)
Definition applyPerformanceDefaults (c : StdioClientConfig) : StdioClientConfig :=
  let p := Performance c in
  mkConfig (Command c) (WorkingDir c) (Env_ c) (Timeout c) (MaxBufferSize c) (HealthCheck c) (Process c)
    (mkPerformance (or_default (64 * 1024) (StdinBufferSize p)) (or_default (64 * 1024) (StdoutBufferSize p))
       (if negb (EnableBufferedIO p) then true else EnableBufferedIO p) (if negb (ReuseEncoders p) then true else ReuseEncoders p) (ProcessPriority p)).
Definition applyStdioDefaults (c : StdioClientConfig) : StdioClientConfig :=
  applyPerformanceDefaults (applyProcessDefaults (applyTimeoutDefaults c)).

(** [strings.Fields]: the maximal runs of runes that are no spaces. *)
Fixpoint fields_from (skip : nat) (s word : string) : list string :=
  let flush := if bool_decide (word = EmptyString) then [] else [word] in
  match s, skip with
  | EmptyString, _ => flush
  | String _ s', S n => fields_from n s' word
  | String a s', O =>
      match List.find (HasPrefix s) spaces with
      | Some w => flush ++ fields_from (String.length w - 1) s' EmptyString
      | None => fields_from 0 s' (word +:+ String a EmptyString)
      end
  end.
Definition Fields (s : string) : list string := fields_from 0 s EmptyString.

Fixpoint drop_str (n : nat) (s : string) : string :=
  match n, s with S n, String _ s' => drop_str n s' | _, _ => s end.
Definition TrimPrefix (s p : string) : string := if HasPrefix s p then drop_str (String.length p) s else s.

Definition with_command (cmd : list string) (c : StdioClientConfig) : StdioClientConfig :=
  mkConfig cmd (WorkingDir c) (Env_ c) (Timeout c) (MaxBufferSize c) (HealthCheck c) (Process c) (Performance c).
Definition extractCommandFromURL (url : string) (c : StdioClientConfig) : StdioClientConfig :=
  if HasPrefix url "stdio://" then with_command (Fields (TrimPrefix url "stdio://")) c else with_command (Fields url) c.
Definition parseCommand (url : string) (c : StdioClientConfig) : result goerr StdioClientConfig :=
  let c := if bool_decide (Command c = []) then extractCommandFromURL url c else c in
  if bool_decide (Command c = []) then Err (NewConfigError url "stdio" "command cannot be empty" None) else Ok c.
Definition BuildStdio (url : string) (c : StdioClientConfig) : result goerr StdioClientConfig :=
  match parseCommand url c with Ok c => Ok (applyStdioDefaults c) | Err e => Err e end.

Example build_from_url :
  (match BuildStdio "stdio://python  server.py" (mkConfig [] "" [] 0 0 (mkHealthCheck false 0 0) (mkProcess 0 0 0) (mkPerformance 0 0 false false 0)) with
   | Ok c => Some (Command c, Timeout c, MaxRestarts (Process c), EnableBufferedIO (Performance c)) | Err _ => None end)
  = Some (["python"; "server.py"]%string, 30 * Second, 3, true).
Proof. reflexivity. Qed.

(** ** The client's goroutines

    [Caller]: whoever calls the client's methods; each call runs in a goroutine of its own. *)
Inductive label := Caller | Reader | HealthLoop | Stderr.

#[local] Notation P := (prog cmd label).
#[local] Notation next := (Goroutines.next label).

Section Stdio.
Context `{JSON} `{Sprintf}.
Variable name url : string.
Variable config : StdioClientConfig.
Variable memoryOptimizer : bool.      (* the client was given one *)

Definition recordError : P unit := perform (Metric inc_errors).
Definition recordSuccess (duration : Z) : P unit := perform (Metric (record_latency duration)).
Definition to_state (s : ConnectionState) (x : ConnectionState * Z) : ConnectionState * Z := (s, snd x).
Definition read_state : P (ConnectionState * Z) := perform (Update (fun x => x)).

(** *** Requests *)

Definition validateClientState : P (option goerr) :=
  x ← read_state;
  mret (if is_up (fst x) then None else Some (NewConnectionError url "stdio" "client not connected" (Some (Sentinel ErrClientNotConnected)))).

Definition ensureRequestID (q : Request) : P (Request * string) :=
  if no_id q then
    n ← perform NextID;
    let id := generated_id name n in mret (with_id (JString id) q, id)
  else mret (q, id_text (req_ID q)).

Definition registerRequest (id : string) : P nat := perform (Register id 1).
Definition cleanupRequest (id : string) (ch : nat) : P unit := perform (Cleanup id ch).

Definition request_error (message : string) (cause : option goerr) : goerr := NewRequestError url "stdio" message cause.

Definition flushBuffer : P (option goerr) :=
  e ← perform Flush;
  match e with
  | Some err => _ ← recordError; mret (Some (request_error "failed to flush request buffer" (Some err)))
  | None => mret None
  end.

Definition sendWithMemoryOptimizer (q : Request) : P (option goerr) :=
  match Marshal_request q with
  | Err t => _ ← recordError; mret (Some (request_error "failed to encode request" (Some (Foreign false t))))
  | Ok _ =>
      e ← perform (Write q);
      match e with
      | Some err => _ ← recordError; mret (Some (request_error "failed to send request" (Some err)))
      | None => flushBuffer
      end
  end.

Definition Encode (q : Request) : P (option goerr) :=
  match Marshal_request q with Err t => mret (Some (Foreign false t)) | Ok _ => perform (Write q) end.

Definition sendStandard (q : Request) : P (option goerr) :=
  e ← Encode q;
  match e with
  | Some err => _ ← recordError; mret (Some (request_error "failed to encode and send request" (Some err)))
  | None => if EnableBufferedIO (Performance config) then flushBuffer else mret None
  end.

Definition shouldUseMemoryOptimizer : bool := memoryOptimizer && EnableBufferedIO (Performance config).

Definition sendRequest (q : Request) : P (option goerr) :=
  _ ← perform WriteLock;
  e ← (if shouldUseMemoryOptimizer then sendWithMemoryOptimizer q else sendStandard q);
  _ ← perform WriteUnlock;
  mret e.

Definition calculateTimeout : P Z := r ← perform Remaining; mret (shorter (Timeout config) r).

Definition validateResponse (resp : option Response) : result goerr (option Response) :=
  match resp with None => Err (request_error "received nil response" None) | Some r => Ok (Some r) end.

Definition waitForResponse (ch : nat) : P (result goerr (option Response)) :=
  timeout ← calculateTimeout;
  startTime ← perform Now;
  x ← perform (Wait ch);
  match x with
  | Got r => now ← perform Now; _ ← recordSuccess (time_sub now startTime); mret (validateResponse (Some r))
  | GotNil => now ← perform Now; _ ← recordSuccess (time_sub now startTime); mret (validateResponse None)
  | TimedOut => _ ← recordError; mret (Err (request_error ("request timeout after " +:+ Duration_String timeout) (Some (Sentinel ErrRequestTimeout))))
  | Cancelled err => _ ← recordError; mret (Err (request_error "request cancelled" (Some err)))
  | ShuttingDown => _ ← recordError; mret (Err (request_error "client is shutting down" (Some (Sentinel ErrClientNotConnected))))
  end%string.

(** The request with the id it got, and the outcome. *)
Definition ProcessRequest (q : Request) : P (Request * result goerr (option Response)) :=
  v ← validateClientState;
  match v with
  | Some err => mret (q, Err err)
  | None =>
      p ← ensureRequestID q;
      ch ← registerRequest (snd p);
      e ← sendRequest (fst p);
      r ← (match e with Some err => mret (Err err) | None => waitForResponse ch end);
      _ ← cleanupRequest (snd p) ch;
      mret (fst p, r)
  end.

(** *** The process *)

Definition startProcess : P (option goerr) :=
  if bool_decide (Command config = []) then mret (Some (Foreign false "command not specified"))
  else
    e ← perform Dial;
    match e with
    | Some err => mret (Some err)
    | None =>
        _ ← perform (SetConn true);
        _ ← perform WgAdd;
        _ ← go (_ ← read_state; mret (Again Stderr));
        mret None
    end.

Definition Connect : P (option goerr) :=
  _ ← perform Lock;
  x ← perform (Held (fun x => x));
  if is_up (fst x) then
    _ ← perform Unlock;
    mret (Some (NewConnectionError url "stdio" "client already connected" (Some (Sentinel ErrClientAlreadyConnected))))
  else
    _ ← perform (Held (to_state StateConnecting));
    e ← startProcess;
    match e with
    | Some err =>
        _ ← perform (Held (to_state StateError));
        _ ← perform Unlock;
        mret (Some (NewProcessError url "stdio" "failed to start process" (Some err)))
    | None =>
        _ ← perform (Held (to_state StateConnected));
        now ← perform Now;
        _ ← perform (Metric (connected now));
        _ ← perform WgAdd;
        _ ← go (Ret (Again Reader));
        _ ← (if hc_Enabled (HealthCheck config) then _ ← perform WgAdd; go (ticking (hc_Interval (HealthCheck config)) HealthLoop) else mret tt);
        _ ← perform Unlock;
        mret None
    end.

Definition leave : P next := _ ← perform WgDone; mret Exit.

(** One round of [monitorStderr]. *)
Definition monitorStderr : P next :=
  s ← perform ShutdownSeen;
  if s : bool then leave
  else
    x ← perform ReadStderr;
    match x with
    | LineTimeout | Line => s ← perform ShutdownSeen; if s : bool then leave else mret (Again Stderr)
    | LineError => _ ← perform ShutdownSeen; leave
    | LineEnd => leave
    end.

Definition not_healthy : P unit := now ← perform Now; perform (Metric (checked false now)).

Definition Health : P (option goerr) :=
  x ← read_state;
  if negb (is_up (fst x)) then mret (Some (NewHealthError url "stdio" "client not connected" (Some (Sentinel ErrClientNotConnected))))
  else
    a ← perform Alive;
    match a with
    | Some err =>
        _ ← perform (Update (to_state StateUnhealthy));
        _ ← not_healthy;
        mret (Some (NewHealthError url "stdio" "process not responding" (Some err)))
    | None =>
        _ ← perform (Update (to_state StateHealthy));
        now ← perform Now;
        _ ← perform (Metric (checked true now));
        mret None
    end.

Definition restart_limit (x : ConnectionState * Z) : bool := MaxRestarts (Process config) <=? snd x.

Definition restartProcess : P next :=
  _ ← perform Lock;
  x ← perform (Held (fun x => x));
  if restart_limit x then
    _ ← perform (Held (to_state StateError));
    _ ← perform Unlock;
    mret Exit
  else
    _ ← perform (Held (fun x => (StateConnecting, i64_add (snd x) 1)));
    c ← perform HasConn;
    _ ← (if c : bool then perform Kill else mret tt);
    _ ← perform (Sleep (RestartDelay (Process config)));
    e ← startProcess;
    _ ← perform (Held (to_state (match e with Some _ => StateError | None => StateConnected end)));
    _ ← perform Unlock;
    mret Exit.

(** One round of [healthCheckLoop]. *)
Definition healthCheckLoop : P next :=
  t ← perform Tick;
  match t with
  | TickCancelled | TickShutdown => leave
  | Ticked =>
      h ← Health;
      match h with
      | None => mret (Again HealthLoop)
      | Some _ =>
          x ← read_state;
          _ ← (if negb (restart_limit x) then go restartProcess else mret tt);
          mret (Again HealthLoop)
      end
  end.

(** *** Responses *)

Definition safeCloseDoneChannel : P unit := d ← perform DoneSeen; if d : bool then mret tt else perform CloseDone.
Definition cleanup : P next := _ ← perform WgDone; _ ← safeCloseDoneChannel; mret Exit.

Definition extractResponseID (r : Response) : string := match resp_ID r with JString s => s | _ => EmptyString end.
Definition routeResponse (r : Response) : P unit :=
  if bool_decide (extractResponseID r = EmptyString) then mret tt else perform (Deliver (extractResponseID r) r).

Definition logDecodeError : P unit :=
  s ← perform ShutdownSeen;
  if s : bool then mret tt
  else
    _ ← read_state;
    s ← perform ShutdownSeen;
    if s : bool then mret tt else perform (Metric (fun m => healthy false (inc_errors m))).

Definition handleEOF : P unit := _ ← perform (Update (to_state StateDisconnected)); perform (Metric (healthy false)).

Definition readSingleResponse : P unit :=
  _ ← read_state;
  _ ← read_state;
  x ← perform Receive;
  match x with
  | RText d => match Unmarshal_response d with Ok r => routeResponse r | Err _ => logDecodeError end
  | RTimeout => s ← perform ShutdownSeen; if s : bool then logDecodeError else mret tt
  | REof => handleEOF
  | RCloseFrame _ | RError _ | RPanic => logDecodeError
  end.

(** One round of [ReadResponseLoop]. *)
Definition ReadResponseLoop : P next :=
  s ← perform ShutdownSeen;
  if s : bool then cleanup else _ ← readSingleResponse; mret (Again Reader).

(** *** Closing *)

Definition shouldClose : P bool :=
  x ← perform (Update (fun x => if is_down (fst x) then x else to_state StateClosing x));
  mret (negb (is_down (fst x))).

Definition signalShutdown : P unit := s ← perform ShutdownSeen; if s : bool then mret tt else perform CloseShutdown.
Definition closeStdin : P unit := _ ← read_state; perform CloseConn.
Definition initializeShutdown : P unit := _ ← signalShutdown; closeStdin.
Definition forceKillProcess : P unit := c ← perform HasConn; if c : bool then perform Kill else mret tt.
Definition setStateClosed : P unit := _ ← perform (Update (to_state StateClosed)); mret tt.

Definition waitForProcessExit (done : nat) : P (option goerr) :=
  x ← perform (Await done);
  match x with
  | Raised => mret None
  | AwaitTimeout => _ ← forceKillProcess; _ ← perform (Join done); mret None
  | AwaitCancelled err => _ ← forceKillProcess; _ ← setStateClosed; mret (Some err)
  end.

Definition shutdownProcess : P (option goerr) :=
  c ← perform HasConn;
  if negb c then mret None
  else
    done ← perform NewSignal;
    _ ← go (_ ← perform ProcessWait; _ ← perform (Raise done); mret Exit);
    waitForProcessExit done.

Definition safeCloseChannel : P unit := d ← perform DoneSeen; if d : bool then mret tt else perform CloseDone.
Definition clearPendingRequests : P unit := perform ClearPending.
Definition cleanupResources : P unit := _ ← safeCloseChannel; clearPendingRequests.

Definition waitForCleanup : P (option goerr) :=
  finished ← perform NewSignal;
  _ ← go (_ ← perform WgWait; _ ← perform (Raise finished); mret Exit);
  x ← perform (Await finished);
  match x with
  | AwaitCancelled err => mret (Some err)
  | Raised => _ ← perform (Sleep (10 * Millisecond)); _ ← cleanupResources; _ ← setStateClosed; mret None
  | AwaitTimeout => _ ← cleanupResources; _ ← setStateClosed; mret None
  end.

Definition GracefulShutdown : P (option goerr) :=
  ok ← shouldClose;
  if negb ok then mret None
  else
    _ ← initializeShutdown;
    e ← shutdownProcess;
    match e with Some err => mret (Some err) | None => waitForCleanup end.

(** *** All of it *)

Definition serve (c : call) : P next :=
  match c with
  | CSend q => r ← ProcessRequest q; _ ← perform (Return (fst r) (snd r)); mret Exit
  | CConnect => _ ← Connect; mret Exit
  | CClose => _ ← GracefulShutdown; mret Exit
  | CHealth => _ ← Health; mret Exit
  end.
Definition calls : P next := c ← perform Call; _ ← go (serve c); mret (Again Caller).

Definition body (l : label) : P next :=
  match l with Caller => calls | Reader => ReadResponseLoop | HealthLoop => healthCheckLoop | Stderr => monitorStderr end.

(** A client as it was built, and its callers. *)
Definition running_client (w : world cmd State label) : Prop :=
  st w = fresh_client /\ panicked w = false /\ forall t p, tasks w !! t = Some p -> p = Ret (Again Caller).

(** ** The discipline: closing clears pending requests, the shutdown is signalled without the mutex, and the process is
    never given up. *)

Definition shares (l : label) : Z := match l with Caller => 0 | _ => 1 end.

#[local] Notation Pre := (pre true true true).
#[local] Notation Post := (post true).
#[local] Notation Valid := (valid true).
#[local] Notation WP p e Q := (wp Pre Valid Post split exit_ok (label_env shares) p e Q).
#[local] Notation OK p e := (goroutine_ok Pre Valid Post split exit_ok (label_env shares) p e).

Lemma sd_waitForResponse id ch n e :
  own e = Some (id, ch) -> mu e = false -> owed e = n ->
  WP (waitForResponse ch) e (fun r e' => own e' = Some (id, ch) /\ mu e' = false /\ owed e' = n /\ forall a, r = Ok a -> exists b, a = Some b /\ (id, b) ∈ got e').
Proof.
  intros Ho Hm Hn. unfold waitForResponse, calculateTimeout, recordSuccess, recordError. walk.
  eapply d_Wait; [exact Ho|]. intros y e' H1 H2 H3 _ H5. destruct y; walk; split_and!; try first [done|congruence].
  intros a [= <-]. eexists. split; [done|by apply H5].
Qed.

Lemma sd_sendRequest q e : WP (sendRequest q) e (fun _ e' => e' = e).
Proof. unfold sendRequest, sendWithMemoryOptimizer, sendStandard, Encode, flushBuffer, recordError. walk_all; done. Qed.

Lemma sd_ProcessRequest q n e :
  stands false n e ->
  WP (ProcessRequest q) e (fun r e' => stands false n e' /\ forall a, snd r = Ok a -> exists b, a = Some b /\ (id_text (req_ID (fst r)), b) ∈ got e').
Proof.
  intros He. unfold ProcessRequest, validateClientState, ensureRequestID, read_state, registerRequest, cleanupRequest. do 2 apply wp_bind.
  eapply d_Update; [exact He|state_ok|]. intros x e0 He0 _ _. walk. destruct (is_up (fst x)); [|by walk]. walk.
  eapply wp_mono with (Q := fun p e' => e' = e0 /\ snd p = id_text (req_ID (fst p))); [walk_all; done|]. intros [q' id] e1 [-> Hid]. cbn in Hid. subst id. cbn [fst snd].
  destruct He0 as [Ho Hm Hn]. walk_step. apply wp_perform; [done|]. intros ch _. walk.
  eapply wp_mono; [apply sd_sendRequest|]. intros s e1 ->. walk.
  eapply wp_mono with (Q := fun r e' => own e' = Some (id_text (req_ID q'), ch) /\ mu e' = false /\ owed e' = n /\
    forall a, r = Ok a -> exists b, a = Some b /\ (id_text (req_ID q'), b) ∈ got e').
  { destruct s; [by walk|]. by apply sd_waitForResponse. }
  intros r e1 (H1 & H2 & H3 & H4). walk. apply wp_perform; [done|]. intros ? _. by walk.
Qed.

Lemma sd_startProcess n e :
  stands true n e -> 0 <= n -> WP startProcess e (fun r e' => stands true n e' /\ (r = None -> up e' = true)).
Proof.
  intros He Hn. unfold startProcess, read_state. case_bool_decide; walk; [done|]. destruct x; walk; [done|].
  eapply d_go with (m := 1); [eassumption|lia| |].
  - pose proof (stands_shares 1) as Hs. unfold goroutine_ok. walk. ends.
  - intros e3 He3 Hu3. walk. split; [by replace n with (n + 1 - 1) by lia|]. intros _. ups.
Qed.

Lemma sd_Connect e : stands false 0 e -> WP Connect e (fun _ e' => stands false 0 e').
Proof.
  intros He. unfold Connect. walk. destruct (is_up (fst x)); walk; [done|].
  eapply wp_mono; [eapply sd_startProcess; [eassumption|lia]|]. intros r e5 [He5 Hu5]. destruct r; [by walk|]. walk.
  eapply d_Held; [exact He5|apply up_keeps_up; auto|intros ? ? ? ? ?]. walk.
  eapply d_go with (m := 1); [eassumption|lia|by apply d_loop|]. intros e7 He7 _. walk.
  eapply wp_mono with (Q := fun _ e' => stands true 0 e'); [|intros ? ? ?; by walk].
  destruct (hc_Enabled _); walk; [|done]. eapply d_go with (m := 1); [eassumption|lia|by apply d_ticking|]. by intros e9 He9 _.
Qed.

Lemma sd_Health n e : stands false n e -> WP Health e (fun _ e' => stands false n e').
Proof.
  intros He. unfold Health, read_state, not_healthy. do 1 apply wp_bind. eapply d_Update; [exact He|state_ok|]. intros x e1 He1 Hu1 _.
  destruct (is_up (fst x)) eqn:Eu; walk; [|done]. apply wp_perform; [split; [done|by rewrite Hu1]|]. intros a _. cbn [post].
  by destruct a; walk.
Qed.

Lemma sd_restartProcess : OK restartProcess nothing.
Proof.
  pose proof (stands_shares 0 : stands false 0 nothing) as He. unfold restartProcess, goroutine_ok. walk. branch; walk; [ends|].
  branch; walk; (eapply wp_mono; [eapply sd_startProcess; [eassumption|lia]|]); intros r e5 [He5 Hu5]; walk;
    (eapply d_Held; [exact He5|destruct r; [state_ok|apply up_keeps_up; auto]|intros ? ? ? ? ?]); walk; ends.
Qed.

(** Goroutines in the wait group. *)
Lemma sd_leave e : stands false 1 e -> OK leave e.
Proof. intros He. unfold leave, goroutine_ok. walk. ends. Qed.

Lemma sd_monitorStderr : OK monitorStderr (set_owed 1 nothing).
Proof.
  pose proof (stands_shares 1) as He. unfold monitorStderr, goroutine_ok. walk_all; first [by apply sd_leave|ends].
Qed.

Lemma sd_healthCheckLoop : OK healthCheckLoop (set_owed 1 nothing).
Proof.
  pose proof (stands_shares 1) as He. unfold healthCheckLoop, goroutine_ok, read_state. walk. branch; try (by apply sd_leave).
  apply wp_bind. eapply wp_mono; [by apply sd_Health|]. intros h e1 He1. branch; walk; [|ends]. branch; walk; [|ends].
  eapply d_go with (m := 0); [eassumption|lia|apply sd_restartProcess|]. intros e2 He2 _. walk. ends.
Qed.

Lemma sd_logDecodeError n e : stands false n e -> WP logDecodeError e (fun _ e' => stands false n e').
Proof. intros He. unfold logDecodeError, read_state. walk_all; done. Qed.

Lemma sd_routeResponse d r n e :
  stands false n e -> d ∈ texts e -> Unmarshal_response d = Ok r -> WP (routeResponse r) e (fun _ e' => stands false n e').
Proof.
  intros He Hd Hr. unfold routeResponse. case_bool_decide as Hid; [done|]. eapply d_Deliver; [exact Hd|exact Hr| |done].
  unfold extractResponseID in *. by destruct (resp_ID r).
Qed.

Lemma sd_readSingleResponse e : stands false 1 e -> WP readSingleResponse e (fun _ e' => stands false 1 e').
Proof.
  intros He. unfold readSingleResponse, handleEOF, read_state. walk. eapply d_Receive; [eassumption|]. intros x2 e2 He2 Ht.
  destruct x2; walk_all; try done; try (by apply sd_logDecodeError). eapply sd_routeResponse; [done|by apply Ht|done].
Qed.

Lemma sd_ReadResponseLoop : OK ReadResponseLoop (set_owed 1 nothing).
Proof.
  pose proof (stands_shares 1) as He. unfold ReadResponseLoop, cleanup, safeCloseDoneChannel, goroutine_ok. walk. branch; walk.
  - branch; walk; ends.
  - eapply wp_mono; [by apply sd_readSingleResponse|]. intros ? e1 He1. walk. ends.
Qed.

(** Closing. *)
Lemma sd_waitForProcessExit done e : stands false 0 e -> WP (waitForProcessExit done) e (fun _ e' => stands false 0 e').
Proof. intros He. unfold waitForProcessExit, forceKillProcess, setStateClosed. walk_all; done. Qed.

Lemma sd_shutdownProcess e : stands false 0 e -> WP shutdownProcess e (fun _ e' => stands false 0 e').
Proof.
  intros He. unfold shutdownProcess. walk. branch; walk; [done|]. eapply d_go with (m := 0); [eassumption|lia|unfold goroutine_ok; walk; ends|].
  intros e1 He1 _. by apply sd_waitForProcessExit.
Qed.

Lemma sd_waitForCleanup e : stands false 0 e -> WP waitForCleanup e (fun _ e' => stands false 0 e').
Proof.
  intros He. unfold waitForCleanup, cleanupResources, safeCloseChannel, clearPendingRequests, setStateClosed. walk.
  eapply d_go with (m := 0); [eassumption|lia|unfold goroutine_ok; walk; ends|]. intros e1 He1 _. walk_all; try done.
  all: apply wp_perform; [done|intros ? _; cbn [post]; by walk].
Qed.

Lemma sd_GracefulShutdown e : stands false 0 e -> WP GracefulShutdown e (fun _ e' => stands false 0 e').
Proof.
  intros He. unfold GracefulShutdown, shouldClose, initializeShutdown, signalShutdown, closeStdin, read_state. walk. branch; walk; [done|].
  eapply wp_mono with (Q := fun _ e' => stands false 0 e').
  { branch; walk; [done|]. eapply d_CloseShutdown; [eassumption|by left|]. by intros e2 He2 _. }
  intros ? e2 He2. walk. eapply wp_mono; [by apply sd_shutdownProcess|]. intros r e3 He3. branch; walk; [done|]. by apply sd_waitForCleanup.
Qed.

Lemma sd_calls : OK calls nothing.
Proof.
  pose proof (stands_shares 0 : stands false 0 nothing) as He. unfold calls, goroutine_ok. walk.
  eapply d_go with (m := 0); [exact He|lia| |intros e1 He1 _; walk; ends]. unfold goroutine_ok. destruct x as [q| | |]; cbn [serve]; walk.
  - eapply wp_mono; [by apply sd_ProcessRequest|]. intros [q' r] e1 [He1 Hr]. cbn [fst snd] in *. walk. apply wp_perform; [|intros ? _; cbn [post]; walk; ends].
    destruct r as [a|]; [|done]. destruct (Hr a eq_refl) as (b & -> & Hb). exact Hb.
  - eapply wp_mono; [by apply sd_Connect|]. intros ? e1 He1. walk. ends.
  - eapply wp_mono; [by apply sd_GracefulShutdown|]. intros ? e1 He1. walk. ends.
  - eapply wp_mono; [by apply sd_Health|]. intros ? e1 He1. walk. ends.
Qed.

#[local] Notation stdio_reachable w0 w := (reachable exec panics body (fun _ _ => False) w0 w).

Lemma sd_typed w0 w : running_client w0 -> stdio_reachable w0 w ->
  typed panics (Inv true true true) Pre Valid Post split exit_ok (label_env shares) (crash true true) w.
Proof.
  intros (Hs & Hp & Ht) Hr. eapply sound; [| |exact Hr].
  - apply direct_rules. intros []; [apply sd_calls|apply sd_ReadResponseLoop|apply sd_healthCheckLoop|apply sd_monitorStderr].
  - destruct w0 as [s ts pn]. cbn in *. subst. apply direct_typed_start. intros t p Hin. rewrite (Ht t p Hin). apply d_again. by split.
Qed.

(** ** Every interleaving *)

(** C9: Whatever the interleaving of calls, reads, health checks, restarts and shutdowns, a call that returns a response
    returns one that the server sent after the client was built, whose id is the text of the request's id; no call
    returns neither response nor error. *)
Theorem stdio_responses_match w0 w q r :
  running_client w0 -> stdio_reachable w0 w -> (q, Ok r) ∈ answers (log (st w)) ->
  exists a d, r = Some a /\ d ∈ heard (log (st w)) /\ Unmarshal_response d = Ok a /\ resp_ID a = JString (id_text (req_ID q)).
Proof.
  intros H0' Hr Ha. destruct (typed_answer _ _ _ _ _ _ _ (sd_typed _ _ H0' Hr) Ha) as (a & -> & d & Hd & Hu & Hi). by exists a, d.
Qed.

(** Whatever the interleaving, what can stop the router in a stdio client is a request that ends after the client was
    closed (its channel was closed with the pending requests), closing the shutdown or the done channel twice, and the ticker
    of health checks whose interval is not positive. *)
Lemma stdio_panics_only_closing w0 w :
  running_client w0 -> stdio_reachable w0 w -> panicked w = true ->
  exists t, (exists k, (exists id ch, tasks w !! t = Some (Do (Cleanup id ch) k) /\ cleared (st w) = true) \/
    (tasks w !! t = Some (Do CloseShutdown k) /\ shutdownCh (st w) = true) \/ (tasks w !! t = Some (Do CloseDone k) /\ doneCh (st w) = true)) \/
    (exists d k, tasks w !! t = Some (Do (NewTicker d) k) /\ d <= 0).
Proof.
  intros H0' Hr Hp. destruct (typed_panic _ _ _ _ _ (sd_typed _ _ H0' Hr) Hp) as (t & X & c & k & Ht & Hpn & Hc & Hcl). exists t.
  destruct c; try done.
  - left. exists k. left. exists id, ch. auto.
  - right. exists d, k. cbn in Hpn. split; [done|lia].
  - left. exists k. by right; left.
  - left. exists k. by right; right.
Qed.

End Stdio.

(** ** Runs *)

#[local] Instance printf : Sprintf := fun v => match v with JNumber n => pretty n | _ => EmptyString end.
#[local] Existing Instance Codec.codec.

Definition sample_config : StdioClientConfig :=
  applyStdioDefaults (mkConfig ["server"%string] "" [] 0 0 (mkHealthCheck false 0 0) (mkProcess 0 0 0) (mkPerformance 0 0 false false 0)).
Definition sample_start : world cmd State label := {| st := fresh_client; tasks := {[0%nat := Ret (Again Caller)]}; panicked := false |}.
Definition play (sched : list (nat * (State -> forall X, cmd X -> X))) : option (world cmd State label) :=
  run exec panics (body "local" "server" sample_config false) sched sample_start.
Definition final {A} (f : world cmd State label -> A) (sched : list (nat * (State -> forall X, cmd X -> X))) : option A := f <$> play sched.

Lemma sd_play_reachable sched w :
  play sched = Some w -> reachable exec panics (body "local" "server" sample_config false) (fun _ _ => False) sample_start w.
Proof. apply run_reachable, reach_init. Qed.

Lemma sd_final_played {A} (f : world cmd State label -> A) sched a : final f sched = Some a -> exists w, play sched = Some w /\ f w = a.
Proof. unfold final. destruct (play sched) as [w|]; [|done]. intros [= <-]. by exists w. Qed.

Lemma sd_sample_running : running_client sample_start.
Proof. split_and!; [done|done|]. intros t p Hp. cbn in Hp. by apply lookup_singleton_Some in Hp as [_ <-]. Qed.

Definition ask (id : jvalue) : Request := mkRequest "2.0" "tools/list" JNull id.
Definition reply (id : jvalue) : Response := mkResponse "2.0" (JString "tools") None id.
Definition sent (id : jvalue) : recv_res := match Marshal_response (reply id) with Ok d => RText d | Err _ => REof end.

(** The goroutines: 0 the callers, 1 the call of Connect, which starts 2 (stderr) and 3 (the reader); then one for each call.
    [calling t c n] makes a call in goroutine [t] and takes [n] of its steps; [reading] is a round of the reader. *)
Definition calling (t : nat) (c : call) (n : nat) := moves 3 0 (on_call c) ++ moves n t (on_call c).
Definition reading (r : recv_res) := moves 6 3 (on_read r).
Definition connecting := calling 1 CConnect 14.
Definition asking (t : nat) (id : jvalue) := calling t (CSend (ask id)) 8.
Definition exchange (id : jvalue) := connecting ++ asking 4 id ++ reading (sent id) ++ moves 6 4 (on_call CHealth).
Definition outcomes (w : world cmd State label) := map snd (answers (log (st w))).

Example stdio_exchange_answered :
  final (fun w => (answers (log (st w)), panicked w)) (exchange (JString "a")) = Some ([(ask (JString "a"), Ok (Some (reply (JString "a"))))], false).
Proof. vm_compute. reflexivity. Qed.

(** A request with a number as its id is answered under the number, and the answer is dropped: the request times out. *)
Example stdio_numeric_id_times_out :
  final outcomes (connecting ++ asking 4 (JNumber 7) ++ reading (sent (JNumber 7)) ++ moves 5 4 (on_call CHealth))
  = Some [Err (NewRequestError "server" "stdio" "request timeout after 30s" (Some (Sentinel ErrRequestTimeout)))].
Proof. vm_compute. reflexivity. Qed.

(** Two requests under one id: the answer to the first goes to the second, and the first times out. *)
Definition same_id := connecting ++ asking 4 (JString "a") ++ asking 5 (JString "a") ++ reading (sent (JString "a")) ++ moves 6 5 (on_call CHealth) ++ moves 5 4 (on_call CHealth).
Example stdio_same_id_loses_answer :
  final outcomes same_id = Some [Ok (Some (reply (JString "a"))); Err (NewRequestError "server" "stdio" "request timeout after 30s" (Some (Sentinel ErrRequestTimeout)))].
Proof. vm_compute. reflexivity. Qed.

(** Closing the client while a request waits: its channel is closed with the pending ones, then by the request itself. *)
Definition close_while_asking := connecting ++ asking 4 (JString "a") ++ calling 5 CClose 8 ++ moves 3 6 (on_call CClose) ++ moves 8 5 (on_call CClose) ++ moves 4 4 (on_call CClose).
Example stdio_close_stops_router : final panicked close_while_asking = Some true.
Proof. vm_compute. reflexivity. Qed.

(** At the end of its output the reader of a closing client makes it disconnected, and reads on; a second Close goes ahead. *)
Example stdio_eof_reopens_closing :
  final (fun w => state (st w)) (connecting ++ calling 4 CClose 1 ++ moves 7 3 (on_read REof)) = Some StateDisconnected.
Proof. vm_compute. reflexivity. Qed.

(** *** Witnesses *)

Lemma stdio_responses_match_witness :
  exists w, play (exchange (JString "a")) = Some w /\
    exists a d, Some (reply (JString "a")) = Some a /\ d ∈ heard (log (st w)) /\ Unmarshal_response d = Ok a /\ resp_ID a = JString "a".
Proof.
  destruct (sd_final_played (fun w => answers (log (st w))) (exchange (JString "a")) [(ask (JString "a"), Ok (Some (reply (JString "a"))))])
    as (w & E & Ha); [vm_compute; reflexivity|]. exists w. split; [exact E|].
  apply (stdio_responses_match "local" "server" sample_config false sample_start w (ask (JString "a")) (Some (reply (JString "a")))
           sd_sample_running (sd_play_reachable _ _ E)). rewrite Ha. left.
Defined.

Lemma stdio_panics_only_closing_witness :
  exists w, play close_while_asking = Some w /\
    exists t, (exists k, (exists id ch, tasks w !! t = Some (Do (Cleanup id ch) k) /\ cleared (st w) = true) \/
      (tasks w !! t = Some (Do CloseShutdown k) /\ shutdownCh (st w) = true) \/ (tasks w !! t = Some (Do CloseDone k) /\ doneCh (st w) = true)) \/
      (exists d k, tasks w !! t = Some (Do (NewTicker d) k) /\ d <= 0).
Proof.
  destruct (sd_final_played panicked close_while_asking true) as (w & E & Hp); [vm_compute; reflexivity|]. exists w. split; [exact E|].
  exact (stdio_panics_only_closing "local" "server" sample_config false sample_start w sd_sample_running (sd_play_reachable _ _ E) Hp).
Defined.

End StdioClient.
