(* ===== verification/DirectWs.v ===== *)
(** * The WebSocket client

    [services/router/internal/direct/websocket_client.go] with its request handler, message reader and builder, as programs
    of [Goroutines] over the commands of [DirectClient].  Close holds the mutex of the state from its check to its end. *)
From S2P Require Import Prelude GoStrings GoUnicode GatewayErrors Validation Mcp Goroutines DirectClient DirectClientTheorems DirectStdio.
From stdpp Require Import pretty.
From Stdlib Require Import Strings.Ascii.
#[local] Open Scope Z_scope.

Module WebSocketClient.
Import Direct DirectDiscipline.

(** ** Configuration *)

Record ConnectionConfig := mkConnection {
  MaxReconnectAttempts : Z; ReconnectDelay : Z; ReadBufferSize : Z; WriteBufferSize : Z; EnableCompression : bool }.
Record WebSocketPerformanceConfig := mkPerformance {
  EnableWriteCompression : bool; EnableReadCompression : bool; OptimizePingPong : bool; EnableMessagePooling : bool;
  MessageBatchSize : Z; WriteBatchTimeout : Z }.
Record WebSocketClientConfig := mkConfig {
  URL : string; Headers : option (list (string * string)); HandshakeTimeout : Z; PingInterval : Z; PongTimeout : Z; MaxMessageSize : Z; Timeout : Z;
  HealthCheck : StdioClient.HealthCheckConfig; Connection : ConnectionConfig; Performance : WebSocketPerformanceConfig }.

#[local] Notation or_default := StdioClient.or_default.

Definition with_url (u : string) (c : WebSocketClientConfig) : WebSocketClientConfig :=
  mkConfig u (Headers c) (HandshakeTimeout c) (PingInterval c) (PongTimeout c) (MaxMessageSize c) (Timeout c) (HealthCheck c) (Connection c) (Performance c).

Definition validateWebSocketConfig `{Validate.NetParsers} (serverURL : string) (c : WebSocketClientConfig) : result goerr WebSocketClientConfig :=
  let c := if bool_decide (URL c = EmptyString) then with_url serverURL c else c in
  match Validate.url_Parse (URL c) with
  | Err e => Err (NewConfigError serverURL "websocket" "invalid WebSocket URL" (Some (Foreign false e)))
  | Ok u =>
      if negb (bool_decide (Validate.Scheme u = "ws"%string)) && negb (bool_decide (Validate.Scheme u = "wss"%string))
      then Err (NewConfigError serverURL "websocket" "URL must use ws:// or wss:// scheme" None) else Ok c
  end.

Definition applyTimeoutDefaults (c : WebSocketClientConfig) : WebSocketClientConfig :=
  let h := HealthCheck c in
  mkConfig (URL c) (Headers c) (or_default (10 * Second) (HandshakeTimeout c)) (or_default (30 * Second) (PingInterval c))
    (or_default (10 * Second) (PongTimeout c)) (MaxMessageSize c) (or_default (30 * Second) (Timeout c))
    (StdioClient.mkHealthCheck (StdioClient.hc_Enabled h) (or_default (30 * Second) (StdioClient.hc_Interval h)) (or_default (5 * Second) (StdioClient.hc_Timeout h)))
    (Connection c) (Performance c).
Definition applyConnectionDefaults (c : WebSocketClientConfig) : WebSocketClientConfig :=
  let k := Connection c in
  mkConfig (URL c) (Headers c) (HandshakeTimeout c) (PingInterval c) (PongTimeout c) (or_default (1024 * 1024) (MaxMessageSize c)) (Timeout c) (HealthCheck c)
    (mkConnection (or_default 3 (MaxReconnectAttempts k)) (or_default (5 * Second) (ReconnectDelay k)) (or_default 4096 (ReadBufferSize k))
       (or_default 4096 (WriteBufferSize k)) (EnableCompression k))
    (Performance c).
Definition setPerformanceFlags (p : WebSocketPerformanceConfig) : WebSocketPerformanceConfig :=
  mkPerformance (EnableWriteCompression p) (if negb (EnableReadCompression p) then true else EnableReadCompression p)
    (if negb (OptimizePingPong p) then true else OptimizePingPong p) (if negb (EnableMessagePooling p) then true else EnableMessagePooling p)
    (MessageBatchSize p) (WriteBatchTimeout p).
Definition setBatchDefaults (p : WebSocketPerformanceConfig) : WebSocketPerformanceConfig :=
  mkPerformance (EnableWriteCompression p) (EnableReadCompression p) (OptimizePingPong p) (EnableMessagePooling p)
    (or_default 0 (MessageBatchSize p)) (or_default Millisecond (WriteBatchTimeout p)).
Definition applyPerformanceDefaults (c : WebSocketClientConfig) : WebSocketClientConfig :=
  mkConfig (URL c) (Headers c) (HandshakeTimeout c) (PingInterval c) (PongTimeout c) (MaxMessageSize c) (Timeout c) (HealthCheck c) (Connection c)
    (setBatchDefaults (setPerformanceFlags (Performance c))).
Definition initializeHeaders (c : WebSocketClientConfig) : WebSocketClientConfig :=
  mkConfig (URL c) (Some (default [] (Headers c))) (HandshakeTimeout c) (PingInterval c) (PongTimeout c) (MaxMessageSize c) (Timeout c) (HealthCheck c)
    (Connection c) (Performance c).
Definition applyWebSocketDefaults (c : WebSocketClientConfig) : WebSocketClientConfig :=
  initializeHeaders (applyPerformanceDefaults (applyConnectionDefaults (applyTimeoutDefaults c))).
Definition BuildWebSocket `{Validate.NetParsers} (serverURL : string) (c : WebSocketClientConfig) : result goerr WebSocketClientConfig :=
  match validateWebSocketConfig serverURL c with Ok c => Ok (applyWebSocketDefaults c) | Err e => Err e end.

(** ** The client's goroutines *)

Inductive label := Caller | Reader | PingLoop | HealthLoop.

#[local] Notation P := (prog cmd label).
#[local] Notation next := (Goroutines.next label).

Section WebSocket.
Context `{JSON} `{Sprintf}.
Variable name url : string.
Variable config : WebSocketClientConfig.

Definition recordError : P unit := perform (Metric inc_errors).
Definition recordSuccess (duration : Z) : P unit := now ← perform Now; perform (Metric (fun m => record_latency duration (used_at now m))).
Definition to_state (s : ConnectionState) (x : ConnectionState * Z) : ConnectionState * Z := (s, snd x).
Definition read_state : P (ConnectionState * Z) := perform (Update (fun x => x)).
Definition not_connected (message : string) : goerr := NewConnectionError url "websocket" message (Some (Sentinel ErrClientNotConnected)).

(** *** Requests *)

Definition validateConnection : P (option goerr) := x ← read_state; mret (if is_up (fst x) then None else Some (not_connected "client not connected")).

Definition ensureRequestID (q : Request) : P (Request * string) :=
  if negb (no_id q) then mret (q, id_text (req_ID q))
  else
    n ← perform NextID;
    let id := generated_id name n in mret (with_id (JString id) q, id).

Definition setupResponseChannel (id : string) : P nat := perform (Register id 1).
Definition cleanupResponseChannel (id : string) (ch : nat) : P unit := perform (Cleanup id ch).

(** [conn.WriteJSON] under the writer's mutex. *)
Definition writeJSON (q : Request) : P (option goerr) :=
  _ ← perform WriteLock;
  e ← (match Marshal_request q with Err t => mret (Some (Foreign false t)) | Ok _ => perform (Write q) end);
  _ ← perform WriteUnlock;
  mret e.

Definition markUnhealthy : P unit := _ ← perform (Update (to_state StateUnhealthy)); mret tt.

Definition sendRequest (q : Request) : P (option goerr) :=
  c ← perform HasConn;
  if negb c then _ ← recordError; mret (Some (not_connected "connection is nil"))
  else
    e ← writeJSON q;
    match e with
    | Some err => _ ← recordError; _ ← markUnhealthy; mret (Some (NewRequestError url "websocket" "failed to send request" (Some err)))
    | None => mret None
    end.

Definition calculateTimeout : P Z := r ← perform Remaining; mret (shorter (Timeout config) r).

Definition waitForResponse (ch : nat) : P (result goerr (option Response)) :=
  timeout ← calculateTimeout;
  startTime ← perform Now;
  x ← perform (Wait ch);
  match x with
  | Got r => now ← perform Now; _ ← recordSuccess (time_sub now startTime); mret (Ok (Some r))
  | GotNil => now ← perform Now; _ ← recordSuccess (time_sub now startTime); mret (Ok None)
  | TimedOut => _ ← recordError; mret (Err (NewTimeoutError url "websocket" timeout None))
  | Cancelled err => _ ← recordError; mret (Err err)
  | ShuttingDown => mret (Err (NewShutdownError url "websocket" "client is shutting down" None))
  end.

Definition ProcessRequest (q : Request) : P (Request * result goerr (option Response)) :=
  v ← validateConnection;
  match v with
  | Some err => mret (q, Err err)
  | None =>
      p ← ensureRequestID q;
      ch ← setupResponseChannel (snd p);
      e ← sendRequest (fst p);
      r ← (match e with Some err => mret (Err err) | None => waitForResponse ch end);
      _ ← cleanupResponseChannel (snd p) ch;
      mret (fst p, r)
  end.

(** *** Connecting *)

(** [connect]: what the dialer returns is wrapped with the status of the handshake. *)
Definition connect : P (option goerr) :=
  e ← perform Dial;
  match e with
  | Some err => mret (Some err)
  | None => _ ← perform (SetConn true); mret None
  end.

Definition Connect : P (option goerr) :=
  _ ← perform Lock;
  x ← perform (Held (fun x => x));
  if is_up (fst x) then
    _ ← perform Unlock;
    mret (Some (NewConnectionError url "websocket" "client already connected" (Some (Sentinel ErrClientAlreadyConnected))))
  else
    _ ← perform (Held (to_state StateConnecting));
    e ← connect;
    match e with
    | Some err =>
        _ ← perform (Held (to_state StateError));
        _ ← perform Unlock;
        mret (Some (NewConnectionError url "websocket" "failed to establish WebSocket connection" (Some err)))
    | None =>
        _ ← perform (Held (fun x => (StateConnected, 0)));
        now ← perform Now;
        _ ← perform (Metric (connected now));
        _ ← perform WgAdd;
        _ ← go (Ret (Again Reader));
        _ ← perform WgAdd;
        _ ← go (ticking (PingInterval config) PingLoop);
        _ ← (if StdioClient.hc_Enabled (HealthCheck config) then _ ← perform WgAdd; go (ticking (StdioClient.hc_Interval (HealthCheck config)) HealthLoop) else mret tt);
        _ ← perform Unlock;
        mret None
    end.

Definition shouldReconnect : P bool :=
  x ← read_state;
  mret (bool_decide (fst x = StateDisconnected) && (snd x <? MaxReconnectAttempts (Connection config))).

Definition reconnect : P next :=
  _ ← perform (Update (fun x => (fst x, i64_add (snd x) 1)));
  _ ← perform (Sleep (ReconnectDelay (Connection config)));
  _ ← perform (Update (to_state StateConnecting));
  e ← connect;
  match e with
  | Some _ => _ ← perform (Update (to_state StateError)); mret Exit
  | None =>
      _ ← perform (Update (fun x => (StateConnected, 0)));
      now ← perform Now;
      _ ← perform (Metric (connected now));
      mret Exit
  end.

Definition attemptReconnection : P unit := b ← shouldReconnect; if b : bool then go reconnect else mret tt.

(** *** Health *)

Definition leave : P next := _ ← perform WgDone; mret Exit.
Definition unhealthy_check (message : string) (cause : goerr) : P (option goerr) :=
  now ← perform Now;
  _ ← perform (Metric (checked false now));
  mret (Some (NewHealthError url "websocket" message (Some cause))).

Definition ping_request (now : Z) : Request := mkRequest "2.0" "ping" JNull (JString ("health-" +:+ pretty now)).

Definition Health : P (option goerr) :=
  x ← read_state;
  if negb (is_up (fst x)) then unhealthy_check "client not connected" (Sentinel ErrClientNotConnected)
  else
    c ← perform HasConn;
    if negb c then unhealthy_check "connection is nil" (Sentinel ErrClientNotConnected)
    else
      ping ← (if StdioClient.hc_Enabled (HealthCheck config) then now ← perform Now; r ← ProcessRequest (ping_request now); mret (snd r) else mret (Ok None));
      match ping with
      | Err err => _ ← perform (Update (to_state StateUnhealthy)); unhealthy_check "health check ping failed" err
      | Ok _ =>
          _ ← perform (Update (to_state StateHealthy));
          now ← perform Now;
          _ ← perform (Metric (checked true now));
          mret None
      end.

(** One round of [healthCheckLoop]. *)
Definition healthCheckLoop : P next :=
  t ← perform Tick;
  match t with
  | TickCancelled | TickShutdown => leave
  | Ticked =>
      h ← Health;
      match h with
      | None => mret (Again HealthLoop)
      | Some _ =>
          s ← perform ShutdownSeen;
          if s : bool then leave else _ ← attemptReconnection; mret (Again HealthLoop)
      end
  end.

(** One round of [pingLoop], which has no context. *)
Definition pingLoop : P next :=
  t ← perform Tick;
  match t with
  | TickShutdown => leave
  | Ticked | TickCancelled =>
      c ← perform HasConn;
      if negb c then leave
      else
        x ← read_state;
        _ ← (if is_up (fst x) then
               _ ← perform WriteLock;
               ok ← perform WriteControl;
               _ ← perform WriteUnlock;
               if ok : bool then mret tt
               else _ ← perform (Update (to_state StateUnhealthy)); perform (Metric (healthy false))
             else mret tt);
        mret (Again PingLoop)
  end.

(** *** Messages *)

Definition stopped (s : ConnectionState) : bool := match s with StateClosed | StateClosing | StateError => true | _ => false end.

Definition safeCloseDoneChannel : P unit := d ← perform DoneSeen; if d : bool then mret tt else perform CloseDone.
Definition cleanup : P next := _ ← perform WgDone; _ ← safeCloseDoneChannel; mret Exit.

Definition shouldContinueReading : P bool :=
  s ← perform ShutdownSeen;
  if s : bool then mret false else x ← read_state; mret (negb (stopped (fst x))).

Definition extractResponseID (r : Response) : string := match resp_ID r with JString s => s | _ => EmptyString end.
Definition routeResponse (r : Response) : P unit :=
  if bool_decide (extractResponseID r = EmptyString) then mret tt else perform (Deliver (extractResponseID r) r).

(** The state after the connection closed, in the close handler and in the reader. *)
Definition disconnect (x : ConnectionState * Z) : ConnectionState * Z := if is_down (fst x) then x else to_state StateDisconnected x.
Definition closeHandler : P unit := _ ← perform (Update disconnect); perform (Metric (healthy false)).
Definition handleClosedConnection : P unit := _ ← perform (Update disconnect); _ ← perform (Metric (healthy false)); attemptReconnection.
Definition recordErrorMetrics : P unit := perform (Metric (fun m => healthy false (inc_errors m))).
Definition handleReadError (closed : bool) : P unit := if closed then handleClosedConnection else recordErrorMetrics.

(** [readResponse] and what is made of it: a close frame runs the close handler inside the read; the panic of a repeated
    read is recovered. *)
Definition readResponse : P unit :=
  x ← perform Receive;
  match x with
  | RText d => match Unmarshal_response d with Ok r => routeResponse r | Err _ => handleReadError false end
  | RCloseFrame unexpected => _ ← closeHandler; handleReadError unexpected
  | REof => handleReadError true
  | RError unexpected => handleReadError unexpected
  | RTimeout => handleReadError false
  | RPanic => _ ← perform (Update (to_state StateError)); handleReadError false
  end.

Definition readSingleMessage : P unit :=
  c ← perform HasConn;
  if negb c then perform (Sleep Second)
  else
    x ← read_state;
    if stopped (fst x) then _ ← perform ShutdownSeen; mret tt else readResponse.

(** One round of [ReadMessageLoop]. *)
Definition ReadMessageLoop : P next :=
  b ← shouldContinueReading;
  if b : bool then _ ← readSingleMessage; mret (Again Reader) else cleanup.

(** *** Closing *)

Definition signalShutdown : P unit := s ← perform ShutdownSeen; if s : bool then mret tt else perform CloseShutdown.

Definition closeConnection : P unit :=
  c ← perform HasConn;
  if negb c then mret tt
  else
    _ ← perform WriteLock;
    _ ← perform WriteControl;
    _ ← perform WriteUnlock;
    _ ← perform CloseConn;
    perform (SetConn false).

Definition waitForShutdown : P (option goerr) :=
  finished ← perform NewSignal;
  _ ← go (_ ← perform WgWait; _ ← perform (Raise finished); mret Exit);
  x ← perform (Await finished);
  match x with
  | Raised => _ ← perform (Sleep (10 * Millisecond)); mret None
  | AwaitTimeout => mret None
  | AwaitCancelled err => _ ← perform (Held (to_state StateClosed)); mret (Some err)
  end.

Definition finalizeClose : P unit := _ ← perform (Held (to_state StateClosed)); perform (Metric (healthy false)).

Definition Close : P (option goerr) :=
  _ ← perform Lock;
  x ← perform (Held (fun x => x));
  if is_down (fst x) then _ ← perform Unlock; mret None
  else
    _ ← perform (Held (to_state StateClosing));
    _ ← signalShutdown;
    _ ← closeConnection;
    e ← waitForShutdown;
    _ ← (match e with Some _ => mret tt | None => finalizeClose end);
    _ ← perform Unlock;
    mret e.

(** *** All of it *)

Definition serve (c : call) : P next :=
  match c with
  | CSend q => r ← ProcessRequest q; _ ← perform (Return (fst r) (snd r)); mret Exit
  | CConnect => _ ← Connect; mret Exit
  | CClose => _ ← Close; mret Exit
  | CHealth => _ ← Health; mret Exit
  end.
Definition calls : P next := c ← perform Call; _ ← go (serve c); mret (Again Caller).

Definition body (l : label) : P next :=
  match l with Caller => calls | Reader => ReadMessageLoop | PingLoop => pingLoop | HealthLoop => healthCheckLoop end.

Definition running_client (w : world cmd State label) : Prop :=
  st w = fresh_client /\ panicked w = false /\ forall t p, tasks w !! t = Some p -> p = Ret (Again Caller).

(** ** The discipline: nothing closes a channel but its request, and the shutdown is signalled under the mutex. *)

Definition shares (l : label) : Z := match l with Caller => 0 | _ => 1 end.

#[local] Notation Pre := (pre false false false).
#[local] Notation Post := (post false).
#[local] Notation Valid := (valid false).
#[local] Notation WP p e Q := (wp Pre Valid Post split exit_ok (label_env shares) p e Q).
#[local] Notation OK p e := (goroutine_ok Pre Valid Post split exit_ok (label_env shares) p e).

Lemma wd_waitForResponse id ch n e :
  own e = Some (id, ch) -> mu e = false -> owed e = n ->
  WP (waitForResponse ch) e (fun r e' => own e' = Some (id, ch) /\ mu e' = false /\ owed e' = n /\ forall a, r = Ok a -> exists b, a = Some b /\ (id, b) ∈ got e').
Proof.
  intros Ho Hm Hn. unfold waitForResponse, calculateTimeout, recordSuccess, recordError. walk.
  eapply d_Wait; [exact Ho|]. intros y e' H1 H2 H3 H4 H5. destruct y; walk; split_and!; try first [done|congruence].
  - intros a [= <-]. eexists. split; [done|by apply H5].
  - by specialize (H4 eq_refl).
Qed.

Lemma wd_sendRequest q e : mu e = false -> WP (sendRequest q) e (fun _ e' => own e' = own e /\ mu e' = false /\ owed e' = owed e).
Proof.
  intros Hm. unfold sendRequest, writeJSON, markUnhealthy, recordError. walk. branch; walk; [done|].
  eapply wp_mono with (Q := fun _ e' => e' = e); [branch; walk; done|]. intros r e' ->. walk. branch; walk; [|done].
  apply d_Update_own; [done|done|]. intros ? e' ? ? ?. by walk.
Qed.

Lemma wd_ProcessRequest q n e :
  stands false n e ->
  WP (ProcessRequest q) e (fun r e' => stands false n e' /\ forall a, snd r = Ok a -> exists b, a = Some b /\ (id_text (req_ID (fst r)), b) ∈ got e').
Proof.
  intros He. unfold ProcessRequest, validateConnection, ensureRequestID, read_state, setupResponseChannel, cleanupResponseChannel. do 2 apply wp_bind.
  eapply d_Update; [exact He|state_ok|]. intros x e0 He0 _ _. walk. destruct (is_up (fst x)); [|by walk]. walk.
  eapply wp_mono with (Q := fun p e' => e' = e0 /\ snd p = id_text (req_ID (fst p))); [walk_all; done|]. intros [q' id] e1 [-> Hid]. cbn in Hid. subst id. cbn [fst snd].
  destruct He0 as [Ho Hm Hn]. walk_step. apply wp_perform; [done|]. intros ch _. walk.
  eapply wp_mono; [by apply wd_sendRequest|]. intros s e1 (Ho1 & Hm1 & Hn1). walk. cbn in Ho1, Hn1.
  eapply wp_mono with (Q := fun r e' => own e' = Some (id_text (req_ID q'), ch) /\ mu e' = false /\ owed e' = n /\
    forall a, r = Ok a -> exists b, a = Some b /\ (id_text (req_ID q'), b) ∈ got e').
  { destruct s; [walk; split_and!; try congruence|]. apply wd_waitForResponse; congruence. }
  intros r e2 (H1 & H2 & H3 & H4). walk. apply wp_perform; [done|]. intros ? _. by walk.
Qed.

Lemma wd_connect b n e : stands b n e -> WP connect e (fun _ e' => stands b n e').
Proof. intros He. unfold connect. walk_all; done. Qed.

Lemma wd_Connect e : stands false 0 e -> WP Connect e (fun _ e' => stands false 0 e').
Proof.
  intros He. unfold Connect. walk. branch; walk; [done|].
  eapply wp_mono; [by apply wd_connect|]. intros r e3 He3. branch; walk; [done|].
  eapply d_go with (m := 1); [eassumption|lia|by apply d_loop|]. intros e4 He4 _. walk.
  eapply d_go with (m := 1); [eassumption|lia|by apply d_ticking|]. intros e5 He5 _. walk.
  eapply wp_mono with (Q := fun _ e' => stands true 0 e'); [|intros ? ? ?; by walk].
  branch; walk; [|done]. eapply d_go with (m := 1); [eassumption|lia|by apply d_ticking|]. by intros e6 He6 _.
Qed.

Lemma wd_reconnect : OK reconnect nothing.
Proof.
  pose proof (stands_shares 0 : stands false 0 nothing) as He. unfold reconnect, goroutine_ok. walk.
  eapply wp_mono; [by apply wd_connect|]. intros r e3 He3. walk_all; ends.
Qed.

Lemma wd_attemptReconnection n e : stands false n e -> 0 <= n -> WP attemptReconnection e (fun _ e' => stands false n e').
Proof.
  intros He Hn. unfold attemptReconnection, shouldReconnect, read_state. walk. branch; walk; [|done].
  eapply d_go with (m := 0); [eassumption|lia|apply wd_reconnect|]. intros e2 He2 _. by replace n with (n - 0) by lia.
Qed.

Lemma wd_Health n e : stands false n e -> WP Health e (fun _ e' => stands false n e').
Proof.
  intros He. unfold Health, read_state, unhealthy_check. walk. branch; walk; [done|]. branch; walk; [done|].
  eapply wp_mono with (Q := fun _ e' => stands false n e').
  { branch; walk; [|done]. eapply wp_mono; [by apply wd_ProcessRequest|]. intros r e2 [He2 _]. by walk. }
  intros r e2 He2. walk_all; done.
Qed.

Lemma wd_leave e : stands false 1 e -> OK leave e.
Proof. intros He. unfold leave, goroutine_ok. walk. ends. Qed.

Lemma wd_healthCheckLoop : OK healthCheckLoop (set_owed 1 nothing).
Proof.
  pose proof (stands_shares 1) as He. unfold healthCheckLoop, goroutine_ok. walk. branch; try (by apply wd_leave).
  apply wp_bind. eapply wp_mono; [by apply wd_Health|]. intros h e1 He1. branch; walk; [|ends]. branch; [by apply wd_leave|].
  apply wp_bind. eapply wp_mono; [by apply wd_attemptReconnection|]. intros ? e2 He2. walk. ends.
Qed.

Lemma wd_pingLoop : OK pingLoop (set_owed 1 nothing).
Proof.
  pose proof (stands_shares 1) as He. unfold pingLoop, goroutine_ok, read_state. walk. branch; try (by apply wd_leave).
  all: walk; branch; [by apply wd_leave|]; walk;
    (eapply wp_mono with (Q := fun _ e' => stands false 1 e'); [walk_all; done|]); intros ? e2 He2; walk; ends.
Qed.

Lemma wd_handleReadError c n e : stands false n e -> 0 <= n -> WP (handleReadError c) e (fun _ e' => stands false n e').
Proof.
  intros He Hn. unfold handleReadError, handleClosedConnection, recordErrorMetrics. branch; walk; [|done]. by apply wd_attemptReconnection.
Qed.

Lemma wd_routeResponse d r n e :
  stands false n e -> d ∈ texts e -> Unmarshal_response d = Ok r -> WP (routeResponse r) e (fun _ e' => stands false n e').
Proof.
  intros He Hd Hr. unfold routeResponse. case_bool_decide as Hid; [done|]. eapply d_Deliver; [exact Hd|exact Hr| |done].
  unfold extractResponseID in *. by destruct (resp_ID r).
Qed.

Lemma wd_readResponse e : stands false 1 e -> WP readResponse e (fun _ e' => stands false 1 e').
Proof.
  intros He. unfold readResponse, closeHandler. walk. eapply d_Receive; [eassumption|]. intros x e1 He1 Ht.
  destruct x; walk; try (by apply wd_handleReadError). destruct (Unmarshal_response d) eqn:Ed; [|by apply wd_handleReadError].
  eapply wd_routeResponse; [done|by apply Ht|done].
Qed.

Lemma wd_ReadMessageLoop : OK ReadMessageLoop (set_owed 1 nothing).
Proof.
  pose proof (stands_shares 1) as He. unfold ReadMessageLoop, shouldContinueReading, readSingleMessage, cleanup, safeCloseDoneChannel, goroutine_ok, read_state.
  walk. eapply wp_mono with (Q := fun _ e' => stands false 1 e'); [walk_all; done|]. intros b e1 He1. branch; walk.
  - eapply wp_mono with (Q := fun _ e' => stands false 1 e'); [|intros ? e2 He2; walk; ends].
    branch; walk; [done|]. branch; walk; [done|]. by apply wd_readResponse.
  - branch; walk; ends.
Qed.

Lemma wd_Close e : stands false 0 e -> WP Close e (fun _ e' => stands false 0 e').
Proof.
  intros He. unfold Close, signalShutdown, closeConnection, waitForShutdown, finalizeClose. walk. branch; walk; [done|].
  eapply d_seen_held; [done|eassumption|]. intros b e3 He3 Hb. walk. eapply wp_mono with (Q := fun _ e' => stands true 0 e').
  { branch; walk; [done|]. eapply d_CloseShutdown; [eassumption|right; auto|]. by intros e4 He4 _. }
  clear e3 He3 Hb. intros ? e3 He3. walk. eapply wp_mono with (Q := fun _ e' => stands true 0 e').
  { branch; walk; done. }
  intros ? e4 He4. walk. eapply d_go with (m := 0); [eassumption|lia|unfold goroutine_ok; walk; ends|]. intros e5 He5 _. walk.
  eapply wp_mono with (Q := fun _ e' => stands true 0 e'); [walk_all; done|]. intros r e6 He6. walk.
  eapply wp_mono with (Q := fun _ e' => stands true 0 e'); [walk_all; done|]. intros ? e7 He7. by walk.
Qed.

Lemma wd_calls : OK calls nothing.
Proof.
  pose proof (stands_shares 0 : stands false 0 nothing) as He. unfold calls, goroutine_ok. walk.
  eapply d_go with (m := 0); [exact He|lia| |intros e1 He1 _; walk; ends]. unfold goroutine_ok. destruct x as [q| | |]; cbn [serve]; walk.
  - eapply wp_mono; [by apply wd_ProcessRequest|]. intros [q' r] e1 [He1 Hr]. cbn [fst snd] in *. walk. apply wp_perform; [|intros ? _; cbn [post]; walk; ends].
    destruct r as [a|]; [|done]. destruct (Hr a eq_refl) as (b & -> & Hb). exact Hb.
  - eapply wp_mono; [by apply wd_Connect|]. intros ? e1 He1. walk. ends.
  - eapply wp_mono; [by apply wd_Close|]. intros ? e1 He1. walk. ends.
  - eapply wp_mono; [by apply wd_Health|]. intros ? e1 He1. walk. ends.
Qed.

#[local] Notation ws_reachable w0 w := (reachable exec panics body (fun _ _ => False) w0 w).

Lemma wd_typed w0 w : running_client w0 -> ws_reachable w0 w ->
  typed panics (Inv false false false) Pre Valid Post split exit_ok (label_env shares) (crash false false) w.
Proof.
  intros (Hs & Hp & Ht) Hr. eapply sound; [| |exact Hr].
  - apply direct_rules. intros []; [apply wd_calls|apply wd_ReadMessageLoop|apply wd_pingLoop|apply wd_healthCheckLoop].
  - destruct w0 as [s ts pn]. cbn in *. subst. apply direct_typed_start. intros t p Hin. rewrite (Ht t p Hin). apply d_again. by split.
Qed.

(** ** Every interleaving *)

(** C39: Whatever the interleaving of calls, reads, pings, health checks, reconnections and shutdowns, a call of the
    WebSocket client that ends without an error returns a response that the server sent, whose id is the text of the
    request's id: never a response without content, and never that of another request. *)
Theorem ws_client_responses_match w0 w q r :
  running_client w0 -> ws_reachable w0 w -> (q, Ok r) ∈ answers (log (st w)) ->
  exists a d, r = Some a /\ d ∈ heard (log (st w)) /\ Unmarshal_response d = Ok a /\ resp_ID a = JString (id_text (req_ID q)).
Proof.
  intros H0' Hr Ha. destruct (typed_answer _ _ _ _ _ _ _ (wd_typed _ _ H0' Hr) Ha) as (a & -> & d & Hd & Hu & Hi). by exists a, d.
Qed.

(** Whatever the interleaving, the only commands of the WebSocket client that can stop the router close its done
    channel, when two readers end at once, or make a ticker whose interval is not positive: the shutdown channel and the
    channels of requests are closed once. *)
Lemma ws_client_panics_only_readers w0 w :
  running_client w0 -> ws_reachable w0 w -> panicked w = true ->
  exists t, (exists k, tasks w !! t = Some (Do CloseDone k) /\ doneCh (st w) = true) \/ (exists d k, tasks w !! t = Some (Do (NewTicker d) k) /\ d <= 0).
Proof.
  intros H0' Hr Hp. destruct (typed_panic _ _ _ _ _ (wd_typed _ _ H0' Hr) Hp) as (t & X & c & k & Ht & Hpn & Hc & _).
  exists t. destruct c; try done; [right; exists d, k; cbn in Hpn; split; [done|lia]|left; by exists k].
Qed.

End WebSocket.

(** ** Runs *)

#[local] Existing Instance StdioClient.printf.
#[local] Existing Instance Codec.codec.

Definition sample_config : WebSocketClientConfig :=
  applyWebSocketDefaults (mkConfig "ws://server" None 0 0 0 0 0 (StdioClient.mkHealthCheck false 0 0) (mkConnection 0 0 0 0 false)
    (mkPerformance false false false false 0 0)).
Definition sample_start : world cmd State label := {| st := fresh_client; tasks := {[0%nat := Ret (Again Caller)]}; panicked := false |}.
Definition play (sched : list (nat * (State -> forall X, cmd X -> X))) : option (world cmd State label) :=
  run exec panics (body "remote" "ws://server" sample_config) sched sample_start.
Definition final {A} (f : world cmd State label -> A) (sched : list (nat * (State -> forall X, cmd X -> X))) : option A := f <$> play sched.

Lemma wd_play_reachable sched w :
  play sched = Some w -> reachable exec panics (body "remote" "ws://server" sample_config) (fun _ _ => False) sample_start w.
Proof. apply run_reachable, reach_init. Qed.

Lemma wd_final_played {A} (f : world cmd State label -> A) sched a : final f sched = Some a -> exists w, play sched = Some w /\ f w = a.
Proof. unfold final. destruct (play sched) as [w|]; [|done]. intros [= <-]. by exists w. Qed.

Lemma wd_sample_running : running_client sample_start.
Proof. split_and!; [done|done|]. intros t p Hp. cbn in Hp. by apply lookup_singleton_Some in Hp as [_ <-]. Qed.

Definition ask (id : jvalue) : Request := mkRequest "2.0" "tools/list" JNull id.
Definition reply (id : jvalue) : Response := mkResponse "2.0" (JString "tools") None id.
Definition sent (id : jvalue) : recv_res := match Marshal_response (reply id) with Ok d => RText d | Err _ => REof end.

(** The goroutines: 0 the callers, 1 the call of Connect, which starts 2 (the reader) and 3 (pings); then one for each call. *)
Definition calling (t : nat) (c : call) (n : nat) := moves 3 0 (on_call c) ++ moves n t (on_call c).
Definition connecting := calling 1 CConnect 14.
Definition reading (r : recv_res) := moves 7 2 (on_read r).
Definition exchange (id : jvalue) := connecting ++ calling 4 (CSend (ask id)) 8 ++ reading (sent id) ++ moves 6 4 (on_call CHealth).

Example ws_client_exchange_answered :
  final (fun w => (answers (log (st w)), panicked w)) (exchange (JString "a")) = Some ([(ask (JString "a"), Ok (Some (reply (JString "a"))))], false).
Proof. vm_compute. reflexivity. Qed.

(** The connection ends, and goroutine 4 waits to reconnect; the client is closed meanwhile, and then connected again. *)
Definition dropped := connecting ++ moves 10 2 (on_read REof).
Example reconnect_revives_closed :
  final (fun w => state (st w)) (dropped ++ calling 5 CClose 18) = Some StateClosed /\
  final (fun w => (state (st w), conn (st w), shutdownCh (st w))) (dropped ++ calling 5 CClose 18 ++ moves 9 4 (on_call CHealth)) = Some (StateConnected, true, true).
Proof. split; vm_compute; reflexivity. Qed.

(** The router connects it as well: the first reader runs on, beside a second.  When the client closes both find the done
    channel open, and both close it. *)
Definition two_readers := dropped ++ calling 5 CConnect 14 ++ calling 8 CClose 6 ++ moves 4 2 (on_call CHealth) ++ moves 5 6 (on_call CHealth) ++ moves 1 2 (on_call CHealth).
Example two_readers_stop_router : final panicked two_readers = Some true.
Proof. vm_compute. reflexivity. Qed.

(** *** Witnesses *)

Lemma ws_client_responses_match_witness :
  exists w, play (exchange (JString "a")) = Some w /\
    exists a d, Some (reply (JString "a")) = Some a /\ d ∈ heard (log (st w)) /\ Unmarshal_response d = Ok a /\ resp_ID a = JString "a".
Proof.
  destruct (wd_final_played (fun w => answers (log (st w))) (exchange (JString "a")) [(ask (JString "a"), Ok (Some (reply (JString "a"))))])
    as (w & E & Ha); [vm_compute; reflexivity|]. exists w. split; [exact E|].
  apply (ws_client_responses_match "remote" "ws://server" sample_config sample_start w (ask (JString "a")) (Some (reply (JString "a")))
           wd_sample_running (wd_play_reachable _ _ E)). rewrite Ha. left.
Defined.

Lemma ws_client_panics_only_readers_witness :
  exists w, play two_readers = Some w /\
    exists t, (exists k, tasks w !! t = Some (Do CloseDone k) /\ doneCh (st w) = true) \/ (exists d k, tasks w !! t = Some (Do (NewTicker d) k) /\ d <= 0).
Proof.
  destruct (wd_final_played panicked two_readers true) as (w & E & Hp); [vm_compute; reflexivity|]. exists w. split; [exact E|].
  exact (ws_client_panics_only_readers "remote" "ws://server" sample_config sample_start w wd_sample_running (wd_play_reachable _ _ E) Hp).
Defined.

End WebSocketClient.
