(* ===== verification/DirectSse.v ===== *)
(** * The SSE client

    [services/router/internal/direct/sse_client.go] with its request processor, stream reader, closer and builder:
    requests are posted, answers come as events of a stream.  First the parser of events and what it reads from the
    streams of the gateway's SSE frontend; then the client, as programs of [Goroutines] over the commands of [DirectClient]. *)
From S2P Require Import Prelude GoStrings GoUnicode GatewayErrors Validation Mcp SseStream SseFrontend Goroutines DirectClient DirectClientTheorems DirectStdio.
From stdpp Require Import pretty.
From Stdlib Require Import Strings.Ascii.
#[local] Open Scope Z_scope.

Module SSEClient.
Import Direct DirectDiscipline.
#[local] Notation newline := Sse.newline.

(** ** Events *)

Record SSEEvent := mkEvent { ev_ID : string; Event : string; Data_ : string; Retry : Z }.
Definition no_event : SSEEvent := mkEvent "" "" "" 0.

(** [strings.TrimRight(line, "\n\r")]. *)
Definition line_ends : list string := [String newline EmptyString; String "013"%char EmptyString].
Definition trim_line (line : string) : string := str_rev (trim_from line_ends 0 (str_rev line)).

Definition isEventComplete (line : string) (ev : SSEEvent) : bool :=
  if negb (bool_decide (line = EmptyString)) then false
  else negb (bool_decide (Data_ ev = EmptyString)) || negb (bool_decide (Event ev = EmptyString)).

Definition parseDataField (line : string) (ev : SSEEvent) : SSEEvent :=
  let data := TrimSpace (str_drop 5 line) in
  mkEvent (ev_ID ev) (Event ev)
    (if bool_decide (Data_ ev = EmptyString) then data else Data_ ev +:+ String newline EmptyString +:+ data)%string (Retry ev).
Definition parseEventField (line : string) (ev : SSEEvent) : SSEEvent := mkEvent (ev_ID ev) (TrimSpace (str_drop 6 line)) (Data_ ev) (Retry ev).
Definition parseIDField (line : string) (ev : SSEEvent) : SSEEvent := mkEvent (TrimSpace (str_drop 3 line)) (Event ev) (Data_ ev) (Retry ev).

Definition parseLine (line : string) (ev : SSEEvent) : SSEEvent :=
  if HasPrefix line "data:" then parseDataField line ev
  else if HasPrefix line "event:" then parseEventField line ev
  else if HasPrefix line "id:" then parseIDField line ev
  else ev.

(** [ParseEvent] on what is left of the stream: the event and the rest, or the error at the end of the stream; the bytes of
    the stream are fuel. *)
Fixpoint parse_from (fuel : nat) (ev : SSEEvent) (s : string) : option (SSEEvent * string) :=
  match fuel with
  | O => None
  | S fuel =>
      match Sse.ReadString s with
      | None => None
      | Some (l, rest) =>
          let line := trim_line l in
          if isEventComplete line ev then Some (ev, rest) else parse_from fuel (parseLine line ev) rest
      end
  end.
Definition ParseEvent (s : string) : option (SSEEvent * string) := parse_from (String.length s) no_event s.

(** The data of the events of a stream, read until its end. *)
Fixpoint events_from (fuel : nat) (s : string) : list string :=
  match fuel with
  | O => []
  | S fuel => match ParseEvent s with Some (ev, rest) => Data_ ev :: events_from fuel rest | None => [] end
  end.
Definition events (s : string) : list string := events_from (String.length s) s.

(** More fuel than bytes changes nothing. *)
Lemma parse_enough n m ev s : (String.length s <= n)%nat -> (String.length s <= m)%nat -> parse_from n ev s = parse_from m ev s.
Proof.
  revert m ev s; induction n as [|n IH]; intros m ev s Hn Hm.
  - destruct s; [|cbn in Hn; lia]. by destruct m.
  - destruct m as [|m]; [destruct s; [done|cbn in Hm; lia]|]. cbn.
    destruct (Sse.ReadString s) as [[l rest]|] eqn:E; [|done]. apply Sse.ReadString_shorter in E.
    destruct (isEventComplete _ _); [done|]. apply IH; lia.
Qed.

Lemma parse_shorter n ev s ev' rest : parse_from n ev s = Some (ev', rest) -> (String.length rest < String.length s)%nat.
Proof.
  revert ev s; induction n as [|n IH]; intros ev s; cbn; [done|]. destruct (Sse.ReadString s) as [[l r]|] eqn:E; [|done]. apply Sse.ReadString_shorter in E.
  destruct (isEventComplete _ _); [intros [= _ <-]; lia|]. intros Hp. specialize (IH _ _ Hp). lia.
Qed.

Lemma events_enough n m s : (String.length s <= n)%nat -> (String.length s <= m)%nat -> events_from n s = events_from m s.
Proof.
  revert m s; induction n as [|n IH]; intros m s Hn Hm.
  - destruct s; [|cbn in Hn; lia]. by destruct m.
  - destruct m as [|m]; [destruct s; [done|cbn in Hm; lia]|]. cbn.
    destruct (ParseEvent s) as [[ev rest]|] eqn:E; [|done]. apply parse_shorter in E. f_equal. apply IH; lia.
Qed.

(** *** Lines *)

Lemma ReadString_line l rest :
  str_mem newline l = false -> Sse.ReadString (l +:+ String newline rest) = Some ((l +:+ String newline EmptyString)%string, rest).
Proof.
  induction l as [|a l IH]; [done|]. cbn [str_mem]. intros [Ha Hl]%orb_false_elim.
  change (String a l +:+ String newline rest)%string with (String a (l +:+ String newline rest)). cbn [Sse.ReadString]. by rewrite Ha, IH.
Qed.

(** Text without line ends at its end. *)
Definition ends_clean (s : string) : bool := no_prefix_in line_ends (str_rev s).

Lemma trim_line_clean s : ends_clean s = true -> trim_line (s +:+ String newline EmptyString) = s.
Proof.
  intros Hs. unfold trim_line. rewrite str_rev_app.
  change (trim_from line_ends 0 (str_rev (String newline EmptyString) +:+ str_rev s)) with (trim_from line_ends 0 (str_rev s)).
  rewrite (trim_done _ _ Hs). apply str_rev_involutive.
Qed.

Lemma trimmed_ends_clean s : trimmed s = true -> ends_clean s = true.
Proof.
  intros [_ Hr]%andb_prop. unfold ends_clean, no_prefix_in in *. rewrite forallb_forall in Hr. apply forallb_forall.
  intros w [<-|[<-|[]]]; apply Hr; [right; left|do 4 right; left]; reflexivity.
Qed.

Lemma ends_clean_app s t : t <> EmptyString -> ends_clean t = true -> ends_clean (s +:+ t) = true.
Proof.
  unfold ends_clean. intros Ht Hc. rewrite str_rev_app. destruct (str_rev t) as [|a u] eqn:E.
  - exfalso. apply Ht. by rewrite <- (str_rev_involutive t), E.
  - revert Hc. unfold no_prefix_in. rewrite !forallb_forall. intros Hc w Hw. specialize (Hc w Hw). destruct Hw as [<-|[<-|[]]]; exact Hc.
Qed.

Lemma TrimSpace_space s : trimmed s = true -> TrimSpace (String " " s) = s.
Proof.
  intros Ht. pose proof (TrimSpace_id s Ht) as Hs. unfold TrimSpace, TrimLeft in *.
  change (trim_from spaces 0 (String " " s)) with (trim_from spaces 0 s). exact Hs.
Qed.

(** *** What the gateway's SSE frontend writes *)

(** One line of text without white space around it. *)
Definition clean (d : string) : Prop := d <> EmptyString /\ str_mem newline d = false /\ trimmed d = true.

Lemma parse_data_line n ev d rest :
  clean d -> (0 < n)%nat ->
  parse_from n ev ("data: " +:+ d +:+ String newline rest) = parse_from (Nat.pred n) (parseDataField ("data: " +:+ d) ev) rest.
Proof.
  intros (Hne & Hl & Ht) Hn. destruct n as [|n]; [lia|]. cbn [parse_from Nat.pred].
  change ("data: " +:+ d +:+ String newline rest)%string with (("data: " +:+ d) +:+ String newline rest)%string.
  rewrite ReadString_line by exact Hl. rewrite trim_line_clean by (apply ends_clean_app; [done|by apply trimmed_ends_clean]). reflexivity.
Qed.

Lemma parseDataField_first d : clean d -> parseDataField ("data: " +:+ d) no_event = mkEvent "" "" d 0.
Proof.
  intros (_ & _ & Ht). unfold parseDataField. change (str_drop 5 ("data: " +:+ d)) with (String " " d). by rewrite TrimSpace_space.
Qed.

Lemma parse_blank_line n ev rest : Data_ ev <> EmptyString -> (0 < n)%nat -> parse_from n ev (String newline rest) = Some (ev, rest).
Proof.
  intros Hd Hn. destruct n as [|n]; [lia|]. cbn [parse_from].
  change (Sse.ReadString (String newline rest)) with (Some (String newline EmptyString, rest)). cbn beta iota.
  change (trim_line (String newline EmptyString)) with EmptyString. unfold isEventComplete. rewrite (bool_decide_true (EmptyString = EmptyString)) by done. rewrite (bool_decide_false (Data_ ev = EmptyString)) by done. reflexivity.
Qed.

Lemma ParseEvent_data d rest : clean d -> ParseEvent (SseFrontend.data_event d +:+ rest) = Some (mkEvent "" "" d 0, rest).
Proof.
  intros Hc.
  unfold ParseEvent.
  assert (SseFrontend.data_event d +:+ rest = "data: " +:+ d +:+ String newline (String newline rest))%string as ->
    by (unfold SseFrontend.data_event; rewrite !str_app_assoc; reflexivity).
  rewrite parse_data_line; [|done|apply Nat.lt_0_succ]. rewrite parseDataField_first by done. apply parse_blank_line; [apply Hc|apply Nat.lt_0_succ].
Qed.

(** The stream of some events. *)
Definition stream (ds : list string) : string := foldr (fun d s => SseFrontend.data_event d +:+ s)%string EmptyString ds.

Lemma events_stream ds : Forall clean ds -> events (stream ds) = ds.
Proof.
  intros Hds. unfold events. induction Hds as [|d ds Hd _ IH]; [done|].
  destruct (String.length (stream (d :: ds))) as [|n] eqn:E; [done|]. cbn [events_from stream foldr]. fold (stream ds).
  rewrite ParseEvent_data by done. cbn [Data_]. f_equal. rewrite <- IH at 2. apply events_enough; [|done].
  cbn [stream foldr] in E. fold (stream ds) in E. pose proof (parse_shorter _ _ _ _ _ (ParseEvent_data d (stream ds) Hd)). lia.
Qed.

(** A marshalled response is such a line. *)
Lemma marshalled_clean `{JSON} r d : Marshal_response r = Ok d -> clean d.
Proof.
  intros Hm. split_and!; [|by eapply marshal_one_line|]; destruct (marshal_object r d Hm) as [t ->]; [done|].
  unfold trimmed. apply andb_true_intro. split; [reflexivity|].
  change (String "{" (t +:+ "}"))%string with ("{" +:+ (t +:+ "}"))%string. rewrite !str_rev_app. reflexivity.
Qed.

(** The responses in a stream, as [processSSEEvent] reads them. *)
Definition received `{JSON} (s : string) : list Response :=
  omap (fun d => match Unmarshal_response d with Ok r => Some r | Err _ => None end) (events s).

(** What the frontend writes on a stream: responses, and keepalives between them. *)
Inductive item := Answered (r : Response) (d : string) | KeepAlive.
Definition item_text (i : item) : string := match i with Answered _ d => d | KeepAlive => SseFrontend.keepalive end.
Definition item_response (i : item) : option Response := match i with Answered r _ => Some r | KeepAlive => None end.
Definition item_ok `{JSON} (i : item) : Prop := match i with Answered r d => response_reads_back r = true /\ Marshal_response r = Ok d | KeepAlive => True end.

(** C10: The router's SSE client reads from a stream of the gateway's SSE frontend exactly the responses written on it,
    in their order and without loss, whatever keepalives are between them, where the responses are of valid UTF-8 (what
    is not is replaced when a response is encoded) and a keepalive is not a response. *)
Theorem sse_stream_roundtrip `{JSON} items :
  Forall item_ok items -> is_ok (Unmarshal_response SseFrontend.keepalive) = false ->
  received (stream (map item_text items)) = omap item_response items.
Proof.
  intros Hi Hk. unfold received. rewrite events_stream.
  - induction Hi as [|[r d|] items Hr _ IH]; cbn [map item_text omap list_omap item_response]; [done| |]; [destruct Hr as [Hv Hr]|].
    + by rewrite (unmarshal_marshal r d Hv Hr), IH.
    + destruct (Unmarshal_response SseFrontend.keepalive); [done|exact IH].
  - apply Forall_map. eapply Forall_impl; [exact Hi|]. intros [r d|] Hr; [by eapply marshalled_clean, Hr|]. done.
Qed.

(** An event without data before its first text: an empty first line of data is lost. *)
Example empty_first_line : 
  ParseEvent ("data:" +:+ String newline ("data: x" +:+ String newline (String newline EmptyString))) = Some (mkEvent "" "" "x" 0, EmptyString).
Proof. reflexivity. Qed.

(** ** Configuration *)

Record SSETransportConfig := mkTransport {
  MaxIdleConns : Z; MaxIdleConnsPerHost : Z; IdleConnTimeout : Z; DisableKeepAlives : bool; FollowRedirects : bool; MaxRedirects : Z; UserAgent : string }.
Record SSEPerformanceConfig := mkPerformance {
  StreamBufferSize : Z; RequestBufferSize : Z; ReuseConnections : bool; EnableCompression : bool; FastReconnect : bool; ConnectionPoolSize : Z;
  EnableEventBatching : bool; BatchTimeout : Z }.
Record SSEClientConfig := mkConfig {
  URL : string; Method : string; Headers : gmap string string; RequestTimeout : Z; StreamTimeout : Z; BufferSize : Z;
  Client : SSETransportConfig; HealthCheck : StdioClient.HealthCheckConfig; Performance : SSEPerformanceConfig }.

#[local] Notation or_default := StdioClient.or_default.
Definition or_text (d v : string) : string := if bool_decide (v = EmptyString) then d else v.

Definition validateSSEConfig `{Validate.NetParsers} (serverURL : string) (c : SSEClientConfig) : result goerr SSEClientConfig :=
  let c := mkConfig (or_text serverURL (URL c)) (Method c) (Headers c) (RequestTimeout c) (StreamTimeout c) (BufferSize c) (Client c) (HealthCheck c) (Performance c) in
  match Validate.url_Parse (URL c) with
  | Err e => Err (NewConfigError serverURL "sse" "invalid SSE URL" (Some (Foreign false e)))
  | Ok u =>
      if negb (bool_decide (Validate.Scheme u = "http"%string)) && negb (bool_decide (Validate.Scheme u = "https"%string))
      then Err (NewConfigError serverURL "sse" "URL must use http:// or https:// scheme" None) else Ok c
  end.

Definition applySSEBasicDefaults (c : SSEClientConfig) : SSEClientConfig :=
  let h := HealthCheck c in
  mkConfig (URL c) (or_text "POST" (Method c)) (Headers c) (or_default (30 * Second) (RequestTimeout c)) (or_default (300 * Second) (StreamTimeout c))
    (or_default 4096 (BufferSize c)) (Client c)
    (StdioClient.mkHealthCheck (StdioClient.hc_Enabled h) (or_default (30 * Second) (StdioClient.hc_Interval h)) (or_default (5 * Second) (StdioClient.hc_Timeout h)))
    (Performance c).
Definition applySSEClientDefaults (c : SSEClientConfig) : SSEClientConfig :=
  let t := Client c in
  mkConfig (URL c) (Method c) (Headers c) (RequestTimeout c) (StreamTimeout c) (BufferSize c)
    (mkTransport (or_default 10 (MaxIdleConns t)) (or_default 2 (MaxIdleConnsPerHost t)) (or_default (90 * Second) (IdleConnTimeout t)) (DisableKeepAlives t)
       (FollowRedirects t) (or_default 3 (MaxRedirects t)) (or_text "MCP-Router-SSE-Client/1.0" (UserAgent t)))
    (HealthCheck c) (Performance c).
Definition setSSEBooleanDefaults (p : SSEPerformanceConfig) : SSEPerformanceConfig :=
  mkPerformance (StreamBufferSize p) (RequestBufferSize p) (if negb (ReuseConnections p) then true else ReuseConnections p)
    (if negb (EnableCompression p) then true else EnableCompression p) (if negb (FastReconnect p) then true else FastReconnect p) (ConnectionPoolSize p)
    (if negb (EnableEventBatching p) then false else EnableEventBatching p) (BatchTimeout p).
Definition applySSEPerformanceDefaults (c : SSEClientConfig) : SSEClientConfig :=
  let p := setSSEBooleanDefaults (Performance c) in
  mkConfig (URL c) (Method c) (Headers c) (RequestTimeout c) (StreamTimeout c) (BufferSize c) (Client c) (HealthCheck c)
    (mkPerformance (or_default (64 * 1024) (StreamBufferSize p)) (or_default (32 * 1024) (RequestBufferSize p)) (ReuseConnections p) (EnableCompression p)
       (FastReconnect p) (or_default 5 (ConnectionPoolSize p)) (EnableEventBatching p) (or_default (10 * Millisecond) (BatchTimeout p))).
Definition set_default (k v : string) (m : gmap string string) : gmap string string := match m !! k with Some _ => m | None => <[k := v]> m end.
Definition initializeSSEHeaders (c : SSEClientConfig) : SSEClientConfig :=
  mkConfig (URL c) (Method c)
    (set_default "User-Agent" (UserAgent (Client c)) (set_default "Connection" "keep-alive" (set_default "Cache-Control" "no-cache"
       (set_default "Accept" "text/event-stream" (Headers c)))))
    (RequestTimeout c) (StreamTimeout c) (BufferSize c) (Client c) (HealthCheck c) (Performance c).
Definition applySSEDefaults (c : SSEClientConfig) : SSEClientConfig :=
  initializeSSEHeaders (applySSEPerformanceDefaults (applySSEClientDefaults (applySSEBasicDefaults c))).

(** The redirect policy of the client: what its CheckRedirect says of the redirect after [via] requests. *)
Inductive redirect := UseLastResponse | StopRedirects (message : string) | FollowRedirect.
Definition CheckRedirect (c : SSEClientConfig) (via : Z) : redirect :=
  if negb (FollowRedirects (Client c)) then UseLastResponse
  else if (0 <? MaxRedirects (Client c)) && (MaxRedirects (Client c) <=? via)
       then StopRedirects ("stopped after " +:+ pretty (MaxRedirects (Client c)) +:+ " redirects") else FollowRedirect.

(** The headers of a posted request, by name. *)
Definition request_headers (c : SSEClientConfig) : gmap string string :=
  let m := filter (fun kv => kv.1 <> "Accept"%string /\ kv.1 <> "Cache-Control"%string) (Headers c) in
  let m := <["User-Agent" := UserAgent (Client c)]> (<["Content-Type" := "application/json"]> m) in
  if EnableCompression (Performance c) then <["Content-Encoding" := "gzip"]> (<["Accept-Encoding" := "gzip, deflate"]> m) else m.

(** ** The client's goroutines *)

Inductive label := Caller | Reader | HealthLoop.

#[local] Notation P := (prog cmd label).
#[local] Notation next := (Goroutines.next label).

Section SSE.
Context `{JSON} `{Sprintf}.
Variable name url : string.
Variable config : SSEClientConfig.

Definition recordError : P unit := perform (Metric inc_errors).
Definition recordSuccess (startTime : Z) : P unit :=
  now ← perform Now; perform (Metric (fun m => record_latency (time_sub now startTime) (used_at now m))).
Definition to_state (s : ConnectionState) (x : ConnectionState * Z) : ConnectionState * Z := (s, snd x).
Definition read_state : P (ConnectionState * Z) := perform (Update (fun x => x)).
Definition request_error (message : string) (cause : option goerr) : goerr := NewRequestError url "sse" message cause.

(** *** Requests *)

Definition validateConnectionState : P (option goerr) :=
  x ← read_state;
  mret (if is_up (fst x) then None else Some (NewConnectionError url "sse" "client not connected" (Some (Sentinel ErrClientNotConnected)))).

Definition prepareRequestID (q : Request) : P (Request * string) :=
  if no_id q then
    n ← perform NextID;
    let id := generated_id name n in mret (with_id (JString id) q, id)
  else mret (q, id_text (req_ID q)).

Definition responseChannelBufferSize : nat := 10.
Definition setupResponseChannel (id : string) : P nat := perform (Register id responseChannelBufferSize).
Definition cleanupResponseChannel (id : string) (ch : nat) : P unit := perform (Cleanup id ch).

(** The body is encoded into the client's one buffer; the reader that is returned reads from the buffer's array. *)
Definition createRequestBody (q : Request) : P (result goerr (nat * nat)) :=
  match Marshal_request q with
  | Err t => mret (Err (request_error "failed to marshal request" (Some (Foreign false t))))
  | Ok d =>
      let body := (d +:+ String newline EmptyString)%string in
      array ← perform (SetBuffer body);
      mret (Ok (array, String.length body))
  end.

Definition executeHTTPRequest (array n : nat) : P (option goerr) :=
  x ← perform (Post array n);
  match x with
  | PostUnmade err => mret (Some (request_error "failed to create HTTP request" (Some err)))
  | PostFailed err =>
      _ ← perform (Update (to_state StateUnhealthy));
      mret (Some (request_error "HTTP request failed" (Some err)))
  | PostStatus code body =>
      mret (if ((code <? 200) || (300 <=? code))%Z then Some (request_error ("HTTP error " +:+ pretty code +:+ ": " +:+ body) None) else None)
  end%string.

Definition sendHTTPRequest (q : Request) : P (option goerr) :=
  b ← createRequestBody q;
  match b with Err err => mret (Some err) | Ok (array, n) => executeHTTPRequest array n end.

Definition calculateTimeout : P Z := r ← perform Remaining; mret (shorter (RequestTimeout config) r).

Definition waitForResponse (ch : nat) (startTime : Z) : P (result goerr (option Response)) :=
  timeout ← calculateTimeout;
  x ← perform (Wait ch);
  match x with
  | Got r => _ ← recordSuccess startTime; mret (Ok (Some r))
  | GotNil => _ ← recordSuccess startTime; mret (Ok None)
  | TimedOut => _ ← recordError; mret (Err (NewTimeoutError url "sse" timeout None))
  | Cancelled err => _ ← recordError; mret (Err err)
  | ShuttingDown => mret (Err (NewShutdownError url "sse" "client is shutting down" None))
  end.

Definition ProcessSSERequest (q : Request) : P (Request * result goerr (option Response)) :=
  v ← validateConnectionState;
  match v with
  | Some err => mret (q, Err err)
  | None =>
      p ← prepareRequestID q;
      ch ← setupResponseChannel (snd p);
      startTime ← perform Now;
      e ← sendHTTPRequest (fst p);
      r ← (match e with Some err => _ ← recordError; mret (Err err) | None => waitForResponse ch startTime end);
      _ ← cleanupResponseChannel (snd p) ch;
      mret (fst p, r)
  end.

(** *** Connecting *)

(** [connect]: the stream is requested, and its status and content type are checked. *)
Definition connect : P (option goerr) :=
  e ← perform Dial;
  match e with
  | Some err => mret (Some (Foreign false ("failed to establish SSE stream: " +:+ Error_text err)))
  | None => _ ← perform (SetConn true); mret None
  end%string.

Definition Connect : P (option goerr) :=
  _ ← perform Lock;
  x ← perform (Held (fun x => x));
  if is_up (fst x) then
    _ ← perform Unlock;
    mret (Some (NewConnectionError url "sse" "client already connected" (Some (Sentinel ErrClientAlreadyConnected))))
  else
    _ ← perform (Held (to_state StateConnecting));
    e ← connect;
    match e with
    | Some err =>
        _ ← perform (Held (to_state StateError));
        _ ← perform Unlock;
        mret (Some (NewConnectionError url "sse" "failed to establish SSE connection" (Some err)))
    | None =>
        _ ← perform (Held (to_state StateConnected));
        now ← perform Now;
        _ ← perform (Metric (connected now));
        _ ← perform WgAdd;
        _ ← go (Ret (Again Reader));
        _ ← (if StdioClient.hc_Enabled (HealthCheck config) then _ ← perform WgAdd; go (ticking (StdioClient.hc_Interval (HealthCheck config)) HealthLoop) else mret tt);
        _ ← perform Unlock;
        mret None
    end.

(** *** Health *)

Definition leave : P next := _ ← perform WgDone; mret Exit.
Definition unhealthy_check (message : string) : P (option goerr) :=
  now ← perform Now;
  _ ← perform (Metric (checked false now));
  mret (Some (NewHealthError url "sse" message (Some (Sentinel ErrClientNotConnected)))).

Definition Health : P (option goerr) :=
  x ← read_state;
  if negb (is_up (fst x)) then unhealthy_check "client not connected"
  else
    c ← perform HasConn;
    if negb c then unhealthy_check "SSE stream is nil"
    else
      _ ← perform (Update (to_state StateHealthy));
      now ← perform Now;
      _ ← perform (Metric (checked true now));
      mret None.

(** One round of [healthCheckLoop]. *)
Definition healthCheckLoop : P next :=
  t ← perform Tick;
  match t with
  | TickCancelled | TickShutdown => leave
  | Ticked => _ ← Health; mret (Again HealthLoop)
  end.

(** *** The stream *)

(** A response is routed under any id that is a string. *)
Definition processSSEEvent (data : string) : P unit :=
  if bool_decide (data = EmptyString) then mret tt
  else
    match Unmarshal_response data with
    | Err _ => mret tt
    | Ok r => match resp_ID r with JString id => perform (Deliver id r) | _ => mret tt end
    end.

Definition updateClientState (expected : bool) : P unit :=
  _ ← perform (Update (fun x => if is_down (fst x) then x else if expected then x else to_state StateDisconnected x));
  mret tt.
Definition recordErrorMetrics : P unit := perform (Metric (fun m => healthy false (inc_errors m))).
Definition handleReadError (expected : bool) : P unit := _ ← updateClientState expected; recordErrorMetrics.

(** A read brings the data of the next event, as [ParseEvent] finds it, or an error; without a reader there is nothing to do. *)
Definition readAndProcessEvent : P unit :=
  c ← perform HasConn;
  if negb c then mret tt
  else
    x ← perform Receive;
    match x with
    | RText d => processSSEEvent d
    | REof => handleReadError true
    | RError unexpected => handleReadError (negb unexpected)
    | RTimeout | RCloseFrame _ | RPanic => handleReadError false
    end.

Definition safeCloseDoneChannel : P unit := d ← perform DoneSeen; if d : bool then mret tt else perform CloseDone.
Definition cleanup : P next := _ ← perform WgDone; _ ← safeCloseDoneChannel; mret Exit.

(** One round of [ReadStreamLoop]. *)
Definition ReadStreamLoop : P next :=
  s ← perform ShutdownSeen;
  if s : bool then cleanup else _ ← readAndProcessEvent; mret (Again Reader).

(** *** Closing *)

Definition beginClose : P bool :=
  x ← perform (Update (fun x => if is_down (fst x) then x else to_state StateClosing x));
  mret (negb (is_down (fst x))).
Definition signalShutdown : P unit := s ← perform ShutdownSeen; if s : bool then mret tt else perform CloseShutdown.
Definition closeSSEStream : P unit := c ← perform HasConn; if negb c then mret tt else _ ← perform CloseConn; perform (SetConn false).
Definition setFinalState : P unit := _ ← perform (Update (to_state StateClosed)); mret tt.
Definition waitForCompletion : P (option goerr) :=
  finished ← perform NewSignal;
  _ ← go (_ ← perform WgWait; _ ← perform (Raise finished); mret Exit);
  x ← perform (Await finished);
  match x with
  | Raised | AwaitTimeout => mret None
  | AwaitCancelled err => _ ← setFinalState; mret (Some err)
  end.
Definition finalizeClose : P unit := _ ← setFinalState; perform (Metric (healthy false)).

Definition CloseClient : P (option goerr) :=
  ok ← beginClose;
  if negb ok then mret None
  else
    _ ← signalShutdown;
    _ ← closeSSEStream;
    e ← waitForCompletion;
    match e with Some err => mret (Some err) | None => _ ← finalizeClose; mret None end.

(** *** All of it *)

Definition serve (c : call) : P next :=
  match c with
  | CSend q => r ← ProcessSSERequest q; _ ← perform (Return (fst r) (snd r)); mret Exit
  | CConnect => _ ← Connect; mret Exit
  | CClose => _ ← CloseClient; mret Exit
  | CHealth => _ ← Health; mret Exit
  end.
Definition calls : P next := c ← perform Call; _ ← go (serve c); mret (Again Caller).

(** With health checks the builder starts the loop before any connection. *)
Definition createSSEClient : P next :=
  if StdioClient.hc_Enabled (HealthCheck config) then _ ← perform WgAdd; _ ← go (ticking (StdioClient.hc_Interval (HealthCheck config)) HealthLoop); mret (Again Caller) else mret (Again Caller).

Definition body (l : label) : P next :=
  match l with Caller => calls | Reader => ReadStreamLoop | HealthLoop => healthCheckLoop end.

(** A client that is being built, then called. *)
Definition running_client (w : world cmd State label) : Prop :=
  st w = fresh_client /\ panicked w = false /\ forall t p, tasks w !! t = Some p -> p = createSSEClient.

(** ** The discipline: nothing closes a channel but its request; the shutdown is signalled without the mutex. *)

Definition shares (l : label) : Z := match l with Caller => 0 | _ => 1 end.

#[local] Notation Pre := (pre false true false).
#[local] Notation Post := (post true).
#[local] Notation Valid := (valid false).
#[local] Notation WP p e Q := (wp Pre Valid Post split exit_ok (label_env shares) p e Q).
#[local] Notation OK p e := (goroutine_ok Pre Valid Post split exit_ok (label_env shares) p e).

Lemma ed_waitForResponse id ch n s e :
  own e = Some (id, ch) -> mu e = false -> owed e = n ->
  WP (waitForResponse ch s) e (fun r e' => own e' = Some (id, ch) /\ mu e' = false /\ owed e' = n /\ forall a, r = Ok a -> exists b, a = Some b /\ (id, b) ∈ got e').
Proof.
  intros Ho Hm Hn. unfold waitForResponse, calculateTimeout, recordSuccess, recordError. walk.
  eapply d_Wait; [exact Ho|]. intros y e' H1 H2 H3 H4 H5. destruct y; walk; split_and!; try first [done|congruence].
  - intros a [= <-]. eexists. split; [done|by apply H5].
  - by specialize (H4 eq_refl).
Qed.

Lemma ed_sendHTTPRequest q e : mu e = false -> WP (sendHTTPRequest q) e (fun _ e' => own e' = own e /\ mu e' = false /\ owed e' = owed e).
Proof.
  intros Hm. unfold sendHTTPRequest, createRequestBody, executeHTTPRequest. walk_all; done.
Qed.

Lemma ed_ProcessSSERequest q n e :
  stands false n e ->
  WP (ProcessSSERequest q) e (fun r e' => stands false n e' /\ forall a, snd r = Ok a -> exists b, a = Some b /\ (id_text (req_ID (fst r)), b) ∈ got e').
Proof.
  intros He. unfold ProcessSSERequest, validateConnectionState, prepareRequestID, read_state, setupResponseChannel, cleanupResponseChannel, recordError. do 2 apply wp_bind.
  eapply d_Update; [exact He|state_ok|]. intros x e0 He0 _ _. walk. destruct (is_up (fst x)); [|by walk]. walk.
  eapply wp_mono with (Q := fun p e' => e' = e0 /\ snd p = id_text (req_ID (fst p))); [walk_all; done|]. intros [q' id] e1 [-> Hid]. cbn in Hid. subst id. cbn [fst snd].
  destruct He0 as [Ho Hm Hn]. walk_step. apply wp_perform; [done|]. intros ch _. walk.
  eapply wp_mono; [by apply ed_sendHTTPRequest|]. intros s e1 (Ho1 & Hm1 & Hn1). walk. cbn in Ho1, Hn1.
  eapply wp_mono with (Q := fun r e' => own e' = Some (id_text (req_ID q'), ch) /\ mu e' = false /\ owed e' = n /\
    forall a, r = Ok a -> exists b, a = Some b /\ (id_text (req_ID q'), b) ∈ got e').
  { destruct s; [walk; split_and!; try congruence|]. apply ed_waitForResponse; congruence. }
  intros r e2 (H1 & H2 & H3 & H4). walk. apply wp_perform; [done|]. intros ? _. by walk.
Qed.

Lemma ed_Connect e : stands false 0 e -> WP Connect e (fun _ e' => stands false 0 e').
Proof.
  intros He. unfold Connect, connect. walk. branch; walk; [done|].
  eapply wp_mono with (Q := fun _ e' => stands true 0 e'); [walk_all; done|]. intros r e3 He3. branch; walk; [done|].
  eapply d_go with (m := 1); [eassumption|lia|by apply d_loop|]. intros e4 He4 _. walk.
  eapply wp_mono with (Q := fun _ e' => stands true 0 e'); [|intros ? ? ?; by walk].
  branch; walk; [|done]. eapply d_go with (m := 1); [eassumption|lia|by apply d_ticking|]. by intros e6 He6 _.
Qed.

Lemma ed_Health n e : stands false n e -> WP Health e (fun _ e' => stands false n e').
Proof. intros He. unfold Health, read_state, unhealthy_check. walk_all; done. Qed.

Lemma ed_leave e : stands false 1 e -> OK leave e.
Proof. intros He. unfold leave, goroutine_ok. walk. ends. Qed.

Lemma ed_healthCheckLoop : OK healthCheckLoop (set_owed 1 nothing).
Proof.
  pose proof (stands_shares 1) as He. unfold healthCheckLoop, goroutine_ok. walk. branch; try (by apply ed_leave).
  apply wp_bind. eapply wp_mono; [by apply ed_Health|]. intros h e1 He1. walk. ends.
Qed.

Lemma ed_processSSEEvent d n e : stands false n e -> d ∈ texts e -> WP (processSSEEvent d) e (fun _ e' => stands false n e').
Proof.
  intros He Hd. unfold processSSEEvent. case_bool_decide; [done|]. destruct (Unmarshal_response d) as [r|] eqn:Er; [|done].
  destruct (resp_ID r) eqn:Ei; try done. by eapply d_Deliver; [exact Hd|exact Er| |].
Qed.

Lemma ed_handleReadError x n e : stands false n e -> WP (handleReadError x) e (fun _ e' => stands false n e').
Proof. intros He. unfold handleReadError, updateClientState, recordErrorMetrics. walk_all; done. Qed.

Lemma ed_ReadStreamLoop : OK ReadStreamLoop (set_owed 1 nothing).
Proof.
  pose proof (stands_shares 1) as He. unfold ReadStreamLoop, readAndProcessEvent, cleanup, safeCloseDoneChannel, goroutine_ok. walk. branch; walk.
  - branch; walk; ends.
  - eapply wp_mono with (Q := fun _ e' => stands false 1 e'); [|intros ? e2 He2; walk; ends].
    branch; walk; [done|]. eapply d_Receive; [eassumption|]. intros y e1 He1 Ht.
    destruct y; walk; try (by apply ed_handleReadError). apply ed_processSSEEvent; [done|by apply Ht].
Qed.

Lemma ed_CloseClient e : stands false 0 e -> WP CloseClient e (fun _ e' => stands false 0 e').
Proof.
  intros He. unfold CloseClient, beginClose, signalShutdown, closeSSEStream, waitForCompletion, finalizeClose, setFinalState. walk. branch; walk; [done|].
  eapply wp_mono with (Q := fun _ e' => stands false 0 e').
  { branch; walk; [done|]. eapply d_CloseShutdown; [eassumption|by left|]. by intros e2 He2 _. }
  intros ? e2 He2. walk. eapply wp_mono with (Q := fun _ e' => stands false 0 e'); [walk_all; done|]. intros ? e3 He3. walk.
  eapply d_go with (m := 0); [eassumption|lia|unfold goroutine_ok; walk; ends|]. intros e4 He4 _. walk.
  eapply wp_mono with (Q := fun _ e' => stands false 0 e'); [walk_all; done|]. intros r e5 He5. walk_all; done.
Qed.

Lemma ed_calls : OK calls nothing.
Proof.
  pose proof (stands_shares 0 : stands false 0 nothing) as He. unfold calls, goroutine_ok. walk.
  eapply d_go with (m := 0); [exact He|lia| |intros e1 He1 _; walk; ends]. unfold goroutine_ok. destruct x as [q| | |]; cbn [serve]; walk.
  - eapply wp_mono; [by apply ed_ProcessSSERequest|]. intros [q' r] e1 [He1 Hr]. cbn [fst snd] in *. walk. apply wp_perform; [|intros ? _; cbn [post]; walk; ends].
    destruct r as [a|]; [|done]. destruct (Hr a eq_refl) as (b & -> & Hb). exact Hb.
  - eapply wp_mono; [by apply ed_Connect|]. intros ? e1 He1. walk. ends.
  - eapply wp_mono; [by apply ed_CloseClient|]. intros ? e1 He1. walk. ends.
  - eapply wp_mono; [by apply ed_Health|]. intros ? e1 He1. walk. ends.
Qed.

Lemma ed_createSSEClient : OK createSSEClient nothing.
Proof.
  pose proof (stands_shares 0 : stands false 0 nothing) as He. unfold createSSEClient, goroutine_ok. branch; walk; [|ends].
  eapply d_go with (m := 1); [eassumption|lia|by apply d_ticking|]. intros e1 He1 _. walk. ends.
Qed.

#[local] Notation sse_client_reachable w0 w := (reachable exec panics body (fun _ _ => False) w0 w).

Lemma ed_typed w0 w : running_client w0 -> sse_client_reachable w0 w ->
  typed panics (Inv false true false) Pre Valid Post split exit_ok (label_env shares) (crash false true) w.
Proof.
  intros (Hs & Hp & Ht) Hr. eapply sound; [| |exact Hr].
  - apply direct_rules. intros []; [apply ed_calls|apply ed_ReadStreamLoop|apply ed_healthCheckLoop].
  - destruct w0 as [s ts pn]. cbn in *. subst. apply direct_typed_start. intros t p Hin. rewrite (Ht t p Hin). apply ed_createSSEClient.
Qed.

(** ** Every interleaving *)

(** Whatever the interleaving of calls, events, health checks and shutdowns, a call of the SSE client that ends without
    an error returns a response that the server sent as an event, whose id is the text of the request's id. *)
Lemma sse_client_responses_match w0 w q r :
  running_client w0 -> sse_client_reachable w0 w -> (q, Ok r) ∈ answers (log (st w)) ->
  exists a d, r = Some a /\ d ∈ heard (log (st w)) /\ Unmarshal_response d = Ok a /\ resp_ID a = JString (id_text (req_ID q)).
Proof.
  intros H0' Hr Ha. destruct (typed_answer _ _ _ _ _ _ _ (ed_typed _ _ H0' Hr) Ha) as (a & -> & d & Hd & Hu & Hi). by exists a, d.
Qed.

(** Whatever the interleaving, the SSE client can stop the router only by closing its shutdown or its done channel a
    second time, or by making the ticker of health checks whose interval is not positive; the
    channels of requests are closed once, and nothing is sent on a closed one. *)
Lemma sse_client_panics_only_closing w0 w :
  running_client w0 -> sse_client_reachable w0 w -> panicked w = true ->
  exists t, (exists k, (tasks w !! t = Some (Do CloseShutdown k) /\ shutdownCh (st w) = true) \/ (tasks w !! t = Some (Do CloseDone k) /\ doneCh (st w) = true)) \/
    (exists d k, tasks w !! t = Some (Do (NewTicker d) k) /\ d <= 0).
Proof.
  intros H0' Hr Hp. destruct (typed_panic _ _ _ _ _ (ed_typed _ _ H0' Hr) Hp) as (t & X & c & k & Ht & Hpn & Hc & _). exists t.
  destruct c; try done; [right; exists d, k; cbn in Hpn; split; [done|lia]|left; exists k; by left|left; exists k; by right].
Qed.

End SSE.

(** ** Runs *)

#[local] Existing Instance StdioClient.printf.
#[local] Existing Instance Codec.codec.

Definition sample_config : SSEClientConfig :=
  applySSEDefaults (mkConfig "http://server" "" ∅ 0 0 0 (mkTransport 0 0 0 false false 0 "") (StdioClient.mkHealthCheck false 0 0)
    (mkPerformance 0 0 false false false 0 false 0)).

(** The defaults switch compression on, and a posted request claims a body that is compressed; the body is not. *)
Example default_claims_gzip : request_headers sample_config !! "Content-Encoding"%string = Some "gzip"%string.
Proof. vm_compute. reflexivity. Qed.

Definition sample_start : world cmd State label := {| st := fresh_client; tasks := {[0%nat := createSSEClient sample_config]}; panicked := false |}.
Definition play (sched : list (nat * (State -> forall X, cmd X -> X))) : option (world cmd State label) :=
  run exec panics (body "remote" "http://server" sample_config) sched sample_start.
Definition final {A} (f : world cmd State label -> A) (sched : list (nat * (State -> forall X, cmd X -> X))) : option A := f <$> play sched.

Lemma ed_play_reachable sched w :
  play sched = Some w -> reachable exec panics (body "remote" "http://server" sample_config) (fun _ _ => False) sample_start w.
Proof. apply run_reachable, reach_init. Qed.

Lemma ed_final_played {A} (f : world cmd State label -> A) sched a : final f sched = Some a -> exists w, play sched = Some w /\ f w = a.
Proof. unfold final. destruct (play sched) as [w|]; [|done]. intros [= <-]. by exists w. Qed.

Lemma ed_sample_running : running_client sample_config sample_start.
Proof.
  split_and!; [done|done|]. intros t p Hp. change (({[0%nat := createSSEClient sample_config]} : gmap nat _) !! t = Some p) in Hp.
  by apply lookup_singleton_Some in Hp as [_ <-].
Qed.

Definition ask (method : string) (id : jvalue) : Request := mkRequest "2.0" method JNull id.
Definition reply (id : jvalue) : Response := mkResponse "2.0" (JString "tools") None id.
Definition sent (id : jvalue) : recv_res := match Marshal_response (reply id) with Ok d => RText d | Err _ => REof end.

(** The goroutines: 0 the callers, 1 the call of Connect, which starts 2 (the reader); then one for each call. *)
Definition calling (t : nat) (c : call) (n : nat) := moves 3 0 (on_call c) ++ moves n t (on_call c).

Definition connecting := calling 1 CConnect 12.
Definition exchange (id : jvalue) := connecting ++ calling 3 (CSend (ask "tools/list" id)) 6 ++ moves 5 2 (on_read (sent id)) ++ moves 6 3 (on_call CHealth).

Example sse_client_exchange_answered :
  final (fun w => (answers (log (st w)), panicked w)) (exchange (JString "a")) = Some ([(ask "tools/list" (JString "a"), Ok (Some (reply (JString "a"))))], false).
Proof. vm_compute. reflexivity. Qed.

(** Two requests at once: the second is encoded over the first before that is sent, and both post the second. *)
Definition crossed :=
  connecting ++ calling 3 (CSend (ask "tools/list" (JString "a"))) 4 ++ calling 4 (CSend (ask "tools/call" (JString "b"))) 4 ++
  moves 1 3 (on_call CHealth) ++ moves 1 4 (on_call CHealth).
Definition line_of (q : Request) : string := match Marshal_request q with Ok d => d +:+ String newline EmptyString | Err _ => EmptyString end.
Example crossed_bodies :
  final (fun w => posted (log (st w))) crossed = Some [line_of (ask "tools/call" (JString "b")); line_of (ask "tools/call" (JString "b"))].
Proof. vm_compute. reflexivity. Qed.

(** A health check that began before Close makes the closing client healthy again; a second Close goes ahead beside the first,
    and both close the shutdown channel. *)
Definition closed_twice :=
  connecting ++ calling 3 CHealth 2 ++ calling 4 CClose 2 ++ moves 1 3 (on_call CHealth) ++ calling 5 CClose 3 ++ moves 1 4 (on_call CClose).
Example sse_closed_twice_stops_router : final panicked closed_twice = Some true.
Proof. vm_compute. reflexivity. Qed.

(** *** Witnesses *)

Lemma sse_stream_roundtrip_witness :
  exists d, Marshal_response (reply (JString "a")) = Ok d /\
    received (stream [SseFrontend.keepalive; d; SseFrontend.keepalive]) = [reply (JString "a")].
Proof.
  exists (match Marshal_response (reply (JString "a")) with Ok d => d | Err _ => EmptyString end). split; [vm_compute; reflexivity|].
  apply (sse_stream_roundtrip [KeepAlive; Answered (reply (JString "a")) (match Marshal_response (reply (JString "a")) with Ok d => d | Err _ => EmptyString end); KeepAlive]).
  - repeat constructor.
  - vm_compute. reflexivity.
Defined.

Lemma sse_client_responses_match_witness :
  exists w, play (exchange (JString "a")) = Some w /\
    exists a d, Some (reply (JString "a")) = Some a /\ d ∈ heard (log (st w)) /\ Unmarshal_response d = Ok a /\ resp_ID a = JString "a".
Proof.
  destruct (ed_final_played (fun w => answers (log (st w))) (exchange (JString "a")) [(ask "tools/list" (JString "a"), Ok (Some (reply (JString "a"))))])
    as (w & E & Ha); [vm_compute; reflexivity|]. exists w. split; [exact E|].
  apply (sse_client_responses_match "remote" "http://server" sample_config sample_start w (ask "tools/list" (JString "a")) (Some (reply (JString "a")))
           ed_sample_running (ed_play_reachable _ _ E)). rewrite Ha. left.
Defined.

Lemma sse_client_panics_only_closing_witness :
  exists w, play closed_twice = Some w /\
    exists t, (exists k, (tasks w !! t = Some (Do CloseShutdown k) /\ shutdownCh (st w) = true) \/ (tasks w !! t = Some (Do CloseDone k) /\ doneCh (st w) = true)) \/
      (exists d k, tasks w !! t = Some (Do (NewTicker d) k) /\ d <= 0).
Proof.
  destruct (ed_final_played panicked closed_twice true) as (w & E & Hp); [vm_compute; reflexivity|]. exists w. split; [exact E|].
  exact (sse_client_panics_only_closing "remote" "http://server" sample_config sample_start w ed_sample_running (ed_play_reachable _ _ E) Hp).
Defined.

End SSEClient.
