(* ===== verification/DirectHttp.v ===== *)
(** * The HTTP client

    [services/router/internal/direct/http_client.go] with its request processor, closer and builder, and the buffer pool of
    memory_optimization.go: requests are posted, the answer is the body of the response.  The client's goroutines are
    programs of [Goroutines] over commands of its own: there are no pending requests, but the arrays behind request
    bodies are shared when the buffers are pooled. *)
From S2P Require Import Prelude GoStrings GoUnicode GatewayErrors Validation Mcp SseStream Goroutines DirectClient DirectStdio.
From stdpp Require Import pretty.
From Stdlib Require Import Strings.Ascii.
#[local] Open Scope Z_scope.

Module HTTPClient.
Import Direct.

#[local] Notation newline := Sse.newline.

(** ** Configuration *)

Record HTTPTransportConfig := mkTransport {
  MaxIdleConns : Z; MaxIdleConnsPerHost : Z; IdleConnTimeout : Z; DisableKeepAlives : bool; FollowRedirects : bool; MaxRedirects : Z; UserAgent : string }.
Record HTTPPerformanceConfig := mkPerformance {
  EnableCompression : bool; CompressionThreshold : Z; EnableHTTP2 : bool; MaxConnsPerHost : Z; EnablePipelining : bool; ReuseEncoders : bool;
  ResponseBufferSize : Z }.
Record HTTPClientConfig := mkConfig {
  URL : string; Method : string; Headers : gmap string string; Timeout : Z; Client : HTTPTransportConfig;
  HealthCheck : StdioClient.HealthCheckConfig; Performance : HTTPPerformanceConfig }.

#[local] Notation or_default := StdioClient.or_default.
Definition or_text (d v : string) : string := if bool_decide (v = EmptyString) then d else v.
Definition set_default (k v : string) (m : gmap string string) : gmap string string := match m !! k with Some _ => m | None => <[k := v]> m end.

Definition applyBasicDefaults (c : HTTPClientConfig) : HTTPClientConfig :=
  let h := HealthCheck c in
  mkConfig (URL c) (or_text "POST" (Method c)) (Headers c) (or_default (30 * Second) (Timeout c)) (Client c)
    (StdioClient.mkHealthCheck (StdioClient.hc_Enabled h) (or_default (30 * Second) (StdioClient.hc_Interval h)) (or_default (5 * Second) (StdioClient.hc_Timeout h)))
    (Performance c).
Definition applyClientDefaults (c : HTTPClientConfig) : HTTPClientConfig :=
  let t := Client c in
  mkConfig (URL c) (Method c) (Headers c) (Timeout c)
    (mkTransport (or_default 10 (MaxIdleConns t)) (or_default 2 (MaxIdleConnsPerHost t)) (or_default (90 * Second) (IdleConnTimeout t)) (DisableKeepAlives t)
       (FollowRedirects t) (or_default 3 (MaxRedirects t)) (or_text "MCP-Router-HTTP-Client/1.0" (UserAgent t)))
    (HealthCheck c) (Performance c).
Definition applyPerformanceDefaults (c : HTTPClientConfig) : HTTPClientConfig :=
  let p := Performance c in
  mkConfig (URL c) (Method c) (Headers c) (Timeout c) (Client c) (HealthCheck c)
    (mkPerformance (if negb (EnableCompression p) then true else EnableCompression p) (or_default 1024 (CompressionThreshold p))
       (if negb (EnableHTTP2 p) then true else EnableHTTP2 p) (or_default 10 (MaxConnsPerHost p)) (EnablePipelining p)
       (if negb (ReuseEncoders p) then true else ReuseEncoders p) (or_default (32 * 1024) (ResponseBufferSize p))).
Definition initializeHeaders (c : HTTPClientConfig) : HTTPClientConfig :=
  mkConfig (URL c) (Method c) (set_default "User-Agent" (UserAgent (Client c)) (set_default "Content-Type" "application/json" (Headers c)))
    (Timeout c) (Client c) (HealthCheck c) (Performance c).
Definition applyDefaults (c : HTTPClientConfig) : HTTPClientConfig :=
  initializeHeaders (applyPerformanceDefaults (applyClientDefaults (applyBasicDefaults c))).

Definition validateAndSetDefaults `{Validate.NetParsers} (serverURL : string) (c : HTTPClientConfig) : result goerr HTTPClientConfig :=
  let c := mkConfig (or_text serverURL (URL c)) (Method c) (Headers c) (Timeout c) (Client c) (HealthCheck c) (Performance c) in
  match Validate.url_Parse (URL c) with
  | Err e => Err (NewConfigError serverURL "http" "invalid HTTP URL" (Some (Foreign false e)))
  | Ok u =>
      if negb (bool_decide (Validate.Scheme u = "http"%string)) && negb (bool_decide (Validate.Scheme u = "https"%string))
      then Err (NewConfigError serverURL "http" "URL must use http:// or https:// scheme" None) else Ok (applyDefaults c)
  end.

(** The headers of a request, by name. *)
Definition setRequestHeaders (c : HTTPClientConfig) : gmap string string := <["User-Agent" := UserAgent (Client c)]> (Headers c).

(** ** The client's state

    [arrays]: the memory behind request bodies; [bufs]: the array that each buffer of the pool writes to; [pool]: the
    buffers that wait in the pool.  [Log]: what callers got, what was posted with the status and the body that came back. *)
Definition http_answer : Type := Z * result goerr string.
Record Log := mkLog { answers : list (Request * result goerr Response); exchanges : list (string * http_answer) }.
Record State := mkState {
  state : ConnectionState; locked : bool; requestID : Z; metrics : ClientMetrics; shutdownCh : bool; wg : Z; signals : gset nat; next_signal : nat;
  arrays : gmap nat string; next_array : nat; bufs : gmap nat nat; next_buf : nat; pool : gset nat; log : Log }.

Definition fresh_client : State := mkState StateDisconnected false 0 no_metrics false 0 ∅ 0 ∅ 0 ∅ 0 ∅ (mkLog [] []).

Definition set_state (x : ConnectionState) (s : State) : State :=
  mkState x (locked s) (requestID s) (metrics s) (shutdownCh s) (wg s) (signals s) (next_signal s) (arrays s) (next_array s) (bufs s) (next_buf s) (pool s) (log s).
Definition set_locked (b : bool) (s : State) : State :=
  mkState (state s) b (requestID s) (metrics s) (shutdownCh s) (wg s) (signals s) (next_signal s) (arrays s) (next_array s) (bufs s) (next_buf s) (pool s) (log s).
Definition set_requestID (n : Z) (s : State) : State :=
  mkState (state s) (locked s) n (metrics s) (shutdownCh s) (wg s) (signals s) (next_signal s) (arrays s) (next_array s) (bufs s) (next_buf s) (pool s) (log s).
Definition set_metrics (m : ClientMetrics) (s : State) : State :=
  mkState (state s) (locked s) (requestID s) m (shutdownCh s) (wg s) (signals s) (next_signal s) (arrays s) (next_array s) (bufs s) (next_buf s) (pool s) (log s).
Definition set_shutdown (s : State) : State :=
  mkState (state s) (locked s) (requestID s) (metrics s) true (wg s) (signals s) (next_signal s) (arrays s) (next_array s) (bufs s) (next_buf s) (pool s) (log s).
Definition set_wg (n : Z) (s : State) : State :=
  mkState (state s) (locked s) (requestID s) (metrics s) (shutdownCh s) n (signals s) (next_signal s) (arrays s) (next_array s) (bufs s) (next_buf s) (pool s) (log s).
Definition set_signals (g : gset nat) (n : nat) (s : State) : State :=
  mkState (state s) (locked s) (requestID s) (metrics s) (shutdownCh s) (wg s) g n (arrays s) (next_array s) (bufs s) (next_buf s) (pool s) (log s).
Definition set_memory (a : gmap nat string) (na : nat) (b : gmap nat nat) (nb : nat) (p : gset nat) (s : State) : State :=
  mkState (state s) (locked s) (requestID s) (metrics s) (shutdownCh s) (wg s) (signals s) (next_signal s) a na b nb p (log s).
Definition set_log (L : Log) (s : State) : State :=
  mkState (state s) (locked s) (requestID s) (metrics s) (shutdownCh s) (wg s) (signals s) (next_signal s) (arrays s) (next_array s) (bufs s) (next_buf s) (pool s) L.

(** ** Commands *)

(** What comes of a posted request: an error (with whether the caller's deadline has passed), or a status and what
    reading the body brings. *)
Inductive do_res := DoFailed (deadline : bool) (err : goerr) | DoStatus (code : Z) (body : result goerr string).

Inductive cmd : Type -> Type :=
| Call : cmd call
| Return (q : Request) (r : result goerr Response) : cmd unit
| Now : cmd Z
| Update (f : ConnectionState -> ConnectionState) : cmd ConnectionState
| Lock : cmd unit
| Held (f : ConnectionState -> ConnectionState) : cmd ConnectionState
| Unlock : cmd unit
| Metric (f : ClientMetrics -> ClientMetrics) : cmd unit
| NextID : cmd Z
(* memory: a new array; a buffer of the pool, its contents, its return *)
| Alloc (d : string) : cmd nat
| GetBuffer : cmd nat
| FillBuffer (b : nat) (d : string) : cmd nat
| PutBuffer (b : nat) : cmd unit
(* the network: a request, and the first [n] bytes of array [a] sent as its body *)
| NewRequest : cmd (option goerr)
| Remaining : cmd (option Z)
| Perform (a n : nat) : cmd do_res
| CloseIdleConnections : cmd unit
(* time, shutdown, the wait group *)
| NewTicker (d : Z) : cmd unit
| Tick : cmd tick_res
| ShutdownSeen : cmd bool
| CloseShutdown : cmd unit
| WgAdd : cmd unit
| WgDone : cmd unit
| NewSignal : cmd nat
| WgWait : cmd unit
| Raise (n : nat) : cmd unit
| Await (n : nat) : cmd await_res.

Definition text_at (s : State) (a n : nat) : string := str_take n (default EmptyString (arrays s !! a)).
Definition answered (q : Request) (r : result goerr Response) (L : Log) : Log := mkLog (answers L ++ [(q, r)]) (exchanges L).
Definition exchanged (p : string) (d : http_answer) (L : Log) : Log := mkLog (answers L) (exchanges L ++ [(p, d)]).

(** A buffer that is written to after its reset keeps its array when the text fits, with room for at least 4096 bytes. *)
Definition fits (d old : string) : bool := (String.length d <=? Nat.max 4096 (String.length old))%nat.

Definition exec (X : Type) (c : cmd X) : X -> State -> option State :=
  match c in cmd X return X -> State -> option State with
  | Call | Now | NewRequest | Remaining | CloseIdleConnections | NewTicker _ => fun _ s => Some s
  | Return q r => fun _ s => Some (set_log (answered q r (log s)) s)
  | Update f => fun x s => if negb (locked s) && bool_decide (x = state s) then Some (set_state (f (state s)) s) else None
  | Lock => fun _ s => if locked s then None else Some (set_locked true s)
  | Held f => fun x s => if bool_decide (x = state s) then Some (set_state (f (state s)) s) else None
  | Unlock => fun _ s => Some (set_locked false s)
  | Metric f => fun _ s => Some (set_metrics (f (metrics s)) s)
  | NextID => fun x s => let n := u64_add (requestID s) 1 in if x =? n then Some (set_requestID n s) else None
  | Alloc d => fun x s =>
      if bool_decide (x = next_array s) then Some (set_memory (<[x := d]> (arrays s)) (S x) (bufs s) (next_buf s) (pool s) s) else None
  | GetBuffer => fun x s =>
      if bool_decide (x ∈ pool s) then Some (set_memory (arrays s) (next_array s) (bufs s) (next_buf s) (pool s ∖ {[x]}) s)
      else if bool_decide (x = next_buf s)
           then Some (set_memory (<[next_array s := EmptyString]> (arrays s)) (S (next_array s)) (<[x := next_array s]> (bufs s)) (S x) (pool s) s)
           else None
  | FillBuffer b d => fun x s =>
      match bufs s !! b with
      | None => None
      | Some a =>
          let old := default EmptyString (arrays s !! a) in
          if fits d old then (if bool_decide (x = a) then Some (set_memory (<[a := overwrite d old]> (arrays s)) (next_array s) (bufs s) (next_buf s) (pool s) s) else None)
          else if bool_decide (x = next_array s) then Some (set_memory (<[x := d]> (arrays s)) (S x) (<[b := x]> (bufs s)) (next_buf s) (pool s) s) else None
      end
  | PutBuffer b => fun _ s => Some (set_memory (arrays s) (next_array s) (bufs s) (next_buf s) ({[b]} ∪ pool s) s)
  | Perform a n => fun x s => match x with DoStatus code body => Some (set_log (exchanged (text_at s a n) (code, body) (log s)) s) | _ => Some s end
  | Tick => fun x s => match x with TickShutdown => when (shutdownCh s) s | _ => Some s end
  | ShutdownSeen => fun x s => when (Bool.eqb x (shutdownCh s)) s
  | CloseShutdown => fun _ s => Some (set_shutdown s)
  | WgAdd => fun _ s => Some (set_wg (wg s + 1) s)
  | WgDone => fun _ s => Some (set_wg (wg s - 1) s)
  | NewSignal => fun x s => if bool_decide (x = next_signal s) then Some (set_signals (signals s) (S x) s) else None
  | WgWait => fun _ s => when (wg s =? 0) s
  | Raise n => fun _ s => Some (set_signals ({[n]} ∪ signals s) (next_signal s) s)
  | Await n => fun x s => match x with Raised => when (bool_decide (n ∈ signals s)) s | _ => Some s end
  end.

(** Closing the shutdown channel again, taking the wait group below zero, a ticker whose interval is not positive. *)
Definition panics (X : Type) (c : cmd X) (s : State) : bool :=
  match c with CloseShutdown => shutdownCh s | WgDone => wg s <=? 0 | NewTicker d => d <=? 0 | _ => false end.

(** ** The client's goroutines *)

Inductive label := Caller | HealthLoop.

#[local] Notation P := (prog cmd label).
#[local] Notation next := (Goroutines.next label).

Section HTTP.
Context `{JSON}.
Variable name url : string.
Variable config : HTTPClientConfig.
Variable memoryOptimizer : bool.   (* whether the client has one *)

Definition recordError : P unit := perform (Metric inc_errors).
Definition recordSuccess (startTime : Z) : P unit :=
  now ← perform Now; perform (Metric (fun m => record_latency (time_sub now startTime) (used_at now m))).
Definition markUnhealthy : P unit := _ ← perform (Update (fun _ => StateUnhealthy)); mret tt.
Definition request_error (message : string) (cause : option goerr) : goerr := NewRequestError url "http" message cause.

(** *** Requests *)

Definition validateClientState : P (option goerr) :=
  x ← perform (Update (fun x => x));
  mret (if is_up x then None else Some (NewConnectionError url "http" "client not connected" (Some (Sentinel ErrClientNotConnected)))).

Definition ensureRequestID (q : Request) : P Request :=
  if no_id q then n ← perform NextID; mret (with_id (JString (generated_id name n)) q) else mret q.

Definition shouldUseOptimizedMarshaling : bool := memoryOptimizer && ReuseEncoders (Performance config).

(** The bytes of the body: an array and a length. *)
Definition marshalStandard (q : Request) : P (result goerr (nat * nat)) :=
  match Marshal_request q with
  | Err t => _ ← recordError; mret (Err (request_error "failed to marshal request" (Some (Foreign false t))))
  | Ok d => a ← perform (Alloc d); mret (Ok (a, String.length d))
  end.

(** The buffer goes back to the pool while the body still refers to its array. *)
Definition marshalWithOptimization (q : Request) : P (result goerr (nat * nat)) :=
  b ← perform GetBuffer;
  match Marshal_request q with
  | Err t =>
      _ ← recordError; _ ← perform (PutBuffer b);
      mret (Err (request_error "failed to encode request" (Some (Foreign false t))))
  | Ok d =>
      let line := (d +:+ String newline EmptyString)%string in
      a ← perform (FillBuffer b line); _ ← perform (PutBuffer b); mret (Ok (a, String.length line))
  end.

Definition marshalRequest (q : Request) : P (result goerr (nat * nat)) :=
  if shouldUseOptimizedMarshaling then marshalWithOptimization q else marshalStandard q.

Definition createHTTPRequest : P (option goerr) :=
  e ← perform NewRequest;
  match e with
  | Some err => _ ← recordError; mret (Some (request_error "failed to create HTTP request" (Some err)))
  | None => mret None
  end.

Definition calculateTimeout : P Z := r ← perform Remaining; mret (shorter (Timeout config) r).

Definition handleRequestError (deadline : bool) (err : goerr) (timeout : Z) : P goerr :=
  _ ← recordError;
  if deadline then mret (NewTimeoutError url "http" timeout (Some err))
  else _ ← markUnhealthy; mret (request_error "HTTP request failed" (Some err)).

Definition executeRequest (a n : nat) : P (result goerr (Z * result goerr string)) :=
  timeout ← calculateTimeout;
  x ← perform (Perform a n);
  match x with
  | DoFailed deadline err => e ← handleRequestError deadline err timeout; mret (Err e)
  | DoStatus code body => mret (Ok (code, body))
  end.

Definition validateHTTPResponse (code : Z) (body : result goerr string) : P (option goerr) :=
  if (code <? 200) || (300 <=? code) then
    _ ← recordError;
    mret (Some (request_error ("HTTP error " +:+ pretty code +:+ ": " +:+ match body with Ok d => d | Err _ => EmptyString end) None))
  else mret None.

Definition shouldUseOptimizedParsing : bool := memoryOptimizer && ReuseEncoders (Performance config).

Definition parseStandard (body : result goerr string) (startTime : Z) : P (result goerr Response) :=
  match body with
  | Err err => _ ← recordError; mret (Err (request_error "failed to read response body" (Some err)))
  | Ok d =>
      match Unmarshal_response d with
      | Err t => _ ← recordError; mret (Err (request_error "failed to unmarshal response" (Some (Foreign false t))))
      | Ok r => _ ← recordSuccess startTime; mret (Ok r)
      end
  end.

Definition parseWithOptimization (body : result goerr string) (startTime : Z) : P (result goerr Response) :=
  b ← perform GetBuffer;
  r ← (match body with
       | Err err => _ ← recordError; mret (Err (request_error "failed to read response body" (Some err)))
       | Ok d =>
           _ ← perform (FillBuffer b d);
           match Unmarshal_response d with
           | Err t => _ ← recordError; mret (Err (request_error "failed to decode response" (Some (Foreign false t))))
           | Ok r => _ ← recordSuccess startTime; mret (Ok r)
           end
       end);
  _ ← perform (PutBuffer b);
  mret r.

Definition parseResponse (body : result goerr string) (startTime : Z) : P (result goerr Response) :=
  if shouldUseOptimizedParsing then parseWithOptimization body startTime else parseStandard body startTime.

(** What follows the encoding of the body. *)
Definition exchange (a n : nat) (startTime : Z) : P (result goerr Response) :=
  e ← createHTTPRequest;
  match e with
  | Some err => mret (Err err)
  | None =>
      x ← executeRequest a n;
      match x with
      | Err err => mret (Err err)
      | Ok (code, body) =>
          v ← validateHTTPResponse code body;
          match v with Some err => mret (Err err) | None => parseResponse body startTime end
      end
  end.

(** The request with the id it got, and the outcome. *)
Definition ProcessRequest (q : Request) : P (Request * result goerr Response) :=
  startTime ← perform Now;
  v ← validateClientState;
  match v with
  | Some err => mret (q, Err err)
  | None =>
      q' ← ensureRequestID q;
      b ← marshalRequest q';
      r ← (match b with Err err => mret (Err err) | Ok (a, n) => exchange a n startTime end);
      mret (q', r)
  end.

(** *** Connecting *)

Definition ping (id : string) : Request := mkRequest "2.0" "ping" JNull (JString id).

(** Any answer is a sign of connectivity. *)
Definition testConnectivity : P (option goerr) :=
  match Marshal_request (ping "connectivity-test") with
  | Err t => mret (Some (Foreign false ("failed to marshal ping request: " +:+ t)))
  | Ok d =>
      a ← perform (Alloc d);
      e ← perform NewRequest;
      match e with
      | Some err => mret (Some (Foreign false ("failed to create HTTP request: " +:+ Error_text err)))
      | None =>
          x ← perform (Perform a (String.length d));
          match x with
          | DoFailed _ err => mret (Some (Foreign false ("HTTP request failed: " +:+ Error_text err)))
          | DoStatus _ _ => mret None
          end
      end
  end%string.

Definition connect : P (option goerr) :=
  e ← testConnectivity;
  mret (match e with Some err => Some (Foreign false ("connectivity test failed: " +:+ Error_text err)%string) | None => None end).

Definition health_loop : P unit :=
  if StdioClient.hc_Enabled (HealthCheck config) then _ ← perform WgAdd; go (_ ← perform (NewTicker (StdioClient.hc_Interval (HealthCheck config))); mret (Again HealthLoop)) else mret tt.

Definition Connect : P (option goerr) :=
  _ ← perform Lock;
  x ← perform (Held (fun x => x));
  if is_up x then
    _ ← perform Unlock;
    mret (Some (NewConnectionError url "http" "client already connected" (Some (Sentinel ErrClientAlreadyConnected))))
  else
    _ ← perform (Held (fun _ => StateConnecting));
    e ← connect;
    match e with
    | Some err =>
        _ ← perform (Held (fun _ => StateError));
        _ ← perform Unlock;
        mret (Some (NewConnectionError url "http" "failed to establish HTTP connection" (Some err)))
    | None =>
        _ ← perform (Held (fun _ => StateConnected));
        now ← perform Now;
        _ ← perform (Metric (connected now));
        _ ← health_loop;
        _ ← perform Unlock;
        mret None
    end.

(** *** Health *)

Definition unhealthy_check (message : string) (cause : goerr) : P (option goerr) :=
  now ← perform Now;
  _ ← perform (Metric (checked false now));
  mret (Some (NewHealthError url "http" message (Some cause))).

(** The ping goes the way of a request. *)
Definition Health : P (option goerr) :=
  x ← perform (Update (fun x => x));
  if negb (is_up x) then unhealthy_check "client not connected" (Sentinel ErrClientNotConnected)
  else
    e ← (if StdioClient.hc_Enabled (HealthCheck config)
         then now ← perform Now;
              r ← ProcessRequest (ping ("health-" +:+ pretty now)%string);
              mret (match snd r with Err err => Some err | Ok _ => None end)
         else mret None);
    match e with
    | Some err =>
        _ ← perform (Update (fun _ => StateUnhealthy));
        unhealthy_check "health check ping failed" err
    | None =>
        _ ← perform (Update (fun _ => StateHealthy));
        now ← perform Now;
        _ ← perform (Metric (checked true now));
        mret None
    end.

(** One round of [healthCheckLoop]. *)
Definition healthCheckLoop : P next :=
  t ← perform Tick;
  match t with
  | TickCancelled | TickShutdown => _ ← perform WgDone; mret Exit
  | Ticked => _ ← Health; mret (Again HealthLoop)
  end.

(** *** Closing *)

Definition beginClose : P bool :=
  x ← perform (Update (fun x => if is_down x then x else StateClosing));
  mret (negb (is_down x)).
Definition signalShutdown : P unit := s ← perform ShutdownSeen; if s : bool then mret tt else perform CloseShutdown.
Definition closeHTTPTransport : P unit := perform CloseIdleConnections.
Definition setFinalState : P unit := _ ← perform (Update (fun _ => StateClosed)); mret tt.
Definition waitForCompletion : P (option goerr) :=
  finished ← perform NewSignal;
  _ ← go (_ ← perform WgWait; _ ← perform (Raise finished); mret Exit);
  x ← perform (Await finished);
  match x with
  | Raised | AwaitTimeout => mret None
  | AwaitCancelled err => _ ← setFinalState; mret (Some err)
  end.
Definition finalizeClose : P unit := _ ← setFinalState; perform (Metric (healthy false)).

Definition CloseClient : P (option goerr) :=
  ok ← beginClose;
  if negb ok then mret None
  else
    _ ← signalShutdown;
    _ ← closeHTTPTransport;
    e ← waitForCompletion;
    match e with Some err => mret (Some err) | None => _ ← finalizeClose; mret None end.

(** *** All of it *)

Definition serve (c : call) : P next :=
  match c with
  | CSend q => r ← ProcessRequest q; _ ← perform (Return (fst r) (snd r)); mret Exit
  | CConnect => _ ← Connect; mret Exit
  | CClose => _ ← CloseClient; mret Exit
  | CHealth => _ ← Health; mret Exit
  end.
Definition calls : P next := c ← perform Call; _ ← go (serve c); mret (Again Caller).

(** With health checks the builder starts the loop before any connection. *)
Definition createClient : P next := _ ← health_loop; mret (Again Caller).

Definition body (l : label) : P next := match l with Caller => calls | HealthLoop => healthCheckLoop end.

(** A client that is being built, then called. *)
Definition running_client (w : world cmd State label) : Prop :=
  st w = fresh_client /\ panicked w = false /\ forall t p, tasks w !! t = Some p -> p = createClient.

(** ** The discipline

    What a goroutine owns and knows: shares of the wait group, the mutex, the contents of arrays it allocated, the
    exchanges it made (with what was posted, when it knows). *)
Record env := mkEnv { owed : Z; mu : bool; arrs : gmap nat string; swaps : list (option string * http_answer) }.
Definition nothing : env := mkEnv 0 false ∅ [].
Definition set_owed n e := mkEnv n (mu e) (arrs e) (swaps e).
Definition set_mu b e := mkEnv (owed e) b (arrs e) (swaps e).
Definition add_arr a d e := mkEnv (owed e) (mu e) (<[a := d]> (arrs e)) (swaps e).
Definition add_swap x e := mkEnv (owed e) (mu e) (arrs e) (x :: swaps e).

(** Whether buffers are pooled. *)
#[local] Notation pooled := shouldUseOptimizedMarshaling.

(** The response is what the server answered with a success status; what it answered was the request, when buffers are not pooled. *)
Definition successful (r : Response) (d : http_answer) : Prop :=
  200 <= fst d < 300 /\ exists text, snd d = Ok text /\ Unmarshal_response text = Ok r.
Definition backed (q : Request) (r : Response) (o : option string) (d : http_answer) : Prop :=
  successful r d /\ (pooled = false -> exists p, o = Some p /\ Marshal_request q = Ok p).

Definition pre (X : Type) (c : cmd X) (e : env) : Prop :=
  match c with
  | Return q (Ok r) => exists o d, (o, d) ∈ swaps e /\ backed q r o d
  | Update _ | Lock => mu e = false
  | Held _ | Unlock => mu e = true
  | FillBuffer _ _ => pooled = true
  | WgDone => 1 <= owed e
  | _ => True
  end.
Definition valid (X : Type) (c : cmd X) : X -> env -> Prop := fun _ _ => True.
Definition post (X : Type) (c : cmd X) : X -> env -> env :=
  match c in cmd X return X -> env -> env with
  | Lock => fun _ e => set_mu true e
  | Unlock => fun _ e => set_mu false e
  | Alloc d => fun x e => add_arr x d e
  | Perform a n => fun x e => match x with DoStatus code d => add_swap (str_take n <$> arrs e !! a, (code, d)) e | _ => e end
  | WgAdd => fun _ e => set_owed (owed e + 1) e
  | WgDone => fun _ e => set_owed (owed e - 1) e
  | _ => fun _ e => e
  end.
Definition split (e ec e1 : env) : Prop := exists n, 0 <= n <= owed e /\ ec = set_owed n nothing /\ e1 = set_owed (owed e - n) e.
Definition exit_ok (e : env) : Prop := owed e = 0 /\ mu e = false.
Definition shares (l : label) : Z := match l with Caller => 0 | HealthLoop => 1 end.
Definition label_env (l : label) (e e2 : env) : Prop := owed e = shares l /\ mu e = false /\ e2 = set_owed (shares l) nothing.
Definition crash (X : Type) (c : cmd X) : bool := match c with CloseShutdown | NewTicker _ => true | _ => false end.

(** ** The invariant *)

Definition real (L : Log) (x : option string * http_answer) : Prop :=
  exists p, (p, snd x) ∈ exchanges L /\ (pooled = false -> forall p', fst x = Some p' -> p = p').

Record global (s : State) : Prop := {
  g_answers q r : (q, Ok r) ∈ answers (log s) -> exists p d, (p, d) ∈ exchanges (log s) /\ backed q r (Some p) d;
  g_arrays a : (next_array s <= a)%nat -> arrays s !! a = None;
  g_bufs b a : bufs s !! b = Some a -> (a < next_array s)%nat;
}.
Record task_ok (s : State) (e : env) : Prop := {
  t_owed : 0 <= owed e;
  t_mu : mu e = true -> locked s = true;
  t_arrs : pooled = false -> arrs e ⊆ arrays s;
  t_swaps x : x ∈ swaps e -> real (log s) x;
}.
Record Inv (s : State) (es : gmap nat env) : Prop := {
  i_global : global s;
  i_task t e : es !! t = Some e -> task_ok s e;
  i_mu t t' e f : es !! t = Some e -> es !! t' = Some f -> mu e = true -> mu f = true -> t = t';
  i_wg : wg s = total_of owed es;
}.

(** Changes that goroutines do not notice. *)
Record grows (s s' : State) : Prop := {
  gr_arrays : pooled = false -> arrays s ⊆ arrays s';
  gr_exchanges x : x ∈ exchanges (log s) -> x ∈ exchanges (log s');
}.

Lemma h_real_grows s s' x : grows s s' -> real (log s) x -> real (log s') x.
Proof. intros Hg (p & Hp & Hx). exists p. split; [by apply Hg|done]. Qed.

Lemma h_task_grows s s' e : grows s s' -> (mu e = true -> locked s' = true) -> task_ok s e -> task_ok s' e.
Proof.
  intros Hg Hm Ht. split; [apply Ht|done|..].
  - intros Hp. transitivity (arrays s); [by apply Ht|by apply Hg].
  - intros x Hx. apply (h_real_grows s); [done|by apply Ht].
Qed.

Lemma h_inv_step s es t e s' e' :
  Inv s es -> es !! t = Some e -> grows s s' -> global s' -> task_ok s' e' ->
  (forall t' f, es !! t' = Some f -> t' <> t -> mu f = true -> locked s' = true /\ mu e' = false) ->
  wg s' = wg s - owed e + owed e' -> Inv s' (<[t := e']> es).
Proof.
  intros Hi He Hgr Hg Ht Hm Hn. split; [done|..|by rewrite (total_of_update owed es t e e' He), Hn, (i_wg _ _ Hi)].
  - intros u f [[<- <-]|[Hne Hu]]%lookup_insert_Some; [done|]. apply (h_task_grows s); [done| |by eapply i_task].
    intros Hf. by eapply (Hm u).
  - intros u u' f f' [[<- <-]|[H1 Hu]]%lookup_insert_Some [[<- <-]|[H2 Hu']]%lookup_insert_Some Hf Hf'; [done|..|by eapply i_mu].
    + destruct (Hm u' f' Hu' (not_eq_sym H2) Hf') as [_ Hx]. congruence.
    + destruct (Hm u f Hu (not_eq_sym H1) Hf) as [_ Hx]. congruence.
Qed.

(** A command whose goroutine keeps the mutex as it is. *)
Lemma h_inv_same_mu s es t e s' e' :
  Inv s es -> es !! t = Some e -> grows s s' -> global s' -> locked s' = locked s -> mu e' = mu e -> 
  0 <= owed e' -> (pooled = false -> arrs e' ⊆ arrays s') -> (forall x, x ∈ swaps e' -> real (log s') x) ->
  wg s' = wg s - owed e + owed e' -> Inv s' (<[t := e']> es).
Proof.
  intros Hi He Hgr Hg Hl Hm Ho Ha Hx Hn. pose proof (i_task _ _ Hi t e He) as Ht. apply (h_inv_step s es t e); try done.
  - split; try done. rewrite Hm, Hl. apply Ht.
  - intros t' f Hf Hne Hmf. rewrite Hl, Hm. split; [by apply (i_task _ _ Hi t' f)|]. destruct (mu e) eqn:E; [|done].
    by destruct (i_mu _ _ Hi t' t f e Hf He Hmf E).
Qed.

(** A command that a goroutine learns nothing from, and that leaves the log, the arrays that matter and the mutex. *)
Lemma h_inv_quiet s es t e s' :
  Inv s es -> es !! t = Some e -> log s' = log s -> (pooled = false -> arrays s ⊆ arrays s') ->
  (forall a, (next_array s' <= a)%nat -> arrays s' !! a = None) -> (forall b a, bufs s' !! b = Some a -> (a < next_array s')%nat) ->
  locked s' = locked s -> wg s' = wg s -> Inv s' (<[t := e]> es).
Proof.
  intros Hi He Hl Ha Hf Hb Hk Hw. pose proof (i_task _ _ Hi t e He) as Ht. pose proof (i_global _ _ Hi) as Hg.
  apply (h_inv_same_mu s es t e); try done; [split; rewrite ?Hl; done|split; rewrite ?Hl; [apply Hg|done|done]|apply Ht| | |lia].
  - intros Hp. transitivity (arrays s); [by apply Ht|by apply Ha].
  - rewrite Hl. apply Ht.
Qed.

(** A new array. *)
Lemma fresh_array s d : global s -> arrays s ⊆ <[next_array s := d]> (arrays s) /\ forall a, (S (next_array s) <= a)%nat -> <[next_array s := d]> (arrays s) !! a = None.
Proof.
  intros Hg. split; [apply insert_subseteq, Hg; lia|]. intros a Ha. rewrite lookup_insert_ne by lia. apply Hg. lia.
Qed.

(** The memory is the same. *)
Definition same_memory (s s' : State) : Prop := log s' = log s /\ arrays s' = arrays s /\ next_array s' = next_array s /\ bufs s' = bufs s.

Lemma h_inv_same s es t e s' :
  Inv s es -> es !! t = Some e -> same_memory s s' -> locked s' = locked s -> wg s' = wg s -> Inv s' (<[t := e]> es).
Proof.
  intros Hi He (H1 & H2 & H3 & H4) Hk Hw. pose proof (i_global _ _ Hi) as Hg.
  apply (h_inv_quiet s es t e); rewrite ?H2, ?H3, ?H4; try done; apply Hg.
Qed.

Lemma h_inv_mutex s es t e b :
  Inv s es -> es !! t = Some e -> (b = true -> locked s = false) -> (b = false -> mu e = true) -> Inv (set_locked b s) (<[t := set_mu b e]> es).
Proof.
  intros Hi He Hl Hm. pose proof (i_task _ _ Hi t e He) as Ht. destruct (i_global _ _ Hi).
  apply (h_inv_step s es t e); try done; [by destruct Ht; split| |cbn; lia].
  intros t' f Hf Hne Hmf. pose proof (t_mu _ _ (i_task _ _ Hi t' f Hf) Hmf). destruct b; [by rewrite (Hl eq_refl) in *|].
  by destruct (i_mu _ _ Hi t' t f e Hf He Hmf (Hm eq_refl)).
Qed.

Lemma h_inv_owed s es t e n : Inv s es -> es !! t = Some e -> 0 <= owed e + n -> Inv (set_wg (wg s + n) s) (<[t := set_owed (owed e + n) e]> es).
Proof.
  intros Hi He Hn. pose proof (i_task _ _ Hi t e He) as Ht. destruct (i_global _ _ Hi).
  apply (h_inv_same_mu s es t e); try done; [apply Ht|apply Ht|cbn; lia].
Qed.

Lemma h_inv_log s es t e e' L :
  Inv s es -> es !! t = Some e -> (forall x, x ∈ exchanges (log s) -> x ∈ exchanges L) -> global (set_log L s) ->
  (forall x, x ∈ swaps e' -> real L x) -> mu e' = mu e -> owed e' = owed e -> arrs e' = arrs e -> Inv (set_log L s) (<[t := e']> es).
Proof.
  intros Hi He Hx Hg Hs Hm Ho Ha. pose proof (i_task _ _ Hi t e He) as Ht.
  apply (h_inv_same_mu s es t e); try done; [rewrite Ho; apply Ht|rewrite Ha; apply Ht|cbn; lia].
Qed.

Lemma h_inv_Return s es t e q r : Inv s es -> es !! t = Some e -> pre _ (Return q r) e -> Inv (set_log (answered q r (log s)) s) (<[t := e]> es).
Proof.
  intros Hi He Hp. pose proof (i_task _ _ Hi t e He) as Ht. destruct (i_global _ _ Hi) as [Ga Gr Gb].
  apply (h_inv_log s es t e); try done; [split; try done|apply Ht].
  intros q' r' [Ha|[= -> <-]%list_elem_of_singleton]%elem_of_app; [by apply Ga|].
  destruct Hp as (o & d & Hin & Hu & Hb). destruct (t_swaps _ _ Ht _ Hin) as (p & Hx & Hpo). exists p, d. split; [done|]. split; [done|].
  intros Hn. destruct (Hb Hn) as (p' & -> & Hm). exists p. split; [done|]. by rewrite (Hpo Hn p' eq_refl).
Qed.

Lemma h_inv_Perform s es t e a n d :
  Inv s es -> es !! t = Some e ->
  Inv (set_log (exchanged (text_at s a n) d (log s)) s) (<[t := add_swap (str_take n <$> arrs e !! a, d) e]> es).
Proof.
  intros Hi He. pose proof (i_task _ _ Hi t e He) as Ht. destruct (i_global _ _ Hi) as [Ga Gr Gb].
  assert (forall x, x ∈ exchanges (log s) -> x ∈ exchanges (exchanged (text_at s a n) d (log s))) as Hx by (intros x Hx; apply elem_of_app; by left).
  apply (h_inv_log s es t e); try done.
  - split; [|done|done]. intros q r Ha. destruct (Ga q r Ha) as (p & d' & Hp & Hb). exists p, d'. split; [by apply Hx|done].
  - intros x [->|Hin]%elem_of_cons.
    + exists (text_at s a n). split; [apply elem_of_app; right; left|]. intros Hp p'. cbn. intros (d' & Hd & ->)%fmap_Some.
      unfold text_at. by rewrite (lookup_weaken _ _ _ _ Hd (t_arrs _ _ Ht Hp)).
    + destruct (t_swaps _ _ Ht _ Hin) as (p & Hp & Hpo). exists p. split; [by apply Hx|done].
Qed.

Lemma h_inv_Alloc s es t e d :
  Inv s es -> es !! t = Some e ->
  Inv (set_memory (<[next_array s := d]> (arrays s)) (S (next_array s)) (bufs s) (next_buf s) (pool s) s) (<[t := add_arr (next_array s) d e]> es).
Proof.
  intros Hi He. pose proof (i_task _ _ Hi t e He) as Ht. pose proof (i_global _ _ Hi) as Hg. destruct (fresh_array s d Hg) as [Hsub Hfr].
  apply (h_inv_same_mu s es t e); try done; [|apply Ht| |apply Ht|cbn; lia].
  - split; [apply Hg|done|]. cbn. intros b a Hb. pose proof (g_bufs _ Hg b a Hb). lia.
  - intros Hp. cbn. apply insert_mono. by apply Ht.
Qed.

Lemma h_inv_GetBuffer s es t e x s' : Inv s es -> es !! t = Some e -> exec _ GetBuffer x s = Some s' -> Inv s' (<[t := e]> es).
Proof.
  intros Hi He Hx. cbn in Hx. pose proof (i_global _ _ Hi) as Hg. case_bool_decide; [injection Hx as <-; by apply (h_inv_same s es t e)|].
  case_bool_decide; [|done]. injection Hx as <-. destruct (fresh_array s EmptyString Hg) as [Hsub Hfr]. apply (h_inv_quiet s es t e); try done.
  cbn. intros b a [[_ <-]|[_ Hb]]%lookup_insert_Some; [lia|]. pose proof (g_bufs _ Hg b a Hb). lia.
Qed.

Lemma h_inv_FillBuffer s es t e b d x s' :
  Inv s es -> es !! t = Some e -> pooled = true -> exec _ (FillBuffer b d) x s = Some s' -> Inv s' (<[t := e]> es).
Proof.
  intros Hi He Hp Hx. cbn in Hx. pose proof (i_global _ _ Hi) as Hg. destruct (bufs s !! b) as [a|] eqn:Eb; [|done]. pose proof (g_bufs _ Hg b a Eb) as Ha.
  destruct (fits _ _); case_bool_decide; try done; injection Hx as <-; apply (h_inv_quiet s es t e); try done; try congruence; cbn.
  - intros a' Ha'. rewrite lookup_insert_ne by lia. by apply Hg.
  - apply Hg.
  - subst x. by apply fresh_array.
  - subst x. intros b' a' [[_ <-]|[_ Hb]]%lookup_insert_Some; [lia|]. pose proof (g_bufs _ Hg _ _ Hb). lia.
Qed.

Lemma h_exec_rule s es t e X (c : cmd X) x s' :
  Inv s es -> es !! t = Some e -> pre X c e -> panics X c s = false -> exec X c x s = Some s' -> valid X c x e /\ Inv s' (<[t := post X c x e]> es).
Proof.
  intros Hi He Hp _ Hx. split; [done|]. destruct c; cbn [post];
    try solve [cbn [exec] in *; first [injection Hx as <-|apply when_Some in Hx as [_ ->]]; by apply (h_inv_same s es t e)].
  - injection Hx as <-. by apply h_inv_Return.
  - cbn in Hx. destruct (locked s) eqn:El; [done|]. injection Hx as <-. by apply (h_inv_mutex s es t e true).
  - injection Hx as <-. by apply (h_inv_mutex s es t e false).
  - cbn in Hx. case_bool_decide; [|done]. injection Hx as <-. subst x. by apply h_inv_Alloc.
  - by apply (h_inv_GetBuffer s es t e x).
  - by apply (h_inv_FillBuffer s es t e b d x).
  - cbn in Hx. destruct x as [|code d]; injection Hx as <-; [by apply (h_inv_same s es t e)|]. by apply h_inv_Perform.
  - cbn in Hx. destruct x; [injection Hx as <-|apply when_Some in Hx as [_ ->]|injection Hx as <-]; by apply (h_inv_same s es t e).
  - injection Hx as <-. apply h_inv_owed; [done|done|]. pose proof (t_owed _ _ (i_task _ _ Hi t e He)). lia.
  - injection Hx as <-. cbn in Hp. apply (h_inv_owed s es t e (-1)); [done|done|lia].
  - cbn in Hx. destruct x; [apply when_Some in Hx as [_ ->]|injection Hx as <-|injection Hx as <-]; by apply (h_inv_same s es t e).
Qed.

Lemma h_inv_exit s es t e : Inv s es -> es !! t = Some e -> exit_ok e -> Inv s (delete t es).
Proof.
  intros Hi He (Ho & _). split; [apply Hi|..].
  - intros u f [_ Hu]%lookup_delete_Some. by eapply i_task.
  - intros u u' f f' [_ Hu]%lookup_delete_Some [_ Hu']%lookup_delete_Some. by eapply i_mu.
  - rewrite (i_wg _ _ Hi), (total_of_delete owed es t e He), Ho. lia.
Qed.

Lemma h_shares_ok s n : 0 <= n -> task_ok s (set_owed n nothing).
Proof. intros Hn. split; cbn; try done; [intros _; apply map_empty_subseteq|intros x Hx; by apply not_elem_of_nil in Hx]. Qed.

Lemma h_inv_again s es t e l e2 : Inv s es -> es !! t = Some e -> label_env l e e2 -> Inv s (<[t := e2]> es).
Proof.
  intros Hi He (Ho & Hm & ->). pose proof (t_owed _ _ (i_task _ _ Hi t e He)) as Hp.
  apply (h_inv_step s es t e); try done; [apply Hi|apply h_shares_ok; lia| |cbn; lia].
  intros t' f Hf _ Hmf. split; [by apply (i_task _ _ Hi t' f)|done].
Qed.

Lemma h_inv_start s es t e t' ec e1 :
  Inv s es -> es !! t = Some e -> es !! t' = None -> split e ec e1 -> Inv s (<[t' := ec]> (<[t := e1]> es)).
Proof.
  intros Hi He Hn (n & Hle & -> & ->). pose proof (i_task _ _ Hi t e He) as Ht. assert (t' <> t) as Hne by congruence. split; [apply Hi|..].
  - intros u f [[<- <-]|[_ [[<- <-]|[_ Hu]]%lookup_insert_Some]]%lookup_insert_Some; [apply h_shares_ok; lia| |by eapply i_task].
    destruct Ht. split; try done. cbn. lia.
  - assert (forall u f, es !! u = Some f -> t <> u -> mu f = true -> mu e = true -> False) as Hc.
    { intros u f Hu Hu' Hf Hm. by destruct (i_mu _ _ Hi t u e f He Hu Hm Hf). }
    intros u u' f f' [[<- <-]|[H1 [[<- <-]|[H3 Hu]]%lookup_insert_Some]]%lookup_insert_Some
      [[<- <-]|[H2 [[<- <-]|[H4 Hu']]%lookup_insert_Some]]%lookup_insert_Some Hf Hf'; try done; try (by cbn in *).
    + exfalso. by eapply (Hc u').
    + exfalso. by eapply (Hc u).
    + by eapply (i_mu _ _ Hi u u').
  - rewrite total_of_insert by (rewrite lookup_insert_ne; done). rewrite (total_of_update owed es t e _ He), (i_wg _ _ Hi). cbn. lia.
Qed.

Lemma h_no_panic s es t e X (c : cmd X) : Inv s es -> es !! t = Some e -> pre X c e -> panics X c s = true -> crash X c = true.
Proof.
  intros Hi He Hp. destruct c; try done. cbn in *. rewrite (i_wg _ _ Hi), (total_of_delete owed es t e He). intros Hw.
  assert (0 <= total_of owed (delete t es)); [|lia]. apply total_of_nonneg. intros u f [_ Hu]%lookup_delete_Some. by apply (t_owed s), (i_task _ _ Hi u).
Qed.

(** ** Typing

    [stands b n e]: between the commands of a program that holds the mutex when [b], and [n] shares. *)
Record stands (b : bool) (n : Z) (e : env) : Prop := { st_mu : mu e = b; st_owed : owed e = n }.

#[local] Notation WP p e Q := (wp pre valid post split exit_ok label_env p e Q).
#[local] Notation OK p e := (goroutine_ok pre valid post split exit_ok label_env p e).

(** Commands that change nothing of what a goroutine has. *)
Definition plain {X} (c : cmd X) (b : bool) : bool :=
  match c with
  | Call | Now | Metric _ | NextID | Alloc _ | GetBuffer | PutBuffer _ | NewRequest | Remaining | Perform _ _ | CloseIdleConnections | Tick | NewTicker _ | ShutdownSeen
  | CloseShutdown | NewSignal | WgWait | Raise _ | Await _ => true
  | Update _ => negb b
  | Held _ => b
  | FillBuffer _ _ => pooled
  | _ => false
  end.

Lemma h_plain {X} (c : cmd X) b n e Q : stands b n e -> plain c b = true -> (forall x e', stands b n e' -> Q x e') -> WP (perform c) e Q.
Proof.
  intros [H1 H2] Hp Hk. apply wp_perform; [destruct c; try done; by destruct b|]. intros x _. apply Hk. split; rewrite <- ?H1, <- ?H2; destruct c; try done; by destruct x.
Qed.

(** Commands of which nothing needs to be known. *)
Lemma h_quiet {X} (c : cmd X) e Q :
  match c with Call | Now | Metric _ | NextID | GetBuffer | PutBuffer _ | NewRequest | Remaining => True | _ => False end -> (forall x, Q x e) -> WP (perform c) e Q.
Proof. intros Hp Hk. apply wp_perform; [by destruct c|]. intros x _. specialize (Hk x). by destruct c. Qed.

Lemma h_Lock n e Q : stands false n e -> (forall e', stands true n e' -> Q tt e') -> WP (perform Lock) e Q.
Proof. intros [H1 H2] Hk. apply wp_perform; [done|]. intros [] _. by apply Hk. Qed.
Lemma h_Unlock n e Q : stands true n e -> (forall e', stands false n e' -> Q tt e') -> WP (perform Unlock) e Q.
Proof. intros [H1 H2] Hk. apply wp_perform; [done|]. intros [] _. by apply Hk. Qed.
Lemma h_WgAdd b n e Q : stands b n e -> (forall e', stands b (n + 1) e' -> Q tt e') -> WP (perform WgAdd) e Q.
Proof. intros [H1 H2] Hk. apply wp_perform; [done|]. intros [] _. apply Hk. split; cbn; congruence. Qed.
Lemma h_WgDone n e Q : stands false n e -> 1 <= n -> (forall e', stands false (n - 1) e' -> Q tt e') -> WP (perform WgDone) e Q.
Proof. intros [H1 H2] Hn Hk. apply wp_perform; [cbn; lia|]. intros [] _. apply Hk. split; cbn; congruence. Qed.
Lemma h_go ch b n m e Q : stands b n e -> 0 <= m <= n -> OK ch (set_owed m nothing) -> (forall e', stands b (n - m) e' -> Q tt e') -> WP (go ch) e Q.
Proof.
  intros [H1 H2] Hm Hc Hk. apply wp_go with (ec := set_owed m nothing) (e1 := set_owed (owed e - m) e); [|done|].
  - exists m. split_and!; [lia|lia|done|done].
  - apply Hk. split; cbn; congruence.
Qed.

Lemma h_exit e : stands false 0 e -> exit_ok e.
Proof. by intros [H1 H2]. Qed.
Lemma h_again l e : stands false (shares l) e -> exists e2, label_env l e e2.
Proof. intros [H1 H2]. by eexists. Qed.

End HTTP.

Ltac h_step :=
  cbn [negb]; cbn beta iota; cbn beta in * |-;
  lazymatch goal with
  | |- wp _ _ _ _ _ _ (mret _) _ _ => apply wp_ret
  | |- wp _ _ _ _ _ _ (mbind _ _) _ _ => apply wp_bind
  | |- wp _ _ _ _ _ _ (perform Lock) _ _ => eapply h_Lock; [eassumption|intros ? ?]
  | |- wp _ _ _ _ _ _ (perform Unlock) _ _ => eapply h_Unlock; [eassumption|intros ? ?]
  | |- wp _ _ _ _ _ _ (perform WgAdd) _ _ => eapply h_WgAdd; [eassumption|intros ? ?]
  | |- wp _ _ _ _ _ _ (perform WgDone) _ _ => eapply h_WgDone; [eassumption|lia|intros ? ?]
  | |- wp _ _ _ _ _ _ (perform _) _ _ => eapply h_plain; [eassumption|first [reflexivity|assumption]|intros ? ? ?]
  | |- wp _ _ _ _ _ _ (match ?x with _ => _ end) _ _ => let E := fresh "E" in destruct x eqn:E
  end.
Ltac h_walk := repeat h_step.
Ltac h_ends := cbn beta iota; first [by apply h_exit|by apply h_again].
(** Through commands of which nothing needs to be known. *)
Ltac h_still :=
  repeat (cbn beta iota; lazymatch goal with
  | |- wp _ _ _ _ _ _ (mret _) _ _ => apply wp_ret
  | |- wp _ _ _ _ _ _ (mbind _ _) _ _ => apply wp_bind
  | |- wp _ _ _ _ _ _ (perform _) _ _ => apply h_quiet; [exact I|intros ?]
  | |- wp _ _ _ _ _ _ (match ?x with _ => _ end) _ _ => let E := fresh "E" in destruct x eqn:E
  end).

Lemma str_take_all s : str_take (String.length s) s = s.
Proof. induction s as [|a s IH]; [done|]. cbn. by rewrite IH. Qed.

Section Programs.
Context `{JSON}.
Variable name url : string.
Variable config : HTTPClientConfig.
Variable memoryOptimizer : bool.

#[local] Notation Pre := (pre config memoryOptimizer).
#[local] Notation WP p e Q := (wp Pre valid post split exit_ok label_env p e Q).
#[local] Notation OK p e := (goroutine_ok Pre valid post split exit_ok label_env p e).
#[local] Notation pooled := (shouldUseOptimizedMarshaling config memoryOptimizer).
#[local] Notation backed := (backed config memoryOptimizer).

(** An outcome and what backs it. *)
Definition known (q : Request) (r : result goerr Response) (e : env) : Prop := forall a, r = Ok a -> exists o d, (o, d) ∈ swaps e /\ backed q a o d.

Lemma hd_FillBuffer b d e Q : pooled = true -> (forall x, Q x e) -> WP (perform (FillBuffer b d)) e Q.
Proof. intros Hp Hk. by apply wp_perform. Qed.

Lemma hd_parseResponse b s e (Q : _ -> env -> Prop) :
  (forall r, (forall a, r = Ok a -> exists d, b = Ok d /\ Unmarshal_response d = Ok a) -> Q r e) -> WP (parseResponse url config memoryOptimizer b s) e Q.
Proof.
  intros Hk. unfold parseResponse, parseWithOptimization, parseStandard, recordError, recordSuccess. h_still.
  - apply hd_FillBuffer; [done|]. intros ?. h_still; apply Hk; naive_solver.
  - apply Hk. naive_solver.
  - apply Hk. naive_solver.
  - apply Hk. naive_solver.
  - apply Hk. naive_solver.
Qed.

#[local] Ltac err := split; [match goal with H : stands _ _ _ |- _ => by destruct H end|unfold known; intros ? ?; congruence].

Lemma hd_exchange q a n s N e :
  stands false N e -> (pooled = false -> exists p, arrs e !! a = Some p /\ n = String.length p /\ Marshal_request q = Ok p) ->
  WP (exchange url config memoryOptimizer a n s) e (fun r e' => stands false N e' /\ known q r e').
Proof.
  intros He Hq. unfold exchange, createHTTPRequest, executeRequest, calculateTimeout, recordError. h_still; [err|].
  apply wp_perform; [done|]. intros res _. destruct res as [late err|code b]; cbn [post].
  - unfold handleRequestError, recordError, markUnhealthy. h_walk; err.
  - h_walk. unfold validateHTTPResponse, recordError. h_still; [err|]. apply hd_parseResponse. intros r Hr.
    split; [by destruct He|]. intros y Hy. destruct (Hr y Hy) as (d & -> & Hu). eexists _, (code, Ok d). split; [left|].
    split; [split; [cbn; lia|by exists d]|].
    intros Hp. destruct (Hq Hp) as (p & Ha & -> & Hm). exists p. by rewrite Ha, <- Hm; cbn; rewrite str_take_all.
Qed.

Lemma hd_ProcessRequest q N e :
  stands false N e -> WP (ProcessRequest name url config memoryOptimizer q) e (fun r e' => stands false N e' /\ known (fst r) (snd r) e').
Proof.
  intros He. unfold ProcessRequest, validateClientState. h_step. apply h_quiet; [done|]. intros s. do 2 apply wp_bind.
  eapply h_plain; [eassumption|reflexivity|]. intros x e1 He1. h_step. destruct (is_up x); [|h_step; cbn [fst snd]; err]. h_step.
  eapply wp_mono with (Q := fun _ e' => stands false N e'); [unfold ensureRequestID; h_walk; done|]. intros q' e2 He2. h_step.
  eapply wp_mono with (Q := fun b e' => stands false N e' /\ forall a n, b = Ok (a, n) -> pooled = false ->
    exists p, arrs e' !! a = Some p /\ n = String.length p /\ Marshal_request q' = Ok p).
  - unfold marshalRequest, marshalStandard, marshalWithOptimization, recordError. destruct pooled eqn:Ep; [h_walk; done|].
    destruct (Marshal_request q') as [d|t] eqn:Em; h_step; [|h_walk; done]. apply wp_perform; [done|]. intros a _. h_step.
    split; [by destruct He2|]. intros a' n [= <- <-] _. exists d. cbn. by rewrite lookup_insert_eq.
  - intros b e3 [He3 Hb]. h_step. eapply wp_mono with (Q := fun r e' => stands false N e' /\ known q' r e'); [|intros r e4 He4; by h_step].
    destruct b as [[a n]|e0]; [|err]. apply hd_exchange; [done|]. by apply Hb.
Qed.

Lemma hd_ticking d : OK (_ ← perform (NewTicker d); mret (Again HealthLoop)) (set_owed 1 nothing).
Proof. assert (stands false 1 (set_owed 1 nothing)) as He by done. unfold goroutine_ok. h_walk. h_ends. Qed.

Lemma hd_health_loop b n e : 0 <= n -> stands b n e -> WP (health_loop config) e (fun _ e' => stands b n e').
Proof.
  intros Hn He. unfold health_loop. h_walk; [|done]. eapply h_go with (m := 1); [eassumption|lia|apply hd_ticking|].
  intros e2 He2. by replace (n + 1 - 1) with n in He2 by lia.
Qed.

Lemma hd_testConnectivity b n e : stands b n e -> WP testConnectivity e (fun _ e' => stands b n e').
Proof. intros He. unfold testConnectivity. h_walk; done. Qed.

Lemma hd_Connect e : stands false 0 e -> WP (Connect url config) e (fun _ e' => stands false 0 e').
Proof.
  intros He. unfold Connect, connect. do 5 h_step; [h_walk; done|]. do 4 h_step.
  eapply wp_mono; [by apply (hd_testConnectivity true 0)|]. intros r e3 He3. h_walk; try done.
  eapply wp_mono; [by apply (hd_health_loop true 0)|]. intros ? e4 He4. h_walk. done.
Qed.

Lemma hd_Health n e : stands false n e -> WP (Health name url config memoryOptimizer) e (fun _ e' => stands false n e').
Proof.
  intros He. unfold Health, unhealthy_check. do 3 h_step; [h_walk; done|]. h_step.
  eapply wp_mono with (Q := fun _ e' => stands false n e'); [|intros r e2 He2; h_walk; done].
  h_step; [|by h_walk]. do 3 h_step. eapply wp_mono; [by apply hd_ProcessRequest|]. intros r e3 [He3 _]. by h_walk.
Qed.

Lemma hd_healthCheckLoop : OK (healthCheckLoop name url config memoryOptimizer) (set_owed 1 nothing).
Proof.
  assert (stands false 1 (set_owed 1 nothing)) as He by done. unfold healthCheckLoop, goroutine_ok. do 3 h_step; [|h_walk; h_ends..].
  h_step. eapply wp_mono; [by apply hd_Health|]. intros r e1 He1. h_step. h_ends.
Qed.

Lemma hd_CloseClient e : stands false 0 e -> WP CloseClient e (fun _ e' => stands false 0 e').
Proof.
  assert (stands false 0 (set_owed 0 nothing)) as Hn by done. intros He. unfold CloseClient, beginClose, signalShutdown, closeHTTPTransport, waitForCompletion, finalizeClose, setFinalState. h_walk; try done;
    (eapply h_go with (m := 0); [eassumption|lia|unfold goroutine_ok; h_walk; h_ends|]; intros e4 He4; h_walk; done).
Qed.

Lemma hd_calls : OK (calls name url config memoryOptimizer) nothing.
Proof.
  assert (stands false 0 nothing) as He by done. unfold calls, goroutine_ok. do 3 h_step.
  eapply h_go with (m := 0); [eassumption|lia| |intros e1 He1; h_walk; h_ends]. unfold goroutine_ok. destruct x as [q| | |]; cbn [serve]; h_step.
  - eapply wp_mono; [by apply hd_ProcessRequest|]. intros [q' r] e1 [He1 Hr]. h_step. apply wp_perform; [|intros ? _; cbn [post]; h_step; h_ends].
    destruct r as [a|]; [|done]. by apply Hr.
  - eapply wp_mono; [by apply hd_Connect|]. intros ? e1 He1. h_walk. h_ends.
  - eapply wp_mono; [by apply hd_CloseClient|]. intros ? e1 He1. h_walk. h_ends.
  - eapply wp_mono; [by apply hd_Health|]. intros ? e1 He1. h_walk. h_ends.
Qed.

Lemma hd_createClient : OK (createClient config) nothing.
Proof.
  assert (stands false 0 nothing) as He by done. unfold createClient, goroutine_ok. h_step.
  eapply wp_mono; [by apply (hd_health_loop false 0)|]. intros ? e1 He1. h_walk. h_ends.
Qed.

#[local] Notation http_reachable w0 w := (reachable exec panics (body name url config memoryOptimizer) (fun _ _ => False) w0 w).
#[local] Notation running := (running_client config).

Lemma hd_typed w0 w : running w0 -> http_reachable w0 w -> typed panics (Inv config memoryOptimizer) Pre valid post split exit_ok label_env crash w.
Proof.
  intros (Hs & Hp & Ht) Hr. eapply sound; [| |exact Hr].
  - split.
    + intros s es t e X c. apply h_no_panic.
    + intros s es t e X c x s'. apply h_exec_rule.
    + intros s es t e. apply h_inv_exit.
    + intros s es t e l e2. apply h_inv_again.
    + intros s es t e t' ec e1. apply h_inv_start.
    + done.
    + intros [] e e2 (_ & _ & ->); [apply hd_calls|apply hd_healthCheckLoop].
  - destruct w0 as [s ts pn]. cbn in *. subst. split; [done|]. exists (const nothing <$> ts). split_and!.
    + split; [split; [intros q r Hq; by apply not_elem_of_nil in Hq|done..]|..].
      * intros t e (p & <- & _)%lookup_fmap_Some. by apply h_shares_ok.
      * by intros t t' e f (p & <- & _)%lookup_fmap_Some.
      * cbn. rewrite total_of_zero; [done|]. by intros t e (p & <- & _)%lookup_fmap_Some.
    + cbn. by rewrite dom_fmap_L.
    + cbn. intros t p e Hp (q & <- & _)%lookup_fmap_Some. rewrite (Ht t p Hp). apply hd_createClient.
Qed.

(** ** Every interleaving *)

(** C11: Whatever the interleaving of calls, health checks and shutdowns, a call of the HTTP client that returns a response
    returns what the server answered, with a status from 200 to 299, to a request that the client posted (the log has
    every answer that came back, with its status); when buffers are not pooled, that request was the caller's. *)
Theorem http_client_answers w0 w q r :
  running w0 -> http_reachable w0 w -> (q, Ok r) ∈ answers (log (st w)) ->
  exists p code d, (p, (code, Ok d)) ∈ exchanges (log (st w)) /\ 200 <= code < 300 /\ Unmarshal_response d = Ok r /\
    (pooled = false -> Marshal_request q = Ok p).
Proof.
  intros H0 Hr Ha. destruct (hd_typed _ _ H0 Hr) as (_ & es & Hi & _). destruct (g_answers _ _ _ (i_global _ _ _ _ Hi) q r Ha) as (p & [code b] & Hp & [Hc (d & Ed & Hu)] & Hb).
  cbn in Hc, Ed. subst b. exists p, code, d. split_and!; [done|lia|lia|done|]. intros Hn. by destruct (Hb Hn) as (? & [= <-] & Hm).
Qed.

(** Whatever the interleaving, only a shutdown channel that is closed twice, or health checks whose interval is not positive, stop the router. *)
Lemma http_client_panics_only_closing w0 w :
  running w0 -> http_reachable w0 w -> panicked w = true ->
  exists t, (exists k, tasks w !! t = Some (Do CloseShutdown k) /\ shutdownCh (st w) = true) \/ (exists d k, tasks w !! t = Some (Do (NewTicker d) k) /\ d <= 0).
Proof.
  intros H0 Hr Hp. destruct (hd_typed _ _ H0 Hr) as (Hc & _). destruct (Hc Hp) as (t & X & c & k & Ht & Hpn & Hcr). exists t. destruct c; try done; [right; exists d, k; cbn in Hpn; split; [done|lia]|left; by exists k].
Qed.

End Programs.

(** ** Runs *)

#[local] Existing Instance Codec.codec.

Record script := mkScript { a_call : call; a_body : result goerr string; a_fail : bool }.

(** What a command brings in a run: a buffer from the pool when there is one. *)
Definition answer (a : script) (s : State) (X : Type) (c : cmd X) : X :=
  match c in cmd X return X with
  | Call => a_call a
  | Now => 0
  | Update _ | Held _ => state s
  | NextID => u64_add (requestID s) 1
  | Alloc _ => next_array s
  | GetBuffer => match elements (pool s) with b :: _ => b | [] => next_buf s end
  | FillBuffer b d =>
      match bufs s !! b with Some x => if fits d (default EmptyString (arrays s !! x)) then x else next_array s | None => 0%nat end
  | NewRequest => None
  | Remaining => None
  | Perform _ _ => if a_fail a then DoFailed false (Foreign false "failed") else DoStatus 200 (a_body a)
  | Tick => Ticked
  | ShutdownSeen => shutdownCh s
  | NewSignal => next_signal s
  | Await n => if bool_decide (n ∈ signals s) then Raised else AwaitTimeout
  | Return _ _ | Lock | Unlock | Metric _ | PutBuffer _ | CloseIdleConnections | NewTicker _ | CloseShutdown | WgAdd | WgDone | WgWait | Raise _ => tt
  end.

Definition moves (n t : nat) (a : script) : list (nat * (State -> forall X, cmd X -> X)) := replicate n (t, answer a).

Definition sample_config : HTTPClientConfig :=
  applyDefaults (mkConfig "http://server" "" ∅ 0 (mkTransport 0 0 0 false false 0 "") (StdioClient.mkHealthCheck false 0 0) (mkPerformance false 0 false 0 false false 0)).
Definition sample_start : world cmd State label := {| st := fresh_client; tasks := {[0%nat := createClient sample_config]}; panicked := false |}.
(** [o]: with a memory optimizer. *)
Definition play (o : bool) (sched : list (nat * (State -> forall X, cmd X -> X))) : option (world cmd State label) :=
  run exec panics (body "remote" "http://server" sample_config o) sched sample_start.
Definition final {A} (f : world cmd State label -> A) (o : bool) (sched : list (nat * (State -> forall X, cmd X -> X))) : option A := f <$> play o sched.

Lemma hd_play_reachable o sched w :
  play o sched = Some w -> reachable exec panics (body "remote" "http://server" sample_config o) (fun _ _ => False) sample_start w.
Proof. apply run_reachable, reach_init. Qed.

Lemma hd_final_played {A} (f : world cmd State label -> A) o sched a : final f o sched = Some a -> exists w, play o sched = Some w /\ f w = a.
Proof. unfold final. destruct (play o sched) as [w|]; [|done]. intros [= <-]. by exists w. Qed.

Lemma hd_sample_running : running_client sample_config sample_start.
Proof.
  split_and!; [done|done|]. intros t p Hp. change (({[0%nat := createClient sample_config]} : gmap nat _) !! t = Some p) in Hp.
  by apply lookup_singleton_Some in Hp as [_ <-].
Qed.

Definition ask (method : string) (id : jvalue) : Request := mkRequest "2.0" method JNull id.
Definition reply (id : jvalue) : Response := mkResponse "2.0" (JString "tools") None id.
Definition sent (id : jvalue) : result goerr string := match Marshal_response (reply id) with Ok d => Ok d | Err _ => Err (Foreign false "") end.
Definition on (c : call) (id : jvalue) : script := mkScript c (sent id) false.

(** The goroutines: 0 the callers, then one for each call. *)
Definition calling (t : nat) (c : call) (n : nat) := moves 3 0 (on c (JString "a")) ++ moves n t (on c (JString "a")).
Definition connecting := calling 1 CConnect 11.
Definition exchanging (id : jvalue) := connecting ++ calling 1 (CSend (ask "tools/list" id)) 10.

Example http_exchange_answered :
  final (fun w => (answers (log (st w)), panicked w)) false (exchanging (JString "a")) = Some ([(ask "tools/list" (JString "a"), Ok (reply (JString "a")))], false).
Proof. vm_compute. reflexivity. Qed.

(** The answer's id is not compared with the request's. *)
Example http_foreign_id_accepted :
  final (fun w => answers (log (st w))) false (exchanging (JString "b")) = Some [(ask "tools/list" (JString "b"), Ok (reply (JString "a")))].
Proof. vm_compute. reflexivity. Qed.

(** Two requests of a client with an optimizer: the first gives its buffer back, the second takes it and is encoded over the first
    before that is sent, and both post the second. *)
Definition crossed :=
  connecting ++ calling 1 (CSend (ask "tools/list" (JString "a"))) 5 ++ calling 2 (CSend (ask "tools/call" (JString "b"))) 5 ++
  moves 3 1 (on CHealth (JString "a")) ++ moves 3 2 (on CHealth (JString "a")).
Example http_crossed_bodies : exists d, Marshal_request (ask "tools/call" (JString "b")) = Ok d /\
  final (fun w => map fst (drop 1 (exchanges (log (st w))))) true crossed =
    Some [(d +:+ String newline EmptyString)%string; (d +:+ String newline EmptyString)%string].
Proof. eexists. split; [reflexivity|]. vm_compute. reflexivity. Qed.

(** A request that fails makes the client unhealthy; then requests are refused and health checks fail without trying. *)
Definition broken := connecting ++ moves 3 0 (on (CSend (ask "a" (JString "a"))) (JString "a")) ++ moves 10 1 (mkScript CHealth (sent (JString "a")) true) ++
  calling 1 (CSend (ask "b" (JString "b"))) 4 ++ calling 1 CHealth 4.
Example http_unhealthy_stays :
  final (fun w => (state (st w), map (fun x => is_ok (snd x)) (answers (log (st w))))) false broken = Some (StateUnhealthy, [false; false]).
Proof. vm_compute. reflexivity. Qed.

(** *** Witnesses *)

Lemma http_client_answers_witness :
  exists w, play false (exchanging (JString "a")) = Some w /\
    exists p code d, (p, (code, Ok d)) ∈ exchanges (log (st w)) /\ 200 <= code < 300 /\ Unmarshal_response d = Ok (reply (JString "a")) /\
      (shouldUseOptimizedMarshaling sample_config false = false -> Marshal_request (ask "tools/list" (JString "a")) = Ok p).
Proof.
  destruct (hd_final_played (fun w => answers (log (st w))) false (exchanging (JString "a")) [(ask "tools/list" (JString "a"), Ok (reply (JString "a")))])
    as (w & E & Ha); [vm_compute; reflexivity|]. exists w. split; [exact E|].
  apply (http_client_answers "remote" "http://server" sample_config false sample_start w (ask "tools/list" (JString "a")) (reply (JString "a"))
           hd_sample_running (hd_play_reachable _ _ _ E)). rewrite Ha. left.
Defined.

End HTTPClient.
