(* ===== verification/DirectConfig.v ===== *)
(** * Configuration of the direct manager

    [services/router/internal/direct/manager.go], manager_builder.go and connection_pool.go: the settings for direct
    connections, their defaults, and the configurations that the manager makes of them for the clients of the four
    protocols ([DirectStdio], [DirectWs], [DirectHttp], [DirectSse]), whose builders then validate them.  The settings of
    retries, timeouts, observability and memory are not read here. *)
From S2P Require Import Prelude GoStrings GoUnicode Validation Mcp DirectClient DirectStdio DirectWs DirectHttp DirectSse.
From Stdlib Require Import Strings.Ascii.
#[local] Open Scope Z_scope.

Module DirectConfig.
Import Direct.

(** A ClientType is a string; these are the four protocols. *)
Definition ClientType : Type := string.
Definition ClientTypeStdio : ClientType := "stdio"%string.
Definition ClientTypeWebSocket : ClientType := "websocket"%string.
Definition ClientTypeHTTP : ClientType := "http"%string.
Definition ClientTypeSSE : ClientType := "sse"%string.

(** ** Settings *)

Record AutoDetectionConfig := mkAutoDetection {
  ad_Enabled : bool; ad_Timeout : Z; PreferredOrder : list ClientType; CacheResults : bool; CacheTTL : Z }.
Record FallbackConfig := mkFallback {
  fb_Enabled : bool; DirectTimeout : Z; MaxRetries : Z; RetryDelay : Z; DirectOnlyMethods : list string; GatewayOnlyMethods : list string }.
Record ConnectionPoolConfig := mkPoolConfig {
  MaxIdleConnections : Z; MaxActiveConnections : Z; ConnectionTTL : Z; IdleTimeout : Z; HealthCheckInterval : Z; EnableConnectionReuse : bool; CleanupInterval : Z }.
#[export] Instance ConnectionPoolConfig_eq_dec : EqDecision ConnectionPoolConfig.
Proof. solve_decision. Defined.

Record StdioPerformanceTuning := mkStdioTuning {
  sp_StdinBufferSize : Z; sp_StdoutBufferSize : Z; sp_EnableBufferedIO : bool; sp_ReuseEncoders : bool; sp_ProcessPriority : Z; sp_MaxRestarts : Z; sp_RestartDelay : Z }.
Record WebSocketPerformanceTuning := mkWsTuning {
  wp_EnableWriteCompression : bool; wp_EnableReadCompression : bool; wp_OptimizePingPong : bool; wp_EnableMessagePooling : bool; wp_MessageBatchSize : Z;
  wp_WriteBatchTimeout : Z; wp_ReadBufferSize : Z; wp_WriteBufferSize : Z }.
Record HTTPPerformanceTuning := mkHttpTuning {
  hp_EnableCompression : bool; hp_CompressionThreshold : Z; hp_EnableHTTP2 : bool; hp_MaxConnsPerHost : Z; hp_EnablePipelining : bool; hp_ReuseEncoders : bool;
  hp_ResponseBufferSize : Z; hp_IdleConnTimeout : Z; hp_KeepAlive : Z }.
Record SSEPerformanceTuning := mkSseTuning {
  ep_StreamBufferSize : Z; ep_RequestBufferSize : Z; ep_ReuseConnections : bool; ep_EnableCompression : bool; ep_ConnectionPoolSize : Z; ep_FastReconnect : bool;
  ep_ReconnectDelay : Z; ep_EnableEventBatching : bool; ep_BatchTimeout : Z }.

Record StdioConfig := mkStdio { DefaultWorkingDir : string; DefaultEnv : list (string * string); ProcessTimeout : Z; s_MaxBufferSize : Z; s_Performance : StdioPerformanceTuning }.
Record WebSocketConfig := mkWebSocket {
  w_HandshakeTimeout : Z; w_PingInterval : Z; w_PongTimeout : Z; w_MaxMessageSize : Z; w_DefaultHeaders : option (list (string * string)); w_Performance : WebSocketPerformanceTuning }.
Record HTTPConfig := mkHttp { h_RequestTimeout : Z; h_MaxIdleConns : Z; h_DefaultHeaders : gmap string string; h_FollowRedirects : bool; h_Performance : HTTPPerformanceTuning }.
Record SSEConfig := mkSse { e_StreamTimeout : Z; e_RequestTimeout : Z; e_DefaultHeaders : gmap string string; e_BufferSize : Z; e_Performance : SSEPerformanceTuning }.

Record DirectConfig := mkDirect {
  Enabled : bool; DefaultTimeout : Z; MaxConnections : Z; HealthCheck : StdioClient.HealthCheckConfig; AutoDetection : AutoDetectionConfig; Fallback : FallbackConfig;
  ConnectionPool : ConnectionPoolConfig; Stdio : StdioConfig; WebSocket : WebSocketConfig; HTTP : HTTPConfig; SSE : SSEConfig }.

(** ** Defaults *)

#[local] Notation or_default := StdioClient.or_default.
Definition on_by_default (b : bool) : bool := if negb b then true else b.

Definition setStdioPerformanceDefaults (p : StdioPerformanceTuning) : StdioPerformanceTuning :=
  mkStdioTuning (or_default (64 * 1024) (sp_StdinBufferSize p)) (or_default (64 * 1024) (sp_StdoutBufferSize p)) (on_by_default (sp_EnableBufferedIO p))
    (on_by_default (sp_ReuseEncoders p)) (sp_ProcessPriority p) (or_default 3 (sp_MaxRestarts p)) (or_default (5 * Second) (sp_RestartDelay p)).
Definition setWebSocketPerformanceDefaults (p : WebSocketPerformanceTuning) : WebSocketPerformanceTuning :=
  mkWsTuning (wp_EnableWriteCompression p) (on_by_default (wp_EnableReadCompression p)) (on_by_default (wp_OptimizePingPong p))
    (on_by_default (wp_EnableMessagePooling p)) (or_default 0 (wp_MessageBatchSize p)) (or_default Millisecond (wp_WriteBatchTimeout p))
    (or_default 4096 (wp_ReadBufferSize p)) (or_default 4096 (wp_WriteBufferSize p)).
Definition setHTTPPerformanceDefaults (p : HTTPPerformanceTuning) : HTTPPerformanceTuning :=
  mkHttpTuning (on_by_default (hp_EnableCompression p)) (or_default 1024 (hp_CompressionThreshold p)) (on_by_default (hp_EnableHTTP2 p))
    (or_default 10 (hp_MaxConnsPerHost p)) (hp_EnablePipelining p) (on_by_default (hp_ReuseEncoders p)) (or_default (32 * 1024) (hp_ResponseBufferSize p))
    (or_default (90 * Second) (hp_IdleConnTimeout p)) (or_default (30 * Second) (hp_KeepAlive p)).
Definition setSSEPerformanceDefaults (p : SSEPerformanceTuning) : SSEPerformanceTuning :=
  mkSseTuning (or_default (64 * 1024) (ep_StreamBufferSize p)) (or_default (32 * 1024) (ep_RequestBufferSize p)) (on_by_default (ep_ReuseConnections p))
    (on_by_default (ep_EnableCompression p)) (or_default 5 (ep_ConnectionPoolSize p)) (on_by_default (ep_FastReconnect p))
    (or_default Second (ep_ReconnectDelay p)) (ep_EnableEventBatching p) (or_default (10 * Millisecond) (ep_BatchTimeout p)).

Definition applyHealthCheckDefaults (c : StdioClient.HealthCheckConfig) : StdioClient.HealthCheckConfig :=
  StdioClient.mkHealthCheck (StdioClient.hc_Enabled c) (or_default (30 * Second) (StdioClient.hc_Interval c)) (or_default (5 * Second) (StdioClient.hc_Timeout c)).
Definition applyAutoDetectionDefaults (c : AutoDetectionConfig) : AutoDetectionConfig :=
  mkAutoDetection (ad_Enabled c) (or_default (10 * Second) (ad_Timeout c))
    (match PreferredOrder c with [] => ["http"; "websocket"; "stdio"; "sse"] | o => o end)%string (CacheResults c) (or_default (5 * Minute) (CacheTTL c)).
Definition isFallbackUnconfigured (f : FallbackConfig) : bool :=
  (DirectTimeout f =? 0) && (MaxRetries f =? 0) && (RetryDelay f =? 0) && bool_decide (DirectOnlyMethods f = []) && bool_decide (GatewayOnlyMethods f = []).
Definition applyFallbackDefaults (f : FallbackConfig) : FallbackConfig :=
  mkFallback (if isFallbackUnconfigured f then true else fb_Enabled f) (or_default (10 * Second) (DirectTimeout f)) (or_default 2 (MaxRetries f))
    (or_default Second (RetryDelay f)) (DirectOnlyMethods f) (GatewayOnlyMethods f).

Definition no_pool_config : ConnectionPoolConfig := mkPoolConfig 0 0 0 0 0 false 0.
Definition DefaultConnectionPoolConfig : ConnectionPoolConfig := mkPoolConfig 50 200 (30 * Minute) (5 * Minute) Minute true (5 * Minute).
Definition applyConnectionPoolDefaults (maxConnections : Z) (c : ConnectionPoolConfig) : ConnectionPoolConfig :=
  let c := if bool_decide (c = no_pool_config) then DefaultConnectionPoolConfig else c in
  mkPoolConfig (MaxIdleConnections c) (or_default maxConnections (MaxActiveConnections c)) (ConnectionTTL c) (IdleTimeout c) (HealthCheckInterval c)
    (EnableConnectionReuse c) (CleanupInterval c).

Definition ApplyOperationalDefaults (c : DirectConfig) : DirectConfig :=
  let maxConnections := or_default 100 (MaxConnections c) in
  mkDirect (Enabled c) (or_default (30 * Second) (DefaultTimeout c)) maxConnections (applyHealthCheckDefaults (HealthCheck c))
    (applyAutoDetectionDefaults (AutoDetection c)) (applyFallbackDefaults (Fallback c)) (applyConnectionPoolDefaults maxConnections (ConnectionPool c))
    (Stdio c) (WebSocket c) (HTTP c) (SSE c).

Definition OptimizePerformanceParameters (c : DirectConfig) : DirectConfig :=
  let s := Stdio c in let w := WebSocket c in let h := HTTP c in let e := SSE c in
  mkDirect (Enabled c) (DefaultTimeout c) (MaxConnections c) (HealthCheck c) (AutoDetection c) (Fallback c) (ConnectionPool c)
    (mkStdio (DefaultWorkingDir s) (DefaultEnv s) (ProcessTimeout s) (s_MaxBufferSize s) (setStdioPerformanceDefaults (s_Performance s)))
    (mkWebSocket (w_HandshakeTimeout w) (w_PingInterval w) (w_PongTimeout w) (w_MaxMessageSize w) (w_DefaultHeaders w) (setWebSocketPerformanceDefaults (w_Performance w)))
    (mkHttp (h_RequestTimeout h) (h_MaxIdleConns h) (h_DefaultHeaders h) (h_FollowRedirects h) (setHTTPPerformanceDefaults (h_Performance h)))
    (mkSse (e_StreamTimeout e) (e_RequestTimeout e) (e_DefaultHeaders e) (e_BufferSize e) (setSSEPerformanceDefaults (e_Performance e))).

(** [BuildClientOrchestrator] makes the pool, whose clean-up ticker panics on an interval that is not positive. *)
Definition BuildClientOrchestrator (c : DirectConfig) : option DirectConfig :=
  let c := OptimizePerformanceParameters (ApplyOperationalDefaults c) in
  if 0 <? CleanupInterval (ConnectionPool c) then Some c else None.

(** ** Configurations of clients *)

Definition createStdioClient (m : DirectConfig) (serverURL : string) : result goerr StdioClient.StdioClientConfig :=
  let p := s_Performance (Stdio m) in
  StdioClient.BuildStdio serverURL
    (StdioClient.mkConfig [] (DefaultWorkingDir (Stdio m)) (DefaultEnv (Stdio m)) (or_default (DefaultTimeout m) (DefaultTimeout m)) (s_MaxBufferSize (Stdio m)) (HealthCheck m)
       (StdioClient.mkProcess (or_default 3 (sp_MaxRestarts p)) (or_default (5 * Second) (sp_RestartDelay p)) (or_default (10 * Second) (ProcessTimeout (Stdio m))))
       (StdioClient.mkPerformance (sp_StdinBufferSize p) (sp_StdoutBufferSize p) (sp_EnableBufferedIO p) (sp_ReuseEncoders p) (sp_ProcessPriority p))).

Definition createWebSocketClient `{Validate.NetParsers} (m : DirectConfig) (serverURL : string) : result goerr WebSocketClient.WebSocketClientConfig :=
  let c := WebSocket m in let p := w_Performance c in
  WebSocketClient.BuildWebSocket serverURL
    (WebSocketClient.mkConfig serverURL (w_DefaultHeaders c) (w_HandshakeTimeout c) (w_PingInterval c) (w_PongTimeout c) (w_MaxMessageSize c)
       (or_default (DefaultTimeout m) (DefaultTimeout m)) (HealthCheck m)
       (WebSocketClient.mkConnection 3 (5 * Second) (or_default 4096 (wp_ReadBufferSize p)) (or_default 4096 (wp_WriteBufferSize p)) false)
       (WebSocketClient.mkPerformance (wp_EnableWriteCompression p) (wp_EnableReadCompression p) (wp_OptimizePingPong p) (wp_EnableMessagePooling p)
          (wp_MessageBatchSize p) (wp_WriteBatchTimeout p))).

Definition createHTTPClient `{Validate.NetParsers} (m : DirectConfig) (serverURL : string) : result goerr HTTPClient.HTTPClientConfig :=
  let c := HTTP m in let p := h_Performance c in
  HTTPClient.validateAndSetDefaults serverURL
    (HTTPClient.mkConfig serverURL "POST" (h_DefaultHeaders c) (or_default (DefaultTimeout m) (DefaultTimeout m))
       (HTTPClient.mkTransport (or_default 10 (h_MaxIdleConns c)) 2 (or_default (90 * Second) (hp_IdleConnTimeout p)) false (h_FollowRedirects c) 3
          "MCP-Router-HTTP-Client/1.0")
       (HealthCheck m)
       (HTTPClient.mkPerformance (hp_EnableCompression p) (hp_CompressionThreshold p) (hp_EnableHTTP2 p) (hp_MaxConnsPerHost p) (hp_EnablePipelining p)
          (hp_ReuseEncoders p) (hp_ResponseBufferSize p))).

Definition createSSEClient `{Validate.NetParsers} (m : DirectConfig) (serverURL : string) : result goerr SSEClient.SSEClientConfig :=
  let c := SSE m in let p := e_Performance c in
  c' ← SSEClient.validateSSEConfig serverURL
    (SSEClient.mkConfig serverURL "POST" (e_DefaultHeaders c) (or_default (DefaultTimeout m) (DefaultTimeout m)) (or_default (300 * Second) (e_StreamTimeout c))
       (or_default 4096 (e_BufferSize c))
       (SSEClient.mkTransport 10 2 (90 * Second) false true 3 "MCP-Router-SSE-Client/1.0") (HealthCheck m)
       (SSEClient.mkPerformance (ep_StreamBufferSize p) (ep_RequestBufferSize p) (ep_ReuseConnections p) (ep_EnableCompression p) (ep_FastReconnect p)
          (ep_ConnectionPoolSize p) (ep_EnableEventBatching p) (ep_BatchTimeout p)));
  Ok (SSEClient.applySSEDefaults c').

Inductive client_config :=
| StdioCfg (c : StdioClient.StdioClientConfig) | WebSocketCfg (c : WebSocketClient.WebSocketClientConfig)
| HTTPCfg (c : HTTPClient.HTTPClientConfig) | SSECfg (c : SSEClient.SSEClientConfig).

Definition createClient `{Validate.NetParsers} (m : DirectConfig) (serverURL : string) (protocol : ClientType) : result goerr client_config :=
  if bool_decide (protocol = ClientTypeStdio) then c ← createStdioClient m serverURL; Ok (StdioCfg c)
  else if bool_decide (protocol = ClientTypeWebSocket) then c ← createWebSocketClient m serverURL; Ok (WebSocketCfg c)
  else if bool_decide (protocol = ClientTypeHTTP) then c ← createHTTPClient m serverURL; Ok (HTTPCfg c)
  else if bool_decide (protocol = ClientTypeSSE) then c ← createSSEClient m serverURL; Ok (SSECfg c)
  else Err (Foreign false ("unsupported protocol: " +:+ protocol)%string).

(** ** Properties *)

(** The command that a stdio URL names. *)
Definition command_of (serverURL : string) : list string :=
  if HasPrefix serverURL "stdio://" then StdioClient.Fields (StdioClient.TrimPrefix serverURL "stdio://") else StdioClient.Fields serverURL.
Definition has_scheme `{Validate.NetParsers} (serverURL : string) (schemes : list string) : bool :=
  match Validate.url_Parse serverURL with Ok u => bool_decide (Validate.Scheme u ∈ schemes) | Err _ => false end.

(** A protocol that can speak to the URL. *)
Definition suits `{Validate.NetParsers} (serverURL : string) (protocol : ClientType) : bool :=
  if bool_decide (protocol = ClientTypeStdio) then negb (bool_decide (command_of serverURL = []))
  else if bool_decide (protocol = ClientTypeWebSocket) then has_scheme serverURL ["ws"; "wss"]%string
  else if bool_decide (protocol = ClientTypeHTTP) then has_scheme serverURL ["http"; "https"]%string
  else if bool_decide (protocol = ClientTypeSSE) then has_scheme serverURL ["http"; "https"]%string else false.

(** The test of the three builders with URLs, on the URL they were given. *)
Lemma scheme_test `{Validate.NetParsers} {A} serverURL a b (reason : string -> goerr) (refused : goerr) (x : A) :
  is_ok (match Validate.url_Parse serverURL with
         | Err e => Err (reason e)
         | Ok u => if negb (bool_decide (Validate.Scheme u = a)) && negb (bool_decide (Validate.Scheme u = b)) then Err refused else Ok x
         end) = has_scheme serverURL [a; b].
Proof.
  unfold has_scheme. destruct (Validate.url_Parse serverURL) as [u|e]; [|done].
  rewrite (bool_decide_ext (Validate.Scheme u ∈ [a; b]) (Validate.Scheme u = a \/ Validate.Scheme u = b)) by (rewrite elem_of_cons, list_elem_of_singleton; done).
  rewrite bool_decide_or. by destruct (bool_decide (Validate.Scheme u = a)), (bool_decide (Validate.Scheme u = b)).
Qed.

Lemma or_text_same s : HTTPClient.or_text s s = s.
Proof. unfold HTTPClient.or_text. by case_bool_decide. Qed.

Lemma is_ok_bind {E A B} (r : result E A) (f : A -> B) : is_ok (x ← r; Ok (f x)) = is_ok r.
Proof. by destruct r. Qed.

Lemma stdio_builds serverURL c : StdioClient.Command c = [] -> is_ok (StdioClient.BuildStdio serverURL c) = negb (bool_decide (command_of serverURL = [])).
Proof.
  intros Hc. unfold StdioClient.BuildStdio, StdioClient.parseCommand, StdioClient.extractCommandFromURL, command_of. rewrite Hc, (bool_decide_true ([] = [])) by done.
  destruct (HasPrefix serverURL "stdio://"); cbn [StdioClient.Command StdioClient.with_command]; by case_bool_decide.
Qed.

Lemma websocket_builds `{Validate.NetParsers} serverURL c :
  WebSocketClient.URL c = serverURL -> is_ok (WebSocketClient.BuildWebSocket serverURL c) = has_scheme serverURL ["ws"; "wss"]%string.
Proof.
  intros Hc. unfold WebSocketClient.BuildWebSocket, WebSocketClient.validateWebSocketConfig. rewrite Hc.
  assert (WebSocketClient.URL (if bool_decide (serverURL = "") then WebSocketClient.with_url serverURL c else c) = serverURL) as Hu by by case_bool_decide.
  destruct (bool_decide (serverURL = "")); rewrite Hu; rewrite <- (scheme_test serverURL "ws" "wss" (fun _ => Sentinel ErrInvalidServerURL) (Sentinel ErrInvalidServerURL) tt);
    destruct (Validate.url_Parse serverURL); try done; by destruct (negb _ && negb _).
Qed.

Lemma http_builds `{Validate.NetParsers} serverURL c :
  HTTPClient.URL c = serverURL -> is_ok (HTTPClient.validateAndSetDefaults serverURL c) = has_scheme serverURL ["http"; "https"]%string.
Proof.
  intros Hc. unfold HTTPClient.validateAndSetDefaults. cbn [HTTPClient.URL]. rewrite Hc, or_text_same. apply scheme_test.
Qed.

Lemma sse_builds `{Validate.NetParsers} serverURL c :
  SSEClient.URL c = serverURL -> is_ok (SSEClient.validateSSEConfig serverURL c) = has_scheme serverURL ["http"; "https"]%string.
Proof.
  intros Hc. unfold SSEClient.validateSSEConfig. cbn [SSEClient.URL]. rewrite Hc. change SSEClient.or_text with HTTPClient.or_text.
  rewrite or_text_same. apply scheme_test.
Qed.

(** The manager can build a client for a URL and a protocol exactly when the protocol suits the URL: what the builders of the
    four clients accept of the configurations that the manager makes is what the detection of protocols tests. *)
Lemma createClient_suits `{Validate.NetParsers} m serverURL protocol : is_ok (createClient m serverURL protocol) = suits serverURL protocol.
Proof.
  unfold createClient, suits. destruct (bool_decide (protocol = ClientTypeStdio)); [by rewrite is_ok_bind; apply stdio_builds|].
  destruct (bool_decide (protocol = ClientTypeWebSocket)); [by rewrite is_ok_bind; apply websocket_builds|].
  destruct (bool_decide (protocol = ClientTypeHTTP)); [by rewrite is_ok_bind; apply http_builds|].
  destruct (bool_decide (protocol = ClientTypeSSE)); [|done]. unfold createSSEClient. rewrite !is_ok_bind. by apply sse_builds.
Qed.

(** ** Settings that cannot be made *)

Definition sample_settings (f : FallbackConfig) (p : ConnectionPoolConfig) : DirectConfig :=
  mkDirect true 0 0 (StdioClient.mkHealthCheck false 0 0) (mkAutoDetection true 0 [] true 0) f p
    (mkStdio "" [] 0 0 (mkStdioTuning 0 0 false false 0 0 0)) (mkWebSocket 0 0 0 0 None (mkWsTuning false false false false 0 0 0 0))
    (mkHttp 0 0 ∅ false (mkHttpTuning false 0 false 0 false false 0 0 0)) (mkSse 0 0 ∅ 0 (mkSseTuning 0 0 false false 0 false 0 false 0)).

(** A fallback that is only switched off is switched on. *)
Example disabled_fallback_enabled :
  (c ← BuildClientOrchestrator (sample_settings (mkFallback false 0 0 0 [] []) no_pool_config); Some (fb_Enabled (Fallback c))) = Some true.
Proof. vm_compute. reflexivity. Qed.

(** A pool of which only the size is configured stops the router when it starts; one without settings does not. *)
Example pool_size_alone_panics :
  BuildClientOrchestrator (sample_settings (mkFallback false 0 0 0 [] []) (mkPoolConfig 0 10 0 0 0 false 0)) = None.
Proof. vm_compute. reflexivity. Qed.

Lemma on_by_default_true b : on_by_default b = true.
Proof. by destruct b. Qed.

(** The builder switches on what was switched off, so compression, pooling and buffering cannot be turned off. *)
Lemma flags_always_on c c' : BuildClientOrchestrator c = Some c' ->
  let s := s_Performance (Stdio c') in let w := w_Performance (WebSocket c') in let h := h_Performance (HTTP c') in let e := e_Performance (SSE c') in
  sp_EnableBufferedIO s = true /\ sp_ReuseEncoders s = true /\ wp_EnableReadCompression w = true /\ wp_EnableMessagePooling w = true /\
  hp_EnableCompression h = true /\ hp_EnableHTTP2 h = true /\ hp_ReuseEncoders h = true /\ ep_EnableCompression e = true /\ ep_FastReconnect e = true.
Proof.
  unfold BuildClientOrchestrator. destruct (0 <? _); [|done]. intros [= <-]. cbn. split_and!; apply on_by_default_true.
Qed.

End DirectConfig.
