(* ===== verification/DirectManager.v ===== *)
(** * The direct manager

    [services/router/internal/direct/manager.go], protocol_detector.go, protocol_hint_analyzer.go, connection_pool.go and
    manager_shutdown_handler.go: which protocol a server speaks (cached, with timers that end what is cached), and the
    pool of connected clients.  Each operation is a handler that runs alone (a timer that is stopped has not fired yet: a timer
    that fires while an operation holds its lock is not modelled); what the network says to each probe is an argument.  Observability, the status monitor and the memory optimizer only succeed or fail. *)
From S2P Require Import Prelude GoStrings GoUnicode Validation Mcp DirectClient DirectStdio DirectConfig.
From stdpp Require Import pretty.
From Stdlib Require Import Strings.Ascii.
#[local] Open Scope Z_scope.

Module DirectManager.
Import Direct DirectConfig.

(** ** State *)

(** A pooled connection with the client behind it. *)
Record PooledConnection := mkPooled { pc_client : nat; ServerURL : string; Protocol : ClientType; CreatedAt : Z; LastUsedAt : Z; UsageCount : Z; IsHealthy : bool }.
Record ManagerMetrics := mkMetrics {
  TotalClients : Z; ActiveConnections : Z; FailedConnections : Z; ProtocolDetections : Z; CacheHits : Z; CacheMisses : Z }.

(** [connections]: by protocol and URL; the pool has a map for each of the four protocols.  [cacheTimers]: the timer of a
    cached result; [armed]: the timers that run, with their URLs.  [made]: how many clients were connected, numbered in
    order; [shut]: the clients that the pool has closed. *)
Record World := mkWorld {
  connections : gmap (ClientType * string) PooledConnection; activeConnections : Z; totalConnections : Z; poolClosed : bool;
  protocolCache : gmap string ClientType; cacheTimers : gmap string nat; armed : gmap nat string; next_timer : nat;
  running : bool; shutdown : bool; metrics : ManagerMetrics; made : nat; shut : list nat }.

Definition fresh_manager : World := mkWorld ∅ 0 0 false ∅ ∅ ∅ 0 false false (mkMetrics 0 0 0 0 0 0) 0 [].

Definition set_pool (cs : gmap (ClientType * string) PooledConnection) (active total : Z) (closed : list nat) (w : World) : World :=
  mkWorld cs active total (poolClosed w) (protocolCache w) (cacheTimers w) (armed w) (next_timer w) (running w) (shutdown w) (metrics w) (made w) closed.
Definition set_closed (w : World) : World :=
  mkWorld (connections w) (activeConnections w) (totalConnections w) true (protocolCache w) (cacheTimers w) (armed w) (next_timer w) (running w) (shutdown w) (metrics w) (made w) (shut w).
Definition set_cache (c : gmap string ClientType) (ts : gmap string nat) (a : gmap nat string) (n : nat) (w : World) : World :=
  mkWorld (connections w) (activeConnections w) (totalConnections w) (poolClosed w) c ts a n (running w) (shutdown w) (metrics w) (made w) (shut w).
Definition set_running (r s : bool) (w : World) : World :=
  mkWorld (connections w) (activeConnections w) (totalConnections w) (poolClosed w) (protocolCache w) (cacheTimers w) (armed w) (next_timer w) r s (metrics w) (made w) (shut w).
Definition set_metrics (m : ManagerMetrics) (w : World) : World :=
  mkWorld (connections w) (activeConnections w) (totalConnections w) (poolClosed w) (protocolCache w) (cacheTimers w) (armed w) (next_timer w) (running w) (shutdown w) m (made w) (shut w).
Definition set_made (n : nat) (w : World) : World :=
  mkWorld (connections w) (activeConnections w) (totalConnections w) (poolClosed w) (protocolCache w) (cacheTimers w) (armed w) (next_timer w) (running w) (shutdown w) (metrics w) n (shut w).

(** An operation fails with a text, or panics. *)
Inductive failure := Failed (text : string) | Panicked.
Definition W (A : Type) : Type := M World failure A.
Definition get {A} (f : World -> A) : W A := fun w => (Ok (f w), w).
Definition modify (f : World -> World) : W unit := fun w => (Ok tt, f w).
Definition fail {A} (text : string) : W A := fun w => (Err (Failed text), w).
Definition wrap {A} (text : string) (m : W A) : W A :=
  M_wrap (fun e => match e with Failed t => Failed (text +:+ ": " +:+ t)%string | Panicked => Panicked end) m.
(** The outcome of a call, as a value. *)
Definition attempt {A} (m : W A) : W (result failure A) := fun w => let (r, w') := m w in (Ok r, w').

Definition settle {A} (r : result failure A) : W A := fun w => (r, w).

Definition updateMetrics (f : ManagerMetrics -> ManagerMetrics) : W unit := modify (fun w => set_metrics (f (metrics w)) w).
Definition inc_hits (m : ManagerMetrics) := mkMetrics (TotalClients m) (ActiveConnections m) (FailedConnections m) (ProtocolDetections m) (CacheHits m + 1) (CacheMisses m).
Definition inc_misses (m : ManagerMetrics) := mkMetrics (TotalClients m) (ActiveConnections m) (FailedConnections m) (ProtocolDetections m) (CacheHits m) (CacheMisses m + 1).
Definition inc_detections (m : ManagerMetrics) := mkMetrics (TotalClients m) (ActiveConnections m) (FailedConnections m) (ProtocolDetections m + 1) (CacheHits m) (CacheMisses m).
Definition inc_failed (m : ManagerMetrics) := mkMetrics (TotalClients m) (ActiveConnections m) (FailedConnections m + 1) (ProtocolDetections m) (CacheHits m) (CacheMisses m).
Definition inc_clients (m : ManagerMetrics) := mkMetrics (TotalClients m + 1) (ActiveConnections m + 1) (FailedConnections m) (ProtocolDetections m) (CacheHits m) (CacheMisses m).
Definition dec_active (m : ManagerMetrics) :=
  mkMetrics (TotalClients m) (if 0 <? ActiveConnections m then ActiveConnections m - 1 else ActiveConnections m) (FailedConnections m) (ProtocolDetections m) (CacheHits m) (CacheMisses m).

Section Manager.
Context `{Validate.NetParsers}.
Variable config : DirectConfig.

(** ** The pool of connections *)

Definition ttl : Z := ConnectionTTL (ConnectionPool config).
Definition UpdateLastUsed (now : Z) (c : PooledConnection) : PooledConnection :=
  mkPooled (pc_client c) (ServerURL c) (Protocol c) (CreatedAt c) now (UsageCount c + 1) (IsHealthy c).
Definition IsExpired (now ttl : Z) (c : PooledConnection) : bool := ttl <? time_sub now (CreatedAt c).
Definition IsIdle (now idleTimeout : Z) (c : PooledConnection) : bool := idleTimeout <? time_sub now (LastUsedAt c).
Definition SetHealthy (b : bool) (c : PooledConnection) : PooledConnection :=
  mkPooled (pc_client c) (ServerURL c) (Protocol c) (CreatedAt c) (LastUsedAt c) (UsageCount c) b.

(** The connections that meet a condition are closed and removed; the result is their number. *)
Definition sweep (bad : PooledConnection -> bool) : W Z := fun w =>
  let gone := map_to_list (filter (fun kc => bad kc.2 = true) (connections w)) in
  (Ok (zlen gone),
   set_pool (filter (fun kc => bad kc.2 = false) (connections w)) (activeConnections w - zlen gone) (totalConnections w)
     (shut w ++ map (fun kc => pc_client kc.2) gone) w).

Definition evictIdleConnections (now : Z) : W Z := sweep (IsIdle now (IdleTimeout (ConnectionPool config))).
Definition performCleanup (now : Z) : W Z := sweep (fun c => IsExpired now ttl c || IsIdle now (IdleTimeout (ConnectionPool config)) c).

Definition known_protocol (p : ClientType) : bool := bool_decide (p ∈ [ClientTypeStdio; ClientTypeHTTP; ClientTypeWebSocket; ClientTypeSSE]).

(** Writing to the map of another protocol, which is nil, panics. *)
Definition store (serverURL : string) (protocol : ClientType) (c : PooledConnection) : W unit := fun w =>
  if known_protocol protocol
  then (Ok tt, set_pool (<[(protocol, serverURL) := c]> (connections w)) (activeConnections w + 1) (totalConnections w + 1) (shut w) w)
  else (Err Panicked, w).

(** A connection that can be used again. *)
Definition reusable (serverURL : string) (protocol : ClientType) (w : World) : option PooledConnection :=
  if EnableConnectionReuse (ConnectionPool config)
  then match connections w !! (protocol, serverURL) with Some c => if IsHealthy c then Some c else None | None => None end
  else None.
Definition make_room (now : Z) : W unit :=
  w ← get id;
  if MaxActiveConnections (ConnectionPool config) <=? activeConnections w then
    evicted ← evictIdleConnections now;
    if evicted =? 0 then fail ("maximum active connections reached (" +:+ pretty (MaxActiveConnections (ConnectionPool config)) +:+ ")")%string else mret tt
  else mret tt.

Definition GetConnection (now : Z) (serverURL : string) (protocol : ClientType) (createFunc : W nat) : W PooledConnection :=
  o ← get (reusable serverURL protocol);
  match o with
  | Some c =>
      let c := UpdateLastUsed now c in
      _ ← modify (fun w => set_pool (<[(protocol, serverURL) := c]> (connections w)) (activeConnections w) (totalConnections w) (shut w) w);
      mret c
  | None =>
      _ ← make_room now;
      client ← wrap "failed to create client" createFunc;
      let c := mkPooled client serverURL protocol now now 1 true in
      _ ← store serverURL protocol c;
      mret c
  end.

Definition RemoveConnection (serverURL : string) (protocol : ClientType) : W unit :=
  w ← get id;
  match connections w !! (protocol, serverURL) with
  | Some c => modify (fun w => set_pool (delete (protocol, serverURL) (connections w)) (activeConnections w - 1) (totalConnections w) (shut w ++ [pc_client c]) w)
  | None => fail ("connection not found: " +:+ serverURL +:+ " (" +:+ protocol +:+ ")")%string
  end.

(** Health checks of the pool; [health]: whether the check of a client succeeds. *)
Definition performHealthChecks (health : nat -> bool) : W unit :=
  modify (fun w => set_pool ((fun c => SetHealthy (health (pc_client c)) c) <$> connections w) (activeConnections w) (totalConnections w) (shut w) w).

(** The connections that the manager checks. *)
Definition GetActiveConnections (now : Z) (w : World) : gmap (ClientType * string) PooledConnection :=
  filter (fun kc => IsHealthy kc.2 && negb (IsExpired now ttl kc.2) = true) (connections w).

(** The clients are closed, the table and its counters stay. *)
Definition ClosePool : W unit :=
  modify (fun w => set_closed (set_pool (connections w) (activeConnections w) (totalConnections w)
    (shut w ++ map (fun kc => pc_client kc.2) (map_to_list (connections w))) w)).

(** ** Detection of protocols *)

(** What the system says to one probe: whether an executable is found or can be run, whether a WebSocket handshake or an HTTP
    exchange succeeds, the content type of an answer to an event stream request; and whether the context of the
    detection has ended before and after the probe. *)
Record Net := mkNet {
  LookPath : string -> bool; is_executable : string -> bool; ws_dial : bool; http_do : bool; sse_content_type : option string; ended_before : bool; ended_after : bool }.

Definition canConnectStdio (n : Net) (serverURL : string) : bool :=
  match command_of serverURL with [] => false | executable :: _ => LookPath n executable || is_executable n executable end.
Definition canConnectWebSocket (n : Net) (serverURL : string) : bool :=
  match Validate.url_Parse serverURL with
  | Err _ => false
  | Ok u =>
      if negb (bool_decide (Validate.Scheme u = "ws"%string)) && negb (bool_decide (Validate.Scheme u = "wss"%string)) then false else ws_dial n
  end.
Definition validateHTTPURL (serverURL : string) : bool :=
  match Validate.url_Parse serverURL with
  | Err _ => false
  | Ok u => negb (negb (bool_decide (Validate.Scheme u = "http"%string)) && negb (bool_decide (Validate.Scheme u = "https"%string)))
  end.
Definition canConnectHTTP (n : Net) (serverURL : string) : bool := if negb (validateHTTPURL serverURL) then false else http_do n.
Definition validateSSEURL (serverURL : string) : bool :=
  match Validate.url_Parse serverURL with
  | Err _ => false
  | Ok u => negb (negb (bool_decide (Validate.Scheme u = "http"%string)) && negb (bool_decide (Validate.Scheme u = "https"%string)))
  end.
Definition validateSSEResponse (contentType : string) : bool := HasPrefix contentType "text/event-stream".
Definition canConnectSSE (n : Net) (serverURL : string) : bool :=
  if negb (validateSSEURL serverURL) then false else match sse_content_type n with Some t => validateSSEResponse t | None => false end.

Definition canConnectWithProtocol (n : Net) (serverURL : string) (protocol : ClientType) : bool :=
  if bool_decide (protocol = ClientTypeStdio) then canConnectStdio n serverURL
  else if bool_decide (protocol = ClientTypeWebSocket) then canConnectWebSocket n serverURL
  else if bool_decide (protocol = ClientTypeHTTP) then canConnectHTTP n serverURL
  else if bool_decide (protocol = ClientTypeSSE) then canConnectSSE n serverURL else false.

(** *** Hints from the URL; [None] is a nil slice *)

Definition checkStdioScheme (serverURL : string) : option (list ClientType) := if HasPrefix serverURL "stdio://" then Some [ClientTypeStdio] else None.
Definition hasSSEPattern (path : string) : bool := Contains path "sse" || Contains path "events" || Contains path "stream".
Definition httpHints (path : string) : list ClientType := if hasSSEPattern path then [ClientTypeSSE; ClientTypeHTTP] else [ClientTypeHTTP; ClientTypeSSE].
Definition Analyze (u : Validate.URL) : option (list ClientType) :=
  if bool_decide (Validate.Scheme u ∈ ["ws"; "wss"]%string) then Some [ClientTypeWebSocket]
  else if bool_decide (Validate.Scheme u ∈ ["http"; "https"]%string) then Some (httpHints (Validate.URLPath u))
  else if bool_decide (Validate.Scheme u = "stdio"%string) then Some [ClientTypeStdio] else None.
Definition analyzeURLScheme (serverURL : string) : option (list ClientType) := match Validate.url_Parse serverURL with Err _ => None | Ok u => Analyze u end.
Definition checkCommandPattern (serverURL : string) : option (list ClientType) :=
  if Contains serverURL "://" then None else if bool_decide (StdioClient.Fields serverURL = []) then None else Some [ClientTypeStdio].
Definition getDefaultOrder : list ClientType := PreferredOrder (AutoDetection config).
Definition GetHints (serverURL : string) : list ClientType :=
  match checkStdioScheme serverURL with
  | Some hs => hs
  | None =>
      match analyzeURLScheme serverURL with
      | Some hs => hs
      | None => match checkCommandPattern serverURL with Some hs => hs | None => getDefaultOrder end
      end
  end.

(** *** The cache *)

(** An entry gets a timer of its own; the timer of an earlier entry is stopped. *)
Definition setCacheEntryWithExpiration (serverURL : string) (protocol : ClientType) : W unit :=
  modify (fun w =>
    let a := match cacheTimers w !! serverURL with Some t => delete t (armed w) | None => armed w end in
    set_cache (<[serverURL := protocol]> (protocolCache w)) (<[serverURL := next_timer w]> (cacheTimers w)) (<[next_timer w := serverURL]> a) (S (next_timer w)) w).

(** A timer that runs out. *)
Definition expire (t : nat) : W unit :=
  modify (fun w => match armed w !! t with
                   | Some url => set_cache (delete url (protocolCache w)) (delete url (cacheTimers w)) (delete t (armed w)) (next_timer w) w
                   | None => w
                   end).

(** Every timer of the table is stopped. *)
Definition clearAllCacheTimers : W unit :=
  modify (fun w => set_cache (protocolCache w) ∅ (filter (fun tu => cacheTimers w !! tu.2 <> Some tu.1) (armed w)) (next_timer w) w).

Definition undetected (serverURL : string) : string := "could not detect compatible protocol for " +:+ serverURL.
Definition timed_out (serverURL : string) : string := "protocol detection timed out for " +:+ serverURL.

(** [None]: nothing is cached. *)
Definition ReadCache (serverURL : string) : W (option ClientType) :=
  w ← get id;
  match protocolCache w !! serverURL with
  | None => _ ← updateMetrics inc_misses; mret None
  | Some p => _ ← updateMetrics inc_hits; if bool_decide (p = EmptyString) then fail (undetected serverURL) else mret (Some p)
  end.
Definition checkCache (serverURL : string) : W (option ClientType) := if CacheResults (AutoDetection config) then ReadCache serverURL else mret None.
Definition validateDetectionEnabled : W unit := if ad_Enabled (AutoDetection config) then mret tt else fail "protocol auto-detection is disabled".
Definition cacheResult (serverURL : string) (protocol : ClientType) : W unit :=
  if CacheResults (AutoDetection config) then setCacheEntryWithExpiration serverURL protocol else mret tt.

(** *** Probing; [ns]: what each probe meets *)

Fixpoint TestProtocols (serverURL : string) (hints : list ClientType) (ns : nat -> Net) : W ClientType :=
  match hints with
  | [] => fail (undetected serverURL)
  | protocol :: hints =>
      if ended_before (ns 0%nat) then fail (timed_out serverURL)
      else if canConnectWithProtocol (ns 0%nat) serverURL protocol then _ ← updateMetrics inc_detections; mret protocol
      else if ended_after (ns 0%nat) then fail (timed_out serverURL) else TestProtocols serverURL hints (fun i => ns (S i))
  end.

Definition DetectProtocolWithHints (ns : nat -> Net) (serverURL : string) : W ClientType :=
  o ← checkCache serverURL;
  match o with
  | Some p => mret p
  | None =>
      _ ← validateDetectionEnabled;
      r ← attempt (TestProtocols serverURL (GetHints serverURL) ns);
      _ ← cacheResult serverURL (match r with Ok p => p | Err _ => EmptyString end);
      settle r
  end.

(** The method that is tried when the other fails: the preferred order, whatever the URL. *)
Fixpoint try_preferred (serverURL : string) (order : list ClientType) (ns : nat -> Net) : W ClientType :=
  match order with
  | [] => _ ← cacheResult serverURL EmptyString; fail (undetected serverURL)
  | protocol :: order =>
      if canConnectWithProtocol (ns 0%nat) serverURL protocol
      then _ ← cacheResult serverURL protocol; _ ← updateMetrics inc_detections; mret protocol
      else try_preferred serverURL order (fun i => ns (S i))
  end.
Definition DetectProtocol (ns : nat -> Net) (serverURL : string) : W ClientType :=
  o ← checkCache serverURL;
  match o with
  | Some p => mret p
  | None => _ ← validateDetectionEnabled; try_preferred serverURL (PreferredOrder (AutoDetection config)) ns
  end.

(** ** Clients *)

(** [connected]: the error of the client's Connect. *)
Definition createClientConnectionFunc (connected : option string) (serverURL : string) (protocol : ClientType) : W nat :=
  match createClient config serverURL protocol with
  | Err e => _ ← updateMetrics inc_failed; fail ("failed to create " +:+ protocol +:+ " client for " +:+ serverURL +:+ ": " +:+ Error_text e)
  | Ok _ =>
      match connected with
      | Some t => _ ← updateMetrics inc_failed; fail ("failed to connect " +:+ protocol +:+ " client to " +:+ serverURL +:+ ": " +:+ t)
      | None => w ← get id; _ ← modify (set_made (S (made w))); mret (made w)
      end
  end%string.

Definition getOrCreateClient (now : Z) (connected : option string) (serverURL : string) (protocol : ClientType) : W nat :=
  c ← GetConnection now serverURL protocol (createClientConnectionFunc connected serverURL protocol);
  _ ← updateMetrics inc_clients;
  mret (pc_client c).

(** [ns] and [ns']: what the two ways of detection meet. *)
Definition GetClient (now : Z) (ns ns' : nat -> Net) (connected : option string) (serverURL : string) : W nat :=
  w ← get id;
  if negb (running w) then fail "DirectClientManager not running"
  else
    r ← attempt (DetectProtocolWithHints ns serverURL);
    protocol ← (match r with
                | Ok p => mret p
                | Err Panicked => settle (Err Panicked)
                | Err _ => wrap ("failed to detect protocol for " +:+ serverURL) (DetectProtocol ns' serverURL)
                end);
    getOrCreateClient now connected serverURL protocol.

Definition RemoveClient (serverURL : string) (protocol : ClientType) : W unit :=
  _ ← RemoveConnection serverURL protocol; updateMetrics dec_active.

Definition updateManagerMetrics : W unit :=
  modify (fun w => let m := metrics w in
    set_metrics (mkMetrics (activeConnections w) (ActiveConnections m) (FailedConnections m) (ProtocolDetections m) (CacheHits m) (CacheMisses m)) w).

Definition GetMetrics (w : World) : ManagerMetrics :=
  let m := metrics w in
  if 0 <? activeConnections w
  then mkMetrics (TotalClients m) (activeConnections w) (FailedConnections m) (ProtocolDetections m) (CacheHits m) (CacheMisses m) else m.

(** ** Start and shutdown *)

(** The errors of the components that are started. *)
Definition Start (observability status memory : option string) : W unit :=
  w ← get id;
  if running w then fail "DirectClientManager already running"
  else
    _ ← modify (fun w => set_running true (shutdown w) w);
    match observability, status, memory with
    | Some e, _, _ => _ ← modify (fun w => set_running false (shutdown w) w); fail ("failed to start observability manager: " +:+ e)
    | _, Some e, _ => _ ← modify (fun w => set_running false (shutdown w) w); fail ("failed to start status monitor: " +:+ e)
    | _, _, Some e => _ ← modify (fun w => set_running false (shutdown w) w); fail ("failed to start memory optimizer: " +:+ e)
    | None, None, None => mret tt
    end.

Definition beginShutdown : W bool := get running.
Definition signalShutdown : W unit := modify (fun w => set_running (running w) true w).
Definition cleanupResources : W unit :=
  _ ← clearAllCacheTimers; modify (fun w => set_cache ∅ (cacheTimers w) (armed w) (next_timer w) w).
Definition finalizeShutdown : W unit := modify (fun w => set_running false (shutdown w) w).

(** [waited]: the error when the caller's context ends before the background routines. *)
Definition ExecuteShutdown (waited : option string) : W unit :=
  ok ← beginShutdown;
  if negb ok then mret tt
  else
    _ ← signalShutdown;
    _ ← cleanupResources;
    _ ← ClosePool;
    match waited with Some e => fail e | None => finalizeShutdown end.

(** ** What happens to a manager

    Calls, the ticks of the pool, timers that run out, and the parts of a shutdown, with other calls between them. *)
Inductive step : World -> World -> Prop :=
| step_get now ns ns' connected url w : step w (snd (GetClient now ns ns' connected url w))
| step_remove url p w : step w (snd (RemoveClient url p w))
| step_cleanup now w : poolClosed w = false -> step w (snd (performCleanup now w))
| step_health health w : poolClosed w = false -> step w (snd (performHealthChecks health w))
| step_metrics w : step w (snd (updateManagerMetrics w))
| step_expire t w : step w (snd (expire t w))
| step_start a b c w : step w (snd (Start a b c w))
| step_stop w : running w = true -> step w (snd ((_ ← signalShutdown; cleanupResources) w))
| step_close w : shutdown w = true -> step w (snd (ClosePool w))
| step_stopped w : shutdown w = true -> step w (snd (finalizeShutdown w)).

Definition reachable (w : World) : Prop := rtc step fresh_manager w.

(** The shutdown as it is called is one of these sequences. *)
Lemma shutdown_steps waited w : rtc step w (snd (ExecuteShutdown waited w)).
Proof.
  unfold ExecuteShutdown, beginShutdown, get. destruct (running w) eqn:Er; unfold mbind, M_bind; cbn beta iota; rewrite Er; cbn [negb]; [|apply rtc_refl].
  eapply rtc_l; [by apply step_stop|]. eapply rtc_l; [by apply step_close|].
  destruct waited; [apply rtc_refl|]. eapply rtc_l; [by apply step_stopped|]. apply rtc_refl.
Qed.

(** ** The invariant *)

Definition max_open : Z := Z.max 0 (MaxActiveConnections (ConnectionPool config)).

Record timers_ok (w : World) : Prop := {
  i_cached url p : protocolCache w !! url = Some p -> is_Some (cacheTimers w !! url);
  i_armed url t : cacheTimers w !! url = Some t <-> armed w !! t = Some url;
  i_timer t url : armed w !! t = Some url -> (t < next_timer w)%nat;
}.
Record cache_ok (w : World) : Prop := {
  i_cache url p : protocolCache w !! url = Some p -> p = EmptyString \/ suits url p = true;
}.
Record pool_ok (w : World) : Prop := {
  i_suits p url c : connections w !! (p, url) = Some c -> suits url p = true;
  i_made k c : connections w !! k = Some c -> (pc_client c < made w)%nat;
  i_shut n : n ∈ shut w -> (n < made w)%nat;
  i_distinct k k' c c' : connections w !! k = Some c -> connections w !! k' = Some c' -> pc_client c = pc_client c' -> k = k';
  i_open k c : poolClosed w = false -> connections w !! k = Some c -> pc_client c ∉ shut w;
  i_once : poolClosed w = false -> NoDup (shut w);
  i_active : poolClosed w = false -> activeConnections w = Z.of_nat (made w) - zlen (shut w);
  i_bound : poolClosed w = false -> activeConnections w <= max_open;
}.
Record Inv (w : World) : Prop := { i_timers : timers_ok w; i_cacheok : cache_ok w; i_pool : pool_ok w }.

(** *** Programs that keep it *)

Definition ok {A} (P : World -> Prop) (m : W A) (Q : A -> World -> Prop) : Prop :=
  forall w, Inv w -> P w -> match m w with (Ok a, w') => Inv w' /\ Q a w' | (Err e, w') => Inv w' /\ e <> Panicked end.

Lemma ok_bind {A B} P (m : W A) (f : A -> W B) Q R : ok P m R -> (forall a, ok (R a) (f a) Q) -> ok P (m ≫= f) Q.
Proof.
  intros Hm Hf w Hi Hp. specialize (Hm w Hi Hp). unfold mbind, M_bind. destruct (m w) as [[a|e] w']; [|done]. destruct Hm. by apply Hf.
Qed.
Lemma ok_ret {A} (a : A) (P : World -> Prop) Q : (forall w, P w -> Q a w) -> ok P (mret a) Q.
Proof. intros HQ w Hi Hp. split; [done|by apply HQ]. Qed.
Lemma ok_fail {A} t P (Q : A -> World -> Prop) : ok P (fail t) Q.
Proof. by intros w Hi _. Qed.
Lemma ok_get {A} (f : World -> A) P : ok P (get f) (fun a w => P w /\ a = f w).
Proof. by intros w Hi Hp. Qed.
Lemma ok_modify f P Q : (forall w, Inv w -> P w -> Inv (f w) /\ Q (f w)) -> ok P (modify f) (fun _ => Q).
Proof. intros Hf w Hi Hp. by apply Hf. Qed.
Lemma ok_wrap {A} t P (m : W A) Q : ok P m Q -> ok P (wrap t m) Q.
Proof.
  intros Hm w Hi Hp. specialize (Hm w Hi Hp). unfold wrap, M_wrap. destruct (m w) as [[a|e] w']; [done|]. destruct Hm as [Hi' He]. split; [done|]. by destruct e.
Qed.
Lemma ok_attempt {A} P (m : W A) Q : ok P m Q -> ok P (attempt m) (fun r w => match r with Ok a => Q a w | Err e => e <> Panicked end).
Proof. intros Hm w Hi Hp. specialize (Hm w Hi Hp). unfold attempt. by destruct (m w) as [[a|e] w']. Qed.
Lemma ok_weaken {A} (P P' : World -> Prop) (m : W A) (Q Q' : A -> World -> Prop) :
  ok P m Q -> (forall w, P' w -> P w) -> (forall a w, Q a w -> Q' a w) -> ok P' m Q'.
Proof.
  intros Hm HP HQ w Hi Hp. specialize (Hm w Hi (HP w Hp)). destruct (m w) as [[a|e] w']; [|done]. destruct Hm. split; [done|by apply HQ].
Qed.

(** A part of the invariant that does not read what changed. *)
Ltac keeps H := destruct H; constructor; assumption.

(** The metrics matter to nothing. *)
Lemma inv_metrics m w : Inv w -> Inv (set_metrics m w).
Proof. intros [Ht Hc Hp]. split; [keeps Ht|keeps Hc|keeps Hp]. Qed.
Lemma ok_updateMetrics f (P : World -> Prop) : (forall m w, P w -> P (set_metrics m w)) -> ok P (updateMetrics f) (fun _ => P).
Proof. intros HP. apply ok_modify. intros w Hi Hp. split; [by apply inv_metrics|by apply HP]. Qed.

(** *** The cache *)

Lemma inv_set_entry url p w : Inv w -> p = EmptyString \/ suits url p = true -> Inv (snd (setCacheEntryWithExpiration url p w)).
Proof.
  intros [Ht [Hc] Hp] Hs. split; [|split|keeps Hp]; cbn.
  - destruct Ht as [H1 H2 H3].
    assert (forall t u, (match cacheTimers w !! url with Some t => delete t (armed w) | None => armed w end) !! t = Some u <->
      armed w !! t = Some u /\ u <> url) as Hd.
    { intros t u. destruct (cacheTimers w !! url) as [t0|] eqn:E; [rewrite lookup_delete_Some|]; split.
      - intros [Hne Ha]. split; [done|]. intros ->. apply H2 in Ha. congruence.
      - intros [Ha Hne]. split; [|done]. intros <-. apply H2 in E. congruence.
      - intros Ha. split; [done|]. intros ->. apply H2 in Ha. congruence.
      - by intros [Ha _]. }
    split; cbn.
    + intros u q [[<- _]|[Hne Hu]]%lookup_insert_Some; [by rewrite lookup_insert_eq|]. rewrite lookup_insert_ne by done. by eapply H1.
    + intros u t. destruct (decide (u = url)) as [->|Hne].
      * rewrite lookup_insert_eq. split; [intros [= <-]; by rewrite lookup_insert_eq|]. intros [[-> _]|[_ [_ Hx]%Hd]]%lookup_insert_Some; done.
      * rewrite lookup_insert_ne by done. rewrite H2. destruct (decide (t = next_timer w)) as [->|Hnt].
        -- rewrite lookup_insert_eq. split; [|intros [= <-]; done]. intros Ha. apply H3 in Ha. lia.
        -- rewrite lookup_insert_ne by done. rewrite Hd. naive_solver.
    + intros t u [[<- _]|[_ [Ha _]%Hd]]%lookup_insert_Some; [lia|]. apply H3 in Ha. lia.
  - intros u q [[<- <-]|[_ Hu]]%lookup_insert_Some; [done|]. by apply Hc.
Qed.

Lemma inv_expire t w : Inv w -> Inv (snd (expire t w)).
Proof.
  intros [Ht [Hc] Hp]. unfold expire, modify. cbn [snd]. destruct (armed w !! t) as [url|] eqn:E; [|by split].
  destruct Ht as [H1 H2 H3]. split; [split|split|keeps Hp]; cbn.
  - intros u q [Hne Hu]%lookup_delete_Some. rewrite lookup_delete_ne by done. by eapply H1.
  - intros u t'. rewrite !lookup_delete_Some, H2. split; intros [Hne Ha]; (split; [|done]); intros <-; [congruence|]. apply H2 in Ha, E. congruence.
  - intros t' u [_ Ha]%lookup_delete_Some. by eapply H3.
  - intros u q [_ Hu]%lookup_delete_Some. by apply Hc.
Qed.

Lemma inv_cleanupResources w : Inv w -> Inv (snd (cleanupResources w)).
Proof.
  intros [Ht [Hc] Hp]. destruct Ht as [H1 H2 H3]. unfold cleanupResources, clearAllCacheTimers, modify, mbind, M_bind. split; [split|split|keeps Hp]; cbn.
  - by intros u q Hu%lookup_empty_Some.
  - intros u t. rewrite lookup_empty. split; [done|]. intros [Ha Hn]%map_lookup_filter_Some. cbn in Hn. by apply H2 in Ha.
  - intros t u [Ha _]%map_lookup_filter_Some. by eapply H3.
  - by intros u q Hu%lookup_empty_Some.
Qed.

(** *** The pool *)

Lemma closed_clients (bad : PooledConnection -> bool) (cs : gmap (ClientType * string) PooledConnection) n :
  n ∈ map (fun kc => pc_client kc.2) (map_to_list (filter (fun kc => bad kc.2 = true) cs)) <-> exists k c, cs !! k = Some c /\ bad c = true /\ pc_client c = n.
Proof.
  change (map ?f ?l) with (f <$> l). rewrite list_elem_of_fmap. split.
  - intros ([k c] & -> & Hin%elem_of_map_to_list). apply map_lookup_filter_Some in Hin as [Hk Hb]. by exists k, c.
  - intros (k & c & Hk & Hb & <-). exists (k, c). split; [done|]. apply elem_of_map_to_list, map_lookup_filter_Some. done.
Qed.

Lemma closed_once (bad : PooledConnection -> bool) w : pool_ok w -> NoDup (map (fun kc => pc_client kc.2) (map_to_list (filter (fun kc => bad kc.2 = true) (connections w)))).
Proof.
  intros Hp. change (map ?f ?l) with (f <$> l). apply NoDup_fmap_2_strong; [|apply NoDup_map_to_list].
  intros [k c] [k' c'] Hin%elem_of_map_to_list Hin'%elem_of_map_to_list. cbn. intros He.
  apply map_lookup_filter_Some in Hin as [Hk _], Hin' as [Hk' _]. assert (k = k') as <- by by eapply (i_distinct _ Hp). congruence.
Qed.

Lemma inv_sweep (bad : PooledConnection -> bool) w : Inv w -> Inv (snd (sweep bad w)).
Proof.
  intros [Ht Hc Hp]. unfold sweep. cbn [snd]. split; [keeps Ht|keeps Hc|]. pose proof (closed_once (bad : PooledConnection -> bool) w Hp) as Ho. destruct Hp as [H1 H2 H3 H4 H5 H6 H7 H8].
  split; cbn.
  - intros p url c [Hk _]%map_lookup_filter_Some. by eapply H1.
  - intros k c [Hk _]%map_lookup_filter_Some. by eapply H2.
  - intros n [Hn|(k & c & Hk & _ & <-)%closed_clients]%elem_of_app; [by apply H3|by eapply H2].
  - intros k k' c c' [Hk _]%map_lookup_filter_Some [Hk' _]%map_lookup_filter_Some. by apply H4.
  - intros k c Hcl [Hk Hb]%map_lookup_filter_Some [Hs|(k' & c' & Hk' & Hb' & He)%closed_clients]%elem_of_app; [by eapply H5|].
    assert (k' = k) as -> by by eapply H4. cbn in Hb. congruence.
  - intros Hcl. apply NoDup_app. split_and!; [by apply H6| |done]. intros n Hn (k & c & Hk & _ & <-)%closed_clients. by eapply H5.
  - intros Hcl. rewrite zlen_app, H7 by done. unfold zlen. rewrite length_map. lia.
  - intros Hcl. specialize (H8 Hcl). pose proof (zlen_nonneg (map_to_list (filter (fun kc => bad kc.2 = true) (connections w)))). lia.
Qed.

Lemma ok_make_room now : ok (fun _ => True) (make_room now) (fun _ w => poolClosed w = false -> activeConnections w + 1 <= max_open).
Proof.
  intros w Hi _. unfold make_room, get, mbind, M_bind. cbn [id]. destruct (_ <=? activeConnections w) eqn:Em.
  - pose proof (inv_sweep (IsIdle now (IdleTimeout (ConnectionPool config))) w Hi) as Hi'. unfold evictIdleConnections.
    pose proof (i_bound _ (i_pool _ Hi)) as Hb. unfold sweep in *. cbn [snd] in *. set (gone := map_to_list _) in *.
    destruct (zlen gone =? 0) eqn:Ez; cbn; split; try done. intros Hcl. specialize (Hb Hcl). pose proof (zlen_nonneg gone). lia.
  - cbn. split; [done|]. intros _. unfold max_open. lia.
Qed.

(** A client that was connected and put into the pool. *)
Definition connected_client (now : Z) (url : string) (p : ClientType) (w : World) : World :=
  set_pool (<[(p, url) := mkPooled (made w) url p now now 1 true]> (connections w)) (activeConnections w + 1) (totalConnections w + 1) (shut w) (set_made (S (made w)) w).

Lemma inv_connected now url p w :
  Inv w -> suits url p = true -> (poolClosed w = false -> activeConnections w + 1 <= max_open) -> Inv (connected_client now url p w).
Proof.
  intros [Ht Hc [H1 H2 H3 H4 H5 H6 H7 H8]] Hs Hr. split; [keeps Ht|keeps Hc|]. split; cbn; try done.
  - intros p' u c [[[= <- <-] <-]|[_ Hk]]%lookup_insert_Some; [done|by eapply H1].
  - intros k c [[<- <-]|[_ Hk]]%lookup_insert_Some; [cbn; lia|]. specialize (H2 k c Hk). lia.
  - intros n Hn%H3. lia.
  - intros k k' c c' [[<- <-]|[_ Hk]]%lookup_insert_Some [[<- <-]|[_ Hk']]%lookup_insert_Some; cbn; [done|..|by apply H4].
    + specialize (H2 _ _ Hk'). lia.
    + specialize (H2 _ _ Hk). lia.
  - intros k c Hcl [[<- <-]|[_ Hk]]%lookup_insert_Some; [|by apply (H5 k)]. cbn. intros Hin%H3. lia.
  - intros Hcl. rewrite H7 by done. lia.
Qed.

(** Values of the table change, not their clients. *)
Lemma inv_touch (f : PooledConnection -> PooledConnection) k w :
  (forall c, pc_client (f c) = pc_client c) -> Inv w ->
  Inv (set_pool (alter f k (connections w)) (activeConnections w) (totalConnections w) (shut w) w).
Proof.
  intros Hf [Ht Hc [H1 H2 H3 H4 H5 H6 H7 H8]].
  assert (forall k' c', alter f k (connections w) !! k' = Some c' -> exists c, connections w !! k' = Some c /\ pc_client c' = pc_client c) as Ha.
  { intros k' c'. destruct (decide (k = k')) as [<-|Hne]; [|rewrite lookup_alter_ne by done; by exists c']. rewrite lookup_alter_eq.
    destruct (connections w !! k) as [c|]; [|done]. intros [= <-]. by exists c. }
  split; [keeps Ht|keeps Hc|]. split; cbn; try done.
  - intros p url c (c0 & Hk & _)%Ha. by eapply H1.
  - intros k' c (c0 & Hk & ->)%Ha. by eapply H2.
  - intros k1 k2 c1 c2 (c & Hk & ->)%Ha (c' & Hk' & ->)%Ha. by eapply H4.
  - intros k' c Hcl (c0 & Hk & ->)%Ha. by eapply H5.
Qed.

Lemma inv_health health w : Inv w -> Inv (snd (performHealthChecks health w)).
Proof.
  intros [Ht Hc [H1 H2 H3 H4 H5 H6 H7 H8]]. split; [keeps Ht|keeps Hc|]. split; cbn; try done.
  - intros p url c (c0 & <- & Hk)%lookup_fmap_Some. by eapply H1.
  - intros k c (c0 & <- & Hk)%lookup_fmap_Some. exact (H2 k c0 Hk).
  - intros k k' c c' (c0 & <- & Hk)%lookup_fmap_Some (c1 & <- & Hk')%lookup_fmap_Some. exact (H4 _ _ c0 c1 Hk Hk').
  - intros k c Hcl (c0 & <- & Hk)%lookup_fmap_Some. exact (H5 k c0 Hcl Hk).
Qed.

Lemma ok_RemoveConnection url p : ok (fun _ => True) (RemoveConnection url p) (fun _ _ => True).
Proof.
  intros w [Ht Hc [H1 H2 H3 H4 H5 H6 H7 H8]] _. unfold RemoveConnection, get, mbind, M_bind. cbn [id]. destruct (connections w !! (p, url)) as [c|] eqn:E; [|done].
  cbn. split; [|done]. split; [keeps Ht|keeps Hc|]. split; cbn.
  - intros q u c' [_ Hk]%lookup_delete_Some. by eapply H1.
  - intros k c' [_ Hk]%lookup_delete_Some. by eapply H2.
  - intros n [Hn|Hn%list_elem_of_singleton]%elem_of_app; [by apply H3|]. subst n. by eapply H2.
  - intros k k' c1 c2 [_ Hk]%lookup_delete_Some [_ Hk']%lookup_delete_Some. by apply H4.
  - intros k c' Hcl [Hne Hk]%lookup_delete_Some [Hs|He%list_elem_of_singleton]%elem_of_app; [by eapply H5|].
    apply Hne. by eapply (H4 _ _ c c').
  - intros Hcl. apply NoDup_app. split_and!; [by apply H6| |apply NoDup_singleton]. intros n Hn He%list_elem_of_singleton. subst n. by eapply H5.
  - intros Hcl. rewrite zlen_app, H7 by done. unfold zlen. cbn [length]. lia.
  - intros Hcl. specialize (H8 Hcl). lia.
Qed.

Lemma inv_ClosePool w : Inv w -> Inv (snd (ClosePool w)).
Proof.
  intros [Ht Hc [H1 H2 H3 H4 H5 H6 H7 H8]]. split; [keeps Ht|keeps Hc|]. split; cbn; try done.
  intros n [Hn|Hin]%elem_of_app; [by apply H3|]. change (map ?f ?l) with (f <$> l) in Hin.
  apply list_elem_of_fmap in Hin as ([k c] & -> & Hk%elem_of_map_to_list). by eapply H2.
Qed.

(** *** What detection finds suits the URL *)

Lemma probe_suits n url p : canConnectWithProtocol n url p = true -> suits url p = true.
Proof.
  assert (forall u a b, negb (negb (bool_decide (Validate.Scheme u = a)) && negb (bool_decide (Validate.Scheme u = b))) = true ->
    bool_decide (Validate.Scheme u ∈ [a; b]) = true) as Hs.
  { intros u a b Ht. apply bool_decide_eq_true. rewrite elem_of_cons, list_elem_of_singleton. revert Ht.
    destruct (bool_decide_reflect (Validate.Scheme u = a)), (bool_decide_reflect (Validate.Scheme u = b)); auto; done. }
  unfold canConnectWithProtocol, suits, has_scheme, canConnectStdio, canConnectWebSocket, canConnectHTTP, validateHTTPURL, canConnectSSE, validateSSEURL.
  destruct (bool_decide (p = ClientTypeStdio)); [by destruct (command_of url)|].
  destruct (bool_decide (p = ClientTypeWebSocket)), (bool_decide (p = ClientTypeHTTP)), (bool_decide (p = ClientTypeSSE)), (Validate.url_Parse url) as [u|]; try done;
    intros Hc; apply Hs; by destruct (negb _ && negb _).
Qed.

Lemma suits_known url p : suits url p = true -> known_protocol p = true.
Proof.
  unfold suits, known_protocol. intros Hs. apply bool_decide_eq_true. rewrite !elem_of_cons.
  destruct (bool_decide_reflect (p = ClientTypeStdio)); [auto|]. destruct (bool_decide_reflect (p = ClientTypeWebSocket)); [auto|].
  destruct (bool_decide_reflect (p = ClientTypeHTTP)); [auto|]. destruct (bool_decide_reflect (p = ClientTypeSSE)); [auto|done].
Qed.

Lemma suits_not_empty url p : suits url p = true -> p <> EmptyString.
Proof. by intros Hs ->. Qed.

Definition anywhere : World -> Prop := fun _ => True.

Lemma ok_metrics f : ok anywhere (updateMetrics f) (fun _ => anywhere).
Proof. by apply ok_updateMetrics. Qed.

Lemma ok_checkCache url : ok anywhere (checkCache url) (fun o _ => match o with Some p => suits url p = true | None => True end).
Proof.
  unfold checkCache. destruct (CacheResults _); [|by apply ok_ret]. intros w Hi _. unfold ReadCache, get, mbind, M_bind. cbn [id].
  destruct (protocolCache w !! url) as [p|] eqn:E; cbn; [|by split; [apply inv_metrics|]].
  destruct (bool_decide_reflect (p = EmptyString)); cbn; (split; [by apply inv_metrics|]); [done|].
  by destruct (i_cache _ (i_cacheok _ Hi) _ _ E).
Qed.

Lemma ok_cacheResult url p : p = EmptyString \/ suits url p = true -> ok anywhere (cacheResult url p) (fun _ => anywhere).
Proof. intros Hp. unfold cacheResult. destruct (CacheResults _); [|by apply ok_ret]. intros w Hi _. split; [by apply inv_set_entry|done]. Qed.

Lemma ok_TestProtocols url hints ns : ok anywhere (TestProtocols url hints ns) (fun p _ => suits url p = true).
Proof.
  revert ns. induction hints as [|p hints IH]; intros ns; cbn [TestProtocols]; [apply ok_fail|].
  destruct (ended_before _); [apply ok_fail|]. destruct (canConnectWithProtocol _ url p) eqn:Ec.
  - eapply ok_bind; [apply ok_metrics|]. intros []. apply ok_ret. intros _ _. by eapply probe_suits.
  - destruct (ended_after _); [apply ok_fail|apply IH].
Qed.

Lemma ok_enabled P : ok P validateDetectionEnabled (fun _ => anywhere).
Proof. unfold validateDetectionEnabled. destruct (ad_Enabled _); [by apply ok_ret|apply ok_fail]. Qed.

Lemma ok_settle {A} (r : result failure A) P (Q : A -> World -> Prop) :
  (forall w, P w -> match r with Ok a => Q a w | Err e => e <> Panicked end) -> ok P (settle r) Q.
Proof. intros Hr w Hi Hp. specialize (Hr w Hp). unfold settle. by destruct r. Qed.

Lemma ok_DetectProtocolWithHints ns url : ok anywhere (DetectProtocolWithHints ns url) (fun p _ => suits url p = true).
Proof.
  eapply ok_bind; [apply ok_checkCache|]. intros [p|]; [by apply ok_ret|].
  eapply ok_bind; [apply ok_enabled|]. intros [].
  intros w Hi _. pose proof (ok_attempt _ _ _ (ok_TestProtocols url (GetHints url) ns) w Hi I) as Ha.
  unfold mbind, M_bind. destruct (attempt _ w) as [[r|e] w'] eqn:Et; [|done]. destruct Ha as [Hi' Hr].
  assert (match r with Ok p => p | Err _ => EmptyString end = EmptyString \/ suits url (match r with Ok p => p | Err _ => EmptyString end) = true) as Hc
    by (destruct r; [by right|by left]).
  pose proof (ok_cacheResult url _ Hc w' Hi' I) as Hw. destruct (cacheResult _ _ w') as [[[]|e] w'']; [|done].
  apply (ok_settle r anywhere); [by destruct r|apply Hw|done].
Qed.

Lemma ok_DetectProtocol ns url : ok anywhere (DetectProtocol ns url) (fun p _ => suits url p = true).
Proof.
  eapply ok_bind; [apply ok_checkCache|]. intros [p|]; [by apply ok_ret|].
  eapply ok_bind; [apply ok_enabled|]. intros [].
  revert ns. induction (PreferredOrder _) as [|p order IH]; intros ns; cbn [try_preferred].
  - eapply ok_bind; [by apply ok_cacheResult; left|]. intros []. apply ok_fail.
  - destruct (canConnectWithProtocol _ url p) eqn:Ec; [|apply IH]. apply probe_suits in Ec.
    eapply ok_bind; [by apply ok_cacheResult; right|]. intros []. eapply ok_bind; [apply ok_metrics|]. intros []. by apply ok_ret.
Qed.

(** *** Clients *)

(** The client [n] is in the pool, for the URL by the protocol. *)
Definition pooled (url : string) (p : ClientType) (n : nat) (w : World) : Prop :=
  suits url p = true /\ exists c, connections w !! (p, url) = Some c /\ pc_client c = n.

Lemma ok_GetConnection now url p connected :
  suits url p = true -> ok anywhere (GetConnection now url p (createClientConnectionFunc connected url p)) (fun c => pooled url p (pc_client c)).
Proof.
  intros Hs. unfold GetConnection. eapply ok_bind; [apply ok_get|]. intros [c|]; cbn beta iota.
  - eapply ok_bind with (R := fun _ => pooled url p (pc_client (UpdateLastUsed now c))); [|intros []; by apply ok_ret]. intros w Hi [_ Hr]. split.
    + assert (<[(p, url) := UpdateLastUsed now c]> (connections w) = alter (UpdateLastUsed now) (p, url) (connections w)) as ->; [|by apply inv_touch].
      unfold reusable in Hr. destruct (EnableConnectionReuse _); [|done]. destruct (connections w !! (p, url)) as [c'|] eqn:E; [|done].
      destruct (IsHealthy c'); [|done]. simplify_eq. apply map_eq. intros k. destruct (decide (k = (p, url))) as [->|Hne].
      * by rewrite lookup_insert_eq, lookup_alter_eq, E.
      * by rewrite lookup_insert_ne, lookup_alter_ne.
    + split; [done|]. eexists. split; [apply lookup_insert_eq|done].
  - eapply ok_bind; [eapply ok_weaken; [apply ok_make_room|done|]; intros a w Hw; exact Hw|]. intros [] w Hi Hr.
    unfold createClientConnectionFunc, wrap, M_wrap, mbind, M_bind. destruct (createClient config url p) eqn:Ec; cbn; [|by split; [apply inv_metrics|]].
    destruct connected; cbn; [by split; [apply inv_metrics|]|]. unfold store. rewrite (suits_known url p) by done. cbn. split; [by apply inv_connected|].
    split; [done|]. eexists. split; [apply lookup_insert_eq|done].
Qed.

Lemma ok_GetClient now ns ns' connected url :
  ok anywhere (GetClient now ns ns' connected url) (fun n w => exists p, pooled url p n w).
Proof.
  unfold GetClient. eapply ok_bind; [apply ok_get|]. intros w0. destruct (negb (running w0)); [apply ok_fail|].
  eapply ok_bind with (R := fun r _ => match r with Ok p => suits url p = true | Err e => e <> Panicked end).
  { eapply ok_weaken; [eapply ok_attempt, ok_DetectProtocolWithHints|by intros w _|]. intros [p|e] w Hw; exact Hw. }
  intros r. eapply ok_bind with (R := fun p _ => suits url p = true).
  - destruct r as [p|[t|]]; [by apply ok_ret|..].
    + apply ok_wrap. eapply ok_weaken; [apply ok_DetectProtocol|by intros w _|done].
    + by apply ok_settle.
  - intros p w Hi Hs. revert w Hi. enough (ok anywhere (getOrCreateClient now connected url p) (fun n w => exists p, pooled url p n w)) as Ho by (intros w Hi; by apply Ho).
    eapply ok_bind; [by apply ok_GetConnection|]. intros c. eapply ok_bind; [apply ok_updateMetrics with (P := pooled url p (pc_client c)); done|].
    intros []. apply ok_ret. intros w Hw. by exists p.
Qed.

Lemma ok_RemoveClient url p : ok anywhere (RemoveClient url p) (fun _ => anywhere).
Proof. eapply ok_bind; [apply ok_RemoveConnection|]. intros []. by apply ok_updateMetrics. Qed.

Lemma ok_inv {A} P (m : W A) Q w : ok P m Q -> Inv w -> P w -> Inv (snd (m w)).
Proof. intros Hm Hi Hp. specialize (Hm w Hi Hp). by destruct (m w) as [[a|e] w']; destruct Hm. Qed.

Lemma inv_running r s w : Inv w -> Inv (set_running r s w).
Proof. intros [Ht Hc Hp]. split; [keeps Ht|keeps Hc|keeps Hp]. Qed.

Lemma inv_Start a b c w : Inv w -> Inv (snd (Start a b c w)).
Proof.
  intros Hi. unfold Start, get, mbind, M_bind. cbn [id]. destruct (running w); [done|]. destruct a, b, c; cbn; repeat apply inv_running; done.
Qed.

Lemma manager_step w w' : step w w' -> Inv w -> Inv w'.
Proof.
  intros [] Hi; try (by eapply ok_inv; [apply ok_GetClient| |]); try (by eapply ok_inv; [apply ok_RemoveClient| |]).
  - by apply inv_sweep.
  - by apply inv_health.
  - by apply inv_metrics.
  - by apply inv_expire.
  - by apply inv_Start.
  - unfold mbind, M_bind, signalShutdown, modify. cbn beta iota. by apply inv_cleanupResources, inv_running.
  - by apply inv_ClosePool.
  - by apply inv_running.
Qed.

Lemma inv_fresh : Inv fresh_manager.
Proof.
  split; split; cbn; try done; intros;
    repeat match goal with H : ∅ !! _ = Some _ |- _ => by apply lookup_empty_Some in H | H : _ ∈ [] |- _ => by apply not_elem_of_nil in H end.
  - constructor.
  - unfold max_open. lia.
Qed.

Lemma manager_inv w : reachable w -> Inv w.
Proof.
  revert w. unfold reachable. refine (rtc_ind_r _ _ inv_fresh _). intros w1 w2 _ Hs Hi. by eapply manager_step.
Qed.

(** *** Clients that nothing will close *)

(** Connected, not closed, and not in the table any more. *)
Definition lost (n : nat) (w : World) : Prop := (n < made w)%nat /\ (n ∉ shut w) /\ (forall k c, connections w !! k = Some c -> pc_client c <> n).

(** What an operation can do: close what is in the table, and put clients there that are new or were there. *)
Record evolves (w w' : World) : Prop := {
  e_made : (made w <= made w')%nat;
  e_shut n : n ∈ shut w' -> n ∈ shut w \/ (exists k c, connections w !! k = Some c /\ pc_client c = n) \/ (made w <= n)%nat;
  e_table k c : connections w' !! k = Some c -> (exists k' c', connections w !! k' = Some c' /\ pc_client c' = pc_client c) \/ (made w <= pc_client c)%nat;
}.

Lemma evolves_lost n w w' : evolves w w' -> lost n w -> lost n w'.
Proof.
  intros [Hm Hs Ht] (Hn & Hns & Hc). split_and!; [lia|intros [Hx|[(k & c & Hk & He)|Hx]]%Hs|intros k c [(k' & c' & Hk & He)|Hx]%Ht]; try done; try lia.
  - by apply (Hc k c).
  - rewrite <- He. by eapply Hc.
Qed.

#[local] Instance evolves_trans : PreOrder evolves.
Proof.
  split.
  - intros w. split; [lia|auto|]. intros k c Hk. left. by exists k, c.
  - intros w1 w2 w3 [Hm Hs Ht] [Hm' Hs' Ht']. split; [lia|..].
    + intros n [Hn|[(k & c & Hk & <-)|Hn]]%Hs'; [by apply Hs| |right; right; lia]. destruct (Ht k c Hk) as [(k' & c' & Hk' & He)|]; [|auto].
      right; left. by exists k', c'.
    + intros k c [(k' & c' & Hk & <-)|Hn]%Ht'; [|right; lia]. by apply (Ht k').
Qed.

(** The table and its clients stay. *)
Lemma evolves_same w w' : connections w' = connections w -> shut w' = shut w -> (made w <= made w')%nat -> evolves w w'.
Proof. intros Hc Hs Hm. split; rewrite ?Hc, ?Hs; [done|auto|]. intros k c Hk. left. by exists k, c. Qed.

Definition moves {A} (m : W A) : Prop := forall w, evolves w (snd (m w)).

Lemma moves_bind {A B} (m : W A) (f : A -> W B) : moves m -> (forall a, moves (f a)) -> moves (m ≫= f).
Proof. intros Hm Hf w. specialize (Hm w). unfold mbind, M_bind. destruct (m w) as [[a|e] w']; [|done]. etrans; [done|apply Hf]. Qed.
Lemma moves_ret {A} (a : A) : moves (mret a).
Proof. by intros w. Qed.
Lemma moves_fail {A} t : moves (fail (A := A) t).
Proof. by intros w. Qed.
Lemma moves_get {A} (f : World -> A) : moves (get f).
Proof. by intros w. Qed.
Lemma moves_settle {A} (r : result failure A) : moves (settle r).
Proof. by intros w. Qed.
Lemma moves_wrap {A} t (m : W A) : moves m -> moves (wrap t m).
Proof. intros Hm w. specialize (Hm w). unfold wrap, M_wrap. by destruct (m w) as [[a|[]] w']. Qed.
Lemma moves_attempt {A} (m : W A) : moves m -> moves (attempt m).
Proof. intros Hm w. specialize (Hm w). unfold attempt. by destruct (m w). Qed.
Lemma moves_quiet f : (forall w, connections (f w) = connections w /\ shut (f w) = shut w /\ (made w <= made (f w))%nat) -> moves (modify f).
Proof. intros Hf w. destruct (Hf w) as (? & ? & ?). by apply evolves_same. Qed.

Create HintDb moves.
#[local] Hint Resolve moves_ret moves_fail moves_get moves_settle moves_wrap moves_attempt : moves.
#[local] Hint Extern 3 (moves (mbind _ _)) => apply moves_bind : moves.
#[local] Hint Extern 3 (moves (modify _)) => apply moves_quiet; intros; cbn; repeat split; auto with arith : moves.

Lemma moves_metrics f : moves (updateMetrics f).
Proof. unfold updateMetrics. auto with moves. Qed.
Lemma moves_checkCache url : moves (checkCache url).
Proof.
  unfold checkCache, ReadCache. destruct (CacheResults _); [|auto with moves]. apply moves_bind; [auto with moves|]. intros w.
  destruct (_ !! url) as [p|]; (apply moves_bind; [apply moves_metrics|]); intros []; [|auto with moves]. destruct (bool_decide _); auto with moves.
Qed.
Lemma moves_enabled : moves validateDetectionEnabled.
Proof. unfold validateDetectionEnabled. destruct (ad_Enabled _); auto with moves. Qed.
Lemma moves_cacheResult url p : moves (cacheResult url p).
Proof. unfold cacheResult, setCacheEntryWithExpiration. destruct (CacheResults _); auto with moves. Qed.
Lemma moves_TestProtocols url hints ns : moves (TestProtocols url hints ns).
Proof.
  revert ns. induction hints as [|p hints IH]; intros ns; cbn [TestProtocols]; [auto with moves|].
  destruct (ended_before (ns 0%nat)), (canConnectWithProtocol (ns 0%nat) url p), (ended_after (ns 0%nat)); auto with moves; apply moves_bind; auto using moves_metrics with moves.
Qed.
Lemma moves_hinted ns url : moves (DetectProtocolWithHints ns url).
Proof.
  apply moves_bind; [apply moves_checkCache|]. intros [p|]; [auto with moves|]. apply moves_bind; [apply moves_enabled|]. intros [].
  apply moves_bind; [apply moves_attempt, moves_TestProtocols|]. intros r. apply moves_bind; [apply moves_cacheResult|auto with moves].
Qed.
Lemma moves_preferred ns url : moves (DetectProtocol ns url).
Proof.
  apply moves_bind; [apply moves_checkCache|]. intros [p|]; [auto with moves|]. apply moves_bind; [apply moves_enabled|]. intros [].
  revert ns. induction (PreferredOrder _) as [|p order IH]; intros ns; cbn [try_preferred].
  - apply moves_bind; [apply moves_cacheResult|auto with moves].
  - destruct (canConnectWithProtocol (ns 0%nat) url p); [|apply IH]. apply moves_bind; [apply moves_cacheResult|]. intros _. apply moves_bind; [apply moves_metrics|auto with moves].
Qed.

Lemma moves_sweep (bad : PooledConnection -> bool) : moves (sweep bad).
Proof.
  intros w. unfold sweep. cbn [snd]. split; cbn; [lia|..].
  - intros n [Hn|Hn%closed_clients]%elem_of_app; [auto|]. right; left. naive_solver.
  - intros k c [Hk _]%map_lookup_filter_Some. left. by exists k, c.
Qed.

Lemma moves_make_room now : moves (make_room now).
Proof.
  unfold make_room. apply moves_bind; [auto with moves|]. intros w. destruct (_ <=? _); [|auto with moves].
  apply moves_bind; [apply moves_sweep|]. intros n. destruct (n =? 0); auto with moves.
Qed.

(** A client that has the next number is put into the table. *)
Lemma evolves_store w w' k c a t : connections w' = connections w -> shut w' = shut w -> (made w <= made w')%nat -> (made w <= pc_client c)%nat ->
  evolves w (set_pool (<[k := c]> (connections w')) a t (shut w') w').
Proof.
  intros Hc Hs Hm Hn. split; cbn; rewrite ?Hc, ?Hs; [done|auto|]. intros k' c' [[<- <-]|[_ Hk]]%lookup_insert_Some; [by right|left; by exists k', c'].
Qed.

Lemma moves_GetConnection now url p connected : moves (GetConnection now url p (createClientConnectionFunc connected url p)).
Proof.
  intros w. unfold GetConnection, get. unfold mbind at 1, M_bind at 1. cbn beta iota. destruct (reusable url p w) as [c|] eqn:Er.
  - unfold mbind, M_bind, modify. unfold reusable in Er. destruct (EnableConnectionReuse _); [|done]. destruct (connections w !! (p, url)) as [c'|] eqn:E; [|done].
    destruct (IsHealthy c'); [|done]. simplify_eq. split; cbn; [done|auto|].
    intros k c' [[<- <-]|[_ Hk]]%lookup_insert_Some; left; [by exists (p, url), c|by exists k, c'].
  - revert w Er. intros w _. revert w. change (moves (_ ← make_room now; client ← wrap "failed to create client" (createClientConnectionFunc connected url p);
      _ ← store url p (mkPooled client url p now now 1 true); mret (mkPooled client url p now now 1 true))).
    apply moves_bind; [apply moves_make_room|]. intros _ w. unfold createClientConnectionFunc, wrap, M_wrap, mbind, M_bind.
    destruct (createClient config url p); cbn; [|by apply evolves_same]. destruct connected; cbn; [by apply evolves_same|].
    unfold store. destruct (known_protocol p); cbn; [|apply evolves_same; cbn; auto]. apply (evolves_store w (set_made (S (made w)) w)); cbn; auto.
Qed.

Lemma moves_GetClient now ns ns' connected url : moves (GetClient now ns ns' connected url).
Proof.
  apply moves_bind; [auto with moves|]. intros w. destruct (negb _); [auto with moves|]. apply moves_bind; [apply moves_attempt, moves_hinted|]. intros r.
  apply moves_bind; [destruct r as [p|[t|]]; [auto with moves|apply moves_wrap, moves_preferred|auto with moves]|]. intros p.
  apply moves_bind; [apply moves_GetConnection|]. intros c. apply moves_bind; [apply moves_metrics|auto with moves].
Qed.

Lemma moves_RemoveConnection url p : moves (RemoveConnection url p).
Proof.
  intros w. unfold RemoveConnection, get, mbind, M_bind. cbn [id]. destruct (connections w !! (p, url)) as [c|] eqn:E; [|done]. cbn. split; cbn; [done|..].
  - intros n [Hn|Hn%list_elem_of_singleton]%elem_of_app; [auto|]. subst n. right; left. by exists (p, url), c.
  - intros k c' [_ Hk]%lookup_delete_Some. left. by exists k, c'.
Qed.

Lemma step_evolves w w' : step w w' -> evolves w w'.
Proof.
  intros []; try (by apply evolves_same); try apply moves_GetClient; try apply moves_sweep.
  - revert w0. apply moves_bind; [apply moves_RemoveConnection|]. intros []. apply moves_metrics.
  - split; cbn; [done|auto|]. intros k c (c0 & <- & Hk)%lookup_fmap_Some. left. by exists k, c0.
  - unfold expire, modify. cbn [snd]. destruct (armed _ !! t); by apply evolves_same.
  - unfold Start, get, mbind, M_bind. cbn [id]. destruct (running w0); [done|]. destruct a, b, c; by apply evolves_same.
  - split; cbn; [done|..].
    + intros n [Hn|Hin]%elem_of_app; [auto|]. change (map ?f ?l) with (f <$> l) in Hin. apply list_elem_of_fmap in Hin as ([k c] & -> & Hk%elem_of_map_to_list).
      right; left. by exists k, c.
    + intros k c Hk. left. by exists k, c.
Qed.

(** ** Properties *)

(** C12: Whatever happened to a manager before and whatever the network says, a call for a client does not panic; the client it
    returns is in the pool for the URL, by a protocol that can speak to the URL, and is open unless the pool was closed. *)
Theorem client_speaks_protocol now ns ns' connected url w :
  reachable w ->
  match GetClient now ns ns' connected url w with
  | (Ok n, w') => exists p c, suits url p = true /\ connections w' !! (p, url) = Some c /\ pc_client c = n /\ (poolClosed w' = false -> n ∉ shut w')
  | (Err e, _) => e <> Panicked
  end.
Proof.
  intros Hr. pose proof (ok_GetClient now ns ns' connected url w (manager_inv w Hr) I) as Ho.
  destruct (GetClient now ns ns' connected url w) as [[n|e] w']; [|by destruct Ho]. destruct Ho as [Hi (p & Hs & c & Hk & <-)].
  exists p, c. split_and!; [done..|]. intros Hc. by apply (i_open _ (i_pool _ Hi) _ _ Hc Hk).
Qed.

(** The clients of the table are different, and none of them is closed. *)
Lemma table_size w : pool_ok w -> poolClosed w = false -> Z.of_nat (size (connections w)) <= activeConnections w.
Proof.
  intros Hp Hc. pose proof (closed_once (fun _ => true) w Hp) as Hd. rewrite map_filter_id in Hd by done.
  assert (NoDup (map (fun kc => pc_client kc.2) (map_to_list (connections w)) ++ shut w)) as Hn.
  { apply NoDup_app. split_and!; [done| |by apply (i_once _ Hp)]. intros n Hin. change (map ?f ?l) with (f <$> l) in Hin.
    apply list_elem_of_fmap in Hin as ([k c] & -> & Hk%elem_of_map_to_list). by apply (i_open _ Hp k). }
  assert (length (map (fun kc => pc_client kc.2) (map_to_list (connections w)) ++ shut w) <= length (seq 0 (made w)))%nat as Hl.
  { apply submseteq_length, NoDup_submseteq; [done|]. intros n Hin. apply elem_of_seq. split; [lia|].
    apply elem_of_app in Hin as [Hin|Hin]; [|by apply (i_shut _ Hp)]. change (map ?f ?l) with (f <$> l) in Hin.
    apply list_elem_of_fmap in Hin as ([k c] & -> & Hk%elem_of_map_to_list). by apply (i_made _ Hp k). }
  rewrite length_app, length_map, length_seq in Hl. rewrite (i_active _ Hp Hc), <- length_map_to_list. unfold zlen. lia.
Qed.

(** C13: While the pool is open its counter is the number of clients that were connected and not closed, each closed at most once;
    it is not above the configured maximum, and at least the number of connections in the table. *)
Theorem pool_accounting w :
  reachable w -> poolClosed w = false ->
  activeConnections w = Z.of_nat (made w) - zlen (shut w) /\ NoDup (shut w) /\
  Z.of_nat (size (connections w)) <= activeConnections w <= Z.max 0 (MaxActiveConnections (ConnectionPool config)).
Proof.
  intros Hr%manager_inv Hc. destruct Hr as [_ _ Hp]. split_and!; [by apply i_active|by apply i_once|by apply table_size|by apply i_bound].
Qed.

(** Every cached result of a reachable manager is a failure or a protocol that suits the URL, and has exactly one timer that runs:
    when this timer runs out the result is gone, and when any other timer runs out it stays. *)
Lemma cached_results_end url p w :
  reachable w -> protocolCache w !! url = Some p ->
  (p = EmptyString \/ suits url p = true) /\
  exists t, armed w !! t = Some url /\ protocolCache (snd (expire t w)) !! url = None /\ forall t', t' <> t -> protocolCache (snd (expire t' w)) !! url = Some p.
Proof.
  intros [Ht Hc _]%manager_inv Hu. split; [by eapply (i_cache _ Hc)|]. destruct (i_cached _ Ht _ _ Hu) as [t Hti]. pose proof Hti as Ha.
  apply (i_armed _ Ht) in Ha. exists t. unfold expire, modify. cbn [snd]. split; [done|]. rewrite Ha. split; [by apply lookup_delete_eq|]. intros t' Hne.
  destruct (armed w !! t') as [u|] eqn:E; [|done]. cbn. rewrite lookup_delete_ne; [done|]. intros ->. apply (i_armed _ Ht) in E. congruence.
Qed.

(** When results are cached, a detection by hints that fails leaves a state in which the other detection fails too, whatever
    the network would say to it: the fallback is never tried. *)
Lemma fallback_never_tried ns ns' url e w w' :
  CacheResults (AutoDetection config) = true -> DetectProtocolWithHints ns url w = (Err e, w') -> exists e', fst (DetectProtocol ns' url w') = Err e'.
Proof.
  intros Hcache. unfold DetectProtocolWithHints, DetectProtocol, checkCache, cacheResult. rewrite Hcache. unfold ReadCache, get, mbind, M_bind. cbn [id].
  destruct (protocolCache w !! url) as [p|] eqn:E.
  - cbn. destruct (bool_decide_reflect (p = EmptyString)) as [->|]; [|done]. intros [= <- <-]. cbn. rewrite E. by eexists.
  - unfold validateDetectionEnabled. cbn. destruct (ad_Enabled _); cbn; [|intros [= <- <-]; cbn; rewrite E; by eexists].
    unfold attempt. destruct (TestProtocols _ _ _ _) as [[p|x] w1]; cbn; [done|]. intros [= <- <-]. cbn. rewrite lookup_insert_eq. cbn. by eexists.
Qed.

(** A client that was replaced in the table without being closed is never closed afterwards, whatever happens to the manager,
    its shutdown included. *)
Lemma lost_clients_never_closed n w w' : lost n w -> rtc step w w' -> lost n w'.
Proof. intros Hl Hs. induction Hs as [|w1 w2 w3 Hs _ IH]; [done|]. apply IH. eapply evolves_lost; [by apply step_evolves|done]. Qed.

End Manager.

(** ** A manager at work *)

#[local] Instance sample_parsers : Validate.NetParsers := {|
  Validate.url_Parse := fun s => if HasPrefix s "http://" then Ok (Validate.mkURL "http" "h:80" "h" "80" "/") else Err "missing protocol scheme"%string;
  Validate.net_ParseIP := fun _ => false;
|}.

(** At most [n] connections, which are reused and kept for a minute. *)
Definition sample_manager (n : Z) : DirectConfig := sample_settings (mkFallback false 0 0 0 [] []) (mkPoolConfig 0 n Minute Minute Minute true Minute).
Definition sample_url : string := "http://h:80/".
(** The server speaks HTTP; or the caller's context has ended. *)
Definition speaks_http : nat -> Net := fun _ => mkNet (fun _ => false) (fun _ => false) false true None false false.
Definition cancelled : nat -> Net := fun _ => mkNet (fun _ => false) (fun _ => false) false false None true true.
Definition call (n : Z) (ns : nat -> Net) : W nat := GetClient (sample_manager n) 0 ns ns None sample_url.

Definition started : World := snd (Start None None None fresh_manager).
(** One client, whose health check fails. *)
Definition served (n : Z) : World := snd (call n speaks_http started).
Definition unhealthy (n : Z) : World := snd (performHealthChecks (fun _ => false) (served n)).
Definition replaced : World := snd (call 2 speaks_http (unhealthy 2)).

Lemma started_reachable n : reachable (sample_manager n) started.
Proof. apply rtc_once, step_start. Qed.
Lemma served_reachable n : reachable (sample_manager n) (served n).
Proof. eapply rtc_r; [apply started_reachable|apply step_get]. Qed.
Lemma unhealthy_reachable n : poolClosed (served n) = false -> reachable (sample_manager n) (unhealthy n).
Proof. intros Hc. eapply rtc_r; [apply served_reachable|by apply step_health]. Qed.

(** A client that is not healthy any more cannot be replaced when the pool is full. *)
Example full_of_the_unhealthy : fst (call 1 speaks_http (unhealthy 1)) = Err (Failed "maximum active connections reached (1)").
Proof. vm_compute. reflexivity. Qed.

(** When the pool is not full it is replaced, its client stays open, and the counter counts both. *)
Example replaced_not_closed :
  let w := replaced in (activeConnections w, size (connections w), made w, shut w, pc_client <$> connections w !! (ClientTypeHTTP, sample_url)) = (2, 1%nat, 2%nat, [], Some 1%nat).
Proof. vm_compute. reflexivity. Qed.

(** A caller that gives up makes the server undetectable for the others until the result expires. *)
Example cancelled_call_is_cached :
  let w := snd (call 1 cancelled started) in
  fst (call 1 speaks_http w) = Err (Failed "failed to detect protocol for http://h:80/: could not detect compatible protocol for http://h:80/").
Proof. vm_compute. reflexivity. Qed.

(** Between the closing of the pool and the end of the shutdown a caller gets a client that is closed. *)
Example closed_client_returned :
  let w := snd (ClosePool (snd ((_ ← signalShutdown; cleanupResources) (served 1)))) in
  let (r, w') := call 1 speaks_http w in (r, shut w') = (Ok 0%nat, [0%nat]).
Proof. vm_compute. reflexivity. Qed.

(** A manager that was stopped can be started again; its channel is still closed, so what it starts ends at once. *)
Example restarted_shut_down :
  let w := snd (Start None None None (snd (ExecuteShutdown None (served 1)))) in (running w, shutdown w, poolClosed w) = (true, true, true).
Proof. vm_compute. reflexivity. Qed.

(** *** The properties at work *)

Lemma client_speaks_protocol_witness :
  fst (call 1 speaks_http started) = Ok 0%nat /\
  match call 1 speaks_http started with
  | (Ok n, w') => exists p c, suits sample_url p = true /\ connections w' !! (p, sample_url) = Some c /\ pc_client c = n /\ (poolClosed w' = false -> n ∉ shut w')
  | (Err e, _) => e <> Panicked
  end.
Proof. split; [vm_compute; reflexivity|]. exact (client_speaks_protocol (sample_manager 1) 0 speaks_http speaks_http None sample_url started (started_reachable 1)). Defined.

Lemma pool_accounting_witness :
  connections (served 1) <> ∅ /\ activeConnections (served 1) = Z.of_nat (made (served 1)) - zlen (shut (served 1)) /\ NoDup (shut (served 1)) /\
  Z.of_nat (size (connections (served 1))) <= activeConnections (served 1) <= 1.
Proof.
  split; [by apply (bool_decide_eq_true _); vm_compute|].
  exact (pool_accounting (sample_manager 1) (served 1) (served_reachable 1) ltac:(vm_compute; reflexivity)).
Defined.

Lemma cached_results_end_witness :
  exists t, armed (served 1) !! t = Some sample_url /\ protocolCache (snd (expire t (served 1))) !! sample_url = None.
Proof.
  destruct (cached_results_end (sample_manager 1) sample_url ClientTypeHTTP (served 1) (served_reachable 1) ltac:(vm_compute; reflexivity)) as (_ & t & Ha & Hn & _).
  exists t. split; assumption.
Defined.

Lemma fallback_never_tried_witness :
  exists e', fst (DetectProtocol (sample_manager 1) speaks_http sample_url (snd (DetectProtocolWithHints (sample_manager 1) cancelled sample_url started))) = Err e'.
Proof.
  apply (fallback_never_tried (sample_manager 1) cancelled speaks_http sample_url (Failed "protocol detection timed out for http://h:80/") started);
    [vm_compute; reflexivity|]. apply injective_projections; [vm_compute; reflexivity|reflexivity].
Defined.

Lemma lost_clients_never_closed_witness :
  lost 0 replaced /\ lost 0 (snd (ExecuteShutdown None replaced)).
Proof.
  assert (lost 0 replaced) as Hl.
  { unfold lost. split; [apply Nat.ltb_lt; vm_compute; reflexivity|]. split.
    - apply (bool_decide_eq_true _). vm_compute. reflexivity.
    - apply map_Forall_lookup. apply (bool_decide_eq_true _). vm_compute. reflexivity. }
  split; [exact Hl|]. apply (lost_clients_never_closed (sample_manager 2) 0 replaced); [exact Hl|apply shutdown_steps].
Defined.

End DirectManager.
