(* ===== verification/TcpFrontend.v ===== *)
(** * The TCP frontend of the gateway

    [services/gateway/internal/frontends/tcp/frontend.go] over the frames of [Wire] and the messages of [Transport]: how
    connections are admitted, counted and served, one message at a time, and how they end.  The bytes of a connection
    are those that arrive before it ends or its deadline passes.  TLS and the listener are not modelled. *)
From S2P Require Import Prelude GoIO GoStrings Wire Mcp Transport Session Auth Frontends.
From Stdlib Require Import Strings.Ascii.
#[local] Open Scope Z_scope.

Module TcpFrontend.
Import Transport Frontends.

(** The manager of sessions as the frontend sees it; the identifier and the reading of the clock are arguments. *)
Class SessionManager (S : Type) := {
  create_session : Auth.Claims -> string -> Z -> M S Sessions.SessionError Sessions.Session;
  create_session_id : forall c id now m s m', create_session c id now m = (Ok s, m') -> Sessions.ID s = id;
}.

Definition memory_create (c : Auth.Claims) (id : string) (now : Z) : M Sessions.MemoryManager Sessions.SessionError Sessions.Session := fun m =>
  match Sessions.CreateSession (Auth.session_claims c) id now now m with
  | (Ok p, m') => match Sessions.heap m' !! p with Some s => (Ok s, m') | None => (Err Sessions.Panicked, m') end
  | (Err e, m') => (Err e, m')
  end.
#[export, refine] Instance memory_manager : SessionManager Sessions.MemoryManager := {| create_session := memory_create |}.
Proof.
  intros c id now m s m'. unfold memory_create, Sessions.CreateSession. destruct (Sessions.ClaimsExpiresAt _), (Sessions.sessions m); try done.
  cbn. rewrite lookup_insert_eq. by intros [= <- _].
Defined.

Definition redis_create `{Sessions.SessionStore} (c : Auth.Claims) (id : string) (now : Z) : M Sessions.RedisManager Sessions.SessionError Sessions.Session :=
  Sessions.RedisCreateSession (Auth.session_claims c) id now now now.
#[export, refine] Instance redis_manager `{Sessions.SessionStore} : SessionManager Sessions.RedisManager := {| create_session := redis_create |}.
Proof.
  intros c id now m s m'. unfold redis_create, Sessions.RedisCreateSession. destruct (Sessions.ClaimsExpiresAt _); [|done].
  repeat case_match; try done; by intros [= <- _].
Defined.

Section Tcp.
Context `{WireJSON} `{BufWriter W} `{RequestRouter R} `{SessionManager SM}.
(** The texts of the transport's errors. *)
Variable transport_text : TransportError -> string.

(** ** State *)

Record ClientConnection := mkClient {
  c_ID : string; c_Session : Sessions.Session; ClientIP : string; c_in : list byte; c_out : W; lastUsed : Z; c_closed : bool }.

(** A goroutine of [handleConnection]: its connection was let in, or it serves a registered client. *)
Inductive phase := Accepted (ip : string) (inp : list byte) (out : W) | Serving (c : ClientConnection).

(** [connections]: the goroutine of each session. *)
Record Frontend := mkFrontend {
  config : TcpConfig; router : R; sessions : SM; goroutines : gmap nat phase; connections : gmap string nat; connCount : Z;
  ipConnCount : gmap string Z; running : bool; shutdownCh : bool; metrics : FrontendMetrics }.

Definition CreateTCPFrontend (c : TcpConfig) (r : R) (s : SM) : Frontend := mkFrontend (tcp_ApplyDefaults c) r s ∅ ∅ 0 ∅ false false no_metrics.

Definition set_goroutines gs f := mkFrontend (config f) (router f) (sessions f) gs (connections f) (connCount f) (ipConnCount f) (running f) (shutdownCh f) (metrics f).
Definition set_backends r s f := mkFrontend (config f) r s (goroutines f) (connections f) (connCount f) (ipConnCount f) (running f) (shutdownCh f) (metrics f).
Definition set_registry cs n ips f := mkFrontend (config f) (router f) (sessions f) (goroutines f) cs n ips (running f) (shutdownCh f) (metrics f).
Definition set_running_ch r ch f := mkFrontend (config f) (router f) (sessions f) (goroutines f) (connections f) (connCount f) (ipConnCount f) r ch (metrics f).
Definition updateMetrics (fn : FrontendMetrics -> FrontendMetrics) (f : Frontend) : Frontend :=
  mkFrontend (config f) (router f) (sessions f) (goroutines f) (connections f) (connCount f) (ipConnCount f) (running f) (shutdownCh f) (fn (metrics f)).
Definition dec_active_pos (m : FrontendMetrics) : FrontendMetrics := if 0 <? ActiveConnections m then dec_active m else m.
Definition stopped (m : FrontendMetrics) : FrontendMetrics := mkFrontendMetrics 0 (TotalConnections m) (RequestCount m) (ErrorCount m) false.

Definition touched (now : Z) (c : ClientConnection) : ClientConnection := mkClient (c_ID c) (c_Session c) (ClientIP c) (c_in c) (c_out c) now (c_closed c).
Definition with_in (s : list byte) (c : ClientConnection) : ClientConnection := mkClient (c_ID c) (c_Session c) (ClientIP c) s (c_out c) (lastUsed c) (c_closed c).
Definition with_out (w : W) (c : ClientConnection) : ClientConnection := mkClient (c_ID c) (c_Session c) (ClientIP c) (c_in c) w (lastUsed c) (c_closed c).
Definition CloseClient (c : ClientConnection) : ClientConnection := mkClient (c_ID c) (c_Session c) (ClientIP c) (c_in c) (c_out c) (lastUsed c) true.

(** ** Counting *)

Definition checkConnectionLimit (f : Frontend) : bool * Frontend :=
  if tc_MaxConnections (config f) <=? connCount f then (false, updateMetrics inc_errors f) else (true, f).

Definition incrementIPConnCount (ip : string) (ips : gmap string Z) : gmap string Z := <[ip := default 0 (ips !! ip) + 1]> ips.
Definition decrementIPConnCount (ip : string) (ips : gmap string Z) : gmap string Z :=
  match ips !! ip with
  | Some n => if n - 1 <=? 0 then delete ip ips else <[ip := n - 1]> ips
  | None => ips
  end.

Definition registerConnection (t : nat) (c : ClientConnection) (f : Frontend) : Frontend :=
  updateMetrics (fun m => inc_total (inc_active m))
    (set_registry (<[c_ID c := t]> (connections f)) (connCount f + 1) (incrementIPConnCount (ClientIP c) (ipConnCount f)) f).

(** The client that is found under the session, with its address. *)
Definition ip_of (t : nat) (f : Frontend) : string := match goroutines f !! t with Some (Serving c) => ClientIP c | _ => EmptyString end.
Definition removeConnection (sessionID : string) (f : Frontend) : Frontend :=
  match connections f !! sessionID with
  | Some t =>
      updateMetrics dec_active_pos
        (set_registry (delete sessionID (connections f)) (connCount f - 1) (decrementIPConnCount (ip_of t f) (ipConnCount f)) f)
  | None => f
  end.

(** ** Connections *)

(** A session is made from claims without content. *)
Definition createConnectionSession (id : string) (now : Z) (f : Frontend) : result Sessions.SessionError Sessions.Session * Frontend :=
  match create_session Auth.no_claims id now (sessions f) with
  | (Ok s, ss) => (Ok s, set_backends (router f) ss f)
  | (Err Sessions.Panicked, ss) => (Err Sessions.Panicked, set_backends (router f) ss f)
  | (Err e, ss) => (Err e, updateMetrics inc_errors (set_backends (router f) ss f))
  end.

Definition setupClientConnection (ip : string) (s : Sessions.Session) (inp : list byte) (out : W) (now : Z) : ClientConnection :=
  mkClient (Sessions.ID s) s ip inp out now false.

(** A connection is accepted by the goroutine [t]: [handleConnection] up to the test of the limit. *)
Definition accept (t : nat) (ip : string) (inp : list byte) (out : W) (f : Frontend) : Frontend :=
  let (ok, f) := checkConnectionLimit f in
  if ok : bool then set_goroutines (<[t := Accepted ip inp out]> (goroutines f)) f else f.

(** [handleConnection] up to the loop; [None] when the gateway panics. *)
Definition establish (t : nat) (ip : string) (inp : list byte) (out : W) (id : string) (now : Z) (f : Frontend) : option Frontend :=
  match createConnectionSession id now f with
  | (Ok s, f) =>
      let c := setupClientConnection ip s inp out now in
      Some (registerConnection t c (set_goroutines (<[t := Serving c]> (goroutines f)) f))
  | (Err Sessions.Panicked, _) => None
  | (Err _, f) => Some (set_goroutines (delete t (goroutines f)) f)
  end.

(** ** Messages *)

(** The router and the client after a request, with what the metrics count. *)
Definition processRequest (req : Request) (now : Z) (c : ClientConnection) (f : Frontend) : result string unit * ClientConnection * Frontend :=
  let c := touched now c in
  let f := updateMetrics inc_requests f in
  match RouteRequest (WithValue TcpKey (c_Session c) []) req EmptyString (router f) with
  | (Err e, r) => (Err e, c, updateMetrics inc_errors (set_backends r (sessions f) f))
  | (Ok resp, r) =>
      let f := set_backends r (sessions f) f in
      match SendResponse resp (c_out c) with
      | (Ok _, w) => (Ok tt, with_out w c, f)
      | (Err e, w) => (Err ("failed to send response: " +:+ transport_text e)%string, with_out w c, updateMetrics inc_errors f)
      end
  end.

Definition error_response (id : jvalue) (text : string) : Response :=
  {| resp_JSONRPC := "2.0"; Result := JNull; RespError := Some {| Code := ErrorCodeInternalError; Message := text; Data := JNull |}; resp_ID := id |}.

(** One message; [None] for the client when the loop ends. *)
Definition receive (now : Z) (c : ClientConnection) (f : Frontend) : option ClientConnection * Frontend :=
  match ReceiveMessage (c_in c) with
  | (Err _, _) => (None, f)
  | (Ok (msgType, payload), rest) =>
      let c := with_in rest c in
      if msgType =? MessageTypeRequest then
        match payload with
        | MRequest req =>
            match processRequest req now c f with
            | (Ok _, c, f) => (Some c, f)
            | (Err e, c, f) => (Some (with_out (snd (SendResponse (error_response (req_ID req) e) (c_out c))) c), f)
            end
        | _ => (Some c, f)
        end
      else (Some c, f)
  end.

(** One round of [handleClientMessages] by the goroutine [t], and what follows the loop. *)
Definition round (t : nat) (now : Z) (f : Frontend) : Frontend :=
  match goroutines f !! t with
  | Some (Serving c) =>
      match (if c_closed c || shutdownCh f then (None, f) else receive now c f) with
      | (Some c, f) => set_goroutines (<[t := Serving c]> (goroutines f)) f
      | (None, f) => let f := removeConnection (c_ID c) f in set_goroutines (delete t (goroutines f)) f
      end
  | _ => f
  end.

(** ** Start and stop *)

(** [listening]: the error of the listener. *)
Definition Start (listening : option string) (f : Frontend) : result string unit * Frontend :=
  if running f then (Err "tcp frontend already running"%string, f)
  else match listening with
       | Some e => (Err ("failed to create listener: " +:+ e)%string, f)
       | None => (Ok tt, updateMetrics (set_running true) (set_running_ch true (shutdownCh f) f))
       end.

Definition closeAllConnections (f : Frontend) : Frontend :=
  set_goroutines (map_imap (fun t p => Some (match p with Serving c => if bool_decide (connections f !! c_ID c = Some t) then Serving (CloseClient c) else p | _ => p end)) (goroutines f)) f.

(** [None]: the channel is closed a second time. *)
Definition Stop (f : Frontend) : option Frontend :=
  if negb (running f) then Some f
  else if shutdownCh f then None
  else Some (updateMetrics stopped (closeAllConnections (set_running_ch false true f))).

(** ** Every interleaving *)

(** Connections are accepted while the frontend runs; a session gets an identifier that no connection has. *)
Inductive step : Frontend -> Frontend -> Prop :=
| step_accept t ip inp out f : running f = true -> shutdownCh f = false -> goroutines f !! t = None -> step f (accept t ip inp out f)
| step_establish t ip inp out id now f f' :
    goroutines f !! t = Some (Accepted ip inp out) -> connections f !! id = None -> establish t ip inp out id now f = Some f' -> step f f'
| step_round t now f : step f (round t now f)
| step_start l f : step f (snd (Start l f))
| step_stop f f' : Stop f = Some f' -> step f f'.

(** ** Counting goroutines *)

Definition serves (P : ClientConnection -> bool) (p : phase) : bool := match p with Serving c => P c | _ => false end.
Definition number (P : ClientConnection -> bool) (gs : gmap nat phase) : nat := size (filter (fun kp => serves P kp.2 = true) gs).
Definition of_ip (ip : string) (c : ClientConnection) : bool := bool_decide (ClientIP c = ip).

Lemma number_insert P t p gs : gs !! t = None -> number P (<[t := p]> gs) = ((if serves P p then 1 else 0) + number P gs)%nat.
Proof.
  intros Hn. unfold number. destruct (serves P p) eqn:E.
  - rewrite map_filter_insert_True by done. rewrite map_size_insert_None; [done|]. by apply map_lookup_filter_None_2; left.
  - rewrite map_filter_insert_False by (cbn; congruence). by rewrite delete_id.
Qed.

Lemma number_delete P t p gs : gs !! t = Some p -> number P gs = ((if serves P p then 1 else 0) + number P (delete t gs))%nat.
Proof. intros Hs. rewrite <- (insert_delete_id gs t p Hs) at 1. apply number_insert, lookup_delete_eq. Qed.

Lemma number_update P t p q gs : gs !! t = Some p -> serves P p = serves P q -> number P (<[t := q]> gs) = number P gs.
Proof.
  intros Hs He. rewrite (number_delete P t p gs Hs), He, <- insert_delete_eq. apply number_insert, lookup_delete_eq.
Qed.

Record Inv (f : Frontend) : Prop := {
  i_registered id t : connections f !! id = Some t <-> exists c, goroutines f !! t = Some (Serving c) /\ c_ID c = id;
  i_count : connCount f = Z.of_nat (number (fun _ => true) (goroutines f));
  i_ips ip : ipConnCount f !! ip = match number (of_ip ip) (goroutines f) with O => None | n => Some (Z.of_nat n) end;
}.

(** Nothing that is counted changes. *)
Lemma counted_same f f' :
  goroutines f' = goroutines f -> connections f' = connections f -> connCount f' = connCount f -> ipConnCount f' = ipConnCount f -> Inv f -> Inv f'.
Proof. intros Hg Hc Hn Hi [J1 J2 J3]. split; [intros id t|..|intros ip]; rewrite ?Hg, ?Hc, ?Hn, ?Hi; [apply J1|done|apply J3]. Qed.

(** A goroutine that serves nobody comes or goes. *)
Lemma counted_accept t p f : (forall P, serves P p = false) -> goroutines f !! t = None -> Inv f -> Inv (set_goroutines (<[t := p]> (goroutines f)) f).
Proof.
  intros Hp Hn [J1 J2 J3]. split; cbn.
  - intros id u. rewrite J1. destruct (decide (u = t)) as [->|Hne]; [|by rewrite lookup_insert_ne]. rewrite lookup_insert_eq, Hn.
    split; intros (c & [= Hc] & _). subst p. by specialize (Hp (fun _ => true)).
  - by rewrite number_insert, Hp.
  - intros ip. by rewrite number_insert, Hp.
Qed.

Lemma inv_drop t p f : goroutines f !! t = Some p -> (forall P, serves P p = false) -> Inv f -> Inv (set_goroutines (delete t (goroutines f)) f).
Proof.
  intros Hs Hp [J1 J2 J3]. split; cbn.
  - intros id u. rewrite J1. destruct (decide (u = t)) as [->|Hne]; [|by rewrite lookup_delete_ne]. rewrite lookup_delete_eq, Hs.
    split; intros (c & [= Hc] & _). subst p. by specialize (Hp (fun _ => true)).
  - by rewrite J2, (number_delete _ t p) by done; rewrite Hp.
  - intros ip. by rewrite J3, (number_delete _ t p) by done; rewrite Hp.
Qed.

(** A client goes on with the same session and address. *)
Lemma inv_serving t c c' f :
  goroutines f !! t = Some (Serving c) -> c_ID c' = c_ID c -> ClientIP c' = ClientIP c -> Inv f -> Inv (set_goroutines (<[t := Serving c']> (goroutines f)) f).
Proof.
  intros Hs Hid Hip [J1 J2 J3]. split; cbn.
  - intros id u. rewrite J1. destruct (decide (u = t)) as [->|Hne]; [|by rewrite lookup_insert_ne]. rewrite lookup_insert_eq, Hs.
    split; intros (x & [= <-] & <-); eexists; (split; [reflexivity|by rewrite Hid]).
  - by rewrite (number_update _ t (Serving c)).
  - intros ip. rewrite (number_update _ t (Serving c)); [done..|]. unfold serves, of_ip. by rewrite Hip.
Qed.

Lemma counted_register t c f p :
  goroutines f !! t = Some p -> (forall P, serves P p = false) -> connections f !! c_ID c = None -> Inv f ->
  Inv (registerConnection t c (set_goroutines (<[t := Serving c]> (goroutines f)) f)).
Proof.
  intros Hs Hp Hc Hi. pose proof (inv_drop t p f Hs Hp Hi) as [J1 J2 J3]. cbn in J1, J2, J3. rewrite <- (insert_delete_eq (goroutines f) t).
  assert (delete t (goroutines f) !! t = None) as Hd by apply lookup_delete_eq. split; cbn.
  - intros id u. rewrite lookup_insert_Some, J1. destruct (decide (u = t)) as [->|Hne].
    + rewrite lookup_insert_eq, Hd. split; [|by intros (x & [= <-] & <-); left]. intros [[<- _]|[_ (x & [=] & _)]]. by exists c.
    + rewrite lookup_insert_ne by done. split; [by intros [[_ ->]|[_ Hx]]|]. intros (x & Hx & He). right. split; [|by exists x].
      intros Heq. assert (connections f !! id = Some u) as Hu by (apply J1; by exists x). congruence.
  - rewrite number_insert by done. cbn. lia.
  - intros ip. rewrite number_insert by done. unfold incrementIPConnCount. cbn [serves]. unfold of_ip at 1. destruct (bool_decide_reflect (ClientIP c = ip)) as [<-|Hne].
    + rewrite lookup_insert_eq, J3. cbn. destruct (number (of_ip (ClientIP c)) (delete t (goroutines f))); cbn; f_equal; lia.
    + rewrite lookup_insert_ne by done. apply J3.
Qed.

Lemma counted_remove t c f :
  goroutines f !! t = Some (Serving c) -> Inv f ->
  Inv (let f := removeConnection (c_ID c) f in set_goroutines (delete t (goroutines f)) f).
Proof.
  intros Hs [J1 J2 J3]. assert (connections f !! c_ID c = Some t) as Hc by (apply J1; by exists c). unfold removeConnection, ip_of. rewrite Hc, Hs. cbn.
  split; cbn.
  - intros id u. rewrite lookup_delete_Some, J1. destruct (decide (u = t)) as [->|Hne].
    + rewrite lookup_delete_eq, Hs. split; [intros [Hne (x & [= <-] & He)]; done|by intros (x & [=] & _)].
    + rewrite lookup_delete_ne by done. split; [by intros [_ Hx]|]. intros (x & Hx & He). split; [|by exists x]. intros Heq.
      assert (connections f !! id = Some u) as Hu by (apply J1; by exists x). congruence.
  - rewrite (number_delete _ t (Serving c)) in J2 by done. cbn in J2. lia.
  - intros ip. pose proof (J3 ip) as Hip. rewrite (number_delete (of_ip ip) t (Serving c)) in Hip by done. cbn [serves] in Hip. unfold of_ip at 1 in Hip. revert Hip.
    unfold decrementIPConnCount. destruct (bool_decide_reflect (ClientIP c = ip)) as [<-|Hne]; intros Hip.
    + rewrite Hip. cbn [Nat.add]. destruct (number (of_ip (ClientIP c)) (delete t (goroutines f))) as [|n].
      * rewrite (proj2 (Z.leb_le (Z.of_nat 1 - 1) 0)) by lia. apply lookup_delete_eq.
      * rewrite (proj2 (Z.leb_gt (Z.of_nat (S (S n)) - 1) 0)) by lia. rewrite lookup_insert_eq. f_equal. lia.
    + cbn in Hip. rewrite <- Hip. destruct (ipConnCount f !! ClientIP c) as [n|]; [|done]. destruct (n - 1 <=? 0); [by rewrite lookup_delete_ne|by rewrite lookup_insert_ne].
Qed.

(** What the counters are about. *)
Record same_registry (f f' : Frontend) : Prop := {
  r_goroutines : goroutines f' = goroutines f; r_connections : connections f' = connections f;
  r_count : connCount f' = connCount f; r_ips : ipConnCount f' = ipConnCount f; r_stop : shutdownCh f' = shutdownCh f }.

Lemma inv_registry f f' : same_registry f f' -> Inv f -> Inv f'.
Proof. intros []. by apply counted_same. Qed.

Lemma processRequest_registry req now c f r c' f' :
  processRequest req now c f = (r, c', f') -> same_registry f f' /\ c_ID c' = c_ID c /\ ClientIP c' = ClientIP c /\ c_closed c' = c_closed c /\ c_in c' = c_in c.
Proof.
  unfold processRequest. destruct (RouteRequest _ _ _ _) as [[resp|e] rt]; [destruct (SendResponse _ _) as [[]]|]; intros [= _ <- <-]; by split_and!.
Qed.

Lemma receive_registry now c f o f' :
  receive now c f = (o, f') -> same_registry f f' /\ match o with Some c' => c_ID c' = c_ID c /\ ClientIP c' = ClientIP c | None => True end.
Proof.
  unfold receive. destruct (ReceiveMessage (c_in c)) as [[[t m]|e] rest]; [|by intros [= <- <-]]. destruct (t =? _); [|by intros [= <- <-]].
  destruct m; try (by intros [= <- <-]). destruct (processRequest _ _ _ _) as [[[[]|e] c'] f''] eqn:E; apply processRequest_registry in E as (Hs & Hid & Hip & _);
    intros [= <- <-]; by split_and!.
Qed.

Lemma map_imap_serves (g : nat -> phase -> phase) P (gs : gmap nat phase) :
  (forall t p, serves P (g t p) = serves P p) -> number P (map_imap (fun t p => Some (g t p)) gs) = number P gs.
Proof.
  intros Hg. unfold number. rewrite <- !size_dom. f_equal. apply set_eq. intros t. rewrite !elem_of_dom. unfold is_Some.
  split; intros [p Hp]; apply map_lookup_filter_Some in Hp as [Hl Hs].
  - rewrite map_lookup_imap in Hl. destruct (gs !! t) as [q|] eqn:E; [|done]. injection Hl as <-. exists q. apply map_lookup_filter_Some. cbn in *. by rewrite Hg in Hs.
  - exists (g t p). apply map_lookup_filter_Some. cbn in *. by rewrite map_lookup_imap, Hl, Hg.
Qed.

Lemma inv_closeAll f : Inv f -> Inv (closeAllConnections f).
Proof.
  intros [J1 J2 J3]. unfold closeAllConnections. set (g := fun t p => match p with Serving c => if bool_decide (connections f !! c_ID c = Some t) then Serving (CloseClient c) else p | _ => p end).
  assert (forall P : ClientConnection -> bool, (forall c, P (CloseClient c) = P c) -> forall t p, serves P (g t p) = serves P p) as Hg.
  { intros P HP t [|c]; [done|]. cbn. case_bool_decide; [apply HP|done]. }
  split; cbn.
  - intros id t. rewrite J1, map_lookup_imap. destruct (goroutines f !! t) as [[|c]|]; cbn; split; intros (x & Hx & He); try done.
    + injection Hx as <-. case_bool_decide; eexists; by split.
    + case_bool_decide; injection Hx as <-; eexists; by split.
  - by rewrite (map_imap_serves g) by by apply Hg.
  - intros ip. by rewrite (map_imap_serves g) by by apply Hg.
Qed.

Lemma step_counted f f' : step f f' -> Inv f -> Inv f'.
Proof.
  intros [t ip inp out f0 _ _ Hn|t ip inp out id now f0 f1 Hs Hf He|t now f0|l f0|f0 f1 Hs] Hi.
  - unfold accept, checkConnectionLimit. destruct (_ <=? _); [by apply (counted_same f0)|]. by apply counted_accept.
  - revert He. unfold establish, createConnectionSession. destruct (create_session _ id now _) as [[s|e] ss] eqn:Ec.
    + apply create_session_id in Ec. intros [= <-]. assert (Inv (set_backends (router f0) ss f0)) as Hb by by apply (counted_same f0).
      apply (counted_register t _ (set_backends (router f0) ss f0) (Accepted ip inp out)); [done|done|by rewrite <- Ec in Hf|done].
    + destruct e; try done; intros [= <-]; refine (inv_drop t (Accepted ip inp out) (updateMetrics _ (set_backends _ ss f0)) _ _ _); done || by apply (counted_same f0).
  - unfold round. destruct (goroutines f0 !! t) as [[|c]|] eqn:E; [done| |done]. destruct (c_closed c || shutdownCh f0); [by apply counted_remove|].
    destruct (receive now c f0) as [o f1] eqn:Er. apply receive_registry in Er as [Hr Ho]. pose proof (inv_registry _ _ Hr Hi) as Hi1. rewrite <- (r_goroutines _ _ Hr) in E.
    destruct o as [c'|]; [|by apply counted_remove]. destruct Ho. by eapply inv_serving.
  - unfold Start. destruct (running f0); [done|]. destruct l; [done|]. by apply (counted_same f0).
  - revert Hs. unfold Stop. destruct (negb _); [by intros [= <-]|]. destruct (shutdownCh f0); [done|]. intros [= <-].
    eapply counted_same; [..|eapply (inv_closeAll (set_running_ch false true f0)), (counted_same f0); done]; done.
Qed.

(** ** Properties *)

Definition reachable (f0 f : Frontend) : Prop := rtc step f0 f.

Lemma created_inv c r s : Inv (CreateTCPFrontend c r s).
Proof.
  split; cbn.
  - intros id t. rewrite !lookup_empty. split; [done|by intros (c0 & [=] & _)].
  - unfold number. by rewrite map_filter_empty, map_size_empty.
  - intros ip. unfold number. by rewrite lookup_empty, map_filter_empty, map_size_empty.
Qed.

(** Whatever connections come and go and however the messages interleave, the counter of the frontend is the number of
    connections that are served, which are those of the registry, and the counter of an address is the number of its connections
    (there is none for an address without connections). *)
Lemma tcp_counts_exact c r s f :
  reachable (CreateTCPFrontend c r s) f ->
  connCount f = Z.of_nat (number (fun _ => true) (goroutines f)) /\
  (forall id t, connections f !! id = Some t <-> exists cl, goroutines f !! t = Some (Serving cl) /\ c_ID cl = id) /\
  forall ip, default 0 (ipConnCount f !! ip) = Z.of_nat (number (of_ip ip) (goroutines f)).
Proof.
  intros Hr. assert (Inv f) as [J1 J2 J3].
  { revert Hr. apply rtc_ind_r with (P := Inv); [apply created_inv|]. intros f1 f2 _ Hs Hi. by eapply step_counted. }
  split_and!; [done..|]. intros ip. rewrite J3. by destruct (number (of_ip ip) (goroutines f)).
Qed.

(** *** Messages *)

Definition answer (s : Sessions.Session) (req : Request) (r : R) : Response * R :=
  match RouteRequest (WithValue TcpKey s []) req EmptyString r with
  | (Ok resp, r) => (resp, r)
  | (Err e, r) => (error_response (req_ID req) e, r)
  end.
Fixpoint answers (s : Sessions.Session) (reqs : list Request) (r : R) : list Response * R :=
  match reqs with
  | [] => ([], r)
  | q :: reqs => let '(a, r) := answer s q r in let '(l, r) := answers s reqs r in (a :: l, r)
  end.

(** A request that was sent is received; a response is written whole. *)
Definition request_bytes (payload : list byte) : list byte := frame_bytes {| Version := CurrentVersion; MessageType := MessageTypeRequest; Payload := payload |}.
Definition response_bytes (payload : list byte) : list byte := frame_bytes {| Version := CurrentVersion; MessageType := MessageTypeResponse; Payload := payload |}.
Definition sent (q : Request) (payload : list byte) : Prop :=
  plain_request q /\ valid_request q = true /\ Print (request_doc q) = Ok payload /\ zlen payload <= maxPayload.
Definition printed (a : Response) (payload : list byte) : Prop := Print (response_doc a) = Ok payload /\ zlen payload <= maxPayload.

Lemma receive_request q payload rest : sent q payload -> ReceiveMessage (request_bytes payload ++ rest) = (Ok (MessageTypeRequest, MRequest q), rest).
Proof.
  intros (Hp & Hv & E & Hl). unfold request_bytes. rewrite receive_frame by done. pose proof (parse_print _ _ (valid_request_doc _ Hv) E) as Ep.
  unfold handleReceivedFrame. cbn [MessageType Payload]. unfold handleRequest. cbn [MessageType Payload].
  rewrite (as_auth_none _ _ Ep (request_not_auth q)), Ep. unfold mbind, result_bind. by rewrite decode_request_doc.
Qed.

(** A connection ends: each message that is received takes bytes. *)
Lemma receive_shorter s t m rest : ReceiveMessage s = (Ok (t, m), rest) -> (length rest < length s)%nat.
Proof.
  unfold ReceiveMessage, mbind, M_bind, M_wrap. destruct (Decode s) as [[fr|e] s'] eqn:E; [|done]. intros [= _ ->]. apply Decode_ok_inv in E as [-> _].
  pose proof (length_frame_bytes fr) as Hl. rewrite length_app. unfold zlen, HeaderSize in Hl. lia.
Qed.

Lemma receive_in now c f c' f' : receive now c f = (Some c', f') -> (length (c_in c') < length (c_in c))%nat.
Proof.
  unfold receive. destruct (ReceiveMessage (c_in c)) as [[[t m]|e] rest] eqn:E; [|done]. apply receive_shorter in E. destruct (t =? _); [|by intros [= <- _]].
  destruct m; try (by intros [= <- _]). destruct (processRequest _ _ _ _) as [[[[]|e] x] f''] eqn:Ep; apply processRequest_registry in Ep as (_ & _ & _ & _ & Hin);
    intros [= <- _]; cbn in *; by rewrite Hin.
Qed.

(** A connection that is left to itself ends: after as many rounds as it has bytes, and one, nothing serves it any more,
    whatever the bytes are and whatever the router answers. *)
Lemma tcp_connection_ends t c now f :
  goroutines f !! t = Some (Serving c) -> goroutines (Nat.iter (S (length (c_in c))) (round t now) f) !! t = None.
Proof.
  remember (length (c_in c)) as n eqn:En. assert (length (c_in c) <= n)%nat as Hn by lia. clear En. revert c f Hn.
  assert (forall k f, goroutines f !! t = None -> goroutines (Nat.iter k (round t now) f) !! t = None) as Hgone.
  { induction k as [|k IH]; intros f Hf; [done|]. rewrite Nat.iter_succ. unfold round at 1. by rewrite !(IH f Hf). }
  assert (forall k f, Nat.iter (S k) (round t now) f = Nat.iter k (round t now) (round t now f)) as Hiter.
  { intros k f. by rewrite Nat.iter_succ_r. }
  induction n as [|n IH]; intros c f Hn Ht; rewrite Hiter; unfold round at 2; rewrite Ht;
    (destruct (c_closed c || shutdownCh f); [apply Hgone; cbn; by rewrite lookup_delete_eq|]);
    destruct (receive now c f) as [[c'|] f'] eqn:Er; try (apply Hgone; cbn; by rewrite lookup_delete_eq); apply receive_in in Er; [lia|].
  apply (IH c'); [lia|]. cbn. by rewrite lookup_insert_eq.
Qed.

End Tcp.

(** *** In order *)

Section Answers.
Context `{WireJSON} `{RequestRouter R} `{SessionManager SM}.
Variable transport_text : TransportError -> string.

Lemma send_printed a payload (w : list byte) : printed a payload -> SendResponse a w = (Ok tt, w ++ response_bytes payload).
Proof. intros [E Hl]. unfold SendResponse, send_doc. rewrite E. by apply send_Buffer. Qed.

Lemma receive_answers now c (f : Frontend (W := list byte) (R := R) (SM := SM)) q payload rest a out r :
  c_in c = request_bytes payload ++ rest -> sent q payload -> answer (c_Session c) q (router f) = (a, r) -> printed a out ->
  exists c' f', receive transport_text now c f = (Some c', f') /\ c_in c' = rest /\ c_out c' = c_out c ++ response_bytes out /\ c_Session c' = c_Session c /\
    c_closed c' = c_closed c /\ router f' = r /\ shutdownCh f' = shutdownCh f /\ goroutines f' = goroutines f.
Proof.
  intros Hin Hq Ha Ho. unfold receive. rewrite Hin, (receive_request q) by done. change (MessageTypeRequest =? MessageTypeRequest) with true. cbn iota. unfold processRequest.
  unfold answer in Ha. cbn [c_Session touched with_in router updateMetrics set_backends].
  destruct (RouteRequest _ q _ _) as [[resp|e] rt]; injection Ha as -> ->; cbn [c_out touched with_in].
  - rewrite (send_printed a out) by done. eexists _, _. split; [reflexivity|]. by split_and!.
  - rewrite (send_printed _ out) by done. eexists _, _. split; [reflexivity|]. by split_and!.
Qed.

(** C17: A connection that carries requests gets, in their order and nothing between them, one response each: what the router answers
    in the session of the connection without a namespace, or the error it fails with under the id of the request. *)
Theorem tcp_answers_in_order t c now (f : Frontend (W := list byte) (R := R) (SM := SM)) reqs payloads rest outs :
  goroutines f !! t = Some (Serving c) -> c_closed c = false -> shutdownCh f = false ->
  c_in c = concat (map request_bytes payloads) ++ rest -> Forall2 sent reqs payloads ->
  Forall2 printed (fst (answers (c_Session c) reqs (router f))) outs ->
  exists c', let f' := Nat.iter (length reqs) (round transport_text t now) f in
    goroutines f' !! t = Some (Serving c') /\ c_in c' = rest /\ c_out c' = c_out c ++ concat (map response_bytes outs) /\
    router f' = snd (answers (c_Session c) reqs (router f)).
Proof.
  intros Ht Hc Hs Hin Hq. revert c f outs Ht Hc Hs Hin. induction Hq as [|q payload reqs payloads Hq _ IH]; intros c f outs Ht Hc Hs Hin Ho; cbn [answers] in *.
  - apply Forall2_nil_inv_l in Ho as ->. exists c. cbn. by rewrite app_nil_r.
  - destruct (answer (c_Session c) q (router f)) as [a r] eqn:Ea, (answers (c_Session c) reqs r) as [l r'] eqn:El. cbn [fst snd] in *.
    apply Forall2_cons_inv_l in Ho as (out & outs' & Hout & Ho & ->). cbn [map concat] in Hin. rewrite <- app_assoc in Hin.
    destruct (receive_answers now c f q payload _ a out r Hin Hq Ea Hout) as (c' & f' & Er & Hi & Hw & Hse & Hcl & Hro & Hsh & Hg).
    assert (round transport_text t now f = set_goroutines (<[t := Serving c']> (goroutines f')) f') as Hround by (unfold round; by rewrite Ht, Hc, Hs, Er).
    destruct (IH c' (round transport_text t now f) outs') as (c2 & H2); rewrite ?Hround; [apply lookup_insert_eq|congruence|cbn; congruence|done| |].
    { rewrite Hse. cbn. by rewrite Hro, El. }
    exists c2. rewrite length_cons, Nat.iter_succ_r. destruct H2 as (Hg2 & Hi2 & Hw2 & Hr2). cbn zeta. split_and!; [done|done| |].
    + rewrite Hw2, Hw. cbn [map concat]. by rewrite <- app_assoc.
    + rewrite Hr2, Hround. cbn. by rewrite Hse, Hro, El.
Qed.

End Answers.

(** *** No connection is served *)

Section Panics.
Context `{WireJSON} `{BufWriter W} `{RequestRouter R} `{SessionManager SM}.
Variable transport_text : TransportError -> string.

(** C18: With a manager of sessions that panics on claims without an expiry, as both managers of the gateway do, no connection is ever
    served, and every connection that is let in stops the gateway. *)
Theorem tcp_serves_nobody c r s (f : Frontend (W := W) (R := R) (SM := SM)) :
  (forall id now m, fst (create_session Auth.no_claims id now m) = Err Sessions.Panicked) ->
  reachable transport_text (CreateTCPFrontend c r s) f ->
  connections f = ∅ /\ connCount f = 0 /\ forall t ip inp out id now, establish t ip inp out id now f = None.
Proof.
  intros Hp Hr. assert (forall t ip inp out id now (f : Frontend (W := W) (R := R) (SM := SM)), establish t ip inp out id now f = None) as He.
  { intros t ip inp out id now f0. unfold establish, createConnectionSession. specialize (Hp id now (sessions f0)).
    destruct (create_session _ _ _ _) as [[x|e] ss]; [done|]. cbn in Hp. by injection Hp as ->. }
  assert (forall f', rtc (step transport_text) (CreateTCPFrontend c r s) f' -> forall t x, goroutines f' !! t <> Some (Serving x)) as Hn.
  { refine (rtc_ind_r (fun f' => forall t x, goroutines f' !! t <> Some (Serving x)) _ _ _); [by intros t x; cbn; rewrite lookup_empty|].
    intros f1 f2 _ Hs IH t x. destruct Hs as [u ip inp out f0 _ _ _|u ip inp out id now f0 f1 _ _ Hx|u now f0|l f0|f0 f1 Hs].
    - unfold accept, checkConnectionLimit. destruct (_ <=? _); cbn; [apply IH|]. intros [[_ [=]]|[_ Hl]]%lookup_insert_Some. by apply (IH t x).
    - by rewrite He in Hx.
    - unfold round. destruct (goroutines f0 !! u) as [[|y]|] eqn:E; [apply IH|by apply IH in E|apply IH].
    - unfold Start. destruct (running f0); [apply IH|]. destruct l; apply IH.
    - revert Hs. unfold Stop. destruct (negb _); [intros [= <-]; apply IH|]. destruct (shutdownCh f0); [done|]. intros [= <-]. cbn.
      rewrite map_lookup_imap. destruct (goroutines f0 !! t) as [[|y]|] eqn:E; cbn; [done|by apply IH in E|done]. }
  assert (Inv f) as [J1 J2 _].
  { revert Hr. apply rtc_ind_r with (P := Inv); [apply created_inv|]. intros f1 f2 _ Hs Hi. by eapply step_counted. }
  split_and!; [| |done].
  - apply map_empty. intros id. destruct (connections f !! id) as [t|] eqn:E; [|done]. apply J1 in E as (x & Hx & _). by apply (Hn f Hr) in Hx.
  - rewrite J2. unfold number. assert (filter (fun kp => serves (fun _ : ClientConnection => true) kp.2 = true) (goroutines f) = ∅) as ->; [|by rewrite map_size_empty].
    apply map_empty. intros t. apply map_lookup_filter_None_2. destruct (goroutines f !! t) as [[|y]|] eqn:E; [right| |by left]; [by intros x [= <-]|by apply (Hn f Hr) in E].
Qed.

End Panics.

(** ** At work *)

#[local] Existing Instance Toy.json.

(** A manager that makes a session of any claims. *)
Record Lenient := mkLenient {}.
#[export, refine] Instance lenient_manager : SessionManager Lenient := {|
  create_session := fun c id now m => (Ok (Sessions.new_session (Auth.session_claims c) 0 id now now), m) |}.
Proof. by intros c id now m s m' [= <-]. Defined.

Definition no_text (e : TransportError) : string := "".
#[local] Notation sample SM := (Frontend (W := list byte) (R := EchoRouter) (SM := SM)) (only parsing).
Definition tcp_config (limit : Z) : TcpConfig := mkTcpConfig "" 0 limit 0 0 0 0.
Definition fresh_sample (limit : Z) : sample Lenient := CreateTCPFrontend (tcp_config limit) (mkEcho []) mkLenient.
Definition listening (limit : Z) : sample Lenient := snd (Start None (fresh_sample limit)).
Definition call_bytes : list byte := request_bytes (Toy.print (request_doc Toy.call)).
Definition step_in (t : nat) (id : string) (f : sample Lenient) : sample Lenient := default f (establish t "10.0.0.1" call_bytes [] id 0 f).
Definition one_client : sample Lenient := step_in 0 "s0" (accept 0 "10.0.0.1" call_bytes [] (listening 1)).
(** Two connections pass the test of the limit before one of them is counted. *)
Definition two_clients : sample Lenient := step_in 1 "s1" (step_in 0 "s0" (accept 1 "10.0.0.1" call_bytes [] (accept 0 "10.0.0.1" call_bytes [] (listening 1)))).

Example limit_exceeded : (tc_MaxConnections (config two_clients), connCount two_clients, ipConnCount two_clients !! "10.0.0.1"%string) = (1, 2, Some 2).
Proof. vm_compute. reflexivity. Qed.

(** A request that is sent with a token is dropped without an answer, and so is whatever is not a request. *)
Example authenticated_unanswered :
  let bytes := frame_bytes {| Version := CurrentVersion; MessageType := MessageTypeRequest; Payload := Toy.print (auth_doc (NewAuthRequest Toy.call "tok")) |} in
  let f := round no_text 0 0 (default one_client (establish 0 "10.0.0.1" bytes [] "s0" 0 (accept 0 "10.0.0.1" bytes [] (listening 1)))) in
  match goroutines f !! 0%nat with Some (Serving c) => (c_in c, c_out c, seen (router f)) | _ => ([], call_bytes, []) end = ([], [], []).
Proof. vm_compute. reflexivity. Qed.

(** A frontend that was stopped starts again, accepts nothing, and cannot be stopped: the channel is closed already. *)
Example tcp_second_stop_panics : (f ← Stop (listening 1); Stop (snd (Start None f))) = None.
Proof. reflexivity. Qed.

Lemma one_reachable : reachable no_text (fresh_sample 1) one_client.
Proof.
  eapply rtc_l; [apply (step_start no_text None)|]. eapply rtc_l; [apply (step_accept no_text 0 "10.0.0.1" call_bytes []); reflexivity|].
  apply rtc_once. eapply (step_establish no_text 0 "10.0.0.1" call_bytes [] "s0" 0); reflexivity.
Qed.

Lemma tcp_counts_exact_witness : connCount one_client = 1 /\ default 0 (ipConnCount one_client !! "10.0.0.1"%string) = Z.of_nat (number (of_ip "10.0.0.1") (goroutines one_client)).
Proof. split; [reflexivity|]. apply (tcp_counts_exact no_text (tcp_config 1) (mkEcho []) mkLenient one_client one_reachable). Defined.

Definition sample_client : ClientConnection (W := list byte) :=
  mkClient "s0" (Sessions.new_session (Auth.session_claims Auth.no_claims) 0 "s0" 0 0) "10.0.0.1" call_bytes [] 0 false.

Lemma tcp_connection_ends_witness : goroutines (Nat.iter (S (length call_bytes)) (round no_text 0 0) one_client) !! 0%nat = None.
Proof. apply (tcp_connection_ends no_text 0 sample_client 0 one_client). reflexivity. Defined.

Lemma tcp_answers_in_order_witness :
  exists c', goroutines (Nat.iter (length [Toy.call]) (round no_text 0 0) one_client) !! 0%nat = Some (Serving c') /\
    c_out c' = response_bytes (Toy.print (response_doc (mkResponse "2.0" (JString "tools/call") None (JString "r1")))).
Proof.
  destruct (tcp_answers_in_order no_text 0 sample_client 0 one_client [Toy.call] [Toy.print (request_doc Toy.call)] []
    [Toy.print (response_doc (mkResponse "2.0" (JString "tools/call") None (JString "r1")))]) as (c' & Hg & _ & Ho & _).
  - reflexivity.
  - reflexivity.
  - reflexivity.
  - cbn [map concat]. by rewrite !app_nil_r.
  - constructor; [|constructor]. split; [split; reflexivity|]. split; [vm_compute; reflexivity|]. split; [reflexivity|]. apply Z.leb_le. vm_compute. reflexivity.
  - constructor; [|constructor]. split; [reflexivity|]. apply Z.leb_le. vm_compute. reflexivity.
  - exists c'. split; [exact Hg|]. rewrite Ho. cbn [sample_client c_out map concat app]. apply app_nil_r.
Defined.

Lemma tcp_serves_nobody_witness :
  let f : sample Sessions.MemoryManager := snd (Start None (CreateTCPFrontend (tcp_config 1) (mkEcho []) Sessions.CreateInMemorySessionStore)) in
  connections f = ∅ /\ connCount f = 0 /\ forall t ip inp out id now, establish t ip inp out id now f = None.
Proof.
  apply (tcp_serves_nobody no_text (tcp_config 1) (mkEcho []) Sessions.CreateInMemorySessionStore); [reflexivity|]. apply rtc_once, step_start.
Defined.

(** The manager of sessions in Redis panics too. *)
Lemma redis_panics `{Sessions.SessionStore} id now (m : Sessions.RedisManager) : fst (create_session Auth.no_claims id now m) = Err Sessions.Panicked.
Proof. reflexivity. Qed.

End TcpFrontend.
