(* ===== verification/StdioFrontend.v ===== *)
(** * The stdio frontend of the gateway

    [services/gateway/internal/frontends/stdio/frontend.go] with the adapters of frontends/factory.go: local clients over Unix
    sockets or the standard streams.  A connection is the documents that arrive and how its stream ends; json.Decoder keeps
    an error of the stream and returns it again.  Each request is routed by a goroutine of its own.  Sockets and
    files only succeed or fail. *)
From S2P Require Import Prelude GoStrings Mcp Transport Frontends.
From stdpp Require Import pretty.
From Stdlib Require Import Strings.Ascii Permutation.
#[local] Open Scope Z_scope.

Module StdioFrontend.
Import Transport Frontends.

(** ** Configuration *)

Record ModeConfig := mkMode { m_Type : string; m_Path : string; m_Permissions : string; m_Enabled : bool }.
Record ProcessManagementConfig := mkProcess { MaxConcurrentClients : Z; ClientTimeout : Z; AuthRequired : bool }.
Record Config := mkConfig { Enabled : bool; Modes : list ModeConfig; Process : ProcessManagementConfig }.

Definition with_defaults (c : Config) : Config :=
  mkConfig (Enabled c) (Modes c)
    (mkProcess (default_int 100 (MaxConcurrentClients (Process c))) (default_int (300 * Second) (ClientTimeout (Process c))) (AuthRequired (Process c))).

(** ** State *)

(** How the stream of a connection ends: at a document boundary, or with any other error (a cut or malformed document, a passed
    deadline, a closed socket). *)
Inductive ending := AtEOF | WithError.

(** [standard]: the standard streams, which closing does not close.  [c_read]: the requests that were read; [c_out]: what was written, with the requests it answers; [c_failed]: requests whose
    answer could not be written. *)
Inductive stage := Reading | Draining.
Record ClientConnection := mkClient {
  id : string; standard : bool; documents : list jvalue; the_end : ending; lastUsed : Z; closed : bool; c_stage : stage;
  c_read : list Request; c_out : list (Request * Response); c_failed : list Request }.

Record Frontend (R : Type) := mkFrontend {
  name : string; config : Config; router : R; connections : gmap string nat; clients : gmap nat ClientConnection;
  routing : gmap nat (nat * Request); clientCounter : Z; listeners : list string; unixListener : option string;
  running : bool; shutdownCh : bool; metrics : FrontendMetrics }.
Arguments name {R}. Arguments config {R}. Arguments router {R}. Arguments connections {R}. Arguments clients {R}. Arguments routing {R}.
Arguments clientCounter {R}. Arguments listeners {R}. Arguments unixListener {R}. Arguments running {R}. Arguments shutdownCh {R}. Arguments metrics {R}.
Arguments mkFrontend {R}.

Section Stdio.
Context `{RequestRouter R}.

Definition CreateStdioFrontend (n : string) (c : Config) (r : R) : Frontend R :=
  mkFrontend n (with_defaults c) r ∅ ∅ ∅ 0 [] None false false no_metrics.

Definition set_clients cs (f : Frontend R) : Frontend R := mkFrontend (name f) (config f) (router f) (connections f) cs (routing f) (clientCounter f) (listeners f) (unixListener f) (running f) (shutdownCh f) (metrics f).
Definition set_connections cs (f : Frontend R) : Frontend R := mkFrontend (name f) (config f) (router f) cs (clients f) (routing f) (clientCounter f) (listeners f) (unixListener f) (running f) (shutdownCh f) (metrics f).
Definition set_routing rs (f : Frontend R) : Frontend R := mkFrontend (name f) (config f) (router f) (connections f) (clients f) rs (clientCounter f) (listeners f) (unixListener f) (running f) (shutdownCh f) (metrics f).
Definition set_router r (f : Frontend R) : Frontend R := mkFrontend (name f) (config f) r (connections f) (clients f) (routing f) (clientCounter f) (listeners f) (unixListener f) (running f) (shutdownCh f) (metrics f).
Definition set_counter n (f : Frontend R) : Frontend R := mkFrontend (name f) (config f) (router f) (connections f) (clients f) (routing f) n (listeners f) (unixListener f) (running f) (shutdownCh f) (metrics f).
Definition set_listeners ls u (f : Frontend R) : Frontend R := mkFrontend (name f) (config f) (router f) (connections f) (clients f) (routing f) (clientCounter f) ls u (running f) (shutdownCh f) (metrics f).
Definition set_run r s (f : Frontend R) : Frontend R := mkFrontend (name f) (config f) (router f) (connections f) (clients f) (routing f) (clientCounter f) (listeners f) (unixListener f) r s (metrics f).
Definition updateMetrics (fn : FrontendMetrics -> FrontendMetrics) (f : Frontend R) : Frontend R := mkFrontend (name f) (config f) (router f) (connections f) (clients f) (routing f) (clientCounter f) (listeners f) (unixListener f) (running f) (shutdownCh f) (fn (metrics f)).
Definition put (t : nat) (c : ClientConnection) (f : Frontend R) : Frontend R := set_clients (<[t := c]> (clients f)) f.

Definition with_documents ds c := mkClient (id c) (standard c) ds (the_end c) (lastUsed c) (closed c) (c_stage c) (c_read c) (c_out c) (c_failed c).
Definition with_stage s c := mkClient (id c) (standard c) (documents c) (the_end c) (lastUsed c) (closed c) s (c_read c) (c_out c) (c_failed c).
Definition with_read q c := mkClient (id c) (standard c) (documents c) (the_end c) (lastUsed c) (closed c) (c_stage c) (c_read c ++ [q]) (c_out c) (c_failed c).
Definition with_out q r c := mkClient (id c) (standard c) (documents c) (the_end c) (lastUsed c) (closed c) (c_stage c) (c_read c) (c_out c ++ [(q, r)]) (c_failed c).
Definition with_failed q c := mkClient (id c) (standard c) (documents c) (the_end c) (lastUsed c) (closed c) (c_stage c) (c_read c) (c_out c) (c_failed c ++ [q]).
(** Of the documents that have not been read, the decoder holds the first [n]; the rest is lost, and reading ends with an error. *)
Definition close_conn (n : nat) c :=
  if standard c then c else mkClient (id c) false (take n (documents c)) WithError (lastUsed c) true (c_stage c) (c_read c) (c_out c) (c_failed c).
Definition updateConnectionActivity (now : Z) c := mkClient (id c) (standard c) (documents c) (the_end c) now (closed c) (c_stage c) (c_read c) (c_out c) (c_failed c).

(** ** Connections *)

Definition setupClientConnection (std : bool) (ds : list jvalue) (e : ending) (now : Z) (f : Frontend R) : ClientConnection * Frontend R :=
  let n := u64_add (clientCounter f) 1 in
  (mkClient ("stdio-" +:+ pretty n)%string std ds e now false Reading [] [] [], set_counter n f).

Definition registerConnection (t : nat) (c : ClientConnection) (f : Frontend R) : bool * Frontend R :=
  if MaxConcurrentClients (Process (config f)) <=? Z.of_nat (size (connections f)) then (false, f)
  else (true, updateMetrics (fun m => inc_total (inc_active m)) (set_connections (<[id c := t]> (connections f)) f)).

Definition unregisterConnection (c : ClientConnection) (f : Frontend R) : Frontend R :=
  updateMetrics dec_active (set_connections (delete (id c) (connections f)) f).

(** [handleConnection] up to the loop. *)
Definition connect (t : nat) (std : bool) (ds : list jvalue) (e : ending) (now : Z) (f : Frontend R) : Frontend R :=
  let (c, f) := setupClientConnection std ds e now f in
  let (ok, f) := registerConnection t c f in
  if ok : bool then put t c f else f.

(** ** Requests *)

Definition extractAuthField (params : list (string * jvalue)) (field : string) (credentials : gmap string string) : gmap string string :=
  match List.find (fun kv => bool_decide (kv.1 = field)) params with
  | Some (_, JString s) => <[field := s]> credentials
  | _ => credentials
  end.
Definition isAuthField (field : string) : bool := bool_decide (field ∈ ["authorization"; "x-auth-token"; "x-api-key"]%string).
Definition extractCredentials (req : Request) : gmap string string :=
  match ReqParams req with
  | JObject params =>
      let c := extractAuthField params "password" (extractAuthField params "username" (extractAuthField params "bearer_token" (extractAuthField params "auth_token" ∅))) in
      foldl (fun c kv => if isAuthField kv.1 then match kv.2 with JString s => <[kv.1 := s]> c | _ => c end else c) c params
  | _ => ∅
  end.

(** A provider answers for credentials at an instant; [None]: no provider was given. *)
Definition AuthProvider : Type := Z -> gmap string string -> result string bool.
Variable auth : option AuthProvider.

Definition error_response (req : Request) (errorMsg : string) : Response :=
  {| resp_JSONRPC := ""; Result := JNull; RespError := Some {| Code := -1; Message := errorMsg; Data := JNull |}; resp_ID := req_ID req |}.

(** [writes]: whether the peer takes what is written. *)
Definition written (writes : bool) (q : Request) (r : Response) (c : ClientConnection) : ClientConnection :=
  if writes && negb (closed c) then with_out q r c else with_failed q c.
Definition sendErrorResponse (writes : bool) (q : Request) (errorMsg : string) (c : ClientConnection) : ClientConnection :=
  written writes q (error_response q errorMsg) c.

Definition authenticateRequest (writes : bool) (now : Z) (c : ClientConnection) (q : Request) (f : Frontend R) : bool * ClientConnection :=
  if negb (AuthRequired (Process (config f))) then (true, c)
  else match auth with
       | None => (true, c)
       | Some Authenticate =>
           match Authenticate now (extractCredentials q) with
           | Ok true => (true, c)
           | _ => (false, sendErrorResponse writes q "authentication failed" c)
           end
       end.

(** [handleRequest]; [k]: the goroutine that routes the request. *)
Definition handleRequest (t k : nat) (writes : bool) (now : Z) (c : ClientConnection) (q : Request) (f : Frontend R) : Frontend R :=
  let (ok, c) := authenticateRequest writes now c q f in
  let f := put t c f in
  if ok : bool then set_routing (<[k := (t, q)]> (routing f)) f else f.

(** The next document: a value of another shape is an error that the decoder does not keep. *)
Inductive read_result := ReadRequest (q : Request) | ReadError | ReadEOF.
Definition readRequest (c : ClientConnection) : read_result * ClientConnection :=
  match documents c with
  | v :: ds => (match decode_Request v with Ok q => ReadRequest q | Err _ => ReadError end, with_documents ds c)
  | [] => (match the_end c with AtEOF => ReadEOF | WithError => ReadError end, c)
  end.

(** Whether the loop goes on. *)
Definition handleReadError (eof : bool) (t : nat) (c : ClientConnection) (f : Frontend R) : Frontend R :=
  if eof then put t (with_stage Draining c) f else updateMetrics inc_errors (put t c f).

(** One round of [processRequests] by the goroutine [t]. *)
Definition processSingleRequest (t k : nat) (writes : bool) (now : Z) (c : ClientConnection) (f : Frontend R) : Frontend R :=
  match readRequest c with
  | (ReadEOF, c) => handleReadError true t c f
  | (ReadError, c) => handleReadError false t c f
  | (ReadRequest q, c) => handleRequest t k writes now (with_read q (updateConnectionActivity now c)) q f
  end.
Definition processRequests (t k : nat) (writes : bool) (now : Z) (f : Frontend R) : Frontend R :=
  match clients f !! t with
  | Some c =>
      match c_stage c with
      | Reading => if shutdownCh f then put t (with_stage Draining c) f else processSingleRequest t k writes now c f
      | Draining => f
      end
  | None => f
  end.

(** The requests of a connection that are being routed. *)
Definition pending (t : nat) (f : Frontend R) : gmap nat (nat * Request) := filter (fun kr => fst kr.2 = t) (routing f).
(** The end of [handleConnection], when its requests are done. *)
Definition disconnect (t : nat) (f : Frontend R) : Frontend R :=
  match clients f !! t with
  | Some c =>
      match c_stage c with
      | Draining => if decide (pending t f = ∅) then set_clients (delete t (clients f)) (unregisterConnection c f) else f
      | Reading => f
      end
  | None => f
  end.

(** [routeRequest] by the goroutine [k]. *)
Definition routeRequest (k : nat) (writes : bool) (f : Frontend R) : Frontend R :=
  match routing f !! k with
  | Some (t, q) =>
      match clients f !! t with
      | Some c =>
          let f := set_routing (delete k (routing f)) f in
          match RouteRequest [] q EmptyString (router f) with
          | (Err e, r) => updateMetrics inc_errors (put t (sendErrorResponse writes q e c) (set_router r f))
          | (Ok resp, r) =>
              let f := put t (written writes q resp c) (set_router r f) in
              updateMetrics (if writes && negb (closed c) then inc_requests else inc_errors) f
          end
      | None => f
      end
  | None => f
  end.

(** *** Idle connections; [held]: how much of a stream its decoder holds *)

Definition idle (now : Z) (f : Frontend R) (c : ClientConnection) : bool := ClientTimeout (Process (config f)) <? time_sub now (lastUsed c).
Definition idle_ids (now : Z) (f : Frontend R) : gmap string nat :=
  filter (fun it => match clients f !! it.2 with Some c => idle now f c | None => false end = true) (connections f).
Definition cleanupIdleConnections (now : Z) (held : nat -> nat) (f : Frontend R) : Frontend R :=
  let gone := idle_ids now f in
  let f' := set_clients (map_imap (fun t c => Some (if bool_decide (gone !! id c = Some t) then close_conn (held t) c else c)) (clients f)) f in
  updateMetrics (fun m => Nat.iter (size gone) dec_active m) (set_connections (connections f ∖ gone) f').

(** ** Start and stop *)

Definition validateStartup (f : Frontend R) : result string unit :=
  if running f then Err ("[frontend_stdio] INTERNAL: frontend " +:+ name f +:+ " already running")%string else Ok tt.

(** [sockets]: the error of a socket.  The mode of the permissions is not read. *)
Definition startUnixSocket (sockets : string -> option string) (m : ModeConfig) (f : Frontend R) : result string unit * Frontend R :=
  match sockets (m_Path m) with
  | Some err => (Err err, f)
  | None => (Ok tt, set_listeners (listeners f ++ [m_Path m]) (Some (m_Path m)) f)
  end.
Definition startStdinStdout (t : nat) (ds : list jvalue) (e : ending) (now : Z) (f : Frontend R) : result string unit * Frontend R := (Ok tt, connect t true ds e now f).
Definition startNamedPipes (f : Frontend R) : result string unit * Frontend R := (Err "[frontend_stdio] INTERNAL: named pipes mode not implemented on this platform"%string, f).
Definition mode_error (what : string) (x : result string unit * Frontend R) : result string unit * Frontend R :=
  match x with (Err err, f) => (Err ("[frontend_stdio] INTERNAL: failed to start " +:+ what +:+ " mode: " +:+ err)%string, f) | _ => x end.
Definition startUnixSocketMode sockets m f := mode_error "unix socket" (startUnixSocket sockets m f).
Definition startStdinStdoutMode t ds e now f := mode_error "stdin/stdout" (startStdinStdout t ds e now f).
Definition startNamedPipesMode f := mode_error "named pipes" (startNamedPipes f).

(** [t] and [now]: for the connection of the standard streams, which carries [ds] and ends with [e]. *)
Definition startMode (sockets : string -> option string) (t : nat) (ds : list jvalue) (e : ending) (now : Z) (m : ModeConfig) (f : Frontend R)
  : result string unit * Frontend R :=
  if bool_decide (m_Type m = "unix_socket"%string) then startUnixSocketMode sockets m f
  else if bool_decide (m_Type m = "stdin_stdout"%string) then startStdinStdoutMode t ds e now f
  else if bool_decide (m_Type m = "named_pipes"%string) then startNamedPipesMode f
  else (Ok tt, f).

Fixpoint startConfiguredModes (sockets : string -> option string) (t : nat) (ds : list jvalue) (e : ending) (now : Z) (ms : list ModeConfig) (f : Frontend R)
  : result string unit * Frontend R :=
  match ms with
  | [] => (Ok tt, f)
  | m :: ms =>
      if negb (m_Enabled m) then startConfiguredModes sockets t ds e now ms f
      else match startMode sockets t ds e now m f with
           | (Err err, f) => (Err err, f)
           | (Ok _, f) => startConfiguredModes sockets (S t) ds e now ms f
           end
  end.

Definition finalizeStartup (f : Frontend R) : Frontend R := updateMetrics (set_running true) (set_run true (shutdownCh f) f).

Definition Start (sockets : string -> option string) (t : nat) (ds : list jvalue) (e : ending) (now : Z) (f : Frontend R) : result string unit * Frontend R :=
  match validateStartup f with
  | Err err => (Err err, f)
  | Ok _ =>
      if negb (Enabled (config f)) then (Ok tt, f)
      else match startConfiguredModes sockets t ds e now (Modes (config f)) f with
           | (Err err, f) => (Err err, f)
           | (Ok _, f) => (Ok tt, finalizeStartup f)
           end
  end.

Definition stopped (m : FrontendMetrics) : FrontendMetrics := mkFrontendMetrics 0 (TotalConnections m) (RequestCount m) (ErrorCount m) false.

(** [Stop] up to the wait, and what follows it ([ended]: the error of the caller's context).  [None]: the channel is closed twice. *)
Definition beginStop (held : nat -> nat) (f : Frontend R) : option (Frontend R) :=
  if negb (running f) then Some f
  else if shutdownCh f then None
  else
    let f := set_run (running f) true f in
    let f := set_listeners (match unixListener f with Some p => filter (fun q => q <> p) (listeners f) | None => listeners f end) (unixListener f) f in
    Some (set_connections ∅ (set_clients (map_imap (fun t c => Some (if bool_decide (connections f !! id c = Some t) then close_conn (held t) c else c)) (clients f)) f)).
Definition endStop (ended : option string) (f : Frontend R) : result string unit * Frontend R :=
  match ended with Some e => (Err e, f) | None => (Ok tt, updateMetrics stopped (set_run false (shutdownCh f) f)) end.

(** ** Every interleaving

    A goroutine has a number that no other has; the counter of clients does not wrap around. *)
Inductive step : Frontend R -> Frontend R -> Prop :=
| step_connect t ds e now f : clients f !! t = None -> clientCounter f + 1 < 2 ^ 64 -> step f (connect t false ds e now f)
| step_read t k writes now f : routing f !! k = None -> step f (processRequests t k writes now f)
| step_disconnect t f : step f (disconnect t f)
| step_route k writes f : step f (routeRequest k writes f)
| step_idle now held f : step f (cleanupIdleConnections now held f)
| step_start sockets t ds e now f :
    (forall i, (t <= i)%nat -> clients f !! i = None) -> clientCounter f + zlen (Modes (config f)) < 2 ^ 64 -> step f (snd (Start sockets t ds e now f))
| step_begin_stop held f f' : beginStop held f = Some f' -> step f f'
| step_end_stop ended f : running f = true -> shutdownCh f = true -> step f (snd (endStop ended f)).

Definition reachable (n : string) (c : Config) (r : R) (f : Frontend R) : Prop := rtc step (CreateStdioFrontend n c r) f.

(** ** What happens to the requests of a connection *)

(** A response that was written to a request: the router's, or the error that says why there is none. *)
Definition answers (q : Request) (a : Response) : Prop := (exists e, a = error_response q e) \/ exists r r', RouteRequest [] q EmptyString r = (Ok a, r').
Definition routed_requests (t : nat) (rs : gmap nat (nat * Request)) : list Request := map (fun kr => snd kr.2) (map_to_list (filter (fun kr => fst kr.2 = t) rs)).
Definition accounted (c : ClientConnection) (rs : list Request) : Prop :=
  c_read c ≡ₚ map fst (c_out c) ++ c_failed c ++ rs /\ Forall (fun qa => answers qa.1 qa.2) (c_out c).

Record Inv (f : Frontend R) : Prop := {
  i_accounted t c : clients f !! t = Some c -> accounted c (routed_requests t (routing f));
  i_alive k t q : routing f !! k = Some (t, q) -> is_Some (clients f !! t);
  i_limit : Z.of_nat (size (connections f)) <= Z.max 0 (MaxConcurrentClients (Process (config f)));
}.

Lemma routed_insert k t q rs : rs !! k = None -> routed_requests t (<[k := (t, q)]> rs) ≡ₚ q :: routed_requests t rs.
Proof.
  intros Hn. unfold routed_requests. rewrite map_filter_insert_True by done. rewrite map_to_list_insert; [done|].
  by apply map_lookup_filter_None_2; left.
Qed.
Lemma routed_insert_other k t t' q rs : t' <> t -> rs !! k = None -> routed_requests t (<[k := (t', q)]> rs) = routed_requests t rs.
Proof. intros Hne Hn. unfold routed_requests. rewrite map_filter_insert_False by done. by rewrite delete_id. Qed.
Lemma routed_delete k t q rs : rs !! k = Some (t, q) -> routed_requests t rs ≡ₚ q :: routed_requests t (delete k rs).
Proof. intros Hs. rewrite <- (insert_delete_id rs k (t, q) Hs) at 1. apply routed_insert, lookup_delete_eq. Qed.
Lemma routed_delete_other k t t' q rs : t' <> t -> rs !! k = Some (t', q) -> routed_requests t (delete k rs) = routed_requests t rs.
Proof. intros Hne Hs. rewrite <- (insert_delete_id rs k (t', q) Hs) at 2. symmetry. apply routed_insert_other; [done|apply lookup_delete_eq]. Qed.

(** What matters to the accounts of a connection. *)
Definition same_accounts (c c' : ClientConnection) : Prop := c_read c' = c_read c /\ c_out c' = c_out c /\ c_failed c' = c_failed c.
Lemma accounted_same c c' rs : same_accounts c c' -> accounted c rs -> accounted c' rs.
Proof. intros (Hr & Ho & Hf). unfold accounted. by rewrite Hr, Ho, Hf. Qed.

(** Nothing that the invariant reads is changed. *)
Lemma accounts_keep f f' :
  clients f' = clients f -> routing f' = routing f -> connections f' = connections f -> config f' = config f -> Inv f -> Inv f'.
Proof. intros Hc Hr Hn Hg [J1 J2 J3]. split; [intros t c|intros k t q|]; rewrite ?Hc, ?Hr, ?Hn, ?Hg; [apply J1|apply J2|done]. Qed.

(** A connection changes, its accounts do not. *)
Lemma inv_put t c c' f : clients f !! t = Some c -> same_accounts c c' -> Inv f -> Inv (put t c' f).
Proof.
  intros Ht Hs [J1 J2 J3]. split; cbn; [| |done].
  - intros u x. destruct (decide (u = t)) as [->|Hne]; [|by rewrite lookup_insert_ne; [apply J1|]]. rewrite lookup_insert_eq. intros [= <-].
    eapply accounted_same; [done|]. by apply J1.
  - intros k u q Hk. destruct (decide (u = t)) as [->|Hne]; [by rewrite lookup_insert_eq|]. rewrite lookup_insert_ne by done. by eapply J2.
Qed.

(** A request that was read is answered at once, or will be routed. *)
Lemma inv_read_answered t c c' f :
  clients f !! t = Some c -> accounted c' (routed_requests t (routing f)) -> Inv f -> Inv (put t c' f).
Proof.
  intros Ht Ha [J1 J2 J3]. split; cbn; [| |done].
  - intros u x. destruct (decide (u = t)) as [->|Hne]; [|by rewrite lookup_insert_ne; [apply J1|]]. rewrite lookup_insert_eq. by intros [= <-].
  - intros k u q' Hk. destruct (decide (u = t)) as [->|Hne]; [by rewrite lookup_insert_eq|]. rewrite lookup_insert_ne by done. by eapply J2.
Qed.
Lemma accounted_read c q rs : accounted c rs -> accounted (with_read q c) (q :: rs).
Proof.
  intros [Hp Ho]. split; [|done]. cbn. rewrite Hp, <- !app_assoc. do 2 f_equiv. symmetry. apply Permutation_cons_append.
Qed.
Lemma accounted_written writes c q a rs : answers q a -> accounted c (q :: rs) -> accounted (written writes q a c) rs.
Proof.
  intros Ha [Hp Ho]. unfold written, accounted. destruct (writes && negb (closed c)); cbn; split; try done.
  - rewrite Hp, map_app, <- app_assoc. f_equiv. cbn. symmetry. apply Permutation_middle.
  - apply Forall_app. by split; [|constructor].
  - rewrite Hp. by rewrite <- app_assoc.
Qed.

(** A request waits for its goroutine. *)
Lemma inv_route_later t k c c' q f :
  clients f !! t = Some c -> routing f !! k = None -> accounted c' (q :: routed_requests t (routing f)) -> Inv f ->
  Inv (set_routing (<[k := (t, q)]> (routing f)) (put t c' f)).
Proof.
  intros Ht Hk Ha [J1 J2 J3]. split; cbn; [| |done].
  - intros u x. destruct (decide (u = t)) as [->|Hne].
    + rewrite lookup_insert_eq. intros [= <-]. destruct Ha as [Hp Ho]. split; [|done]. by rewrite routed_insert.
    + rewrite lookup_insert_ne, routed_insert_other by done. apply J1.
  - intros j u q' [[_ [= <- _]]|[_ Hj]]%lookup_insert_Some; [by rewrite lookup_insert_eq|]. destruct (decide (u = t)) as [->|Hne]; [by rewrite lookup_insert_eq|].
    rewrite lookup_insert_ne by done. by eapply J2.
Qed.

Lemma accounts_new t c f : clients f !! t = None -> c_read c = [] -> c_out c = [] -> c_failed c = [] -> Inv f -> Inv (put t c f).
Proof.
  intros Hn Hr Ho Hf [J1 J2 J3]. split; cbn; [| |done].
  - intros u x. destruct (decide (u = t)) as [->|Hne]; [|by rewrite lookup_insert_ne; [apply J1|]]. rewrite lookup_insert_eq. intros [= <-].
    assert (routed_requests t (routing f) = []) as Hz.
    { unfold routed_requests. assert (filter (fun kr : nat * (nat * Request) => fst kr.2 = t) (routing f) = ∅) as ->; [|by rewrite map_to_list_empty].
      apply map_empty. intros k. apply map_lookup_filter_None_2. destruct (routing f !! k) as [[u q]|] eqn:E; [right|by left]. intros y [= <-] Hu. cbn in Hu. subst u.
      destruct (J2 _ _ _ E). congruence. }
    unfold accounted. by rewrite Hr, Ho, Hf, Hz.
  - intros k u q Hk. destruct (decide (u = t)) as [->|Hne]; [by rewrite lookup_insert_eq|]. rewrite lookup_insert_ne by done. by eapply J2.
Qed.

Lemma inv_connect t std ds e now f : clients f !! t = None -> Inv f -> Inv (connect t std ds e now f).
Proof.
  intros Hn Hi. unfold connect, setupClientConnection, registerConnection. cbn [config connections set_counter].
  destruct (Z.leb_spec (MaxConcurrentClients (Process (config f))) (Z.of_nat (size (connections f)))) as [Hl|Hl]; [by apply (accounts_keep f)|].
  apply accounts_new; try done. destruct Hi as [J1 J2 J3]. split; cbn; [done|done|].
  rewrite map_size_insert. destruct (connections f !! _); cbn; lia.
Qed.

Lemma inv_disconnect t f : Inv f -> Inv (disconnect t f).
Proof.
  intros Hi. unfold disconnect. destruct (clients f !! t) as [c|] eqn:Ht; [|done]. destruct (c_stage c); [done|]. destruct (decide _) as [Hp|]; [|done].
  destruct Hi as [J1 J2 J3]. split; cbn.
  - intros u x [_ Hu]%lookup_delete_Some. by apply J1.
  - intros k u q Hk. rewrite lookup_delete_ne; [by eapply J2|]. intros <-. assert (pending t f !! k = Some (t, q)) as Hx by by apply map_lookup_filter_Some.
    rewrite Hp in Hx. by apply lookup_empty_Some in Hx.
  - pose proof (map_subseteq_size _ _ (delete_subseteq (connections f) (id c))). lia.
Qed.

(** A request passes the check of its credentials, or has its answer: the error that says it did not. *)
Lemma authenticated_or_answered writes now c q f :
  authenticateRequest writes now c q f = (true, c) \/
  exists e, authenticateRequest writes now c q f = (false, written writes q (error_response q e) c).
Proof.
  unfold authenticateRequest. destruct (negb _); [by left|]. destruct auth as [a|]; [|by left].
  destruct (a _ _) as [[]|e]; [by left|right; by eexists..].
Qed.

Lemma inv_processRequests t k writes now f : routing f !! k = None -> Inv f -> Inv (processRequests t k writes now f).
Proof.
  intros Hk Hi. unfold processRequests. destruct (clients f !! t) as [c|] eqn:Ht; [|done]. destruct (c_stage c); [|done]. destruct (shutdownCh f); [by eapply inv_put|].
  unfold processSingleRequest, readRequest. destruct (documents c) as [|v ds].
  - destruct (the_end c); [by eapply inv_put|]. apply (accounts_keep (put t c f)); try done. by eapply inv_put.
  - destruct (decode_Request v) as [q|e]; [|apply (accounts_keep (put t (with_documents ds c) f)); try done; by eapply inv_put].
    pose proof (accounted_read (updateConnectionActivity now (with_documents ds c)) q _ (i_accounted _ Hi t c Ht)) as Ha.
    unfold handleRequest. destruct (authenticated_or_answered writes now (with_read q (updateConnectionActivity now (with_documents ds c))) q f) as [->|[e ->]].
    + exact (inv_route_later t k c _ q f Ht Hk Ha Hi).
    + eapply inv_read_answered; [done| |done]. by apply accounted_written; [left; by exists e|].
Qed.

Lemma inv_routeRequest k writes f : Inv f -> Inv (routeRequest k writes f).
Proof.
  intros Hi. unfold routeRequest. destruct (routing f !! k) as [[t q]|] eqn:Hk; [|done]. destruct (clients f !! t) as [c|] eqn:Ht; [|done].
  assert (forall a r, answers q a -> Inv (put t (written writes q a c) (set_router r (set_routing (delete k (routing f)) f)))) as Hw.
  { intros a r Ha. destruct Hi as [J1 J2 J3]. pose proof (J1 t c Ht) as [Hp Ho]. rewrite (routed_delete k t q) in Hp by done.
    pose proof (accounted_written writes c q a _ Ha (conj Hp Ho)) as Hacc. split; cbn; [| |done].
    - intros u x. destruct (decide (u = t)) as [->|Hne]; [rewrite lookup_insert_eq; by intros [= <-]|].
      rewrite lookup_insert_ne by done. intros Hu. rewrite (routed_delete_other k u t q) by done. by apply J1.
    - intros j u q' [_ Hj]%lookup_delete_Some. destruct (decide (u = t)) as [->|Hne]; [by rewrite lookup_insert_eq|]. rewrite lookup_insert_ne by done. by eapply J2. }
  destruct (RouteRequest [] q _ _) as [[resp|e] r] eqn:Er.
  - eapply accounts_keep; [..|apply (Hw resp r)]; try done. right. by eexists _, _.
  - eapply accounts_keep; [..|apply (Hw (error_response q e) r)]; try done. left. by exists e.
Qed.

(** Connections are closed, and may leave the registry. *)
Lemma accounts_close (b : nat -> ClientConnection -> bool) held cs f :
  (size cs <= size (connections f))%nat -> Inv f ->
  Inv (set_connections cs (set_clients (map_imap (fun t c => Some (if b t c then close_conn (held t) c else c)) (clients f)) f)).
Proof.
  intros Hs [J1 J2 J3]. split; cbn.
  - intros t c. rewrite map_lookup_imap. destruct (clients f !! t) as [x|] eqn:E; [|done]. cbn. intros [= <-].
    eapply accounted_same; [|by apply J1]. unfold close_conn. destruct (b t x), (standard x); done.
  - intros k t q Hk. rewrite map_lookup_imap. destruct (J2 _ _ _ Hk) as [c ->]. by eexists.
  - lia.
Qed.

Lemma accounts_start sockets t ds e now ms f :
  (forall i, (t <= i)%nat -> clients f !! i = None) -> Inv f -> Inv (snd (startConfiguredModes sockets t ds e now ms f)).
Proof.
  revert t f. induction ms as [|m ms IH]; intros t f Hn Hi; cbn [startConfiguredModes]; [done|]. destruct (negb _); [by apply IH|].
  assert (Inv (snd (startMode sockets t ds e now m f)) /\ forall i, (S t <= i)%nat -> clients (snd (startMode sockets t ds e now m f)) !! i = None) as [Hi' Hn'].
  { unfold startMode. destruct (bool_decide _); [unfold startUnixSocketMode, startUnixSocket; destruct (sockets _); cbn; (split; [|intros i Hx; apply Hn; lia]); [done|by apply (accounts_keep f)]|].
    destruct (bool_decide _); [|destruct (bool_decide _); cbn; (split; [done|]); intros i Hx; apply Hn; lia].
    unfold startStdinStdoutMode, startStdinStdout. cbn [snd mode_error]. split; [apply inv_connect; [apply Hn; lia|done]|]. intros i Hx. unfold connect, setupClientConnection, registerConnection. cbn [config connections set_counter].
    destruct (_ <=? _); cbn; [apply Hn; lia|]. rewrite lookup_insert_ne by lia. apply Hn. lia. }
  destruct (startMode sockets t ds e now m f) as [[[]|err] f']; [|done]. by apply IH.
Qed.

Lemma step_accounted f f' : step f f' -> Inv f -> Inv f'.
Proof.
  intros [t ds e now f0 Hn _|t k writes now f0 Hk|t f0|k writes f0|now held f0|sockets t ds e now f0 Hn _|held f0 f1 Hs|ended f0 _ _] Hi.
  - by apply inv_connect.
  - by apply inv_processRequests.
  - by apply inv_disconnect.
  - by apply inv_routeRequest.
  - refine (accounts_keep _ _ _ _ _ _ (accounts_close (fun t c => bool_decide (idle_ids now f0 !! id c = Some t)) held (connections f0 ∖ idle_ids now f0) f0 _ Hi)); try done.
    by apply map_subseteq_size, map_subseteq_difference_l.
  - unfold Start. destruct (validateStartup f0); [|done]. destruct (negb _); [done|]. pose proof (accounts_start sockets t ds e now (Modes (config f0)) f0 Hn Hi) as Hi'.
    destruct (startConfiguredModes _ _ _ _ _ _ _) as [[[]|err] g]; [|done]. by apply (accounts_keep g).
  - revert Hs. unfold beginStop. destruct (negb _); [by intros [= <-]|]. destruct (shutdownCh f0); [done|]. intros [= <-].
    refine (accounts_close (fun t c => bool_decide (connections f0 !! id c = Some t)) held ∅ (set_listeners _ _ (set_run (running f0) true f0)) _ _); [by rewrite map_size_empty; lia|by apply (accounts_keep f0)].
  - unfold endStop. destruct ended; [done|]. by apply (accounts_keep f0).
Qed.

(** ** Properties *)

Lemma reachable_accounted n c r f : reachable n c r f -> Inv f.
Proof.
  revert f. refine (rtc_ind_r _ _ _ _).
  - split; cbn; [by intros t x Hx%lookup_empty_Some|by intros k t q Hx%lookup_empty_Some|]. rewrite map_size_empty. lia.
  - intros f1 f2 _ Hs Hi. by eapply step_accounted.
Qed.

(** C19: Whatever the interleaving, every request that was read from a connection is, once, being routed, answered on that connection, or
    one whose answer could not be written; an answer is the router's or an error response with the request's id.  So when a
    connection ends, every request of it has had its answer, and no more connections are registered than are allowed. *)
Theorem stdio_requests_accounted n cfg r f t c :
  reachable n cfg r f -> clients f !! t = Some c ->
  c_read c ≡ₚ map fst (c_out c) ++ c_failed c ++ routed_requests t (routing f) /\ Forall (fun qa => answers qa.1 qa.2) (c_out c) /\
  (clients (disconnect t f) !! t = None -> c_read c ≡ₚ map fst (c_out c) ++ c_failed c) /\
  Z.of_nat (size (connections f)) <= Z.max 0 (MaxConcurrentClients (Process (config f))).
Proof.
  intros [J1 J2 J3]%reachable_accounted Ht. destruct (J1 t c Ht) as [Hp Ho]. split_and!; [done..| |done].
  unfold disconnect. rewrite Ht. destruct (c_stage c); [congruence|]. destruct (decide (pending t f = ∅)) as [He|]; [|congruence]. intros _.
  rewrite Hp. unfold routed_requests. unfold pending in He. rewrite He, map_to_list_empty. by rewrite app_nil_r.
Qed.

(** C20: A connection whose stream ends with an error (a cut document, a syntax error, a passed deadline, a socket that the clean-up of
    idle connections closed) is never left: its goroutine reads the same error again and again, and counts it each time,
    until the frontend is stopped. *)
Theorem stdio_reader_spins t c k writes now f n :
  clients f !! t = Some c -> c_stage c = Reading -> documents c = [] -> the_end c = WithError -> shutdownCh f = false ->
  let f' := Nat.iter n (processRequests t k writes now) f in
  clients f' !! t = Some c /\ disconnect t f' = f' /\ metrics f' = Nat.iter n inc_errors (metrics f).
Proof.
  intros Ht Hs Hd He Hsh. cbn zeta.
  assert (clients (Nat.iter n (processRequests t k writes now) f) !! t = Some c /\ shutdownCh (Nat.iter n (processRequests t k writes now) f) = false /\
    metrics (Nat.iter n (processRequests t k writes now) f) = Nat.iter n inc_errors (metrics f)) as (H1 & H2 & H3).
  { induction n as [|n (J1 & J2 & J3)]; [done|]. rewrite !Nat.iter_succ. set (g := Nat.iter n (processRequests t k writes now) f) in *.
    unfold processRequests. rewrite J1, Hs, J2. unfold processSingleRequest, readRequest. rewrite Hd, He. cbn. rewrite lookup_insert_eq. by rewrite J2, J3. }
  split_and!; [done| |done]. unfold disconnect. by rewrite H1, Hs.
Qed.

End Stdio.

(** ** At work *)

(** The adapter of the factory accepts everybody. *)
Definition stdioAuthAdapter : AuthProvider := fun now credentials => Ok true.
#[local] Notation provider := (Some stdioAuthAdapter).

Definition sample_config (modes : list ModeConfig) : Config := mkConfig true modes (mkProcess 0 0 false).
Definition stdin_mode : ModeConfig := mkMode "stdin_stdout" "" "" true.
Definition socket_mode (path : string) : ModeConfig := mkMode "unix_socket" path "0660" true.
Definition no_error (path : string) : option string := None.
Definition started (modes : list ModeConfig) (ds : list jvalue) : Frontend EchoRouter :=
  snd (Start no_error 0 ds AtEOF 0 (CreateStdioFrontend "local" (sample_config modes) (mkEcho []))).
Definition nothing_held (t : nat) : nat := 0.

(** The standard streams are idle for longer than the timeout and then end: their connection is counted twice as gone. *)
Example idle_stdin_underflow :
  let f := cleanupIdleConnections (301 * Second) nothing_held (started [stdin_mode] []) in
  ActiveConnections (metrics (disconnect 0 (processRequests provider 0 0 true 0 f))) = 2 ^ 64 - 1.
Proof. vm_compute. reflexivity. Qed.

(** A Stop whose caller gives up leaves the frontend running, with a closed channel: the next Stop panics. *)
Example stdio_second_stop_panics :
  (f ← beginStop nothing_held (started [stdin_mode] []); beginStop nothing_held (snd (endStop (Some "context deadline exceeded"%string) f))) = None.
Proof. vm_compute. reflexivity. Qed.

(** Of two sockets only the last is closed. *)
Example socket_left_open :
  (f ← beginStop nothing_held (started [socket_mode "/run/a"; socket_mode "/run/b"] []); Some (listeners f)) = Some ["/run/a"%string].
Proof. vm_compute. reflexivity. Qed.

(** A mode that cannot start leaves the modes before it running, in a frontend that does not run. *)
Example failed_mode_leaves_running :
  let f := started [stdin_mode; mkMode "named_pipes" "" "" true] [] in (running f, size (connections f)) = (false, 1%nat).
Proof. vm_compute. reflexivity. Qed.

(** A request on the standard streams, read and answered. *)
Definition asked : Frontend EchoRouter := processRequests provider 0 0 true 0 (started [stdin_mode] [request_doc Toy.call]).
Definition answered : Frontend EchoRouter := routeRequest 0 true asked.

Example answered_once :
  match clients answered !! 0%nat with Some c => (length (c_read c), map (fun qa => Result qa.2) (c_out c), c_failed c) | None => (0%nat, [], []) end
  = (1%nat, [JString "tools/call"], []).
Proof. vm_compute. reflexivity. Qed.

Lemma answered_reachable : reachable provider "local" (sample_config [stdin_mode]) (mkEcho []) answered.
Proof.
  eapply rtc_l; [apply (step_start provider no_error 0 [request_doc Toy.call] AtEOF 0); [intros i _; apply lookup_empty|reflexivity]|].
  eapply rtc_l; [apply (step_read provider 0 0 true 0); vm_compute; reflexivity|]. apply rtc_once, (step_route provider 0 true).
Qed.

Lemma stdio_requests_accounted_witness :
  exists c, clients answered !! 0%nat = Some c /\ c_read c ≡ₚ map fst (c_out c) ++ c_failed c ++ routed_requests 0 (routing answered) /\
    Z.of_nat (size (connections answered)) <= 100.
Proof.
  destruct (clients answered !! 0%nat) as [c|] eqn:E; [|vm_compute in E; discriminate]. exists c. split; [reflexivity|].
  destruct (stdio_requests_accounted provider "local" (sample_config [stdin_mode]) (mkEcho []) answered 0 c answered_reachable E) as (Hp & _ & _ & Hl).
  split; [exact Hp|exact Hl].
Defined.

(** A socket that the clean-up closed. *)
Definition spinning : ClientConnection := mkClient "stdio-1" false [] WithError 0 true Reading [] [] [].
Definition idle_socket : Frontend EchoRouter := cleanupIdleConnections (301 * Second) nothing_held (connect 0 false [request_doc Toy.call] AtEOF 0 (started [] [])).

Lemma stdio_reader_spins_witness :
  clients idle_socket !! 0%nat = Some spinning /\ ErrorCount (metrics (Nat.iter 1000 (processRequests provider 0 0 true 0) idle_socket)) = 1000.
Proof.
  assert (clients idle_socket !! 0%nat = Some spinning) as E by (vm_compute; reflexivity). split; [exact E|].
  destruct (stdio_reader_spins provider 0 spinning 0 true 0 idle_socket 1000 E) as (_ & _ & Hm); [reflexivity|reflexivity|reflexivity|vm_compute; reflexivity|].
  rewrite Hm. vm_compute. reflexivity.
Defined.

End StdioFrontend.
