(* ===== verification/TcpHandler.v ===== *)
(** * The TCP handler of the server

    [services/gateway/internal/server/tcp_handler.go]: one connection of the binary protocol, from the negotiation of the
    version over the initialization to requests that are validated, authenticated, limited and routed.  It composes
    [Transport], [Validation], [Auth], [Session] and [RateLimit].  A message is handled at a time; the requests that
    were admitted are routed by goroutines, whose ends come in between.  Nothing creates this handler. *)
From S2P Require Import Prelude GoIO GoStrings ErrorCatalog Validation Wire Mcp Transport RateLimit Session Auth Frontends TcpFrontend.
From Stdlib Require Import Strings.Ascii.
#[local] Open Scope Z_scope.

Module TcpHandler.
Import Transport Frontends.

(** Why the handling of a connection ends. *)
Inductive handler_error :=
| ConnectionCanceled | ReceiveFailed (e : TransportError) | NotNegotiated | NegotiationFailed | SendFailed (e : TransportError) | HealthCheckFailed
| InvalidRequest (e : ErrCatalog.entry) | NotAuthenticated (e : Auth.AuthError) | SessionFailed (e : Sessions.SessionError)
| MessageTokenRefused (e : Auth.AuthError) | LimiterFailed | RateLimited | Panicked.

(** What the next read meets: the context has ended; the deadline passes after some bytes of a message; or bytes. *)
Inductive event := EvCanceled | EvTimeout (taken : nat) | EvRead.

Section Handler.
Context `{WireJSON} `{Validate.FormatG} `{BufWriter W} `{Auth.Provider P} `{RequestRouter R} `{TcpFrontend.SessionManager SM} `{GwLimit.RateLimiter L E}.
(** The texts of errors and of instants, and the float64 of a JSON number. *)
Variable entry_text : ErrCatalog.entry -> string.
Variable rfc3339 : Z -> string.
Variable float_of : Z -> Validate.float64.

(** ** State *)

Record TCPHandler := mkHandler { auth : P; router : R; sessions : SM; rateLimit : L; messageAuth : option (Auth.MessageAuthenticator P) }.

(** [wg]: the requests whose goroutines have not ended, with the session they run in. *)
Record connectionState := mkState {
  s_in : list byte; s_out : W; session : option Sessions.Session; authenticated : bool; versionNegotiated : bool; agreedVersion : Z; wg : list Request }.
Record World := mkWorld { handler : TCPHandler; state : connectionState }.

Definition fresh_state (inp : list byte) (out : W) : connectionState := mkState inp out None false false 0 [].

Definition set_state (f : connectionState -> connectionState) (w : World) : World := mkWorld (handler w) (f (state w)).
Definition set_handler (f : TCPHandler -> TCPHandler) (w : World) : World := mkWorld (f (handler w)) (state w).
Definition with_in (s : list byte) c := mkState s (s_out c) (session c) (authenticated c) (versionNegotiated c) (agreedVersion c) (wg c).
Definition with_out (o : W) c := mkState (s_in c) o (session c) (authenticated c) (versionNegotiated c) (agreedVersion c) (wg c).
Definition with_version (v : Z) c := mkState (s_in c) (s_out c) (session c) (authenticated c) true v (wg c).
Definition with_session (s : Sessions.Session) c := mkState (s_in c) (s_out c) (Some s) (authenticated c) (versionNegotiated c) (agreedVersion c) (wg c).
Definition with_authenticated c := mkState (s_in c) (s_out c) (session c) true (versionNegotiated c) (agreedVersion c) (wg c).
Definition with_wg l c := mkState (s_in c) (s_out c) (session c) (authenticated c) (versionNegotiated c) (agreedVersion c) l.
Definition with_auth p h := mkHandler p (router h) (sessions h) (rateLimit h) (messageAuth h).
Definition with_router r h := mkHandler (auth h) r (sessions h) (rateLimit h) (messageAuth h).
Definition with_sessions s h := mkHandler (auth h) (router h) s (rateLimit h) (messageAuth h).
Definition with_limit l h := mkHandler (auth h) (router h) (sessions h) l (messageAuth h).
Definition with_messageAuth m h := mkHandler (auth h) (router h) (sessions h) (rateLimit h) m.

#[local] Notation HM A := (M World handler_error A).
Definition get {A} (f : World -> A) : HM A := fun w => (Ok (f w), w).
Definition modify (f : World -> World) : HM unit := fun w => (Ok tt, f w).
Definition fail {A} (e : handler_error) : HM A := fun w => (Err e, w).

(** An operation of the transport. *)
Definition transport {A} (m : M W TransportError A) : HM (result TransportError A) := fun w =>
  let '(r, o) := m (s_out (state w)) in (Ok r, set_state (with_out o) w).

(** ** Sending *)

(** A response with an error; what cannot be sent is dropped. *)
Definition sendError (id : jvalue) (message : string) : HM unit :=
  _ ← transport (SendResponse {| resp_JSONRPC := "2.0"; Result := JNull; RespError := Some {| Code := -32603; Message := message; Data := JNull |}; resp_ID := id |});
  mret tt.
Definition sendProtocolError (message : string) : HM unit := _ ← transport (SendError (String.list_byte_of_string message)); mret tt.
Definition sendVersionAck (v : Z) : HM unit :=
  r ← transport (SendVersionAck {| AgreedVersion := v |});
  match r with Ok _ => mret tt | Err e => fail (SendFailed e) end.

(** The attempts that are left; the error after the loop is not reached, the last attempt returns its own. *)
Fixpoint health_check_attempts (attempts : nat) : HM unit :=
  match attempts with
  | O => fail HealthCheckFailed
  | S n =>
      r ← transport SendHealthCheck;
      match r with
      | Ok _ => mret tt
      | Err e => match n with O => fail (SendFailed e) | _ => health_check_attempts n end
      end
  end.
Definition healthCheckMaxRetries : nat := 3.
Definition sendHealthCheckWithRetry : HM unit := health_check_attempts healthCheckMaxRetries.
Definition handleHealthCheck : HM unit := health_check_attempts healthCheckMaxRetries.

(** ** Negotiation *)

Definition handleVersionNegotiation (msg : message) : HM unit :=
  w ← get id;
  if versionNegotiated (state w) then sendProtocolError "Version already negotiated"
  else
    match msg with
    | MNegotiation n =>
        match NegotiateVersion (neg_Min n) (neg_Max n) MinVersion MaxVersion with
        | Err _ => _ ← sendProtocolError "Version negotiation failed"; fail NegotiationFailed
        | Ok agreed => _ ← modify (set_state (with_version agreed)); sendVersionAck agreed
        end
    | _ => sendProtocolError "Invalid version negotiation payload"
    end.

(** ** Requests *)

Definition id_of (v : jvalue) : Validate.dynamic Validate.float64 :=
  match v with
  | JString s => Validate.IDString s
  | JNumber n => Validate.IDFloat (float_of n)
  | JNull => Validate.IDOther "<nil>" | JBool _ => Validate.IDOther "bool"
  | JArray _ => Validate.IDOther "[]interface {}" | JObject _ => Validate.IDOther "map[string]interface {}"
  end.

(** [None]: a nil request, without an error. *)
Definition extractRequestFromMessage (msg : message) : option Request * string :=
  match msg with
  | MAuth m => match ExtractRequest m with Ok req => (Some req, AuthToken m) | Err _ => (None, EmptyString) end
  | MRequest req => (Some req, EmptyString)
  | _ => (None, EmptyString)
  end.

(** Reading a field of a nil request panics. *)
Definition validateRequestFormat (req : option Request) : HM Request :=
  match req with
  | None => fail Panicked
  | Some req =>
      match Validate.ValidateRequestID (id_of (req_ID req)) with
      | Err e => _ ← sendError (req_ID req) ("Invalid request ID: " +:+ entry_text e)%string; fail (InvalidRequest e)
      | Ok _ =>
          match Validate.ValidateMethod (Method req) with
          | Err e => _ ← sendError (req_ID req) ("Invalid method: " +:+ entry_text e)%string; fail (InvalidRequest e)
          | Ok _ => mret req
          end
      end
  end.

Definition param (k : string) (v : jvalue) : option jvalue :=
  match v with JObject l => snd <$> List.find (fun kv => bool_decide (kv.1 = k)) l | _ => None end.

Definition extractInitToken (req : Request) : result string string :=
  match ReqParams req with
  | JObject _ =>
      match param "token" (ReqParams req) with
      | Some (JString token) =>
          match Validate.ValidateToken token with
          | Ok _ => Ok token
          | Err e => Err ("[tcp_handler] validate_token: " +:+ fst (ErrCatalog.class_of e) +:+ ": invalid token format: " +:+ entry_text e)%string
          end
      | _ => Err "[tcp_handler] initialize: UNAUTHORIZED: missing authentication token"%string
      end
  | _ => Err "[tcp_handler] initialize: VALIDATION: invalid initialize params"%string
  end.

(** [t]: the readings of the clock; [sid] and [now]: of the session. *)
Definition authenticateInitToken (req : Request) (token : string) (t : Auth.readings) (sid : string) (now : Z) : HM Sessions.Session :=
  w ← get id;
  let '(r, p) := Auth.ValidateToken token t (auth (handler w)) in
  _ ← modify (set_handler (with_auth p));
  match r with
  | Err Auth.Panicked => fail Panicked
  | Err e => _ ← sendError (req_ID req) "Authentication failed"; fail (NotAuthenticated e)
  | Ok claims =>
      let '(s, ss) := TcpFrontend.create_session claims sid now (sessions (handler w)) in
      _ ← modify (set_handler (with_sessions ss));
      match s with
      | Err Sessions.Panicked => fail Panicked
      | Err e => _ ← sendError (req_ID req) "Failed to create session"; fail (SessionFailed e)
      | Ok s => _ ← modify (set_state (fun c => with_authenticated (with_session s c))); mret s
      end
  end.

Definition sendInitializeSuccess (req : Request) (s : Sessions.Session) : HM unit :=
  r ← transport (SendResponse {| resp_JSONRPC := "2.0"; RespError := None; resp_ID := req_ID req;
    Result := JObject [("expiresAt"%string, JString (rfc3339 (Sessions.ExpiresAt s))); ("sessionId"%string, JString (Sessions.ID s))] |});
  match r with Ok _ => mret tt | Err e => fail (SendFailed e) end.

Definition handleInitialization (req : Request) (t : Auth.readings) (sid : string) (now : Z) : HM unit :=
  if negb (bool_decide (Method req = "initialize"%string)) then sendError (req_ID req) "Unauthorized: must initialize first"
  else
    match extractInitToken req with
    | Err text => sendError (req_ID req) text
    | Ok token => s ← authenticateInitToken req token t sid now; sendInitializeSuccess req s
    end.

(** A nil session panics. *)
Definition current_session : HM Sessions.Session := w ← get id; match session (state w) with Some s => mret s | None => fail Panicked end.

Definition validatePerMessageAuth (authToken : string) (req : Request) (t tp : Auth.readings) : HM unit :=
  w ← get id;
  match messageAuth (handler w) with
  | Some ma =>
      if bool_decide (authToken = EmptyString) then mret tt
      else
        s ← current_session;
        let '(r, ma) := Auth.ValidateMessageToken authToken (Sessions.ID s) t tp ma in
        _ ← modify (set_handler (with_messageAuth (Some ma)));
        match r with
        | Ok _ => mret tt
        | Err Auth.Panicked => fail Panicked
        | Err e => _ ← sendError (req_ID req) "Per-message authentication failed"; fail (MessageTokenRefused e)
        end
  | None => mret tt
  end.

Definition checkRateLimit (req : Request) (now : Z) : HM unit :=
  s ← current_session;
  w ← get id;
  let '(r, l) := GwLimit.rl_Allow (Sessions.User s) (Sessions.RateLimit s) now (rateLimit (handler w)) in
  _ ← modify (set_handler (with_limit l));
  match r with
  | Err _ => _ ← sendError (req_ID req) "Internal error"; fail LimiterFailed
  | Ok false => _ ← sendError (req_ID req) "Rate limit exceeded"; fail RateLimited
  | Ok true => mret tt
  end.

(** The readings of the clock of one message. *)
Record clock := mkClock { k_token : Auth.readings; k_message : Auth.readings; k_session : string; k_now : Z }.

Definition handleRequest (msg : message) (k : clock) : HM unit :=
  let '(o, authToken) := extractRequestFromMessage msg in
  req ← validateRequestFormat o;
  w ← get id;
  if negb (authenticated (state w)) then handleInitialization req (k_token k) (k_session k) (k_now k)
  else
    _ ← validatePerMessageAuth authToken req (k_message k) (k_token k);
    _ ← checkRateLimit req (k_now k);
    modify (set_state (fun c => with_wg (wg c ++ [req]) c)).

Definition handleMessage (msgType : Z) (msg : message) (k : clock) : HM unit :=
  if msgType =? MessageTypeVersionNegotiation then handleVersionNegotiation msg
  else if msgType =? MessageTypeRequest then handleRequest msg k
  else if msgType =? MessageTypeHealthCheck then handleHealthCheck
  else if msgType =? MessageTypeResponse then sendProtocolError "Unexpected response message from client"
  else if msgType =? MessageTypeError then mret tt
  else if msgType =? MessageTypeVersionAck then sendProtocolError "Unexpected version ack from client"
  else if msgType =? MessageTypeControl then mret tt
  else sendProtocolError "Unknown message type".

Definition read : HM (result TransportError (Z * message)) := fun w =>
  let '(r, rest) := ReceiveMessage (s_in (state w)) in (Ok r, set_state (with_in rest) w).

Definition processNextMessage (ev : event) (k : clock) : HM unit :=
  match ev with
  | EvCanceled => fail ConnectionCanceled
  | EvTimeout n => _ ← modify (set_state (fun c => with_in (drop n (s_in c)) c)); sendHealthCheckWithRetry
  | EvRead =>
      r ← read;
      match r with
      | Err e => fail (ReceiveFailed e)
      | Ok (msgType, msg) =>
          w ← get id;
          if negb (versionNegotiated (state w)) && negb (msgType =? MessageTypeVersionNegotiation)
          then _ ← sendProtocolError "Version negotiation required"; fail NotNegotiated
          else handleMessage msgType msg k
      end
  end.

(** *** Routing; [i]: which of the requests *)

Definition target_namespace (req : Request) : string :=
  match param "namespace" (ReqParams req) with
  | Some (JString ns) => match Validate.ValidateNamespace ns with Ok _ => ns | Err _ => EmptyString end
  | _ => EmptyString
  end.

Definition processRequestAsync (i : nat) : HM unit :=
  w ← get id;
  match wg (state w) !! i with
  | None => mret tt
  | Some req =>
      _ ← modify (set_state (with_wg (delete i (wg (state w)))));
      let ctx := match session (state w) with Some s => WithValue ServerKey s [] | None => [] end in
      let '(r, rt) := RouteRequest ctx req (target_namespace req) (router (handler w)) in
      _ ← modify (set_handler (with_router rt));
      match r with
      | Err e => sendError (req_ID req) ("Routing failed: " +:+ e)%string
      | Ok resp => _ ← transport (SendResponse resp); mret tt
      end
  end.

(** ** What an operation leaves alone

    The part of the state that says how far a connection has come. *)
Definition core (w : World) : option Sessions.Session * bool * bool * Z * list Request :=
  let c := state w in (session c, authenticated c, versionNegotiated c, agreedVersion c, wg c).
Definition quiet {A} (m : HM A) : Prop := forall w, core (snd (m w)) = core w /\ fst (m w) <> Err Panicked.

Lemma quiet_bind {A B} (m : HM A) (f : A -> HM B) : quiet m -> (forall a, quiet (f a)) -> quiet (m ≫= f).
Proof.
  intros Hm Hf w. destruct (Hm w) as [Hc Hp]. unfold mbind, M_bind. destruct (m w) as [[a|e] w']; cbn in Hc, Hp |- *.
  - rewrite <- Hc. apply Hf.
  - split; [done|]. intros [= ->]. by apply Hp.
Qed.
Lemma quiet_ret {A} (a : A) : quiet (mret a).
Proof. by intros w. Qed.
Lemma quiet_fail {A} e : e <> Panicked -> quiet (fail (A := A) e).
Proof. intros He w. split; [done|]. by intros [= ->]. Qed.
Lemma quiet_get {A} (f : World -> A) : quiet (get f).
Proof. by intros w. Qed.
Lemma quiet_transport {A} (m : M W TransportError A) : quiet (transport m).
Proof. intros w. unfold transport. by destruct (m _). Qed.
Lemma quiet_handler f : quiet (modify (set_handler f)).
Proof. by intros w. Qed.

Create HintDb quiet.
#[local] Hint Resolve quiet_ret quiet_get quiet_transport quiet_handler : quiet.
#[local] Hint Extern 2 (quiet (fail _)) => apply quiet_fail; discriminate : quiet.
#[local] Hint Extern 3 (quiet (mbind _ _)) => apply quiet_bind; [|intros] : quiet.

Lemma quiet_sendError id text : quiet (sendError id text).
Proof. unfold sendError. auto with quiet. Qed.
Lemma quiet_sendProtocolError text : quiet (sendProtocolError text).
Proof. unfold sendProtocolError. auto with quiet. Qed.
Lemma quiet_sendVersionAck v : quiet (sendVersionAck v).
Proof. apply quiet_bind; [auto with quiet|]. intros [?|?]; auto with quiet. Qed.
#[local] Hint Resolve quiet_sendError quiet_sendProtocolError quiet_sendVersionAck : quiet.

Lemma quiet_health n : quiet (health_check_attempts (S n)).
Proof. induction n as [|n IH]; (apply quiet_bind; [auto with quiet|]); intros [?|?]; auto with quiet. Qed.

Lemma quiet_initialized req s : quiet (sendInitializeSuccess req s).
Proof. apply quiet_bind; [auto with quiet|]. intros [?|?]; auto with quiet. Qed.

(** *** The operations that change it *)

Lemma format_inv o w r w' :
  validateRequestFormat o w = (r, w') -> core w' = core w /\ handler w' = handler w /\
  match r with
  | Ok req => o = Some req /\ w' = w /\ Validate.ValidateRequestID (id_of (req_ID req)) = Ok tt /\ Validate.ValidateMethod (Method req) = Ok tt
  | Err e => e = Panicked -> o = None
  end.
Proof.
  unfold validateRequestFormat. destruct o as [req|]; [|by intros [= <- <-]].
  assert (forall text e, let x := (_ ← sendError (req_ID req) text; fail (A := Request) (InvalidRequest e)) w in
    core (snd x) = core w /\ handler (snd x) = handler w /\ fst x = Err (InvalidRequest e)) as Hs.
  { intros text e. unfold sendError, transport, mbind, M_bind. destruct (SendResponse _ _) as [[?|?] ?]; done. }
  destruct (Validate.ValidateRequestID _) as [[]|e] eqn:E1.
  - destruct (Validate.ValidateMethod _) as [[]|e] eqn:E2; [by intros [= <- <-]|]. intros Hx. specialize (Hs ("Invalid method: " +:+ entry_text e)%string e). rewrite Hx in Hs.
    cbn in Hs. destruct Hs as (Hc & Hh & ->). by split_and!.
  - intros Hx. specialize (Hs ("Invalid request ID: " +:+ entry_text e)%string e). rewrite Hx in Hs. cbn in Hs. destruct Hs as (Hc & Hh & ->). by split_and!.
Qed.

(** The session of claims that the provider gave for an acceptable token. *)
Definition backed (s : Sessions.Session) : Prop :=
  exists token t (p p' : P) c id now (ss ss' : SM), Validate.ValidateToken token = Ok tt /\ Auth.ValidateToken token t p = (Ok c, p') /\
    TcpFrontend.create_session c id now ss = (Ok s, ss').

Record stage (w : World) : Prop := {
  g_version : versionNegotiated (state w) = true -> MinVersion <= agreedVersion (state w) <= MaxVersion;
  g_session : authenticated (state w) = true -> versionNegotiated (state w) = true /\ exists s, session (state w) = Some s /\ backed s;
  g_wg : wg (state w) <> [] -> authenticated (state w) = true;
}.

Lemma stage_core w w' : core w' = core w -> stage w -> stage w'.
Proof. unfold core. intros [= Hs Ha Hv Hg Hw] [J1 J2 J3]. split; rewrite ?Hs, ?Ha, ?Hv, ?Hg, ?Hw; done. Qed.

Lemma init_token_valid req token : extractInitToken req = Ok token -> Validate.ValidateToken token = Ok tt.
Proof.
  unfold extractInitToken. destruct (ReqParams req); try done. destruct (param _ _) as [[]|]; try done.
  destruct (Validate.ValidateToken s) as [[]|] eqn:Ev; [|done]. by intros [= <-].
Qed.

(** What can panic in what the handler calls. *)
Definition provider_panics (token : string) (t : Auth.readings) (h : TCPHandler) : Prop := fst (Auth.ValidateToken token t (auth h)) = Err Auth.Panicked.
Definition sessions_panic (token : string) (k : clock) (h : TCPHandler) : Prop :=
  exists c, fst (Auth.ValidateToken token (k_token k) (auth h)) = Ok c /\ fst (TcpFrontend.create_session c (k_session k) (k_now k) (sessions h)) = Err Sessions.Panicked.

Lemma authenticate_inv req token k w r w' :
  authenticateInitToken req token (k_token k) (k_session k) (k_now k) w = (r, w') ->
  match r with
  | Ok s => core w' = (Some s, true, versionNegotiated (state w), agreedVersion (state w), wg (state w)) /\
      exists c p' ss', Auth.ValidateToken token (k_token k) (auth (handler w)) = (Ok c, p') /\
        TcpFrontend.create_session c (k_session k) (k_now k) (sessions (handler w)) = (Ok s, ss')
  | Err e => core w' = core w /\ (e = Panicked -> provider_panics token (k_token k) (handler w) \/ sessions_panic token k (handler w))
  end.
Proof.
  assert (forall text e w0, let x := (_ ← sendError (req_ID req) text; fail (A := Sessions.Session) e) w0 in core (snd x) = core w0 /\ fst x = Err e) as Hs.
  { intros text e w0. unfold sendError, transport, mbind, M_bind. destruct (SendResponse _ _) as [[?|?] ?]; done. }
  unfold authenticateInitToken, get, provider_panics, sessions_panic. unfold mbind at 1, M_bind at 1. cbn [id].
  destruct (Auth.ValidateToken token (k_token k) (auth (handler w))) as [[c|e] p] eqn:Ep.
  - unfold modify. unfold mbind at 1, M_bind at 1. cbn beta iota. destruct (TcpFrontend.create_session c _ _ _) as [[s|e] ss] eqn:Es.
    + cbn. intros [= <- <-]. split; [done|]. by exists c, p, ss.
    + unfold mbind at 1, M_bind at 1. cbn beta iota.
      set (w1 := set_handler _ (set_handler _ w)).
      destruct e; try (intros Hx; match type of Hx with ?m _ = _ => pose proof (Hs "Failed to create session"%string) as Hy end;
        match type of Hx with (_ ← _; fail ?x) _ = _ => specialize (Hy x w1) end; rewrite Hx in Hy; cbn in Hy; destruct Hy as [Hc ->]; split; [by rewrite Hc|done]).
      intros [= <- <-]. split; [done|]. intros _. right. exists c. cbn. by rewrite Es.
  - unfold modify. unfold mbind at 1, M_bind at 1. cbn beta iota. set (w1 := set_handler _ w).
    destruct (Auth.AuthError_eq_dec e Auth.Panicked) as [->|Hne]; [intros [= <- <-]; split; [done|]; intros _; by left|].
    intros Hx. pose proof (Hs "Authentication failed"%string (NotAuthenticated e) w1) as Hy.
    assert ((_ ← sendError (req_ID req) "Authentication failed"; fail (A := Sessions.Session) (NotAuthenticated e)) w1 = (r, w')) as Hz by by destruct e.
    rewrite Hz in Hy. cbn in Hy. destruct Hy as [Hc ->]. split; [by rewrite Hc|done].
Qed.

Lemma initialization_inv req k w r w' :
  handleInitialization req (k_token k) (k_session k) (k_now k) w = (r, w') -> stage w -> versionNegotiated (state w) = true -> authenticated (state w) = false ->
  stage w' /\ wg (state w') = wg (state w) /\
  (r = Err Panicked -> exists token, extractInitToken req = Ok token /\ (provider_panics token (k_token k) (handler w) \/ sessions_panic token k (handler w))).
Proof.
  assert (forall m : HM unit, quiet m -> m w = (r, w') -> stage w -> stage w' /\ wg (state w') = wg (state w) /\ (r = Err Panicked -> False)) as Hq.
  { intros m Hm Hx Hi. destruct (Hm w) as [Hc Hp]. rewrite Hx in Hc, Hp. cbn in Hc, Hp. split_and!; [by eapply stage_core|by injection Hc|done]. }
  unfold handleInitialization. intros Hx Hi Hv Ha. destruct (negb _); [destruct (Hq _ (quiet_sendError _ _) Hx Hi) as (J1 & J2 & J3); split_and!; [done..|]; intros Hr; by destruct J3|].
  destruct (extractInitToken req) as [token|text] eqn:Et; [|destruct (Hq _ (quiet_sendError _ _) Hx Hi) as (J1 & J2 & J3); split_and!; [done..|]; intros Hr; by destruct J3].
  revert Hx. unfold mbind, M_bind. destruct (authenticateInitToken req token _ _ _ w) as [[s|e] w1] eqn:Eu; apply authenticate_inv in Eu.
  - destruct Eu as (Hc & c & p' & ss' & Ep & Es). intros Hx. destruct (quiet_initialized req s w1) as [Hc2 Hp]. rewrite Hx in Hc2, Hp. cbn in Hc2, Hp.
    rewrite Hc in Hc2. unfold core in Hc2. injection Hc2 as E1 E2 E3 E4 E5. split_and!; [|done|done].
    destruct Hi as [J1 J2 J3]. split; rewrite ?E1, ?E2, ?E3, ?E4, ?E5; [done| |done]. intros _. split; [done|]. exists s. split; [done|].
    exists token, (k_token k), (auth (handler w)), p', c, (k_session k), (k_now k), (sessions (handler w)), ss'. split_and!; [by eapply init_token_valid|done..].
  - intros [= <- <-]. destruct Eu as [Hc Hp]. split_and!; [by eapply stage_core|by injection Hc|]. intros [= ->]. exists token. by split; [|apply Hp].
Qed.

(** The message token is good, when the handler asks for one and the client sent one. *)
Definition token_accepted (tok : string) (s : Sessions.Session) (k : clock) (h : TCPHandler) : Prop :=
  forall ma, messageAuth h = Some ma -> tok <> EmptyString -> fst (Auth.ValidateMessageToken tok (Sessions.ID s) (k_message k) (k_token k) ma) = Ok tt.
Definition message_auth_panics (tok : string) (s : Sessions.Session) (k : clock) (h : TCPHandler) : Prop :=
  exists ma, messageAuth h = Some ma /\ fst (Auth.ValidateMessageToken tok (Sessions.ID s) (k_message k) (k_token k) ma) = Err Auth.Panicked.

(** An error is answered and returned. *)
Lemma error_answered {A} req text e (w : World) r w' :
  (_ ← sendError (req_ID req) text; fail (A := A) e) w = (r, w') -> core w' = core w /\ r = Err e.
Proof. unfold sendError, transport, mbind, M_bind. destruct (SendResponse _ _) as [[?|?] ?]; by intros [= <- <-]. Qed.

Lemma message_auth_inv tok req s k w r w' :
  session (state w) = Some s -> validatePerMessageAuth tok req (k_message k) (k_token k) w = (r, w') ->
  core w' = core w /\ rateLimit (handler w') = rateLimit (handler w) /\
  match r with Ok _ => token_accepted tok s k (handler w) | Err e => e = Panicked -> message_auth_panics tok s k (handler w) end.
Proof.
  intros Hs. unfold validatePerMessageAuth, get, token_accepted, message_auth_panics. unfold mbind at 1, M_bind at 1. cbn [id].
  destruct (messageAuth (handler w)) as [ma|] eqn:Em; [|intros [= <- <-]; by split_and!].
  destruct (bool_decide_reflect (tok = EmptyString)) as [->|Hne]; [intros [= <- <-]; split_and!; [done..|]; intros ? _ []; done|].
  unfold current_session, get. unfold mbind at 1, M_bind at 1. unfold mbind at 1, M_bind at 1. cbn [id]. rewrite Hs. cbn beta iota.
  unfold mret at 1, M_ret at 1. cbn beta iota.
  destruct (Auth.ValidateMessageToken tok _ _ _ ma) as [[[]|e] ma'] eqn:Ev; unfold modify; unfold mbind at 1, M_bind at 1; cbn beta iota.
  - intros [= <- <-]. split_and!; [done..|]. intros ma0 [= <-] _. by rewrite Ev.
  - destruct (Auth.AuthError_eq_dec e Auth.Panicked) as [->|Hp]; [intros [= <- <-]; split_and!; [done..|]; intros _; exists ma; by rewrite Ev|].
    intros Hx. assert ((_ ← sendError (req_ID req) "Per-message authentication failed"; fail (A := unit) (MessageTokenRefused e)) (set_handler (with_messageAuth (Some ma')) w) = (r, w')) as Hz
      by by destruct e.
    assert (rateLimit (handler w') = rateLimit (handler w)) as Hl.
    { revert Hz. unfold sendError, transport, mbind, M_bind. destruct (SendResponse _ _) as [[?|?] ?]; by intros [= _ <-]. }
    apply error_answered in Hz as [Hc ->]. by split_and!; [rewrite Hc| |].
Qed.

Lemma rate_limit_inv req s k w r w' :
  session (state w) = Some s -> checkRateLimit req (k_now k) w = (r, w') ->
  core w' = core w /\ match r with Ok _ => fst (GwLimit.rl_Allow (Sessions.User s) (Sessions.RateLimit s) (k_now k) (rateLimit (handler w))) = Ok true | Err e => e <> Panicked end.
Proof.
  intros Hs. unfold checkRateLimit, current_session, get. unfold mbind at 1, M_bind at 1. unfold mbind at 1, M_bind at 1. cbn [id]. rewrite Hs.
  unfold mret at 1, M_ret at 1. cbn beta iota. unfold mbind at 1, M_bind at 1. cbn [id].
  destruct (GwLimit.rl_Allow _ _ _ _) as [x l] eqn:El. unfold modify. unfold mbind at 1, M_bind at 1. cbn beta iota.
  destruct x as [[]|e]; [intros [= <- <-]; done|intros [Hc ->]%error_answered; by rewrite Hc..].
Qed.

(** What it takes for a request to be routed. *)
Definition admission (msg : message) (req : Request) (k : clock) (w : World) : Prop :=
  exists tok s, extractRequestFromMessage msg = (Some req, tok) /\
    Validate.ValidateRequestID (id_of (req_ID req)) = Ok tt /\ Validate.ValidateMethod (Method req) = Ok tt /\
    versionNegotiated (state w) = true /\ MinVersion <= agreedVersion (state w) <= MaxVersion /\ session (state w) = Some s /\ backed s /\
    token_accepted tok s k (handler w) /\
    fst (GwLimit.rl_Allow (Sessions.User s) (Sessions.RateLimit s) (k_now k) (rateLimit (handler w))) = Ok true.

(** What can stop the gateway. *)
Definition panic_cause (msg : message) (k : clock) (w : World) : Prop :=
  fst (extractRequestFromMessage msg) = None \/
  (exists req token, extractInitToken req = Ok token /\ (provider_panics token (k_token k) (handler w) \/ sessions_panic token k (handler w))) \/
  exists tok s, message_auth_panics tok s k (handler w).

Lemma request_inv msg k w r w' :
  handleRequest msg k w = (r, w') -> stage w -> versionNegotiated (state w) = true ->
  stage w' /\ (wg (state w') = wg (state w) \/ exists req, wg (state w') = wg (state w) ++ [req] /\ admission msg req k w) /\
  (r = Err Panicked -> panic_cause msg k w).
Proof.
  unfold handleRequest. destruct (extractRequestFromMessage msg) as [o tok] eqn:Ex. intros Hx Hi Hv. revert Hx. unfold mbind at 1, M_bind at 1.
  destruct (validateRequestFormat o w) as [[req|e] w1] eqn:Ef; apply format_inv in Ef as (Hc & _ & Hr).
  2:{ intros [= <- <-]. split_and!; [by eapply stage_core|left; by injection Hc|]. intros [= ->]. left. rewrite Ex. by apply Hr. }
  destruct Hr as (-> & -> & Hid & Hm). clear Hc. unfold get. unfold mbind at 1, M_bind at 1. cbn [id]. destruct (authenticated (state w)) eqn:Ea; cbn [negb].
  2:{ intros Hx. destruct (initialization_inv _ _ _ _ _ Hx Hi Hv Ea) as (J1 & J2 & J3). split_and!; [done|by left|]. intros Hr. destruct (J3 Hr) as (token & Ht & Hp).
      right; left. by exists req, token. }
  destruct (g_session _ Hi Ea) as (_ & s & Hs & Hb). unfold mbind at 1, M_bind at 1.
  destruct (validatePerMessageAuth _ _ _ _ w) as [[[]|e] w1] eqn:Ev; apply (message_auth_inv _ _ s) in Ev as (Hc & Hl & Hr); try done.
  2:{ intros [= <- <-]. split_and!; [by eapply stage_core|left; by injection Hc|]. intros [= ->]. right; right. exists tok, s. by apply Hr. }
  unfold mbind at 1, M_bind at 1. assert (session (state w1) = Some s) as Hs1 by (injection Hc; congruence).
  destruct (checkRateLimit _ _ w1) as [[[]|e] w2] eqn:El; apply (rate_limit_inv _ s) in El as (Hc2 & Hr2); try done; rewrite Hc in Hc2.
  2:{ intros [= <- <-]. split_and!; [by eapply stage_core|left; by injection Hc2|by intros [= ->]]. }
  intros [= <- <-]. injection Hc2 as E1 E2 E3 E4 E5. split_and!; [|right; exists req; split; [cbn; by rewrite E5|]|done].
  - destruct Hi as [J1 J2 J3]. split; cbn; rewrite ?E1, ?E2, ?E3, ?E4; done.
  - rewrite Hl in Hr2. exists tok, s. split_and!; try done; by apply (g_version _ Hi).
Qed.

Lemma quiet_stage (m : HM unit) w r w' : quiet m -> m w = (r, w') -> stage w -> stage w' /\ wg (state w') = wg (state w) /\ r <> Err Panicked.
Proof. intros Hm Hx Hi. destruct (Hm w) as [Hc Hp]. rewrite Hx in Hc, Hp. cbn in Hc, Hp. split_and!; [by eapply stage_core|by injection Hc|done]. Qed.

Lemma negotiation_inv msg w r w' :
  handleVersionNegotiation msg w = (r, w') -> stage w -> stage w' /\ wg (state w') = wg (state w) /\ r <> Err Panicked.
Proof.
  unfold handleVersionNegotiation, get. unfold mbind at 1, M_bind at 1. cbn [id]. intros Hx Hi. revert Hx. destruct (versionNegotiated (state w)) eqn:Ev.
  { intros Hx. eapply quiet_stage; [apply quiet_sendProtocolError|done|done]. }
  destruct msg as [|n| | | | | |]; try (intros Hx; eapply quiet_stage; [apply quiet_sendProtocolError|done|done]).
  destruct (NegotiateVersion _ _ _ _) as [agreed|[]] eqn:En; [|intros Hx; eapply quiet_stage; [|done|done]; auto with quiet].
  unfold modify. unfold mbind at 1, M_bind at 1. cbn beta iota. intros Hx.
  assert (stage (set_state (with_version agreed) w)) as Hi'.
  { destruct Hi as [J1 J2 J3]. split; cbn; [|by intros Ha%J2; destruct Ha as [Ha _]; congruence|done]. intros _. revert En. unfold NegotiateVersion.
    destruct (Z.ltb_spec (neg_Min n) MinVersion), (Z.ltb_spec MaxVersion (neg_Max n)); cbv zeta;
      match goal with |- context [?a <? ?b] => destruct (Z.ltb_spec a b) end; intros [= <-]; unfold MinVersion, MaxVersion in *; lia. }
  destruct (quiet_stage _ _ _ _ (quiet_sendVersionAck agreed) Hx Hi') as (J1 & J2 & J3). by split_and!.
Qed.

Lemma message_inv t msg k w r w' :
  handleMessage t msg k w = (r, w') -> stage w -> versionNegotiated (state w) = true \/ t = MessageTypeVersionNegotiation ->
  stage w' /\ (wg (state w') = wg (state w) \/ exists req, t = MessageTypeRequest /\ wg (state w') = wg (state w) ++ [req] /\ admission msg req k w) /\
  (r = Err Panicked -> t = MessageTypeRequest /\ panic_cause msg k w).
Proof.
  assert (forall m : HM unit, quiet m -> m w = (r, w') -> stage w ->
    stage w' /\ (wg (state w') = wg (state w) \/ exists req, t = MessageTypeRequest /\ wg (state w') = wg (state w) ++ [req] /\ admission msg req k w) /\
    (r = Err Panicked -> t = MessageTypeRequest /\ panic_cause msg k w)) as Hq.
  { intros m Hm Hx Hi. destruct (quiet_stage _ _ _ _ Hm Hx Hi) as (J1 & J2 & J3). split_and!; [done|by left|done]. }
  unfold handleMessage. intros Hx Hi Hv. revert Hx. destruct (Z.eqb_spec t MessageTypeVersionNegotiation).
  { intros Hx. destruct (negotiation_inv _ _ _ _ Hx Hi) as (J1 & J2 & J3). split_and!; [done|by left|done]. }
  destruct Hv as [Hv|]; [|done]. destruct (Z.eqb_spec t MessageTypeRequest) as [->|].
  { intros Hx. destruct (request_inv _ _ _ _ _ Hx Hi Hv) as (J1 & J2 & J3). split_and!; [done| |].
    - destruct J2 as [J2|(req & J2 & J4)]; [by left|right; by exists req].
    - intros Hr. split; [done|by apply J3]. }
  repeat (destruct (t =? _); [intros Hx; eapply Hq; [|done|done]; try apply quiet_health; auto with quiet|]). intros Hx. eapply Hq; [|done|done]. auto with quiet.
Qed.

(** ** Every run *)

(** Messages, and the ends of requests in between. *)
Inductive step : World -> World -> Prop :=
| step_message ev k w : step w (snd (processNextMessage ev k w))
| step_routed i w : step w (snd (processRequestAsync i w)).

Definition reachable (h : TCPHandler) (inp : list byte) (out : W) (w : World) : Prop := rtc step (mkWorld h (fresh_state inp out)) w.

Definition received (w : World) (t : Z) (msg : message) : Prop := exists rest, ReceiveMessage (s_in (state w)) = (Ok (t, msg), rest).

Lemma next_inv ev k w r w' :
  processNextMessage ev k w = (r, w') -> stage w ->
  stage w' /\
  (wg (state w') = wg (state w) \/ exists msg req, received w MessageTypeRequest msg /\ wg (state w') = wg (state w) ++ [req] /\ admission msg req k w) /\
  (r = Err Panicked -> exists msg, received w MessageTypeRequest msg /\ panic_cause msg k w).
Proof.
  unfold processNextMessage, received. intros Hx Hi. revert Hx. destruct ev as [|n|].
  - intros [= <- <-]. split_and!; [done|by left|done].
  - unfold modify. unfold mbind at 1, M_bind at 1. cbn beta iota. intros Hx.
    destruct (quiet_stage _ _ _ _ (quiet_health 2) Hx) as (J1 & J2 & J3); [by apply (stage_core w)|]. split_and!; [done|by left|done].
  - unfold read. unfold mbind at 1, M_bind at 1. destruct (ReceiveMessage (s_in (state w))) as [[[t msg]|e] rest] eqn:Er; cbn beta iota.
    2:{ intros [= <- <-]. split_and!; [by apply (stage_core w)|by left|done]. }
    assert (stage (set_state (with_in rest) w)) as Hi' by by apply (stage_core w). unfold get. unfold mbind at 1, M_bind at 1. cbn [id].
    destruct (versionNegotiated (state (set_state (with_in rest) w))) eqn:Ev, (Z.eqb_spec t MessageTypeVersionNegotiation) as [->|Hne]; cbn [negb andb].
    3:{ intros Hx. destruct (message_inv _ _ _ _ _ _ Hx Hi') as (J1 & J2 & J3); [by right|]. split_and!; [done| |by intros Hr; destruct (J3 Hr)].
        destruct J2 as [J2|(req & J2 & _)]; [by left|done]. }
    3:{ intros Hx. destruct (quiet_stage (_ ← sendProtocolError "Version negotiation required"; fail NotNegotiated) _ _ _ ltac:(auto with quiet) Hx Hi') as (J1 & J2 & J3).
        split_and!; [done|by left|done]. }
    all: intros Hx; destruct (message_inv _ _ _ _ _ _ Hx Hi') as (J1 & J2 & J3); [by left|]; split_and!; [done|destruct J2 as [J2|(req & J0 & J2 & J4)]; [by left|]|];
      [right; exists msg, req; subst; split_and!; [by exists rest|done|done]|intros Hr; destruct (J3 Hr) as [J0 J4]; subst; exists msg; split; [by exists rest|done]].
Qed.

Lemma async_stage i w : stage w -> stage (snd (processRequestAsync i w)).
Proof.
  intros Hi. unfold processRequestAsync, get. unfold mbind at 1, M_bind at 1. cbn [id]. destruct (wg (state w) !! i) as [req|] eqn:Ew; [|done].
  unfold modify. unfold mbind at 1, M_bind at 1. cbn beta iota. set (w1 := set_state _ w).
  assert (stage w1) as Hi1.
  { destruct Hi as [J1 J2 J3]. split; cbn; [done|done|]. intros _. apply J3. intros Hw. by rewrite Hw in Ew. }
  cbn [snd]. destruct (RouteRequest _ _ _ _) as [x rt]. unfold mbind at 1, M_bind at 1. cbn beta iota.
  assert (stage (set_handler (with_router rt) w1)) as Hi2 by by apply (stage_core w1).
  match goal with |- stage (snd (?m ?w0)) => destruct (m w0) as [r w'] eqn:Ex end. cbn [snd].
  assert (quiet (match x with Ok resp => _ ← transport (SendResponse resp); mret tt | Err e => sendError (req_ID req) ("Routing failed: " +:+ e)%string end)) as Hq
    by (destruct x; auto with quiet).
  by destruct (quiet_stage _ _ _ _ Hq Ex Hi2) as (J1 & _).
Qed.

Lemma reachable_stage h inp out w : reachable h inp out w -> stage w.
Proof.
  revert w. unfold reachable. refine (rtc_ind_r _ _ _ _); [by split|]. intros w1 w2 _ Hs Hi. destruct Hs as [ev k w0|i w0]; [|by apply async_stage].
  destruct (processNextMessage ev k w0) as [r w'] eqn:Ex. by eapply next_inv.
Qed.

(** C7: Whatever a client has sent before, a message makes the handler route a request only when the message is a request that names
    an identifier and a method of the accepted form, the version was negotiated, the session of the connection comes from a
    token that the provider accepted, the message's own token (if it has one and the handler checks them) is valid for that session,
    and the limiter allows the user one more request.  Nothing else is ever routed. *)
Theorem tcp_handler_gate h inp out w ev k :
  reachable h inp out w ->
  let w' := snd (processNextMessage ev k w) in
  wg (state w') = wg (state w) \/ exists msg req, received w MessageTypeRequest msg /\ wg (state w') = wg (state w) ++ [req] /\ admission msg req k w.
Proof.
  intros Hi%reachable_stage. destruct (processNextMessage ev k w) as [r w'] eqn:Ex. by by apply next_inv in Ex as (_ & Hw & _).
Qed.

(** C8: The handler panics only on a request: because the request could not be extracted, or because the provider, the session
    manager or the check of the message token panics. *)
Theorem tcp_handler_panics h inp out w ev k :
  reachable h inp out w -> fst (processNextMessage ev k w) = Err Panicked -> exists msg, received w MessageTypeRequest msg /\ panic_cause msg k w.
Proof.
  intros Hi%reachable_stage. destruct (processNextMessage ev k w) as [r w'] eqn:Ex. apply next_inv in Ex as (_ & _ & Hp); [|done]. intros Hr. by apply Hp.
Qed.

(** And it does panic on a message from which no request can be extracted, whoever sent it. *)
Lemma bad_message_panics w k m rest :
  versionNegotiated (state w) = true -> ReceiveMessage (s_in (state w)) = (Ok (MessageTypeRequest, MAuth m), rest) ->
  (forall req, ExtractRequest m <> Ok req) -> fst (processNextMessage EvRead k w) = Err Panicked.
Proof.
  intros Hv Hr Hx. unfold processNextMessage, read. unfold mbind at 1, M_bind at 1. rewrite Hr. cbn beta iota. unfold get. unfold mbind at 1, M_bind at 1. cbn [id].
  change (versionNegotiated (state (set_state (with_in rest) w))) with (versionNegotiated (state w)). rewrite Hv. cbn [negb andb].
  change (handleMessage MessageTypeRequest (MAuth m) k) with (handleRequest (MAuth m) k). unfold handleRequest. cbn [extractRequestFromMessage].
  destruct (ExtractRequest m) as [req|e]; [by destruct (Hx req)|done].
Qed.

End Handler.

(** ** At work *)

#[local] Existing Instances Toy.json Auth.Lenient_provider TcpFrontend.memory_manager GwLimit.InMemory_RL.
#[local] Instance sample_format : Validate.FormatG :=
  {| Validate.float64 := unit; Validate.Sprintf_g := fun _ => "0"%string; Validate.Sprintf_g_nonempty := fun _ => ltac:(done);
     Validate.Sprintf_g_length := fun _ => ltac:(done); Validate.Sprintf_g_ascii := fun _ => eq_refl |}.

Definition sample_claims : Auth.Claims := Auth.mkClaims "alice" "" [] (Some (60 * Second)) None None "" [] (GwLimit.mkRateLimitConfig 10 0).
Definition sample_handler : TCPHandler (P := Auth.Lenient) (R := EchoRouter) (SM := Sessions.MemoryManager) (L := GwLimit.InMemoryRateLimiter) :=
  mkHandler (Auth.mkLenient sample_claims) (mkEcho []) Sessions.CreateInMemorySessionStore GwLimit.CreateLocalMemoryRateLimiter None.
Definition sample_clock : clock := mkClock (fun _ => 0) (fun _ => 0) "s1" 0.
Definition no_text (e : ErrCatalog.entry) : string := "".
Definition no_instant (t : Z) : string := "".
Definition no_float (n : Z) : Validate.float64 := tt.

Definition frame (t : Z) (doc : jvalue) : list byte := frame_bytes {| Version := CurrentVersion; MessageType := t; Payload := Toy.print doc |}.
Definition negotiation : list byte := frame MessageTypeVersionNegotiation (Toy.negotiation_doc (mkNegotiation 1 1 1 [1])).
Definition initialize : Request := mkRequest "2.0" "initialize" (JObject [("token"%string, JString "tok")]) (JString "i1").
Definition sample_call : Request := mkRequest "2.0" "tools/call" (JObject [("namespace"%string, JString "k8s")]) (JString "r1").
Definition sample_stream : list byte := negotiation ++ frame MessageTypeRequest (request_doc initialize) ++ frame MessageTypeRequest (request_doc sample_call).
(** An authenticated message whose message is no request. *)
Definition bad_stream : list byte := negotiation ++ frame MessageTypeRequest (JObject [("message"%string, JString "hi")]).

#[local] Notation sample_world := (World (W := list byte) (P := Auth.Lenient) (R := EchoRouter) (SM := Sessions.MemoryManager) (L := GwLimit.InMemoryRateLimiter)).
Definition on_event (ev : event) : M sample_world handler_error unit := processNextMessage (E := unit) no_text no_instant no_float ev sample_clock.
Definition next : M sample_world handler_error unit := on_event EvRead.
Definition initial (inp : list byte) : sample_world := mkWorld sample_handler (fresh_state inp []).
Definition initialized : sample_world := snd (next (snd (next (initial sample_stream)))).
Definition negotiated_bad : sample_world := snd (next (initial bad_stream)).

(** The version is acknowledged, the session is made, the call waits for its goroutine and is answered by the router in its namespace. *)
Example conversation :
  let w := snd (next initialized) in
  (authenticated (state initialized), map Method (wg (state w)), seen (router (handler (snd (processRequestAsync 0 w))))) = (true, ["tools/call"], [(None, "k8s")])%string.
Proof. vm_compute. reflexivity. Qed.

(** A client that is not authenticated stops the gateway with one message. *)
Example stranger_stops_gateway : (authenticated (state negotiated_bad), fst (next negotiated_bad)) = (false, Err Panicked).
Proof. vm_compute. reflexivity. Qed.

(** A deadline that passes inside a message loses its first bytes: what follows is no frame any more. *)
Example timeout_loses_frame :
  let w := snd (on_event (EvTimeout 3) (initial sample_stream)) in
  match fst (next w) with Err (ReceiveFailed _) => true | _ => false end = true.
Proof. vm_compute. reflexivity. Qed.

Lemma initialized_reachable : reachable (E := unit) no_text no_instant no_float sample_handler sample_stream [] initialized.
Proof. eapply rtc_l; [apply (step_message no_text no_instant no_float EvRead sample_clock)|]. apply rtc_once, (step_message no_text no_instant no_float EvRead sample_clock). Qed.

Lemma tcp_handler_gate_witness :
  wg (state (snd (next initialized))) = [sample_call] /\
  exists msg req, received initialized MessageTypeRequest msg /\ wg (state (snd (next initialized))) = wg (state initialized) ++ [req] /\
    admission (E := unit) no_float msg req sample_clock initialized.
Proof.
  assert (wg (state (snd (next initialized))) = [sample_call]) as Hw by (vm_compute; reflexivity). split; [exact Hw|].
  destruct (tcp_handler_gate no_text no_instant no_float sample_handler sample_stream [] initialized EvRead sample_clock initialized_reachable) as [Hx|Hx]; [|exact Hx].
  exfalso. revert Hx. change (wg (state (snd (next initialized))) = wg (state initialized) -> False). rewrite Hw. vm_compute. discriminate.
Defined.

Lemma tcp_handler_panics_witness : exists msg, received negotiated_bad MessageTypeRequest msg /\ panic_cause no_text msg sample_clock negotiated_bad.
Proof.
  apply (tcp_handler_panics (E := unit) no_text no_instant no_float sample_handler bad_stream [] negotiated_bad EvRead sample_clock).
  - apply rtc_once, (step_message no_text no_instant no_float EvRead sample_clock).
  - vm_compute. reflexivity.
Defined.

End TcpHandler.
