(* ===== verification/Backends.v ===== *)
(** * Backends of the gateway

    What the stdio, WebSocket and SSE backends of [services/gateway/internal/backends/] share: their metrics, the
    correlation of requests and responses, and the state of a backend (whether it runs, under a mutex that Start and Stop
    hold; the channels of pending requests; the channels of the shutdown; the connections, which differ) with the atomic
    commands of its goroutines.  The backends are the programs of [BackendStdio], [BackendWs] and [BackendSse]. *)
From S2P Require Import Prelude GoStrings GoUnicode Mcp Goroutines DirectClient.
From stdpp Require Import pretty.
#[local] Open Scope Z_scope.

Module Backend.

(** ** Metrics *)

Record BackendMetrics := mkMetrics {
  RequestCount : Z; ErrorCount : Z; AverageLatency : Z; LastHealthCheck : Z; IsHealthy : bool; ConnectionTime : Z }.
Definition no_metrics : BackendMetrics := mkMetrics 0 0 0 time_zero false time_zero.

Definition count_error (m : BackendMetrics) : BackendMetrics :=
  mkMetrics (RequestCount m) (u64_add (ErrorCount m) 1) (AverageLatency m) (LastHealthCheck m) (IsHealthy m) (ConnectionTime m).
Definition set_healthy (b : bool) (m : BackendMetrics) : BackendMetrics :=
  mkMetrics (RequestCount m) (ErrorCount m) (AverageLatency m) (LastHealthCheck m) b (ConnectionTime m).
Definition checked (b : bool) (now : Z) (m : BackendMetrics) : BackendMetrics :=
  mkMetrics (RequestCount m) (ErrorCount m) (AverageLatency m) now b (ConnectionTime m).
Definition connected_at (now : Z) (m : BackendMetrics) : BackendMetrics :=
  mkMetrics (RequestCount m) (ErrorCount m) (AverageLatency m) (LastHealthCheck m) true now.

(** The moving average of the latencies: the first one, then half of the sum, in int64. *)
Definition count_success (d : Z) (m : BackendMetrics) : BackendMetrics :=
  let n := u64_add (RequestCount m) 1 in
  mkMetrics n (ErrorCount m) (if n =? 1 then d else Z.quot (i64_add (AverageLatency m) d) 2) (LastHealthCheck m) (IsHealthy m) (ConnectionTime m).

(** ** Errors

    An error of another package, or one of the gateway: a backend that is not available, a timeout, another with its
    message, a wrapped one. *)
Inductive error :=
| External (text : string)
| CreateBackendUnavailableError (reason : string)
| CreateConnectionTimeoutError (timeout : Z)
| New (message : string)
| Wrap (message : string) (cause : error).
#[export] Instance error_eq_dec : EqDecision error.
Proof. solve_decision. Defined.

(** A setting that was left out. *)
Definition or_default (d v : Z) : Z := if v =? 0 then d else v.

Record HealthCheckConfig := mkHealthCheck { Enabled : bool; Interval : Z; hc_Timeout : Z }.
Definition health_defaults (h : HealthCheckConfig) : HealthCheckConfig :=
  mkHealthCheck (Enabled h) (or_default (30 * Second) (Interval h)) (or_default (5 * Second) (hc_Timeout h)).

(** ** State *)

Record chan := mkChan { c_id : string; c_buf : list Response; c_open : bool }.

(** What reached the backend: what the process or the server sent, what was asked and answered, and how often the backend
    was started. *)
Record Log := mkLog { heard : list string; answers : list (Request * result error (option Response)); starts : Z }.
Definition hear (d : string) (l : Log) : Log := mkLog (heard l ++ [d]) (answers l) (starts l).
Definition answered (q : Request) (r : result error (option Response)) (l : Log) : Log := mkLog (heard l) (answers l ++ [(q, r)]) (starts l).
Definition started (l : Log) : Log := mkLog (heard l) (answers l) (starts l + 1).

Section Backend.
(** The connections of the backend. *)
Context {Conns : Type}.

(** [locked]: Start or Stop holds the mutex; [wg]: the count of the wait group; [signals]: channels local to an operation
    that have been closed or sent to. *)
Record State := mkState {
  running : bool; locked : bool; requestMap : gmap string nat; chans : gmap nat chan; next_chan : nat; requestID : Z;
  metrics : BackendMetrics; shutdownCh : bool; doneCh : bool; wg : Z; signals : gset nat; next_signal : nat; conns : Conns; log : Log }.

Definition fresh_backend (c : Conns) : State := mkState false false ∅ ∅ 0 0 no_metrics false false 0 ∅ 0 c (mkLog [] [] 0).

Definition set_running (r l : bool) (g : Log) (s : State) : State :=
  mkState r l (requestMap s) (chans s) (next_chan s) (requestID s) (metrics s) (shutdownCh s) (doneCh s) (wg s) (signals s) (next_signal s) (conns s) g.
Definition set_chans (m : gmap string nat) (c : gmap nat chan) (n : nat) (s : State) : State :=
  mkState (running s) (locked s) m c n (requestID s) (metrics s) (shutdownCh s) (doneCh s) (wg s) (signals s) (next_signal s) (conns s) (log s).
Definition set_counters (i : Z) (m : BackendMetrics) (s : State) : State :=
  mkState (running s) (locked s) (requestMap s) (chans s) (next_chan s) i m (shutdownCh s) (doneCh s) (wg s) (signals s) (next_signal s) (conns s) (log s).
Definition set_shutdown (sd dn : bool) (n : Z) (s : State) : State :=
  mkState (running s) (locked s) (requestMap s) (chans s) (next_chan s) (requestID s) (metrics s) sd dn n (signals s) (next_signal s) (conns s) (log s).
Definition set_signals (g : gset nat) (n : nat) (s : State) : State :=
  mkState (running s) (locked s) (requestMap s) (chans s) (next_chan s) (requestID s) (metrics s) (shutdownCh s) (doneCh s) (wg s) g n (conns s) (log s).
Definition set_conns (c : Conns) (s : State) : State :=
  mkState (running s) (locked s) (requestMap s) (chans s) (next_chan s) (requestID s) (metrics s) (shutdownCh s) (doneCh s) (wg s) (signals s) (next_signal s) c (log s).

(** ** Commands *)

Inductive call := CSend (q : Request) | CStart | CStop | CHealth.
Inductive wait_res := Got (r : Response) | GotNil | TimedOut | Cancelled (text : string).
(** What a read brings: a message (a JSON value, a frame, a line), the end of the stream, another error. *)
Inductive recv_res := RText (d : string) | REof | RError.
Inductive tick_res := Ticked | TickShutdown.
(** What an HTTP request meets: an error, or a response with its status, its content type and its body. *)
Inductive http_res := Failed (text : string) | Answered (status : Z) (contentType body : string).
Inductive await_res := Raised | AwaitTimeout | AwaitCancelled (text : string).

Inductive cmd : Type -> Type :=
| Call : cmd call
| Return (q : Request) (r : result error (option Response)) : cmd unit
| Now : cmd Z
| Remaining : cmd (option Z)
(* the mutex: a read of [running] under it; what Start and Stop do while they hold it *)
| IsRunning : cmd bool
| Lock : cmd unit
| Running : cmd bool
| SetRunning (b : bool) : cmd unit
| Unlock : cmd unit
| Metric (f : BackendMetrics -> BackendMetrics) : cmd unit
(* correlation of responses *)
| NextID : cmd Z
| Register (id : string) : cmd nat
| Cleanup (id : string) (ch : nat) : cmd unit
| Wait (ch : nat) : cmd wait_res
| Deliver (id : string) (r : Response) : cmd unit
(* the connections: a critical section on them, when [ready]; what it makes the caller's, what the caller gives back *)
| Section_ {A} (dec : EqDecision A) (ready : Conns -> bool) (f : Conns -> A * Conns) (gain : A -> option nat) (lose : option nat) : cmd A
| Write (c : option nat) (q : Request) : cmd (option string)
| Attempt : cmd (option string)
| Exchange (doc : string) : cmd http_res
| Receive : cmd recv_res
(* time, shutdown, the wait group *)
| NewTicker (d : Z) : cmd unit
| Tick : cmd tick_res
| Sleep (d : Z) : cmd unit
| ShutdownSeen : cmd bool
| CloseShutdown : cmd unit
| CloseDone : cmd unit
| AwaitDone : cmd bool
| WgAdd : cmd unit
| WgDone : cmd unit
| NewSignal : cmd nat
| WgWait : cmd unit
| Raise (n : nat) : cmd unit
| Await (n : nat) : cmd await_res
| Join (n : nat) : cmd unit.

Definition close_chan (k : chan) : chan := mkChan (c_id k) (c_buf k) false.
Definition is_open (ch : nat) (s : State) : bool := match chans s !! ch with Some k => c_open k | None => false end.

Definition exec (X : Type) (c : cmd X) : X -> State -> option State :=
  match c in cmd X return X -> State -> option State with
  | Call | Now | Remaining | Write _ _ | Attempt | Exchange _ | Sleep _ | NewTicker _ => fun _ s => Some s
  | Return q r => fun _ s => Some (set_running (running s) (locked s) (answered q r (log s)) s)
  | IsRunning => fun x s => when (negb (locked s) && Bool.eqb x (running s)) s
  | Lock => fun _ s => if locked s then None else Some (set_running (running s) true (log s) s)
  | Running => fun x s => when (Bool.eqb x (running s)) s
  | SetRunning b => fun _ s => Some (set_running b (locked s) (if b then started (log s) else log s) s)
  | Unlock => fun _ s => Some (set_running (running s) false (log s) s)
  | Metric f => fun _ s => Some (set_counters (requestID s) (f (metrics s)) s)
  | NextID => fun x s => let n := u64_add (requestID s) 1 in if x =? n then Some (set_counters n (metrics s) s) else None
  | Register id => fun x s =>
      if bool_decide (x = next_chan s)
      then Some (set_chans (<[id := x]> (requestMap s)) (<[x := mkChan id [] true]> (chans s)) (S x) s) else None
  | Cleanup id ch => fun _ s => Some (set_chans (delete id (requestMap s)) (alter close_chan ch (chans s)) (next_chan s) s)
  | Wait ch => fun x s =>
      match chans s !! ch with
      | None => None
      | Some k =>
          match x with
          | Got r =>
              match c_buf k with
              | r' :: rest =>
                  if bool_decide (r = r') then Some (set_chans (requestMap s) (<[ch := mkChan (c_id k) rest (c_open k)]> (chans s)) (next_chan s) s)
                  else None
              | [] => None
              end
          | GotNil => when (negb (c_open k) && bool_decide (c_buf k = [])) s
          | TimedOut | Cancelled _ => Some s
          end
      end
  | Deliver id r => fun _ s =>
      match requestMap s !! id with
      | None => Some s
      | Some ch =>
          match chans s !! ch with
          | None => None
          | Some k =>
              (* a channel of capacity one *)
              match c_buf k with
              | [] => Some (set_chans (requestMap s) (<[ch := mkChan (c_id k) [r] (c_open k)]> (chans s)) (next_chan s) s)
              | _ => Some s
              end
          end
      end
  | Section_ dec ready f _ _ => fun x s =>
      if ready (conns s) then if dec x (fst (f (conns s))) then Some (set_conns (snd (f (conns s))) s) else None else None
  | Receive => fun x s => match x with RText d => Some (set_running (running s) (locked s) (hear d (log s)) s) | _ => Some s end
  | Tick => fun x s => match x with TickShutdown => when (shutdownCh s) s | _ => Some s end
  | ShutdownSeen => fun x s => when (Bool.eqb x (shutdownCh s)) s
  | CloseShutdown => fun _ s => Some (set_shutdown true (doneCh s) (wg s) s)
  | CloseDone => fun _ s => Some (set_shutdown (shutdownCh s) true (wg s) s)
  | AwaitDone => fun x s => if x then when (doneCh s) s else Some s
  | WgAdd => fun _ s => Some (set_shutdown (shutdownCh s) (doneCh s) (wg s + 1) s)
  | WgDone => fun _ s => Some (set_shutdown (shutdownCh s) (doneCh s) (wg s - 1) s)
  | NewSignal => fun x s => if bool_decide (x = next_signal s) then Some (set_signals (signals s) (S x) s) else None
  | WgWait => fun _ s => when (wg s =? 0) s
  | Raise n => fun _ s => Some (set_signals ({[n]} ∪ signals s) (next_signal s) s)
  | Await n => fun x s => match x with Raised => when (bool_decide (n ∈ signals s)) s | _ => Some s end
  | Join n => fun _ s => when (bool_decide (n ∈ signals s)) s
  end.

(** Closing a closed channel, sending on one, taking the wait group below zero, and a ticker whose interval is not positive. *)
Definition panics (X : Type) (c : cmd X) (s : State) : bool :=
  match c with
  | Cleanup _ ch => negb (is_open ch s)
  | Deliver id _ => match requestMap s !! id with Some ch => negb (is_open ch s) | None => false end
  | CloseShutdown => shutdownCh s
  | CloseDone => doneCh s
  | WgDone => wg s <=? 0
  | NewTicker d => d <=? 0
  | _ => false
  end.

(** ** Executable runs

    What happens in a run: the call that comes, what a read brings, what a tick is, whether the environment fails. *)
Record script := mkScript { a_call : call; a_recv : recv_res; a_tick : tick_res; a_fail : bool }.

Definition failure (a : script) : option string := if a_fail a then Some "failed"%string else None.
Definition answer (a : script) (s : State) (X : Type) (c : cmd X) : X :=
  match c in cmd X return X with
  | Call => a_call a
  | Now => 0
  | Remaining => None
  | IsRunning | Running => running s
  | NextID => u64_add (requestID s) 1
  | Register _ => next_chan s
  | Wait ch =>
      match chans s !! ch with
      | Some (mkChan _ (r :: _) _) => Got r
      | Some (mkChan _ [] false) => GotNil
      | _ => if a_fail a then Cancelled "failed" else TimedOut
      end
  | Section_ _ _ f _ _ => fst (f (conns s))
  | Write _ _ | Attempt => failure a
  | Exchange _ => if a_fail a then Failed "failed" else Answered 200 "text/event-stream" ""
  | Receive => a_recv a
  | Tick => a_tick a
  | ShutdownSeen => shutdownCh s
  | AwaitDone => doneCh s
  | NewSignal => next_signal s
  | Await n => if a_fail a then AwaitCancelled "failed" else if bool_decide (n ∈ signals s) then Raised else AwaitTimeout
  | Return _ _ | Lock | SetRunning _ | Unlock | Metric _ | Cleanup _ _ | Deliver _ _ | Sleep _ | NewTicker _ | CloseShutdown | CloseDone
  | WgAdd | WgDone | WgWait | Raise _ | Join _ => tt
  end.

(** [n] steps of one goroutine. *)
Definition moves (n t : nat) (a : script) : list (nat * (State -> forall X, cmd X -> X)) := replicate n (t, answer a).
Definition on_call (c : call) : script := mkScript c RError Ticked false.
Definition on_read (r : recv_res) : script := mkScript CHealth r Ticked false.
Definition on_tick : script := mkScript CHealth RError Ticked false.
Definition on_failure : script := mkScript CHealth RError Ticked true.

(** ** What the backends do alike *)

Section Programs.
Context {label : Type}.
#[local] Notation P := (prog cmd label).

(** A critical section on the connections that changes no ownership; one that may wait for its turn. *)
Definition with_conns {A} `{dec : EqDecision A} (f : Conns -> A * Conns) : P A := perform (Section_ dec (fun _ => true) f (fun _ => None) None).
Definition with_conns_when {A} `{dec : EqDecision A} (ready : Conns -> bool) (f : Conns -> A * Conns) : P A :=
  perform (Section_ dec ready f (fun _ => None) None).

Definition checkRunning : P (option error) :=
  r ← perform IsRunning; mret (if r : bool then None else Some (CreateBackendUnavailableError "not running")).

Definition ensureRequestID `{Direct.Sprintf} (name : string) (q : Request) : P (Request * string) :=
  if Direct.no_id q then
    n ← perform NextID;
    let id := Direct.generated_id name n in mret (Direct.with_id (JString id) q, id)
  else mret (q, Direct.id_text (req_ID q)).

Definition calculateTimeout (timeout : Z) : P Z := r ← perform Remaining; mret (Direct.shorter timeout r).

Definition recordErrorMetric : P unit := perform (Metric count_error).
Definition recordSuccessMetrics (startTime : Z) : P unit := now ← perform Now; perform (Metric (count_success (time_sub now startTime))).

(** [waitForResponse], but for the counters of errors. *)
Definition await_response (timeout startTime : Z) (ch : nat) : P (result error (option Response)) :=
  t ← calculateTimeout timeout;
  x ← perform (Wait ch);
  match x with
  | Got r => _ ← recordSuccessMetrics startTime; mret (Ok (Some r))
  | GotNil => _ ← recordSuccessMetrics startTime; mret (Ok None)
  | TimedOut => _ ← recordErrorMetric; mret (Err (CreateConnectionTimeoutError t))
  | Cancelled text => _ ← recordErrorMetric; mret (Err (External text))
  end.

(** A response goes to the channel of its id, when that is a string. *)
Definition routeResponse (r : Response) : P unit :=
  match resp_ID r with JString id => perform (Deliver id r) | _ => mret tt end.

Definition ping_request (now : Z) : Request := mkRequest "" "ping" JNull (JString ("health-" +:+ pretty now)).

(** A loop that begins by making its ticker. *)
Definition ticking (interval : Z) (l : label) : P (next label) := _ ← perform (NewTicker interval); mret (Again l).

(** One round of [healthCheckLoop], whose ticker is made by [ticking]; the result of the check is logged. *)
Definition health_round (Health : P (option error)) (l : label) (leave : P (next label)) : P (next label) :=
  t ← perform Tick;
  match t with
  | TickShutdown => leave
  | Ticked => _ ← Health; mret (Again l)
  end.

End Programs.
End Backend.
Arguments State : clear implicits.
Arguments cmd : clear implicits.

End Backend.
