(* ===== verification/BackendTheorems.v ===== *)
(** * The discipline of backends

    What the goroutines of a backend own and know between two commands, the invariant of its state, and that every
    command keeps it: a response on a channel was sent under the id of the channel's request, channels of pending
    requests are open, a connection taken from the pool belongs to one goroutine, and the counts of the wait group and of
    the readers that will close the done channel are those of the goroutines. *)
From S2P Require Import Prelude GoStrings GoUnicode Mcp Goroutines DirectClient Backends.
#[local] Open Scope Z_scope.

Module BackendDiscipline.
Import Backend.

Section Discipline.
Context `{Direct.Sprintf} {Conns : Type}.
#[local] Notation State := (State Conns).
#[local] Notation cmd := (cmd Conns).

(** The response in what a backend reads. *)
Variable decode : string -> result string Response.

(** What holds of the connections between critical sections; the connections taken; whether a reader closes the done
    channel when it ends; the intervals of the tickers. *)
Variable conns_ok : Conns -> Prop.
Variable taken : Conns -> gset nat.
Variable dones : bool.
Variable ticks : Z -> Prop.

Definition carries (id : string) (r : Response) (d : string) : Prop := decode d = Ok r /\ resp_ID r = JString id.
Definition heard_from (l : Log) (id : string) (r : Response) : Prop := exists d, d ∈ heard l /\ carries id r d.

(** ** What a goroutine owns and knows

    The channel of its request, its shares of the wait group, its rights to close the done channel, whether it holds the
    mutex, the connections it has taken, messages it read, responses it got. *)
Record env := mkEnv {
  own : option (string * nat); owed : Z; closer : Z; mu : bool; tokens : gset nat; texts : list string; got : list (string * Response) }.

Definition nothing : env := mkEnv None 0 0 false ∅ [] [].
(** With shares and rights alone. *)
Definition holding (n c : Z) : env := mkEnv None n c false ∅ [] [].
Definition set_own o e := mkEnv o (owed e) (closer e) (mu e) (tokens e) (texts e) (got e).
Definition set_shares n c e := mkEnv (own e) n c (mu e) (tokens e) (texts e) (got e).
Definition set_mu b e := mkEnv (own e) (owed e) (closer e) b (tokens e) (texts e) (got e).
Definition set_tokens g e := mkEnv (own e) (owed e) (closer e) (mu e) g (texts e) (got e).
Definition add_text d e := mkEnv (own e) (owed e) (closer e) (mu e) (tokens e) (d :: texts e) (got e).
Definition add_got x e := mkEnv (own e) (owed e) (closer e) (mu e) (tokens e) (texts e) (x :: got e).

Definition only (o : option nat) : gset nat := match o with Some n => {[n]} | None => ∅ end.

(** A critical section keeps the connections as they must be, takes what was free, and gives up only what was its own. *)
Definition section_ok {A} (ready : Conns -> bool) (f : Conns -> A * Conns) (gain : A -> option nat) (lose : option nat) (e : env) : Prop :=
  only lose ⊆ tokens e /\
  forall x, conns_ok x -> ready x = true -> tokens e ⊆ taken x ->
    conns_ok (snd (f x)) /\ only (gain (fst (f x))) ## taken x ∖ only lose /\
    taken x ∖ only lose ⊆ taken (snd (f x)) /\ only (gain (fst (f x))) ⊆ taken (snd (f x)).

Definition pre (X : Type) (c : cmd X) (e : env) : Prop :=
  match c with
  | Return q (Ok (Some r)) => (Direct.id_text (req_ID q), r) ∈ got e
  | Return _ (Ok None) => False
  | Lock => mu e = false
  | Running | SetRunning _ | Unlock => mu e = true
  | Register _ => own e = None
  | Cleanup id ch => own e = Some (id, ch)
  | Wait ch => exists id, own e = Some (id, ch)
  | Deliver id r => exists d, d ∈ texts e /\ carries id r d
  | Section_ _ ready f gain lose => section_ok ready f gain lose e
  | Write (Some c) _ => c ∈ tokens e
  | NewTicker d => ticks d
  | CloseDone => 1 <= closer e
  | WgDone => 1 <= owed e
  | _ => True
  end.

Definition valid (X : Type) (c : cmd X) : X -> env -> Prop :=
  match c in Backend.cmd _ X return X -> env -> Prop with
  | Wait _ => fun x _ => x <> GotNil
  | Section_ _ ready f _ _ => fun a _ => exists x, conns_ok x /\ ready x = true /\ a = fst (f x)
  | _ => fun _ _ => True
  end.

Definition post (X : Type) (c : cmd X) : X -> env -> env :=
  match c in Backend.cmd _ X return X -> env -> env with
  | Lock => fun _ e => set_mu true e
  | Unlock => fun _ e => set_mu false e
  | SetRunning b => fun _ e => if b && dones then set_shares (owed e) (closer e + 1) e else e
  | Register id => fun x e => set_own (Some (id, x)) e
  | Cleanup _ _ => fun _ e => set_own None e
  | Wait _ => fun x e => match x, own e with Got r, Some (id, _) => add_got (id, r) e | _, _ => e end
  | Section_ _ _ _ gain lose => fun a e => set_tokens (tokens e ∖ only lose ∪ only (gain a)) e
  | Receive => fun x e => match x with RText d => add_text d e | _ => e end
  | CloseDone => fun _ e => set_shares (owed e) (closer e - 1) e
  | WgAdd => fun _ e => set_shares (owed e + 1) (closer e) e
  | WgDone => fun _ e => set_shares (owed e - 1) (closer e) e
  | _ => fun _ e => e
  end.

(** A started goroutine gets shares and rights, nothing else. *)
Definition split (e ec e1 : env) : Prop :=
  exists n c, 0 <= n <= owed e /\ 0 <= c <= closer e /\ ec = holding n c /\ e1 = set_shares (owed e - n) (closer e - c) e.
Definition exit_ok (e : env) : Prop := own e = None /\ owed e = 0 /\ closer e = 0 /\ mu e = false /\ tokens e = ∅.

(** Commands whose panics are not excluded. *)
Definition crash (X : Type) (c : cmd X) : bool := match c with CloseShutdown | CloseDone | NewTicker _ => true | _ => false end.

(** ** The invariant *)

Record global (s : State) : Prop := {
  g_pending id ch : requestMap s !! id = Some ch -> exists k, chans s !! ch = Some k /\ c_id k = id /\ c_open k = true;
  g_buf ch k r : chans s !! ch = Some k -> r ∈ c_buf k -> heard_from (log s) (c_id k) r;
  g_fresh ch : (next_chan s <= ch)%nat -> chans s !! ch = None;
  g_answers q r : (q, Ok (Some r)) ∈ answers (log s) -> heard_from (log s) (Direct.id_text (req_ID q)) r;
  g_nil q : (q, Ok None) ∉ answers (log s);
  g_conns : conns_ok (conns s);
}.

Record task_ok (s : State) (e : env) : Prop := {
  t_own id ch : own e = Some (id, ch) -> exists k, chans s !! ch = Some k /\ c_id k = id /\ c_open k = true;
  t_owed : 0 <= owed e;
  t_closer : 0 <= closer e;
  t_mu : mu e = true -> locked s = true;
  t_tokens : tokens e ⊆ taken (conns s);
  t_texts d : d ∈ texts e -> d ∈ heard (log s);
  t_got id r : (id, r) ∈ got e -> heard_from (log s) id r;
}.

Record compat (e f : env) : Prop := {
  c_own id id' ch : own e = Some (id, ch) -> own f = Some (id', ch) -> False;
  c_mu : mu e = true -> mu f = true -> False;
  c_tokens : tokens e ## tokens f;
}.

(** The rights to close the done channel that were given out: one for each start, if the backend has readers that do. *)
Definition allowed (l : Log) : Z := if dones then starts l else 0.
Definition closed_once (s : State) : Z := if doneCh s then 1 else 0.

Record Inv (s : State) (es : gmap nat env) : Prop := {
  i_global : global s;
  i_task t e : es !! t = Some e -> task_ok s e;
  i_compat t t' e f : es !! t = Some e -> es !! t' = Some f -> t <> t' -> compat e f;
  i_wg : wg s = total_of owed es;
  i_closers : total_of closer es + closed_once s = allowed (log s);
}.

Lemma b_compat_sym e f : compat e f -> compat f e.
Proof. intros [H1 H2 H3]. split; eauto. Qed.

Lemma b_step s es t e s' e' :
  Inv s es -> es !! t = Some e -> global s' -> task_ok s' e' ->
  (forall f, task_ok s f -> compat e f -> task_ok s' f) -> (forall f, task_ok s f -> compat e f -> compat e' f) ->
  wg s' = wg s - owed e + owed e' ->
  allowed (log s') - closed_once s' = allowed (log s) - closed_once s - closer e + closer e' -> Inv s' (<[t := e']> es).
Proof.
  intros Hi He Hg Ht Hf Hc Hn Hs. split; [done| | |by rewrite (total_of_update owed es t e e' He), Hn, (i_wg _ _ Hi)|].
  - intros u f [[<- <-]|[Hne Hu]]%lookup_insert_Some; [done|]. apply Hf; [by eapply i_task|by eapply (i_compat s es)].
  - intros u u' f f' [[<- <-]|[Hn1 Hu]]%lookup_insert_Some [[<- <-]|[Hn2 Hu']]%lookup_insert_Some Hne; try done.
    + apply Hc; [by eapply i_task|by eapply (i_compat s es)].
    + apply b_compat_sym, Hc; [by eapply i_task|by eapply (i_compat s es)].
    + by eapply (i_compat s es Hi u u').
  - rewrite (total_of_update closer es t e e' He). pose proof (i_closers _ _ Hi). lia.
Qed.

(** ** Changes that goroutines do not notice *)

Record grows (s s' : State) : Prop := {
  gr_chans ch k : chans s !! ch = Some k -> exists k', chans s' !! ch = Some k' /\ c_id k' = c_id k /\ c_open k' = c_open k;
  gr_locked : locked s = true -> locked s' = true;
  gr_conns : conns s' = conns s;
  gr_heard d : d ∈ heard (log s) -> d ∈ heard (log s');
}.

Lemma b_heard_grows s s' id r : grows s s' -> heard_from (log s) id r -> heard_from (log s') id r.
Proof. intros Hg (d & Hd & Hc). exists d. split; [by apply Hg|done]. Qed.

Lemma b_task_grows s s' e : grows s s' -> task_ok s e -> task_ok s' e.
Proof.
  intros Hg Ht. split; try apply Ht.
  - intros id ch Ho. destruct (t_own _ _ Ht id ch Ho) as (k & Hk & Hid & Hop). destruct (gr_chans _ _ Hg ch k Hk) as (k' & Hk' & Hid' & Hop').
    exists k'. by rewrite Hid', Hop'.
  - intros Hm. by apply Hg, Ht.
  - rewrite (gr_conns _ _ Hg). apply Ht.
  - intros d Hd. by apply Hg, Ht.
  - intros id r Hr. apply (b_heard_grows s); [done|]. by apply Ht.
Qed.

Definition same_holdings (e e' : env) : Prop := own e' = own e /\ mu e' = mu e /\ tokens e' = tokens e.

Lemma b_grows s es t e s' e' :
  Inv s es -> es !! t = Some e -> grows s s' -> global s' -> task_ok s' e' -> same_holdings e e' -> wg s' = wg s - owed e + owed e' ->
  allowed (log s') - closed_once s' = allowed (log s) - closed_once s - closer e + closer e' -> Inv s' (<[t := e']> es).
Proof.
  intros Hi He Hgr Hg Ht (H1 & H2 & H3) Hn Hs. apply (b_step s es t e); try done.
  - intros f Hf _. by apply (b_task_grows s).
  - intros f _ [C1 C2 C3]. split; rewrite ?H1, ?H2, ?H3; done.
Qed.

Lemma b_grows_refl s : grows s s.
Proof. split; try done. intros ch k Hk. by exists k. Qed.

(** The state of the correlation is the same. *)
Definition same_core (s s' : State) : Prop :=
  requestMap s' = requestMap s /\ chans s' = chans s /\ next_chan s' = next_chan s /\ heard (log s') = heard (log s) /\
  answers (log s') = answers (log s) /\ conns s' = conns s.

Lemma b_global_same s s' : global s -> same_core s s' -> global s'.
Proof. intros Hg (Hm & Hc & Hn & Hh & Ha & Hx). split; unfold heard_from; rewrite ?Hm, ?Hc, ?Hn, ?Hh, ?Ha, ?Hx; apply Hg. Qed.

(** A command that touches neither the correlation nor the connections. *)
Lemma b_core s es t e s' e' :
  Inv s es -> es !! t = Some e -> same_core s s' -> (locked s = true -> locked s' = true) -> task_ok s e' -> same_holdings e e' ->
  wg s' = wg s - owed e + owed e' ->
  allowed (log s') - closed_once s' = allowed (log s) - closed_once s - closer e + closer e' -> Inv s' (<[t := e']> es).
Proof.
  intros Hi He Hs Hl Ht Hh Hn Hc. assert (grows s s') as Hgr.
  { destruct Hs as (_ & Hch & _ & Hhd & _ & Hx). split; rewrite ?Hch, ?Hhd; try done. intros ch k Hk. by exists k. }
  apply (b_grows s es t e); try done; [|by apply (b_task_grows s)]. apply (b_global_same s); [apply Hi|done].
Qed.

Lemma b_same s es t e : Inv s es -> es !! t = Some e -> Inv s (<[t := e]> es).
Proof. intros Hi He. apply (b_core s es t e); try done; [by eapply i_task|lia|lia]. Qed.

(** ** The commands *)

Lemma b_Return s es t e q r :
  Inv s es -> es !! t = Some e -> pre _ (Return q r) e -> Inv (set_running (running s) (locked s) (answered q r (log s)) s) (<[t := e]> es).
Proof.
  intros Hi He Hp. match goal with |- Inv ?s' _ => assert (grows s s') as Hgr by (split; try done; intros ch k Hk; by exists k) end.
  pose proof (i_task _ _ Hi t e He) as Ht. destruct (i_global _ _ Hi).
  apply (b_grows s es t e); try done; [|by apply (b_task_grows s)|cbn; lia|unfold allowed, closed_once; cbn; lia]. split; cbn; try done.
  - intros q' r' [Ha|[= -> <-]%list_elem_of_singleton]%elem_of_app; [by apply g_answers0|]. by apply Ht.
  - intros q' [Ha|[= -> <-]%list_elem_of_singleton]%elem_of_app; [by eapply g_nil0|done].
Qed.

Lemma b_lock s es t e : Inv s es -> es !! t = Some e -> locked s = false -> Inv (set_running (running s) true (log s) s) (<[t := set_mu true e]> es).
Proof.
  intros Hi He Hl. pose proof (i_task _ _ Hi t e He) as Ht.
  match goal with |- Inv ?s' _ => assert (grows s s') as Hgr by (split; try done; intros ch k Hk; by exists k) end.
  apply (b_step s es t e); try done; [by apply (b_global_same s); [apply Hi|]| | | |cbn; lia|unfold allowed, closed_once; cbn; lia].
  - destruct (b_task_grows _ _ _ Hgr Ht). by split.
  - intros f Hf _. by apply (b_task_grows s).
  - intros f Hf [C1 C2 C3]. split; [done| |done]. cbn. intros _ Hm. pose proof (t_mu _ _ Hf Hm). congruence.
Qed.

Lemma b_unlock s es t e : Inv s es -> es !! t = Some e -> mu e = true -> Inv (set_running (running s) false (log s) s) (<[t := set_mu false e]> es).
Proof.
  intros Hi He Hl. pose proof (i_task _ _ Hi t e He) as Ht.
  apply (b_step s es t e); try done; [by apply (b_global_same s); [apply Hi|]| | | |cbn; lia|unfold allowed, closed_once; cbn; lia].
  - destruct Ht. by split.
  - intros f Hf [_ C2 _]. destruct (mu f) eqn:Em; [by destruct C2|]. destruct Hf. split; try done. cbn. congruence.
  - intros f Hf [C1 C2 C3]. by split.
Qed.

Lemma b_Register s es t e id :
  Inv s es -> es !! t = Some e -> own e = None ->
  Inv (set_chans (<[id := next_chan s]> (requestMap s)) (<[next_chan s := mkChan id [] true]> (chans s)) (S (next_chan s)) s)
    (<[t := set_own (Some (id, next_chan s)) e]> es).
Proof.
  intros Hi He Ho. pose proof (i_task _ _ Hi t e He) as Ht. pose proof (i_global _ _ Hi) as Hg.
  pose proof (g_fresh _ Hg (next_chan s) (le_n _)) as Hn.
  match goal with |- Inv ?s' _ => assert (grows s s') as Hgr end.
  { split; try done. cbn. intros ch k Hk. exists k. by rewrite lookup_insert_ne by congruence. }
  apply (b_step s es t e); try done; [| | | |cbn; lia|unfold allowed, closed_once; cbn; lia].
  - split; cbn; try apply Hg.
    + intros id' ch [[<- <-]|[Hne Hk]]%lookup_insert_Some; [rewrite lookup_insert_eq; by eexists|].
      destruct (g_pending _ Hg _ _ Hk) as (k & Hc & Hk'). exists k. rewrite lookup_insert_ne by congruence. done.
    + intros ch k r [[<- <-]|[Hne Hk]]%lookup_insert_Some Hr; [by apply not_elem_of_nil in Hr|]. by eapply g_buf.
    + intros ch Hch. rewrite lookup_insert_ne by lia. apply Hg. lia.
  - destruct (b_task_grows _ _ _ Hgr Ht). split; try done. cbn. intros id' ch [= <- <-]. rewrite lookup_insert_eq. by eexists.
  - intros f Hf _. by apply (b_task_grows s).
  - intros f Hf [C1 C2 C3]. split; [|done|done]. cbn. intros id1 id2 ch [= <- <-] Hof. destruct (t_own _ _ Hf _ _ Hof) as (k & Hk & _). congruence.
Qed.

Lemma b_Cleanup s es t e id ch :
  Inv s es -> es !! t = Some e -> own e = Some (id, ch) ->
  Inv (set_chans (delete id (requestMap s)) (alter close_chan ch (chans s)) (next_chan s) s) (<[t := set_own None e]> es).
Proof.
  intros Hi He Ho. pose proof (i_task _ _ Hi t e He) as Ht. pose proof (i_global _ _ Hi) as Hg.
  destruct (t_own _ _ Ht id ch Ho) as (k0 & Hk0 & Hid0 & _).
  assert (forall f, task_ok s f -> (forall id', own f <> Some (id', ch)) ->
    task_ok (set_chans (delete id (requestMap s)) (alter close_chan ch (chans s)) (next_chan s) s) f) as Hrest.
  { intros f Hf Hne. destruct Hf. split; try done. cbn. intros id' ch' Ho'. rewrite lookup_alter_ne by (intros ->; by eapply Hne). by apply t_own0. }
  apply (b_step s es t e); try done; [| | | |cbn; lia|unfold allowed, closed_once; cbn; lia].
  - split; cbn; try apply Hg.
    + intros id' ch' [Hne Hk]%lookup_delete_Some. destruct (g_pending _ Hg _ _ Hk) as (k & Hc & Hid & Hop). exists k.
      rewrite lookup_alter_ne by congruence. done.
    + intros ch' k r. destruct (decide (ch' = ch)) as [->|Hne]; [rewrite lookup_alter_eq, Hk0|rewrite lookup_alter_ne by done].
      * intros [= <-] Hr. by eapply (g_buf _ Hg ch k0).
      * intros Hk Hr. by eapply g_buf.
    + intros ch' Hch. rewrite lookup_alter_None. by apply Hg.
  - apply Hrest; [|done]. destruct Ht. by split.
  - intros f Hf [C1 C2 C3]. apply Hrest; [done|]. intros id' Ho'. by eapply C1.
  - intros f Hf [C1 C2 C3]. by split.
Qed.

(** The buffer of a channel changes. *)
Lemma b_buffer s es t e e' ch k b :
  Inv s es -> es !! t = Some e -> chans s !! ch = Some k -> (forall r, r ∈ b -> heard_from (log s) (c_id k) r) ->
  task_ok s e' -> same_holdings e e' -> owed e' = owed e -> closer e' = closer e ->
  Inv (set_chans (requestMap s) (<[ch := mkChan (c_id k) b (c_open k)]> (chans s)) (next_chan s) s) (<[t := e']> es).
Proof.
  intros Hi He Hk Hb Ht Hh Ho Hcl. pose proof (i_global _ _ Hi) as Hg.
  match goal with |- Inv ?s' _ => assert (grows s s') as Hgr end.
  { split; try done. cbn. intros ch' k' Hk'. destruct (decide (ch' = ch)) as [->|Hne].
    - rewrite lookup_insert_eq. eexists. by replace k' with k by congruence.
    - rewrite lookup_insert_ne by done. by exists k'. }
  apply (b_grows s es t e); try done; [|by apply (b_task_grows s)|cbn; lia|unfold allowed, closed_once; cbn; lia]. split; cbn; try apply Hg.
  - intros id ch' Hm. destruct (g_pending _ Hg _ _ Hm) as (k' & Hk' & Hid & Hop). destruct (decide (ch' = ch)) as [->|Hne].
    + rewrite lookup_insert_eq. eexists. replace k' with k in * by congruence. by split_and!.
    + rewrite lookup_insert_ne by done. by exists k'.
  - intros ch' k' r [[<- <-]|[Hne Hk']]%lookup_insert_Some Hr; [by apply Hb|]. by eapply g_buf.
  - intros ch' Hch. rewrite lookup_insert_ne; [by apply Hg|]. intros <-. rewrite (g_fresh _ Hg) in Hk by done. done.
Qed.

Lemma b_Deliver s es t e id r s' :
  Inv s es -> es !! t = Some e -> (exists d, d ∈ texts e /\ carries id r d) -> exec _ (Deliver id r) tt s = Some s' -> Inv s' (<[t := e]> es).
Proof.
  intros Hi He (d & Hd & Hc). pose proof (i_task _ _ Hi t e He) as Ht. pose proof (i_global _ _ Hi) as Hg. cbn [exec].
  destruct (requestMap s !! id) as [ch|] eqn:Em; [|intros [= <-]; by apply b_same].
  destruct (g_pending _ Hg _ _ Em) as (k & Hk & Hid & _). rewrite Hk.
  destruct (c_buf k); intros [= <-]; [|by apply b_same].
  apply (b_buffer s es t e); try done. intros r' ->%list_elem_of_singleton. exists d. rewrite Hid. split; [by apply Ht|done].
Qed.

Lemma b_Wait s es t e ch x s' :
  Inv s es -> es !! t = Some e -> pre _ (Wait ch) e -> exec _ (Wait ch) x s = Some s' ->
  valid _ (Wait ch) x e /\ Inv s' (<[t := post _ (Wait ch) x e]> es).
Proof.
  intros Hi He [id Ho]. pose proof (i_task _ _ Hi t e He) as Ht. pose proof (i_global _ _ Hi) as Hg. cbn.
  destruct (t_own _ _ Ht id ch Ho) as (k & Hk & Hid & Hop). rewrite Hk, Ho. destruct x as [r| | |err].
  - destruct (c_buf k) as [|r' rest] eqn:Eb; [done|]. case_bool_decide; [|done]. intros [= <-]. subst r'. split; [done|].
    assert (forall r', r' ∈ r :: rest -> heard_from (log s) (c_id k) r') as Hb by (rewrite <- Eb; intros; by eapply g_buf).
    apply (b_buffer s es t e); try done; [intros r' Hr'; apply Hb; by right|].
    destruct Ht. split; try done. cbn. intros id' r' [[= -> ->]|Hr]%elem_of_cons; [|by apply t_got0]. rewrite <- Hid. apply Hb. left.
  - rewrite Hop. done.
  - intros [= <-]. split; [done|by apply b_same].
  - intros [= <-]. split; [done|by apply b_same].
Qed.

Lemma b_Receive s es t e d :
  Inv s es -> es !! t = Some e -> Inv (set_running (running s) (locked s) (hear d (log s)) s) (<[t := add_text d e]> es).
Proof.
  intros Hi He. pose proof (i_task _ _ Hi t e He) as Ht. pose proof (i_global _ _ Hi) as Hg.
  match goal with |- Inv ?s' _ => assert (grows s s') as Hgr end.
  { split; try done; [intros ch k Hk; by exists k|]. cbn. intros d' Hd. apply elem_of_app. by left. }
  apply (b_grows s es t e); try done; [| |cbn; lia|unfold allowed, closed_once; cbn; lia].
  - split; cbn; try apply Hg.
    + intros ch k r Hk Hr. apply (b_heard_grows _ _ _ _ Hgr). by eapply g_buf.
    + intros q r Ha. apply (b_heard_grows _ _ _ _ Hgr). by apply Hg.
  - destruct (b_task_grows _ _ _ Hgr Ht). split; try done. cbn. intros d' [ ->|Hd]%elem_of_cons; [apply elem_of_app; right; left|].
    apply elem_of_app. left. by apply Ht.
Qed.

Lemma b_Section s es t e {A} (dec : EqDecision A) ready f gain lose (a : A) :
  Inv s es -> es !! t = Some e -> section_ok ready f gain lose e -> ready (conns s) = true -> a = fst (f (conns s)) ->
  Inv (set_conns (snd (f (conns s))) s) (<[t := set_tokens (tokens e ∖ only lose ∪ only (gain a)) e]> es).
Proof.
  intros Hi He [Hl Hf] Hr ->. pose proof (i_task _ _ Hi t e He) as Ht. pose proof (i_global _ _ Hi) as Hg.
  destruct (Hf _ (g_conns _ Hg) Hr (t_tokens _ _ Ht)) as (F1 & F2 & F3 & F4). pose proof (t_tokens _ _ Ht) as Hte.
  apply (b_step s es t e); try done; [| | | |cbn; lia|unfold allowed, closed_once; cbn; lia].
  - destruct Hg. by split.
  - destruct Ht. split; try done. cbn. set_solver.
  - intros g Hg' [_ _ C3]. pose proof (t_tokens _ _ Hg') as Htg. destruct Hg'. split; try done. cbn. set_solver.
  - intros g Hg' [C1 C2 C3]. pose proof (t_tokens _ _ Hg') as Htg. split; [done|done|]. cbn. set_solver.
Qed.

(** One step of a goroutine keeps the invariant. *)
Lemma backend_exec_rule s es t e X (c : cmd X) x s' :
  Inv s es -> es !! t = Some e -> pre X c e -> panics X c s = false -> exec X c x s = Some s' ->
  valid X c x e /\ Inv s' (<[t := post X c x e]> es).
Proof.
  intros Hi He Hp Hnp Hx. pose proof (i_task _ _ Hi t e He) as Ht. pose proof (t_owed _ _ Ht) as Ho. pose proof (t_closer _ _ Ht) as Hcl.
  destruct c; try (by eapply b_Wait);
    try (split; [done|]; cbn [post];
         solve [cbn [exec] in *; first [injection Hx as <-|apply when_Some in Hx as [_ ->]]; by eapply b_same
               |cbn [exec] in *; injection Hx as <-; apply (b_core s es t e); try done; cbn; unfold allowed, closed_once; cbn; lia]).
  - (* Return *) split; [done|]. injection Hx as <-. by apply b_Return.
  - (* Lock *) split; [done|]. cbn in Hx. destruct (locked s) eqn:El; [done|]. injection Hx as <-. by apply b_lock.
  - (* SetRunning *) split; [done|]. injection Hx as <-. cbn [post]. destruct b; cbn [andb]; [|by apply (b_core s es t e); try done; cbn; unfold allowed, closed_once; cbn; lia].
    destruct dones eqn:Ed; (apply (b_core s es t e); try done); unfold allowed, closed_once; cbn; rewrite ?Ed; try lia. destruct Ht. split; try done. cbn. lia.
  - (* Unlock *) split; [done|]. injection Hx as <-. by apply b_unlock.
  - (* NextID *) split; [done|]. cbn in Hx. destruct (_ =? _); [|done]. injection Hx as <-. apply (b_core s es t e); try done; unfold allowed, closed_once; cbn; lia.
  - (* Register *) split; [done|]. cbn in Hx. case_bool_decide; [|done]. injection Hx as <-. subst x. by apply b_Register.
  - (* Cleanup *) split; [done|]. injection Hx as <-. by apply b_Cleanup.
  - (* Deliver *) split; [done|]. destruct x. by eapply b_Deliver.
  - (* Section_ *) cbn in Hx. destruct (ready (conns s)) eqn:Er; [|done]. destruct (dec x _) as [->|]; [|done]. injection Hx as <-.
    split; [exists (conns s); split_and!; [apply Hi|done|done]|]. by eapply b_Section.
  - (* Receive *) split; [done|]. cbn in Hx. destruct x; injection Hx as <-; try (by apply b_same). by apply b_Receive.
  - (* Tick *) split; [done|]. cbn in Hx. destruct x; [injection Hx as <-|apply when_Some in Hx as [_ ->]]; by apply b_same.
  - (* CloseDone *) split; [done|]. injection Hx as <-. cbn in Hp, Hnp. apply (b_core s es t e); try done; [|cbn; lia|unfold allowed, closed_once; cbn; rewrite Hnp; lia].
    destruct Ht. split; try done. cbn. lia.
  - (* AwaitDone *) split; [done|]. cbn in Hx. destruct x; [apply when_Some in Hx as [_ ->]|injection Hx as <-]; by apply b_same.
  - (* WgAdd *) split; [done|]. injection Hx as <-. apply (b_core s es t e); try done; [|cbn; lia|unfold allowed, closed_once; cbn; lia]. destruct Ht. split; try done. cbn. lia.
  - (* WgDone *) split; [done|]. injection Hx as <-. cbn in Hp. apply (b_core s es t e); try done; [|cbn; lia|unfold allowed, closed_once; cbn; lia]. destruct Ht. split; try done. cbn. lia.
  - (* NewSignal *) split; [done|]. cbn in Hx. case_bool_decide; [|done]. injection Hx as <-. apply (b_core s es t e); try done; unfold allowed, closed_once; cbn; lia.
  - (* Await *) split; [done|]. cbn in Hx. destruct x; [apply when_Some in Hx as [_ ->]|injection Hx as <-|injection Hx as <-]; by apply b_same.
Qed.

(** A panic happens only where the discipline leaves it open. *)
Lemma backend_no_panic s es t e X (c : cmd X) : Inv s es -> es !! t = Some e -> pre X c e -> panics X c s = true -> crash X c = true.
Proof.
  intros Hi He Hp. pose proof (i_task _ _ Hi t e He) as Ht. pose proof (i_global _ _ Hi) as Hg. destruct c; try done; cbn.
  - intros Ho. unfold is_open in Ho. destruct (t_own _ _ Ht _ _ Hp) as (k & Hk & _ & Hc). by rewrite Hk, Hc in Ho.
  - destruct (requestMap s !! id) as [ch|] eqn:Em; [|done]. destruct (g_pending _ Hg _ _ Em) as (k & Hk & _ & Hop). unfold is_open. by rewrite Hk, Hop.
  - cbn in Hp. rewrite (i_wg _ _ Hi), (total_of_delete owed es t e He). intros Hw.
    assert (0 <= total_of owed (delete t es)); [|lia]. apply total_of_nonneg. intros u f [_ Hu]%lookup_delete_Some. by apply (t_owed s), (i_task _ _ Hi u).
Qed.

Lemma b_exit s es t e : Inv s es -> es !! t = Some e -> exit_ok e -> Inv s (delete t es).
Proof.
  intros Hi He (_ & Ho & Hc & _). split; [apply Hi|..].
  - intros u f [_ Hu]%lookup_delete_Some. by eapply i_task.
  - intros u u' f f' [_ Hu]%lookup_delete_Some [_ Hu']%lookup_delete_Some. by eapply i_compat.
  - rewrite (i_wg _ _ Hi), (total_of_delete owed es t e He), Ho. lia.
  - pose proof (i_closers _ _ Hi) as Hs. rewrite (total_of_delete closer es t e He), Hc in Hs. lia.
Qed.

(** A goroutine goes on with its shares and rights alone. *)
Definition rests (n c : Z) (e e2 : env) : Prop :=
  own e = None /\ mu e = false /\ tokens e = ∅ /\ owed e = n /\ closer e = c /\ e2 = holding n c.

Lemma b_holding s n c : 0 <= n -> 0 <= c -> task_ok s (holding n c).
Proof. intros Hn Hc. split; cbn; try done; [set_solver|..]; intros; exfalso; by eapply not_elem_of_nil. Qed.

Lemma b_holding_compat n c f : compat (holding n c) f.
Proof. split; cbn; try done; set_solver. Qed.

Lemma b_again s es t e n c e2 : Inv s es -> es !! t = Some e -> rests n c e e2 -> Inv s (<[t := e2]> es).
Proof.
  intros Hi He (Ho & Hm & Hk & Hn & Hc & ->). pose proof (i_task _ _ Hi t e He) as Ht. pose proof (t_owed _ _ Ht). pose proof (t_closer _ _ Ht).
  apply (b_step s es t e); try done; first [apply Hi|apply b_holding; lia|intros; apply b_holding_compat|cbn; lia].
Qed.

Lemma b_start s es t e t' ec e1 :
  Inv s es -> es !! t = Some e -> es !! t' = None -> split e ec e1 -> Inv s (<[t' := ec]> (<[t := e1]> es)).
Proof.
  intros Hi He Hn (n & c & Hle & Hlc & -> & ->). pose proof (i_task _ _ Hi t e He) as Ht.
  assert (task_ok s (set_shares (owed e - n) (closer e - c) e)) as Ht1 by (destruct Ht; split; try done; cbn; lia).
  assert (t' <> t) as Hne by congruence. split; [apply Hi|..].
  - intros u f [[<- <-]|[_ [[<- <-]|[_ Hu]]%lookup_insert_Some]]%lookup_insert_Some; [apply b_holding; lia|done|by eapply i_task].
  - assert (forall u f, es !! u = Some f -> t <> u -> compat (set_shares (owed e - n) (closer e - c) e) f) as Hc1.
    { intros u f Hu Hu'. destruct (i_compat _ _ Hi t u e f He Hu Hu'). by split. }
    intros u u' f f' [[<- <-]|[H1 [[<- <-]|[H3 Hu]]%lookup_insert_Some]]%lookup_insert_Some
      [[<- <-]|[H2 [[<- <-]|[H4 Hu']]%lookup_insert_Some]]%lookup_insert_Some Hd; try done;
      try (by apply b_holding_compat); try (by apply b_compat_sym, b_holding_compat).
    + by eapply Hc1.
    + apply b_compat_sym. by eapply Hc1.
    + by eapply (i_compat _ _ Hi u u').
  - rewrite total_of_insert by (rewrite lookup_insert_ne; done). rewrite (total_of_update owed es t e _ He), (i_wg _ _ Hi). cbn. lia.
  - pose proof (i_closers _ _ Hi). rewrite total_of_insert by (rewrite lookup_insert_ne; done). rewrite (total_of_update closer es t e _ He). cbn. lia.
Qed.

(** ** The rules, for the goroutines of a backend

    [shares l], [rights l]: the shares of the wait group and the rights to close the done channel with which an iteration
    of the loop [l] starts. *)
Section Programs.
Context {label : Type}.
Variable body : label -> prog cmd label (next label).
Variables shares rights : label -> Z.

Definition label_env (l : label) (e e2 : env) : Prop := rests (shares l) (rights l) e e2.

#[local] Notation OK p e := (goroutine_ok pre valid post split exit_ok label_env p e).
#[local] Notation WP p e Q := (wp pre valid post split exit_ok label_env p e Q).
#[local] Notation Typed w := (typed panics Inv pre valid post split exit_ok label_env crash w).

Lemma backend_rules :
  (forall l, OK (body l) (holding (shares l) (rights l))) ->
  rules exec panics body (fun _ _ => False) Inv pre valid post split exit_ok label_env crash.
Proof.
  intros Hl. split.
  - intros s es t e X c. apply backend_no_panic.
  - intros s es t e X c x s'. apply backend_exec_rule.
  - intros s es t e. apply b_exit.
  - intros s es t e l e2 Hi He Hle. by eapply b_again.
  - intros s es t e t' ec e1. apply b_start.
  - done.
  - intros l e e2 (_ & _ & _ & _ & _ & ->). apply Hl.
Qed.

(** Goroutines that own nothing, around a fresh backend. *)
Lemma backend_typed_start c (ts : gmap nat (prog cmd label (next label))) :
  conns_ok c -> (forall t p, ts !! t = Some p -> OK p nothing) -> Typed {| st := fresh_backend c; tasks := ts; panicked := false |}.
Proof.
  intros Hc Hts. split; [done|]. exists (const nothing <$> ts). split_and!.
  - split.
    + split; try done; cbn; [intros q r Hq; by apply not_elem_of_nil in Hq|intros q; apply not_elem_of_nil].
    + intros t e (p & <- & _)%lookup_fmap_Some. by apply (b_holding _ 0 0).
    + intros t t' e f (p & <- & _)%lookup_fmap_Some (p' & <- & _)%lookup_fmap_Some _. apply (b_holding_compat 0 0).
    + cbn. rewrite total_of_zero; [done|]. by intros t e (p & <- & _)%lookup_fmap_Some.
    + unfold allowed. cbn. rewrite total_of_zero; [by destruct dones|]. by intros t e (p & <- & _)%lookup_fmap_Some.
  - cbn. by rewrite dom_fmap_L.
  - cbn. intros t p e Hp (q & <- & _)%lookup_fmap_Some. by apply (Hts t).
Qed.

(** What the invariant says of responses, panics and connections. *)
Lemma backend_typed_response (w : world cmd State label) q r :
  Typed w -> (q, Ok r) ∈ answers (log (st w)) -> exists a, r = Some a /\ heard_from (log (st w)) (Direct.id_text (req_ID q)) a.
Proof.
  intros (_ & es & Hi & _) Ha. destruct r as [a|]; [|by destruct (g_nil _ (i_global _ _ Hi) q)]. exists a. split; [done|]. by apply (g_answers _ (i_global _ _ Hi)).
Qed.

Lemma task_typed (w : world cmd State label) t p :
  Typed w -> tasks w !! t = Some p -> exists es e, Inv (st w) es /\ es !! t = Some e /\ OK p e.
Proof.
  intros (_ & es & Hi & Hd & Ht) Hp. assert (exists e, es !! t = Some e) as [e He] by (apply elem_of_dom; rewrite Hd; apply elem_of_dom; by eexists).
  exists es, e. split_and!; [done..|]. by apply (Ht t).
Qed.

(** Only the channels of the shutdown can be closed twice, where a second close of the done channel needs a second start;
    and a ticker may have an interval that is not positive. *)
Lemma backend_typed_panic (w : world cmd State label) :
  Typed w -> panicked w = true ->
  exists t, (exists k, tasks w !! t = Some (Do CloseShutdown k) /\ shutdownCh (st w) = true) \/
            (exists k, tasks w !! t = Some (Do CloseDone k) /\ doneCh (st w) = true /\ dones = true /\ 2 <= starts (log (st w))) \/
            (exists d k, tasks w !! t = Some (Do (NewTicker d) k) /\ ticks d /\ d <= 0).
Proof.
  intros Hty Hp. destruct (proj1 Hty Hp) as (t & X & c & k & Htk & Hpn & Hcr). exists t. destruct (task_typed w t _ Hty Htk) as (es & e & Hi & He & [Hpre _]).
  destruct c; try done; cbn in Hpn, Hpre; [right; right; exists d, k; split_and!; [done|done|lia]|left; by exists k|right; left; exists k].
  pose proof (i_closers _ _ Hi) as Hs. unfold closed_once, allowed in Hs. rewrite Hpn, (total_of_delete closer es t e He) in Hs.
  assert (0 <= total_of closer (delete t es)) by (apply total_of_nonneg; intros u f [_ Hu]%lookup_delete_Some; by apply (t_closer (st w)), (i_task _ _ Hi u)).
  destruct dones; split_and!; try done; lia.
Qed.

(** Two goroutines do not use one connection. *)
Lemma typed_exclusive (w : world cmd State label) t t' c q q' k k' :
  Typed w -> tasks w !! t = Some (Do (Write (Some c) q) k) -> tasks w !! t' = Some (Do (Write (Some c) q') k') -> t = t'.
Proof.
  intros (_ & es & Hi & Hd & Ht) Hp Hp'. destruct (decide (t = t')) as [|Hne]; [done|].
  assert (forall u p, tasks w !! u = Some p -> exists e, es !! u = Some e) as Hx by (intros u p Hu; apply elem_of_dom; rewrite Hd; apply elem_of_dom; by eexists).
  destruct (Hx _ _ Hp) as [e He], (Hx _ _ Hp') as [e' He']. destruct (Ht _ _ _ Hp He) as [H1 _], (Ht _ _ _ Hp' He') as [H2 _]. cbn in H1, H2.
  destruct (i_compat _ _ Hi _ _ _ _ He He' Hne) as [_ _ Hc]. set_solver.
Qed.

Lemma typed_conns (w : world cmd State label) : Typed w -> conns_ok (conns (st w)).
Proof. intros (_ & es & Hi & _). apply Hi. Qed.

(** ** Typing, command by command

    [stands b n c g e]: between the commands of a program with no request of its own; it holds the mutex when [b], [n]
    shares, [c] rights and the connections [g]. *)
Record stands (b : bool) (n c : Z) (g : gset nat) (e : env) : Prop := {
  s_own : own e = None; s_mu : mu e = b; s_owed : owed e = n; s_closer : closer e = c; s_tokens : tokens e = g }.

(** Commands of which a goroutine learns nothing. *)
Definition quiet {X} (c : cmd X) : bool :=
  match c with
  | Call | Now | Remaining | IsRunning | Metric _ | NextID | Write None _ | Attempt | Exchange _ | Tick | Sleep _ | ShutdownSeen | CloseShutdown | AwaitDone
  | NewSignal | WgWait | Raise _ | Await _ | Join _ => true
  | _ => false
  end.

Lemma b_quiet {X} (c : cmd X) e Q : quiet c = true -> (forall x, Q x e) -> WP (perform c) e Q.
Proof. intros Hq Hk. apply wp_perform; [destruct c; try done; match goal with o : option nat |- _ => by destruct o end|]. intros x _. specialize (Hk x). by destruct c. Qed.

Lemma b_Lock_rule n c g e Q : stands false n c g e -> (forall e', stands true n c g e' -> texts e' = texts e -> Q tt e') -> WP (perform Lock) e Q.
Proof. intros [] Hk. apply wp_perform; [done|]. intros [] _. by apply Hk. Qed.

Lemma b_Unlock_rule n c g e Q : stands true n c g e -> (forall e', stands false n c g e' -> Q tt e') -> WP (perform Unlock) e Q.
Proof. intros [] Hk. apply wp_perform; [done|]. intros [] _. by apply Hk. Qed.

Lemma b_Running_rule n c g e Q : stands true n c g e -> (forall x, Q x e) -> WP (perform Running) e Q.
Proof. intros [] Hk. apply wp_perform; [done|]. intros x _. by apply Hk. Qed.

Lemma b_SetRunning_rule b n c g e Q :
  stands true n c g e -> (forall e', stands true n (if b && dones then c + 1 else c) g e' -> Q tt e') -> WP (perform (SetRunning b)) e Q.
Proof. intros [] Hk. apply wp_perform; [done|]. intros [] _. apply Hk. cbn. destruct (b && dones); split; cbn; congruence. Qed.

Lemma b_WgAdd_rule b n c g e Q : stands b n c g e -> (forall e', stands b (n + 1) c g e' -> Q tt e') -> WP (perform WgAdd) e Q.
Proof. intros [] Hk. apply wp_perform; [done|]. intros [] _. apply Hk. split; cbn; congruence. Qed.

Lemma b_WgDone_rule b n c g e Q : stands b n c g e -> 1 <= n -> (forall e', stands b (n - 1) c g e' -> Q tt e') -> WP (perform WgDone) e Q.
Proof. intros [] Hn Hk. apply wp_perform; [cbn; lia|]. intros [] _. apply Hk. split; cbn; congruence. Qed.

Lemma b_CloseDone_rule b n c g e Q : stands b n c g e -> 1 <= c -> (forall e', stands b n (c - 1) g e' -> Q tt e') -> WP (perform CloseDone) e Q.
Proof. intros [] Hn Hk. apply wp_perform; [cbn; lia|]. intros [] _. apply Hk. split; cbn; congruence. Qed.

(** A goroutine is started with [m] of the shares and [d] of the rights. *)
Lemma b_go ch b n c g m d e Q :
  stands b n c g e -> 0 <= m <= n -> 0 <= d <= c -> OK ch (holding m d) -> (forall e', stands b (n - m) (c - d) g e' -> Q tt e') -> WP (go ch) e Q.
Proof.
  intros [] Hm Hd Hc Hk. apply wp_go with (ec := holding m d) (e1 := set_shares (owed e - m) (closer e - d) e); [|done|].
  - exists m, d. split_and!; [lia..|done|done].
  - apply Hk. split; cbn; congruence.
Qed.

Lemma b_NewTicker_rule d e (Q : unit -> env -> Prop) : ticks d -> Q tt e -> WP (perform (NewTicker d)) e Q.
Proof. intros Hd Hk. apply wp_perform; [exact Hd|]. by intros [] _. Qed.

(** A critical section that changes no ownership. *)
Definition keeps {A} (ready : Conns -> bool) (f : Conns -> A * Conns) : Prop :=
  forall x, conns_ok x -> ready x = true -> conns_ok (snd (f x)) /\ taken x ⊆ taken (snd (f x)).

Lemma b_with_conns {A} `{EqDecision A} (ready : Conns -> bool) (f : Conns -> A * Conns) e Q :
  keeps ready f -> (forall a e', (exists x, conns_ok x /\ ready x = true /\ a = fst (f x)) -> e' = set_tokens (tokens e) e -> Q a e') -> WP (with_conns_when ready f) e Q.
Proof.
  intros Hf Hk. apply wp_perform.
  - split; [cbn; set_solver|]. intros x Hx Hr _. destruct (Hf x Hx Hr) as [F1 F2]. split; [done|]. cbn. set_solver.
  - intros a Hv. apply Hk; [exact Hv|]. cbn. f_equal. set_solver.
Qed.

Lemma b_stands_same b n c g e : stands b n c g e -> stands b n c g (set_tokens (tokens e) e).
Proof. by intros []. Qed.

(** A critical section that takes or gives up a connection. *)
Lemma b_Section_rule {A} (dec : EqDecision A) (ready : Conns -> bool) (f : Conns -> A * Conns) gain lose b n c g e Q :
  stands b n c g e -> section_ok ready f gain lose e ->
  (forall a e', (exists x, conns_ok x /\ ready x = true /\ a = fst (f x)) -> stands b n c (g ∖ only lose ∪ only (gain a)) e' -> Q a e') ->
  WP (perform (Section_ dec ready f gain lose)) e Q.
Proof. intros [] Hf Hk. apply wp_perform; [exact Hf|]. intros a Hv. apply Hk; [exact Hv|]. cbn. split; cbn; congruence. Qed.

Lemma b_Receive_rule n c e Q :
  stands false n c ∅ e -> (forall x e', stands false n c ∅ e' -> (forall d, x = RText d -> d ∈ texts e') -> Q x e') -> WP (perform Receive) e Q.
Proof. intros [] Hk. apply wp_perform; [done|]. intros x _. apply Hk; [by destruct x|]. intros d ->. left. Qed.

Lemma b_routeResponse r d e Q : d ∈ texts e -> decode d = Ok r -> Q tt e -> WP (routeResponse r) e Q.
Proof.
  intros Hd Hu Hq. unfold routeResponse. destruct (resp_ID r) eqn:Er; try done. apply wp_perform; [by exists d|]. by intros [] _.
Qed.

(** ** Requests *)

Lemma b_checkRunning n c g e Q : stands false n c g e -> (forall r, Q r e) -> WP checkRunning e Q.
Proof. intros He Hk. unfold checkRunning. apply wp_bind, b_quiet; [done|]. intros r. apply wp_ret, Hk. Qed.

Lemma b_ensureRequestID name q e (Q : Request * string -> env -> Prop) :
  (forall p, snd p = Direct.id_text (req_ID (fst p)) -> Q p e) -> WP (ensureRequestID name q) e Q.
Proof.
  intros Hk. unfold ensureRequestID. destruct (Direct.no_id q); [|by apply wp_ret, Hk]. apply wp_bind, b_quiet; [done|]. intros n. cbn zeta. by apply wp_ret, Hk.
Qed.

(** Waiting for the response to one's request. *)
Lemma b_await_response timeout startTime id ch e Q :
  own e = Some (id, ch) ->
  (forall r e', own e' = own e -> mu e' = mu e -> owed e' = owed e -> closer e' = closer e -> tokens e' = tokens e ->
     (forall a, r = Ok a -> exists b, a = Some b /\ (id, b) ∈ got e') -> Q r e') ->
  WP (await_response timeout startTime ch) e Q.
Proof.
  intros Ho Hk. unfold await_response, calculateTimeout, recordSuccessMetrics, recordErrorMetric. do 2 apply wp_bind. apply b_quiet; [done|]. intros ?. apply wp_ret.
  apply wp_bind, wp_perform; [by exists id|]. intros y Hv. cbn [valid post] in Hv |- *. rewrite Ho. destruct y as [r| | |text].
  - do 2 apply wp_bind. apply b_quiet; [done|]. intros ?. apply b_quiet; [done|]. intros ?. apply wp_ret, Hk; try done. intros a [= <-]. eexists. split; [done|]. left.
  - done.
  - apply wp_bind, b_quiet; [done|]. intros ?. by apply wp_ret, Hk.
  - apply wp_bind, b_quiet; [done|]. intros ?. by apply wp_ret, Hk.
Qed.

(** ** Ends *)

Lemma b_ends e : stands false 0 0 ∅ e -> exit_ok e.
Proof. by intros []. Qed.
Lemma b_goes_on l e : stands false (shares l) (rights l) ∅ e -> exists e2, label_env l e e2.
Proof. intros []. by eexists. Qed.
Lemma b_loop l n c : n = shares l -> c = rights l -> OK (Ret (Again l)) (holding n c).
Proof. intros -> ->. apply b_goes_on. by split. Qed.
Lemma b_ticking d l n c : ticks d -> n = shares l -> c = rights l -> OK (ticking d l) (holding n c).
Proof. intros Hd -> ->. apply wp_bind, b_NewTicker_rule; [done|]. apply b_goes_on. by split. Qed.
Lemma b_stands_holding n c : stands false n c ∅ (holding n c).
Proof. done. Qed.

End Programs.
End Discipline.

(** *** Automation

    [walk] takes a typing goal through the commands of a program up to a branch or a program with a lemma of its own. *)
Ltac b_walk_step :=
  cbn beta;
  lazymatch goal with
  | |- wp _ _ _ _ _ _ (mret _) _ _ => apply wp_ret
  | |- wp _ _ _ _ _ _ (mbind _ _) _ _ => apply wp_bind
  | |- wp _ _ _ _ _ _ (perform Lock) _ _ => eapply b_Lock_rule; [eassumption|intros ? ? ?]
  | |- wp _ _ _ _ _ _ (perform Unlock) _ _ => eapply b_Unlock_rule; [eassumption|intros ? ?]
  | |- wp _ _ _ _ _ _ (perform Running) _ _ => eapply b_Running_rule; [eassumption|intros ?]
  | |- wp _ _ _ _ _ _ (perform (SetRunning _)) _ _ => eapply b_SetRunning_rule; [eassumption|cbn [andb]; intros ? ?]
  | |- wp _ _ _ _ _ _ (perform WgAdd) _ _ => eapply b_WgAdd_rule; [eassumption|intros ? ?]
  | |- wp _ _ _ _ _ _ (perform WgDone) _ _ => eapply b_WgDone_rule; [eassumption|lia|intros ? ?]
  | |- wp _ _ _ _ _ _ (perform CloseDone) _ _ => eapply b_CloseDone_rule; [eassumption|lia|intros ? ?]
  | |- wp _ _ _ _ _ _ (perform _) _ _ => apply b_quiet; [reflexivity|intros ?]
  | |- wp _ _ _ _ _ _ checkRunning _ _ => eapply b_checkRunning; [eassumption|intros ?]
  | |- wp _ _ _ _ _ _ recordErrorMetric _ _ => unfold recordErrorMetric
  end.
Ltac b_walk := repeat b_walk_step.
Ltac b_branch := lazymatch goal with |- wp _ _ _ _ _ _ (match ?x with _ => _ end) _ _ => let E := fresh "E" in destruct x eqn:E end.
Ltac b_walk_all := repeat first [b_walk_step|b_branch].
(** The end of a goroutine's step. *)
Ltac b_end := cbn beta iota; first [by apply b_ends|by apply b_goes_on].

End BackendDiscipline.
