(* ===== verification/BackendStdio.v ===== *)
(** * The stdio backend

    [services/gateway/internal/backends/stdio/backend.go]: a process whose output is read by one goroutine, with health
    checks, as programs of [Goroutines] over the commands of [Backends]. *)
From S2P Require Import Prelude GoStrings GoUnicode Mcp Goroutines DirectClient Backends BackendTheorems.
From stdpp Require Import pretty.
#[local] Open Scope Z_scope.

Module StdioBackend.
Import Backend BackendDiscipline.

(** ** Configuration *)

Record ProcessConfig := mkProcess { MaxRestarts : Z; RestartDelay : Z }.
Record Config := mkConfig {
  Command : list string; WorkingDir : string; Env : gmap string string; HealthCheck : HealthCheckConfig; Process : ProcessConfig;
  Timeout : Z; MaxBufferSize : Z }.

Definition with_defaults (c : Config) : Config :=
  mkConfig (Command c) (WorkingDir c) (Env c) (health_defaults (HealthCheck c))
    (mkProcess (MaxRestarts (Process c)) (or_default (5 * Second) (RestartDelay (Process c))))
    (or_default (30 * Second) (Timeout c)) (or_default (1024 * 1024) (MaxBufferSize c)).

(** ** The process *)

(** The pipes, once the process is started. *)
Record Pipes := mkPipes { stdin : bool; stdout : bool; stderr : bool }.
Definition close_stdin (p : Pipes) : unit * Pipes := (tt, mkPipes false (stdout p) (stderr p)).
Definition close_outputs (p : Pipes) : unit * Pipes := (tt, mkPipes (stdin p) false false).

Inductive label := Caller | Reader | Stderr | HealthLoop.
#[local] Notation cmd := (cmd Pipes).
#[local] Notation P := (prog cmd label).
#[local] Notation next := (Goroutines.next label).

Section Stdio.
Context `{JSON} `{Direct.Sprintf}.
Variable name : string.
Variable config : Config.

(** *** Requests *)

Definition setupResponseChannel (id : string) : P nat := perform (Register id).
Definition cleanupResponseChannel (id : string) (ch : nat) : P unit := perform (Cleanup id ch).

(** The encoder writes nothing when the request cannot be marshalled. *)
Definition sendRequestToProcess (q : Request) : P (option error) :=
  e ← (match Marshal_request q with Err t => mret (Some t) | Ok _ => perform (Write None q) end);
  match e with
  | Some t => _ ← recordErrorMetric; mret (Some (Wrap "write" (External t)))
  | None => mret None
  end.

Definition waitForResponse (ch : nat) : P (result error (option Response)) :=
  startTime ← perform Now; await_response (Timeout config) startTime ch.

Definition SendRequest (q : Request) : P (Request * result error (option Response)) :=
  v ← checkRunning;
  match v with
  | Some err => _ ← recordErrorMetric; mret (q, Err err)
  | None =>
      p ← ensureRequestID name q;
      ch ← setupResponseChannel (snd p);
      e ← sendRequestToProcess (fst p);
      r ← (match e with Some err => mret (Err err) | None => waitForResponse ch end);
      _ ← (match r with Err _ => recordErrorMetric | Ok _ => mret tt end);
      _ ← cleanupResponseChannel (snd p) ch;
      mret (fst p, r)
  end.

(** *** Responses *)

(** A message that cannot be decoded. *)
Definition decode_failed : P next := _ ← perform (Metric (fun m => set_healthy false (count_error m))); mret (Again Reader).

(** One round of [readResponses], which closes the done channel when it ends. *)
Definition readResponses : P next :=
  s ← perform ShutdownSeen;
  if s : bool then _ ← perform CloseDone; mret Exit
  else
    x ← perform Receive;
    match x with
    | REof => _ ← perform CloseDone; mret Exit
    | RError => decode_failed
    | RText d =>
        match Unmarshal_response d with
        | Ok r => _ ← routeResponse r; mret (Again Reader)
        | Err _ => decode_failed
        end
    end.

(** One round of [monitorStderr]: a line, or the end. *)
Definition monitorStderr : P next := e ← perform Attempt; mret (match e with None => Again Stderr | Some _ => Exit end).

(** *** Health *)

Definition Health : P (option error) :=
  v ← checkRunning;
  match v with
  | Some err => mret (Some err)
  | None =>
      e ← perform Attempt;
      match e with
      | Some t => mret (Some (CreateBackendUnavailableError ("process not responding: " +:+ t)))
      | None =>
          ping ← (if Enabled (HealthCheck config) then now ← perform Now; p ← SendRequest (ping_request now); mret (snd p) else mret (Ok None));
          now ← perform Now;
          match ping with
          | Err err => _ ← perform (Metric (checked false now)); mret (Some (Wrap "health_check" err))
          | Ok _ => _ ← perform (Metric (checked true now)); mret None
          end
      end
  end.

Definition healthCheckLoop : P next := health_round Health HealthLoop (mret Exit).

(** *** Start and Stop *)

(** Each pipe is made, and the process started, unless one before failed; what was made is closed then. *)
Definition startProcess : P (option error) :=
  match Command config with
  | [] => mret (Some (New "command cannot be empty"))
  | _ =>
      e1 ← perform Attempt;
      match e1 with
      | Some t => mret (Some (Wrap "create_stdin_pipe" (External t)))
      | None =>
          e2 ← perform Attempt;
          match e2 with
          | Some t => _ ← with_conns (fun _ => (tt, mkPipes false false false)); mret (Some (Wrap "create_stdout_pipe" (External t)))
          | None =>
              e3 ← perform Attempt;
              match e3 with
              | Some t => _ ← with_conns (fun _ => (tt, mkPipes false false false)); mret (Some (Wrap "create_stderr_pipe" (External t)))
              | None =>
                  _ ← with_conns (fun _ => (tt, mkPipes true true true));
                  e4 ← perform Attempt;
                  match e4 with
                  | Some t => _ ← with_conns (fun _ => (tt, mkPipes false false false)); mret (Some (Wrap "start" (External t)))
                  | None => _ ← go (Ret (Again Stderr)); mret None
                  end
              end
          end
      end
  end.

Definition Start : P (option error) :=
  _ ← perform Lock;
  r ← perform Running;
  if r : bool then _ ← perform Unlock; mret (Some (New "backend already running"))
  else
    e ← startProcess;
    match e with
    | Some err => _ ← perform Unlock; mret (Some (Wrap "start_process" err))
    | None =>
        _ ← perform (SetRunning true);
        now ← perform Now;
        _ ← perform (Metric (connected_at now));
        _ ← go (Ret (Again Reader));
        _ ← (if Enabled (HealthCheck config) then go (ticking (Interval (HealthCheck config)) HealthLoop) else mret tt);
        _ ← perform Unlock;
        mret None
    end.

Definition initiateShutdown : P unit := _ ← perform CloseShutdown; with_conns close_stdin.
Definition forceKillProcess : P unit := _ ← perform Attempt; mret tt.

Definition waitForProcessExit : P (option error) :=
  done ← perform NewSignal;
  _ ← go (_ ← perform Attempt; _ ← perform (Raise done); mret Exit);
  x ← perform (Await done);
  match x with
  | Raised => mret None
  | AwaitTimeout => _ ← forceKillProcess; _ ← perform (Join done); mret None
  | AwaitCancelled t => _ ← forceKillProcess; mret (Some (External t))
  end.

Definition waitForResponseReader : P unit := _ ← perform AwaitDone; mret tt.
Definition cleanupResources : P unit :=
  _ ← with_conns close_outputs;
  _ ← perform (SetRunning false);
  perform (Metric (set_healthy false)).

Definition Stop : P (option error) :=
  _ ← perform Lock;
  r ← perform Running;
  if negb r then _ ← perform Unlock; mret None
  else
    _ ← initiateShutdown;
    e ← waitForProcessExit;
    match e with
    | Some err => _ ← perform Unlock; mret (Some err)
    | None =>
        _ ← waitForResponseReader;
        _ ← cleanupResources;
        _ ← perform Unlock;
        mret None
    end.

(** *** The gateway's calls *)

Definition serve (c : call) : P next :=
  match c with
  | CSend q => p ← SendRequest q; _ ← perform (Return (fst p) (snd p)); mret Exit
  | CStart => _ ← Start; mret Exit
  | CStop => _ ← Stop; mret Exit
  | CHealth => _ ← Health; mret Exit
  end.
Definition calls : P next := c ← perform Call; _ ← go (serve c); mret (Again Caller).

Definition body (l : label) : P next :=
  match l with Caller => calls | Reader => readResponses | Stderr => monitorStderr | HealthLoop => healthCheckLoop end.

(** A fresh backend, and goroutines that call it. *)
Definition running_backend (w : world cmd (State Pipes) label) : Prop :=
  st w = fresh_backend (mkPipes false false false) /\ panicked w = false /\ forall t p, tasks w !! t = Some p -> p = Ret (Again Caller).

(** ** Typing: the reader closes the done channel *)

Definition shares (l : label) : Z := 0.
Definition rights (l : label) : Z := match l with Reader => 1 | _ => 0 end.
Definition any (p : Pipes) : Prop := True.
Definition none (p : Pipes) : gset nat := ∅.
Definition ticks (d : Z) : Prop := Enabled (HealthCheck config) = true /\ d = Interval (HealthCheck config).

#[local] Notation Pre := (pre Unmarshal_response any none ticks).
#[local] Notation Post := (post true).
#[local] Notation Valid := (valid any).
#[local] Notation WP p e Q := (wp Pre Valid Post split exit_ok (label_env shares rights) p e Q).
#[local] Notation OK p e := (goroutine_ok Pre Valid Post split exit_ok (label_env shares rights) p e).

Lemma bs_with_conns {A} `{EqDecision A} (f : Pipes -> A * Pipes) b n c g e (Q : A -> env -> Prop) :
  stands b n c g e -> (forall a e', stands b n c g e' -> Q a e') -> WP (with_conns f) e Q.
Proof. intros He Hk. apply b_with_conns; [done|]. intros a e' _ ->. apply Hk. by apply b_stands_same. Qed.

Lemma bs_sendRequestToProcess q e : WP (sendRequestToProcess q) e (fun _ e' => e' = e).
Proof.
  unfold sendRequestToProcess. b_walk. eapply wp_mono with (Q := fun _ e' => e' = e); [b_branch; by b_walk|]. intros r e' ->. b_branch; by b_walk.
Qed.

Lemma bs_SendRequest q n c g e :
  stands false n c g e ->
  WP (SendRequest q) e (fun r e' => stands false n c g e' /\ forall a, snd r = Ok a -> exists b, a = Some b /\ (Direct.id_text (req_ID (fst r)), b) ∈ got e').
Proof.
  intros He. unfold SendRequest, setupResponseChannel, cleanupResponseChannel, waitForResponse. b_walk. b_branch; b_walk; [done|].
  apply b_ensureRequestID. intros [q' id] Hid. cbn in Hid. subst id. b_walk. destruct He. apply wp_perform; [done|]. intros ch _. b_walk.
  eapply wp_mono; [apply bs_sendRequestToProcess|]. intros s e1 ->. b_walk.
  eapply wp_mono with (Q := fun r e' => own e' = Some (Direct.id_text (req_ID q'), ch) /\ mu e' = false /\ owed e' = n /\ closer e' = c /\ tokens e' = g /\
    forall a, r = Ok a -> exists b, a = Some b /\ (Direct.id_text (req_ID q'), b) ∈ got e').
  { b_branch; b_walk; [by split_and!|]. eapply b_await_response; [done|]. intros y e' H1 H2 H3 H4 H5 H6. cbn in *. split_and!; congruence || done. }
  intros y e2 (H1 & H2 & H3 & H4 & H5 & H6). b_walk. eapply wp_mono with (Q := fun _ e' => e' = e2); [b_branch; by b_walk|]. intros ? e' ->. b_walk.
  apply wp_perform; [done|]. intros ? _. by b_walk.
Qed.

Lemma bs_Health n c g e : stands false n c g e -> WP Health e (fun _ e' => stands false n c g e').
Proof.
  intros He. unfold Health. b_walk. b_branch; b_walk; [done|]. b_branch; b_walk; [done|].
  eapply wp_mono with (Q := fun _ e' => stands false n c g e'); [b_branch; b_walk; [|done]|].
  { eapply wp_mono; [by apply bs_SendRequest|]. intros y e2 [He2 _]. by b_walk. }
  intros y e2 He2. b_walk_all; done.
Qed.

Lemma bs_healthCheckLoop : OK healthCheckLoop (holding 0 0).
Proof.
  pose proof (b_stands_holding 0 0) as He. unfold healthCheckLoop, health_round, goroutine_ok. b_walk. b_branch; b_walk; [|b_end].
  eapply wp_mono; [by apply bs_Health|]. intros ? e1 He1. b_walk. b_end.
Qed.

Lemma bs_decode_failed e : stands false 0 1 ∅ e -> OK decode_failed e.
Proof. intros He. unfold decode_failed, goroutine_ok. b_walk. b_end. Qed.

Lemma bs_readResponses : OK readResponses (holding 0 1).
Proof.
  pose proof (b_stands_holding 0 1) as He. unfold readResponses, goroutine_ok. b_walk. b_branch; b_walk; [b_end|].
  eapply b_Receive_rule; [done|]. intros y e1 He1 Ht. destruct y; b_walk; [|b_end|by apply bs_decode_failed].
  b_branch; [|by apply bs_decode_failed]. b_walk. eapply b_routeResponse; [by apply Ht|done|]. b_walk. b_end.
Qed.

Lemma bs_monitorStderr : OK monitorStderr (holding 0 0).
Proof. pose proof (b_stands_holding 0 0) as He. unfold monitorStderr, goroutine_ok. b_walk. destruct x; b_end. Qed.

Lemma bs_startProcess n c g e : stands true n c g e -> 0 <= n -> 0 <= c -> WP startProcess e (fun _ e' => stands true n c g e').
Proof.
  intros He Hn Hc. unfold startProcess. b_branch; b_walk; [done|].
  do 3 (b_branch; b_walk; [try (eapply bs_with_conns; [eassumption|intros ? ? ?; b_walk]); done|]).
  eapply bs_with_conns; [eassumption|]. intros ? e1 He1. b_walk.
  b_branch; b_walk; [eapply bs_with_conns; [eassumption|intros ? ? ?; by b_walk]|].
  eapply b_go with (m := 0) (d := 0); [eassumption|lia|lia|by apply b_loop|]. intros e2 He2. b_walk. by rewrite !Z.sub_0_r in He2.
Qed.

Lemma bs_Start e : stands false 0 0 ∅ e -> WP Start e (fun _ e' => stands false 0 0 ∅ e').
Proof.
  intros He. unfold Start. b_walk. b_branch; b_walk; [done|]. eapply wp_mono; [by apply bs_startProcess|]. intros y e1 He1. b_branch; b_walk; [done|].
  eapply b_go with (m := 0) (d := 1); [eassumption|lia|lia|by apply b_loop|]. intros e2 He2. b_walk. cbn in He2.
  eapply wp_mono with (Q := fun _ e' => stands true 0 0 ∅ e'); [|intros ? e3 He3; by b_walk]. b_branch; b_walk; [|done].
  eapply b_go with (m := 0) (d := 0); [eassumption|lia|lia|by apply b_ticking|]. by intros e3 He3.
Qed.

Lemma bs_Stop e : stands false 0 0 ∅ e -> WP Stop e (fun _ e' => stands false 0 0 ∅ e').
Proof.
  intros He. unfold Stop, initiateShutdown, waitForProcessExit, forceKillProcess, waitForResponseReader, cleanupResources. b_walk. b_branch; b_walk; [done|].
  eapply bs_with_conns; [eassumption|]. intros ? e1 He1. b_walk.
  eapply b_go with (m := 0) (d := 0); [eassumption|lia|lia|unfold goroutine_ok; pose proof (b_stands_holding 0 0); b_walk; b_end|]. intros e2 He2. b_walk. cbn in He2.
  eapply wp_mono with (Q := fun _ e' => e' = e2); [b_walk_all; done|]. intros y e3 ->. b_branch; b_walk; [done|].
  eapply bs_with_conns; [eassumption|]. intros ? e3 He3. by b_walk.
Qed.

Lemma bs_calls : OK calls nothing.
Proof.
  pose proof (b_stands_holding 0 0 : stands false 0 0 ∅ nothing) as He. unfold calls, goroutine_ok. b_walk.
  eapply b_go with (m := 0) (d := 0); [exact He|lia|lia| |intros e1 He1; b_walk; b_end]. change (holding 0 0) with nothing. unfold goroutine_ok.
  destruct x as [q| | |]; cbn [serve]; b_walk.
  - eapply wp_mono; [by apply bs_SendRequest|]. intros [q' r] e1 [He1 Hr]. cbn [fst snd] in *. b_walk. apply wp_perform; [|intros ? _; cbn [post]; b_walk; b_end].
    destruct r as [a|]; [|done]. destruct (Hr a eq_refl) as (b & -> & Hb). exact Hb.
  - eapply wp_mono; [by apply bs_Start|]. intros ? e1 He1. b_walk. b_end.
  - eapply wp_mono; [by apply bs_Stop|]. intros ? e1 He1. b_walk. b_end.
  - eapply wp_mono; [by apply bs_Health|]. intros ? e1 He1. b_walk. b_end.
Qed.

#[local] Notation stdio_reachable w0 w := (reachable exec panics body (fun _ _ => False) w0 w).

Lemma bs_typed w0 w : running_backend w0 -> stdio_reachable w0 w ->
  typed panics (Inv Unmarshal_response any none true) Pre Valid Post split exit_ok (label_env shares rights) crash w.
Proof.
  intros (Hs & Hp & Ht) Hr. eapply sound; [| |exact Hr].
  - apply backend_rules. intros []; [apply bs_calls|apply bs_readResponses|apply bs_monitorStderr|apply bs_healthCheckLoop].
  - destruct w0 as [s ts pn]. cbn in *. subst. apply backend_typed_start; [done|]. intros t p Hin. rewrite (Ht t p Hin). apply b_goes_on. by split.
Qed.

(** ** Every interleaving *)

(** Whatever the interleaving of calls, reads, health checks, starts and stops, a request to the stdio backend that ends without
    an error is answered by a response that the process wrote, whose id is the text of the request's id: never by a
    response without content, and never by that of another request. *)
Lemma stdio_backend_responses_match w0 w q r :
  running_backend w0 -> stdio_reachable w0 w -> (q, Ok r) ∈ answers (log (st w)) ->
  exists a d, r = Some a /\ d ∈ heard (log (st w)) /\ Unmarshal_response d = Ok a /\ resp_ID a = JString (Direct.id_text (req_ID q)).
Proof.
  intros H0' Hr Ha. destruct (backend_typed_response _ _ _ _ _ _ _ _ _ _ (bs_typed _ _ H0' Hr) Ha) as (a & -> & d & Hd & Hu & Hi). by exists a, d.
Qed.

(** C16: Whatever the interleaving, the stdio backend can stop the gateway only by closing a channel of its shutdown twice (in a
    Stop after one that was signalled before, or in a reader that was started by a second Start), or by making the ticker of
    enabled health checks whose interval is not positive.  The channels of requests are never misused. *)
Theorem stdio_backend_panics w0 w :
  running_backend w0 -> stdio_reachable w0 w -> panicked w = true ->
  exists t, (exists k, tasks w !! t = Some (Do CloseShutdown k) /\ shutdownCh (st w) = true) \/
            (exists k, tasks w !! t = Some (Do CloseDone k) /\ doneCh (st w) = true /\ 2 <= starts (log (st w))) \/
            (exists k, tasks w !! t = Some (Do (NewTicker (Interval (HealthCheck config))) k) /\
               Enabled (HealthCheck config) = true /\ Interval (HealthCheck config) <= 0).
Proof.
  intros H0' Hr Hp. destruct (backend_typed_panic _ _ _ _ _ _ _ _ (bs_typed _ _ H0' Hr) Hp) as (t & [Hc|[(k & Ht & Hd & _ & Hs)|(d & k & Ht & [He ->] & Hd)]]);
    exists t; [by left|right; left; by exists k|right; right; by exists k].
Qed.

(** ** The counters

    How much a command adds to the count of errors. *)
Definition adds_errors (X : Type) (c : cmd X) (x : X) : Z := match c with Metric f => ErrorCount (f no_metrics) | _ => 0 end.

#[local] Notation counted := (counts (fun _ _ _ => True) adds_errors).

Lemma errors_of_await timeout t ch (n : Z) :
  counted (await_response timeout t ch : P _) n (fun m r => m = match r with Ok _ => n | Err _ => n + 1 end /\ forall reason, r <> Err (CreateBackendUnavailableError reason)).
Proof. pose proof (eq_refl : u64_add 0 1 = 1). cbn. intros ? _ x _. destruct x; cbn; intros; (split; [lia|done]). Qed.

(** A request that fails is counted as two errors, except when the backend does not run. *)
Lemma failures_counted_twice q :
  counted (SendRequest q) 0 (fun n p => n = match snd p with Ok _ => 0 | Err (CreateBackendUnavailableError _) => 1 | Err _ => 2 end).
Proof.
  pose proof (eq_refl : u64_add 0 1 = 1). unfold SendRequest. apply counts_bind. cbn [checkRunning]. intros r _. destruct r; cbn [mret prog_mret]; [|cbn; lia].
  apply counts_bind. eapply counts_mono with (Q := fun n _ => n = 0); [unfold ensureRequestID; destruct (Direct.no_id q); cbn; intros; lia|].
  intros n p ->. apply counts_bind. intros ch _. cbn [prog_mret mret]. apply counts_bind.
  eapply counts_mono with (Q := fun n e => n = match e with Some _ => 1 | None => 0 end /\ forall r, e <> Some (CreateBackendUnavailableError r)).
  { unfold sendRequestToProcess. destruct (Marshal_request (fst p)); [|cbn; intros; split; [lia|done]]. cbn. intros x _. destruct x; cbn; intros; (split; [lia|done]). }
  intros m e [-> He]. apply counts_bind.
  eapply counts_mono with (Q := fun n r => n = match r with Ok _ => 0 | Err _ => 1 end /\ forall x, r <> Err (CreateBackendUnavailableError x)).
  { destruct e as [err|]; [cbn; split; [lia|]; intros x [= ->]; by eapply He|]. unfold waitForResponse. apply counts_bind. intros t _. cbn [prog_mret mret].
    refine (counts_mono _ _ (await_response (Timeout config) t ch) _ _ _ (errors_of_await _ _ _ _) _). intros m' y [-> Hy]. split; [by destruct y|done]. }
  intros m' y [-> Hy]. destruct y as [a|err]; cbn; intros; [lia|]. destruct err; try lia. by destruct (Hy reason).
Qed.

End Stdio.
(** ** Runs *)

#[local] Existing Instance Codec.codec.
#[local] Instance sample_printf : Direct.Sprintf := fun _ => "?"%string.

Definition sample_config : Config := with_defaults (mkConfig ["server"%string] "" ∅ (mkHealthCheck false 0 0) (mkProcess 0 0) 0 0).
Definition sample_start : world cmd (State Pipes) label :=
  {| st := fresh_backend (mkPipes false false false); tasks := {[0%nat := Ret (Again Caller)]}; panicked := false |}.
Definition play (sched : list (nat * (State Pipes -> forall X, cmd X -> X))) : option (world cmd (State Pipes) label) :=
  run exec panics (body "backend" sample_config) sched sample_start.
Definition final {A} (f : world cmd (State Pipes) label -> A) (sched : list (nat * (State Pipes -> forall X, cmd X -> X))) : option A := f <$> play sched.

Lemma bs_play_reachable sched w : play sched = Some w -> reachable exec panics (body "backend" sample_config) (fun _ _ => False) sample_start w.
Proof. apply run_reachable, reach_init. Qed.

Lemma bs_final_played {A} (f : world cmd (State Pipes) label -> A) sched a : final f sched = Some a -> exists w, play sched = Some w /\ f w = a.
Proof. unfold final. destruct (play sched) as [w|]; [|done]. intros [= <-]. by exists w. Qed.

Lemma bs_sample_running : running_backend sample_start.
Proof. split_and!; [done|done|]. intros t p Hp. cbn in Hp. by apply lookup_singleton_Some in Hp as [_ <-]. Qed.

Definition ask (id : jvalue) : Request := mkRequest "2.0" "tools/list" JNull id.
Definition reply (id : jvalue) : Response := mkResponse "2.0" (JString "tools"%string) None id.
Definition sent (id : jvalue) : recv_res := match Marshal_response (reply id) with Ok d => RText d | Err _ => REof end.

(** The goroutines: 0 the callers, 1 the call of Start, which starts 2 (the stderr) and 3 (the reader); then one for each call. *)
#[local] Notation schedule := (list (nat * (State Pipes -> forall X, cmd X -> X))).
Definition calling (t : nat) (c : call) (n : nat) : schedule := moves 3 0 (on_call c) ++ moves n t (on_call c).
Definition starting : schedule := calling 1 CStart 14.
Definition reading (r : recv_res) : schedule := moves 4 3 (on_read r).
Definition exchange : schedule :=
  starting ++ calling 4 (CSend (ask (JString "a"%string))) 5 ++ reading (sent (JString "a"%string)) ++ moves 5 4 on_tick.

Example stdio_backend_answers :
  final (fun w => (answers (log (st w)), panicked w)) exchange =
    Some ([(ask (JString "a"%string), Ok (Some (reply (JString "a"%string))))], false).
Proof. vm_compute. reflexivity. Qed.

(** The process ends: its reader ends, the backend still runs and accepts a request, which waits for its timeout. *)
Example ended_process_still_running :
  final (fun w => (running (st w), doneCh (st w), map snd (answers (log (st w)))))
    (starting ++ moves 5 3 (on_read REof) ++ moves 3 0 (on_call (CSend (ask (JString "a"%string)))) ++ moves 11 3 on_tick) =
    Some (true, true, [Err (CreateConnectionTimeoutError (30 * Second))]).
Proof. vm_compute. reflexivity. Qed.

(** A Stop, its process ends, the reader ends; the backend is started again: its reader closes the done channel again. *)
Definition stopped : schedule := starting ++ calling 4 CStop 7 ++ moves 2 5 on_tick ++ moves 3 3 on_tick ++ moves 8 4 on_tick.
Definition restarted : schedule := stopped ++ calling 6 CStart 14 ++ moves 3 8 on_tick.
Example restart_stops_gateway : final (fun w => (panicked w, starts (log (st w)))) restarted = Some (true, 2).
Proof. vm_compute. reflexivity. Qed.

(** A Stop whose context ends leaves the backend running; the next Stop closes the shutdown channel again. *)
Definition stopped_twice : schedule := starting ++ moves 3 0 (on_call CStop) ++ moves 10 4 on_failure ++ calling 6 CStop 3.
Example second_stop_stops_gateway : final (fun w => (panicked w, running (st w), shutdownCh (st w))) stopped_twice = Some (true, true, true).
Proof. vm_compute. reflexivity. Qed.

(** Health checks with a negative interval, which the defaults leave as it is: the goroutine of the checks makes its ticker. *)
Definition negative_config : Config := with_defaults (mkConfig ["server"%string] "" ∅ (mkHealthCheck true (- Second) 0) (mkProcess 0 0) 0 0).
Example negative_interval_stops_gateway :
  (panicked <$> run exec panics (body "backend" negative_config) (calling 1 CStart 15 ++ moves 1 4 on_tick) sample_start) = Some true.
Proof. vm_compute. reflexivity. Qed.

(** *** Witnesses *)

Lemma stdio_backend_responses_match_witness :
  exists w, play exchange = Some w /\
    exists a d, Some (reply (JString "a"%string)) = Some a /\ d ∈ heard (log (st w)) /\ Unmarshal_response d = Ok a /\ resp_ID a = JString "a".
Proof.
  destruct (bs_final_played (fun w => answers (log (st w))) exchange [(ask (JString "a"%string), Ok (Some (reply (JString "a"%string))))])
    as (w & Ev & Ha); [vm_compute; reflexivity|]. exists w. split; [exact Ev|].
  apply (stdio_backend_responses_match "backend" sample_config sample_start w (ask (JString "a"%string)) (Some (reply (JString "a"%string)))
           bs_sample_running (bs_play_reachable _ _ Ev)). rewrite Ha. left.
Defined.

Lemma stdio_backend_panics_witness :
  exists w, play restarted = Some w /\
    exists t, (exists k, tasks w !! t = Some (Do CloseShutdown k) /\ shutdownCh (st w) = true) \/
              (exists k, tasks w !! t = Some (Do CloseDone k) /\ doneCh (st w) = true /\ 2 <= starts (log (st w))) \/
              (exists k, tasks w !! t = Some (Do (NewTicker (Interval (HealthCheck sample_config))) k) /\
                 Enabled (HealthCheck sample_config) = true /\ Interval (HealthCheck sample_config) <= 0).
Proof.
  destruct (bs_final_played panicked restarted true) as (w & Ev & Hp); [vm_compute; reflexivity|]. exists w. split; [exact Ev|].
  exact (stdio_backend_panics "backend" sample_config sample_start w bs_sample_running (bs_play_reachable _ _ Ev) Hp).
Defined.

End StdioBackend.
