(* ===== verification/BackendWs.v ===== *)
(** * The WebSocket backend

    [services/gateway/internal/backends/websocket/backend.go]: pools of connections to the endpoints of a backend, each
    connection with a goroutine that reads it and one that pings it, as programs of [Goroutines] over the commands of
    [Backends].  Connections and pools are pointers into a store. *)
From S2P Require Import Prelude GoStrings GoUnicode Mcp Goroutines DirectClient Backends BackendTheorems.
From stdpp Require Import pretty.
#[local] Open Scope Z_scope.

Module WebSocketBackend.
Import Backend BackendDiscipline.

(** ** Configuration *)

Record PoolConfig := mkPoolConfig { MinSize : Z; MaxSize : Z; MaxIdle : Z; IdleTimeout : Z }.
Record Config := mkConfig {
  Endpoints : list string; Headers : gmap string string; ConnectionPool : PoolConfig; HealthCheck : HealthCheckConfig; Timeout : Z;
  HandshakeTimeout : Z; PingInterval : Z; PongTimeout : Z; MaxMessageSize : Z; Origin : string }.

Definition applyTimeoutDefaults (c : Config) : Config :=
  mkConfig (Endpoints c) (Headers c) (ConnectionPool c) (HealthCheck c) (or_default (30 * Second) (Timeout c))
    (or_default (10 * Second) (HandshakeTimeout c)) (or_default (30 * Second) (PingInterval c)) (or_default (10 * Second) (PongTimeout c))
    (or_default (1024 * 1024) (MaxMessageSize c)) (Origin c).
Definition applyConnectionPoolDefaults (c : Config) : Config :=
  let p := ConnectionPool c in
  mkConfig (Endpoints c) (Headers c)
    (mkPoolConfig (or_default 1 (MinSize p)) (or_default 10 (MaxSize p)) (or_default (300 * Second) (MaxIdle p)) (or_default (60 * Second) (IdleTimeout p)))
    (HealthCheck c) (Timeout c) (HandshakeTimeout c) (PingInterval c) (PongTimeout c) (MaxMessageSize c) (Origin c).
Definition applyHealthCheckDefaults (c : Config) : Config :=
  mkConfig (Endpoints c) (Headers c) (ConnectionPool c) (health_defaults (HealthCheck c)) (Timeout c) (HandshakeTimeout c) (PingInterval c)
    (PongTimeout c) (MaxMessageSize c) (Origin c).
Definition applyDefaultConfig (c : Config) : Config := applyHealthCheckDefaults (applyConnectionPoolDefaults (applyTimeoutDefaults c)).

(** ** Connections and pools *)

Record Connection := mkConnection { c_url : string; c_lastUsed : Z; c_inUse : bool; c_healthy : bool; c_closed : bool }.
(** [p_locked]: a goroutine holds the mutex of the pool. *)
Record Pool := mkPool { p_locked : bool; p_conns : list nat }.
Record Pools := mkPools { pools : gmap string nat; store : gmap nat Pool; connections : gmap nat Connection; next_ref : nat }.

Definition no_pools : Pools := mkPools ∅ ∅ ∅ 0.

Definition in_use (b : bool) (t : Z) (k : Connection) : Connection := mkConnection (c_url k) t b (c_healthy k) (c_closed k).
Definition unhealthy (k : Connection) : Connection := mkConnection (c_url k) (c_lastUsed k) (c_inUse k) false (c_closed k).
Definition closed (k : Connection) : Connection := mkConnection (c_url k) (c_lastUsed k) (c_inUse k) (c_healthy k) true.
Definition set_connections (c : gmap nat Connection) (x : Pools) : Pools := mkPools (pools x) (store x) c (next_ref x).
Definition set_store (p : gmap nat Pool) (x : Pools) : Pools := mkPools (pools x) p (connections x) (next_ref x).

Definition pool_conns (pid : nat) (x : Pools) : list nat := match store x !! pid with Some p => p_conns p | None => [] end.
Definition unlocked (pid : nat) (x : Pools) : bool := match store x !! pid with Some p => negb (p_locked p) | None => true end.
Definition hold (b : bool) (pid : nat) (x : Pools) : unit * Pools := (tt, set_store (alter (fun p => mkPool b (p_conns p)) pid (store x)) x).

Definition new_pool (endpoint : string) (x : Pools) : nat * Pools :=
  let n := next_ref x in (n, mkPools (<[endpoint := n]> (pools x)) (<[n := mkPool false []]> (store x)) (connections x) (S n)).
Definition new_connection (endpoint : string) (now : Z) (x : Pools) : nat * Pools :=
  let n := next_ref x in (n, mkPools (pools x) (store x) (<[n := mkConnection endpoint now false true false]> (connections x)) (S n)).
(** The connection at an index of the pool, when it is free and healthy. *)
Definition use_connection (pid i : nat) (now : Z) (x : Pools) : option nat * Pools :=
  match pool_conns pid x !! i with
  | Some c =>
      match connections x !! c with
      | Some k => if negb (c_inUse k) && c_healthy k then (Some c, set_connections (<[c := in_use true now k]> (connections x)) x) else (None, x)
      | None => (None, x)
      end
  | None => (None, x)
  end.
Definition add_to_pool (pid c : nat) (busy : bool) (x : Pools) : unit * Pools :=
  (tt, set_connections (if busy then alter (fun k => in_use true (c_lastUsed k) k) c (connections x) else connections x)
         (set_store (alter (fun p => mkPool (p_locked p) (p_conns p ++ [c])) pid (store x)) x)).
Definition free_connection (c : nat) (now : Z) (x : Pools) : unit * Pools := (tt, set_connections (alter (in_use false now) c (connections x)) x).
Definition mark_unhealthy (c : nat) (x : Pools) : unit * Pools := (tt, set_connections (alter unhealthy c (connections x)) x).

Definition keep_connection (now idle : Z) (x : Pools) (c : nat) : bool :=
  match connections x !! c with Some k => c_inUse k || (c_healthy k && (time_sub now (c_lastUsed k) <? idle)) | None => false end.
Definition close_all (l : list nat) (m : gmap nat Connection) : gmap nat Connection := foldl (fun m c => alter closed c m) m l.
Definition cleanup_pool (pid : nat) (now idle : Z) (x : Pools) : unit * Pools :=
  let l := pool_conns pid x in
  (tt, set_connections (close_all (List.filter (fun c => negb (keep_connection now idle x c)) l) (connections x))
         (set_store (alter (fun p => mkPool (p_locked p) (List.filter (keep_connection now idle x) l)) pid (store x)) x)).
Definition empty_pool (pid : nat) (x : Pools) : unit * Pools :=
  (tt, set_connections (close_all (pool_conns pid x) (connections x)) (set_store (alter (fun p => mkPool (p_locked p) []) pid (store x)) x)).

Inductive label := Caller | Reader (c : nat) | Pinger (c : nat) | HealthLoop | Maintenance.
#[local] Notation cmd := (cmd Pools).
#[local] Notation P := (prog cmd label).
#[local] Notation next := (Goroutines.next label).

(** The index of the endpoint, from the value of the shared counter. *)
Definition endpoint_index (nextID count : Z) : Z := let r := nextID mod count in if 2 ^ 63 - 1 <? r then 0 else r.

Section WebSocket.
Context `{JSON} `{Direct.Sprintf}.
Variable name : string.
Variable config : Config.

(** *** Connections *)

Definition leave : P next := _ ← perform WgDone; mret Exit.

(** Parsing the URL and the handshake may fail. *)
Definition createConnection (endpoint : string) : P (result error nat) :=
  e ← perform Attempt;
  match e with
  | Some t => mret (Err (Wrap "dial" (External t)))
  | None =>
      now ← perform Now;
      c ← perform (Section_ _ (fun _ => true) (new_connection endpoint now) Some None);
      _ ← perform WgAdd;
      _ ← go (ticking (PingInterval config) (Pinger c));
      _ ← perform WgAdd;
      _ ← go (Ret (Again (Reader c)));
      mret (Ok c)
  end.

Definition lock_pool (pid : nat) : P unit := with_conns_when (unlocked pid) (hold true pid).
Definition unlock_pool (pid : nat) : P unit := with_conns (hold false pid).

Fixpoint create_initial (pid : nat) (endpoint : string) (n : nat) : P (option error) :=
  match n with
  | O => mret None
  | S n =>
      r ← createConnection endpoint;
      match r with
      | Err err => mret (Some (Wrap "failed to create initial connection" err))
      | Ok c => _ ← perform (Section_ _ (fun _ => true) (add_to_pool pid c false) (fun _ => None) (Some c)); create_initial pid endpoint n
      end
  end.
Definition initializePool (endpoint : string) (pid : nat) : P (option error) :=
  _ ← lock_pool pid;
  e ← create_initial pid endpoint (Z.to_nat (MinSize (ConnectionPool config)));
  _ ← unlock_pool pid;
  mret e.

Definition selectEndpoint : P Z := n ← perform NextID; mret (endpoint_index n (Z.of_nat (length (Endpoints config)))).

(** The first connection of the pool, from index [i], that can be used; [n]: how many are left. *)
Fixpoint available (pid n i : nat) : P (option nat) :=
  match n with
  | O => mret None
  | S n =>
      now ← perform Now;
      o ← perform (Section_ _ (fun _ => true) (use_connection pid i now) (fun a => a) None);
      match o with Some c => mret (Some c) | None => available pid n (S i) end
  end.

Definition getConnection : P (result error nat) :=
  match Endpoints config with
  | [] => mret (Err (New "no endpoints configured"))
  | endpoints =>
      i ← selectEndpoint;
      let endpoint := nth (Z.to_nat i) endpoints EmptyString in
      o ← with_conns (fun x => (pools x !! endpoint, x));
      match o with
      | None => mret (Err (CreateBackendUnavailableError "no pool for endpoint"))
      | Some pid =>
          _ ← lock_pool pid;
          size ← with_conns (fun x => (length (pool_conns pid x), x));
          a ← available pid size 0;
          r ← (match a with
               | Some c => mret (Ok c)
               | None =>
                   if Z.of_nat size <? MaxSize (ConnectionPool config) then
                     r ← createConnection endpoint;
                     match r with
                     | Err err => mret (Err err)
                     | Ok c => _ ← with_conns (add_to_pool pid c true); mret (Ok c)
                     end
                   else mret (Err (CreateBackendUnavailableError "no available connections"))
               end);
          _ ← unlock_pool pid;
          mret r
      end
  end.

Definition releaseConnection (c : nat) : P unit :=
  now ← perform Now; perform (Section_ _ (fun _ => true) (free_connection c now) (fun _ => None) (Some c)).

Definition markConnectionUnhealthy (c : nat) : P unit := with_conns (mark_unhealthy c).
Definition isConnectionHealthy (c : nat) : P bool :=
  with_conns (fun x => (match connections x !! c with Some k => c_healthy k | None => false end, x)).

(** *** Requests *)

Definition setupResponseChannel (id : string) : P nat := perform (Register id).
Definition cleanupResponseChannel (id : string) (ch : nat) : P unit := perform (Cleanup id ch).

Definition sendWebSocketRequest (c : nat) (q : Request) : P (option error) :=
  e ← (match Marshal_request q with Err t => mret (Some t) | Ok _ => perform (Write (Some c) q) end);
  match e with
  | Some t => _ ← markConnectionUnhealthy c; _ ← recordErrorMetric; mret (Some (Wrap "write" (External t)))
  | None => mret None
  end.

Definition waitForWebSocketResponse (ch : nat) : P (result error (option Response)) :=
  startTime ← perform Now; await_response (Timeout config) startTime ch.

(** [sendRequestInternal]. *)
Definition SendRequest (q : Request) : P (Request * result error (option Response)) :=
  p ← ensureRequestID name q;
  g ← getConnection;
  match g with
  | Err err => _ ← recordErrorMetric; mret (fst p, Err err)
  | Ok c =>
      ch ← setupResponseChannel (snd p);
      e ← sendWebSocketRequest c (fst p);
      r ← (match e with Some err => mret (Err err) | None => waitForWebSocketResponse ch end);
      _ ← (match r with Err _ => recordErrorMetric | Ok _ => mret tt end);
      _ ← cleanupResponseChannel (snd p) ch;
      _ ← releaseConnection c;
      mret (fst p, r)
  end.

(** *** The goroutines of a connection *)

(** [readAndRouteResponse]: whether to go on. *)
Definition readAndRouteResponse (c : nat) : P bool :=
  x ← perform Receive;
  match x with
  | RText d =>
      match Unmarshal_response d with
      | Ok r => _ ← routeResponse r; mret true
      | Err _ => _ ← markConnectionUnhealthy c; mret false
      end
  | REof | RError => _ ← markConnectionUnhealthy c; mret false
  end.

(** One round of [readResponses]. *)
Definition readResponses (c : nat) : P next :=
  s ← perform ShutdownSeen;
  if s : bool then leave
  else
    h ← isConnectionHealthy c;
    if negb h then leave
    else b ← readAndRouteResponse c; if b : bool then mret (Again (Reader c)) else leave.

(** One round of [pingRoutine]. *)
Definition pingRoutine (c : nat) : P next :=
  t ← perform Tick;
  match t with
  | TickShutdown => leave
  | Ticked =>
      h ← isConnectionHealthy c;
      _ ← (if h : bool then
             e ← perform Attempt;
             match e with Some _ => markConnectionUnhealthy c | None => mret tt end
           else mret tt);
      mret (Again (Pinger c))
  end.

(** *** Health and maintenance *)

(** The pools, in some order. *)
Definition all_pools : P (list nat) := with_conns (fun x => (map snd (map_to_list (pools x)), x)).

Definition has_healthy (pid : nat) (x : Pools) : bool :=
  existsb (fun c => match connections x !! c with Some k => c_healthy k | None => false end) (pool_conns pid x).
Fixpoint any_healthy (l : list nat) : P bool :=
  match l with
  | [] => mret false
  | pid :: l => h ← with_conns_when (unlocked pid) (fun x => (has_healthy pid x, x)); r ← any_healthy l; mret (h || r)
  end.

Definition Health : P (option error) :=
  v ← checkRunning;
  match v with
  | Some err => mret (Some err)
  | None =>
      l ← all_pools;
      h ← any_healthy l;
      now ← perform Now;
      if negb h then _ ← perform (Metric (checked false now)); mret (Some (CreateBackendUnavailableError "no healthy connections"))
      else _ ← perform (Metric (checked true now)); mret None
  end.

Definition healthCheckLoop : P next := health_round Health HealthLoop leave.

Fixpoint for_pools (l : list nat) (f : nat -> P unit) : P unit :=
  match l with [] => mret tt | pid :: l => _ ← f pid; for_pools l f end.

Definition cleanupIdleConnections : P unit :=
  l ← all_pools;
  for_pools l (fun pid => now ← perform Now; with_conns_when (unlocked pid) (cleanup_pool pid now (IdleTimeout (ConnectionPool config)))).

(** One round of [poolMaintenanceLoop]. *)
Definition poolMaintenanceLoop : P next :=
  t ← perform Tick;
  match t with
  | TickShutdown => leave
  | Ticked => _ ← cleanupIdleConnections; mret (Again Maintenance)
  end.

(** *** Start and Stop *)

(** A pool that cannot be filled is kept. *)
Fixpoint start_pools (l : list string) : P unit :=
  match l with
  | [] => mret tt
  | endpoint :: l => pid ← with_conns (new_pool endpoint); _ ← initializePool endpoint pid; start_pools l
  end.

Definition Start : P (option error) :=
  _ ← perform Lock;
  r ← perform Running;
  if r : bool then _ ← perform Unlock; mret (Some (New "backend already running"))
  else
    _ ← start_pools (Endpoints config);
    _ ← perform (SetRunning true);
    now ← perform Now;
    _ ← perform (Metric (connected_at now));
    _ ← (if Enabled (HealthCheck config) then _ ← perform WgAdd; go (ticking (Interval (HealthCheck config)) HealthLoop) else mret tt);
    _ ← perform WgAdd;
    _ ← go (ticking (30 * Second) Maintenance);
    _ ← perform Unlock;
    mret None.

Definition Stop : P (option error) :=
  _ ← perform Lock;
  r ← perform Running;
  if negb r then _ ← perform Unlock; mret None
  else
    _ ← perform CloseShutdown;
    l ← all_pools;
    _ ← for_pools l (fun pid => with_conns_when (unlocked pid) (empty_pool pid));
    done ← perform NewSignal;
    _ ← go (_ ← perform WgWait; _ ← perform (Raise done); mret Exit);
    x ← perform (Await done);
    match x with
    | AwaitCancelled t => _ ← perform Unlock; mret (Some (External t))
    | Raised | AwaitTimeout =>
        _ ← perform (SetRunning false);
        _ ← perform (Metric (set_healthy false));
        _ ← perform Unlock;
        mret None
    end.

(** *** The gateway's calls *)

Definition serve (c : call) : P next :=
  match c with
  | CSend q => p ← SendRequest q; _ ← perform (Return (fst p) (snd p)); mret Exit
  | CStart => _ ← Start; mret Exit
  | CStop => _ ← Stop; mret Exit
  | CHealth => _ ← Health; mret Exit
  end.
Definition calls : P next := c ← perform Call; _ ← go (serve c); mret (Again Caller).

Definition body (l : label) : P next :=
  match l with
  | Caller => calls | Reader c => readResponses c | Pinger c => pingRoutine c | HealthLoop => healthCheckLoop | Maintenance => poolMaintenanceLoop
  end.

(** A fresh backend, and goroutines that call it. *)
Definition running_backend (w : world cmd (State Pools) label) : Prop :=
  st w = fresh_backend no_pools /\ panicked w = false /\ forall t p, tasks w !! t = Some p -> p = Ret (Again Caller).

(** ** The connections that belong to someone

    A connection is taken when it is in use or in no pool. *)
Definition in_pool (x : Pools) (c : nat) : Prop := map_Exists (fun _ p => c ∈ p_conns p) (store x).
#[global] Instance in_pool_dec x c : Decision (in_pool x c).
Proof. unfold in_pool. apply _. Defined.

Definition taken (x : Pools) : gset nat := dom (filter (fun kv => c_inUse kv.2 = true \/ ~ in_pool x kv.1) (connections x)).

(** References are given out once. *)
Record pools_ok (x : Pools) : Prop := {
  ok_conns c : (next_ref x <= c)%nat -> connections x !! c = None;
  ok_pooled c : in_pool x c -> (c < next_ref x)%nat }.

Lemma elem_of_taken x c : c ∈ taken x <-> exists k, connections x !! c = Some k /\ (c_inUse k = true \/ ~ in_pool x c).
Proof.
  unfold taken. rewrite elem_of_dom. split.
  - intros [k Hk]. apply map_lookup_filter_Some in Hk as [Hk Hc]. by exists k.
  - intros (k & Hk & Hc). exists k. by apply map_lookup_filter_Some.
Qed.

Lemma in_pool_spec x c : in_pool x c <-> exists pid p, store x !! pid = Some p /\ c ∈ p_conns p.
Proof. done. Qed.

Lemma pool_conns_in x pid i c : pool_conns pid x !! i = Some c -> in_pool x c.
Proof.
  unfold pool_conns. destruct (store x !! pid) as [p|] eqn:E; [|done]. intros Hc. exists pid, p. split; [done|]. by eapply list_elem_of_lookup_2.
Qed.

(** Fewer connections in pools, none of them freed: more are taken. *)
Lemma taken_grows x y :
  (forall c k, connections x !! c = Some k -> exists k', connections y !! c = Some k' /\ (c_inUse k = true -> c_inUse k' = true)) ->
  (forall c, in_pool y c -> in_pool x c) -> taken x ⊆ taken y.
Proof.
  intros Hc Hp c. rewrite !elem_of_taken. intros (k & Hk & Ht). destruct (Hc c k Hk) as (k' & Hk' & Hu). exists k'. split; [done|].
  destruct Ht as [Ht|Ht]; [left; by apply Hu|right; by intros Hi%Hp].
Qed.

Lemma in_pool_store x y c : store y = store x -> in_pool y c <-> in_pool x c.
Proof. intros E. unfold in_pool. by rewrite E. Qed.

(** The pools change by an update of one of them. *)
Lemma in_pool_alter x y pid f c :
  store y = alter f pid (store x) -> (forall p, c ∈ p_conns (f p) -> c ∈ p_conns p) -> in_pool y c -> in_pool x c.
Proof.
  intros Es Hf (q & p & Hp & Hc). rewrite Es in Hp. apply lookup_alter_Some in Hp as [(E1 & p0 & Hp0 & ->)|[_ Hp]]; [exists q, p0; subst|exists q, p]; auto.
Qed.

Lemma alter_some {V} (f : V -> V) (m : gmap nat V) i j v : m !! j = Some v -> alter f i m !! j = Some (if decide (i = j) then f v else v).
Proof. intros Hv. destruct (decide (i = j)) as [->|Hn]; [by rewrite lookup_alter_eq, Hv|by rewrite lookup_alter_ne by done]. Qed.

Lemma close_all_some l m c k : m !! c = Some k -> exists k', close_all l m !! c = Some k' /\ c_inUse k' = c_inUse k.
Proof.
  revert m k. induction l as [|d l IH]; cbn; intros m k Hk; [by exists k|].
  destruct (IH (alter closed d m) _ (alter_some closed m d c k Hk)) as (k' & Hk' & Hu). exists k'. split; [done|]. rewrite Hu. by destruct (decide _).
Qed.
Lemma close_all_none l m c : m !! c = None -> close_all l m !! c = None.
Proof. revert m. induction l as [|d l IH]; cbn; intros m Hk; [done|]. apply IH. by rewrite lookup_alter_None. Qed.

(** *** The critical sections *)

#[local] Notation keeps f := (BackendDiscipline.keeps pools_ok taken (fun _ => true) f).
#[local] Notation keeps_when ready f := (BackendDiscipline.keeps pools_ok taken ready f).

Lemma pools_read {A} (f : Pools -> A * Pools) ready : (forall x, snd (f x) = x) -> keeps_when ready f.
Proof. intros Hf x Hx _. by rewrite Hf. Qed.

Lemma keeps_hold b pid ready : keeps_when ready (hold b pid).
Proof.
  intros x [J1 J2] _. assert (forall c, in_pool (snd (hold b pid x)) c -> in_pool x c) as Hp by (intros c; by eapply in_pool_alter).
  split; [split; cbn; [done|intros c Hc; by apply J2, Hp]|]. apply taken_grows; [intros c k Hk; by exists k|done].
Qed.

Lemma keeps_new_pool endpoint : keeps (new_pool endpoint).
Proof.
  intros x [J1 J2] _. assert (forall c, in_pool (snd (new_pool endpoint x)) c -> in_pool x c) as Hp.
  { intros c (q & p & Hq & Hc). cbn in Hq. apply lookup_insert_Some in Hq as [[<- <-]|[_ Hq]]; [by apply not_elem_of_nil in Hc|by exists q, p]. }
  split; [split; cbn; [intros c Hc; apply J1; lia|intros c Hc%Hp%J2; lia]|]. apply taken_grows; [intros c k Hk; by exists k|done].
Qed.

(** The flags of a connection change, not whether it is in use. *)
Lemma keeps_flags c (f : Connection -> Connection) : (forall k, c_inUse (f k) = c_inUse k) -> keeps (fun x => (tt, set_connections (alter f c (connections x)) x)).
Proof.
  intros Hf x [J1 J2] _. split; [split; cbn; [intros d Hd; rewrite lookup_alter_None; by apply J1|done]|].
  apply taken_grows; [|done]. intros d k Hk. cbn. rewrite (alter_some f _ c d k Hk). eexists. split; [done|]. destruct (decide _); rewrite ?Hf; auto.
Qed.

Lemma keeps_shrink ready pid (l : Pools -> list nat) (g : Pools -> list nat -> list nat) :
  (forall x l0 c, c ∈ g x l0 -> c ∈ l0) ->
  keeps_when ready (fun x => (tt, set_connections (close_all (l x) (connections x)) (set_store (alter (fun p => mkPool (p_locked p) (g x (p_conns p))) pid (store x)) x))).
Proof.
  intros Hg x [J1 J2] _. cbn [snd].
  assert (forall c, in_pool (set_connections (close_all (l x) (connections x)) (set_store (alter (fun p => mkPool (p_locked p) (g x (p_conns p))) pid (store x)) x)) c -> in_pool x c) as Hp.
  { intros c. eapply in_pool_alter; [done|]. cbn. intros p. apply Hg. }
  split; [split; cbn; [intros c Hc; by apply close_all_none, J1|intros c Hc; by apply J2, Hp]|]. apply taken_grows; [|done].
  intros c k Hk. cbn. destruct (close_all_some (l x) _ c k Hk) as (k' & Hk' & Hu). exists k'. by rewrite Hu.
Qed.

Lemma keeps_empty_pool ready pid : keeps_when ready (empty_pool pid).
Proof. apply (keeps_shrink ready pid (pool_conns pid) (fun _ _ => [])). intros x l c Hc. by apply not_elem_of_nil in Hc. Qed.

Lemma cleanup_pool_spec pid now idle x :
  cleanup_pool pid now idle x =
    (tt, set_connections (close_all (List.filter (fun c => negb (keep_connection now idle x c)) (pool_conns pid x)) (connections x))
           (set_store (alter (fun p => mkPool (p_locked p) (List.filter (keep_connection now idle x) (p_conns p))) pid (store x)) x)).
Proof.
  unfold cleanup_pool. cbn zeta. do 2 f_equal. unfold set_store. f_equal. apply map_eq. intros q. destruct (decide (pid = q)) as [<-|Hn]; [|by rewrite !lookup_alter_ne].
  rewrite !lookup_alter_eq. unfold pool_conns. by destruct (store x !! pid).
Qed.

Lemma keeps_cleanup_pool ready pid now idle : keeps_when ready (cleanup_pool pid now idle).
Proof.
  intros x Hx Hr. rewrite cleanup_pool_spec.
  apply (keeps_shrink ready pid (fun x => List.filter (fun c => negb (keep_connection now idle x c)) (pool_conns pid x))
           (fun x => List.filter (keep_connection now idle x)) ltac:(intros y l c Hc; apply list_elem_of_In in Hc; apply List.filter_In in Hc as [Hc _]; by apply list_elem_of_In) x Hx Hr).
Qed.

#[local] Notation section_ok f gain lose e := (BackendDiscipline.section_ok pools_ok taken (fun _ => true) f gain lose e).

Lemma section_new_connection endpoint now e : section_ok (new_connection endpoint now) Some None e.
Proof.
  split; [cbn; set_solver|]. intros x [J1 J2] _ _. cbn [only new_connection fst snd]. set (n := next_ref x). pose proof (J1 n (le_n _)) as Hn.
  assert (n ∉ taken x) as Hnt by (rewrite elem_of_taken; intros (k & Hk & _); congruence). split_and!.
  - split; cbn; [intros c Hc; rewrite lookup_insert_ne by lia; apply J1; lia|intros c Hc%J2; lia].
  - set_solver.
  - transitivity (taken x); [set_solver|]. apply taken_grows; [|done]. intros c k Hk. exists k. cbn. by rewrite lookup_insert_ne by congruence.
  - apply singleton_subseteq_l, elem_of_taken. eexists. cbn. rewrite lookup_insert_eq. split; [done|]. right. intros Hp%J2. subst n. lia.
Qed.

Lemma section_use_connection pid i now e : section_ok (use_connection pid i now) (fun a => a) None e.
Proof.
  split; [cbn; set_solver|]. intros x Hx _ _. destruct Hx as [J1 J2]. unfold use_connection.
  destruct (pool_conns pid x !! i) as [c|] eqn:Ei; [|cbn; split_and!; [done|set_solver..]].
  destruct (connections x !! c) as [k|] eqn:Ec; [|cbn; split_and!; [done|set_solver..]].
  destruct (negb (c_inUse k) && c_healthy k) eqn:Eu; [|cbn; split_and!; [done|set_solver..]]. apply andb_prop in Eu as [Eu%negb_true_iff _]. cbn [only fst snd].
  split_and!.
  - split; cbn; [|done]. intros d Hd. rewrite lookup_insert_ne; [by apply J1|]. intros <-. by rewrite J1 in Ec.
  - assert (c ∉ taken x); [|set_solver]. rewrite elem_of_taken. intros (k' & Hk' & [Hu|Hp]); [congruence|]. by apply Hp, (pool_conns_in x pid i).
  - transitivity (taken x); [set_solver|]. apply taken_grows; [|done]. intros d k' Hk'. cbn. destruct (decide (c = d)) as [<-|Hn].
    + rewrite lookup_insert_eq. eexists. split; [done|]. done.
    + rewrite lookup_insert_ne by done. by exists k'.
  - apply singleton_subseteq_l, elem_of_taken. eexists. cbn. rewrite lookup_insert_eq. split; [done|]. by left.
Qed.

Lemma section_add_to_pool pid c (busy : bool) e :
  c ∈ tokens e -> section_ok (add_to_pool pid c busy) (fun _ => None) (if busy then None else Some c) e.
Proof.
  intros Hc. split; [destruct busy; cbn; set_solver|]. intros x Hx _ Ht. destruct Hx as [J1 J2]. cbn [only].
  destruct (proj1 (elem_of_taken _ _) (Ht _ Hc)) as (k0 & Hk0 & _).
  assert (forall d, in_pool (snd (add_to_pool pid c busy x)) d -> in_pool x d \/ d = c) as Hp.
  { intros d (q & p & Hq & Hd). cbn in Hq. apply lookup_alter_Some in Hq as [(E1 & p0 & Hp0 & ->)|[_ Hq]]; [subst|left; by exists q, p].
    cbn in Hd. apply elem_of_app in Hd as [Hd| ->%list_elem_of_singleton]; [left; by exists q, p0|by right]. }
  split_and!.
  - split; cbn; [intros d Hd; destruct busy; rewrite ?lookup_alter_None; by apply J1|]. intros d [Hd| ->]%Hp; [by apply J2|].
    destruct (decide (c < next_ref x)%nat); [done|]. rewrite J1 in Hk0 by lia. done.
  - set_solver.
  - intros d. rewrite elem_of_difference, !elem_of_taken. intros [(k & Hk & Hu) Hl]. cbn [snd add_to_pool connections set_connections]. destruct busy.
    + rewrite (alter_some _ _ c d k Hk). eexists. split; [done|]. destruct (decide (c = d)) as [->|Hn]; [by left|]. destruct Hu as [Hu|Hu]; [by left|right].
      by intros [Hd| ->]%Hp.
    + exists k. split; [done|]. destruct Hu as [Hu|Hu]; [by left|right]. intros [Hd| ->]%Hp; [done|]. cbn in Hl. set_solver.
  - set_solver.
Qed.

Lemma section_free_connection c now e : c ∈ tokens e -> section_ok (free_connection c now) (fun _ => None) (Some c) e.
Proof.
  intros Hc. split; [cbn; set_solver|]. intros x [J1 J2] _ _. cbn [only]. split_and!.
  - split; cbn; [intros d Hd; rewrite lookup_alter_None; by apply J1|done].
  - set_solver.
  - intros d. rewrite elem_of_difference, !elem_of_taken. intros [(k & Hk & Hu) Hl]. exists k. split; [|done]. cbn. rewrite lookup_alter_ne; [done|]. set_solver.
  - set_solver.
Qed.

(** ** Typing *)

Definition shares (l : label) : Z := match l with Caller => 0 | _ => 1 end.
Definition rights (l : label) : Z := 0.
Definition ticks (d : Z) : Prop :=
  d = PingInterval config \/ d = 30 * Second \/ (Enabled (HealthCheck config) = true /\ d = Interval (HealthCheck config)).

#[local] Notation Pre := (pre Unmarshal_response pools_ok taken ticks).
#[local] Notation Post := (post false).
#[local] Notation Valid := (valid pools_ok).
#[local] Notation WP p e Q := (wp Pre Valid Post split exit_ok (label_env shares rights) p e Q).
#[local] Notation OK p e := (goroutine_ok Pre Valid Post split exit_ok (label_env shares rights) p e).

Lemma bw_with_conns {A} `{EqDecision A} ready (f : Pools -> A * Pools) b n c g e (Q : A -> env -> Prop) :
  stands b n c g e -> keeps_when ready f -> (forall a e', stands b n c g e' -> Q a e') -> WP (with_conns_when ready f) e Q.
Proof. intros He Hf Hk. apply b_with_conns; [done|]. intros a e' _ ->. apply Hk. by apply b_stands_same. Qed.

Lemma bw_lock pid b n c g e (Q : unit -> env -> Prop) : stands b n c g e -> (forall e', stands b n c g e' -> Q tt e') -> WP (lock_pool pid) e Q.
Proof. intros He Hk. eapply bw_with_conns; [exact He|apply keeps_hold|]. intros []. apply Hk. Qed.
Lemma bw_unlock pid b n c g e (Q : unit -> env -> Prop) : stands b n c g e -> (forall e', stands b n c g e' -> Q tt e') -> WP (unlock_pool pid) e Q.
Proof. intros He Hk. eapply bw_with_conns; [exact He|apply keeps_hold|]. intros []. apply Hk. Qed.

Lemma bw_mark c b n r g e : stands b n r g e -> WP (markConnectionUnhealthy c) e (fun _ e' => stands b n r g e').
Proof. intros He. eapply bw_with_conns; [exact He|by apply keeps_flags|]. by intros. Qed.

Lemma bw_healthy c b n r g e : stands b n r g e -> WP (isConnectionHealthy c) e (fun _ e' => stands b n r g e').
Proof. intros He. eapply bw_with_conns; [exact He|by apply pools_read|]. by intros. Qed.

Lemma bw_createConnection endpoint b n c e :
  stands b n c ∅ e -> 0 <= n -> 0 <= c -> WP (createConnection endpoint) e (fun r e' => stands b n c (match r with Ok k => {[k]} | Err _ => ∅ end) e').
Proof.
  intros He Hn Hc. unfold createConnection. b_walk. b_branch; b_walk; [done|].
  eapply b_Section_rule; [exact He|apply section_new_connection|]. intros k e1 _ He1. replace (∅ ∖ only None ∪ only (Some k)) with ({[k]} : gset nat) in He1 by (apply leibniz_equiv; cbn; set_solver).
  b_walk. eapply b_go with (m := 1) (d := 0); [eassumption|lia|lia|apply b_ticking; [by left|done|done]|]. intros e3 He3. b_walk.
  eapply b_go with (m := 1) (d := 0); [eassumption|lia|lia|by apply b_loop|]. intros e5 He5. b_walk.
  by replace n with (n + 1 - 1 + 1 - 1) by lia; replace c with (c - 0 - 0) by lia.
Qed.

Lemma bw_create_initial pid endpoint m b n c e :
  stands b n c ∅ e -> 0 <= n -> 0 <= c -> WP (create_initial pid endpoint m) e (fun _ e' => stands b n c ∅ e').
Proof.
  revert e. induction m as [|m IH]; cbn [create_initial]; intros e He Hn Hc; b_walk; [done|].
  eapply wp_mono; [by apply bw_createConnection|]. intros r e1 He1. destruct r as [k|err]; b_walk; [|done].
  eapply b_Section_rule; [exact He1|apply section_add_to_pool; by destruct He1 as [? ? ? ? ->]; set_solver|]. intros a e2 _ He2. apply IH; [|done|done].
  by replace (∅ : gset nat) with ({[k]} ∖ only (Some k) ∪ only None : gset nat) by (apply leibniz_equiv; cbn; set_solver).
Qed.

Lemma bw_available pid m i b n c e :
  stands b n c ∅ e -> WP (available pid m i) e (fun o e' => stands b n c (only o) e').
Proof.
  revert i e. induction m as [|m IH]; cbn [available]; intros i e He; b_walk; [done|].
  eapply b_Section_rule; [exact He|apply section_use_connection|]. intros a e1 _ He1. destruct a as [k|]; b_walk.
  - by replace (only (Some k)) with (∅ ∖ only None ∪ only (Some k) : gset nat) by (apply leibniz_equiv; cbn; set_solver).
  - apply IH. by replace (∅ : gset nat) with (∅ ∖ only None ∪ only None : gset nat) by (apply leibniz_equiv; cbn; set_solver).
Qed.

Lemma bw_getConnection n c e :
  stands false n c ∅ e -> 0 <= n -> 0 <= c -> WP getConnection e (fun r e' => stands false n c (match r with Ok k => {[k]} | Err _ => ∅ end) e').
Proof.
  intros He Hn Hc. unfold getConnection. destruct (Endpoints config) as [|ep eps]; [by b_walk|]. unfold selectEndpoint. b_walk. cbn zeta.
  eapply bw_with_conns; [exact He|by apply pools_read|]. intros o e1 He1. b_branch; b_walk; [|done].
  eapply bw_lock; [exact He1|]. intros e2 He2. b_walk. eapply bw_with_conns; [exact He2|by apply pools_read|]. intros size e3 He3. b_walk.
  eapply wp_mono; [by apply bw_available|]. intros a e4 He4. b_walk.
  eapply wp_mono with (Q := fun r e' => stands false n c (match r with Ok k => {[k]} | Err _ => ∅ end) e').
  { destruct a as [k|]; b_walk; [done|]. b_branch; b_walk; [|done]. eapply wp_mono; [by apply bw_createConnection|]. intros r e5 He5. destruct r as [k|err]; b_walk; [|done].
    eapply b_Section_rule; [exact He5|apply (section_add_to_pool n0 k true); by destruct He5 as [? ? ? ? ->]; set_solver|]. intros u e6 _ He6. b_walk.
    by replace ({[k]} : gset nat) with ({[k]} ∖ only None ∪ only None : gset nat) by (apply leibniz_equiv; cbn; set_solver). }
  intros r e5 He5. b_walk. eapply bw_unlock; [exact He5|]. intros e6 He6. by b_walk.
Qed.

Lemma bw_releaseConnection k n c e : stands false n c {[k]} e -> WP (releaseConnection k) e (fun _ e' => stands false n c ∅ e').
Proof.
  intros He. unfold releaseConnection. b_walk. eapply b_Section_rule; [exact He|apply section_free_connection; by destruct He as [? ? ? ? ->]; set_solver|].
  intros a e1 _ He1. by replace (∅ : gset nat) with ({[k]} ∖ only (Some k) ∪ only None : gset nat) by (apply leibniz_equiv; cbn; set_solver).
Qed.

(** With a request of its own. *)
Lemma bw_sendWebSocketRequest k q e :
  k ∈ tokens e ->
  WP (sendWebSocketRequest k q) e (fun _ e' => own e' = own e /\ mu e' = mu e /\ owed e' = owed e /\ closer e' = closer e /\ tokens e' = tokens e).
Proof.
  intros Hk. unfold sendWebSocketRequest. b_walk.
  eapply wp_mono with (Q := fun _ e' => e' = e); [b_branch; [by apply wp_perform|by b_walk]|]. intros y e' ->. b_branch; b_walk; [|done].
  apply b_with_conns; [by apply keeps_flags|]. intros a e' _ ->. by b_walk.
Qed.

Lemma bw_SendRequest q n c e :
  stands false n c ∅ e -> 0 <= n -> 0 <= c ->
  WP (SendRequest q) e (fun r e' => stands false n c ∅ e' /\ forall a, snd r = Ok a -> exists b, a = Some b /\ (Direct.id_text (req_ID (fst r)), b) ∈ got e').
Proof.
  intros He Hn Hc. unfold SendRequest, setupResponseChannel, cleanupResponseChannel, waitForWebSocketResponse. b_walk.
  apply b_ensureRequestID. intros [q' id] Hid. cbn in Hid. subst id. b_walk. eapply wp_mono; [by apply bw_getConnection|]. intros g e1 He1.
  destruct g as [k|err]; b_walk; [|done]. destruct He1 as [J1 J2 J3 J4 J5]. apply wp_perform; [done|]. intros ch _. b_walk.
  eapply wp_mono; [apply bw_sendWebSocketRequest; cbn; set_solver|]. intros s e2 (G1 & G2 & G3 & G4 & G5). cbn in G1, G2, G3, G4, G5. b_walk.
  eapply wp_mono with (Q := fun r e' => own e' = Some (Direct.id_text (req_ID q'), ch) /\ mu e' = false /\ owed e' = n /\ closer e' = c /\ tokens e' = {[k]} /\
    forall a, r = Ok a -> exists b, a = Some b /\ (Direct.id_text (req_ID q'), b) ∈ got e').
  { b_branch; b_walk; [split_and!; congruence || done|]. eapply b_await_response; [exact G1|]. intros y e' H1 H2 H3 H4 H5 H6. cbn in *. split_and!; congruence || done. }
  intros y e3 (H1 & H2 & H3 & H4 & H5 & H6). b_walk. eapply wp_mono with (Q := fun _ e' => e' = e3); [b_branch; by b_walk|]. intros ? e' ->. b_walk.
  apply wp_perform; [done|]. intros ? _. cbn [post]. b_walk.
  eapply wp_mono with (Q := fun _ e' => stands false n c ∅ e' /\ got e' = got e3); [|intros ? e4 [He4 Hg]; b_walk; cbn; by rewrite Hg].
  unfold releaseConnection. b_walk. apply wp_perform; [apply section_free_connection; cbn; rewrite H5; set_solver|]. intros u _. cbn. split; [|done]. split; cbn; try done.
  rewrite H5. apply leibniz_equiv. set_solver.
Qed.

Lemma bw_all_pools b n c g e (Q : list nat -> env -> Prop) : stands b n c g e -> (forall l e', stands b n c g e' -> Q l e') -> WP all_pools e Q.
Proof. intros He Hk. eapply bw_with_conns; [exact He|by apply pools_read|]. exact Hk. Qed.

Lemma bw_any_healthy l n c g e : stands false n c g e -> WP (any_healthy l) e (fun _ e' => stands false n c g e').
Proof.
  revert e. induction l as [|pid l IH]; cbn [any_healthy]; intros e He; b_walk; [done|].
  eapply bw_with_conns; [exact He|by apply pools_read|]. intros h e1 He1. b_walk. eapply wp_mono; [by apply IH|]. intros r e2 He2. by b_walk.
Qed.

Lemma bw_Health n c g e : stands false n c g e -> WP Health e (fun _ e' => stands false n c g e').
Proof.
  intros He. unfold Health. b_walk. b_branch; b_walk; [done|]. eapply bw_all_pools; [exact He|]. intros l e1 He1. b_walk.
  eapply wp_mono; [by apply bw_any_healthy|]. intros h e2 He2. b_walk. b_branch; by b_walk.
Qed.

Lemma bw_leave e : stands false 1 0 ∅ e -> OK leave e.
Proof. intros He. unfold leave, goroutine_ok. b_walk. b_end. Qed.

Lemma bw_healthCheckLoop : OK healthCheckLoop (holding 1 0).
Proof.
  pose proof (b_stands_holding 1 0) as He. unfold healthCheckLoop, health_round, goroutine_ok. b_walk. b_branch; [b_walk|by apply bw_leave].
  eapply wp_mono; [by apply bw_Health|]. intros ? e1 He1. b_walk. b_end.
Qed.

Lemma bw_for_pools l f b n c g e :
  (forall pid e, stands b n c g e -> WP (f pid) e (fun _ e' => stands b n c g e')) -> stands b n c g e -> WP (for_pools l f) e (fun _ e' => stands b n c g e').
Proof.
  intros Hf. revert e. induction l as [|pid l IH]; cbn [for_pools]; intros e He; b_walk; [done|]. eapply wp_mono; [by apply Hf|]. intros ? e1 He1. by apply IH.
Qed.

Lemma bw_poolMaintenanceLoop : OK poolMaintenanceLoop (holding 1 0).
Proof.
  pose proof (b_stands_holding 1 0) as He. unfold poolMaintenanceLoop, cleanupIdleConnections, goroutine_ok. b_walk. b_branch; [b_walk|by apply bw_leave].
  eapply bw_all_pools; [exact He|]. intros l e1 He1. eapply wp_mono; [apply (bw_for_pools l _ false 1 0 ∅); [|exact He1]|intros ? e2 He2; b_walk; b_end].
  intros pid e2 He2. b_walk. eapply bw_with_conns; [exact He2|apply keeps_cleanup_pool|]. by intros.
Qed.

Lemma bw_readResponses k : OK (readResponses k) (holding 1 0).
Proof.
  pose proof (b_stands_holding 1 0) as He. unfold readResponses, readAndRouteResponse, goroutine_ok. b_walk. b_branch; [by apply bw_leave|]. b_walk.
  eapply wp_mono; [by apply bw_healthy|]. intros h e1 He1. b_branch; [by apply bw_leave|]. b_walk. eapply b_Receive_rule; [exact He1|]. intros y e2 He2 Ht.
  eapply wp_mono with (Q := fun _ e' => stands false 1 0 ∅ e'); [|intros b e3 He3; b_branch; [b_walk; b_end|by apply bw_leave]].
  destruct y as [d| |]; b_walk; [|by (eapply wp_mono; [by apply bw_mark|]; intros ? ? ?; b_walk)..].
  b_branch; b_walk; [eapply b_routeResponse; [by apply Ht|done|]; by b_walk|]. eapply wp_mono; [by apply bw_mark|]. intros ? ? ?. by b_walk.
Qed.

Lemma bw_pingRoutine k : OK (pingRoutine k) (holding 1 0).
Proof.
  pose proof (b_stands_holding 1 0) as He. unfold pingRoutine, goroutine_ok. b_walk. b_branch; [b_walk|by apply bw_leave].
  eapply wp_mono; [by apply bw_healthy|]. intros h e1 He1. b_walk. eapply wp_mono with (Q := fun _ e' => stands false 1 0 ∅ e'); [|intros ? e2 He2; b_walk; b_end].
  b_branch; b_walk; [|done]. b_branch; [by apply bw_mark|by b_walk].
Qed.

Lemma bw_start_pools l n c e : stands true n c ∅ e -> 0 <= n -> 0 <= c -> WP (start_pools l) e (fun _ e' => stands true n c ∅ e').
Proof.
  revert e. induction l as [|ep l IH]; cbn [start_pools]; intros e He Hn Hc; b_walk; [done|]. eapply bw_with_conns; [exact He|apply keeps_new_pool|]. intros pid e1 He1.
  unfold initializePool. b_walk. eapply bw_lock; [exact He1|]. intros e2 He2. b_walk. eapply wp_mono; [by apply bw_create_initial|]. intros r e3 He3. b_walk.
  eapply bw_unlock; [exact He3|]. intros e4 He4. b_walk. by apply IH.
Qed.

Lemma bw_Start e : stands false 0 0 ∅ e -> WP Start e (fun _ e' => stands false 0 0 ∅ e').
Proof.
  intros He. unfold Start. b_walk. b_branch; b_walk; [done|]. eapply wp_mono; [by apply bw_start_pools|]. intros ? e1 He1. cbn beta in He1. b_walk. cbn [andb] in *.
  eapply wp_mono with (Q := fun _ e' => stands true 0 0 ∅ e').
  { b_branch; b_walk; [|done]. eapply b_go with (m := 1) (d := 0); [eassumption|lia|lia|apply b_ticking; [by right; right|done|done]|]. by intros e3 He3. }
  intros ? e3 He3. b_walk. eapply b_go with (m := 1) (d := 0); [eassumption|lia|lia|apply b_ticking; [by right; left|done|done]|]. intros e4 He4. cbn in He4. by b_walk.
Qed.

Lemma bw_Stop e : stands false 0 0 ∅ e -> WP Stop e (fun _ e' => stands false 0 0 ∅ e').
Proof.
  intros He. unfold Stop. b_walk. b_branch; b_walk; [done|]. eapply bw_all_pools; [eassumption|]. intros l e1 He1. b_walk.
  eapply wp_mono; [apply (bw_for_pools l _ true 0 0 ∅); [|exact He1]|].
  { intros pid e2 He2. eapply bw_with_conns; [exact He2|apply keeps_empty_pool|]. by intros. }
  intros ? e2 He2. cbn beta in He2. b_walk.
  eapply b_go with (m := 0) (d := 0); [eassumption|lia|lia|unfold goroutine_ok; pose proof (b_stands_holding 0 0); b_walk; b_end|]. intros e3 He3. b_walk. cbn in He3.
  b_branch; by b_walk.
Qed.

Lemma bw_calls : OK calls nothing.
Proof.
  pose proof (b_stands_holding 0 0 : stands false 0 0 ∅ nothing) as He. unfold calls, goroutine_ok. b_walk.
  eapply b_go with (m := 0) (d := 0); [exact He|lia|lia| |intros e1 He1; b_walk; b_end]. change (holding 0 0) with nothing. unfold goroutine_ok.
  destruct x as [q| | |]; cbn [serve]; b_walk.
  - eapply wp_mono; [by apply bw_SendRequest|]. intros [q' r] e1 [He1 Hr]. cbn [fst snd] in *. b_walk. apply wp_perform; [|intros ? _; cbn [post]; b_walk; b_end].
    destruct r as [a|]; [|done]. destruct (Hr a eq_refl) as (b & -> & Hb). exact Hb.
  - eapply wp_mono; [by apply bw_Start|]. intros ? e1 He1. b_walk. b_end.
  - eapply wp_mono; [by apply bw_Stop|]. intros ? e1 He1. b_walk. b_end.
  - eapply wp_mono; [by apply bw_Health|]. intros ? e1 He1. b_walk. b_end.
Qed.

#[local] Notation ws_reachable w0 w := (reachable exec panics body (fun _ _ => False) w0 w).

Lemma no_pools_ok : pools_ok no_pools.
Proof. split; [done|]. by intros c (q & p & Hq & _). Qed.

Lemma bw_typed w0 w : running_backend w0 -> ws_reachable w0 w ->
  typed panics (Inv Unmarshal_response pools_ok taken false) Pre Valid Post split exit_ok (label_env shares rights) crash w.
Proof.
  intros (Hs & Hp & Ht) Hr. eapply sound; [| |exact Hr].
  - apply backend_rules. intros []; [apply bw_calls|apply bw_readResponses|apply bw_pingRoutine|apply bw_healthCheckLoop|apply bw_poolMaintenanceLoop].
  - destruct w0 as [s ts pn]. cbn in *. subst. apply backend_typed_start; [apply no_pools_ok|]. intros t p Hin. rewrite (Ht t p Hin). apply b_goes_on. by split.
Qed.

(** ** Every interleaving *)

(** Whatever the interleaving of requests, reads, pings, health checks, maintenance, starts and stops, a request to the WebSocket
    backend that ends without an error is answered by a response that was read from one of its connections, whose id is the
    text of the request's id. *)
Lemma ws_backend_responses_match w0 w q r :
  running_backend w0 -> ws_reachable w0 w -> (q, Ok r) ∈ answers (log (st w)) ->
  exists a d, r = Some a /\ d ∈ heard (log (st w)) /\ Unmarshal_response d = Ok a /\ resp_ID a = JString (Direct.id_text (req_ID q)).
Proof.
  intros H0' Hr Ha. destruct (backend_typed_response _ _ _ _ _ _ _ _ _ _ (bw_typed _ _ H0' Hr) Ha) as (a & -> & d & Hd & Hu & Hi). by exists a, d.
Qed.

(** The connection to which a goroutine is about to write a request. *)
Definition writing_to (p : P next) : option nat :=
  match p with Do c _ => match c with Write o _ => o | _ => None end | _ => None end.

(** C14: Whatever the interleaving, the pool gives a connection to one request at a time: no two goroutines are about to write
    requests to the same connection. *)
Theorem ws_connection_exclusive w0 w t t' p p' c :
  running_backend w0 -> ws_reachable w0 w -> tasks w !! t = Some p -> tasks w !! t' = Some p' ->
  writing_to p = Some c -> writing_to p' = Some c -> t = t'.
Proof.
  intros H0' Hr Hp Hp' Hc Hc'. destruct p as [|X x k|]; try done. destruct x; try done.
  destruct p' as [|X' x' k'|]; try done. destruct x'; try done. cbn in Hc, Hc'. subst.
  eapply typed_exclusive; [by apply (bw_typed w0)|exact Hp|exact Hp'].
Qed.

(** Whatever the interleaving, the WebSocket backend can stop the gateway only in a Stop that signals a shutdown that was
    signalled before, or by making the ticker of a connection's pings, or of enabled health checks, whose interval is not
    positive. *)
Lemma ws_backend_panics w0 w :
  running_backend w0 -> ws_reachable w0 w -> panicked w = true ->
  exists t, (exists k, tasks w !! t = Some (Do CloseShutdown k) /\ shutdownCh (st w) = true) \/
            (exists k, tasks w !! t = Some (Do (NewTicker (PingInterval config)) k) /\ PingInterval config <= 0) \/
            (exists k, tasks w !! t = Some (Do (NewTicker (Interval (HealthCheck config))) k) /\
               Enabled (HealthCheck config) = true /\ Interval (HealthCheck config) <= 0).
Proof.
  intros H0' Hr Hp. destruct (backend_typed_panic _ _ _ _ _ _ _ _ (bw_typed _ _ H0' Hr) Hp) as (t & [Hc|[(k & Ht & Hd & ? & Hs)|(d & k & Ht & [-> |[-> |[He ->]]] & Hd)]]);
    [exists t; by left|done|exists t; right; left; by exists k|by unfold Second in Hd|exists t; right; right; by exists k].
Qed.

End WebSocket.
(** ** Runs *)

#[local] Existing Instance Codec.codec.
#[local] Instance sample_printf : Direct.Sprintf := fun _ => "?"%string.

Definition sample_config : Config :=
  applyDefaultConfig (mkConfig ["ws://a"%string; "ws://b"%string] ∅ (mkPoolConfig 0 0 0 0) (mkHealthCheck false 0 0) 0 0 0 0 0 "").
Definition sample_start : world cmd (State Pools) label :=
  {| st := fresh_backend (no_pools); tasks := {[0%nat := Ret (Again Caller)]}; panicked := false |}.
Definition play (sched : list (nat * (State Pools -> forall X, cmd X -> X))) : option (world cmd (State Pools) label) :=
  run exec panics (body "backend" sample_config) sched sample_start.
Definition final {A} (f : world cmd (State Pools) label -> A) (sched : list (nat * (State Pools -> forall X, cmd X -> X))) : option A := f <$> play sched.

Lemma bw_play_reachable sched w : play sched = Some w -> reachable exec panics (body "backend" sample_config) (fun _ _ => False) sample_start w.
Proof. apply run_reachable, reach_init. Qed.

Lemma bw_final_played {A} (f : world cmd (State Pools) label -> A) sched a : final f sched = Some a -> exists w, play sched = Some w /\ f w = a.
Proof. unfold final. destruct (play sched) as [w|]; [|done]. intros [= <-]. by exists w. Qed.

Lemma bw_sample_running : running_backend sample_start.
Proof. split_and!; [done|done|]. intros t p Hp. cbn in Hp. by apply lookup_singleton_Some in Hp as [_ <-]. Qed.

Definition ask (id : jvalue) : Request := mkRequest "2.0" "tools/list" JNull id.
Definition reply (id : jvalue) : Response := mkResponse "2.0" (JString "tools"%string) None id.
Definition sent (id : jvalue) : recv_res := match Marshal_response (reply id) with Ok d => RText d | Err _ => REof end.

#[local] Notation schedule := (list (nat * (State Pools -> forall X, cmd X -> X))).
Definition calling (t : nat) (c : call) (n : nat) : schedule := moves 3 0 (on_call c) ++ moves n t (on_call c).

(** The goroutines: 0 the callers, 1 the call of Start, 2 and 3 the pings and the reader of the connection to ws://a, 4 and 5
    of that to ws://b, 6 the maintenance; then one for each call. *)
Definition starting : schedule := calling 1 CStart 31.
Definition reading (t : nat) (r : recv_res) : schedule := moves 6 t (on_read r).

(** The first endpoint of a request with an id is the second one. *)
Definition exchange : schedule :=
  starting ++ calling 7 (CSend (ask (JString "a"%string))) 9 ++ reading 5 (sent (JString "a"%string)) ++ moves 9 7 on_tick.
Definition about_to_write : schedule := starting ++ calling 7 (CSend (ask (JString "a"%string))) 8.

Example ws_backend_answers :
  final (fun w => (answers (log (st w)), panicked w)) exchange =
    Some ([(ask (JString "a"%string), Ok (Some (reply (JString "a"%string))))], false).
Proof. vm_compute. reflexivity. Qed.

(** The ids that the backend makes and the choice of the endpoint share a counter: requests without an id use even values
    alone, so of an even number of endpoints they reach every other one. *)
Lemma half_of_endpoints k m : 0 < m -> Z.even m = true -> Z.even (endpoint_index (2 * k) m) = true.
Proof.
  intros Hm He. unfold endpoint_index. cbn zeta. destruct (_ <? _); [done|]. rewrite Z.mod_eq by lia.
  rewrite Z.even_sub, !Z.even_mul, He. done.
Qed.

Example one_endpoint_used :
  final (fun w => map (fun k => (c_url (snd k), c_inUse (snd k))) (map_to_list (connections (conns (st w)))))
    (starting ++ calling 7 (CSend (ask JNull)) 20 ++ calling 7 (CSend (ask JNull)) 9) = Some [("ws://b", false); ("ws://a", true)]%string.
Proof. vm_compute. reflexivity. Qed.

(** A request after Stop: a connection is made for it and stays in the pool, its reader ends at once, the request times out. *)
Example request_after_stop :
  final (fun w => (running (st w), map snd (answers (log (st w))), length (filter (fun kv => c_closed (snd kv) = false) (map_to_list (connections (conns (st w)))))))
    (starting ++ calling 7 CStop 13 ++ calling 9 (CSend (ask (JString "a"%string))) 25) = Some (false, [Err (CreateConnectionTimeoutError (30 * Second))], 1%nat).
Proof. vm_compute. reflexivity. Qed.

(** *** Witnesses *)

Lemma ws_backend_responses_match_witness :
  exists w, play exchange = Some w /\
    exists a d, Some (reply (JString "a"%string)) = Some a /\ d ∈ heard (log (st w)) /\ Unmarshal_response d = Ok a /\ resp_ID a = JString "a".
Proof.
  destruct (bw_final_played (fun w => answers (log (st w))) exchange [(ask (JString "a"%string), Ok (Some (reply (JString "a"%string))))])
    as (w & Ev & Ha); [vm_compute; reflexivity|]. exists w. split; [exact Ev|].
  apply (ws_backend_responses_match "backend" sample_config sample_start w (ask (JString "a"%string)) (Some (reply (JString "a"%string)))
           bw_sample_running (bw_play_reachable _ _ Ev)). rewrite Ha. left.
Defined.

Lemma ws_connection_exclusive_witness :
  exists w p, play about_to_write = Some w /\ tasks w !! 7%nat = Some p /\ writing_to p = Some 3%nat /\ 7%nat = 7%nat.
Proof.
  destruct (bw_final_played (fun w => p ← tasks w !! 7%nat; writing_to p) about_to_write (Some 3%nat)) as (w & Ev & Hw); [vm_compute; reflexivity|].
  destruct (tasks w !! 7%nat) as [p|] eqn:Ep; [|discriminate Hw]. exists w, p. split; [exact Ev|]. split; [exact Ep|]. split; [exact Hw|].
  exact (ws_connection_exclusive "backend" sample_config sample_start w 7 7 p p 3 bw_sample_running (bw_play_reachable _ _ Ev) Ep Ep Hw Hw).
Defined.

End WebSocketBackend.
