(* ===== verification/BackendSse.v ===== *)
(** * The SSE backend

    [services/gateway/internal/backends/sse/backend.go]: requests are posted over HTTP and answered on a stream of events,
    which one goroutine reads and another connects again, as programs of [Goroutines] over the commands of [Backends]. *)
From S2P Require Import Prelude GoStrings GoUnicode Mcp SseStream Goroutines DirectClient Backends BackendTheorems.
From stdpp Require Import pretty.
From Stdlib Require Import Strings.Ascii.
#[local] Open Scope Z_scope.

Module SSEBackend.
Import Backend BackendDiscipline.

(** ** Configuration *)

Record Config := mkConfig {
  BaseURL : string; StreamEndpoint : string; RequestEndpoint : string; Headers : gmap string string; Timeout : Z; ReconnectDelay : Z;
  MaxReconnects : Z; HealthCheck : HealthCheckConfig; BufferSize : Z; KeepAliveTimeout : Z }.

Definition with_defaults (c : Config) : Config :=
  mkConfig (BaseURL c) (if bool_decide (StreamEndpoint c = EmptyString) then "/events" else StreamEndpoint c)
    (if bool_decide (RequestEndpoint c = EmptyString) then "/api/v1/request" else RequestEndpoint c) (Headers c) (or_default (30 * Second) (Timeout c))
    (or_default (5 * Second) (ReconnectDelay c)) (or_default 10 (MaxReconnects c)) (health_defaults (HealthCheck c))
    (or_default (64 * 1024) (BufferSize c)) (or_default (60 * Second) (KeepAliveTimeout c)).

(** ** The stream

    [readers]: the goroutines that hold the read lock of the stream while they read; [body]: the response to close;
    [cancelled]: the context under which the stream was opened has ended. *)
Record Stream := mkStream { readers : nat; body_open : bool; has_reader : bool; connected : bool; reconnectCount : Z; cancelled : bool }.
Definition no_stream : Stream := mkStream 0 false false false 0 false.

(** The write lock of the stream is free. *)
Definition writable (x : Stream) : bool := (readers x =? 0)%nat.
Definition open_stream (x : Stream) : unit * Stream := (tt, mkStream (readers x) true true true 0 false).
Definition close_stream (x : Stream) : unit * Stream := (tt, mkStream (readers x) false (has_reader x) false (reconnectCount x) (cancelled x)).
(** The read lock is kept when there is a stream to read. *)
Definition begin_read (x : Stream) : bool * Stream :=
  if connected x && has_reader x then (true, mkStream (S (readers x)) (body_open x) (has_reader x) (connected x) (reconnectCount x) (cancelled x)) else (false, x).
Definition end_read (x : Stream) : unit * Stream :=
  (tt, mkStream (pred (readers x)) (body_open x) (has_reader x) (connected x) (reconnectCount x) (cancelled x)).
Definition count_failure (x : Stream) : unit * Stream :=
  (tt, mkStream (readers x) (body_open x) (has_reader x) (connected x) (i64_add (reconnectCount x) 1) (cancelled x)).
Definition cancel_stream (x : Stream) : unit * Stream :=
  (tt, mkStream (readers x) (body_open x) (has_reader x) (connected x) (reconnectCount x) (body_open x || cancelled x)).

(** The data of a line of the stream; other lines are skipped. *)
Definition line_data (line : string) : option string :=
  let line := TrimSpace line in
  if bool_decide (line = EmptyString) then None
  else if HasPrefix line Sse.data_prefix then Some (Sse.TrimData line) else None.

(** The status and the content type with which a stream opens. *)
Definition stream_accepted (status : Z) (contentType : string) : option error :=
  if negb (status =? 200) then Some (New ("SSE stream returned status " +:+ pretty status))
  else if negb (HasPrefix contentType "text/event-stream") then Some (New ("invalid content type: " +:+ contentType))
  else None.
Definition request_accepted (status : Z) (body : string) : option error :=
  if (status <? 200) || (300 <=? status) then Some (New ("HTTP request failed with status " +:+ pretty status +:+ ": " +:+ body)) else None.

Inductive label := Caller | Reader | Monitor | HealthLoop.
#[local] Notation cmd := (cmd Stream).
#[local] Notation P := (prog cmd label).
#[local] Notation next := (Goroutines.next label).

Section SSE.
Context `{JSON} `{Direct.Sprintf}.
Variable name : string.
Variable config : Config.

Definition leave : P next := _ ← perform WgDone; mret Exit.

(** *** The stream *)

Definition connectSSE : P (option error) :=
  r ← perform (Exchange EmptyString);
  match r with
  | Failed t => mret (Some (Wrap "connect" (External t)))
  | Answered status contentType _ =>
      match stream_accepted status contentType with
      | Some err => mret (Some err)
      | None => _ ← with_conns_when writable open_stream; mret None
      end
  end.

Definition handleSSEReadError : P unit :=
  _ ← with_conns_when writable close_stream;
  perform (Metric (set_healthy false)).

Definition parseSSEEvent (line : string) : P unit :=
  match line_data line with
  | None => mret tt
  | Some data => match Unmarshal_response data with Ok r => routeResponse r | Err _ => mret tt end
  end.

(** One round of [readSSEEvents]: the read lock is held while the line is awaited. *)
Definition readSSEEvents : P next :=
  s ← perform ShutdownSeen;
  if s : bool then leave
  else
    b ← with_conns begin_read;
    if negb b then _ ← perform (Sleep (100 * Millisecond)); mret (Again Reader)
    else
      x ← perform Receive;
      _ ← with_conns end_read;
      match x with
      | RText line => _ ← parseSSEEvent line; mret (Again Reader)
      | REof | RError => _ ← handleSSEReadError; mret (Again Reader)
      end.

(** One round of [connectionMonitor].  The context of the attempt is cancelled when it is over. *)
Definition connectionMonitor : P next :=
  t ← perform Tick;
  match t with
  | TickShutdown => leave
  | Ticked =>
      c ← with_conns (fun x => (connected x, x));
      n ← with_conns (fun x => (reconnectCount x, x));
      _ ← (if negb c && (n <? MaxReconnects config) then
             _ ← perform (Sleep (ReconnectDelay config));
             e ← connectSSE;
             _ ← (match e with Some _ => with_conns count_failure | None => perform (Metric (set_healthy true)) end);
             with_conns cancel_stream
           else mret tt);
      mret (Again Monitor)
  end.

(** *** Requests *)

Definition validateRequestPreconditions : P (option error) :=
  v ← checkRunning;
  match v with
  | Some err => mret (Some err)
  | None => c ← with_conns (fun x => (connected x, x)); mret (if c : bool then None else Some (CreateBackendUnavailableError "SSE stream not connected"))
  end.

Definition sendHTTPRequest (q : Request) : P (option error) :=
  match Marshal_request q with
  | Err t => mret (Some (Wrap "failed to marshal request" (External t)))
  | Ok doc =>
      r ← perform (Exchange doc);
      mret (match r with Failed t => Some (Wrap "write" (External t)) | Answered status _ body => request_accepted status body end)
  end.

Definition SendRequest (q : Request) : P (Request * result error (option Response)) :=
  v ← validateRequestPreconditions;
  match v with
  | Some err => _ ← recordErrorMetric; mret (q, Err err)
  | None =>
      p ← ensureRequestID name q;
      ch ← perform (Register (snd p));
      startTime ← perform Now;
      e ← sendHTTPRequest (fst p);
      r ← (match e with
           | Some err => _ ← perform (Metric count_error); mret (Err (Wrap "write" err))
           | None => await_response (Timeout config) startTime ch
           end);
      _ ← (match r with Err _ => recordErrorMetric | Ok _ => mret tt end);
      _ ← perform (Cleanup (snd p) ch);
      mret (fst p, r)
  end.

(** *** Health *)

Definition Health : P (option error) :=
  v ← checkRunning;
  match v with
  | Some err => mret (Some err)
  | None =>
      c ← with_conns (fun x => (connected x, x));
      if negb c then now ← perform Now; _ ← perform (Metric (checked false now)); mret (Some (CreateBackendUnavailableError "SSE stream not connected"))
      else
        ping ← (if Enabled (HealthCheck config) then now ← perform Now; p ← SendRequest (ping_request now); mret (snd p) else mret (Ok None));
        now ← perform Now;
        match ping with
        | Err err => _ ← perform (Metric (checked false now)); mret (Some (Wrap "connect" err))
        | Ok _ => _ ← perform (Metric (checked true now)); mret None
        end
  end.

Definition healthCheckLoop : P next := health_round Health HealthLoop leave.

(** *** Start and Stop *)

Definition Start : P (option error) :=
  _ ← perform Lock;
  r ← perform Running;
  if r : bool then _ ← perform Unlock; mret (Some (New ("backend " +:+ name +:+ " already running")))
  else
    e ← connectSSE;
    match e with
    | Some err => _ ← perform Unlock; mret (Some (Wrap "connect" err))
    | None =>
        _ ← perform (SetRunning true);
        now ← perform Now;
        _ ← perform (Metric (connected_at now));
        _ ← perform WgAdd;
        _ ← go (Ret (Again Reader));
        _ ← perform WgAdd;
        _ ← go (ticking (5 * Second) Monitor);
        _ ← (if Enabled (HealthCheck config) then _ ← perform WgAdd; go (ticking (Interval (HealthCheck config)) HealthLoop) else mret tt);
        _ ← perform Unlock;
        mret None
    end.

Definition Stop : P (option error) :=
  _ ← perform Lock;
  r ← perform Running;
  if negb r then _ ← perform Unlock; mret None
  else
    _ ← perform CloseShutdown;
    _ ← with_conns_when writable close_stream;
    done ← perform NewSignal;
    _ ← go (_ ← perform WgWait; _ ← perform (Raise done); mret Exit);
    x ← perform (Await done);
    match x with
    | AwaitCancelled t => _ ← perform Unlock; mret (Some (External t))
    | Raised | AwaitTimeout =>
        _ ← perform (SetRunning false);
        _ ← perform (Metric (set_healthy false));
        _ ← perform Unlock;
        mret None
    end.

(** *** The gateway's calls *)

Definition serve (c : call) : P next :=
  match c with
  | CSend q => p ← SendRequest q; _ ← perform (Return (fst p) (snd p)); mret Exit
  | CStart => _ ← Start; mret Exit
  | CStop => _ ← Stop; mret Exit
  | CHealth => _ ← Health; mret Exit
  end.
Definition calls : P next := c ← perform Call; _ ← go (serve c); mret (Again Caller).

Definition body (l : label) : P next :=
  match l with Caller => calls | Reader => readSSEEvents | Monitor => connectionMonitor | HealthLoop => healthCheckLoop end.

(** A fresh backend, and goroutines that call it. *)
Definition running_backend (w : world cmd (State Stream) label) : Prop :=
  st w = fresh_backend no_stream /\ panicked w = false /\ forall t p, tasks w !! t = Some p -> p = Ret (Again Caller).

(** ** Typing *)

(** The response in a line. *)
Definition line_response (line : string) : result string Response :=
  match line_data line with Some data => Unmarshal_response data | None => Err EmptyString end.

Definition shares (l : label) : Z := match l with Caller => 0 | _ => 1 end.
Definition rights (l : label) : Z := 0.
(** A stream that is connected has been opened. *)
Definition stream_ok (x : Stream) : Prop := connected x = true -> body_open x = true /\ has_reader x = true.
Definition none (x : Stream) : gset nat := ∅.
Definition ticks (d : Z) : Prop := d = 5 * Second \/ (Enabled (HealthCheck config) = true /\ d = Interval (HealthCheck config)).

#[local] Notation Pre := (pre line_response stream_ok none ticks).
#[local] Notation Post := (post false).
#[local] Notation Valid := (valid stream_ok).
#[local] Notation WP p e Q := (wp Pre Valid Post split exit_ok (label_env shares rights) p e Q).
#[local] Notation OK p e := (goroutine_ok Pre Valid Post split exit_ok (label_env shares rights) p e).

Definition keeps_stream {A} (f : Stream -> A * Stream) : Prop := forall x, stream_ok x -> stream_ok (snd (f x)).

Lemma be_with_conns {A} `{EqDecision A} ready (f : Stream -> A * Stream) b n c g e (Q : A -> env -> Prop) :
  stands b n c g e -> keeps_stream f -> (forall a e', stands b n c g e' -> texts e' = texts e -> Q a e') -> WP (with_conns_when ready f) e Q.
Proof.
  intros He Hf Hk. apply b_with_conns; [intros x Hx _; split; [by apply Hf|done]|]. intros a e' _ ->. apply Hk; [by apply b_stands_same|done].
Qed.

Ltac stream_same :=
  unfold keeps_stream, stream_ok, open_stream, begin_read, close_stream, end_read, count_failure, cancel_stream;
  let y := fresh "y" in intros y; try (destruct (connected y && has_reader y)); cbn; rewrite ?orb_true_iff; intuition congruence.

Lemma be_connectSSE b n c g e : stands b n c g e -> WP connectSSE e (fun _ e' => stands b n c g e').
Proof.
  intros He. unfold connectSSE. b_walk. b_branch; b_walk; [done|]. b_branch; b_walk; [done|].
  eapply be_with_conns; [exact He|stream_same|]. intros ? e1 He1 _. by b_walk.
Qed.

Lemma be_connected b n c g e (Q : bool -> env -> Prop) :
  stands b n c g e -> (forall a e', stands b n c g e' -> Q a e') -> WP (with_conns (fun x => (connected x, x))) e Q.
Proof. intros He Hk. eapply be_with_conns; [exact He|stream_same|]. intros a e' He' _. by apply Hk. Qed.

Lemma be_readSSEEvents : OK readSSEEvents (holding 1 0).
Proof.
  pose proof (b_stands_holding 1 0) as He. unfold readSSEEvents, leave, handleSSEReadError, parseSSEEvent, goroutine_ok. b_walk. b_branch; b_walk; [b_end|].
  eapply be_with_conns; [exact He|stream_same|]. intros b e1 He1 _. b_branch; b_walk; [b_end|]. eapply b_Receive_rule; [exact He1|]. intros y e2 He2 Ht. b_walk.
  eapply be_with_conns; [exact He2|stream_same|]. intros ? e3 He3 Ht3.
  destruct y as [line| |]; b_walk; [|by (eapply be_with_conns; [exact He3|stream_same|]; intros ? e4 He4 _; b_walk; b_end)..].
  destruct (line_data line) as [data|] eqn:El; b_walk; [|b_end]. destruct (Unmarshal_response data) as [r|] eqn:Er; b_walk; [|b_end].
  eapply (b_routeResponse line_response) with (d := line); [rewrite Ht3; by apply Ht|unfold line_response; by rewrite El|]. b_walk. b_end.
Qed.

Lemma be_connectionMonitor : OK connectionMonitor (holding 1 0).
Proof.
  pose proof (b_stands_holding 1 0) as He. unfold connectionMonitor, leave, goroutine_ok. b_walk. b_branch; b_walk; [|b_end].
  eapply be_connected; [exact He|]. intros c e1 He1. b_walk. eapply be_with_conns; [exact He1|stream_same|]. intros n e2 He2 _. b_walk.
  eapply wp_mono with (Q := fun _ e' => stands false 1 0 ∅ e'); [|intros ? e3 He3; b_walk; b_end]. b_branch; b_walk; [|done].
  eapply wp_mono; [by apply be_connectSSE|]. intros y e3 He3. b_walk. eapply wp_mono with (Q := fun _ e' => stands false 1 0 ∅ e').
  { destruct y; [|by b_walk]. eapply be_with_conns; [exact He3|stream_same|]. by intros. }
  intros ? e4 He4. eapply be_with_conns; [exact He4|stream_same|]. by intros.
Qed.

Lemma be_validate n c g e : stands false n c g e -> WP validateRequestPreconditions e (fun _ e' => stands false n c g e').
Proof. intros He. unfold validateRequestPreconditions. b_walk. b_branch; b_walk; [done|]. eapply be_connected; [exact He|]. intros ? e1 He1. by b_walk. Qed.

Lemma be_SendRequest q n c g e :
  stands false n c g e ->
  WP (SendRequest q) e (fun r e' => stands false n c g e' /\ forall a, snd r = Ok a -> exists b, a = Some b /\ (Direct.id_text (req_ID (fst r)), b) ∈ got e').
Proof.
  intros He. unfold SendRequest. b_walk. eapply wp_mono; [by apply be_validate|]. intros v e0 He0. b_branch; b_walk; [done|].
  apply b_ensureRequestID. intros [q' id] Hid. cbn in Hid. subst id. b_walk. destruct He0 as [J1 J2 J3 J4 J5]. apply wp_perform; [done|]. intros ch _. b_walk.
  eapply wp_mono with (Q := fun _ e' => e' = set_own (Some (Direct.id_text (req_ID q'), ch)) e0); [unfold sendHTTPRequest; b_branch; by b_walk|]. intros s e1 ->. b_walk.
  eapply wp_mono with (Q := fun r e' => own e' = Some (Direct.id_text (req_ID q'), ch) /\ mu e' = false /\ owed e' = n /\ closer e' = c /\ tokens e' = g /\
    forall a, r = Ok a -> exists b, a = Some b /\ (Direct.id_text (req_ID q'), b) ∈ got e').
  { destruct s; b_walk; [by split_and!|]. eapply b_await_response; [done|]. intros y e' H1 H2 H3 H4 H5 H6. cbn in *. split_and!; congruence || done. }
  intros y e2 (H1 & H2 & H3 & H4 & H5 & H6). b_walk. eapply wp_mono with (Q := fun _ e' => e' = e2); [b_branch; by b_walk|]. intros ? e' ->. b_walk.
  apply wp_perform; [done|]. intros ? _. by b_walk.
Qed.

Lemma be_Health n c g e : stands false n c g e -> WP Health e (fun _ e' => stands false n c g e').
Proof.
  intros He. unfold Health. b_walk. b_branch; b_walk; [done|]. eapply be_connected; [exact He|]. intros k e1 He1. b_branch; b_walk; [done|].
  eapply wp_mono with (Q := fun _ e' => stands false n c g e'); [b_branch; b_walk; [|done]|].
  { eapply wp_mono; [by apply be_SendRequest|]. intros y e2 [He2 _]. by b_walk. }
  intros y e2 He2. b_walk_all; done.
Qed.

Lemma be_healthCheckLoop : OK healthCheckLoop (holding 1 0).
Proof.
  pose proof (b_stands_holding 1 0) as He. unfold healthCheckLoop, health_round, leave, goroutine_ok. b_walk. b_branch; b_walk; [|b_end].
  eapply wp_mono; [by apply be_Health|]. intros ? e1 He1. b_walk. b_end.
Qed.

Lemma be_Start e : stands false 0 0 ∅ e -> WP Start e (fun _ e' => stands false 0 0 ∅ e').
Proof.
  intros He. unfold Start. b_walk. b_branch; b_walk; [done|]. eapply wp_mono; [by apply be_connectSSE|]. intros y e1 He1. cbn beta in He1. b_branch; b_walk; [done|].
  cbn [andb] in *. eapply b_go with (m := 1) (d := 0); [eassumption|lia|lia|by apply b_loop|]. intros e2 He2. cbn in He2. b_walk.
  eapply b_go with (m := 1) (d := 0); [eassumption|lia|lia|apply b_ticking; [by left|done|done]|]. intros e3 He3. cbn in He3. b_walk.
  eapply wp_mono with (Q := fun _ e' => stands true 0 0 ∅ e'); [|intros ? e4 He4; by b_walk]. b_branch; b_walk; [|done].
  eapply b_go with (m := 1) (d := 0); [eassumption|lia|lia|apply b_ticking; [by right|done|done]|]. by intros e4 He4.
Qed.

Lemma be_Stop e : stands false 0 0 ∅ e -> WP Stop e (fun _ e' => stands false 0 0 ∅ e').
Proof.
  intros He. unfold Stop. b_walk. b_branch; b_walk; [done|]. eapply be_with_conns; [eassumption|stream_same|]. intros ? e1 He1 _. b_walk.
  eapply b_go with (m := 0) (d := 0); [eassumption|lia|lia|unfold goroutine_ok; pose proof (b_stands_holding 0 0); b_walk; b_end|]. intros e3 He3. b_walk. cbn in He3.
  b_branch; by b_walk.
Qed.

Lemma be_calls : OK calls nothing.
Proof.
  pose proof (b_stands_holding 0 0 : stands false 0 0 ∅ nothing) as He. unfold calls, goroutine_ok. b_walk.
  eapply b_go with (m := 0) (d := 0); [exact He|lia|lia| |intros e1 He1; b_walk; b_end]. change (holding 0 0) with nothing. unfold goroutine_ok.
  destruct x as [q| | |]; cbn [serve]; b_walk.
  - eapply wp_mono; [by apply be_SendRequest|]. intros [q' r] e1 [He1 Hr]. cbn [fst snd] in *. b_walk. apply wp_perform; [|intros ? _; cbn [post]; b_walk; b_end].
    destruct r as [a|]; [|done]. destruct (Hr a eq_refl) as (b & -> & Hb). exact Hb.
  - eapply wp_mono; [by apply be_Start|]. intros ? e1 He1. b_walk. b_end.
  - eapply wp_mono; [by apply be_Stop|]. intros ? e1 He1. b_walk. b_end.
  - eapply wp_mono; [by apply be_Health|]. intros ? e1 He1. b_walk. b_end.
Qed.

#[local] Notation sse_reachable w0 w := (reachable exec panics body (fun _ _ => False) w0 w).

Lemma be_typed w0 w : running_backend w0 -> sse_reachable w0 w ->
  typed panics (Inv line_response stream_ok none false) Pre Valid Post split exit_ok (label_env shares rights) crash w.
Proof.
  intros (Hs & Hp & Ht) Hr. eapply sound; [| |exact Hr].
  - apply backend_rules. intros []; [apply be_calls|apply be_readSSEEvents|apply be_connectionMonitor|apply be_healthCheckLoop].
  - destruct w0 as [s ts pn]. cbn in *. subst. apply backend_typed_start; [done|]. intros t p Hin. rewrite (Ht t p Hin). apply b_goes_on. by split.
Qed.

(** ** Every interleaving *)

(** C15: Whatever the interleaving of requests, lines of the stream, reconnections, health checks, starts and stops, a request to the
    SSE backend that ends without an error is answered by a response in the data of a line of the stream, whose id is the
    text of the request's id. *)
Theorem sse_backend_responses_match w0 w q r :
  running_backend w0 -> sse_reachable w0 w -> (q, Ok r) ∈ answers (log (st w)) ->
  exists a line data, r = Some a /\ line ∈ heard (log (st w)) /\ line_data line = Some data /\ Unmarshal_response data = Ok a /\
    resp_ID a = JString (Direct.id_text (req_ID q)).
Proof.
  intros H0' Hr Ha. destruct (backend_typed_response _ _ _ _ _ _ _ _ _ _ (be_typed _ _ H0' Hr) Ha) as (a & -> & d & Hd & Hu & Hi).
  unfold line_response in Hu. destruct (line_data d) as [data|] eqn:El; [|done]. by exists a, d, data.
Qed.

(** Whatever the interleaving, the SSE backend can stop the gateway only in a Stop that signals a shutdown that was
    signalled before, or by making the ticker of enabled health checks whose interval is not positive. *)
Lemma sse_backend_panics w0 w :
  running_backend w0 -> sse_reachable w0 w -> panicked w = true ->
  exists t, (exists k, tasks w !! t = Some (Do CloseShutdown k) /\ shutdownCh (st w) = true) \/
            (exists k, tasks w !! t = Some (Do (NewTicker (Interval (HealthCheck config))) k) /\
               Enabled (HealthCheck config) = true /\ Interval (HealthCheck config) <= 0).
Proof.
  intros H0' Hr Hp. destruct (backend_typed_panic _ _ _ _ _ _ _ _ (be_typed _ _ H0' Hr) Hp) as (t & [Hc|[(k & Ht & Hd & ? & Hs)|(d & k & Ht & [-> |[He ->]] & Hd)]]);
    [exists t; by left|done|by unfold Second in Hd|exists t; right; by exists k].
Qed.

End SSE.
(** ** Runs *)

#[local] Existing Instance Codec.codec.
#[local] Instance sample_printf : Direct.Sprintf := fun _ => "?"%string.

Definition sample_config : Config := with_defaults (mkConfig "http://server" "" "" ∅ 0 0 0 (mkHealthCheck false 0 0) 0 0).
Definition sample_start : world cmd (State Stream) label :=
  {| st := fresh_backend (no_stream); tasks := {[0%nat := Ret (Again Caller)]}; panicked := false |}.
Definition play (sched : list (nat * (State Stream -> forall X, cmd X -> X))) : option (world cmd (State Stream) label) :=
  run exec panics (body "backend" sample_config) sched sample_start.
Definition final {A} (f : world cmd (State Stream) label -> A) (sched : list (nat * (State Stream -> forall X, cmd X -> X))) : option A := f <$> play sched.

Lemma be_play_reachable sched w : play sched = Some w -> reachable exec panics (body "backend" sample_config) (fun _ _ => False) sample_start w.
Proof. apply run_reachable, reach_init. Qed.

Lemma be_final_played {A} (f : world cmd (State Stream) label -> A) sched a : final f sched = Some a -> exists w, play sched = Some w /\ f w = a.
Proof. unfold final. destruct (play sched) as [w|]; [|done]. intros [= <-]. by exists w. Qed.

Lemma be_sample_running : running_backend sample_start.
Proof. split_and!; [done|done|]. intros t p Hp. cbn in Hp. by apply lookup_singleton_Some in Hp as [_ <-]. Qed.

Definition ask (id : jvalue) : Request := mkRequest "2.0" "tools/list" JNull id.
Definition reply (id : jvalue) : Response := mkResponse "2.0" (JString "tools"%string) None id.
Definition newline : string := String "010"%char EmptyString.
Definition sent (id : jvalue) : recv_res :=
  match Marshal_response (reply id) with Ok d => RText (Sse.data_prefix +:+ d +:+ newline) | Err _ => REof end.

#[local] Notation schedule := (list (nat * (State Stream -> forall X, cmd X -> X))).
Definition calling (t : nat) (c : call) (n : nat) : schedule := moves 3 0 (on_call c) ++ moves n t (on_call c).
(** The goroutines: 0 the callers, 1 the call of Start, which starts 2 (the reader) and 3 (the monitor); then one for each call. *)
Definition starting : schedule := calling 1 CStart 13.
Definition reading (r : recv_res) : schedule := moves 7 2 (on_read r).
Definition exchange : schedule :=
  starting ++ calling 4 (CSend (ask (JString "a"%string))) 6 ++ reading (sent (JString "a"%string)) ++ moves 6 4 on_tick.

Example sse_backend_answers :
  final (fun w => (answers (log (st w)), panicked w)) exchange =
    Some ([(ask (JString "a"%string), Ok (Some (reply (JString "a"%string))))], false).
Proof. vm_compute. reflexivity. Qed.

(** The stream ends and is opened again: when the monitor is done, the context of the new stream is cancelled. *)
Definition reconnected : schedule := starting ++ reading REof ++ moves 10 3 on_tick.
Example reconnection_cancelled : final (fun w => (connected (conns (st w)), cancelled (conns (st w)))) reconnected = Some (true, true).
Proof. vm_compute. reflexivity. Qed.

(** A Stop while the reader awaits a line: it has signalled the shutdown and holds the mutex, and cannot go on to close the
    stream, which is what would end the read. *)
Definition awaiting : schedule := starting ++ moves 3 2 on_tick ++ calling 4 CStop 3.
Example stop_waits_for_the_stream :
  final (fun w => (shutdownCh (st w), locked (st w), readers (conns (st w)), body_open (conns (st w)))) awaiting = Some (true, true, 1%nat, true) /\
  play (awaiting ++ moves 1 4 on_tick) = None.
Proof. split; vm_compute; reflexivity. Qed.

(** *** Witness *)

Lemma sse_backend_responses_match_witness :
  exists w, play exchange = Some w /\
    exists a line data, Some (reply (JString "a"%string)) = Some a /\ line ∈ heard (log (st w)) /\ line_data line = Some data /\
      Unmarshal_response data = Ok a /\ resp_ID a = JString "a".
Proof.
  destruct (be_final_played (fun w => answers (log (st w))) exchange [(ask (JString "a"%string), Ok (Some (reply (JString "a"%string))))])
    as (w & Ev & Ha); [vm_compute; reflexivity|]. exists w. split; [exact Ev|].
  apply (sse_backend_responses_match "backend" sample_config sample_start w (ask (JString "a"%string)) (Some (reply (JString "a"%string)))
           be_sample_running (be_play_reachable _ _ Ev)). rewrite Ha. left.
Defined.

End SSEBackend.
