(* ===== verification/BackendFactory.v ===== *)
(** * The factory of backends

    [services/gateway/internal/backends/factory.go] and [interface.go]: the configurations of the three backends, read from
    the settings of the gateway, and the backend that a protocol names.  [time.ParseDuration] is a parameter. *)
From S2P Require Import Prelude GoStrings Backends BackendStdio BackendWs BackendSse.
#[local] Open Scope Z_scope.

Module BackendFactory.
Import Backend.

(** A decoded setting: a value of type interface{}. *)
Inductive value := VString (s : string) | VInt (n : Z) | VBool (b : bool) | VList (l : list value) | VMap (l : list (string * value)) | VOther.
Definition settings : Type := list (string * value).

Record BackendConfig := mkBackendConfig { Name : string; Protocol : string; Settings : settings }.

(** A key of a [map[string]interface{}] with the type that is asked for. *)
Definition find_setting (k : string) (m : settings) : option value := snd <$> List.find (fun kv => bool_decide (kv.1 = k)) m.
Definition get_string (k : string) (m : settings) : option string := match find_setting k m with Some (VString s) => Some s | _ => None end.
Definition get_int (k : string) (m : settings) : option Z := match find_setting k m with Some (VInt n) => Some n | _ => None end.
Definition get_bool (k : string) (m : settings) : option bool := match find_setting k m with Some (VBool b) => Some b | _ => None end.
Definition get_list (k : string) (m : settings) : option (list value) := match find_setting k m with Some (VList l) => Some l | _ => None end.
Definition get_map (k : string) (m : settings) : option settings := match find_setting k m with Some (VMap l) => Some l | _ => None end.

(** The strings of a map; other values are left out. *)
Definition string_entries (m : settings) : gmap string string :=
  foldr (fun kv acc => match kv.2 with VString s => <[kv.1 := s]> acc | _ => acc end) ∅ m.

(** A list of strings: an error at the first element that is none. *)
Fixpoint string_list (what : string) (i : nat) (l : list value) : result error (list string) :=
  match l with
  | [] => Ok []
  | VString s :: l => match string_list what (S i) l with Ok r => Ok (s :: r) | Err e => Err e end
  | _ => Err (New ("invalid " +:+ what +:+ " element"))
  end.
Definition all_strings (l : list value) : bool := forallb (fun v => match v with VString _ => true | _ => false end) l.

Section Factory.
Variable ParseDuration : string -> result string Z.

(** A duration that is present and can be parsed, else what was there. *)
Definition get_duration (k : string) (m : settings) (d : Z) : Z :=
  match get_string k m with Some s => match ParseDuration s with Ok v => v | Err _ => d end | None => d end.

(** [parseStdioHealthCheck], [parseWebSocketHealthCheck] and [parseSSEHealthCheckConfig]. *)
Definition parseHealthCheck (m : settings) : HealthCheckConfig :=
  match get_map "health_check" m with
  | Some h => mkHealthCheck (default false (get_bool "enabled" h)) (get_duration "interval" h 0) (get_duration "timeout" h 0)
  | None => mkHealthCheck false 0 0
  end.

(** ** stdio *)

Definition parseStdioCommand (m : settings) : result error (list string) :=
  match get_list "command" m with Some l => string_list "command" 0 l | None => Ok [] end.
Definition parseStdioEnv (m : settings) : gmap string string := match get_map "env" m with Some e => string_entries e | None => ∅ end.
Definition parseStdioProcess (m : settings) : StdioBackend.ProcessConfig :=
  match get_map "process" m with
  | Some p => StdioBackend.mkProcess (default 0 (get_int "max_restarts" p)) (get_duration "restart_delay" p 0)
  | None => StdioBackend.mkProcess 0 0
  end.
Definition createStdioBackend (c : BackendConfig) : result error StdioBackend.Config :=
  let m := Settings c in
  match parseStdioCommand m with
  | Err e => Err e
  | Ok command =>
      Ok (StdioBackend.with_defaults (StdioBackend.mkConfig command (default EmptyString (get_string "working_dir" m)) (parseStdioEnv m)
            (parseHealthCheck m) (parseStdioProcess m) (get_duration "timeout" m 0) 0))
  end.

(** ** WebSocket *)

Definition parseWebSocketEndpoints (m : settings) : result error (list string) :=
  match get_list "endpoints" m with Some l => string_list "endpoint" 0 l | None => Ok [] end.
Definition parseWebSocketHeaders (m : settings) : gmap string string := match get_map "headers" m with Some h => string_entries h | None => ∅ end.
Definition parseWebSocketConnectionPool (m : settings) : WebSocketBackend.PoolConfig :=
  match get_map "connection_pool" m with
  | Some p => WebSocketBackend.mkPoolConfig (default 0 (get_int "min_size" p)) (default 0 (get_int "max_size" p)) (get_duration "max_idle" p 0) (get_duration "idle_timeout" p 0)
  | None => WebSocketBackend.mkPoolConfig 0 0 0 0
  end.
Definition createWebSocketBackend (c : BackendConfig) : result error WebSocketBackend.Config :=
  let m := Settings c in
  match parseWebSocketEndpoints m with
  | Err e => Err e
  | Ok endpoints =>
      Ok (WebSocketBackend.applyDefaultConfig (WebSocketBackend.mkConfig endpoints (parseWebSocketHeaders m) (parseWebSocketConnectionPool m) (parseHealthCheck m)
            (get_duration "timeout" m 0) (get_duration "handshake_timeout" m 0) 0 0 0 (default EmptyString (get_string "origin" m))))
  end.

(** ** SSE *)

Definition createSSEBackend (c : BackendConfig) : SSEBackend.Config :=
  let m := Settings c in
  SSEBackend.with_defaults (SSEBackend.mkConfig (default EmptyString (get_string "base_url" m)) (default EmptyString (get_string "stream_endpoint" m))
    (default EmptyString (get_string "request_endpoint" m)) (match get_map "headers" m with Some h => string_entries h | None => ∅ end)
    (get_duration "timeout" m 0) (get_duration "reconnect_delay" m 0) (default 0 (get_int "max_reconnects" m)) (parseHealthCheck m) 0 0).

(** ** The factory *)

Inductive Backend := StdioWrapper (c : StdioBackend.Config) | WebSocketWrapper (c : WebSocketBackend.Config) | SSEWrapper (c : SSEBackend.Config).

Definition SupportedProtocols : list string := ["stdio"; "websocket"; "ws"; "wss"; "sse"; "server-sent-events"]%string.

Definition one_of (s : string) (l : list string) : bool := existsb (String.eqb s) l.

Definition CreateBackend (c : BackendConfig) : result error Backend :=
  if one_of (Protocol c) ["stdio"%string] then match createStdioBackend c with Ok k => Ok (StdioWrapper k) | Err e => Err e end
  else if one_of (Protocol c) ["websocket"; "ws"; "wss"]%string then match createWebSocketBackend c with Ok k => Ok (WebSocketWrapper k) | Err e => Err e end
  else if one_of (Protocol c) ["sse"; "server-sent-events"]%string then Ok (SSEWrapper (createSSEBackend c))
  else Err (New ("unsupported backend protocol: " +:+ Protocol c)).

Definition GetProtocol (b : Backend) : string := match b with StdioWrapper _ => "stdio" | WebSocketWrapper _ => "websocket" | SSEWrapper _ => "sse" end.

(** ** What it accepts *)

Definition created (r : result error Backend) : Prop := exists b, r = Ok b.

Lemma string_list_spec what i l : (exists r, string_list what i l = Ok r) <-> all_strings l = true.
Proof.
  revert i. induction l as [|v l IH]; intros i; cbn; [split; [done|by eexists]|]. destruct v; cbn; try (split; [by intros []|done]).
  rewrite <- (IH (S i)). destruct (string_list what (S i) l) as [r|e].
  - split; intros _; by eexists.
  - split; by intros [].
Qed.

Lemma string_list_values what i l r : string_list what i l = Ok r -> l = map VString r.
Proof.
  revert i r. induction l as [|v l IH]; intros i r; cbn; [by intros [= <-]|]. destruct v; try done.
  destruct (string_list what (S i) l) as [r'|] eqn:E; [|done]. intros [= <-]. cbn. f_equal. by eapply IH.
Qed.

Definition strings_at (k : string) (m : settings) : bool := match get_list k m with Some l => all_strings l | None => true end.

(** The factory makes a backend exactly when the protocol is one that it reports as supported and the command of a stdio
    backend, or the endpoints of a WebSocket backend, are strings; the backend speaks the protocol that was asked for. *)
Lemma factory_accepts_exactly c :
  created (CreateBackend c) <->
  In (Protocol c) SupportedProtocols /\
  (Protocol c = "stdio"%string -> strings_at "command" (Settings c) = true) /\
  (In (Protocol c) ["websocket"; "ws"; "wss"]%string -> strings_at "endpoints" (Settings c) = true).
Proof.
  unfold created, CreateBackend, one_of, SupportedProtocols, strings_at. destruct c as [n p m]. cbn [Protocol Settings existsb].
  assert (forall what (o : option (list value)), (exists r, match o with Some l => string_list what 0 l | None => Ok [] end = Ok r) <->
    match o with Some l => all_strings l | None => true end = true) as Hl.
  { intros what [l|]; [apply string_list_spec|split; [done|by eexists]]. }
  destruct (String.eqb_spec p "stdio") as [->|N1]; cbn.
  - unfold createStdioBackend, parseStdioCommand. cbn [Settings]. rewrite <- (Hl "command"%string (get_list "command" m)).
    destruct (match get_list "command" m with Some _ => _ | None => _ end) as [r|e].
    + split; [|by eexists]. intros _. split_and!; [tauto|by eexists|]. intros [?|[?|[?|[]]]]; done.
    + split; [by intros []|]. intros (_ & Hx & _). by destruct (Hx eq_refl).
  - destruct (String.eqb_spec p "websocket") as [->|N2]; [|destruct (String.eqb_spec p "ws") as [->|N3]; [|destruct (String.eqb_spec p "wss") as [->|N4]]]; cbn.
    1-3: unfold createWebSocketBackend, parseWebSocketEndpoints; cbn [Settings]; rewrite <- (Hl "endpoint"%string (get_list "endpoints" m));
      destruct (match get_list "endpoints" m with Some _ => _ | None => _ end) as [r|e];
      [split; [intros _; split_and!; [tauto|done|by eexists]|by eexists]|split; [by intros []|intros (_ & _ & Hx); destruct Hx as [? Hx]; [tauto|done]]].
    destruct (String.eqb_spec p "sse") as [->|N5]; [|destruct (String.eqb_spec p "server-sent-events") as [->|N6]]; cbn.
    1-2: split; [intros _; split_and!; [tauto|done|intros [?|[?|[?|[]]]]; done]|by eexists].
    split; [by intros []|]. intros ([?|[?|[?|[?|[?|[?|[]]]]]]] & _); congruence.
Qed.

End Factory.

Lemma created_protocol pd c b : CreateBackend pd c = Ok b -> one_of (GetProtocol b) SupportedProtocols = true.
Proof.
  unfold CreateBackend. destruct (one_of _ _); [destruct (createStdioBackend _ _); [by intros [= <-]|done]|].
  destruct (one_of _ _); [destruct (createWebSocketBackend _ _); [by intros [= <-]|done]|]. destruct (one_of _ _); [by intros [= <-]|done].
Qed.

(** An int in the command is refused; a duration that cannot be parsed is ignored, and the default is taken. *)
Example factory_examples :
  let pd := fun s => if bool_decide (s = "10s"%string) then Ok (10 * Second) else Err "invalid"%string in
  (CreateBackend pd (mkBackendConfig "a" "stdio" [("command", VList [VString "srv"; VInt 3])]%string) = Err (New "invalid command element")) /\
  match CreateBackend pd (mkBackendConfig "a" "sse" [("timeout", VString "ten seconds"); ("reconnect_delay", VString "10s")]%string) with
  | Ok (SSEWrapper k) => (SSEBackend.Timeout k, SSEBackend.ReconnectDelay k) = (30 * Second, 10 * Second)
  | _ => False
  end.
Proof. split; vm_compute; reflexivity. Qed.

End BackendFactory.
